(* ===== verification/_CoqProject ===== *)
-Q . S2P
Prelude.v
ByteArray.v
Codec.v
StdString.v
HashUtil.v
Ext.v
StdMap.v
Timer.v
IOManager.v
Wakeup.v
Fiber.v
Sync.v
Thread.v
Scheduler.v
SchedulerSafety.v
Address.v
UrlParser.v
Uri.v
Log.v
Config.v
LexicalCast.v
LogConfig.v
Env.v
Modules.v
JsonUtil.v
FdManager.v
Hook.v
HookIo.v
ConnectTimeout.v
Socket.v
TcpServer.v
Http.v
Stream.v
StreamBuffer.v
WebSocket.v
Servlet.v
HttpParser.v
HttpMachine.v
HttpMachineSafety.v
HttpRuns.v
HttpExchange.v
HttpClient.v
Server.v
Chat.v
Application.v
ServerConf.v
