(* ===== verification/Prelude.v ===== *)
(** * Verification of wuchat

    wuchat is a chat server in C++.  [luwu/luwu] is its network framework:
    fibers and schedulers, an epoll loop with timers, sockets and streams,
    HTTP and WebSocket servers.  [chat] is the application: a WebSocket
    servlet that keeps the logged-in users and passes their messages on, and
    a servlet for static files.

    ** How the parts work together

    [TCPServer] accepts a connection and starts a fiber for it.  The fiber
    runs [handleClient] of [HttpServer] or [WSServer].  That reads requests
    or frames from a [SocketStream] with the loops of [HttpSession] and
    [WSSession], asks a [ServletDispatch] for the servlet of the path, calls
    it, and writes the answer.  Reads that would block register the
    descriptor with the [IOManager] and give up the thread; the loop of the
    [IOManager] resumes the fiber, and runs the callbacks of the timers that
    are due.  The chat servlet is called at the opening, at each message and
    at the end of a WebSocket connection, on any thread.

    [main] gives the arguments to [Application::init], which loads the
    configuration and starts the supervisor of [daemon.cpp]; [run_fiber] makes
    the servers that the configuration names.  A change of the configuration
    reaches the loggers through a listener.  Outgoing requests go through
    [HttpConnection] and its pool.

    ** The files

    - [Prelude]: bytes, integers at their width, the outcome of an operation
      and the automation that the other files share.
    - [StdString], [StdMap]: the parts of [std::string], and of [std::set]
      and [std::map] over a comparator, that the sources use.
    - [ByteArray]: [bytearray.cpp], the chain of memory blocks as a list of
      blocks with a current block, its positions, views and files; [Codec]: its
      typed operations, and [byteSwap] of [utils.h].
    - [HashUtil]: [util/hash_util.cpp]; [Ext]: [ext.cpp] without its clock
      functions; [JsonUtil]: [util/json_util.cpp].
    - [Timer]: [timer.cpp], timer objects in a heap shared with the ordered
      set of the manager.
    - [IOManager]: [iomanager.cpp], the event contexts, the pending count and
      the interest set of epoll; [Wakeup]: the pipe of it, with the loops of
      [Scheduler::run], and which idle threads it wakes.
    - [Fiber]: [fiber.cpp], fiber objects, the thread-local pointers and whose
      execution a saved context holds.
    - [Sync]: the locks and scoped guards of [mutex.h], run by threads in any
      order; [Thread]: its semaphore, and [thread.cpp] as the steps of the two
      threads of a thread object.
    - [Scheduler]: [scheduler.cpp], the task queue and the loop of each
      thread, as steps that interleave; [SchedulerSafety]: a scheduler with
      one thread.
    - [Address]: [address.cpp]; [UrlParser]: [http_parser_parse_url] of the
      bundled parser; [Uri]: [uri.cpp].
    - [Log]: [log.cpp]; [Config]: [config.cpp] and the variables of [config.h];
      [LexicalCast]: its conversions of containers through YAML trees;
      [LogConfig]: [ready.h], which applies the configuration of loggers.
    - [Env]: [env.cpp]; [Modules]: [library.cpp] and [module.cpp], with counted
      pointers.
    - [FdManager]: [fd_manager.cpp], the table of descriptors and the status
      flags that the kernel keeps.
    - [Hook]: the hooks of [hook.cpp] that do not wait; [HookIo]: [do_io],
      [connect_with_timeout], [sleep] and [usleep]; [ConnectTimeout]: [connect]
      and the timeout that follows the configuration.
    - [Socket]: [socket.cpp]; [TcpServer]: [tcp_server.cpp].
    - [Http]: [http/http.cpp], requests, responses and their serialisation.
    - [Stream]: [streams/stream.cpp] and [streams/socket_stream.cpp] for
      buffers; [StreamBuffer]: the same for byte arrays.
    - [WebSocket]: [http/ws_session.cpp], framing and the answer to an opening
      request; [handleShake], which reads that request, is in [Server].
    - [Servlet]: [http/servlet.cpp] and [http/ws_servlet.cpp].
    - [HttpParser]: [http/http_parser.cpp], [http/http_session.cpp] and the
      receiving and sending half of [http/http_connection.cpp], over an
      interface of the C parser.
    - [HttpMachine]: [http_parser_execute] of the bundled C parser, every state
      of it; [HttpMachineSafety]: it satisfies the interface; [HttpRuns] and
      [HttpExchange]: what it makes of messages that this program prints.
    - [HttpClient]: requests, the pool of connections and
      [http/ws_connection.cpp].
    - [Server]: [http/http_server.cpp] and [http/ws_server.cpp].
    - [Chat]: [chat/protocol.cpp], [chat/chat_servlet.cpp],
      [chat/resource_servlet.cpp].
    - [Application]: [application.cpp], [daemon.cpp] and [chat/my_module.cc];
      [ServerConf]: the text form of the configuration of servers.

    ** How the code is modelled

    A w-bit integer is a [Z]; where the C++ wraps, [uw w] and [sw w] cut it to
    its width, so the results of [size_t] functions that return -1 are
    [2^64 - 1].  A string is a list of bytes.  An operation on a state is a
    function to [outcome]: it returns a value with the new state ([Ret]),
    throws ([Throw], where [AssertFailed] is an assertion that ends the
    process), has undefined behaviour ([UB]: a null block, an index
    outside an array, a signed overflow), or ran out of the fuel given to a
    loop ([NoFuel]).  A theorem that an operation returns excludes all of
    the other three.

    Shared objects are shared in the model: timers are addresses in a heap,
    the session table of the chat servlet is one table that all connections
    read and change, and each critical section is one atomic step, which is
    what [scoped_guards] shows of the guards; pointers to modules and sockets
    are counted.

    ** Parameters

    Code that is not part of the repository is a parameter, with the
    documented behaviour the theorems use as the laws of a class: the byte
    order of the machine ([Platform]), the OpenSSL digests ([Digest],
    [DigestLaws]), the file system ([FileSystem], [MkdirLaws]), the calls of the
    kernel on sockets ([Kernel], [KernelLaws], [ListenLaws]), JsonCpp ([JsonLib], [JsonLaws]), yaml-cpp
    ([Yaml], [YamlLaws]), [fnmatch], [boost::lexical_cast], [dlopen], the clock,
    the addresses of new objects, what each [recv] and [send] returns, and
    whether [epoll_ctl] fails.  The C parser is an interface too ([CParser],
    [CParserLaws]), which [HttpMachineSafety] implements with the parser that is
    part of the repository.  Every class of laws has an instance that satisfies it, at which
    the theorems are evaluated.

    ** What the theorems show

    - Storage: a client of [ByteArray] that makes no empty read and does not
      seek behind the data cannot tell the chain of blocks from a flat array
      ([bytearray_refines_flat_buffer]); typed values are read
      back in either byte order ([message_roundtrip]); the scatter/gather
      views and the files hold exactly the readable bytes.
    - Encodings: base64, hexadecimal, URL and query encodings invert their
      decoders, on every byte string; decoders stay inside their buffers;
      HMAC is the one of RFC 2104; MurmurHash3 is injective in each block.
    - Events: as long as the vector of contexts does not shrink
      ([resize_race_loses_events]) no event is lost or fired twice and the
      pending count is exact, however the critical sections interleave
      ([io_events_accounted]); a sleeping loop is woken for every timer that
      is due before its wake-up time ([timer_no_lost_wakeup]), and outside one
      window ([wakeup_is_missed]) for every task that is queued
      ([wakeups_arrive]).
    - Scheduling: a switch between the scheduling fiber and its fibers moves
      exactly those that are named ([fiber_switching]); under
      every interleaving of any number of threads a task is queued, in the
      hands of one thread or executed once ([tasks_accounted]); on one thread
      nothing fails, and [stop] completes when the tasks may run there and end.
    - Hooks: where hooks are enabled, a program that does not ask for
      [SOCK_NONBLOCK] cannot tell the hooked descriptor calls from those of the
      kernel ([hooks_are_transparent]) while its sockets never block a thread; a hooked read or write is the blocking call to its fiber
      ([do_io_is_the_blocking_call]).
    - Messages: fixed size transfers hide how the network cuts the bytes; the
      parser callbacks assemble the message they were given; a message of a
      client in any number of frames arrives whole and below the size limit.
    - HTTP: the C parser returns on every input, never reads outside its buffer
      and calls back in order ([execute_safe], [callbacks_are_called_back]); a
      request or response that one end prints is the message that the other end
      gets ([request_roundtrip], [response_roundtrip]); the pool never hands out
      a connection twice and its count is exact ([pool_accounting]).
    - Sockets: a socket closes its descriptor once; [bind] of several addresses
      leaves a bound and listening socket for each, or none; a server's listening sockets live as long as a task
      uses them.
    - Threads: critical sections of guards exclude each other and come to an end
      ([scoped_guards]), with the atomic flag as with a mutex
      ([cas_refines_mutex]); a thread object is ready when its constructor
      returns ([thread_start]).
    - Set-up: URIs and the values of the configuration survive printing
      ([uri_roundtrip], [configuration_roundtrip]); the loggers are what the
      configuration says after each change ([loggers_follow_config]); modules
      are destroyed once and their files closed ([modules_accounted]); the
      servers that run are those configured, on the addresses that their texts
      resolve to, up to the first entry that is refused
      ([application_serves]).
    - Servers: one response per request and in order; once an opening is
      accepted the session returns, its servlet sees [onConnect], then the
      messages as sent, then one [onClose] ([ws_session_protocol]); an opening
      that the parser knows as an upgrade, as the program's own client sends it,
      is refused ([own_client_is_refused]); a request goes to the
      servlet that the specification of the routes names.
    - Chat: the table is sound under every interleaving of the handlers,
      exact when handlers do not interleave and no opening carries ["$id"], and
      a text reaches every user.

    The theorems that show where the code falls short of its purpose are
    beside these ([login_race_shares_a_name], [stale_report_aborts], ...).

    ** Fuel

    Loops that are not structural take fuel.  The entry points compute it
    from the input (the length of the string, the number of bytes asked for
    plus one), and the theorems show that it is enough.  Where the loop
    depends on the peer (serving requests, receiving frames) the theorems
    hold for every fuel above a stated bound on what the peer sends.  The run
    of a scheduler on one thread is bounded by [weight], a measure that every
    step decreases.  A script of kernel answers that ends before the call it
    is for returns is [NoFuel]; the theorems are about scripts that suffice.

    ** What is not modelled

    The machine code of the stack switch (a context is whose execution it
    holds); the memory model (threads interleave); the join of scheduler
    threads; functions that only call a
    library (clock and [printf] formatting, wide strings, [Atof], back traces, [setenv], JsonCpp's
    parser and printer); getters that return a field, which are those of the
    records; the names of methods and errors of the C parser; the assertion
    macros (an assertion that fails is an outcome) and the tests.

    Some steps are coarser than the code.  [Socket] and [TcpServer] see the
    kernel, the hooks and [IOManager] through [Kernel], so that an accept that
    waits is one call that answers; [Timer] reads the clock and inserts in one
    step; the pool deletes its invalid connections and lowers its count in one
    step, after its lock as in the code; a scheduler drops its callback fiber
    without the destructor of it; and [stop] from inside a task is not a move:
    the comment in [stop] reserves it for the caller's thread, or for threads
    outside of the scheduler when there is no caller. *)
From stdpp Require Export base gmap list strings.
From Stdlib Require Export ZArith Lia.
From Stdlib Require Strings.Byte Strings.String.

Local Open Scope Z_scope.

(** ** Bytes *)

Abbreviation byte := Byte.byte.
Abbreviation str := (list Byte.byte).

(** A string literal as the bytes of the C++ literal. *)
Definition bs (s : String.string) : str := String.list_byte_of_string s.

#[export] Instance byte_eq_decision : EqDecision Byte.byte := Byte.byte_eq_dec.

#[export] Instance byte_countable : Countable Byte.byte :=
  inj_countable Byte.to_N Byte.of_N Byte.of_to_N.

(** [b2z] is the value of an [unsigned char], [b2sz] that of a (signed)
    [char], [z2b] the conversion of an integer to [char]. *)
Definition b2z (b : byte) : Z := Z.of_N (Byte.to_N b).
Definition b2sz (b : byte) : Z := if b2z b <? 128 then b2z b else b2z b - 256.
Definition z2b (z : Z) : byte :=
  match Byte.of_N (Z.to_N (z mod 256)) with Some b => b | None => Byte.x00 end.

Lemma b2z_range b : 0 <= b2z b < 256.
Proof. destruct b; vm_compute; split; congruence. Qed.

Lemma b2z_z2b z : b2z (z2b z) = z mod 256.
Proof.
  unfold z2b, b2z. pose proof (Z.mod_pos_bound z 256 eq_refl) as Hr.
  destruct (Byte.of_N _) as [b|] eqn:E.
  - apply Byte.to_of_N in E. rewrite E. lia.
  - apply Byte.of_N_None_iff in E. lia.
Qed.

Lemma z2b_b2z b : z2b (b2z b) = b.
Proof. destruct b; reflexivity. Qed.

Lemma b2z_inj a b : b2z a = b2z b -> a = b.
Proof. intros H. rewrite <- (z2b_b2z a), H. apply z2b_b2z. Qed.

Lemma z2b_small z : 0 <= z < 256 -> b2z (z2b z) = z.
Proof. intros. rewrite b2z_z2b. by apply Z.mod_small. Qed.

Lemma z2b_mod z : z2b (z mod 256) = z2b z.
Proof. unfold z2b. by rewrite Z.mod_mod. Qed.

(** Quantification over a byte is decided by its 256 values. *)
Definition all_bytes : list byte := z2b <$> (Z.of_nat <$> seq 0 256).

Lemma all_bytes_complete b : b ∈ all_bytes.
Proof. destruct b; vm_compute; repeat constructor. Qed.

Lemma byte_forall (P : byte -> bool) :
  forallb P all_bytes = true -> forall b, P b = true.
Proof.
  intros H b. rewrite forallb_forall in H. apply H.
  apply list_elem_of_In, all_bytes_complete.
Qed.

(** ** Machine integers

    A [w]-bit unsigned integer is a [Z] in [[0, 2^w)]; a signed one is its
    two's complement value.  [uw] wraps, [sw] converts to signed. *)
Definition uw (w z : Z) : Z := z mod 2 ^ w.
Definition sw (w z : Z) : Z := let u := z mod 2 ^ w in if u <? 2 ^ (w - 1) then u else u - 2 ^ w.
Abbreviation u8 := (uw 8).
Abbreviation u16 := (uw 16).
Abbreviation u32 := (uw 32).
Abbreviation u64 := (uw 64).
Abbreviation s8 := (sw 8).
Abbreviation s16 := (sw 16).
Abbreviation s32 := (sw 32).
Abbreviation s64 := (sw 64).

#[global] Arguments uw : simpl never.
#[global] Arguments sw : simpl never.

Definition in_u (w z : Z) : Prop := 0 <= z < 2 ^ w.
Definition in_s (w z : Z) : Prop := - 2 ^ (w - 1) <= z < 2 ^ (w - 1).

#[export] Instance in_u_dec w z : Decision (in_u w z) := _.
#[export] Instance in_s_dec w z : Decision (in_s w z) := _.

Lemma uw_range w z : 0 <= w -> in_u w (uw w z).
Proof. intros. apply Z.mod_pos_bound. lia. Qed.

Lemma uw_small w z : in_u w z -> uw w z = z.
Proof. apply Z.mod_small. Qed.

Lemma pow2_half w : 0 < w -> 2 ^ w = 2 * 2 ^ (w - 1).
Proof. intros. rewrite <- Z.pow_succ_r by lia. f_equal. lia. Qed.

Lemma sw_range w z : 0 < w -> in_s w (sw w z).
Proof.
  intros Hw. unfold sw, in_s. pose proof (pow2_half w Hw).
  pose proof (Z.mod_pos_bound z (2 ^ w) ltac:(lia)).
  destruct (Z.ltb_spec (z mod 2 ^ w) (2 ^ (w - 1))); lia.
Qed.

Lemma sw_small w z : 0 < w -> in_s w z -> sw w z = z.
Proof.
  unfold sw, in_s. intros Hw Hz. pose proof (pow2_half w Hw).
  destruct (Z.ltb_spec z 0).
  - rewrite <- (Z.mod_unique z (2 ^ w) (-1) (z + 2 ^ w)) by lia.
    destruct (Z.ltb_spec (z + 2 ^ w) (2 ^ (w - 1))); lia.
  - rewrite Z.mod_small by lia. destruct (Z.ltb_spec z (2 ^ (w - 1))); lia.
Qed.

Lemma sw_uw w z : 0 < w -> sw w (uw w z) = sw w z.
Proof. intros. unfold sw, uw. rewrite Z.mod_mod by lia. done. Qed.

Lemma uw_sw w z : 0 < w -> uw w (sw w z) = uw w z.
Proof.
  intros Hw. unfold sw, uw. destruct (_ <? _); [apply Z.mod_mod; lia|].
  replace (z mod 2 ^ w - 2 ^ w) with (z mod 2 ^ w + (-1) * 2 ^ w) by lia.
  rewrite Z.mod_add, Z.mod_mod by lia. done.
Qed.

(** ** Outcomes

    The result of running C++ code on a state [S]: it returns a value, throws
    an exception (with the state it leaves behind), has undefined behaviour,
    or runs out of the fuel of the model's loop.  [AssertFailed] is the end of
    the process by [LUWU_ASSERT]. *)
Inductive exn := OutOfRange | LengthError | InvalidArgument | LogicError | AssertFailed.

#[export] Instance exn_eq_decision : EqDecision exn.
Proof. solve_decision. Defined.

Inductive outcome (S A : Type) :=
| Ret (a : A) (s : S)
| Throw (e : exn) (s : S)
| UB
| NoFuel.
Arguments Ret {S A} a s.
Arguments Throw {S A} e s.
Arguments UB {S A}.
Arguments NoFuel {S A}.

(** Sequencing on outcomes; [let* a, s := o in k] names the value and the
    state of a normal return and propagates everything else. *)
Definition obind {S A B} (o : outcome S A) (k : A -> S -> outcome S B) : outcome S B :=
  match o with
  | Ret a s => k a s
  | Throw e s => Throw e s
  | UB => UB
  | NoFuel => NoFuel
  end.
Declare Scope outcome_scope.
Notation "'let*' a , s ':=' o 'in' k" := (obind o (fun a s => k))
  (at level 10, a name, s name, o at level 200, k at level 200,
   format "'let*'  a ,  s  ':='  o  'in' '//' k") : outcome_scope.
Open Scope outcome_scope.

(** Computations over a state; stdpp's [x ← m; k] sequences them. *)
Definition M (S A : Type) : Type := S -> outcome S A.

#[export] Instance M_ret S : MRet (M S) := fun A a s => Ret a s.
#[export] Instance M_bind S : MBind (M S) := fun A B f m s => obind (m s) f.

Definition get_st {S} : M S S := fun s => Ret s s.
Definition put_st {S} (s : S) : M S unit := fun _ => Ret tt s.
Definition throw {S A} (e : exn) : M S A := fun s => Throw e s.
Definition ub {S A} : M S A := fun _ => UB.

(** What a C++ caller can observe: the outcome is a normal return. *)
Definition returns {S A} (o : outcome S A) : bool :=
  match o with Ret _ _ => true | _ => false end.

(** Keep only the value of an outcome. *)
Definition value_of {S A} (o : outcome S A) : option A :=
  match o with Ret a _ => Some a | _ => None end.

Lemma bind_ret {S A B} (m : M S A) (f : A -> M S B) s a s' :
  m s = Ret a s' -> (m ≫= f) s = f a s'.
Proof. intros H. unfold mbind, M_bind. by rewrite H. Qed.

Lemma obind_inv {S A B} (o : outcome S A) (k : A -> S -> outcome S B) b s' :
  obind o k = Ret b s' -> exists a s, o = Ret a s /\ k a s = Ret b s'.
Proof. destruct o; naive_solver. Qed.

(** ** Platform

    What the sources take from the machine they run on: the byte order
    ([BYTE_ORDER]), the content of memory returned by [new char[n]] and the
    largest size of a [std::string]. *)
Inductive endian := LITTLE_ENDIAN | BIG_ENDIAN.

#[export] Instance endian_eq_decision : EqDecision endian.
Proof. solve_decision. Defined.

Class Platform := {
  BYTE_ORDER : endian;
  junk : nat -> byte;
  string_max_size : Z;
}.

(** x86-64 with glibc: little endian; the fresh memory is taken as zero. *)
Definition x86_64 : Platform :=
  {| BYTE_ORDER := LITTLE_ENDIAN; junk := fun _ => Byte.x00;
     string_max_size := 2 ^ 63 - 1 |}.

(** [new char[n]]. *)
Definition new_chars `{Platform} (n : Z) : str := junk <$> seq 0 (Z.to_nat n).

Lemma length_new_chars `{Platform} n : 0 <= n -> Z.of_nat (length (new_chars n)) = n.
Proof. intros. unfold new_chars. rewrite length_fmap, length_seq. lia. Qed.

(** ** Integers in memory *)
Fixpoint le_bytes (n : nat) (v : Z) : str :=
  match n with
  | O => []
  | S n => z2b v :: le_bytes n (v / 256)
  end.

Fixpoint le_val (l : str) : Z :=
  match l with
  | [] => 0
  | b :: l => b2z b + 256 * le_val l
  end.

Lemma length_le_bytes n v : length (le_bytes n v) = n.
Proof. revert v; induction n; intros; simpl; auto. Qed.

Lemma pow256_succ n : 2 ^ (8 * Z.of_nat (S n)) = 256 * 2 ^ (8 * Z.of_nat n).
Proof. rewrite <- (Z.pow_add_r 2 8) by lia. f_equal. lia. Qed.

Lemma le_val_bytes n v : le_val (le_bytes n v) = v mod 2 ^ (8 * Z.of_nat n).
Proof.
  revert v. induction n as [|n IH]; intros v; [simpl; by rewrite Z.mod_1_r|].
  rewrite pow256_succ. cbn [le_bytes le_val]. rewrite IH, b2z_z2b.
  rewrite Z.rem_mul_r by lia. done.
Qed.

Lemma le_val_range l : in_u (8 * Z.of_nat (length l)) (le_val l).
Proof.
  unfold in_u. induction l as [|b l IH]; cbn [length]; [simpl; lia|].
  rewrite pow256_succ. cbn [le_val]. pose proof (b2z_range b). lia.
Qed.

Lemma le_bytes_val l : le_bytes (length l) (le_val l) = l.
Proof.
  induction l as [|b l IH]; [done|]. cbn [length le_val le_bytes].
  pose proof (b2z_range b). f_equal.
  - rewrite <- (z2b_mod (b2z b + 256 * _)), (Z.mul_comm 256), Z.mod_add by lia.
    rewrite Z.mod_small by lia. apply z2b_b2z.
  - rewrite (Z.mul_comm 256), Z.div_add, Z.div_small by lia. apply IH.
Qed.

(** The object representation of an [n]-byte integer on the host. *)
Definition host_bytes `{Platform} (n : nat) (v : Z) : str :=
  match BYTE_ORDER with LITTLE_ENDIAN => le_bytes n v | BIG_ENDIAN => rev (le_bytes n v) end.
Definition host_val `{Platform} (l : str) : Z :=
  match BYTE_ORDER with LITTLE_ENDIAN => le_val l | BIG_ENDIAN => le_val (rev l) end.
(** The big-endian (network) representation. *)
Definition be_bytes (n : nat) (v : Z) : str := rev (le_bytes n v).
Definition be_val (l : str) : Z := le_val (rev l).

Lemma be_val_bytes n v : be_val (be_bytes n v) = v mod 2 ^ (8 * Z.of_nat n).
Proof. unfold be_val, be_bytes. rewrite rev_involutive. apply le_val_bytes. Qed.

Lemma length_host_bytes `{Platform} n v : length (host_bytes n v) = n.
Proof. unfold host_bytes. destruct BYTE_ORDER; rewrite ?length_rev; apply length_le_bytes. Qed.

Lemma host_val_bytes `{Platform} n v : host_val (host_bytes n v) = v mod 2 ^ (8 * Z.of_nat n).
Proof. unfold host_val, host_bytes. destruct BYTE_ORDER; [apply le_val_bytes | apply be_val_bytes]. Qed.

(** ** Lists indexed by [Z] *)
Definition zlen {A} (l : list A) : Z := Z.of_nat (length l).
Definition ztake {A} (n : Z) (l : list A) : list A := take (Z.to_nat n) l.
Definition zdrop {A} (n : Z) (l : list A) : list A := drop (Z.to_nat n) l.
Definition zsub {A} (off n : Z) (l : list A) : list A := ztake n (zdrop off l).
(** Overwrite the part of [l] that starts at [p] with [d]. *)
Definition splice {A} (p : Z) (d l : list A) : list A :=
  ztake p l ++ d ++ zdrop (p + zlen d) l.

Lemma zlen_nonneg {A} (l : list A) : 0 <= zlen l.
Proof. unfold zlen. lia. Qed.
Lemma zlen_nil {A} : zlen (@nil A) = 0.
Proof. done. Qed.
Lemma zlen_cons {A} (x : A) l : zlen (x :: l) = 1 + zlen l.
Proof. unfold zlen. simpl length. lia. Qed.
Lemma zlen_app {A} (l k : list A) : zlen (l ++ k) = zlen l + zlen k.
Proof. unfold zlen. rewrite length_app. lia. Qed.
Lemma zlen_ztake {A} n (l : list A) : 0 <= n <= zlen l -> zlen (ztake n l) = n.
Proof. unfold zlen, ztake. rewrite length_take. lia. Qed.
Lemma zlen_zdrop {A} n (l : list A) : 0 <= n <= zlen l -> zlen (zdrop n l) = zlen l - n.
Proof. unfold zlen, zdrop. rewrite length_drop. lia. Qed.
Lemma zlen_zsub {A} off n (l : list A) :
  0 <= off -> 0 <= n -> off + n <= zlen l -> zlen (zsub off n l) = n.
Proof. intros. unfold zsub. apply zlen_ztake. rewrite zlen_zdrop by lia. lia. Qed.
Lemma zlen_splice {A} p (d l : list A) :
  0 <= p -> p + zlen d <= zlen l -> zlen (splice p d l) = zlen l.
Proof.
  intros. pose proof (zlen_nonneg d). unfold splice.
  rewrite !zlen_app, zlen_ztake, zlen_zdrop by lia. lia.
Qed.

Lemma ztake_app_le {A} n (l k : list A) : n <= zlen l -> ztake n (l ++ k) = ztake n l.
Proof. unfold ztake, zlen. intros. apply take_app_le. lia. Qed.
Lemma ztake_app_ge {A} n (l k : list A) :
  zlen l <= n -> ztake n (l ++ k) = l ++ ztake (n - zlen l) k.
Proof.
  unfold ztake, zlen. intros. rewrite take_app_ge by lia. do 2 f_equal. lia.
Qed.
Lemma zdrop_app_ge {A} n (l k : list A) :
  zlen l <= n -> zdrop n (l ++ k) = zdrop (n - zlen l) k.
Proof. unfold zdrop, zlen. intros. rewrite drop_app_ge by lia. f_equal. lia. Qed.
Lemma zdrop_app_le {A} n (l k : list A) :
  n <= zlen l -> zdrop n (l ++ k) = zdrop n l ++ k.
Proof. unfold zdrop, zlen. intros. apply drop_app_le. lia. Qed.
Lemma ztake_all {A} n (l : list A) : zlen l <= n -> ztake n l = l.
Proof. unfold ztake, zlen. intros. apply take_ge. lia. Qed.
Lemma zdrop_zdrop {A} a b (l : list A) :
  0 <= a -> 0 <= b -> zdrop a (zdrop b l) = zdrop (b + a) l.
Proof. unfold zdrop. intros. rewrite drop_drop. f_equal. lia. Qed.
Lemma ztake_zdrop {A} n (l : list A) : ztake n l ++ zdrop n l = l.
Proof. apply take_drop. Qed.
Lemma ztake_ztake {A} a b (l : list A) : ztake a (ztake b l) = ztake (a `min` b) l.
Proof. unfold ztake. rewrite take_take. f_equal. lia. Qed.
Lemma ztake_zdrop_comm {A} a b (l : list A) :
  0 <= a -> 0 <= b -> ztake a (zdrop b l) = zdrop b (ztake (b + a) l).
Proof. unfold ztake, zdrop. intros. rewrite take_drop_commute. do 2 f_equal. lia. Qed.

Lemma zsub_app {A} off n m (l : list A) :
  0 <= off -> 0 <= n -> 0 <= m -> zsub off n l ++ zsub (off + n) m l = zsub off (n + m) l.
Proof.
  intros. unfold zsub, ztake, zdrop.
  replace (Z.to_nat (off + n)) with (Z.to_nat off + Z.to_nat n)%nat by lia.
  rewrite <- drop_drop. generalize (drop (Z.to_nat off) l) as k. intros k.
  rewrite <- (take_drop (Z.to_nat n) (take (Z.to_nat (n + m)) k)).
  rewrite take_take, take_drop_commute. f_equal; f_equal; [lia|].
  f_equal. lia.
Qed.

(** *** Overwriting *)
Lemma zsub_all {A} n (l : list A) : zlen l <= n -> zsub 0 n l = l.
Proof. intros. unfold zsub. apply ztake_all. done. Qed.

Lemma zdrop_0 {A} (l : list A) : zdrop 0 l = l.
Proof. done. Qed.
Lemma ztake_0 {A} (l : list A) : ztake 0 l = [].
Proof. done. Qed.

Lemma zsub_nil {A} p (l : list A) : zsub p 0 l = [].
Proof. done. Qed.

Lemma zsub_drop {A} p (l : list A) : 0 <= p -> zsub p (zlen l - p) l = zdrop p l.
Proof.
  intros. unfold zsub, ztake, zdrop, zlen. apply take_ge. rewrite length_drop. lia.
Qed.

Lemma splice_nil {A} p (l : list A) : 0 <= p -> splice p [] l = l.
Proof. intros. unfold splice. simpl. rewrite zlen_nil, Z.add_0_r. apply ztake_zdrop. Qed.

Lemma splice_splice {A} p (d e l : list A) :
  0 <= p -> p + zlen d + zlen e <= zlen l ->
  splice (p + zlen d) e (splice p d l) = splice p (d ++ e) l.
Proof.
  intros. pose proof (zlen_nonneg d). pose proof (zlen_nonneg e).
  unfold splice at 1 3. rewrite zlen_app.
  unfold splice. rewrite ztake_app_ge by (rewrite zlen_ztake; lia).
  rewrite zlen_ztake by lia. replace (p + zlen d - p) with (zlen d) by lia.
  rewrite ztake_app_le, (ztake_all _ d) by lia.
  rewrite !zdrop_app_ge; rewrite ?zlen_ztake; try lia.
  rewrite zdrop_zdrop by lia.
  replace (p + zlen d + (p + zlen d + zlen e - p - zlen d)) with (p + (zlen d + zlen e)) by lia.
  by rewrite <- !app_assoc.
Qed.

Lemma ztake_splice {A} p (d l : list A) :
  0 <= p -> p + zlen d <= zlen l -> ztake p (splice p d l) = ztake p l.
Proof.
  intros. pose proof (zlen_nonneg d). unfold splice.
  rewrite ztake_app_le by (rewrite zlen_ztake; lia). rewrite ztake_ztake. f_equal. lia.
Qed.

Lemma zsub_splice {A} p (d l : list A) :
  0 <= p -> p + zlen d <= zlen l -> zsub p (zlen d) (splice p d l) = d.
Proof.
  intros. pose proof (zlen_nonneg d). unfold zsub, splice.
  rewrite zdrop_app_ge by (rewrite zlen_ztake; lia). rewrite zlen_ztake by lia.
  rewrite Z.sub_diag, zdrop_0, ztake_app_le by lia. by apply ztake_all.
Qed.

Lemma zdrop_splice {A} p q (d l : list A) :
  0 <= p -> p + zlen d <= zlen l -> p + zlen d <= q -> zdrop q (splice p d l) = zdrop q l.
Proof.
  intros. pose proof (zlen_nonneg d). unfold splice.
  rewrite zdrop_app_ge; rewrite ?zlen_ztake; try lia.
  rewrite zdrop_app_ge by lia. rewrite zdrop_zdrop by lia. f_equal. lia.
Qed.

Lemma splice_app_l {A} p (d l k : list A) :
  0 <= p -> p + zlen d <= zlen l -> splice p d (l ++ k) = splice p d l ++ k.
Proof.
  intros. pose proof (zlen_nonneg d). unfold splice.
  rewrite ztake_app_le, zdrop_app_le by lia. by rewrite <- !app_assoc.
Qed.

Lemma splice_app_r {A} p (d l k : list A) :
  zlen l <= p -> splice p d (l ++ k) = l ++ splice (p - zlen l) d k.
Proof.
  intros. pose proof (zlen_nonneg d). pose proof (zlen_nonneg l). unfold splice.
  rewrite ztake_app_ge, zdrop_app_ge by lia. rewrite <- !app_assoc.
  do 4 f_equal. lia.
Qed.

Lemma zsub_app_l {A} p n (l k : list A) :
  0 <= p -> 0 <= n -> p + n <= zlen l -> zsub p n (l ++ k) = zsub p n l.
Proof.
  intros. unfold zsub. rewrite zdrop_app_le by lia.
  rewrite ztake_app_le; [done|]. rewrite zlen_zdrop; lia.
Qed.

Lemma zsub_app_r {A} p n (l k : list A) :
  zlen l <= p -> zsub p n (l ++ k) = zsub (p - zlen l) n k.
Proof. intros. unfold zsub. by rewrite zdrop_app_ge by lia. Qed.

(** *** Lists of blocks of equal length *)
Section blocks.
Context {A : Type}.
Implicit Types (ns : list (list A)) (b : Z).

Definition blocks b ns : Prop := Forall (fun n => zlen n = b) ns.

Lemma zlen_concat b ns : blocks b ns -> zlen (concat ns) = b * zlen ns.
Proof.
  induction 1 as [|n ns Hn _ IH]; cbn [concat]; [unfold zlen; simpl; lia|].
  rewrite zlen_app, zlen_cons, IH, Hn. lia.
Qed.

Lemma blocks_lookup b ns i blk : blocks b ns -> ns !! i = Some blk -> zlen blk = b.
Proof. unfold blocks. rewrite Forall_lookup. eauto. Qed.

Lemma blocks_splice b ns i off d blk :
  blocks b ns -> ns !! i = Some blk -> 0 <= off -> off + zlen d <= b ->
  blocks b (<[i := splice off d blk]> ns).
Proof.
  intros Hb Hi ? ?. apply Forall_insert; [done|].
  pose proof (blocks_lookup _ _ _ _ Hb Hi). by rewrite zlen_splice by lia.
Qed.

Lemma concat_splice b ns i off d blk :
  blocks b ns -> ns !! i = Some blk -> 0 <= off -> off + zlen d <= b ->
  concat (<[i := splice off d blk]> ns) = splice (b * Z.of_nat i + off) d (concat ns).
Proof.
  intros Hb. revert i. induction Hb as [|x ns Hx Hb IH]; intros i Hi ? ?; [done|].
  destruct i as [|i]; simpl in *; simplify_eq.
  - rewrite Z.mul_0_r, Z.add_0_l. by rewrite splice_app_l by lia.
  - pose proof (zlen_nonneg x) as Hx0. assert (0 <= zlen x * Z.of_nat i) by nia.
    rewrite IH by done. rewrite splice_app_r by lia. do 2 f_equal. lia.
Qed.

Lemma concat_zsub b ns i off n blk :
  blocks b ns -> ns !! i = Some blk -> 0 <= off -> 0 <= n -> off + n <= b ->
  zsub off n blk = zsub (b * Z.of_nat i + off) n (concat ns).
Proof.
  intros Hb. revert i. induction Hb as [|x ns Hx Hb IH]; intros i Hi ? ? ?; [done|].
  destruct i as [|i]; simpl in *; simplify_eq.
  - rewrite Z.mul_0_r, Z.add_0_l. by rewrite zsub_app_l by lia.
  - pose proof (zlen_nonneg x) as Hx0. assert (0 <= zlen x * Z.of_nat i) by nia.
    rewrite (IH i) by done. rewrite zsub_app_r by lia. f_equal. lia.
Qed.
End blocks.

(** *** Bit arithmetic *)
Lemma lor_shiftl_add r x i :
  0 <= i -> 0 <= r < 2 ^ i -> Z.lor r (Z.shiftl x i) = r + x * 2 ^ i.
Proof.
  intros Hi Hr. rewrite <- Z.shiftl_mul_pow2 by done. symmetry. rewrite <- Z.lxor_lor, <- Z.add_nocarry_lxor; try done.
  all: apply Z.bits_inj'; intros n Hn; rewrite Z.land_spec, Z.bits_0;
    destruct (Z.lt_ge_cases n i);
    [rewrite Z.shiftl_spec_low by done; by rewrite andb_false_r|].
  all: rewrite <- (Z.mod_small r (2 ^ i)) by done; rewrite Z.mod_pow2_bits_high by lia; done.
Qed.

Lemma land_ones_mod x w : 0 <= w -> Z.land x (2 ^ w - 1) = x mod 2 ^ w.
Proof. intros. rewrite <- Z.land_ones, Z.ones_equiv by done. f_equal. Qed.

Lemma lxor_ones x w : 0 <= w -> 0 <= x < 2 ^ w -> Z.lxor x (2 ^ w - 1) = 2 ^ w - 1 - x.
Proof.
  intros Hw Hx. replace (2 ^ w - 1) with (Z.ones w) by (rewrite Z.ones_equiv; lia).
  rewrite Z.sub_nocarry_ldiff.
  - apply Z.bits_inj'; intros n Hn. rewrite Z.lxor_spec, Z.ldiff_spec.
    destruct (Z.lt_ge_cases n w).
    + rewrite Z.ones_spec_low by lia. by destruct (Z.testbit x n).
    + rewrite Z.ones_spec_high by lia. rewrite <- (Z.mod_small x (2 ^ w)), Z.mod_pow2_bits_high by lia. done.
  - apply Z.bits_inj'; intros n Hn. rewrite Z.ldiff_spec, Z.bits_0.
    destruct (Z.lt_ge_cases n w).
    + rewrite Z.ones_spec_low by lia. by rewrite andb_false_r.
    + rewrite <- (Z.mod_small x (2 ^ w)), Z.mod_pow2_bits_high by lia. done.
Qed.

(** ** Automation

    [fits] closes the side condition that an integer is within its width;
    [zlen_lia] decides arithmetic over lengths after pushing them through the
    list constructors.  The database [luwu] collects the facts that the
    components apply without being told to; each of them adds its own. *)
Ltac fits := unfold in_u; lia.

Create HintDb luwu.
Create Rewrite HintDb zlen.
#[export] Hint Resolve zlen_nonneg b2z_range uw_range sw_range : luwu.
#[export] Hint Rewrite @zlen_app @zlen_nil @zlen_cons : zlen.

(** Add [0 <= zlen l] for every length in sight. *)
Ltac know_lengths :=
  repeat match goal with
  | |- context [zlen ?l] => lazymatch goal with H : 0 <= zlen l |- _ => fail | _ => pose proof (zlen_nonneg l) end
  | _ : context [zlen ?l] |- _ => lazymatch goal with H : 0 <= zlen l |- _ => fail | _ => pose proof (zlen_nonneg l) end
  end.
Ltac zlen_lia := autorewrite with zlen in *; know_lengths; lia.
