(* ===== verification/ByteArray.v ===== *)
(** * The serialisation buffer: [luwu/luwu/bytearray.{h,cpp}] *)
From S2P Require Import Prelude.
Local Open Scope Z_scope.

Module ByteArray.
Section with_platform.
Context `{!Platform}.

(** ** State

    The singly linked list of memory blocks from [m_root] is the list
    [m_nodes]; a [Node*] is an index into it and [nullptr] is [None], so a
    [next] pointer is the successor index when there is one. *)
Record t := mk {
  m_baseSize : Z;
  m_position : Z;
  m_capacity : Z;
  m_size : Z;
  m_endian : endian;
  m_nodes : list str;
  m_cur : option nat;
}.

Definition with_position (p : Z) (ba : t) : t :=
  mk (m_baseSize ba) p (m_capacity ba) (m_size ba) (m_endian ba) (m_nodes ba) (m_cur ba).
Definition with_size (s : Z) (ba : t) : t :=
  mk (m_baseSize ba) (m_position ba) (m_capacity ba) s (m_endian ba) (m_nodes ba) (m_cur ba).
Definition with_cur (c : option nat) (ba : t) : t :=
  mk (m_baseSize ba) (m_position ba) (m_capacity ba) (m_size ba) (m_endian ba) (m_nodes ba) c.
Definition with_nodes (ns : list str) (ba : t) : t :=
  mk (m_baseSize ba) (m_position ba) (m_capacity ba) (m_size ba) (m_endian ba) ns (m_cur ba).
Definition with_capacity (c : Z) (ba : t) : t :=
  mk (m_baseSize ba) (m_position ba) c (m_size ba) (m_endian ba) (m_nodes ba) (m_cur ba).

(** [node->next]. *)
Definition next (ns : list str) (i : nat) : option nat :=
  if (S i <? length ns)%nat then Some (S i) else None.

(** [*node]; dereferencing [nullptr] is [None]. *)
Definition deref (ns : list str) (c : option nat) : option str :=
  match c with Some i => ns !! i | None => None end.

(** [*m_cur]. *)
Definition cur_node (ba : t) : option str := deref (m_nodes ba) (m_cur ba).

(** [ByteArray::ByteArray(base_size)]. *)
Definition create (base_size : Z) : t :=
  mk base_size 0 base_size 0 BIG_ENDIAN [new_chars base_size] (Some 0%nat).

Definition getReadSize (ba : t) : Z := u64 (m_size ba - m_position ba).
Definition getCapacity (ba : t) : Z := u64 (m_capacity ba - m_position ba).
Definition isLittleEndian (ba : t) : bool := bool_decide (m_endian ba = LITTLE_ENDIAN).

Definition setLittleEndian (v : bool) (ba : t) : t :=
  mk (m_baseSize ba) (m_position ba) (m_capacity ba) (m_size ba)
     (if v then LITTLE_ENDIAN else BIG_ENDIAN) (m_nodes ba) (m_cur ba).

(** [clear]: every block but the first is deleted. *)
Definition clear (ba : t) : t :=
  mk (m_baseSize ba) 0 (m_baseSize ba) 0 (m_endian ba) (take 1 (m_nodes ba)) (Some 0%nat).

(** ** Growing *)

(** The allocation loop of [addCapacity]: [count] blocks are linked behind
    the last one. *)
Fixpoint addNodes (count : nat) (ba : t) : t :=
  match count with
  | O => ba
  | S count =>
      addNodes count
        (with_capacity (u64 (m_capacity ba + m_baseSize ba))
           (with_nodes (m_nodes ba ++ [new_chars (m_baseSize ba)]) ba))
  end.

Definition addCapacity (size : Z) : M t unit := fun ba =>
  let old := getCapacity ba in
  if size <=? old then Ret tt ba else
  if m_baseSize ba =? 0 then UB else
  let size := size - old in
  let count := size / m_baseSize ba + (if size mod m_baseSize ba =? 0 then 0 else 1) in
  let first := if count =? 0 then None else Some (length (m_nodes ba)) in
  let ba' := addNodes (Z.to_nat count) ba in
  Ret tt (if old =? 0 then with_cur first ba' else ba').

(** ** Writing *)

(** [memcpy(m_cur->ptr + off, d, |d|)]: out of the block is undefined. *)
Definition node_write (i : nat) (off : Z) (d : str) : M t unit := fun ba =>
  match m_nodes ba !! i with
  | None => UB
  | Some blk =>
      if (0 <=? off) && (off + zlen d <=? zlen blk)
      then Ret tt (with_nodes (<[i := splice off d blk]> (m_nodes ba)) ba)
      else UB
  end.

(** The copy loop of [write]. *)
Fixpoint write_loop (fuel : nat) (buf : str) (npos ncap bpos size : Z) : M t unit := fun ba =>
  if size <=? 0 then Ret tt ba else
  match fuel with
  | O => NoFuel
  | S fuel =>
    match m_cur ba with
    | None => UB
    | Some i =>
      if size <=? ncap then
        let* _, ba := node_write i npos (zsub bpos size buf) ba in
        match m_nodes ba !! i with
        | None => UB
        | Some blk =>
            let ba := if zlen blk =? npos + size then with_cur (next (m_nodes ba) i) ba else ba in
            write_loop fuel buf npos ncap (bpos + size) 0
              (with_position (u64 (m_position ba + size)) ba)
        end
      else
        let* _, ba := node_write i npos (zsub bpos ncap buf) ba in
        let ba := with_cur (next (m_nodes ba) i) (with_position (u64 (m_position ba + ncap)) ba) in
        match cur_node ba with
        | None => UB
        | Some blk => write_loop fuel buf 0 (zlen blk) (bpos + ncap) (size - ncap) ba
        end
    end
  end.

(** [write(buf, size)], with [buf] the [size] bytes it points to. *)
Definition write (buf : str) : M t unit := fun ba =>
  let size := zlen buf in
  if size =? 0 then Ret tt ba else
  let* _, ba := addCapacity size ba in
  if m_baseSize ba =? 0 then UB else
  match cur_node ba with
  | None => UB
  | Some blk =>
      let npos := m_position ba mod m_baseSize ba in
      let ncap := u64 (zlen blk - npos) in
      let* _, ba := write_loop (S (length (m_nodes ba))) buf npos ncap 0 size ba in
      Ret tt (if m_size ba <? m_position ba then with_size (m_position ba) ba else ba)
  end.

(** ** Reading *)

(** [memcpy(dst, m_cur->ptr + off, n)]. *)
Definition node_read (ns : list str) (i : nat) (off n : Z) : option str :=
  blk ← ns !! i;
  if (0 <=? off) && (off + n <=? zlen blk) then Some (zsub off n blk) else None.

(** The copy loop of [read]: [acc] is what has been copied so far. *)
Fixpoint read_loop (fuel : nat) (acc : str) (npos ncap size : Z) : M t str := fun ba =>
  if size <=? 0 then Ret acc ba else
  match fuel with
  | O => NoFuel
  | S fuel =>
    match m_cur ba with
    | None => UB
    | Some i =>
      if size <=? ncap then
        match node_read (m_nodes ba) i npos size, m_nodes ba !! i with
        | Some d, Some blk =>
            let ba := if zlen blk =? npos + size then with_cur (next (m_nodes ba) i) ba else ba in
            read_loop fuel (acc ++ d) npos ncap 0 (with_position (u64 (m_position ba + size)) ba)
        | _, _ => UB
        end
      else
        match node_read (m_nodes ba) i npos ncap with
        | None => UB
        | Some d =>
            let ba := with_cur (next (m_nodes ba) i) (with_position (u64 (m_position ba + ncap)) ba) in
            match cur_node ba with
            | None => UB
            | Some blk => read_loop fuel (acc ++ d) 0 (zlen blk) (size - ncap) ba
            end
        end
    end
  end.

(** [read(buf, size)]: the bytes stored in [buf] are returned. *)
Definition read (size : Z) : M t str := fun ba =>
  if getReadSize ba <? size then Throw OutOfRange ba else
  if m_baseSize ba =? 0 then UB else
  match cur_node ba with
  | None => UB
  | Some blk =>
      let npos := m_position ba mod m_baseSize ba in
      read_loop (S (length (m_nodes ba))) [] npos (u64 (zlen blk - npos)) size ba
  end.

(** The copy loop of the [const] overload of [read], with its own cursor. *)
Fixpoint read_at_loop (fuel : nat) (ns : list str) (cur : option nat) (acc : str)
    (npos ncap size : Z) : M t str := fun ba =>
  if size <=? 0 then Ret acc ba else
  match fuel with
  | O => NoFuel
  | S fuel =>
    match cur with
    | None => UB
    | Some i =>
      if size <=? ncap then
        match node_read ns i npos size, ns !! i with
        | Some d, Some blk =>
            let cur := if zlen blk =? npos + size then next ns i else cur in
            read_at_loop fuel ns cur (acc ++ d) npos ncap 0 ba
        | _, _ => UB
        end
      else
        match node_read ns i npos ncap with
        | None => UB
        | Some d =>
            match deref ns (next ns i) with
            | None => UB
            | Some blk => read_at_loop fuel ns (next ns i) (acc ++ d) 0 (zlen blk) (size - ncap) ba
            end
        end
    end
  end.

(** [read(buf, size, position) const]. *)
Definition read_at (size position : Z) : M t str := fun ba =>
  if getReadSize ba <? size then Throw OutOfRange ba else
  if m_baseSize ba =? 0 then UB else
  match cur_node ba with
  | None => UB
  | Some blk =>
      let npos := position mod m_baseSize ba in
      read_at_loop (S (length (m_nodes ba))) (m_nodes ba) (m_cur ba) [] npos
        (u64 (zlen blk - npos)) size ba
  end.

Definition toString : M t str := fun ba =>
  if getReadSize ba =? 0 then Ret [] ba else read_at (getReadSize ba) (m_position ba) ba.

(** ** Moving the position *)

(** The loop of [setPosition] that walks the blocks from [m_root]. *)
Fixpoint seek_loop (ns : list str) (i : nat) (pos : Z) : outcome unit (option nat * Z) :=
  match ns with
  | [] => UB
  | blk :: ns' =>
      if zlen blk <? pos then seek_loop ns' (S i) (pos - zlen blk)
      else Ret (if pos =? zlen blk then match ns' with [] => None | _ => Some (S i) end
                else Some i, pos) tt
  end.

Definition setPosition (pos : Z) : M t unit := fun ba =>
  if m_capacity ba <? pos then Throw OutOfRange ba else
  let ba := with_position pos ba in
  let ba := if m_size ba <? pos then with_size pos ba else ba in
  match seek_loop (m_nodes ba) 0 pos with
  | Ret (c, _) _ => Ret tt (with_cur c ba)
  | _ => UB
  end.

(** ** Scatter/gather views *)

(** An [iovec] that points into a block: block, offset and length. *)
Record iovec := Iov { iov_node : nat; iov_off : Z; iov_len : Z }.

(** The loop shared (as repeated text) by [getReadBuffers] and
    [getWriteBuffers]. *)
Fixpoint iov_loop (fuel : nat) (ns : list str) (cur : option nat) (npos ncap len : Z)
    (buffers : list iovec) : outcome unit (list iovec) :=
  if len <=? 0 then Ret buffers tt else
  match fuel with
  | O => NoFuel
  | S fuel =>
    match cur with
    | None => UB
    | Some i =>
      if len <=? ncap then
        iov_loop fuel ns cur npos ncap 0 (buffers ++ [Iov i npos len])
      else
        match deref ns (next ns i) with
        | None => UB
        | Some blk =>
            iov_loop fuel ns (next ns i) 0 (zlen blk) (len - ncap) (buffers ++ [Iov i npos ncap])
        end
    end
  end.

Definition run_iov (len : Z) (o : outcome unit (list iovec)) : M t (Z * list iovec) := fun ba =>
  match o with
  | Ret bufs _ => Ret (len, bufs) ba
  | NoFuel => NoFuel
  | _ => UB
  end.

Definition getReadBuffers (len : Z) : M t (Z * list iovec) := fun ba =>
  let len := if getReadSize ba <? len then getReadSize ba else len in
  if len =? 0 then Ret (0, []) ba else
  if m_baseSize ba =? 0 then UB else
  match cur_node ba with
  | None => UB
  | Some blk =>
      let npos := m_position ba mod m_baseSize ba in
      run_iov len (iov_loop (S (length (m_nodes ba))) (m_nodes ba) (m_cur ba) npos
                     (u64 (zlen blk - npos)) len []) ba
  end.

(** The overload that starts at an absolute [position]: [count] steps along
    [next] from [m_root]. *)
Definition getReadBuffersAt (len position : Z) : M t (Z * list iovec) := fun ba =>
  let len := if getReadSize ba <? len then getReadSize ba else len in
  if len =? 0 then Ret (0, []) ba else
  if m_baseSize ba =? 0 then UB else
  let npos := position mod m_baseSize ba in
  let count := Z.to_nat (position / m_baseSize ba) in
  match m_nodes ba !! count with
  | None => UB
  | Some blk =>
      run_iov len (iov_loop (S (length (m_nodes ba))) (m_nodes ba) (Some count) npos
                     (u64 (zlen blk - npos)) len []) ba
  end.

Definition getWriteBuffers (len : Z) : M t (Z * list iovec) := fun ba =>
  if len =? 0 then Ret (0, []) ba else
  let* _, ba := addCapacity len ba in
  if m_baseSize ba =? 0 then UB else
  match cur_node ba with
  | None => UB
  | Some blk =>
      let npos := m_position ba mod m_baseSize ba in
      run_iov len (iov_loop (S (length (m_nodes ba))) (m_nodes ba) (m_cur ba) npos
                     (u64 (zlen blk - npos)) len []) ba
  end.

(** ** Files

    The file system is an argument: [writeToFile opened] says whether the
    stream could be opened and returns what was written to it;
    [readFromFile file] gets the content of the file ([None] when it cannot be
    opened). *)
Fixpoint writeToFile_loop (fuel : nat) (ns : list str) (cur : option nat)
    (base pos readSize : Z) (out : str) : outcome unit str :=
  if readSize <=? 0 then Ret out tt else
  match fuel with
  | O => NoFuel
  | S fuel =>
      let diff := pos mod base in
      let len := s64 ((if base <? readSize then base else readSize) - diff) in
      match cur with
      | None => UB
      | Some i =>
          if len <? 0 then UB else
          match node_read ns i diff len with
          | None => UB
          | Some d => writeToFile_loop fuel ns (next ns i) base (u64 (pos + len))
                        (u64 (readSize - len)) (out ++ d)
          end
      end
  end.

Definition writeToFile (opened : bool) : M t (bool * str) := fun ba =>
  if negb opened then Ret (false, []) ba else
  if (m_baseSize ba =? 0) then UB else
  match writeToFile_loop (S (S (length (m_nodes ba)))) (m_nodes ba) (m_cur ba) (m_baseSize ba)
          (m_position ba) (getReadSize ba) [] with
  | Ret out _ => Ret (true, out) ba
  | NoFuel => NoFuel
  | _ => UB
  end.

(** [while (!ifs.eof()) { ifs.read(buf, m_baseSize); write(buf, ifs.gcount()); }]:
    the end of file is seen when fewer than [m_baseSize] bytes were left. *)
Fixpoint readFromFile_loop (fuel : nat) (rest : str) : M t unit := fun ba =>
  match fuel with
  | O => NoFuel
  | S fuel =>
      let chunk := ztake (m_baseSize ba) rest in
      let* _, ba' := write chunk ba in
      if zlen rest <? m_baseSize ba then Ret tt ba'
      else readFromFile_loop fuel (zdrop (m_baseSize ba) rest) ba'
  end.

Definition readFromFile (file : option str) : M t bool := fun ba =>
  match file with
  | None => Ret false ba
  | Some content =>
      let* _, ba := readFromFile_loop (S (length content)) content ba in
      Ret true ba
  end.

(** ** Invariant *)

(** The block that holds position [pos]; [nullptr] at the end of the
    capacity. *)
Definition cur_at (base cap pos : Z) : option nat :=
  if pos <? cap then Some (Z.to_nat (pos / base)) else None.

Record store (ba : t) : Prop := {
  st_base : 0 < m_baseSize ba;
  st_blocks : blocks (m_baseSize ba) (m_nodes ba);
  st_root : 0 < zlen (m_nodes ba);
  st_cap : m_capacity ba = m_baseSize ba * zlen (m_nodes ba);
  st_cap64 : m_capacity ba < 2 ^ 64;
  st_pos : 0 <= m_position ba <= m_capacity ba;
  st_cur : m_cur ba = cur_at (m_baseSize ba) (m_capacity ba) (m_position ba);
}.

Record Inv (ba : t) : Prop := {
  inv_store : store ba;
  inv_size : m_position ba <= m_size ba <= m_capacity ba;
}.

(** All the bytes of the blocks, in order. *)
Definition contents (ba : t) : str := concat (m_nodes ba).

Lemma zlen_contents ba : store ba -> zlen (contents ba) = m_capacity ba.
Proof. intros []. unfold contents. by rewrite (zlen_concat (m_baseSize ba)). Qed.

Lemma Inv_create base : 0 < base < 2 ^ 64 -> Inv (create base).
Proof.
  intros. pose proof (length_new_chars base ltac:(lia)).
  split; [split|]; simpl; unfold zlen in *; simpl in *; try lia.
  - repeat constructor. done.
  - unfold cur_at. destruct (Z.ltb_spec 0 base); [|lia]. by rewrite Z.div_0_l by lia.
Qed.

Lemma pos_split ba :
  store ba -> m_baseSize ba * (m_position ba / m_baseSize ba)
              + m_position ba mod m_baseSize ba = m_position ba
              /\ 0 <= m_position ba mod m_baseSize ba < m_baseSize ba.
Proof.
  intros []. split; [symmetry; apply Z.div_mod; lia | apply Z.mod_pos_bound; lia].
Qed.

Lemma in_block_u64 ba x : store ba -> 0 <= x <= m_baseSize ba -> in_u 64 x.
Proof. intros [] ?. unfold in_u. nia. Qed.

Lemma block_index b n p : 0 < b -> 0 <= p < b * n -> 0 <= p / b < n.
Proof. intros. split; [apply Z.div_pos; lia | apply Z.div_lt_upper_bound; lia]. Qed.

(** Before the end of the capacity [m_cur] points to the block of the
    position. *)
Lemma store_cur ba :
  store ba -> m_position ba < m_capacity ba ->
  exists i blk, m_cur ba = Some i /\ m_nodes ba !! i = Some blk /\ zlen blk = m_baseSize ba /\
    m_baseSize ba * Z.of_nat i + m_position ba mod m_baseSize ba = m_position ba /\
    Z.of_nat i < zlen (m_nodes ba).
Proof.
  intros Hs Hp. pose proof (pos_split ba Hs) as [Hd _]. destruct Hs.
  pose proof (block_index (m_baseSize ba) (zlen (m_nodes ba)) (m_position ba)).
  exists (Z.to_nat (m_position ba / m_baseSize ba)). unfold zlen in *.
  destruct (lookup_lt_is_Some_2 (m_nodes ba) (Z.to_nat (m_position ba / m_baseSize ba)))
    as [blk Hblk]; [lia|].
  exists blk. split_and!; try lia; [|done|].
  - rewrite st_cur0. unfold cur_at. by destruct (Z.ltb_spec (m_position ba) (m_capacity ba)); [|lia].
  - eapply (blocks_lookup (A := byte)); eauto.
Qed.

Lemma next_cur_at b (ns : list str) i :
  0 < b -> Z.of_nat i < zlen ns ->
  next ns i = cur_at b (b * zlen ns) (b * (Z.of_nat i + 1)).
Proof.
  intros Hb Hi. unfold next, cur_at, zlen in *. rewrite (Z.mul_comm b (_ + 1)), Z.div_mul by lia.
  destruct (Nat.ltb_spec (S i) (length ns)), (Z.ltb_spec ((Z.of_nat i + 1) * b) (b * Z.of_nat (length ns)));
    try nia; [f_equal; lia | done].
Qed.

Lemma cur_at_inside b cap i p :
  0 < b -> p < cap -> 0 <= p - b * Z.of_nat i < b -> cur_at b cap p = Some i.
Proof.
  intros. unfold cur_at. destruct (Z.ltb_spec p cap); [|lia]. f_equal.
  rewrite <- (Z.div_unique p b (Z.of_nat i) (p - b * Z.of_nat i)) by lia. lia.
Qed.

(** The cursor update at the end of a copy that stays in block [i]. *)
Lemma cur_after_copy b (ns : list str) i off n cap :
  0 < b -> cap = b * zlen ns -> Z.of_nat i < zlen ns -> 0 <= off -> 0 < n -> off + n <= b ->
  (if b =? off + n then next ns i else Some i) = cur_at b cap (b * Z.of_nat i + (off + n)).
Proof.
  intros Hb -> Hi ? ? ?. destruct (Z.eqb_spec b (off + n)) as [E|E].
  - rewrite (next_cur_at b) by lia. f_equal. lia.
  - symmetry. apply cur_at_inside; [lia| |lia]. nia.
Qed.

Lemma node_write_ok ba i off d blk :
  m_nodes ba !! i = Some blk -> 0 <= off -> off + zlen d <= zlen blk ->
  node_write i off d ba = Ret tt (with_nodes (<[i := splice off d blk]> (m_nodes ba)) ba).
Proof.
  intros Hi ? ?. unfold node_write. rewrite Hi.
  destruct (Z.leb_spec 0 off), (Z.leb_spec (off + zlen d) (zlen blk)); (done || lia).
Qed.

(** A write that ends in the current block. *)
Lemma write_loop_last fuel buf npos bpos size ba i blk :
  store ba -> m_cur ba = Some i -> m_nodes ba !! i = Some blk ->
  npos = m_position ba mod m_baseSize ba -> 0 < size <= m_baseSize ba - npos ->
  0 <= bpos -> bpos + size = zlen buf ->
  write_loop (S fuel) buf npos (m_baseSize ba - npos) bpos size ba
  = let ns := <[i := splice npos (zdrop bpos buf) blk]> (m_nodes ba) in
    Ret tt (mk (m_baseSize ba) (m_position ba + size) (m_capacity ba) (m_size ba) (m_endian ba)
              ns (cur_at (m_baseSize ba) (m_capacity ba) (m_position ba + size))).
Proof.
  intros Hs Hc Hblk -> Hsz Hb Hbuf.
  assert (zsub bpos size buf = zdrop bpos buf) as Hdrop.
  { rewrite <- zsub_drop by lia. f_equal. lia. }
  assert (zlen (zdrop bpos buf) = size) as Hd by (rewrite zlen_zdrop; lia).
  pose proof (blocks_lookup _ _ _ _ (st_blocks _ Hs) Hblk) as Hlen.
  destruct (store_cur ba Hs) as (i' & blk' & Hi & _ & _ & Hpos & Hlt).
  { destruct Hs. unfold cur_at in *. destruct (Z.ltb_spec (m_position ba) (m_capacity ba)); congruence. }
  assert (i' = i) as -> by congruence. clear Hi. pose proof (pos_split ba Hs) as [_ Hmod]. destruct Hs.
  set (npos := m_position ba mod m_baseSize ba) in *.
  cbn [write_loop]. rewrite Hc. destruct (Z.leb_spec size 0); [lia|].
  destruct (Z.leb_spec size (m_baseSize ba - npos)); [|lia]. rewrite Hdrop.
  rewrite (node_write_ok ba i npos _ blk) by (done || lia). cbn [obind m_nodes with_nodes].
  rewrite list_lookup_insert_eq by (eapply lookup_lt_Some; eauto). rewrite zlen_splice, Hlen by lia.
  assert (forall f a b c, write_loop f buf npos a b 0 c = Ret tt c) as Hdone by (by intros []).
  rewrite Hdone. cbv zeta. f_equal.
  replace (m_position ba + size) with (m_baseSize ba * Z.of_nat i + (npos + size)) by lia.
  rewrite <- (cur_after_copy _ (<[i := splice npos (zdrop bpos buf) blk]> (m_nodes ba)) i)
    by (unfold zlen in *; rewrite ?length_insert; (done || lia)).
  assert (m_position ba + size <= m_capacity ba) by nia.
  destruct (_ =? _); unfold with_position, with_cur, with_nodes; simpl;
    rewrite uw_small by fits; rewrite ?Hc; f_equal; lia.
Qed.

(** A write that fills the current block and goes on in the next one. *)
Lemma write_loop_step fuel buf npos bpos size ba i blk :
  store ba -> m_cur ba = Some i -> m_nodes ba !! i = Some blk ->
  npos = m_position ba mod m_baseSize ba -> m_baseSize ba - npos < size ->
  m_position ba + size <= m_capacity ba -> 0 <= bpos -> bpos + size = zlen buf ->
  let ncap := m_baseSize ba - npos in
  let ba1 := mk (m_baseSize ba) (m_position ba + ncap) (m_capacity ba) (m_size ba) (m_endian ba)
               (<[i := splice npos (zsub bpos ncap buf) blk]> (m_nodes ba)) (Some (S i)) in
  write_loop (S fuel) buf npos ncap bpos size ba
  = write_loop fuel buf 0 (m_baseSize ba) (bpos + ncap) (size - ncap) ba1
  /\ store ba1 /\ m_position ba1 mod m_baseSize ba1 = 0
  /\ contents ba1 = splice (m_position ba) (zsub bpos ncap buf) (contents ba).
Proof.
  intros Hs Hc Hblk -> Hsz Hcap Hb Hbuf ncap ba1.
  pose proof (blocks_lookup _ _ _ _ (st_blocks _ Hs) Hblk) as Hlen.
  destruct (store_cur ba Hs ltac:(destruct (pos_split ba Hs); lia)) as (i' & blk' & Hi & _ & _ & Hpos & Hlt).
  assert (i' = i) as -> by congruence. clear Hi. pose proof (pos_split ba Hs) as [_ Hmod]. destruct Hs.
  set (npos := m_position ba mod m_baseSize ba) in *.
  assert (zlen (zsub bpos ncap buf) = ncap) as Hd by (apply zlen_zsub; lia).
  assert (zlen (m_nodes ba1) = zlen (m_nodes ba)) as Hl1 by (unfold zlen; simpl; by rewrite length_insert).
  assert (blocks (m_baseSize ba) (m_nodes ba1)) as Hbl1 by (apply (blocks_splice (A := byte)); (done || lia)).
  assert (Z.of_nat (S i) < zlen (m_nodes ba)) as Hlt1 by nia.
  destruct (lookup_lt_is_Some_2 (m_nodes ba1) (S i)) as [blk2 Hblk2]; [unfold zlen in *; lia|].
  assert (m_position ba + ncap = m_baseSize ba * Z.of_nat (S i)) as Hp1 by lia.
  split_and!.
  - cbn [write_loop]. rewrite Hc. destruct (Z.leb_spec size 0); [lia|].
    destruct (Z.leb_spec size ncap); [lia|].
    rewrite (node_write_ok ba i npos _ blk) by (done || lia).
    cbn [obind m_nodes with_nodes with_cur with_position]. unfold cur_node, deref, next.
    cbn [m_cur m_nodes with_cur with_position with_nodes]. simpl in Hblk2.
    destruct (Nat.ltb_spec (S i) (length (m_nodes ba1))) as [_|]; [|unfold zlen in *; lia].
    simpl in *. destruct (Nat.ltb_spec (S i) (length (<[i:=splice npos (zsub bpos ncap buf) blk]> (m_nodes ba))));
      [|unfold zlen in *; lia].
    rewrite Hblk2. rewrite (blocks_lookup _ _ _ _ Hbl1 Hblk2).
    unfold ba1, with_cur, with_position, with_nodes. simpl. rewrite uw_small by fits. done.
  - split; simpl; try done; try lia. { simpl in Hl1. by rewrite Hl1. } { simpl in Hl1. by rewrite Hl1. }
    rewrite Hp1. symmetry. apply cur_at_inside; nia.
  - simpl. rewrite Hp1, Z.mul_comm. apply Z.mod_mul. lia.
  - unfold contents. simpl. rewrite (concat_splice (m_baseSize ba)) by (done || lia). by rewrite Hpos.
Qed.

Lemma write_loop_ok fuel buf bpos size ba i :
  store ba -> m_cur ba = Some i -> 0 < size ->
  m_position ba + size <= m_capacity ba -> 0 <= bpos -> bpos + size = zlen buf ->
  (length (m_nodes ba) - i < fuel)%nat ->
  exists ns,
    write_loop fuel buf (m_position ba mod m_baseSize ba)
      (m_baseSize ba - m_position ba mod m_baseSize ba) bpos size ba
    = Ret tt (mk (m_baseSize ba) (m_position ba + size) (m_capacity ba) (m_size ba) (m_endian ba)
                 ns (cur_at (m_baseSize ba) (m_capacity ba) (m_position ba + size)))
    /\ blocks (m_baseSize ba) ns /\ zlen ns = zlen (m_nodes ba)
    /\ concat ns = splice (m_position ba) (zdrop bpos buf) (contents ba).
Proof.
  revert bpos size ba i. induction fuel as [|fuel IH]; intros bpos size ba i Hs Hc Hsz Hcap Hb Hbuf Hf; [lia|].
  destruct (store_cur ba Hs ltac:(lia)) as (i' & blk & Hi & Hblk & Hlen & Hpos & Hlt).
  assert (i' = i) as -> by congruence. clear Hi. pose proof (pos_split ba Hs) as [_ Hmod]. pose proof (zlen_contents ba Hs) as Hcl.
  set (npos := m_position ba mod m_baseSize ba) in *.
  destruct (Z.le_gt_cases size (m_baseSize ba - npos)) as [Hfit|Hover].
  - assert (zlen (zdrop bpos buf) = size) by (rewrite zlen_zdrop; lia).
    rewrite (write_loop_last _ _ _ _ _ _ i blk) by (done || lia).
    eexists. split; [done|]. split_and!.
    + apply (blocks_splice (A := byte)); (apply Hs || done || lia).
    + unfold zlen. by rewrite length_insert.
    + rewrite (concat_splice (m_baseSize ba)) by (apply Hs || done || lia). by rewrite Hpos.
  - destruct (write_loop_step fuel buf npos bpos size ba i blk) as (-> & Hs1 & Hm1 & Hc1); try (done || lia).
    destruct (IH (bpos + (m_baseSize ba - npos)) (size - (m_baseSize ba - npos)) _ (S i) Hs1)
      as (ns & Hw & Hb' & Hl & Hcc); simpl; rewrite ?length_insert;
      try (done || lia || (unfold zlen in *; lia)).
    rewrite Hm1 in Hw. simpl in Hw, Hl, Hb', Hcc. rewrite Z.sub_0_r in Hw. rewrite Hw.
    exists ns. rewrite Hl. split_and!; try done.
    + do 2 f_equal; lia || (f_equal; lia).
    + unfold zlen. by rewrite length_insert.
    + assert (zlen (zsub bpos (m_baseSize ba - npos) buf) = m_baseSize ba - npos) as Hd by (apply zlen_zsub; lia).
      rewrite Hcc, Hc1.
      replace (m_position ba + (m_baseSize ba - npos))
        with (m_position ba + zlen (zsub bpos (m_baseSize ba - npos) buf)) by lia.
      pose proof (st_pos _ Hs). rewrite splice_splice by (rewrite ?Hd, ?zlen_zdrop; lia).
      f_equal. rewrite <- !zsub_drop by lia. rewrite zsub_app by lia. f_equal. lia.
Qed.

(** ** [addCapacity] *)

Lemma addNodes_eq n ba :
  0 <= m_capacity ba -> 0 <= m_baseSize ba ->
  m_capacity ba + Z.of_nat n * m_baseSize ba < 2 ^ 64 ->
  addNodes n ba = mk (m_baseSize ba) (m_position ba) (m_capacity ba + Z.of_nat n * m_baseSize ba)
    (m_size ba) (m_endian ba) (m_nodes ba ++ replicate n (new_chars (m_baseSize ba))) (m_cur ba).
Proof.
  revert ba. induction n as [|n IH]; intros ba Hc Hb H64.
  - simpl. rewrite app_nil_r, Z.add_0_r. by destruct ba.
  - cbn [addNodes]. assert (u64 (m_capacity ba + m_baseSize ba) = m_capacity ba + m_baseSize ba) as Hu.
    { apply uw_small. unfold in_u. nia. }
    rewrite IH; simpl; rewrite ?Hu; try lia. rewrite <- app_assoc. f_equal. lia.
Qed.

Lemma blocks_grow n ba :
  store ba -> blocks (m_baseSize ba) (m_nodes ba ++ replicate n (new_chars (m_baseSize ba))).
Proof.
  intros []. apply Forall_app. split; [done|]. apply Forall_replicate.
  apply length_new_chars. lia.
Qed.

(** The number of blocks [addCapacity] allocates is the least that is enough. *)
Lemma count_enough b size :
  0 < b -> 0 < size ->
  let count := size / b + (if size mod b =? 0 then 0 else 1) in
  0 < count /\ size <= count * b < size + b.
Proof.
  intros Hb Hs count. subst count. pose proof (Z.div_mod size b ltac:(lia)) as Hd.
  pose proof (Z.mod_pos_bound size b Hb). pose proof (Z.div_pos size b ltac:(lia) Hb).
  destruct (Z.eqb_spec (size mod b) 0); nia.
Qed.

(** [addCapacity] keeps the store well formed, leaves the position, the size
    and the stored bytes alone and makes room for [size] more bytes. *)
Record grown (size : Z) (ba ba' : t) : Prop := {
  gr_store : store ba';
  gr_base : m_baseSize ba' = m_baseSize ba;
  gr_pos : m_position ba' = m_position ba;
  gr_size : m_size ba' = m_size ba;
  gr_endian : m_endian ba' = m_endian ba;
  gr_cap : m_capacity ba <= m_capacity ba';
  gr_room : m_position ba + size <= m_capacity ba';
  gr_contents : exists ext, contents ba' = contents ba ++ ext;
}.

Lemma addCapacity_ok size ba :
  store ba -> 0 <= size -> m_position ba + size + m_baseSize ba <= 2 ^ 64 ->
  exists ba', addCapacity size ba = Ret tt ba' /\ grown size ba ba'.
Proof.
  intros Hs Hsz H64. unfold addCapacity, getCapacity. pose proof Hs as [].
  rewrite uw_small by fits.
  destruct (Z.leb_spec size (m_capacity ba - m_position ba)).
  { exists ba. split; [done|]. split; try done; try lia. exists []. by rewrite app_nil_r. }
  destruct (Z.eqb_spec (m_baseSize ba) 0); [lia|].
  pose proof (count_enough (m_baseSize ba) (size - (m_capacity ba - m_position ba)) ltac:(lia) ltac:(lia)) as Hcnt.
  cbv zeta in Hcnt. set (count := _ / _ + _) in *.
  rewrite addNodes_eq by lia. rewrite Z2Nat.id by lia.
  pose proof (blocks_grow (Z.to_nat count) ba Hs) as Hbl.
  set (ns := m_nodes ba ++ _) in *.
  assert (zlen ns = zlen (m_nodes ba) + count) as Hl.
  { unfold ns. rewrite zlen_app. unfold zlen at 2. rewrite length_replicate. lia. }
  eexists. split; [done|]. destruct (Z.eqb_spec count 0); [lia|].
  destruct (Z.eqb_spec (m_capacity ba - m_position ba) 0); split; simpl; try done; try lia.
  - split; simpl; try done; try lia. symmetry. apply cur_at_inside; unfold zlen in *; lia.
  - unfold contents. simpl. unfold ns. rewrite concat_app. eauto.
  - split; simpl; try done; try lia. rewrite st_cur0. unfold cur_at.
    destruct (Z.ltb_spec (m_position ba) (m_capacity ba)); [|lia].
    destruct (Z.ltb_spec (m_position ba) (m_capacity ba + count * m_baseSize ba)); [done|lia].
  - unfold contents. simpl. unfold ns. rewrite concat_app. eauto.
Qed.

(** ** The abstract buffer

    What the component promises: a growing array of bytes with a position. *)
Record flat := Flat { f_data : str; f_pos : Z }.

Definition abs (ba : t) : flat := Flat (ztake (m_size ba) (contents ba)) (m_position ba).

Definition flat_write (d : str) (f : flat) : flat :=
  Flat (splice (f_pos f) d (f_data f)) (f_pos f + zlen d).

Definition flat_read (n : Z) (f : flat) : option (str * flat) :=
  if zlen (f_data f) - f_pos f <? n then None
  else Some (zsub (f_pos f) n (f_data f), Flat (f_data f) (f_pos f + n)).

Definition flat_seek (p : Z) (f : flat) : flat := Flat (f_data f) p.

Lemma zlen_abs ba : Inv ba -> zlen (f_data (abs ba)) = m_size ba.
Proof.
  intros [Hs ?]. simpl. rewrite zlen_ztake; [done|]. rewrite (zlen_contents _ Hs).
  pose proof (st_pos _ Hs). lia.
Qed.

(** Overwriting a prefix-limited view: the written part may extend it. *)
Lemma ztake_splice_max {A} sz p (d l : list A) :
  0 <= p <= sz -> sz <= zlen l -> p + zlen d <= zlen l ->
  ztake (sz `max` (p + zlen d)) (splice p d l) = splice p d (ztake sz l).
Proof.
  intros. pose proof (zlen_nonneg d). unfold splice. rewrite (ztake_ztake p sz).
  replace (p `min` sz) with p by lia.
  rewrite ztake_app_ge by (rewrite zlen_ztake; lia). rewrite zlen_ztake by lia. f_equal.
  rewrite ztake_app_ge by lia. f_equal. unfold ztake, zdrop.
  rewrite take_drop_commute. replace (Z.to_nat (p + zlen d) + _)%nat with (Z.to_nat (sz `max` (p + zlen d))) by lia.
  destruct (Z.le_gt_cases sz (p + zlen d)).
  - rewrite !drop_ge; [done| |]; rewrite length_take; lia.
  - do 2 f_equal. lia.
Qed.

Lemma write_ok d ba :
  Inv ba -> m_position ba + zlen d + m_baseSize ba <= 2 ^ 64 ->
  exists ba', write d ba = Ret tt ba' /\ Inv ba' /\ abs ba' = flat_write d (abs ba)
    /\ m_baseSize ba' = m_baseSize ba /\ m_endian ba' = m_endian ba
    /\ m_capacity ba <= m_capacity ba'.
Proof.
  intros [Hs Hsz] H64. unfold write. pose proof (st_pos _ Hs).
  destruct (Z.eqb_spec (zlen d) 0) as [E|E].
  { exists ba. destruct d; [|unfold zlen in E; simpl in E; lia].
    split_and!; try done; try lia. unfold flat_write, abs. simpl.
    rewrite splice_nil, zlen_nil by lia. f_equal. lia. }
  pose proof (zlen_nonneg d).
  destruct (addCapacity_ok (zlen d) ba Hs) as (b1 & -> & [Hs1 Hb1 Hp1 Hz1 He1 Hc1 Hr1 [ext Hx1]]); [lia|lia|].
  cbn [obind]. destruct (store_cur b1 Hs1 ltac:(lia)) as (i & blk & Hi & Hblk & Hlen & Hpos & Hlt).
  unfold cur_node. rewrite Hi. cbn [deref]. rewrite Hblk, Hlen. cbv zeta.
  pose proof (pos_split b1 Hs1) as [_ Hmod].
  pose proof Hs1 as [].
  destruct (Z.eqb_spec (m_baseSize b1) 0); [lia|].
  rewrite uw_small by (unfold in_u; nia).
  destruct (write_loop_ok (S (length (m_nodes b1))) d 0 (zlen d) b1 i Hs1)
    as (ns & -> & Hbl & Hl & Hcc); [done|lia|lia|lia|lia|unfold zlen in *; lia|].
  cbn [obind m_size m_position]. rewrite zdrop_0 in Hcc. eexists. split; [done|].
  assert (forall sz, let b2 := mk (m_baseSize b1) (m_position b1 + zlen d) (m_capacity b1) sz (m_endian b1)
    ns (cur_at (m_baseSize b1) (m_capacity b1) (m_position b1 + zlen d)) in
    sz = m_size b1 `max` (m_position b1 + zlen d) -> Inv b2 /\ abs b2 = flat_write d (abs ba)) as Hfin.
  { intros sz b2 ->. split; [split; [split|]; simpl; try done; lia|].
    unfold abs, flat_write. simpl. unfold contents at 1. simpl. rewrite Hcc, Hz1, Hp1.
    pose proof (zlen_contents _ Hs) as Hcl.
    rewrite <- (ztake_app_le (m_size ba) (contents ba) ext) by lia. rewrite <- Hx1.
    f_equal. apply ztake_splice_max; rewrite ?(zlen_contents _ Hs1); lia. }
  destruct (Z.ltb_spec (m_size b1) (m_position b1 + zlen d)); unfold with_size; simpl;
    (edestruct Hfin as [? ?]; [|split_and!; try done; lia]; lia).
Qed.

(** ** Reading *)

(** The state after the position moved by [n]. *)
Definition advance (n : Z) (ba : t) : t :=
  mk (m_baseSize ba) (m_position ba + n) (m_capacity ba) (m_size ba) (m_endian ba) (m_nodes ba)
     (cur_at (m_baseSize ba) (m_capacity ba) (m_position ba + n)).

Lemma store_advance n ba :
  store ba -> 0 <= n -> m_position ba + n <= m_capacity ba -> store (advance n ba).
Proof. intros [] ? ?. split; simpl; (done || lia). Qed.

Lemma node_read_ok b (ns : list str) i off n blk :
  blocks b ns -> ns !! i = Some blk -> 0 <= off -> 0 <= n -> off + n <= b ->
  node_read ns i off n = Some (zsub (b * Z.of_nat i + off) n (concat ns)).
Proof.
  intros Hb Hi ? ? ?. unfold node_read. rewrite Hi. simpl. rewrite (blocks_lookup _ _ _ _ Hb Hi).
  destruct (Z.leb_spec 0 off), (Z.leb_spec (off + n) b); try lia. simpl. f_equal.
  by eapply (concat_zsub (A := byte)).
Qed.

Lemma read_loop_ok fuel acc size ba i :
  store ba -> m_cur ba = Some i -> 0 < size -> m_position ba + size <= m_capacity ba ->
  (length (m_nodes ba) - i < fuel)%nat ->
  read_loop fuel acc (m_position ba mod m_baseSize ba)
    (m_baseSize ba - m_position ba mod m_baseSize ba) size ba
  = Ret (acc ++ zsub (m_position ba) size (contents ba)) (advance size ba).
Proof.
  revert acc size ba i. induction fuel as [|fuel IH]; intros acc size ba i Hs Hc Hsz Hcap Hf; [lia|].
  destruct (store_cur ba Hs ltac:(lia)) as (i' & blk & Hi & Hblk & Hlen & Hpos & Hlt).
  assert (i' = i) as -> by congruence. clear Hi. pose proof (pos_split ba Hs) as [_ Hmod].
  pose proof Hs as [].
  set (npos := m_position ba mod m_baseSize ba) in *.
  cbn [read_loop]. rewrite Hc. destruct (Z.leb_spec size 0); [lia|].
  destruct (Z.leb_spec size (m_baseSize ba - npos)).
  - rewrite (node_read_ok (m_baseSize ba) _ i npos size blk), Hpos by (done || lia).
    rewrite Hblk, Hlen.
    assert (forall f l a c, read_loop f l npos a 0 c = Ret l c) as Hdone by (by intros []).
    rewrite Hdone. fold (contents ba). f_equal. unfold advance.
    replace (m_position ba + size) with (m_baseSize ba * Z.of_nat i + (npos + size)) at 2 by lia.
    rewrite <- (cur_after_copy _ (m_nodes ba) i) by (done || lia).
    destruct (_ =? _); unfold with_position, with_cur; simpl;
      rewrite uw_small by fits; by rewrite ?Hc.
  - rewrite (node_read_ok (m_baseSize ba) _ i npos _ blk), Hpos by (done || lia).
    assert (Z.of_nat (S i) < zlen (m_nodes ba)) as Hlt1 by nia.
    destruct (lookup_lt_is_Some_2 (m_nodes ba) (S i)) as [blk2 Hblk2]; [unfold zlen in *; lia|].
    assert (m_position ba + (m_baseSize ba - npos) = m_baseSize ba * Z.of_nat (S i)) as Hp1 by lia.
    assert (with_cur (next (m_nodes ba) i) (with_position
      (u64 (m_position ba + (m_baseSize ba - npos))) ba) = advance (m_baseSize ba - npos) ba) as Hadv.
    { unfold with_cur, with_position, advance. simpl. rewrite uw_small by fits.
      rewrite (next_cur_at (m_baseSize ba)), Hp1, st_cap0 by lia. do 2 f_equal. lia. }
    cbv zeta. cbn [m_nodes with_position] in *. rewrite Hadv. clear Hadv.
    set (ba1 := advance (m_baseSize ba - npos) ba).
    assert (m_cur ba1 = Some (S i)) as Hc1.
    { simpl. rewrite Hp1. apply cur_at_inside; nia. }
    unfold cur_node. rewrite Hc1. cbn [deref]. change (m_nodes ba1) with (m_nodes ba).
    rewrite Hblk2, (blocks_lookup _ _ _ _ st_blocks0 Hblk2).
    assert (m_position ba1 mod m_baseSize ba1 = 0) as Hm1.
    { simpl. rewrite Hp1, Z.mul_comm. apply Z.mod_mul. lia. }
    specialize (IH (acc ++ zsub (m_position ba) (m_baseSize ba - npos) (concat (m_nodes ba)))
      (size - (m_baseSize ba - npos)) ba1 (S i)).
    rewrite Hm1, Z.sub_0_r in IH. change (m_baseSize ba1) with (m_baseSize ba) in IH. rewrite IH; [| | | | |].
    + rewrite <- app_assoc. unfold contents. simpl. rewrite zsub_app by lia.
      unfold advance. simpl. f_equal; [do 2 f_equal; lia|]. f_equal; [lia|f_equal; lia].
    + apply store_advance; (done || lia).
    + done.
    + lia.
    + simpl. lia.
    + simpl. unfold zlen in *. lia.
Qed.

(** The cursor-passing loops share this shape: a copy of [size] bytes from
    offset [npos] of block [i] reads the bytes from position [b * i + npos]. *)
Lemma read_at_loop_ok fuel b (ns : list str) acc npos size i ba :
  0 < b -> blocks b ns -> 0 <= npos < b -> 0 < size ->
  b * Z.of_nat i + npos + size <= b * zlen ns -> (length ns - i < fuel)%nat ->
  read_at_loop fuel ns (Some i) acc npos (b - npos) size ba
  = Ret (acc ++ zsub (b * Z.of_nat i + npos) size (concat ns)) ba.
Proof.
  intros Hb Hbl. revert acc npos size i. induction fuel as [|fuel IH]; intros acc npos size i ? ? Hend Hf; [lia|].
  assert (Z.of_nat i < zlen ns) by nia.
  destruct (lookup_lt_is_Some_2 ns i) as [blk Hblk]; [unfold zlen in *; lia|].
  cbn [read_at_loop]. destruct (Z.leb_spec size 0); [lia|].
  destruct (Z.leb_spec size (b - npos)).
  - rewrite (node_read_ok b _ i npos size blk), Hblk by (done || lia).
    assert (forall f c l a m, read_at_loop f ns c l npos a 0 m = Ret l m) as Hdone by (by intros []).
    by rewrite Hdone.
  - rewrite (node_read_ok b _ i npos _ blk) by (done || lia).
    assert (Z.of_nat (S i) < zlen ns) by nia.
    destruct (lookup_lt_is_Some_2 ns (S i)) as [blk2 Hblk2]; [unfold zlen in *; lia|].
    unfold next. destruct (Nat.ltb_spec (S i) (length ns)); [|unfold zlen in *; lia].
    cbn [deref]. rewrite Hblk2, (blocks_lookup _ _ _ _ Hbl Hblk2).
    specialize (IH (acc ++ zsub (b * Z.of_nat i + npos) (b - npos) (concat ns)) 0 (size - (b - npos)) (S i)).
    rewrite Z.sub_0_r in IH. rewrite IH by lia. f_equal. rewrite <- app_assoc. f_equal.
    replace (b * Z.of_nat (S i) + 0) with (b * Z.of_nat i + npos + (b - npos)) by lia.
    rewrite zsub_app by nia. f_equal. lia.
Qed.

(** The memory an [iovec] denotes. *)
Definition iov_bytes (ns : list str) (v : iovec) : option str :=
  node_read ns (iov_node v) (iov_off v) (iov_len v).

#[local] Arguments iov_bytes : simpl never.

Lemma iov_bytes_ok b (ns : list str) i off n blk :
  blocks b ns -> ns !! i = Some blk -> 0 <= off -> 0 <= n -> off + n <= b ->
  iov_bytes ns (Iov i off n) = Some (zsub (b * Z.of_nat i + off) n (concat ns)).
Proof. apply node_read_ok. Qed.

Lemma iov_loop_ok fuel b (ns : list str) bufs npos len i :
  0 < b -> blocks b ns -> 0 <= npos < b -> 0 < len ->
  b * Z.of_nat i + npos + len <= b * zlen ns -> (length ns - i < fuel)%nat ->
  exists out parts,
    iov_loop fuel ns (Some i) npos (b - npos) len bufs = Ret (bufs ++ out) tt
    /\ mapM (iov_bytes ns) out = Some parts
    /\ concat parts = zsub (b * Z.of_nat i + npos) len (concat ns).
Proof.
  intros Hb Hbl. revert bufs npos len i. induction fuel as [|fuel IH]; intros bufs npos len i ? ? Hend Hf; [lia|].
  assert (Z.of_nat i < zlen ns) by nia.
  destruct (lookup_lt_is_Some_2 ns i) as [blk Hblk]; [unfold zlen in *; lia|].
  cbn [iov_loop]. destruct (Z.leb_spec len 0); [lia|].
  destruct (Z.leb_spec len (b - npos)).
  - exists [Iov i npos len], [zsub (b * Z.of_nat i + npos) len (concat ns)].
    split_and!; [by destruct fuel| |simpl; by rewrite app_nil_r].
    simpl. by rewrite (iov_bytes_ok b ns i npos len blk) by (done || lia).
  - assert (Z.of_nat (S i) < zlen ns) by nia.
    destruct (lookup_lt_is_Some_2 ns (S i)) as [blk2 Hblk2]; [unfold zlen in *; lia|].
    unfold next. destruct (Nat.ltb_spec (S i) (length ns)); [|unfold zlen in *; lia].
    cbn [deref]. rewrite Hblk2, (blocks_lookup _ _ _ _ Hbl Hblk2).
    destruct (IH (bufs ++ [Iov i npos (b - npos)]) 0 (len - (b - npos)) (S i)) as (out & parts & Ho & Hm & Hp); try lia.
    rewrite Z.sub_0_r in Ho. rewrite Ho.
    exists (Iov i npos (b - npos) :: out), (zsub (b * Z.of_nat i + npos) (b - npos) (concat ns) :: parts).
    split_and!; [by rewrite <- app_assoc| |].
    + simpl. rewrite (iov_bytes_ok b ns i npos _ blk) by (done || lia). simpl. by rewrite Hm.
    + simpl. rewrite Hp. replace (b * Z.of_nat (S i) + 0) with (b * Z.of_nat i + npos + (b - npos)) by lia.
      rewrite zsub_app by nia. f_equal. lia.
Qed.

(** *** The operations that read *)

Lemma abs_advance n ba :
  Inv ba -> 0 <= n -> n <= m_size ba - m_position ba ->
  Inv (advance n ba) /\ abs (advance n ba) = Flat (f_data (abs ba)) (m_position ba + n).
Proof.
  intros [Hs ?] ? ?. split; [|done]. split; [apply store_advance; [done|lia|]|]; simpl; lia.
Qed.

Lemma advance_0 ba : store ba -> advance 0 ba = ba.
Proof. intros []. unfold advance. rewrite Z.add_0_r, <- st_cur0. by destruct ba. Qed.

Lemma getReadSize_eq ba : Inv ba -> getReadSize ba = m_size ba - m_position ba.
Proof.
  intros [[] ?]. unfold getReadSize. apply uw_small. unfold in_u. lia.
Qed.

(** Reading inside the written data takes the bytes at the position. *)
Lemma zsub_abs p n ba :
  Inv ba -> 0 <= p -> 0 <= n -> p + n <= m_size ba ->
  zsub p n (contents ba) = zsub p n (f_data (abs ba)).
Proof.
  intros [Hs ?] ? ? ?. simpl. pose proof (st_pos _ Hs). unfold zsub.
  rewrite (ztake_zdrop_comm n p (ztake _ _)), ztake_ztake by lia.
  rewrite ztake_zdrop_comm by lia. do 2 f_equal. lia.
Qed.

Lemma read_ok n ba :
  Inv ba -> 0 <= n <= m_size ba - m_position ba -> 0 < n \/ m_position ba < m_capacity ba ->
  read n ba = Ret (zsub (m_position ba) n (f_data (abs ba))) (advance n ba).
Proof.
  intros Hi Hn Hor. pose proof Hi as [Hs ?]. pose proof (st_pos _ Hs). pose proof (st_base _ Hs).
  unfold read. rewrite getReadSize_eq by done.
  destruct (Z.ltb_spec (m_size ba - m_position ba) n); [lia|].
  destruct (Z.eqb_spec (m_baseSize ba) 0); [lia|].
  destruct (store_cur ba Hs ltac:(lia)) as (i & blk & Hci & Hblk & Hlen & Hpos & Hlt).
  unfold cur_node. rewrite Hci. cbn [deref]. rewrite Hblk, Hlen. cbv zeta.
  pose proof (pos_split ba Hs) as [_ ?].
  rewrite uw_small by (apply (in_block_u64 ba); (done || lia)).
  destruct (Z.eq_dec n 0) as [->|].
  - cbn [read_loop]. simpl. rewrite advance_0 by done. done.
  - rewrite (read_loop_ok _ _ _ _ i) by (done || lia || (unfold zlen in *; lia)).
    cbn [app]. f_equal. apply zsub_abs; (done || lia).
Qed.

Lemma read_error n ba :
  Inv ba -> m_size ba - m_position ba < n -> read n ba = Throw OutOfRange ba.
Proof.
  intros Hi Hn. unfold read. rewrite getReadSize_eq by done.
  by destruct (Z.ltb_spec (m_size ba - m_position ba) n); [|lia].
Qed.

Lemma read_at_ok n pos ba :
  Inv ba -> 0 < n <= m_size ba - m_position ba ->
  pos / m_baseSize ba = m_position ba / m_baseSize ba -> 0 <= pos -> pos + n <= m_size ba ->
  read_at n pos ba = Ret (zsub pos n (f_data (abs ba))) ba.
Proof.
  intros Hi Hn Hblock Hp0 Hp. pose proof Hi as [Hs ?]. pose proof (st_pos _ Hs). pose proof (st_base _ Hs).
  unfold read_at. rewrite getReadSize_eq by done.
  destruct (Z.ltb_spec (m_size ba - m_position ba) n); [lia|].
  destruct (Z.eqb_spec (m_baseSize ba) 0); [lia|].
  destruct (store_cur ba Hs ltac:(lia)) as (i & blk & Hci & Hblk & Hlen & Hpos & Hlt).
  unfold cur_node. rewrite Hci. cbn [deref]. rewrite Hblk, Hlen. cbv zeta.
  pose proof (Z.mod_pos_bound pos (m_baseSize ba) ltac:(lia)).
  pose proof (pos_split ba Hs) as [Hd ?]. pose proof (Z.div_mod pos (m_baseSize ba) ltac:(lia)) as Hd'.
  rewrite Hblock in Hd'.
  assert (m_baseSize ba * Z.of_nat i + pos mod m_baseSize ba = pos) as Hp' by lia.
  pose proof (st_cap _ Hs). pose proof (st_cap64 _ Hs).
  rewrite uw_small by (apply (in_block_u64 ba); (done || lia)).
  rewrite (read_at_loop_ok _ (m_baseSize ba)) by (apply Hs || lia || (unfold zlen in *; lia)).
  rewrite Hp'. cbn [app]. f_equal. apply zsub_abs; (done || lia).
Qed.

Lemma toString_ok ba :
  Inv ba -> toString ba = Ret (zdrop (m_position ba) (f_data (abs ba))) ba.
Proof.
  intros Hi. pose proof Hi as [Hs ?]. pose proof (st_pos _ Hs).
  unfold toString. rewrite getReadSize_eq by done.
  rewrite <- zsub_drop, zlen_abs by (done || lia).
  destruct (Z.eqb_spec (m_size ba - m_position ba) 0) as [E|E].
  - by rewrite E.
  - apply read_at_ok; (done || lia).
Qed.

(** *** [setPosition] and [clear] *)

Lemma seek_loop_ok b (ns : list str) i pos :
  0 < b -> blocks b ns -> ns <> [] -> 0 <= pos <= b * zlen ns ->
  exists r, seek_loop ns i pos
    = Ret (if pos <? b * zlen ns then Some (i + Z.to_nat (pos / b))%nat else None, r) tt.
Proof.
  intros Hb Hbl. revert i pos. induction Hbl as [|blk ns Hblk Hbl IH]; intros i pos Hne Hp; [done|].
  rewrite zlen_cons in *. cbn [seek_loop]. rewrite Hblk.
  destruct (Z.ltb_spec b pos).
  - destruct ns as [|blk2 ns]; [unfold zlen in Hp; simpl in Hp; lia|].
    destruct (IH (S i) (pos - b)) as [r ->]; [done|lia|]. exists r.
    replace (pos / b) with ((pos - b) / b + 1) by (rewrite <- Z.div_add by lia; f_equal; lia).
    pose proof (Z.div_pos (pos - b) b ltac:(lia) Hb).
    destruct (Z.ltb_spec (pos - b) (b * zlen (blk2 :: ns))), (Z.ltb_spec pos (b * (1 + zlen (blk2 :: ns))));
      try lia; do 3 f_equal. lia.
  - exists pos. do 2 f_equal. destruct (Z.eqb_spec pos b) as [->|].
    + rewrite Z.div_same by lia. destruct ns as [|blk2 ns].
      * rewrite zlen_nil. destruct (Z.ltb_spec b (b * (1 + 0))); [lia|done].
      * rewrite zlen_cons in *. pose proof (zlen_nonneg ns).
        destruct (Z.ltb_spec b (b * (1 + (1 + zlen ns)))); [|nia]. f_equal. lia.
    + rewrite Z.div_small by lia. pose proof (zlen_nonneg ns).
      destruct (Z.ltb_spec pos (b * (1 + zlen ns))); [|nia]. f_equal. lia.
Qed.

Definition seeked (p : Z) (ba : t) : t :=
  mk (m_baseSize ba) p (m_capacity ba) (m_size ba `max` p) (m_endian ba) (m_nodes ba)
     (cur_at (m_baseSize ba) (m_capacity ba) p).

Lemma setPosition_ok p ba :
  Inv ba -> 0 <= p <= m_capacity ba -> setPosition p ba = Ret tt (seeked p ba) /\ Inv (seeked p ba).
Proof.
  intros Hi Hp. pose proof Hi as [Hs ?]. pose proof Hs as []. split.
  - unfold setPosition. destruct (Z.ltb_spec (m_capacity ba) p); [lia|].
    destruct (seek_loop_ok (m_baseSize ba) (m_nodes ba) 0 p) as [r Hr]; try done; try lia.
    { intros E. rewrite E in st_root0. done. }
    cbv zeta. change (m_size (with_position p ba)) with (m_size ba).
    unfold seeked, cur_at. rewrite <- st_cap0 in Hr.
    destruct (Z.ltb_spec (m_size ba) p); cbn [m_nodes with_size with_position]; rewrite Hr;
      unfold with_cur, with_size, with_position; simpl; f_equal; f_equal; lia.
  - split; [split|]; simpl; try done; lia.
Qed.

Lemma abs_seeked p ba :
  Inv ba -> 0 <= p <= m_size ba -> abs (seeked p ba) = flat_seek p (abs ba).
Proof. intros ? ?. unfold abs, flat_seek, seeked. simpl. f_equal. f_equal. lia. Qed.

Lemma setPosition_error p ba : m_capacity ba < p -> setPosition p ba = Throw OutOfRange ba.
Proof. intros. unfold setPosition. by destruct (Z.ltb_spec (m_capacity ba) p); [|lia]. Qed.

Lemma clear_ok ba : Inv ba -> Inv (clear ba) /\ abs (clear ba) = Flat [] 0.
Proof.
  intros [[] ?]. split; [|done].
  assert (zlen (take 1 (m_nodes ba)) = 1) as Hl.
  { unfold zlen in *. rewrite length_take. lia. }
  split; [split|]; simpl; try lia.
  - by apply Forall_take.
  - unfold cur_at. destruct (Z.ltb_spec 0 (m_baseSize ba)); [|lia]. by rewrite Z.div_0_l by lia.
Qed.

(** *** Views and files *)

(** The [iovec]s of [getReadBuffers] cover exactly the next [len] readable
    bytes, and nothing changes. *)
Lemma getReadBuffers_ok len ba :
  Inv ba -> 0 <= len ->
  let n := len `min` (m_size ba - m_position ba) in
  exists bufs parts,
    getReadBuffers len ba = Ret (n, bufs) ba
    /\ mapM (iov_bytes (m_nodes ba)) bufs = Some parts
    /\ concat parts = zsub (m_position ba) n (f_data (abs ba)).
Proof.
  intros Hi Hlen n. pose proof Hi as [Hs ?]. pose proof (st_pos _ Hs). pose proof (st_base _ Hs).
  unfold getReadBuffers. rewrite getReadSize_eq by done.
  replace (if m_size ba - m_position ba <? len then m_size ba - m_position ba else len) with n
    by (destruct (Z.ltb_spec (m_size ba - m_position ba) len); lia).
  destruct (Z.eqb_spec n 0) as [->|]; [by exists [], []|].
  destruct (Z.eqb_spec (m_baseSize ba) 0); [lia|].
  destruct (store_cur ba Hs ltac:(lia)) as (i & blk & Hci & Hblk & Hlen' & Hpos & Hlt).
  unfold cur_node. rewrite Hci. cbn [deref]. rewrite Hblk, Hlen'. cbv zeta.
  pose proof (pos_split ba Hs) as [_ ?]. pose proof (st_cap _ Hs).
  rewrite uw_small by (apply (in_block_u64 ba); (done || lia)).
  destruct (iov_loop_ok (S (length (m_nodes ba))) (m_baseSize ba) (m_nodes ba) []
    (m_position ba mod m_baseSize ba) n i) as (out & parts & Ho & Hm & Hp);
    try (apply Hs || lia || (unfold zlen in *; lia)).
  rewrite Ho. exists out, parts. split_and!; [done..|].
  rewrite Hp, Hpos. apply zsub_abs; (done || lia).
Qed.

Lemma flat_write_nil f : 0 <= f_pos f <= zlen (f_data f) -> flat_write [] f = f.
Proof.
  intros. destruct f as [d p]. unfold flat_write. simpl in *. rewrite splice_nil, zlen_nil by lia.
  f_equal. lia.
Qed.

Lemma flat_write_empty d : flat_write d (Flat [] 0) = Flat d (zlen d).
Proof. unfold flat_write, splice, ztake, zdrop. simpl. by rewrite drop_nil, app_nil_r. Qed.

(** A chunked write is one write. *)
Lemma flat_write_app a b f :
  0 <= f_pos f <= zlen (f_data f) -> flat_write b (flat_write a f) = flat_write (a ++ b) f.
Proof.
  intros ?. pose proof (zlen_nonneg a). pose proof (zlen_nonneg b).
  unfold flat_write. simpl. rewrite zlen_app, Z.add_assoc. f_equal.
  unfold splice at 1 3. rewrite zlen_app. unfold splice.
  rewrite ztake_app_ge by (rewrite zlen_ztake; lia). rewrite zlen_ztake by lia.
  replace (f_pos f + zlen a - f_pos f) with (zlen a) by lia.
  rewrite ztake_app_le, (ztake_all _ a) by lia. rewrite <- !app_assoc. do 3 f_equal.
  rewrite !zdrop_app_ge; rewrite ?zlen_ztake; try lia.
  rewrite zdrop_zdrop by lia. f_equal. lia.
Qed.

Lemma readFromFile_loop_ok fuel rest ba :
  Inv ba -> m_position ba + zlen rest + m_baseSize ba <= 2 ^ 64 -> (length rest < fuel)%nat ->
  exists ba', readFromFile_loop fuel rest ba = Ret tt ba' /\ Inv ba'
    /\ abs ba' = flat_write rest (abs ba).
Proof.
  revert rest ba. induction fuel as [|fuel IH]; intros rest ba Hi H64 Hf; [lia|].
  pose proof (st_base _ (inv_store _ Hi)). pose proof (zlen_nonneg rest).
  assert (zlen (ztake (m_baseSize ba) rest) <= zlen rest) as Hle.
  { unfold zlen, ztake. rewrite length_take. lia. }
  cbn [readFromFile_loop].
  destruct (write_ok (ztake (m_baseSize ba) rest) ba Hi) as (b1 & -> & Hi1 & Ha1 & Hb1 & He1 & Hc1); [lia|].
  cbn [obind]. destruct (Z.ltb_spec (zlen rest) (m_baseSize ba)).
  - exists b1. split_and!; try done. rewrite Ha1. f_equal. apply ztake_all. lia.
  - pose proof (f_equal f_pos Ha1) as Hp1. simpl in Hp1. rewrite zlen_ztake in Hp1 by lia.
    destruct (IH (zdrop (m_baseSize ba) rest) b1 Hi1) as (b2 & -> & Hi2 & Ha2).
    + rewrite zlen_zdrop by lia. lia.
    + unfold zdrop, zlen in *. rewrite length_drop. lia.
    + exists b2. split_and!; try done. rewrite Ha2, Ha1, flat_write_app.
      * by rewrite ztake_zdrop.
      * rewrite zlen_abs by done. simpl. pose proof Hi as [Hs0 ?]. pose proof (st_pos _ Hs0). lia.
Qed.

(** The block that the [iovec]s of [getWriteBuffers] start in. *)
Lemma getWriteBuffers_eq len ba :
  Inv ba -> 0 < len -> m_position ba + len + m_baseSize ba <= 2 ^ 64 ->
  exists ba' i, let npos := m_position ba mod m_baseSize ba' in
    grown len ba ba' /\ m_baseSize ba' * Z.of_nat i + npos = m_position ba /\ Z.of_nat i < zlen (m_nodes ba') /\ 0 <= npos < m_baseSize ba'
    /\ getWriteBuffers len ba
       = run_iov len (iov_loop (S (length (m_nodes ba'))) (m_nodes ba') (Some i) npos (m_baseSize ba' - npos) len []) ba'.
Proof.
  intros [Hs0 ?] Hlen H64. unfold getWriteBuffers. destruct (Z.eqb_spec len 0); [lia|].
  destruct (addCapacity_ok len ba Hs0) as (b1 & -> & Hg); [lia|lia|]. cbn [obind].
  pose proof Hg as [Hs Hb1 Hp1 Hz1 He1 Hc1 Hr1 _]. rewrite <- Hp1 in *.
  pose proof (st_pos _ Hs). pose proof (st_base _ Hs).
  destruct (Z.eqb_spec (m_baseSize b1) 0); [lia|].
  destruct (store_cur b1 Hs ltac:(lia)) as (i & blk & Hci & Hblk & Hlen' & Hpos & Hlt).
  unfold cur_node. rewrite Hci. cbn [deref]. rewrite Hblk, Hlen'. cbv zeta.
  pose proof (pos_split b1 Hs) as [_ ?]. pose proof (st_cap _ Hs).
  rewrite uw_small by (apply (in_block_u64 b1); (done || lia)). by exists b1, i.
Qed.
(** [getWriteBuffers] grows the buffer and returns [iovec]s that cover
    exactly the [len] bytes of memory behind the position. *)
Lemma getWriteBuffers_ok len ba :
  Inv ba -> 0 < len -> m_position ba + len + m_baseSize ba <= 2 ^ 64 ->
  exists ba' bufs parts,
    getWriteBuffers len ba = Ret (len, bufs) ba' /\ grown len ba ba'
    /\ mapM (iov_bytes (m_nodes ba')) bufs = Some parts
    /\ concat parts = zsub (m_position ba) len (contents ba').
Proof.
  intros Hi Hlen H64. destruct (getWriteBuffers_eq len ba Hi Hlen H64) as (b1 & i & Hg & Hpos & Hlt & Hn & ->).
  pose proof (st_cap _ (gr_store _ _ _ Hg)). pose proof (gr_room _ _ _ Hg).
  destruct (iov_loop_ok (S (length (m_nodes b1))) (m_baseSize b1) (m_nodes b1) []
    (m_position ba mod m_baseSize b1) len i) as (out & parts & Ho & Hm & Hp);
    try (apply Hg || lia || (unfold zlen in *; lia)).
  rewrite Ho. exists b1, out, parts. split_and!; try done. by rewrite Hp, Hpos.
Qed.

(** The output loop of [writeToFile], started at the beginning of block [i]. *)
Lemma writeToFile_loop_ok fuel b (ns : list str) i n out :
  0 < b < 2 ^ 63 -> blocks b ns -> 0 < n -> n < 2 ^ 64 ->
  b * Z.of_nat i + n <= b * zlen ns -> b * zlen ns < 2 ^ 64 -> (length ns - i < fuel)%nat ->
  writeToFile_loop fuel ns (Some i) b (b * Z.of_nat i) n out
  = Ret (out ++ zsub (b * Z.of_nat i) n (concat ns)) tt.
Proof.
  intros Hb Hbl. revert i n out. induction fuel as [|fuel IH]; intros i n out Hn Hn64 Hend H64 Hf; [lia|].
  assert (Z.of_nat i < zlen ns) by nia.
  destruct (lookup_lt_is_Some_2 ns i) as [blk Hblk]; [unfold zlen in *; lia|].
  cbn [writeToFile_loop]. destruct (Z.leb_spec n 0); [lia|].
  rewrite (Z.mul_comm b (Z.of_nat i)), Z.mod_mul, (Z.mul_comm (Z.of_nat i)) by lia.
  rewrite Z.sub_0_r. set (len := if b <? n then b else n).
  assert (0 < len <= b /\ len = b `min` n) as [? Hmin] by (unfold len; destruct (Z.ltb_spec b n); lia).
  rewrite sw_small by (unfold in_s; lia). destruct (Z.ltb_spec len 0); [lia|].
  rewrite (node_read_ok b _ i 0 len blk), Z.add_0_r by (done || lia).
  rewrite !uw_small by (unfold in_u; nia).
  destruct (Z.leb_spec n b).
  - assert (len = n) as -> by lia. rewrite Z.sub_diag. by destruct fuel.
  - assert (len = b) as -> by lia. assert (Z.of_nat (S i) < zlen ns) by nia.
    unfold next. destruct (Nat.ltb_spec (S i) (length ns)); [|unfold zlen in *; lia].
    replace (b * Z.of_nat i + b) with (b * Z.of_nat (S i)) by lia.
    rewrite IH by lia. rewrite <- app_assoc. do 2 f_equal.
    replace (b * Z.of_nat (S i)) with (b * Z.of_nat i + b) by lia.
    rewrite zsub_app by nia. f_equal. lia.
Qed.

(** When what is left equals the offset in the block, [len] is zero and the
    loop only walks off the end of the chain. *)
Lemma writeToFile_loop_stuck fuel b (ns : list str) i pos out :
  0 < b < 2 ^ 62 -> blocks b ns -> 0 < pos mod b -> 0 <= pos < 2 ^ 64 ->
  (length ns - i < fuel)%nat -> writeToFile_loop (S fuel) ns (Some i) b pos (pos mod b) out = UB.
Proof.
  intros Hb Hbl Hm Hp. pose proof (Z.mod_pos_bound pos b ltac:(lia)).
  revert i. induction fuel as [|fuel IH]; intros i Hf; [lia|].
  remember (S fuel) as f eqn:Ef. cbn [writeToFile_loop].
  destruct (Z.leb_spec (pos mod b) 0); [lia|]. destruct (Z.ltb_spec b (pos mod b)); [lia|].
  rewrite Z.sub_diag, sw_small by (unfold in_s; lia). simpl Z.ltb. cbv iota.
  destruct (ns !! i) as [blk|] eqn:Hblk; [|unfold node_read; by rewrite Hblk].
  rewrite (node_read_ok b _ i (pos mod b) 0 blk), zsub_nil, app_nil_r by (done || lia).
  rewrite !uw_small, Z.add_0_r, Z.sub_0_r by fits. subst f.
  apply lookup_lt_Some in Hblk. unfold next. destruct (Nat.ltb_spec (S i) (length ns)).
  - apply IH. lia.
  - cbn [writeToFile_loop]. by destruct (Z.leb_spec (pos mod b) 0); [lia|].
Qed.

Lemma writeToFile_ok ba :
  Inv ba -> m_baseSize ba < 2 ^ 63 -> m_position ba mod m_baseSize ba = 0 ->
  writeToFile true ba = Ret (true, zdrop (m_position ba) (f_data (abs ba))) ba.
Proof.
  intros Hi H63 Hal. pose proof Hi as [Hs ?]. pose proof Hs as [].
  unfold writeToFile. simpl negb. cbv iota. destruct (Z.eqb_spec (m_baseSize ba) 0); [lia|].
  rewrite getReadSize_eq, <- zsub_drop, zlen_abs by (done || lia).
  destruct (Z.eq_dec (m_size ba) (m_position ba)) as [E|E].
  { rewrite E, Z.sub_diag. done. }
  destruct (store_cur ba Hs ltac:(lia)) as (i & blk & Hci & Hblk & Hlen & Hpos & Hlt).
  rewrite Hci. rewrite Hal, Z.add_0_r in Hpos. rewrite <- Hpos at 1.
  rewrite writeToFile_loop_ok by (done || lia || (unfold zlen in *; lia)).
  cbn [app]. rewrite Hpos. do 2 f_equal. apply zsub_abs; (done || lia).
Qed.

(** ** Refinement

    A client runs a sequence of operations; what it sees of each is a reply.
    [step] runs one operation on the blocks ([None]: undefined behaviour),
    [flat_step] on the abstract buffer. *)
Inductive op :=
| OpWrite (d : str)
| OpRead (n : Z)
| OpSetPosition (p : Z)
| OpToString
| OpClear.

Inductive reply := Done | Bytes (d : str) | Error (e : exn).

Definition observe {A} (f : A -> reply) (o : outcome t A) : option (reply * t) :=
  match o with
  | Ret a ba => Some (f a, ba)
  | Throw e ba => Some (Error e, ba)
  | UB | NoFuel => None
  end.

Definition step (o : op) (ba : t) : option (reply * t) :=
  match o with
  | OpWrite d => observe (fun _ => Done) (write d ba)
  | OpRead n => observe Bytes (read n ba)
  | OpSetPosition p => observe (fun _ => Done) (setPosition p ba)
  | OpToString => observe Bytes (toString ba)
  | OpClear => Some (Done, clear ba)
  end.

Definition flat_step (o : op) (f : flat) : reply * flat :=
  match o with
  | OpWrite d => (Done, flat_write d f)
  | OpRead n => match flat_read n f with
                | Some (d, f') => (Bytes d, f')
                | None => (Error OutOfRange, f)
                end
  | OpSetPosition p => (Done, flat_seek p f)
  | OpToString => (Bytes (zdrop (f_pos f) (f_data f)), f)
  | OpClear => (Done, Flat [] 0)
  end.

(** What the client has to respect: no overflow of [size_t], no empty read
    and no position behind the data. *)
Definition guard_op (base : Z) (o : op) (f : flat) : Prop :=
  match o with
  | OpWrite d => f_pos f + zlen d + base <= 2 ^ 64
  | OpRead n => 0 < n
  | OpSetPosition p => 0 <= p <= zlen (f_data f)
  | _ => True
  end.

Fixpoint run (prog : list op) (ba : t) : option (list reply * t) :=
  match prog with
  | [] => Some ([], ba)
  | o :: prog => '(r, ba) ← step o ba; '(rs, ba) ← run prog ba; Some (r :: rs, ba)
  end.

Fixpoint flat_run (prog : list op) (f : flat) : list reply * flat :=
  match prog with
  | [] => ([], f)
  | o :: prog => let '(r, f) := flat_step o f in let '(rs, f) := flat_run prog f in (r :: rs, f)
  end.

Fixpoint guarded (base : Z) (prog : list op) (f : flat) : Prop :=
  match prog with
  | [] => True
  | o :: prog => guard_op base o f /\ guarded base prog (snd (flat_step o f))
  end.

Lemma step_refines o ba :
  Inv ba -> guard_op (m_baseSize ba) o (abs ba) ->
  exists ba', step o ba = Some (fst (flat_step o (abs ba)), ba') /\ Inv ba'
    /\ abs ba' = snd (flat_step o (abs ba)) /\ m_baseSize ba' = m_baseSize ba.
Proof.
  intros Hi Hg. pose proof Hi as [Hs Hsz]. pose proof (st_pos _ Hs).
  destruct o as [d|n|p| |]; cbn [step flat_step guard_op] in *.
  - destruct (write_ok d ba Hi Hg) as (b1 & -> & ? & ? & ? & _). by exists b1.
  - unfold flat_read. rewrite zlen_abs by done. simpl f_pos.
    destruct (Z.ltb_spec (m_size ba - m_position ba) n).
    + rewrite read_error by (done || lia). by exists ba.
    + rewrite read_ok by (done || lia). destruct (abs_advance n ba Hi) as [? ?]; [lia|lia|].
      by exists (advance n ba).
  - rewrite zlen_abs in Hg by done. destruct (setPosition_ok p ba Hi) as [-> ?]; [lia|].
    exists (seeked p ba). split_and!; try done. apply abs_seeked; (done || lia).
  - rewrite toString_ok by done. by exists ba.
  - destruct (clear_ok ba Hi). by exists (clear ba).
Qed.

Lemma run_refines prog ba :
  Inv ba -> guarded (m_baseSize ba) prog (abs ba) ->
  exists ba', run prog ba = Some (fst (flat_run prog (abs ba)), ba') /\ Inv ba'
    /\ abs ba' = snd (flat_run prog (abs ba)).
Proof.
  revert ba. induction prog as [|o prog IH]; intros ba Hi Hg; [by exists ba|].
  destruct Hg as [Hg Hgs]. destruct (step_refines o ba Hi Hg) as (b1 & H1 & Hi1 & Ha1 & Hb1).
  cbn [run flat_run]. rewrite H1. destruct (flat_step o (abs ba)) as [r f1]. simpl in *. subst f1.
  destruct (IH b1 Hi1) as (b2 & -> & Hi2 & Ha2); [by rewrite Hb1|].
  destruct (flat_run prog (abs b1)) as [rs f2]. by exists b2.
Qed.

End with_platform.

(** ** Properties *)

(** C7. Refinement: from a freshly constructed buffer, any sequence of
    [write], [read], [setPosition], [toString] and [clear] that does not
    overflow [size_t], makes no empty read and does not seek behind the data
    runs without undefined behaviour on the chain of blocks, gives the client
    exactly the replies (bytes and [out_of_range] errors) of the flat
    growing byte array with a position, and leaves a well formed buffer that
    represents the flat array; whatever the block size. *)
Theorem bytearray_refines_flat_buffer `{!Platform} (base : Z) (prog : list op) :
  0 < base < 2 ^ 64 -> guarded base prog (Flat [] 0) ->
  exists ba, run prog (create base) = Some (fst (flat_run prog (Flat [] 0)), ba)
    /\ Inv ba /\ abs ba = snd (flat_run prog (Flat [] 0)).
Proof. intros Hb Hg. apply (run_refines prog (create base)); [by apply Inv_create | done]. Qed.

(** The refinement at a block size of two bytes: the reads cross blocks. *)
Definition c1_prog : list op :=
  [OpWrite (bs "hello"); OpSetPosition 1; OpRead 3; OpRead 9; OpWrite (bs "ABC"); OpSetPosition 0;
   OpToString; OpClear; OpRead 1].

Lemma bytearray_refines_flat_buffer_witness :
  (0 < 2 < 2 ^ 64 /\ @guarded 2 c1_prog (Flat [] 0)) /\
  exists ba, @run x86_64 c1_prog (@create x86_64 2)
    = Some ([Done; Done; Bytes (bs "ell"); Error OutOfRange; Done; Done; Bytes (bs "hellABC"); Done;
             Error OutOfRange], ba)
    /\ Inv ba /\ abs ba = Flat [] 0.
Proof.
  assert (0 < 2 < 2 ^ 64 /\ guarded 2 c1_prog (Flat [] 0)) as [H1 H2].
  { vm_compute. repeat split; congruence. }
  split; [done|]. exact (@bytearray_refines_flat_buffer x86_64 2 c1_prog H1 H2).
Defined.

(** The scatter/gather views are exact: the [iovec]s returned by
    [getReadBuffers(len)] point into live blocks and, concatenated, are the
    next [min(len, readable)] bytes, with the buffer unchanged; those of
    [getWriteBuffers(len)] are exactly the [len] bytes of memory behind the
    position after the buffer has grown, which keeps the position, the size
    and the bytes already stored. *)
Theorem iovec_views_exact `{!Platform} (ba : t) (len : Z) :
  Inv ba -> 0 < len -> m_position ba + len + m_baseSize ba <= 2 ^ 64 ->
  (let n := len `min` (m_size ba - m_position ba) in
   exists bufs parts, getReadBuffers len ba = Ret (n, bufs) ba
     /\ mapM (iov_bytes (m_nodes ba)) bufs = Some parts
     /\ concat parts = zsub (m_position ba) n (f_data (abs ba)))
  /\ exists ba' bufs parts, getWriteBuffers len ba = Ret (len, bufs) ba' /\ grown len ba ba'
     /\ mapM (iov_bytes (m_nodes ba')) bufs = Some parts
     /\ concat parts = zsub (m_position ba) len (contents ba').
Proof.
  intros Hi Hl H64. split; [apply getReadBuffers_ok; (done || lia) | by apply getWriteBuffers_ok].
Qed.

Lemma iovec_views_exact_witness :
  exists bufs parts, @getReadBuffers 4 (@create x86_64 8) = Ret (0, bufs) (@create x86_64 8)
    /\ mapM (iov_bytes (m_nodes (@create x86_64 8))) bufs = Some parts /\ concat parts = [].
Proof.
  destruct (@iovec_views_exact x86_64 (@create x86_64 8) 4) as [(bufs & parts & H1 & H2 & H3) _];
    [apply Inv_create; lia | lia | vm_compute; congruence |].
  by exists bufs, parts.
Defined.

(** File round trip: with the position at a block boundary,
    [writeToFile] writes exactly the readable bytes, and [readFromFile] of
    that file into a fresh buffer of any block size succeeds and stores
    exactly those bytes, with the position behind them. *)
Theorem file_roundtrip `{!Platform} (ba : t) (base : Z) :
  Inv ba -> m_baseSize ba < 2 ^ 63 -> m_position ba mod m_baseSize ba = 0 ->
  0 < base < 2 ^ 64 -> m_size ba + base <= 2 ^ 64 ->
  exists content, writeToFile true ba = Ret (true, content) ba /\
  exists ba', readFromFile (Some content) (create base) = Ret true ba' /\ Inv ba'
    /\ abs ba' = Flat content (zlen content)
    /\ content = zdrop (m_position ba) (f_data (abs ba)).
Proof.
  intros Hi H63 Hal Hb H64. exists (zdrop (m_position ba) (f_data (abs ba))).
  split; [by apply writeToFile_ok|]. pose proof Hi as [Hs ?]. pose proof (st_pos _ Hs). pose proof (st_base _ Hs).
  assert (zlen (zdrop (m_position ba) (f_data (abs ba))) = m_size ba - m_position ba) as Hl.
  { rewrite zlen_zdrop; rewrite zlen_abs by done; lia. }
  destruct (readFromFile_loop_ok (S (length (zdrop (m_position ba) (f_data (abs ba)))))
    (zdrop (m_position ba) (f_data (abs ba))) (create base)) as (b1 & Hr1 & Hi1 & Ha1).
  { apply Inv_create. lia. } { rewrite Hl. simpl. lia. } { lia. }
  exists b1. unfold readFromFile. rewrite Hr1. split_and!; try done.
  rewrite Ha1. apply flat_write_empty.
Qed.

Lemma file_roundtrip_witness :
  exists ba, @run x86_64 [OpWrite (bs "hello"); OpSetPosition 2] (@create x86_64 2) = Some ([Done; Done], ba)
  /\ exists content, @writeToFile true ba = Ret (true, content) ba /\
  exists ba', @readFromFile x86_64 (Some content) (@create x86_64 3) = Ret true ba' /\ Inv ba'
    /\ abs ba' = Flat content (zlen content)
    /\ content = zdrop (m_position ba) (f_data (abs ba)).
Proof.
  destruct (@run_refines x86_64 [OpWrite (bs "hello"); OpSetPosition 2] (@create x86_64 2))
    as (ba & Hr & Hi & Ha); [apply Inv_create; lia | vm_compute; repeat split; congruence|].
  vm_compute in Hr. injection Hr as Hba.
  exists ba. split; [by rewrite <- Hba|].
  apply (@file_roundtrip x86_64 ba 3 Hi); rewrite <- ?Hba; vm_compute; (congruence || (split; congruence)).
Defined.

(** *** Behaviour outside those conditions *)

(** An empty read at the end of the capacity dereferences a null [m_cur]. *)
Theorem empty_read_at_capacity_is_undefined `{!Platform} (ba : t) :
  Inv ba -> m_position ba = m_capacity ba -> read 0 ba = UB.
Proof.
  intros Hi Hp. pose proof Hi as [[] ?]. unfold read. rewrite getReadSize_eq by done.
  destruct (Z.ltb_spec (m_size ba - m_position ba) 0); [lia|].
  destruct (Z.eqb_spec (m_baseSize ba) 0); [lia|].
  unfold cur_node. rewrite st_cur0. unfold cur_at.
  by destruct (Z.ltb_spec (m_position ba) (m_capacity ba)); [lia|].
Qed.

(** The [const] overload of [read] takes the block from [m_cur], not from its
    [position] argument: it reads the offset of [position] in the current
    block. *)
Theorem read_at_uses_current_block `{!Platform} (ba : t) (n pos : Z) :
  Inv ba -> 0 < n <= m_size ba - m_position ba -> 0 <= pos ->
  m_baseSize ba * (m_position ba / m_baseSize ba) + pos mod m_baseSize ba + n <= m_size ba ->
  read_at n pos ba
  = Ret (zsub (m_baseSize ba * (m_position ba / m_baseSize ba) + pos mod m_baseSize ba) n
           (f_data (abs ba))) ba.
Proof.
  intros Hi Hn Hp Hend. pose proof Hi as [Hs ?]. pose proof (st_base _ Hs). pose proof (st_pos _ Hs).
  pose proof (Z.mod_pos_bound pos (m_baseSize ba) ltac:(lia)).
  pose proof (Z.div_pos (m_position ba) (m_baseSize ba) ltac:(lia) ltac:(lia)).
  set (q := m_position ba / m_baseSize ba) in *.
  rewrite <- (read_at_ok n (m_baseSize ba * q + pos mod m_baseSize ba) ba); try done; try nia.
  - unfold read_at. rewrite (Z.mul_comm _ q), Z.add_comm, Z.mod_add, Z.mod_mod by lia. done.
  - fold q. rewrite (Z.mul_comm _ q), Z.add_comm, Z.div_add, Z.div_small by lia. lia.
Qed.

(** Away from a block boundary [writeToFile] miscounts: when less than one
    block is readable it runs into undefined behaviour. *)
Theorem writeToFile_inside_block_is_undefined `{!Platform} (ba : t) :
  Inv ba -> m_baseSize ba < 2 ^ 62 -> 0 < m_position ba mod m_baseSize ba ->
  0 < m_size ba - m_position ba < m_baseSize ba -> writeToFile true ba = UB.
Proof.
  intros Hi H62 Hd Hn. pose proof Hi as [Hs ?]. pose proof Hs as [].
  unfold writeToFile. simpl negb. cbv iota. destruct (Z.eqb_spec (m_baseSize ba) 0); [lia|].
  rewrite getReadSize_eq by done.
  destruct (store_cur ba Hs ltac:(lia)) as (i & blk & -> & Hblk & Hlen & Hpos & Hlt).
  pose proof (pos_split ba Hs) as [_ Hm].
  set (d := m_position ba mod m_baseSize ba) in *. set (r := m_size ba - m_position ba) in *.
  destruct (Z.eq_dec r d) as [E|E].
  { rewrite E. by rewrite (writeToFile_loop_stuck _ (m_baseSize ba)) by (done || unfold zlen in *; lia). }
  cbn [writeToFile_loop]. destruct (Z.leb_spec r 0); [lia|]. destruct (Z.ltb_spec (m_baseSize ba) r); [lia|].
  fold d. rewrite sw_small by (unfold in_s; lia). destruct (Z.ltb_spec (r - d) 0); [done|].
  rewrite (node_read_ok (m_baseSize ba) _ i d (r - d) blk) by (done || lia).
  rewrite !uw_small by fits.
  replace (r - (r - d)) with d by lia. destruct (Z.leb_spec d 0); [lia|].
  destruct (next (m_nodes ba) i); [|done].
  destruct (Z.ltb_spec (m_baseSize ba) d); [lia|].
  replace (m_position ba + (r - d)) with (r + Z.of_nat i * m_baseSize ba) by lia.
  rewrite Z.mod_add, Z.mod_small by lia. rewrite sw_small by (unfold in_s; lia).
  destruct (Z.ltb_spec (d - r) 0); [done|lia].
Qed.

End ByteArray.
