(* ===== verification/Codec.v ===== *)
(** * Typed serialisation: the [writeX]/[readX] operations of
    [luwu/luwu/bytearray.cpp] and [byteSwap] of [luwu/luwu/utils.h].

    Each C++ type the buffer can store is a [Field]: its two operations with
    their wire format and the laws that tie them together.  The round trip of
    a whole message is proved once, against those laws. *)
From S2P Require Import Prelude ByteArray.
Import ByteArray.
Local Open Scope Z_scope.

Module Codec.
Section with_platform.
Context `{!Platform}.

(** ** Byte order *)

(** [bswap_16], [bswap_32] and [bswap_64] on an [n]-byte value. *)
Definition bswap (n : nat) (v : Z) : Z := le_val (rev (le_bytes n v)).

(** [byteSwap<T>]: the conversions to and from the unsigned type. *)
Definition byteSwap (signed : bool) (n : nat) (v : Z) : Z :=
  let r := bswap n (uw (8 * Z.of_nat n) v) in
  if signed then sw (8 * Z.of_nat n) r else r.

(** [byteSwapOnLittleEndian]: network order of a host integer. *)
Definition byteSwapOnLittleEndian (n : nat) (v : Z) : Z :=
  match BYTE_ORDER with LITTLE_ENDIAN => byteSwap false n v | BIG_ENDIAN => v end.

(** ** Fixed-width integers *)

(** The body shared by [writeFixInt16] ... [writeFixUint64]. *)
Definition writeFix (signed : bool) (n : nat) (val : Z) : M t unit := fun ba =>
  let val := if decide (m_endian ba = BYTE_ORDER) then val else byteSwap signed n val in
  write (host_bytes n val) ba.

Definition writeFixInt8 (val : Z) : M t unit := write (host_bytes 1 val).
Definition writeFixUint8 (val : Z) : M t unit := write (host_bytes 1 val).
Definition writeFixInt16 : Z -> M t unit := writeFix true 2.
Definition writeFixUint16 : Z -> M t unit := writeFix false 2.
Definition writeFixInt32 : Z -> M t unit := writeFix true 4.
Definition writeFixUint32 : Z -> M t unit := writeFix false 4.
Definition writeFixInt64 : Z -> M t unit := writeFix true 8.
Definition writeFixUint64 : Z -> M t unit := writeFix false 8.

(** The value of an [n]-byte object of signed or unsigned type. *)
Definition load (signed : bool) (n : nat) (d : str) : Z :=
  if signed then sw (8 * Z.of_nat n) (host_val d) else host_val d.

(** The macro [XX(type)]. *)
Definition readFix (signed : bool) (n : nat) : M t Z := fun ba =>
  let* d, ba := read (Z.of_nat n) ba in
  let v := load signed n d in
  Ret (if decide (m_endian ba = BYTE_ORDER) then v else byteSwap signed n v) ba.

Definition readFixInt8 : M t Z := fun ba => let* d, ba := read 1 ba in Ret (load true 1 d) ba.
Definition readFixUint8 : M t Z := fun ba => let* d, ba := read 1 ba in Ret (load false 1 d) ba.
Definition readFixInt16 : M t Z := readFix true 2.
Definition readFixUint16 : M t Z := readFix false 2.
Definition readFixInt32 : M t Z := readFix true 4.
Definition readFixUint32 : M t Z := readFix false 4.
Definition readFixInt64 : M t Z := readFix true 8.
Definition readFixUint64 : M t Z := readFix false 8.

(** ** Variable-width integers *)

(** [EncodeZigzag32] and [EncodeZigzag64]: [-val] and [val * 2] are signed
    arithmetic, so leaving the type is undefined. *)
Definition EncodeZigzag (w : Z) (val : Z) : option Z :=
  if val <? 0 then
    if decide (in_s w (- val)) then Some (uw w (uw w (- val) * 2 - 1)) else None
  else if decide (in_s w (val * 2)) then Some (uw w (val * 2)) else None.

Definition DecodeZigzag (w : Z) (val : Z) : Z :=
  sw w (Z.lxor (Z.shiftr val 1) (uw w (- Z.land val 1))).

Definition EncodeZigzag32 := EncodeZigzag 32.
Definition EncodeZigzag64 := EncodeZigzag 64.
Definition DecodeZigzag32 := DecodeZigzag 32.
Definition DecodeZigzag64 := DecodeZigzag 64.

(** The loop that fills [tmp]: [room] is what is left of the array, and a
    store outside it is undefined ([None]). *)
Fixpoint varint_loop (room : nat) (val : Z) : option str :=
  match room with
  | O => None
  | S room =>
      if val <? 0x80 then Some [z2b val]
      else rest ← varint_loop room (Z.shiftr val 7);
           Some (z2b (Z.lor (Z.land val 0x7f) 0x80) :: rest)
  end.

Definition writeUint32 (val : Z) : M t unit := fun ba =>
  match varint_loop 5 val with None => UB | Some tmp => write tmp ba end.
Definition writeUint64 (val : Z) : M t unit := fun ba =>
  match varint_loop 10 val with None => UB | Some tmp => write tmp ba end.
Definition writeInt32 (val : Z) : M t unit := fun ba =>
  match EncodeZigzag32 val with None => UB | Some v => writeUint32 v ba end.
Definition writeInt64 (val : Z) : M t unit := fun ba =>
  match EncodeZigzag64 val with None => UB | Some v => writeUint64 v ba end.

(** [for (int i = 0; i < w; i += 7)]: [iters] rounds are left. *)
Fixpoint readVarint (w : Z) (iters : nat) (i result : Z) : M t Z := fun ba =>
  match iters with
  | O => Ret result ba
  | S iters =>
      let* b, ba := readFixUint8 ba in
      if b <? 0x80 then Ret (Z.lor result (uw w (Z.shiftl b i))) ba
      else readVarint w iters (i + 7) (Z.lor result (uw w (Z.shiftl (Z.land b 0x7f) i))) ba
  end.

Definition readUint32 : M t Z := readVarint 32 5 0 0.
Definition readUint64 : M t Z := readVarint 64 10 0 0.
Definition readInt32 : M t Z := fun ba => let* v, ba := readUint32 ba in Ret (DecodeZigzag32 v) ba.
Definition readInt64 : M t Z := fun ba => let* v, ba := readUint64 ba in Ret (DecodeZigzag64 v) ba.

(** ** Floating point: the object representation, as an integer *)
Definition writeFloat (bits : Z) : M t unit := writeFixUint32 bits.
Definition writeDouble (bits : Z) : M t unit := writeFixUint64 bits.
Definition readFloat : M t Z := readFixUint32.
Definition readDouble : M t Z := readFixUint64.

(** ** Strings *)
Definition writeStringFix16 (val : str) : M t unit := fun ba =>
  let* _, ba := writeFixUint16 (u16 (zlen val)) ba in write val ba.
Definition writeStringFix32 (val : str) : M t unit := fun ba =>
  let* _, ba := writeFixUint32 (u32 (zlen val)) ba in write val ba.
Definition writeStringFix64 (val : str) : M t unit := fun ba =>
  let* _, ba := writeFixUint64 (zlen val) ba in write val ba.
Definition writeStringVint (val : str) : M t unit := fun ba =>
  let* _, ba := writeUint64 (zlen val) ba in write val ba.
Definition writeStringWithoutLength (val : str) : M t unit := write val.

(** [buf.resize(len); read(&buf[0], len); return buf;] *)
Definition readBody (len : Z) : M t str := fun ba =>
  if string_max_size <? len then Throw LengthError ba else read len ba.
Definition readStringFix16 : M t str := fun ba => let* len, ba := readFixUint16 ba in readBody len ba.
Definition readStringFix32 : M t str := fun ba => let* len, ba := readFixUint32 ba in readBody len ba.
Definition readStringFix64 : M t str := fun ba => let* len, ba := readFixUint64 ba in readBody len ba.
Definition readStringVint : M t str := fun ba => let* len, ba := readUint64 ba in readBody len ba.

(** ** The wire format *)

(** An [n]-byte integer in the byte order of the buffer. *)
Definition wire (e : endian) (n : nat) (v : Z) : str :=
  match e with LITTLE_ENDIAN => le_bytes n v | BIG_ENDIAN => be_bytes n v end.

Definition norm (signed : bool) (n : nat) (v : Z) : Z :=
  if signed then sw (8 * Z.of_nat n) v else uw (8 * Z.of_nat n) v.

Lemma length_wire e n v : length (wire e n v) = n.
Proof. destruct e; unfold wire, be_bytes; rewrite ?length_rev; apply length_le_bytes. Qed.

Lemma zlen_wire e n v : zlen (wire e n v) = Z.of_nat n.
Proof. unfold zlen. by rewrite length_wire. Qed.

Lemma le_bytes_uw n v : le_bytes n (uw (8 * Z.of_nat n) v) = le_bytes n v.
Proof.
  unfold uw. rewrite <- le_val_bytes. rewrite <- (length_le_bytes n v) at 1. apply le_bytes_val.
Qed.

Lemma le_bytes_norm signed n v : (0 < n)%nat -> le_bytes n (norm signed n v) = le_bytes n v.
Proof.
  intros. rewrite <- le_bytes_uw. unfold norm. destruct signed.
  - rewrite uw_sw by lia. apply le_bytes_uw.
  - unfold uw. rewrite Z.mod_mod by lia. apply le_bytes_uw.
Qed.

Lemma norm_uw signed n v : (0 < n)%nat -> norm signed n (uw (8 * Z.of_nat n) v) = norm signed n v.
Proof.
  intros. unfold norm. destruct signed; [apply sw_uw; lia|]. unfold uw. by rewrite Z.mod_mod by lia.
Qed.

Lemma norm_small (signed : bool) n v :
  (0 < n)%nat -> (if signed then in_s (8 * Z.of_nat n) v else in_u (8 * Z.of_nat n) v) ->
  norm signed n v = v.
Proof. intros Hn. destruct signed; intros; simpl; [apply sw_small; [lia|done] | by apply uw_small]. Qed.

Lemma bswap_range n v : in_u (8 * Z.of_nat n) (bswap n v).
Proof.
  unfold bswap. pose proof (le_val_range (rev (le_bytes n v))) as Hr. by rewrite length_rev, length_le_bytes in Hr.
Qed.

Lemma byteSwap_norm signed n v : byteSwap signed n v = norm signed n (bswap n v).
Proof.
  unfold byteSwap, norm, bswap. rewrite le_bytes_uw. destruct signed; [done|].
  symmetry. apply uw_small, bswap_range.
Qed.

Lemma le_bytes_byteSwap signed n v :
  (0 < n)%nat -> le_bytes n (byteSwap signed n v) = rev (le_bytes n v).
Proof.
  intros. rewrite byteSwap_norm, le_bytes_norm by done. unfold bswap.
  rewrite <- (length_le_bytes n v) at 1. rewrite <- length_rev. apply le_bytes_val.
Qed.

(** What is stored follows the byte order of the buffer, not of the host. *)
Lemma host_bytes_wire e signed n v :
  (0 < n)%nat ->
  host_bytes n (if decide (e = BYTE_ORDER) then v else byteSwap signed n v) = wire e n v.
Proof.
  intros. unfold host_bytes, wire, be_bytes.
  case_decide as He; destruct e, BYTE_ORDER; try done; rewrite le_bytes_byteSwap by done;
    by rewrite ?rev_involutive.
Qed.

Lemma load_norm signed n d : length d = n -> load signed n d = norm signed n (host_val d).
Proof.
  intros <-. unfold load, norm. destruct signed; [done|]. symmetry. apply uw_small.
  unfold host_val. destruct BYTE_ORDER; [apply le_val_range|].
  rewrite <- length_rev. apply le_val_range.
Qed.

Lemma load_wire e signed n v :
  (0 < n)%nat ->
  (let x := load signed n (wire e n v) in
   if decide (e = BYTE_ORDER) then x else byteSwap signed n x) = norm signed n v.
Proof.
  intros Hn. cbv zeta. rewrite load_norm by apply length_wire.
  assert (forall x, norm signed n (x mod 2 ^ (8 * Z.of_nat n)) = norm signed n x) as Hmod
    by (intros; by apply norm_uw).
  unfold host_val, wire, be_bytes.
  case_decide as He; [|rewrite byteSwap_norm; unfold bswap; rewrite le_bytes_norm by done];
    destruct e, BYTE_ORDER; try done; rewrite ?rev_involutive.
  - by rewrite le_val_bytes.
  - by rewrite le_val_bytes.
  - rewrite <- (length_le_bytes n v) at 2. rewrite <- length_rev, le_bytes_val, rev_involutive.
    by rewrite le_val_bytes.
  - rewrite <- (length_le_bytes n v) at 2. rewrite <- length_rev, le_bytes_val, rev_involutive.
    by rewrite le_val_bytes.
Qed.

(** ** Reading what is in front *)

(** The bytes that can be read, and the state after reading [n] of them. *)
Definition readable (ba : t) : str := zdrop (m_position ba) (f_data (abs ba)).

Lemma zlen_readable ba : Inv ba -> zlen (readable ba) = m_size ba - m_position ba.
Proof.
  intros Hi. pose proof Hi as [Hs ?]. pose proof (st_pos _ Hs). unfold readable.
  rewrite zlen_zdrop; rewrite zlen_abs by done; lia.
Qed.

Record consumed (d rest : str) (ba ba' : t) : Prop := {
  co_inv : Inv ba';
  co_data : f_data (abs ba') = f_data (abs ba);
  co_pos : m_position ba' = m_position ba + zlen d;
  co_endian : m_endian ba' = m_endian ba;
  co_rest : readable ba' = rest;
}.

Lemma consumed_trans d e rest ba b1 b2 :
  consumed d (e ++ rest) ba b1 -> consumed e rest b1 b2 -> consumed (d ++ e) rest ba b2.
Proof.
  intros [] []. split; try done; try congruence. rewrite zlen_app. lia.
Qed.

Lemma read_readable d rest ba :
  Inv ba -> d <> [] -> readable ba = d ++ rest ->
  exists ba', read (zlen d) ba = Ret d ba' /\ consumed d rest ba ba'.
Proof.
  intros Hi Hne Hr. assert (0 < zlen d) by (destruct d; [done|zlen_lia]).
  pose proof (zlen_readable ba Hi) as Hl. rewrite Hr, zlen_app in Hl. pose proof (zlen_nonneg rest).
  exists (advance (zlen d) ba).
  rewrite read_ok by (done || lia). split.
  - f_equal. unfold zsub. fold (readable ba). rewrite Hr, ztake_app_le by lia. apply ztake_all. lia.
  - destruct (abs_advance (zlen d) ba Hi) as [Hi' Ha]; [lia|lia|].
    split; try done. unfold readable in *. rewrite Ha. simpl m_position. cbn [f_data].
    pose proof (st_pos _ (inv_store _ Hi)). rewrite <- zdrop_zdrop by lia. rewrite Hr, zdrop_app_ge by lia.
    by rewrite Z.sub_diag.
Qed.

Lemma readFix_ok signed n v rest ba :
  Inv ba -> (0 < n)%nat -> readable ba = wire (m_endian ba) n v ++ rest ->
  exists ba', readFix signed n ba = Ret (norm signed n v) ba'
    /\ consumed (wire (m_endian ba) n v) rest ba ba'.
Proof.
  intros Hi Hn Hr. destruct (read_readable (wire (m_endian ba) n v) rest ba Hi) as (b1 & H1 & Hc); [|done|].
  { intros E. apply (f_equal length) in E. rewrite length_wire in E. simpl in E. lia. }
  exists b1. split; [|done]. unfold readFix. rewrite zlen_wire in H1. rewrite H1. cbn [obind].
  rewrite (co_endian _ _ _ _ Hc). f_equal. by apply load_wire.
Qed.

Lemma readFixUint8_ok b rest ba :
  Inv ba -> readable ba = b :: rest ->
  exists ba', readFixUint8 ba = Ret (b2z b) ba' /\ consumed [b] rest ba ba'.
Proof.
  intros Hi Hr. destruct (read_readable [b] rest ba Hi) as (b1 & H1 & Hc); [done|done|].
  exists b1. split; [|done]. unfold readFixUint8. change 1 with (zlen [b]). rewrite H1. cbn [obind].
  f_equal. unfold load, host_val. destruct BYTE_ORDER; simpl; lia.
Qed.

(** ** Variable-width integers *)

Lemma land_7f x : Z.land x 0x7f = x mod 128.
Proof. apply (land_ones_mod x 7). lia. Qed.

Lemma more_byte val :
  let b := z2b (Z.lor (Z.land val 0x7f) 0x80) in
  b2z b = 128 + val mod 128 /\ Z.land (b2z b) 0x7f = val mod 128.
Proof.
  intros b. pose proof (Z.mod_pos_bound val 128 ltac:(lia)).
  assert (b2z b = 128 + val mod 128) as Hb.
  { subst b. rewrite land_7f. replace (Z.lor (val mod 128) 0x80) with (val mod 128 + 128)
      by (symmetry; apply (lor_shiftl_add (val mod 128) 1 7); lia).
    rewrite z2b_small by lia. lia. }
  split; [done|]. rewrite Hb, land_7f. symmetry. apply (Z.mod_unique _ _ 1); lia.
Qed.

(** Every value of [7 * room] bits fits in a [tmp] of [room] bytes. *)
Lemma varint_loop_fits room val :
  (0 < room)%nat -> 0 <= val < 2 ^ (7 * Z.of_nat room) ->
  exists d, varint_loop room val = Some d /\ (1 <= length d <= room)%nat.
Proof.
  revert val. induction room as [|room IH]; intros val Hr Hv; [lia|]. cbn [varint_loop].
  destruct (Z.ltb_spec val 0x80); [eexists; split; [done|simpl; lia]|].
  rewrite Z.shiftr_div_pow2 by lia. change (2 ^ 7) with 128.
  assert (2 ^ (7 * Z.of_nat (S room)) = 128 * 2 ^ (7 * Z.of_nat room)) as Hp.
  { rewrite <- (Z.pow_add_r 2 7) by lia. f_equal. lia. }
  destruct room as [|room]; [simpl in Hv; lia|].
  destruct (IH (val / 128)) as (d & -> & Hd); [lia|split; [apply Z.div_pos; lia|apply Z.div_lt_upper_bound; lia]|].
  eexists. split; [done|]. simpl. lia.
Qed.

(** Continuation bytes have the top bit, the last byte has not. *)
Lemma varint_shape room val d :
  0 <= val -> varint_loop room val = Some d ->
  exists body last, d = body ++ [last] /\ b2z last < 0x80 /\ Forall (fun b => 0x80 <= b2z b) body.
Proof.
  revert val d. induction room as [|room IH]; intros val d Hv; cbn [varint_loop]; [done|].
  destruct (Z.ltb_spec val 0x80).
  - intros [= <-]. exists [], (z2b val). rewrite z2b_small by lia. done.
  - destruct (varint_loop room (Z.shiftr val 7)) as [d'|] eqn:E; intros [= <-].
    destruct (IH (Z.shiftr val 7) d') as (body & l & -> & ? & ?); [by apply Z.shiftr_nonneg|done|].
    eexists (_ :: body), l. split_and!; try done. constructor; [|done].
    destruct (more_byte val) as [-> _]. pose proof (Z.mod_pos_bound val 128). lia.
Qed.

Lemma varint_loop_nonempty room val d : varint_loop room val = Some d -> d <> [].
Proof.
  destruct room; cbn [varint_loop]; [done|]. destruct (_ <? _); [by intros [= <-]|].
  destruct (varint_loop _ _); [by intros [= <-]|done].
Qed.

Lemma readVarint_ok w iters i result val d rest ba :
  Inv ba -> varint_loop iters val = Some d -> 0 <= val -> 0 <= i -> 0 <= w -> 0 <= result < 2 ^ i ->
  val * 2 ^ i < 2 ^ w -> readable ba = d ++ rest ->
  exists ba', readVarint w iters i result ba = Ret (result + val * 2 ^ i) ba' /\ consumed d rest ba ba'.
Proof.
  revert i result val d ba. induction iters as [|iters IH]; intros i result val d ba Hi Hd Hv Hi0 Hw Hres Hval Hr;
    [done|].
  cbn [varint_loop] in Hd. cbn [readVarint]. destruct (Z.ltb_spec val 0x80).
  - injection Hd as <-. destruct (readFixUint8_ok (z2b val) rest ba Hi Hr) as (b1 & -> & Hc). cbn [obind].
    rewrite z2b_small by lia. destruct (Z.ltb_spec val 0x80); [|lia].
    exists b1. split; [|done]. f_equal. rewrite uw_small.
    + by apply lor_shiftl_add.
    + rewrite Z.shiftl_mul_pow2 by lia. unfold in_u. nia.
  - destruct (varint_loop iters (Z.shiftr val 7)) as [d'|] eqn:Hd'; [|done]. injection Hd as <-.
    destruct (more_byte val) as [Hb Hl]. pose proof (Z.mod_pos_bound val 128 ltac:(lia)).
    destruct (readFixUint8_ok (z2b (Z.lor (Z.land val 0x7f) 0x80)) (d' ++ rest) ba Hi Hr) as (b1 & -> & Hc).
    cbn [obind]. rewrite Hl, Hb. destruct (Z.ltb_spec (128 + val mod 128) 0x80); [lia|].
    rewrite Z.shiftr_div_pow2 in Hd' by lia. change (2 ^ 7) with 128 in Hd'.
    assert (2 ^ (i + 7) = 2 ^ i * 128) as Hp by (rewrite Z.pow_add_r by lia; lia).
    pose proof (Z.div_mod val 128 ltac:(lia)). assert (0 < 2 ^ i) by lia.
    rewrite uw_small, lor_shiftl_add by (unfold in_u; rewrite ?Z.shiftl_mul_pow2; nia).
    destruct (IH (i + 7) (result + val mod 128 * 2 ^ i) (val / 128) d' b1) as (b2 & -> & Hc2);
      try (apply Hc || done || lia || nia).
    exists b2. split; [f_equal; nia|]. by apply (consumed_trans [_] d' rest ba b1).
Qed.

Lemma zigzag_roundtrip w val :
  1 < w -> - 2 ^ (w - 1) < val < 2 ^ (w - 2) ->
  exists v, EncodeZigzag w val = Some v /\ in_u w v /\ DecodeZigzag w v = val.
Proof.
  intros Hw Hv. pose proof (pow2_half w ltac:(lia)) as Hp. pose proof (pow2_half (w - 1) ltac:(lia)) as Hp2.
  replace (w - 1 - 1) with (w - 2) in Hp2 by lia.
  unfold EncodeZigzag, DecodeZigzag. destruct (Z.ltb_spec val 0).
  - rewrite decide_True by (unfold in_s; lia). eexists. split; [done|]. rewrite (uw_small w (- val)) by fits.
    rewrite uw_small by fits. split; [fits|].
    rewrite Z.shiftr_div_pow2 by lia. change (2 ^ 1) with 2.
    replace ((- val * 2 - 1) / 2) with (- val - 1) by (apply (Z.div_unique _ 2 _ 1); lia).
    rewrite (land_ones_mod _ 1) by lia. change (2 ^ 1) with 2.
    rewrite <- (Z.mod_unique (- val * 2 - 1) 2 (- val - 1) 1) by lia.
    replace (uw w (- (1))) with (2 ^ w - 1) by (unfold uw; apply (Z.mod_unique _ _ (-1)); lia).
    rewrite lxor_ones by lia. rewrite <- sw_uw by lia.
    replace (uw w (2 ^ w - 1 - (- val - 1))) with (uw w val).
    + rewrite sw_uw by lia. apply sw_small; [lia|]. unfold in_s. lia.
    + unfold uw. rewrite <- (Z.mod_add val 1 (2 ^ w)) by lia. f_equal. lia.
  - rewrite decide_True by (unfold in_s; lia). eexists. split; [done|].
    rewrite uw_small by fits. split; [fits|].
    rewrite Z.shiftr_div_pow2 by lia. change (2 ^ 1) with 2. rewrite Z.div_mul by lia.
    rewrite (land_ones_mod _ 1) by lia. change (2 ^ 1) with 2. rewrite Z.mod_mul by lia.
    rewrite (uw_small w (- (0))) by fits. change (- (0)) with 0. rewrite Z.lxor_0_r.
    apply sw_small; [lia|]. unfold in_s. lia.
Qed.

(** ** Fields: an interface with laws *)

Record written (d : str) (ba ba' : t) : Prop := {
  wr_inv : Inv ba';
  wr_abs : abs ba' = flat_write d (abs ba);
  wr_base : m_baseSize ba' = m_baseSize ba;
  wr_endian : m_endian ba' = m_endian ba;
}.

(** Room for [n] more bytes without overflow of [size_t]. *)
Definition fits (n : Z) (ba : t) : Prop := m_position ba + n + m_baseSize ba <= 2 ^ 64.

Lemma abs_ok ba : Inv ba -> 0 <= f_pos (abs ba) <= zlen (f_data (abs ba)).
Proof.
  intros Hi. rewrite zlen_abs by done. pose proof Hi as [Hs ?]. pose proof (st_pos _ Hs). simpl. lia.
Qed.

Lemma write_written d ba :
  Inv ba -> fits (zlen d) ba -> exists ba', write d ba = Ret tt ba' /\ written d ba ba'.
Proof. intros Hi Hf. destruct (write_ok d ba Hi Hf) as (b1 & H1 & ? & ? & ? & ? & _). by exists b1. Qed.

Lemma written_fits d n ba b1 : written d ba b1 -> fits (zlen d + n) ba -> fits n b1.
Proof.
  intros [_ Ha Hb _]. pose proof (f_equal f_pos Ha) as Hp. simpl in Hp. unfold fits. rewrite Hp, Hb. lia.
Qed.

Lemma written_trans d e ba b1 b2 :
  Inv ba -> written d ba b1 -> written e b1 b2 -> written (d ++ e) ba b2.
Proof.
  intros Hi [] []. split; try done; try congruence.
  rewrite wr_abs1, wr_abs0. apply flat_write_app. by apply abs_ok.
Qed.

Record Field (T : Type) := MkField {
  F_write : T -> M t unit;
  F_read : M t T;
  F_wire : endian -> T -> str;
  F_valid : T -> Prop;
  F_write_law v ba :
    F_valid v -> Inv ba -> fits (zlen (F_wire (m_endian ba) v)) ba ->
    exists ba', F_write v ba = Ret tt ba' /\ written (F_wire (m_endian ba) v) ba ba';
  F_read_law v rest ba :
    F_valid v -> Inv ba -> readable ba = F_wire (m_endian ba) v ++ rest ->
    exists ba', F_read ba = Ret v ba' /\ consumed (F_wire (m_endian ba) v) rest ba ba';
}.
#[global] Arguments F_write {T}.
#[global] Arguments F_read {T}.
#[global] Arguments F_wire {T}.
#[global] Arguments F_valid {T}.
#[global] Arguments F_write_law {T}.
#[global] Arguments F_read_law {T}.

(** The values a fixed-width field of [n] bytes can store. *)
Definition in_type (signed : bool) (n : nat) (v : Z) : Prop :=
  if signed then in_s (8 * Z.of_nat n) v else in_u (8 * Z.of_nat n) v.

Lemma writeFix_law signed n v ba :
  (0 < n)%nat -> Inv ba -> fits (zlen (wire (m_endian ba) n v)) ba ->
  exists ba', writeFix signed n v ba = Ret tt ba' /\ written (wire (m_endian ba) n v) ba ba'.
Proof. intros. unfold writeFix. rewrite host_bytes_wire by done. by apply write_written. Qed.

Lemma readFix_law signed n v rest ba :
  (0 < n)%nat -> in_type signed n v -> Inv ba -> readable ba = wire (m_endian ba) n v ++ rest ->
  exists ba', readFix signed n ba = Ret v ba' /\ consumed (wire (m_endian ba) n v) rest ba ba'.
Proof.
  intros Hn Hv Hi Hr. destruct (readFix_ok signed n v rest ba Hi Hn Hr) as (b1 & H1 & Hc).
  rewrite norm_small in H1 by done. by exists b1.
Qed.

(** A field of one of the types the macro [XX] and its writers cover. *)
Definition fix_field (signed : bool) (n : nat) (Hn : (0 < n)%nat) : Field Z :=
  MkField Z (writeFix signed n) (readFix signed n) (fun e => wire e n) (in_type signed n)
    (fun v ba _ => writeFix_law signed n v ba Hn)
    (fun v rest ba => readFix_law signed n v rest ba Hn).

(** One byte is the same in every byte order. *)
Lemma host_bytes_1 v e : host_bytes 1 v = wire e 1 v.
Proof. unfold host_bytes, wire, be_bytes. by destruct BYTE_ORDER, e. Qed.

Lemma write8_law v ba :
  Inv ba -> fits (zlen (wire (m_endian ba) 1 v)) ba ->
  exists ba', write (host_bytes 1 v) ba = Ret tt ba' /\ written (wire (m_endian ba) 1 v) ba ba'.
Proof. intros. rewrite (host_bytes_1 v (m_endian ba)). by apply write_written. Qed.

Lemma read8_law signed v rest ba :
  in_type signed 1 v -> Inv ba -> readable ba = wire (m_endian ba) 1 v ++ rest ->
  exists ba', (let* d, ba := read 1 ba in Ret (load signed 1 d) ba) = Ret v ba'
    /\ consumed (wire (m_endian ba) 1 v) rest ba ba'.
Proof.
  intros Hv Hi Hr. destruct (read_readable (wire (m_endian ba) 1 v) rest ba Hi) as (b1 & H1 & Hc); [|done|].
  { intros E. apply (f_equal length) in E. by rewrite length_wire in E. }
  rewrite zlen_wire in H1. change (Z.of_nat 1) with 1 in H1. rewrite H1. exists b1. split; [|done]. cbn [obind].
  f_equal. rewrite load_norm by apply length_wire. rewrite <- (host_bytes_1 v), host_val_bytes.
  transitivity (norm signed 1 v); [by apply norm_uw; lia|]. apply norm_small; [lia|done].
Qed.

Definition field_FixInt8 : Field Z :=
  MkField Z writeFixInt8 readFixInt8 (fun e => wire e 1) (in_type true 1)
    (fun v ba _ => write8_law v ba) (read8_law true).
Definition field_FixUint8 : Field Z :=
  MkField Z writeFixUint8 readFixUint8 (fun e => wire e 1) (in_type false 1)
    (fun v ba _ => write8_law v ba) (read8_law false).
Definition field_FixInt16 : Field Z := fix_field true 2 ltac:(lia).
Definition field_FixUint16 : Field Z := fix_field false 2 ltac:(lia).
Definition field_FixInt32 : Field Z := fix_field true 4 ltac:(lia).
Definition field_FixUint32 : Field Z := fix_field false 4 ltac:(lia).
Definition field_FixInt64 : Field Z := fix_field true 8 ltac:(lia).
Definition field_FixUint64 : Field Z := fix_field false 8 ltac:(lia).

(** *** Variable-width fields *)
Definition varint (room : nat) (val : Z) : str := default [] (varint_loop room val).

Lemma varint_some room w val :
  (0 < room)%nat -> w <= 7 * Z.of_nat room -> in_u w val ->
  varint_loop room val = Some (varint room val).
Proof.
  intros Hr Hw [? ?]. destruct (varint_loop_fits room val Hr) as (d & E & _).
  - split; [done|]. eapply Z.lt_le_trans; [done|]. apply Z.pow_le_mono_r; lia.
  - unfold varint. by rewrite E.
Qed.

Lemma writeVarint_law room w v ba :
  (0 < room)%nat -> w <= 7 * Z.of_nat room -> in_u w v -> Inv ba -> fits (zlen (varint room v)) ba ->
  exists ba', (match varint_loop room v with None => UB | Some tmp => write tmp ba end) = Ret tt ba'
    /\ written (varint room v) ba ba'.
Proof. intros ? ? Hv ? ?. rewrite (varint_some room w) by done. by apply write_written. Qed.

Lemma readVarint_law room w v rest ba :
  (0 < room)%nat -> 0 <= w <= 7 * Z.of_nat room -> in_u w v -> Inv ba ->
  readable ba = varint room v ++ rest ->
  exists ba', readVarint w room 0 0 ba = Ret v ba' /\ consumed (varint room v) rest ba ba'.
Proof.
  intros ? ? Hv Hi Hr.
  destruct (readVarint_ok w room 0 0 v (varint room v) rest ba Hi) as (b1 & Hb1 & Hc);
    try (done || unfold in_u in *; lia).
  - apply (varint_some room w); (done || lia).
  - exists b1. split; [|done]. rewrite Hb1. f_equal. lia.
Qed.

Lemma writeUint32_law v ba :
  in_u 32 v -> Inv ba -> fits (zlen (varint 5 v)) ba ->
  exists ba', writeUint32 v ba = Ret tt ba' /\ written (varint 5 v) ba ba'.
Proof. apply writeVarint_law; lia. Qed.
Lemma writeUint64_law v ba :
  in_u 64 v -> Inv ba -> fits (zlen (varint 10 v)) ba ->
  exists ba', writeUint64 v ba = Ret tt ba' /\ written (varint 10 v) ba ba'.
Proof. apply writeVarint_law; lia. Qed.
Lemma readUint32_law v rest ba :
  in_u 32 v -> Inv ba -> readable ba = varint 5 v ++ rest ->
  exists ba', readUint32 ba = Ret v ba' /\ consumed (varint 5 v) rest ba ba'.
Proof. apply readVarint_law; lia. Qed.
Lemma readUint64_law v rest ba :
  in_u 64 v -> Inv ba -> readable ba = varint 10 v ++ rest ->
  exists ba', readUint64 ba = Ret v ba' /\ consumed (varint 10 v) rest ba ba'.
Proof. apply readVarint_law; lia. Qed.

Definition field_Uint32 : Field Z :=
  MkField Z writeUint32 readUint32 (fun _ => varint 5) (in_u 32) writeUint32_law readUint32_law.
Definition field_Uint64 : Field Z :=
  MkField Z writeUint64 readUint64 (fun _ => varint 10) (in_u 64) writeUint64_law readUint64_law.

(** The signed values whose encoding is defined: see
    [zigzag_overflow_is_undefined]. *)
Definition in_zigzag (w v : Z) : Prop := - 2 ^ (w - 1) < v < 2 ^ (w - 2).
Definition zigzag (w v : Z) : Z := default 0 (EncodeZigzag w v).

Lemma zigzag_ok w v :
  1 < w -> in_zigzag w v ->
  EncodeZigzag w v = Some (zigzag w v) /\ in_u w (zigzag w v) /\ DecodeZigzag w (zigzag w v) = v.
Proof.
  intros Hw Hv. destruct (zigzag_roundtrip w v Hw Hv) as (x & E & Hx & Hd). unfold zigzag. rewrite E. done.
Qed.

Lemma writeInt32_law v ba :
  in_zigzag 32 v -> Inv ba -> fits (zlen (varint 5 (zigzag 32 v))) ba ->
  exists ba', writeInt32 v ba = Ret tt ba' /\ written (varint 5 (zigzag 32 v)) ba ba'.
Proof.
  intros Hv. destruct (zigzag_ok 32 v ltac:(lia) Hv) as (E & ? & _).
  unfold writeInt32, EncodeZigzag32. rewrite E. by apply writeUint32_law.
Qed.
Lemma writeInt64_law v ba :
  in_zigzag 64 v -> Inv ba -> fits (zlen (varint 10 (zigzag 64 v))) ba ->
  exists ba', writeInt64 v ba = Ret tt ba' /\ written (varint 10 (zigzag 64 v)) ba ba'.
Proof.
  intros Hv. destruct (zigzag_ok 64 v ltac:(lia) Hv) as (E & ? & _).
  unfold writeInt64, EncodeZigzag64. rewrite E. by apply writeUint64_law.
Qed.
Lemma readInt32_law v rest ba :
  in_zigzag 32 v -> Inv ba -> readable ba = varint 5 (zigzag 32 v) ++ rest ->
  exists ba', readInt32 ba = Ret v ba' /\ consumed (varint 5 (zigzag 32 v)) rest ba ba'.
Proof.
  intros Hv Hi Hr. destruct (zigzag_ok 32 v ltac:(lia) Hv) as (_ & Hu & Hd).
  destruct (readUint32_law _ rest ba Hu Hi Hr) as (b1 & H1 & Hc). exists b1. split; [|done].
  unfold readInt32. rewrite H1. cbn [obind]. by rewrite <- Hd at 2.
Qed.
Lemma readInt64_law v rest ba :
  in_zigzag 64 v -> Inv ba -> readable ba = varint 10 (zigzag 64 v) ++ rest ->
  exists ba', readInt64 ba = Ret v ba' /\ consumed (varint 10 (zigzag 64 v)) rest ba ba'.
Proof.
  intros Hv Hi Hr. destruct (zigzag_ok 64 v ltac:(lia) Hv) as (_ & Hu & Hd).
  destruct (readUint64_law _ rest ba Hu Hi Hr) as (b1 & H1 & Hc). exists b1. split; [|done].
  unfold readInt64. rewrite H1. cbn [obind]. by rewrite <- Hd at 2.
Qed.

Definition field_Int32 : Field Z :=
  MkField Z writeInt32 readInt32 (fun _ v => varint 5 (zigzag 32 v)) (in_zigzag 32)
    writeInt32_law readInt32_law.
Definition field_Int64 : Field Z :=
  MkField Z writeInt64 readInt64 (fun _ v => varint 10 (zigzag 64 v)) (in_zigzag 64)
    writeInt64_law readInt64_law.

Definition field_Float : Field Z :=
  MkField Z writeFloat readFloat (fun e => wire e 4) (in_type false 4)
    (F_write_law field_FixUint32) (F_read_law field_FixUint32).
Definition field_Double : Field Z :=
  MkField Z writeDouble readDouble (fun e => wire e 8) (in_type false 8)
    (F_write_law field_FixUint64) (F_read_law field_FixUint64).

(** *** Strings: a length, then the bytes

    The length is any integer field [L]; [cast] is the conversion of
    [val.size()] to its argument type. *)
Section prefixed.
Context (L : Field Z) (cast : Z -> Z).

Definition write_prefixed (val : str) : M t unit := fun ba =>
  let* _, ba := F_write L (cast (zlen val)) ba in write val ba.
Definition read_prefixed : M t str := fun ba => let* len, ba := F_read L ba in readBody len ba.
Definition prefixed_wire (e : endian) (val : str) : str := F_wire L e (zlen val) ++ val.

(** The strings that come back: not empty, and of a length that the length
    field and [std::string] can hold. *)
Definition prefixed_valid (val : str) : Prop :=
  val <> [] /\ cast (zlen val) = zlen val /\ F_valid L (zlen val) /\ zlen val <= string_max_size.

Lemma write_prefixed_law val ba :
  prefixed_valid val -> Inv ba -> fits (zlen (prefixed_wire (m_endian ba) val)) ba ->
  exists ba', write_prefixed val ba = Ret tt ba' /\ written (prefixed_wire (m_endian ba) val) ba ba'.
Proof.
  intros (_ & Hc & Hv & _) Hi Hf. unfold prefixed_wire in *. rewrite zlen_app in Hf.
  pose proof (zlen_nonneg val). unfold write_prefixed. rewrite Hc.
  destruct (F_write_law L (zlen val) ba Hv Hi) as (b1 & -> & W1); [unfold fits in *; lia|]. cbn [obind].
  destruct (write_written val b1 (wr_inv _ _ _ W1)) as (b2 & -> & W2); [by eapply written_fits|].
  exists b2. split; [done|]. by eapply written_trans.
Qed.

Lemma read_prefixed_law val rest ba :
  prefixed_valid val -> Inv ba -> readable ba = prefixed_wire (m_endian ba) val ++ rest ->
  exists ba', read_prefixed ba = Ret val ba' /\ consumed (prefixed_wire (m_endian ba) val) rest ba ba'.
Proof.
  intros (Hne & _ & Hv & Hm) Hi Hr. unfold prefixed_wire in *. rewrite <- app_assoc in Hr. unfold read_prefixed.
  destruct (F_read_law L (zlen val) (val ++ rest) ba Hv Hi Hr) as (b1 & -> & C1). cbn [obind].
  unfold readBody. destruct (Z.ltb_spec string_max_size (zlen val)); [lia|].
  destruct (read_readable val rest b1) as (b2 & -> & C2); [by apply C1|done|by apply C1|].
  exists b2. split; [done|]. by eapply consumed_trans.
Qed.

Definition prefixed : Field str :=
  MkField str write_prefixed read_prefixed prefixed_wire prefixed_valid
    write_prefixed_law read_prefixed_law.
End prefixed.

Definition field_StringFix16 : Field str := prefixed field_FixUint16 (uw 16).
Definition field_StringFix32 : Field str := prefixed field_FixUint32 (uw 32).
Definition field_StringFix64 : Field str := prefixed field_FixUint64 (fun n => n).
Definition field_StringVint : Field str := prefixed field_Uint64 (fun n => n).

(** ** Messages: sequences of typed fields

    [Item] is one call of a [writeX] with its argument; [item_kind] is the
    [readX] that matches it. *)
Inductive Item : Type :=
  | FixInt8 (v : Z) | FixUint8 (v : Z) | FixInt16 (v : Z) | FixUint16 (v : Z)
  | FixInt32 (v : Z) | FixUint32 (v : Z) | FixInt64 (v : Z) | FixUint64 (v : Z)
  | Int32 (v : Z) | Uint32 (v : Z) | Int64 (v : Z) | Uint64 (v : Z)
  | Float (bits : Z) | Double (bits : Z)
  | StringFix16 (s : str) | StringFix32 (s : str) | StringFix64 (s : str) | StringVint (s : str).

Definition write_item (i : Item) : M t unit :=
  match i with
  | FixInt8 v => writeFixInt8 v | FixUint8 v => writeFixUint8 v
  | FixInt16 v => writeFixInt16 v | FixUint16 v => writeFixUint16 v
  | FixInt32 v => writeFixInt32 v | FixUint32 v => writeFixUint32 v
  | FixInt64 v => writeFixInt64 v | FixUint64 v => writeFixUint64 v
  | Int32 v => writeInt32 v | Uint32 v => writeUint32 v
  | Int64 v => writeInt64 v | Uint64 v => writeUint64 v
  | Float v => writeFloat v | Double v => writeDouble v
  | StringFix16 s => writeStringFix16 s | StringFix32 s => writeStringFix32 s
  | StringFix64 s => writeStringFix64 s | StringVint s => writeStringVint s
  end.

(** The read call for the constructor of [i]; the argument of [i] is not used. *)
Definition read_item (i : Item) : M t Item :=
  let map {A} (f : A -> Item) (r : M t A) : M t Item := fun ba => let* a, ba := r ba in Ret (f a) ba in
  match i with
  | FixInt8 _ => map FixInt8 readFixInt8 | FixUint8 _ => map FixUint8 readFixUint8
  | FixInt16 _ => map FixInt16 readFixInt16 | FixUint16 _ => map FixUint16 readFixUint16
  | FixInt32 _ => map FixInt32 readFixInt32 | FixUint32 _ => map FixUint32 readFixUint32
  | FixInt64 _ => map FixInt64 readFixInt64 | FixUint64 _ => map FixUint64 readFixUint64
  | Int32 _ => map Int32 readInt32 | Uint32 _ => map Uint32 readUint32
  | Int64 _ => map Int64 readInt64 | Uint64 _ => map Uint64 readUint64
  | Float _ => map Float readFloat | Double _ => map Double readDouble
  | StringFix16 _ => map StringFix16 readStringFix16 | StringFix32 _ => map StringFix32 readStringFix32
  | StringFix64 _ => map StringFix64 readStringFix64 | StringVint _ => map StringVint readStringVint
  end.

(** The field of an item, with its constructor. *)
Record item_view := MkView { iv_T : Type; iv_field : Field iv_T; iv_mk : iv_T -> Item; iv_val : iv_T }.

Definition view (i : Item) : item_view :=
  match i with
  | FixInt8 v => MkView Z field_FixInt8 FixInt8 v | FixUint8 v => MkView Z field_FixUint8 FixUint8 v
  | FixInt16 v => MkView Z field_FixInt16 FixInt16 v | FixUint16 v => MkView Z field_FixUint16 FixUint16 v
  | FixInt32 v => MkView Z field_FixInt32 FixInt32 v | FixUint32 v => MkView Z field_FixUint32 FixUint32 v
  | FixInt64 v => MkView Z field_FixInt64 FixInt64 v | FixUint64 v => MkView Z field_FixUint64 FixUint64 v
  | Int32 v => MkView Z field_Int32 Int32 v | Uint32 v => MkView Z field_Uint32 Uint32 v
  | Int64 v => MkView Z field_Int64 Int64 v | Uint64 v => MkView Z field_Uint64 Uint64 v
  | Float v => MkView Z field_Float Float v | Double v => MkView Z field_Double Double v
  | StringFix16 s => MkView str field_StringFix16 StringFix16 s
  | StringFix32 s => MkView str field_StringFix32 StringFix32 s
  | StringFix64 s => MkView str field_StringFix64 StringFix64 s
  | StringVint s => MkView str field_StringVint StringVint s
  end.

Definition item_wire (e : endian) (i : Item) : str := F_wire (iv_field (view i)) e (iv_val (view i)).
Definition item_valid (i : Item) : Prop := F_valid (iv_field (view i)) (iv_val (view i)).
Definition message_wire (e : endian) (l : list Item) : str := concat (map (item_wire e) l).

Fixpoint write_items (l : list Item) : M t unit := fun ba =>
  match l with
  | [] => Ret tt ba
  | i :: l => let* _, ba := write_item i ba in write_items l ba
  end.
Fixpoint read_items (l : list Item) : M t (list Item) := fun ba =>
  match l with
  | [] => Ret [] ba
  | i :: l => let* x, ba := read_item i ba in let* r, ba := read_items l ba in Ret (x :: r) ba
  end.

Lemma write_item_law i ba :
  item_valid i -> Inv ba -> fits (zlen (item_wire (m_endian ba) i)) ba ->
  exists ba', write_item i ba = Ret tt ba' /\ written (item_wire (m_endian ba) i) ba ba'.
Proof. 
  intros Hv Hi Hf. pose proof (F_write_law (iv_field (view i)) (iv_val (view i)) ba Hv Hi Hf).
  by destruct i.
Qed.

Lemma read_item_view i ba :
  read_item i ba = (let* a, ba := F_read (iv_field (view i)) ba in Ret (iv_mk (view i) a) ba).
Proof. by destruct i. Qed.

Lemma read_item_law i rest ba :
  item_valid i -> Inv ba -> readable ba = item_wire (m_endian ba) i ++ rest ->
  exists ba', read_item i ba = Ret i ba' /\ consumed (item_wire (m_endian ba) i) rest ba ba'.
Proof.
  unfold item_valid, item_wire. intros Hv Hi Hr.
  destruct (F_read_law (iv_field (view i)) (iv_val (view i)) rest ba Hv Hi Hr) as (b1 & H1 & Hc).
  exists b1. split; [|done]. rewrite read_item_view, H1. cbn [obind]. f_equal. by destruct i.
Qed.

Lemma write_items_law l ba :
  Forall item_valid l -> Inv ba -> fits (zlen (message_wire (m_endian ba) l)) ba ->
  exists ba', write_items l ba = Ret tt ba' /\ written (message_wire (m_endian ba) l) ba ba'.
Proof.
  intros Hv. revert ba. induction Hv as [|i l Hi Hl IH]; intros ba Hinv Hf.
  - exists ba. split; [done|]. split; try done. unfold message_wire. simpl. rewrite flat_write_nil; [done|by apply abs_ok].
  - unfold message_wire in *. simpl in *. rewrite zlen_app in Hf.
    destruct (write_item_law i ba Hi Hinv) as (b1 & -> & W1).
    { pose proof (zlen_nonneg (concat (map (item_wire (m_endian ba)) l))). unfold fits in *. lia. }
    cbn [obind]. destruct (IH b1) as (b2 & -> & W2); [apply W1|rewrite (wr_endian _ _ _ W1); by eapply written_fits|].
    rewrite (wr_endian _ _ _ W1) in W2. exists b2. split; [done|]. by eapply written_trans.
Qed.

Lemma read_items_law l rest ba :
  Forall item_valid l -> Inv ba -> readable ba = message_wire (m_endian ba) l ++ rest ->
  exists ba', read_items l ba = Ret l ba' /\ consumed (message_wire (m_endian ba) l) rest ba ba'.
Proof.
  intros Hv. revert ba. induction Hv as [|i l Hi Hl IH]; intros ba Hinv Hr.
  - exists ba. split; [done|]. split; try done. unfold message_wire. simpl. rewrite zlen_nil. lia.
  - unfold message_wire in *. simpl in *. rewrite <- app_assoc in Hr.
    destruct (read_item_law i _ ba Hi Hinv Hr) as (b1 & -> & C1). cbn [obind].
    pose proof (co_endian _ _ _ _ C1) as He. pose proof (co_rest _ _ _ _ C1) as Hr1.
    destruct (IH b1) as (b2 & -> & C2); [apply C1|by rewrite He|]. rewrite He in C2.
    exists b2. split; [done|]. by eapply consumed_trans.
Qed.

(** What was written at the position is what is in front of it after seeking back. *)
Lemma seek_back d ba b1 :
  Inv ba -> written d ba b1 ->
  exists b2 rest, setPosition (m_position ba) b1 = Ret tt b2 /\ Inv b2
    /\ m_endian b2 = m_endian ba /\ f_data (abs b2) = f_data (abs b1)
    /\ m_position b2 = m_position ba /\ readable b2 = d ++ rest.
Proof.
  intros Hi W. pose proof (abs_ok ba Hi) as Hab. pose proof (wr_inv _ _ _ W) as Hi1.
  pose proof (abs_ok b1 Hi1) as Hab1. rewrite (wr_abs _ _ _ W) in Hab1. simpl in Hab1.
  pose proof (zlen_nonneg d). pose proof (zlen_abs b1 Hi1) as Hz. rewrite (wr_abs _ _ _ W) in Hz. simpl in Hz, Hab.
  pose proof (st_pos _ (inv_store _ Hi1)). pose proof (f_equal f_pos (wr_abs _ _ _ W)) as Hpp. simpl in Hpp.
  destruct (setPosition_ok (m_position ba) b1 Hi1) as [E1 E2]; [lia|].
  pose proof (abs_seeked (m_position ba) b1 Hi1 ltac:(lia)) as Ha.
  exists (seeked (m_position ba) b1), (zdrop (m_position ba + zlen d) (f_data (abs ba))).
  split_and!; try done.
  - apply W.
  - by rewrite Ha.
  - unfold readable. rewrite Ha. cbn [f_data flat_seek]. rewrite (wr_abs _ _ _ W). simpl.
    unfold splice. rewrite zdrop_app_ge; rewrite zlen_ztake; try lia. rewrite Z.sub_diag. done.
Qed.

End with_platform.

(** ** Properties *)

(** C8. Typed round trip: any sequence of [writeX] calls, over every type the
    buffer offers, at any position of a well formed buffer in either byte
    order, on either kind of host, stores exactly the concatenated wire
    formats; after [setPosition] back, the matching [readX] calls return the
    values written, in order, and end at the position where writing ended.
    The conditions are that values are in the range of their types (and of
    zigzag, see below), strings are not empty and [size_t] does not
    overflow. *)
Theorem message_roundtrip `{!Platform} (l : list Item) (ba : t) :
  Inv ba -> Forall item_valid l -> fits (zlen (message_wire (m_endian ba) l)) ba ->
  exists b1 b2 b3, write_items l ba = Ret tt b1
    /\ abs b1 = flat_write (message_wire (m_endian ba) l) (abs ba)
    /\ setPosition (m_position ba) b1 = Ret tt b2
    /\ read_items l b2 = Ret l b3
    /\ m_position b3 = m_position b1 /\ Inv b3 /\ f_data (abs b3) = f_data (abs b1).
Proof.
  intros Hi Hv Hf. destruct (write_items_law l ba Hv Hi Hf) as (b1 & H1 & W).
  destruct (seek_back _ ba b1 Hi W) as (b2 & rest & H2 & Hi2 & He2 & Hd2 & Hp2 & Hr2).
  rewrite <- He2 in Hr2. destruct (read_items_law l rest b2 Hv Hi2 Hr2) as (b3 & H3 & C).
  exists b1, b2, b3. split_and!; try done.
  - apply W.
  - rewrite (co_pos _ _ _ _ C), Hp2, He2. pose proof (f_equal f_pos (wr_abs _ _ _ W)) as Hp. simpl in Hp. lia.
  - apply C.
  - by rewrite (co_data _ _ _ _ C).
Qed.

Definition c4_items : list Item :=
  [FixInt16 (-2); Uint32 300; Int64 (-77); StringVint (bs "wuchat"); Double 4607182418800017408; FixUint8 255].

Lemma message_roundtrip_witness :
  exists b1 b2 b3, @write_items x86_64 c4_items (@create x86_64 4) = Ret tt b1
    /\ abs b1 = flat_write (@message_wire x86_64 BIG_ENDIAN c4_items) (Flat [] 0)
    /\ setPosition 0 b1 = Ret tt b2
    /\ @read_items x86_64 c4_items b2 = Ret c4_items b3
    /\ m_position b3 = m_position b1 /\ Inv b3 /\ f_data (abs b3) = f_data (abs b1).
Proof.
  apply (@message_roundtrip x86_64 c4_items (@create x86_64 4)).
  - apply Inv_create. lia.
  - repeat constructor; vm_compute; congruence.
  - vm_compute. congruence.
Defined.

(** Bounds of the variable-width encodings: for every [uint32_t] the loop
    of [writeUint32] stays inside [uint8_t tmp[5]], for every [uint64_t] that
    of [writeUint64] inside [tmp[10]]; the encoding has at least one byte,
    only its last byte is below [0x80], and decoding any such bytes at the
    head of a buffer gives the value back and consumes exactly them. *)
Theorem varint_bounds_and_decode `{!Platform} (w : Z) (room : nat) (v : Z) (rest : str) (ba : t) :
  (w = 32 /\ room = 5%nat) \/ (w = 64 /\ room = 10%nat) -> in_u w v -> Inv ba ->
  exists d, varint_loop room v = Some d /\ (1 <= length d <= room)%nat
    /\ (exists body last, d = body ++ [last] /\ b2z last < 0x80 /\ Forall (fun b => 0x80 <= b2z b) body)
    /\ (readable ba = d ++ rest ->
        exists ba', readVarint w room 0 0 ba = Ret v ba' /\ m_position ba' = m_position ba + zlen d
          /\ readable ba' = rest).
Proof.
  intros Hw Hv Hi. assert ((0 < room)%nat /\ 0 <= w <= 7 * Z.of_nat room) as [Hr Hb] by lia.
  destruct (varint_loop_fits room v Hr) as (d & Hd & Hl).
  { unfold in_u in Hv. split; [lia|]. eapply Z.lt_le_trans; [apply Hv|]. apply Z.pow_le_mono_r; lia. }
  exists d. refine (conj Hd (conj Hl (conj _ _))); [by eapply varint_shape; [apply Hv|]|].
  intros Hrd. assert (d = varint room v) as -> by (unfold varint; by rewrite Hd).
  destruct (readVarint_law room w v rest ba) as (b1 & H1 & C); try done. exists b1. split_and!; [done|apply C..].
Qed.

Lemma varint_bounds_and_decode_witness :
  exists d, varint_loop 5 4294967295 = Some d /\ (1 <= length d <= 5)%nat
    /\ (exists body last, d = body ++ [last] /\ b2z last < 0x80 /\ Forall (fun b => 0x80 <= b2z b) body)
    /\ (readable (@create x86_64 16) = d ++ [] ->
        exists ba', @readVarint x86_64 32 5 0 0 (@create x86_64 16) = Ret 4294967295 ba'
          /\ m_position ba' = m_position (@create x86_64 16) + zlen d /\ readable ba' = []).
Proof.
  apply (@varint_bounds_and_decode x86_64 32 5 4294967295 [] (@create x86_64 16)).
  - by left.
  - vm_compute. split; congruence.
  - apply Inv_create. lia.
Defined.

(** *** Behaviour outside those conditions *)

(** The zigzag encoders compute [-val] and [val * 2] in the signed type: the
    whole upper half of the non-negative values and the least value are
    outside what the language defines. *)
Theorem zigzag_overflow_is_undefined `{!Platform} (v : Z) (ba : t) :
  in_s 32 v -> ~ in_zigzag 32 v -> writeInt32 v ba = UB.
Proof.
  intros Hv Hn. unfold writeInt32, EncodeZigzag32, EncodeZigzag, in_s, in_zigzag in *.
  destruct (Z.ltb_spec v 0); rewrite decide_False; (done || lia).
Qed.

(** An empty string that fills the buffer up to its capacity cannot be read
    back: reading no byte dereferences a null [m_cur]. *)
Theorem empty_string_at_capacity_is_undefined :
  let P := x86_64 in
  let again {A} (r : M t A) := fun ba =>
    let* _, ba := write_items [FixUint16 7; StringFix16 []] ba in
    let* _, ba := setPosition 0 ba in r ba in
  value_of (again readFixUint16 (create 4)) = Some 7
  /\ again (fun ba => let* _, ba := readFixUint16 ba in readStringFix16 ba) (create 4) = UB.
Proof. split; vm_compute; reflexivity. Qed.

End Codec.
