(* ===== verification/StdString.v ===== *)
(** * The part of [std::string] the sources use

    Searching ([find], [find_first_of], [rfind], ...), [substr], [strcmp]-like
    order and the ASCII classifications of [<cctype>], on byte lists.  A
    position is a [Z]; [std::string::npos] is [None]. *)
From S2P Require Import Prelude.
Local Open Scope Z_scope.

Module StdString.

(** ** Searching *)

(** The first position whose character satisfies [P]. *)
Fixpoint find_if (P : byte -> bool) (s : str) : option Z :=
  match s with
  | [] => None
  | c :: s => if P c then Some 0 else Z.succ <$> find_if P s
  end.

(** The same at or after [pos]. *)
Definition find_if_from (P : byte -> bool) (s : str) (pos : Z) : option Z :=
  Z.add pos <$> find_if P (zdrop pos s).

(** The last position whose character satisfies [P]. *)
Fixpoint rfind_if (P : byte -> bool) (s : str) : option Z :=
  match s with
  | [] => None
  | c :: s => match rfind_if P s with
              | Some i => Some (Z.succ i)
              | None => if P c then Some 0 else None
              end
  end.

Definition eqb_char (c : byte) : byte -> bool := fun x => bool_decide (x = c).
Definition one_of (cs : str) : byte -> bool := fun x => bool_decide (x ∈ cs).

Definition find (c : byte) (s : str) (pos : Z) : option Z := find_if_from (eqb_char c) s pos.
Definition find_first_of (cs s : str) (pos : Z) : option Z := find_if_from (one_of cs) s pos.
Definition find_first_not_of (cs s : str) : option Z := find_if (fun x => negb (one_of cs x)) s.
Definition find_last_not_of (cs s : str) : option Z := rfind_if (fun x => negb (one_of cs x)) s.
Definition rfind (c : byte) (s : str) : option Z := rfind_if (eqb_char c) s.

Fixpoint starts_with (f s : str) : bool :=
  match f, s with
  | [], _ => true
  | a :: f, b :: s => bool_decide (a = b) && starts_with f s
  | _ :: _, [] => false
  end.

(** The first occurrence of [f]. *)
Fixpoint find_str (f s : str) : option Z :=
  if starts_with f s then Some 0
  else match s with [] => None | _ :: s => Z.succ <$> find_str f s end.

Definition find_str_from (f s : str) (pos : Z) : option Z :=
  if zlen s <? pos then None else Z.add pos <$> find_str f (zdrop pos s).

(** [s.substr(pos, n)] for a [pos] inside the string: the length is cut. *)
Definition substr (s : str) (pos n : Z) : str := zsub pos n s.
Definition substr_to_end (s : str) (pos : Z) : str := zdrop pos s.

(** [substr] with a [pos] that may lie behind the end: [out_of_range]. *)
Definition substr_opt (s : str) (pos n : Z) : option str :=
  if zlen s <? pos then None else Some (zsub pos n s).

(** The bytes up to the first NUL: what a [const char *] designates. *)
Fixpoint c_str (s : str) : str :=
  match s with
  | [] => []
  | c :: s => if bool_decide (c = Byte.x00) then [] else c :: c_str s
  end.

(** ** Characters *)
Definition between (lo hi : Z) (c : byte) : bool := (lo <=? b2sz c) && (b2sz c <=? hi).
Definition isdigit (c : byte) : bool := between 48 57 c.
Definition isxdigit (c : byte) : bool := isdigit c || between 65 70 c || between 97 102 c.
Definition isspace (c : byte) : bool := (b2z c =? 32) || between 9 13 c.
Definition tolower (c : byte) : byte := if between 65 90 c then z2b (b2z c + 32) else c.

(** ** Order: [std::string::compare], on unsigned characters *)
Fixpoint compare (a b : str) : comparison :=
  match a, b with
  | [], [] => Eq
  | [], _ :: _ => Lt
  | _ :: _, [] => Gt
  | x :: a, y :: b => match b2z x ?= b2z y with Eq => compare a b | c => c end
  end.
Definition ltb (a b : str) : bool := match compare a b with Lt => true | _ => false end.

(** [strcasecmp] in the C locale. *)
Definition strcasecmp (a b : str) : comparison := compare (map tolower (c_str a)) (map tolower (c_str b)).

(** ** Decimal numbers *)

(** [std::to_string] and [operator<<] of integers. *)
Definition digit (d : Z) : byte := z2b (48 + d).
Fixpoint dec_loop (fuel : nat) (n : Z) (acc : str) : str :=
  match fuel with
  | O => acc
  | S fuel => if n <? 10 then digit n :: acc else dec_loop fuel (n / 10) (digit (n mod 10) :: acc)
  end.
Definition dec (n : Z) : str := dec_loop (S (Z.to_nat (Z.log2 n))) n [].
Definition to_string (n : Z) : str := if n <? 0 then z2b 45 :: dec (- n) else dec n.

(** The digits at the head of a string, as a number, and what follows. *)
Fixpoint scan_digits (s : str) (acc : Z) : Z * str :=
  match s with
  | c :: r => if isdigit c then scan_digits r (10 * acc + (b2z c - 48)) else (acc, s)
  | [] => (acc, [])
  end.

Fixpoint skip_space (s : str) : str :=
  match s with c :: r => if isspace c then skip_space r else s | [] => [] end.

(** The optional sign of [strtol] and [strtoull]. *)
Definition scan_sign (s : str) : bool * str :=
  match s with
  | c :: r => if b2z c =? 45 then (true, r) else if b2z c =? 43 then (false, r) else (false, s)
  | [] => (false, [])
  end.

(** [strtoull(s, nullptr, 10)] saturates; a minus sign negates the unsigned value. *)
Definition strtoull (s : str) : Z :=
  let '(neg, s) := scan_sign (skip_space (c_str s)) in
  let v := fst (scan_digits s 0) in
  if 2 ^ 64 - 1 <? v then 2 ^ 64 - 1 else if neg : bool then u64 (- v) else v.

(** [atoi(s)], as [(int) strtol(s, nullptr, 10)]. *)
Definition atoi (s : str) : Z :=
  let '(neg, s) := scan_sign (skip_space (c_str s)) in
  let v := fst (scan_digits s 0) in
  let v := if neg : bool then - v else v in
  s32 ((v `max` (- 2 ^ 63)) `min` (2 ^ 63 - 1)).

(** ** Lemmas *)
Lemma find_if_some P s i :
  find_if P s = Some i ->
  exists a x b, s = a ++ x :: b /\ zlen a = i /\ P x = true /\ Forall (fun c => P c = false) a.
Proof.
  revert i. induction s as [|c s IH]; intros i; simpl; [done|]. destruct (P c) eqn:E.
  - intros [= <-]. exists [], c, s. repeat split; auto.
  - destruct (find_if P s) as [j|]; intros [= <-].
    destruct (IH j eq_refl) as (a & x & b & -> & Ha & Hx & Hf).
    exists (c :: a), x, b. rewrite zlen_cons. repeat split; auto; lia.
Qed.

Lemma find_if_none P s : find_if P s = None <-> Forall (fun c => P c = false) s.
Proof.
  induction s as [|c s IH]; simpl; [by split|]. rewrite Forall_cons, <- IH.
  destruct (P c), (find_if P s); simpl; naive_solver.
Qed.

Lemma find_if_app P a x b :
  Forall (fun c => P c = false) a -> P x = true -> find_if P (a ++ x :: b) = Some (zlen a).
Proof.
  intros Ha Hx. induction Ha as [|c a Hc Ha IH]; simpl; [by rewrite Hx|].
  rewrite Hc, IH, zlen_cons. simpl. f_equal. lia.
Qed.

Lemma find_if_from_some P s pos i :
  0 <= pos <= zlen s -> find_if_from P s pos = Some i ->
  pos <= i < zlen s /\ exists x, zdrop pos s = zsub pos (i - pos) s ++ x :: zdrop (i + 1) s /\ P x = true
    /\ Forall (fun c => P c = false) (zsub pos (i - pos) s).
Proof.
  unfold find_if_from. intros Hp Hf. destruct (find_if P (zdrop pos s)) as [j|] eqn:E; [|done].
  injection Hf as <-. apply find_if_some in E as (a & x & b & Es & Ha & Hx & Hf).
  pose proof (f_equal zlen Es) as Hl. rewrite zlen_zdrop, zlen_app, zlen_cons in Hl by lia.
  pose proof (zlen_nonneg a). pose proof (zlen_nonneg b). split; [lia|]. exists x.
  assert (zsub pos (pos + j - pos) s = a) as ->.
  { unfold zsub. rewrite Es, ztake_app_le by lia. apply ztake_all. lia. }
  split_and!; [|done|done]. rewrite Es. do 2 f_equal.
  transitivity (zdrop (j + 1) (zdrop pos s)); [|rewrite zdrop_zdrop by lia; f_equal; lia].
  rewrite Es, zdrop_app_ge by lia. replace (j + 1 - zlen a) with 1 by lia. done.
Qed.

Lemma rfind_if_some P s i :
  rfind_if P s = Some i ->
  exists a x b, s = a ++ x :: b /\ zlen a = i /\ P x = true /\ Forall (fun c => P c = false) b.
Proof.
  assert (forall s, rfind_if P s = None -> Forall (fun c => P c = false) s) as Hn.
  { intros l. induction l as [|c l IH]; simpl; [by constructor|]. destruct (rfind_if P l); [done|].
    destruct (P c) eqn:E; [done|]. intros _. constructor; auto. }
  revert i. induction s as [|c s IH]; intros i; simpl; [done|]. destruct (rfind_if P s) as [j|] eqn:Es.
  - intros [= <-]. destruct (IH j eq_refl) as (a & x & b & -> & Ha & Hx & Hf).
    exists (c :: a), x, b. rewrite zlen_cons. repeat split; auto; lia.
  - destruct (P c) eqn:E; intros [= <-]. exists [], c, s. repeat split; auto.
Qed.

Lemma rfind_if_none P s : rfind_if P s = None <-> Forall (fun c => P c = false) s.
Proof.
  induction s as [|c s IH]; simpl; [by split|]. rewrite Forall_cons, <- IH.
  destruct (rfind_if P s), (P c); naive_solver.
Qed.

Lemma starts_with_spec f s : starts_with f s = true <-> exists r, s = f ++ r.
Proof.
  revert s. induction f as [|a f IH]; intros s; simpl; [naive_solver|]. destruct s as [|b s].
  - split; [done|naive_solver].
  - rewrite andb_true_iff, bool_decide_eq_true, IH. naive_solver.
Qed.

Lemma find_str_some f s i :
  find_str f s = Some i -> exists a b, s = a ++ f ++ b /\ zlen a = i.
Proof.
  revert i. induction s as [|c s IH]; intros i; simpl.
  - destruct f; simpl; [|done]. intros [= <-]. by exists [], [].
  - destruct (starts_with f (c :: s)) eqn:E.
    + intros [= <-]. apply starts_with_spec in E as [r E]. exists [], r. split; [done|lia || done].
    + destruct (find_str f s) as [j|]; intros [= <-]. destruct (IH j eq_refl) as (a & b & -> & Ha).
      exists (c :: a), b. rewrite zlen_cons. split; [done|lia].
Qed.

Lemma find_str_none f s a b : find_str f s = None -> s <> a ++ f ++ b.
Proof.
  revert a. induction s as [|c s IH]; intros a; simpl.
  - destruct f; simpl; [done|]. by destruct a.
  - destruct (starts_with f (c :: s)) eqn:E; [done|]. destruct (find_str f s) eqn:Es; [done|]. intros _ Hs.
    destruct a as [|x a]; simpl in Hs.
    + assert (starts_with f (c :: s) = true) by (apply starts_with_spec; eauto). congruence.
    + injection Hs as -> ->. by eapply IH.
Qed.

Lemma c_str_id s : Forall (fun c => c <> Byte.x00) s -> c_str s = s.
Proof. induction 1 as [|c s Hc _ IH]; simpl; [done|]. rewrite bool_decide_false by done. by rewrite IH. Qed.

(** *** Decimal numbers *)
Lemma digit_ok d : 0 <= d < 10 -> isdigit (digit d) = true /\ b2z (digit d) - 48 = d.
Proof.
  intros Hd. assert (b2z (digit d) = 48 + d) as E by (apply z2b_small; lia).
  unfold isdigit, between, b2sz. rewrite E. destruct (Z.ltb_spec (48 + d) 128); [|lia].
  split; [apply andb_true_iff; rewrite !Z.leb_le; lia|lia].
Qed.

Lemma scan_dec_loop fuel n acc a r :
  0 <= n < 2 ^ Z.of_nat fuel -> 0 <= a ->
  exists k, 0 <= k /\ scan_digits (dec_loop fuel n acc ++ r) a = scan_digits (acc ++ r) (a * 10 ^ k + n)
    /\ (0 < n -> 10 ^ (k - 1) <= n).
Proof.
  revert n acc a. induction fuel as [|fuel IH]; intros n acc a Hn Ha.
  { exists 0. simpl in *. replace n with 0 by lia. split_and!; [lia| |lia]. f_equal. lia. }
  cbn [dec_loop]. destruct (Z.ltb_spec n 10).
  - exists 1. destruct (digit_ok n) as [Hd Hv]; [lia|]. split_and!; [lia| |simpl; lia].
    cbn [app scan_digits]. rewrite Hd, Hv. f_equal. lia.
  - rewrite Nat2Z.inj_succ, Z.pow_succ_r in Hn by lia.
    destruct (IH (n / 10) (digit (n mod 10) :: acc) a) as (k & Hk & E & Hle); [|done|].
    { split; [apply Z.div_pos; lia|]. apply Z.div_lt_upper_bound; lia. }
    pose proof (Z.mod_pos_bound n 10 ltac:(lia)) as Hm. pose proof (Z.div_mod n 10 ltac:(lia)) as Hdm.
    destruct (digit_ok (n mod 10) Hm) as [Hd Hv]. exists (k + 1). split_and!; [lia| |].
    + rewrite E. cbn [app scan_digits]. rewrite Hd, Hv. f_equal. rewrite Z.pow_add_r by lia. lia.
    + intros _. specialize (Hle ltac:(lia)). replace (k + 1 - 1) with (Z.succ (k - 1)) by lia.
      destruct (Z.eq_dec k 0) as [->|]; [simpl; lia|]. rewrite Z.pow_succ_r by lia. lia.
Qed.

Lemma scan_dec n r a : 0 <= n -> (forall c q, r = c :: q -> isdigit c = false) -> 0 <= a ->
  exists k, 0 <= k /\ scan_digits (dec n ++ r) a = (a * 10 ^ k + n, r).
Proof.
  intros Hn Hr Ha. destruct (scan_dec_loop (S (Z.to_nat (Z.log2 n))) n [] a r) as (k & Hk & E & _); [|done|].
  { split; [done|]. destruct (Z.eq_dec n 0) as [->|]; [lia|].
    rewrite Nat2Z.inj_succ, Z2Nat.id by apply Z.log2_nonneg. apply Z.log2_spec. lia. }
  exists k. split; [done|]. unfold dec. rewrite E. simpl. destruct r as [|c q]; [done|].
  simpl. by rewrite (Hr c q eq_refl).
Qed.

Lemma dec_loop_digits fuel n acc :
  0 <= n -> Forall (fun c => isdigit c = true) acc -> Forall (fun c => isdigit c = true) (dec_loop fuel n acc).
Proof.
  revert n acc. induction fuel as [|fuel IH]; intros n acc Hn Ha; [done|]. cbn [dec_loop].
  destruct (Z.ltb_spec n 10); [constructor; [by apply digit_ok; lia|done]|].
  apply IH; [apply Z.div_pos; lia|]. constructor; [|done]. apply digit_ok, Z.mod_pos_bound. lia.
Qed.

Lemma dec_digits n : 0 <= n -> Forall (fun c => isdigit c = true) (dec n).
Proof. intros. by apply dec_loop_digits. Qed.

Lemma dec_nonempty n : dec n <> [].
Proof.
  assert (forall fuel n acc, acc <> [] -> dec_loop fuel n acc <> []) as H.
  { intros fuel. induction fuel as [|fuel IH]; intros m acc Ha; [done|]. cbn [dec_loop].
    destruct (m <? 10); [done|]. by apply IH. }
  unfold dec. cbn [dec_loop]. destruct (n <? 10); [done|]. by apply H.
Qed.

(** A digit is neither space, sign nor NUL. *)
Lemma isdigit_plain c :
  isdigit c = true -> isspace c = false /\ (b2z c =? 45) = false /\ (b2z c =? 43) = false /\ c <> Byte.x00.
Proof. destruct c; simpl; intros; try discriminate; split_and!; done. Qed.

Lemma strtoull_to_string n : in_s 64 n -> s64 (strtoull (to_string n)) = n.
Proof.
  intros Hn. unfold in_s in Hn. assert (0 <= Z.abs n) as Habs by lia.
  pose proof (dec_digits (Z.abs n) Habs) as Hd.
  destruct (scan_dec (Z.abs n) [] 0 Habs ltac:(done) ltac:(lia)) as (k & _ & E). rewrite app_nil_r, Z.mul_0_l, Z.add_0_l in E.
  assert (c_str (dec (Z.abs n)) = dec (Z.abs n)) as Hc.
  { apply c_str_id. eapply Forall_impl; [done|]. intros c Hx. by apply isdigit_plain. }
  destruct (dec (Z.abs n)) as [|c r] eqn:Ed; [by apply dec_nonempty in Ed|].
  apply Forall_cons in Hd as [(Hs & Hm & Hp & Hz)%isdigit_plain _].
  unfold strtoull, to_string. destruct (Z.ltb_spec n 0).
  - rewrite <- Z.abs_neq, Ed by lia. change (c_str (z2b 45 :: c :: r)) with (z2b 45 :: c_str (c :: r)). rewrite Hc.
    change (scan_sign (skip_space (z2b 45 :: c :: r))) with (true, c :: r). cbv beta iota. rewrite E. cbn [fst].
    destruct (Z.ltb_spec (2 ^ 64 - 1) (Z.abs n)); [lia|]. rewrite sw_uw by lia. rewrite sw_small by (unfold in_s; lia). lia.
  - rewrite <- (Z.abs_eq n), Ed, Hc by lia. cbn [skip_space scan_sign]. rewrite Hs. cbn [scan_sign]. rewrite Hm, Hp, E. cbn [fst].
    destruct (Z.ltb_spec (2 ^ 64 - 1) (Z.abs n)); [lia|]. rewrite sw_small by (unfold in_s; lia). lia.
Qed.

(** *** The lexicographic order is a strict total order *)
Lemma compare_refl a : compare a a = Eq.
Proof. induction a; simpl; [done|]. by rewrite Z.compare_refl. Qed.

Lemma compare_eq a b : compare a b = Eq <-> a = b.
Proof.
  split; [|intros ->; apply compare_refl].
  revert b. induction a as [|x a IH]; intros [|y b]; simpl; try done.
  destruct (Z.compare_spec (b2z x) (b2z y)) as [E| |]; try done. apply b2z_inj in E as ->. intros. f_equal. auto.
Qed.

Lemma compare_antisym a b : compare b a = CompOpp (compare a b).
Proof.
  revert b. induction a as [|x a IH]; intros [|y b]; simpl; try done.
  rewrite (Z.compare_antisym (b2z x)). destruct (b2z x ?= b2z y); simpl; auto.
Qed.

Lemma compare_trans a b c : compare a b = Lt -> compare b c = Lt -> compare a c = Lt.
Proof.
  revert b c. induction a as [|x a IH]; intros [|y b] [|z c]; simpl; try done.
  destruct (Z.compare_spec (b2z x) (b2z y)), (Z.compare_spec (b2z y) (b2z z)); try done; intros;
    destruct (Z.compare_spec (b2z x) (b2z z)); try done; try lia. eauto.
Qed.

Lemma compare_ge_trans a b c : compare a b <> Lt -> compare b c <> Lt -> compare a c <> Lt.
Proof.
  intros H1 H2 H3. destruct (compare b a) eqn:E.
  - apply compare_eq in E as ->. done.
  - pose proof (compare_trans _ _ _ E H3). done.
  - rewrite compare_antisym, E in H1. done.
Qed.

(** Searching from the end of a prefix. *)
Lemma find_app c pre a b :
  Forall (fun x => x <> c) a -> find c (pre ++ a ++ c :: b) (zlen pre) = Some (zlen pre + zlen a).
Proof.
  intros Ha. unfold find, find_if_from. rewrite zdrop_app_ge, Z.sub_diag, zdrop_0 by lia.
  rewrite find_if_app; [done| |by apply bool_decide_eq_true].
  eapply Forall_impl; [exact Ha|]. intros x Hx. by apply bool_decide_eq_false.
Qed.
Lemma find_app_none c pre a : Forall (fun x => x <> c) a -> find c (pre ++ a) (zlen pre) = None.
Proof.
  intros Ha. unfold find, find_if_from. rewrite zdrop_app_ge, Z.sub_diag, zdrop_0 by lia.
  rewrite (proj2 (find_if_none _ _)); [done|].
  eapply Forall_impl; [exact Ha|]. intros x Hx. by apply bool_decide_eq_false.
Qed.

(** A character that does not start [f] is skipped by the search for [f]. *)
Lemma find_str_skip x f a s :
  Forall (fun c => c <> x) a -> find_str (x :: f) (a ++ s) = Z.add (zlen a) <$> find_str (x :: f) s.
Proof.
  induction 1 as [|c a Hc _ IH]; [simpl app; rewrite zlen_nil; by destruct (find_str (x :: f) s)|].
  change ((c :: a) ++ s) with (c :: (a ++ s)). cbn [find_str starts_with].
  rewrite bool_decide_false by congruence. cbn [andb]. rewrite IH, zlen_cons.
  destruct (find_str (x :: f) s); simpl; [f_equal; lia|done].
Qed.

End StdString.
