(* ===== verification/HashUtil.v ===== *)
(** * [luwu/luwu/util/hash_util.cpp]

    MurmurHash3, the polynomial hash, base64, hexadecimal, HMAC over an
    abstract message digest, and the string utilities [replace], [split] and
    [random_string]. *)
From S2P Require Import Prelude StdString.
Import StdString.
Local Open Scope Z_scope.

Module HashUtil.

(** ** MurmurHash3 *)
Section murmur.
Context `{!Platform}.

(** The macro [ROTL] on a [uint32_t]. *)
Definition ROTL (x r : Z) : Z := Z.lor (u32 (Z.shiftl x r)) (Z.shiftr x (32 - r)).

Definition fmix32 (h : Z) : Z :=
  let h := Z.lxor h (Z.shiftr h 16) in
  let h := u32 (h * 0x85ebca6b) in
  let h := Z.lxor h (Z.shiftr h 13) in
  let h := u32 (h * 0xc2b2ae35) in
  Z.lxor h (Z.shiftr h 16).

Definition seed1 : Z := 0xcc9e2d51.
Definition seed2 : Z := 0x1b873593.

(** What is done to a word before it enters the hash. *)
Definition mix_s (s : Z) : Z :=
  let s := u32 (s * seed1) in
  let s := ROTL s 15 in
  u32 (s * seed2).

(** One round of the block loop. *)
Definition mix_block (h s : Z) : Z :=
  let h := Z.lxor h (mix_s s) in
  let h := ROTL h 13 in
  let h := u32 (h * 5) in
  u32 (h + 0xe6546b64).

(** [data] is the memory behind the pointer; reading outside it is undefined
    ([None]). *)
Definition load (data : str) (off n : Z) : option str :=
  if (0 <=? off) && (off + n <=? zlen data) then Some (zsub off n data) else None.

(** [for (int i = 0; i < blk; i++)], [todo] rounds from [i] on. *)
Fixpoint murmur3_blocks (todo : nat) (data : str) (i h : Z) : option Z :=
  match todo with
  | O => Some h
  | S todo => w ← load data (4 * i) 4; murmur3_blocks todo data (i + 1) (mix_block h (host_val w))
  end.

(** The [switch (len & 3)] with its fall-through cases. *)
Definition murmur3_tail (data : str) (off k h : Z) : option Z :=
  if k =? 0 then Some h else
  tail ← load data off k;
  let byte_at i := default 0 (b2z <$> tail !! Z.to_nat i) in
  let s := if 3 <=? k then Z.shiftl (byte_at 2) 16 else 0 in
  let s := if 2 <=? k then Z.lor s (Z.shiftl (byte_at 1) 8) else s in
  let s := Z.lor s (byte_at 0) in
  Some (Z.lxor h (mix_s s)).

(** The body shared by the two overloads; [len] is an [int]. *)
Definition murmur3_body (data : str) (len seed : Z) : option Z :=
  let blk := Z.quot len 4 in
  h ← murmur3_blocks (Z.to_nat blk) data 0 seed;
  h ← murmur3_tail data (blk * 4) (Z.land len 3) h;
  Some (fmix32 (Z.lxor h (u32 len))).

Definition murmur3_hash (data : option str) (size seed : Z) : option Z :=
  match data with None => Some 0 | Some d => murmur3_body d (s32 size) seed end.

(** The overload for C strings: [str] is without its terminator. *)
Definition murmur3_hash_str (s : option str) (seed : Z) : option Z :=
  match s with None => Some 0 | Some s => murmur3_body s (s32 (zlen s)) seed end.

Definition murmur3_hash64 (data : option str) (size seed seed2 : Z) : option Z :=
  a ← murmur3_hash data size seed; b ← murmur3_hash data size seed2; Some (Z.lor (Z.shiftl a 32) b).
Definition murmur3_hash64_str (s : option str) (seed seed2 : Z) : option Z :=
  a ← murmur3_hash_str s seed; b ← murmur3_hash_str s seed2; Some (Z.lor (Z.shiftl a 32) b).
End murmur.

(** ** The polynomial hash *)
Definition quick_hash (s : str) : Z := foldl (fun h c => u32 (31 * h + b2sz c)) 0 s.

(** The overload with a size: [str] is not advanced in the loop. *)
Definition quick_hash_data (data : str) (size : Z) : option Z :=
  if size =? 0 then Some 0 else
  c ← data !! 0%nat; Some (Nat.iter (Z.to_nat size) (fun h => u32 (31 * h + b2sz c)) 0).

(** ** Base64 *)
Definition decode_char (c : byte) : option Z :=
  let p := b2sz c in
  if (65 <=? p) && (p <=? 90) then Some (p - 65)
  else if (97 <=? p) && (p <=? 122) then Some (p - 97 + 26)
  else if (48 <=? p) && (p <=? 57) then Some (p - 48 + 52)
  else if p =? 43 then Some 62
  else if p =? 47 then Some 63
  else None.

(** The inner loop: [todo] is [4 - i]; [None] returns the empty string. *)
Fixpoint decode_group (todo : nat) (ptr : str) (padding packed : Z) : option (nat * str * Z * Z) :=
  match todo, ptr with
  | O, _ | _, [] => Some (todo, ptr, padding, packed)
  | S todo, c :: ptr =>
      if b2sz c =? 61 then decode_group todo ptr (padding + 1) (Z.shiftl packed 6)
      else if 0 <? padding then None
      else match decode_char c with
           | None => None
           | Some val => decode_group todo ptr padding (Z.lor (Z.shiftl packed 6) val)
           end
  end.

(** The outer loop: [room] is what is left of [result] behind [writeBuf]; a
    store outside is undefined. *)
Fixpoint decode_loop (fuel : nat) (ptr : str) (room : Z) (out : str) : outcome unit str :=
  match ptr with
  | [] => Ret out tt
  | _ =>
    match fuel with
    | O => NoFuel
    | S fuel =>
      match decode_group 4 ptr 0 0 with
      | None => Ret [] tt
      | Some (todo, ptr, padding, packed) =>
        if negb (todo =? 0)%nat then Ret [] tt
        else if (0 <? padding) && negb (zlen ptr =? 0) then Ret [] tt
        else if 2 <? padding then Ret [] tt
        else
          let new := [z2b (Z.land (Z.shiftr packed 16) 0xff)]
            ++ (if negb (padding =? 2) then [z2b (Z.land (Z.shiftr packed 8) 0xff)] else [])
            ++ (if padding =? 0 then [z2b (Z.land packed 0xff)] else []) in
          if room <? zlen new then UB
          else decode_loop fuel ptr (room - zlen new) (out ++ new)
      end
    end
  end.

Definition base64decode (src : str) : outcome unit str :=
  decode_loop (length src) src (u64 (zlen src * 3) / 4) [].

Definition base64_chars : str :=
  bs "ABCDEFGHIJKLMNOPQRSTUVWXYZabcdefghijklmnopqrstuvwxyz0123456789+/".

(** The loop that packs up to three bytes: [todo] is [3 - i]. *)
Fixpoint encode_group (todo : nat) (ptr : str) (packed : Z) : nat * str * Z :=
  match todo, ptr with
  | O, _ | _, [] => (todo, ptr, packed)
  | S todo, c :: ptr => encode_group todo ptr (Z.lor (u32 (Z.shiftl packed 8)) (b2z c))
  end.

(** [base64[i]]: outside the literal (and its terminator) is undefined. *)
Definition base64_at (i : Z) : option byte := (base64_chars ++ [Byte.x00]) !! Z.to_nat i.

Fixpoint encode_loop (fuel : nat) (ptr : str) (ret : str) : outcome unit str :=
  match ptr with
  | [] => Ret ret tt
  | _ =>
    match fuel with
    | O => NoFuel
    | S fuel =>
      let '(todo, ptr, packed) := encode_group 3 ptr 0 in
      let padding := match todo with 1%nat => 1 | 2%nat => 2 | _ => 0 end in
      let packed := Nat.iter todo (fun p => u32 (Z.shiftl p 8)) packed in
      match base64_at (Z.shiftr packed 18), base64_at (Z.land (Z.shiftr packed 12) 0x3f),
            base64_at (Z.land (Z.shiftr packed 6) 0x3f), base64_at (Z.land packed 0x3f) with
      | Some c0, Some c1, Some c2, Some c3 =>
          encode_loop fuel ptr (ret ++ [c0; c1]
            ++ (if negb (padding =? 2) then [c2] else [])
            ++ (if padding =? 0 then [c3] else [])
            ++ replicate (Z.to_nat padding) (z2b 61))
      | _, _, _, _ => UB
      end
    end
  end.

Definition base64encode (data : str) : outcome unit str := encode_loop (length data) data [].

(** ** Hexadecimal *)
Definition hex_digit (c : Z) : byte := z2b (if 9 <? c then c + 97 - 10 else c + 48).
Definition hex_of_byte (b : byte) : str :=
  [hex_digit (Z.land (Z.shiftr (b2z b) 4) 0xf); hex_digit (Z.land (b2z b) 0xf)].
Definition hexstring_from_data (data : str) : str := concat (map hex_of_byte data).

(** The [switch] on a digit; [None] is the [default] case. *)
Definition hex_value (c : byte) : option Z :=
  let p := b2sz c in
  if (97 <=? p) && (p <=? 102) then Some (p - 97 + 10)
  else if (65 <=? p) && (p <=? 70) then Some (p - 65 + 10)
  else if (48 <=? p) && (p <=? 57) then Some (p - 48)
  else None.

(** The loop over pairs of digits. *)
Fixpoint data_from_hexstring_loop (s : str) (out : str) : outcome unit str :=
  match s with
  | [] => Ret out tt
  | [_] => UB
  | a :: b :: s =>
      match hex_value a with
      | None => Throw InvalidArgument tt
      | Some hi =>
        match hex_value b with
        | None => Throw InvalidArgument tt
        | Some lo => data_from_hexstring_loop s (out ++ [z2b (Z.lor (u8 (Z.shiftl hi 4)) lo)])
        end
      end
  end.

Definition data_from_hexstring (s : str) : outcome unit str :=
  if negb (zlen s mod 2 =? 0) then Throw InvalidArgument tt
  else if zlen s =? 0 then Ret [] tt
  else data_from_hexstring_loop s [].

(** ** Message digests

    OpenSSL is outside the sources: a digest is its three functions with the
    block size [B] and the digest length [L] they are documented with. *)
Class Digest := {
  CTX : Type;
  Init : CTX;
  Update : CTX -> str -> CTX;
  Final : CTX -> str;
  CBLOCK : Z;
  DIGEST_LENGTH : Z;
}.

(** The documented behaviour: [Update] can be called repeatedly with chunks of
    the message; a digest has [DIGEST_LENGTH] bytes, not more than a block. *)
Class DigestLaws (D : Digest) := {
  Update_app c a b : Update (Update c a) b = Update c (a ++ b);
  Final_length c : zlen (Final c) = DIGEST_LENGTH;
  digest_block : 0 < DIGEST_LENGTH <= CBLOCK;
}.

Section digest.
Context `{!Digest}.

(** [md5sum], [sha1sum], [sha0sum]. *)
Definition sum (data : str) : str := Final (Update Init data).
(** [md5], [sha1]: in hexadecimal. *)
Definition sum_hex (data : str) : str := hexstring_from_data (ztake DIGEST_LENGTH (sum data)).

Definition xorStruct (value : Z) (c : byte) : byte := z2b (Z.lxor (b2z c) value).

Definition hmac (text key : str) : str :=
  let keyLocal := if CBLOCK <? zlen key then Final (Update Init key) else key in
  let keyLocal := keyLocal ++ replicate (Z.to_nat (CBLOCK - zlen keyLocal)) Byte.x00 in
  let ipad := map (xorStruct 0x36) keyLocal in
  let opad := map (xorStruct 0x5c) keyLocal in
  let result := Final (Update (Update Init (ztake CBLOCK ipad)) text) in
  Final (Update (Update Init (ztake CBLOCK opad)) (ztake DIGEST_LENGTH result)).
End digest.

(** The instances of the sources, for the three digests of OpenSSL. *)
Section openssl.
Context (MD5 SHA1 SHA256 : Digest).
Definition md5sum : str -> str := @sum MD5.
Definition sha0sum : str -> str := @sum SHA1.
Definition sha1sum : str -> str := @sum SHA1.
Definition md5 : str -> str := @sum_hex MD5.
Definition sha1 : str -> str := @sum_hex SHA1.
Definition hmac_md5 : str -> str -> str := @hmac MD5.
Definition hmac_sha1 : str -> str -> str := @hmac SHA1.
Definition hmac_sha256 : str -> str -> str := @hmac SHA256.
End openssl.

(** ** Replacing and splitting *)

(** The overload for two characters. *)
Fixpoint replace_cc_loop (fuel : nat) (f r : byte) (index : option Z) (s : str) : outcome unit str :=
  match index with
  | None => Ret s tt
  | Some i =>
      match fuel with
      | O => NoFuel
      | S fuel => let s := splice i [r] s in replace_cc_loop fuel f r (find f s (i + 1)) s
      end
  end.
Definition replace_cc (s : str) (f r : byte) : outcome unit str :=
  replace_cc_loop (length s) f r (find f s 0) s.

(** A character by a string. *)
Fixpoint replace_cs_loop (fuel : nat) (f : byte) (r : str) (index : option Z) (s : str) : outcome unit str :=
  match index with
  | None => Ret s tt
  | Some i =>
      match fuel with
      | O => NoFuel
      | S fuel =>
          let s := substr s 0 i ++ r ++ substr_to_end s (i + 1) in
          replace_cs_loop fuel f r (find f s (i + zlen r)) s
      end
  end.
Definition replace_cs (s : str) (f : byte) (r : str) : outcome unit str :=
  replace_cs_loop (length s) f r (find f s 0) s.

(** A string by a string. *)
Fixpoint replace_ss_loop (fuel : nat) (f r : str) (index : option Z) (s : str) : outcome unit str :=
  match index with
  | None => Ret s tt
  | Some i =>
      match fuel with
      | O => NoFuel
      | S fuel =>
          let s := substr s 0 i ++ r ++ substr_to_end s (i + zlen f) in
          replace_ss_loop fuel f r (find_str_from f s (i + zlen r)) s
      end
  end.
Definition replace_ss (fuel : nat) (s f r : str) : outcome unit str :=
  replace_ss_loop fuel f r (find_str_from f s 0) s.

(** Both overloads of [split], for the delimiters that satisfy [P]. *)
Fixpoint split_loop (fuel : nat) (P : byte -> bool) (s : str) (last : Z) (pos : option Z) (max : Z)
    (result : list str) : outcome unit (list str) :=
  match pos with
  | None => Ret (result ++ [substr_to_end s last]) tt
  | Some p =>
      match fuel with
      | O => NoFuel
      | S fuel =>
          let result := result ++ [substr s last (p - last)] in
          let last := p + 1 in
          let max := u64 (max - 1) in
          if max =? 1 then Ret (result ++ [substr_to_end s last]) tt
          else split_loop fuel P s last (find_if_from P s last) max result
      end
  end.
Definition split_if (P : byte -> bool) (s : str) (max : Z) : outcome unit (list str) :=
  if bool_decide (s = []) then Ret [] tt
  else split_loop (length s) P s 0 (find_if_from P s 0) max [].
Definition split (s : str) (delim : byte) (max : Z) : outcome unit (list str) :=
  split_if (eqb_char delim) s max.
Definition split_any (s delims : str) (max : Z) : outcome unit (list str) :=
  split_if (one_of (c_str delims)) s max.

(** [sizeof(CHARS)] counts the terminator of the literal. *)
Definition CHARS : str :=
  bs "0123456789abcdefghijklmnopqrstuvwxyzABCDEFGHIJKLMNOPQRSTUVWXYZ" ++ [Byte.x00].

(** [rands] are the values [rand()] returns. *)
Fixpoint random_string (len : nat) (rands : list Z) : option str :=
  match len, rands with
  | O, _ => Some []
  | S len, r :: rands => c ← CHARS !! Z.to_nat (Z.rem r (zlen CHARS)); s ← random_string len rands; Some (c :: s)
  | S _, [] => None
  end.

(** ** Base64: the reference encoding of RFC 4648 *)
Definition b64_digit (d : Z) : byte := default Byte.x00 (base64_chars !! Z.to_nat d).

Definition b64_pack (a b c : byte) : Z := b2z a * 65536 + b2z b * 256 + b2z c.

Fixpoint b64 (data : str) : str :=
  match data with
  | [] => []
  | [a] => let p := b64_pack a Byte.x00 Byte.x00 in
      [b64_digit (p / 2 ^ 18); b64_digit (p / 2 ^ 12 mod 64); z2b 61; z2b 61]
  | [a; b] => let p := b64_pack a b Byte.x00 in
      [b64_digit (p / 2 ^ 18); b64_digit (p / 2 ^ 12 mod 64); b64_digit (p / 2 ^ 6 mod 64); z2b 61]
  | a :: b :: c :: r => let p := b64_pack a b c in
      [b64_digit (p / 2 ^ 18); b64_digit (p / 2 ^ 12 mod 64); b64_digit (p / 2 ^ 6 mod 64);
       b64_digit (p mod 64)] ++ b64 r
  end.

(** Induction three bytes at a time. *)
Lemma triples_ind (P : str -> Prop) :
  P [] -> (forall a, P [a]) -> (forall a b, P [a; b]) ->
  (forall a b c r, P r -> P (a :: b :: c :: r)) -> forall l, P l.
Proof.
  intros H0 H1 H2 H3 l. remember (length l) as n eqn:Hn. revert l Hn.
  induction (Nat.lt_wf_0 n) as [n _ IH]. intros l ->.
  destruct l as [|a [|b [|c r]]]; auto. apply H3. eapply IH; [|done]. simpl. lia.
Qed.

Lemma b64_pack_range a b c : 0 <= b64_pack a b c < 2 ^ 24.
Proof. unfold b64_pack. pose proof (b2z_range a). pose proof (b2z_range b). pose proof (b2z_range c). lia. Qed.

Lemma b64_digit_ok d :
  0 <= d < 64 ->
  base64_at d = Some (b64_digit d) /\ decode_char (b64_digit d) = Some d
  /\ (b2sz (b64_digit d) =? 61) = false.
Proof.
  intros Hd.
  assert (forallb (fun n => let d := Z.of_nat n in
    bool_decide (base64_at d = Some (b64_digit d)) && bool_decide (decode_char (b64_digit d) = Some d)
    && negb (b2sz (b64_digit d) =? 61)) (seq 0 64) = true) as H by (vm_compute; reflexivity).
  rewrite forallb_forall in H. specialize (H (Z.to_nat d)). cbv zeta in H. rewrite Z2Nat.id in H by lia.
  rewrite !andb_true_iff, !bool_decide_eq_true, negb_true_iff in H.
  destruct H as [[? ?] ?]; [|done]. apply in_seq. lia.
Qed.

Lemma land_3f x : Z.land x 0x3f = x mod 64.
Proof. apply (land_ones_mod x 6). lia. Qed.
Lemma land_ff x : Z.land x 0xff = x mod 256.
Proof. apply (land_ones_mod x 8). lia. Qed.

Lemma pack_byte p b : 0 <= p < 2 ^ 24 -> Z.lor (u32 (Z.shiftl p 8)) (b2z b) = p * 256 + b2z b.
Proof.
  intros. pose proof (b2z_range b). rewrite uw_small.
  - rewrite Z.lor_comm, (lor_shiftl_add (b2z b) p 8) by lia. lia.
  - unfold in_u. rewrite Z.shiftl_mul_pow2 by lia. lia.
Qed.

Lemma pad_byte p : 0 <= p < 2 ^ 24 -> u32 (Z.shiftl p 8) = p * 256.
Proof. intros. rewrite Z.shiftl_mul_pow2 by lia. apply uw_small. unfold in_u. lia. Qed.

(** The four digits of a packed group. *)
Lemma group_digits p :
  0 <= p < 2 ^ 24 ->
  base64_at (Z.shiftr p 18) = Some (b64_digit (p / 2 ^ 18))
  /\ base64_at (Z.land (Z.shiftr p 12) 0x3f) = Some (b64_digit (p / 2 ^ 12 mod 64))
  /\ base64_at (Z.land (Z.shiftr p 6) 0x3f) = Some (b64_digit (p / 2 ^ 6 mod 64))
  /\ base64_at (Z.land p 0x3f) = Some (b64_digit (p mod 64)).
Proof.
  intros Hp. rewrite !land_3f, !Z.shiftr_div_pow2 by lia.
  split_and!; apply b64_digit_ok; try (apply Z.mod_pos_bound; lia).
  split; [apply Z.div_pos; lia|apply Z.div_lt_upper_bound; lia].
Qed.

Lemma encode_step fuel data ret :
  data <> [] -> encode_loop (S fuel) data ret
  = encode_loop fuel (zdrop 3 data) (ret ++ b64 (ztake 3 data)).
Proof.
  intros Hne. pose proof (b2z_range Byte.x00) as H0.
  destruct data as [|a [|b [|c r]]]; [done|..]; cbn [encode_loop encode_group];
    pose proof (b2z_range a); try pose proof (b2z_range b); try pose proof (b2z_range c);
    rewrite ?(pack_byte 0), ?(pack_byte (0 * _ + b2z a)) by lia;
    try rewrite (pack_byte ((0 * 256 + b2z a) * 256 + b2z b)) by lia; unfold Nat.iter; cbn [nat_rect]; rewrite ?pad_byte by (rewrite ?pad_byte by lia; lia).
  - destruct (group_digits (b64_pack a Byte.x00 Byte.x00)) as (E0 & E1 & E2 & E3); [apply b64_pack_range|].
    replace (((0 * 256 + b2z a) * 256) * 256) with (b64_pack a Byte.x00 Byte.x00) by (unfold b64_pack; change (b2z Byte.x00) with 0; lia).
    rewrite E0, E1, E2, E3. done.
  - destruct (group_digits (b64_pack a b Byte.x00)) as (E0 & E1 & E2 & E3); [apply b64_pack_range|].
    replace (((0 * 256 + b2z a) * 256 + b2z b) * 256) with (b64_pack a b Byte.x00) by (unfold b64_pack; change (b2z Byte.x00) with 0; lia).
    rewrite E0, E1, E2, E3. done.
  - destruct (group_digits (b64_pack a b c)) as (E0 & E1 & E2 & E3); [apply b64_pack_range|].
    replace (((0 * 256 + b2z a) * 256 + b2z b) * 256 + b2z c) with (b64_pack a b c) by (unfold b64_pack; lia).
    rewrite E0, E1, E2, E3. done.
Qed.

Lemma encode_loop_ok data fuel ret :
  (length data <= fuel)%nat -> encode_loop fuel data ret = Ret (ret ++ b64 data) tt.
Proof.
  revert fuel ret. induction data as [|a|a b|a b c r IH] using triples_ind; intros fuel ret Hf;
    (destruct fuel as [|fuel]; [simpl in Hf; try lia|]); try (by rewrite ?app_nil_r);
    rewrite encode_step by done; unfold zdrop, ztake; cbn [Z.to_nat Pos.to_nat Pos.iter_op Nat.add drop take].
  - by destruct fuel.
  - by destruct fuel.
  - simpl in Hf. rewrite IH by lia. by rewrite <- app_assoc.
Qed.

Lemma decode_digit todo d r packed :
  0 <= d < 64 -> 0 <= packed ->
  decode_group (S todo) (b64_digit d :: r) 0 packed = decode_group todo r 0 (packed * 64 + d).
Proof.
  intros Hd Hp. destruct (b64_digit_ok d Hd) as (_ & Hc & He). cbn [decode_group]. rewrite He, Hc. simpl.
  rewrite Z.lor_comm, (lor_shiftl_add d packed 6) by lia. f_equal. lia.
Qed.

Lemma decode_pad todo r padding packed :
  decode_group (S todo) (z2b 61 :: r) padding packed = decode_group todo r (padding + 1) (packed * 64).
Proof. cbn [decode_group]. by rewrite Z.shiftl_mul_pow2 by lia. Qed.

Lemma unpack_bytes a b c :
  z2b (Z.land (Z.shiftr (b64_pack a b c) 16) 0xff) = a
  /\ z2b (Z.land (Z.shiftr (b64_pack a b c) 8) 0xff) = b
  /\ z2b (Z.land (b64_pack a b c) 0xff) = c.
Proof.
  pose proof (b2z_range a). pose proof (b2z_range b). pose proof (b2z_range c).
  rewrite !land_ff, !Z.shiftr_div_pow2 by lia.
  split_and!; apply b2z_inj; rewrite z2b_small by (apply Z.mod_pos_bound; lia); unfold b64_pack;
    Z.to_euclidean_division_equations; lia.
Qed.

(** What the three forms of a final or inner group decode to. *)
Lemma decode_full p r :
  0 <= p < 2 ^ 24 ->
  decode_group 4 ([b64_digit (p / 2 ^ 18); b64_digit (p / 2 ^ 12 mod 64); b64_digit (p / 2 ^ 6 mod 64);
    b64_digit (p mod 64)] ++ r) 0 0 = Some (0%nat, r, 0, p).
Proof.
  intros Hp. cbn [app]. rewrite !decode_digit; try (Z.to_euclidean_division_equations; lia).
  cbn [decode_group]. do 2 f_equal. Z.to_euclidean_division_equations. lia.
Qed.

Lemma decode_one_pad p :
  0 <= p < 2 ^ 24 -> p mod 64 = 0 ->
  decode_group 4 [b64_digit (p / 2 ^ 18); b64_digit (p / 2 ^ 12 mod 64); b64_digit (p / 2 ^ 6 mod 64);
    z2b 61] 0 0 = Some (0%nat, [], 1, p).
Proof.
  intros Hp H0. rewrite !decode_digit, decode_pad; try (Z.to_euclidean_division_equations; lia).
  cbn [decode_group]. do 2 f_equal. Z.to_euclidean_division_equations. lia.
Qed.

Lemma decode_two_pad p :
  0 <= p < 2 ^ 24 -> p mod 4096 = 0 ->
  decode_group 4 [b64_digit (p / 2 ^ 18); b64_digit (p / 2 ^ 12 mod 64); z2b 61; z2b 61] 0 0
  = Some (0%nat, [], 2, p).
Proof.
  intros Hp H0. rewrite !decode_digit, !decode_pad; try (Z.to_euclidean_division_equations; lia).
  cbn [decode_group]. do 2 f_equal. Z.to_euclidean_division_equations. lia.
Qed.

(** One round of the outer loop on a well formed group. *)
Lemma decode_step fuel c ptr room out r padding packed new :
  decode_group 4 (c :: ptr) 0 0 = Some (0%nat, r, padding, packed) ->
  padding <= 2 -> (0 < padding -> r = []) ->
  new = [z2b (Z.land (Z.shiftr packed 16) 0xff)]
    ++ (if negb (padding =? 2) then [z2b (Z.land (Z.shiftr packed 8) 0xff)] else [])
    ++ (if padding =? 0 then [z2b (Z.land packed 0xff)] else []) ->
  zlen new <= room ->
  decode_loop (S fuel) (c :: ptr) room out = decode_loop fuel r (room - zlen new) (out ++ new).
Proof.
  intros Hg Hp Hr -> Hroom. cbn [decode_loop]. rewrite Hg. cbn [Nat.eqb negb].
  replace ((0 <? padding) && negb (zlen r =? 0)) with false.
  2: { destruct (Z.ltb_spec 0 padding); [|done]. by rewrite Hr. }
  destruct (Z.ltb_spec 2 padding); [lia|]. cbv zeta. by rewrite (proj2 (Z.ltb_ge _ _) Hroom).
Qed.

Lemma decode_loop_b64 data fuel room out :
  (length data <= fuel)%nat -> zlen data <= room ->
  decode_loop fuel (b64 data) room out = Ret (out ++ data) tt.
Proof.
  revert fuel room out. induction data as [|a|a b|a b c r IH] using triples_ind; intros fuel room out Hf Hroom;
    (destruct fuel as [|fuel]; [simpl in Hf; try lia|]); try (by rewrite ?app_nil_r).
  - destruct (unpack_bytes a Byte.x00 Byte.x00) as (E1 & _ & _). cbn [b64].
    rewrite (decode_step _ _ _ _ _ [] 2 (b64_pack a Byte.x00 Byte.x00) [a]); try done.
    + by destruct fuel.
    + apply decode_two_pad; [apply b64_pack_range|]. unfold b64_pack. change (b2z Byte.x00) with 0.
      Z.to_euclidean_division_equations; lia.
    + cbn. by rewrite E1.
  - destruct (unpack_bytes a b Byte.x00) as (E1 & E2 & _). cbn [b64].
    rewrite (decode_step _ _ _ _ _ [] 1 (b64_pack a b Byte.x00) [a; b]); try done.
    + by destruct fuel.
    + apply decode_one_pad; [apply b64_pack_range|]. unfold b64_pack. change (b2z Byte.x00) with 0.
      Z.to_euclidean_division_equations; lia.
    + cbn. by rewrite E1, E2.
  - destruct (unpack_bytes a b c) as (E1 & E2 & E3). cbn [b64 app].
    rewrite (decode_step _ _ _ _ _ (b64 r) 0 (b64_pack a b c) [a; b; c]); try done.
    + simpl in Hf. rewrite !zlen_cons in Hroom. rewrite IH; [by rewrite <- app_assoc|lia|].
      change (zlen [a; b; c]) with 3. lia.
    + apply decode_full, b64_pack_range.
    + cbn. by rewrite E1, E2, E3.
    + rewrite !zlen_cons in Hroom. pose proof (zlen_nonneg r). change (zlen [a; b; c]) with 3. lia.
Qed.

Lemma zlen_b64 data : zlen (b64 data) = 4 * ((zlen data + 2) / 3).
Proof.
  induction data as [|a|a b|a b c r IH] using triples_ind; try done.
  cbn [b64]. rewrite zlen_app, IH, !zlen_cons, zlen_nil.
  replace (1 + (1 + (1 + zlen r)) + 2) with (zlen r + 2 + 1 * 3) by lia. rewrite Z.div_add by lia. lia.
Qed.

(** *** Decoding any input stays inside [result] *)
Lemma decode_group_consumes todo ptr padding packed todo' ptr' padding' packed' :
  decode_group todo ptr padding packed = Some (todo', ptr', padding', packed') ->
  zlen ptr' = zlen ptr - (Z.of_nat todo - Z.of_nat todo') /\ 0 <= Z.of_nat todo'.
Proof.
  revert ptr padding packed. induction todo as [|todo IH]; intros [|c ptr] padding packed; cbn [decode_group];
    try (intros [= <- <- <- <-]; lia).
  destruct (_ =? 61); [intros H%IH; rewrite zlen_cons; lia|].
  destruct (0 <? padding); [done|]. destruct (decode_char c); [|done]. intros H%IH. rewrite zlen_cons. lia.
Qed.

Lemma decode_loop_safe fuel ptr room out :
  zlen ptr <= Z.of_nat fuel -> zlen ptr * 3 <= room * 4 + 3 ->
  exists res, decode_loop fuel ptr room out = Ret res tt /\ zlen res <= zlen out `max` (zlen out + room).
Proof.
  revert ptr room out. induction fuel as [|fuel IH]; intros ptr room out Hf Hroom.
  { destruct ptr; [|rewrite zlen_cons in Hf; pose proof (zlen_nonneg ptr); lia]. exists out. split; [done|lia]. }
  destruct ptr as [|c ptr]; [exists out; split; [done|lia]|].
  pose proof (zlen_nonneg out). cbn [decode_loop].
  destruct (decode_group 4 (c :: ptr) 0 0) as [[[[todo r] padding] packed]|] eqn:E;
    [|exists []; split; [done|rewrite zlen_nil; lia]].
  apply decode_group_consumes in E as [El _]. rewrite zlen_cons in *. pose proof (zlen_nonneg r).
  destruct (Nat.eqb_spec todo 0) as [->|]; cbn [negb]; [|exists []; split; [done|rewrite zlen_nil; lia]].
  destruct ((0 <? padding) && _); [exists []; split; [done|rewrite zlen_nil; lia]|].
  destruct (2 <? padding); [exists []; split; [done|rewrite zlen_nil; lia]|].
  set (new := _ ++ _ ++ _). assert (1 <= zlen new <= 3) as Hn.
  { unfold new. rewrite !zlen_app. destruct (negb _), (padding =? 0); vm_compute; split; congruence. }
  destruct (Z.ltb_spec room (zlen new)); [lia|].
  destruct (IH r (room - zlen new) (out ++ new)) as (res & -> & Hres); [lia|lia|].
  exists res. split; [done|]. rewrite zlen_app in Hres. lia.
Qed.

(** ** Hexadecimal *)
Lemma pairs_ind {A} (P : list A -> Prop) :
  P [] -> (forall a, P [a]) -> (forall a b r, P r -> P (a :: b :: r)) -> forall l, P l.
Proof.
  intros H0 H1 H2 l. enough (P l /\ forall a, P (a :: l)) by naive_solver.
  induction l as [|x l [IH1 IH2]]; split; auto.
Qed.

Lemma hex_of_byte_ok b :
  exists c d hi lo, hex_of_byte b = [c; d] /\ hex_value c = Some hi /\ hex_value d = Some lo
    /\ z2b (Z.lor (u8 (Z.shiftl hi 4)) lo) = b.
Proof. destruct b; do 4 eexists; split_and!; reflexivity. Qed.

(** Two hexadecimal digits determine a byte, whose digits they are up to case. *)
Lemma hex_pair_ok a b :
  match hex_value a, hex_value b with
  | Some hi, Some lo => hex_of_byte (z2b (Z.lor (u8 (Z.shiftl hi 4)) lo)) = [tolower a; tolower b]
  | _, _ => True
  end.
Proof.
  assert (forallb (fun a => match hex_value a with
     | Some v => (0 <=? v) && (v <? 16) && bool_decide (hex_digit v = tolower a)
     | None => true end) all_bytes = true) as H by (vm_compute; reflexivity).
  pose proof (byte_forall _ H a) as Ha. pose proof (byte_forall _ H b) as Hb. simpl in Ha, Hb.
  destruct (hex_value a) as [hi|], (hex_value b) as [lo|]; try done.
  rewrite !andb_true_iff, Z.leb_le, Z.ltb_lt, bool_decide_eq_true in Ha, Hb.
  destruct Ha as [Ha <-], Hb as [Hb <-].
  assert (Z.lor (u8 (Z.shiftl hi 4)) lo = hi * 16 + lo) as ->.
  { rewrite uw_small by (unfold in_u; rewrite Z.shiftl_mul_pow2; lia).
    rewrite Z.lor_comm, (lor_shiftl_add lo hi 4) by lia. lia. }
  unfold hex_of_byte. rewrite z2b_small by lia.
  rewrite !(land_ones_mod _ 4), Z.shiftr_div_pow2 by lia.
  do 2 f_equal; [|f_equal]; f_equal; Z.to_euclidean_division_equations; lia.
Qed.

Lemma hex_value_isxdigit c : is_Some (hex_value c) <-> isxdigit c = true.
Proof.
  unfold hex_value, isxdigit, isdigit, between, is_Some.
  destruct (_ && _) eqn:E1, (_ && _) eqn:E2 in |- *, (_ && _) eqn:E3 in |- *; naive_solver.
Qed.

Lemma data_from_hexstring_hex data out :
  data_from_hexstring_loop (hexstring_from_data data) out = Ret (out ++ data) tt.
Proof.
  revert out. induction data as [|b data IH]; intros out; [by rewrite app_nil_r|].
  unfold hexstring_from_data in *. cbn [map concat].
  destruct (hex_of_byte_ok b) as (c & d & hi & lo & -> & Hc & Hd & Hb). cbn [app data_from_hexstring_loop]. rewrite Hc, Hd, Hb, IH. by rewrite <- app_assoc.
Qed.

Lemma data_from_hexstring_loop_ok s out :
  zlen s mod 2 = 0 ->
  (Forall (fun c => isxdigit c = true) s ->
   exists d, data_from_hexstring_loop s out = Ret (out ++ d) tt /\ hexstring_from_data d = map tolower s)
  /\ (~ Forall (fun c => isxdigit c = true) s -> data_from_hexstring_loop s out = Throw InvalidArgument tt).
Proof.
  revert out. induction s as [|a|a b s IH] using pairs_ind; intros out Hl.
  - split; [|intros []; constructor]. exists []. by rewrite app_nil_r.
  - done.
  - rewrite !zlen_cons in Hl. assert (zlen s mod 2 = 0) as Hl' by (Z.to_euclidean_division_equations; lia).
    pose proof (hex_pair_ok a b) as Hp. pose proof (hex_value_isxdigit a) as Ha. pose proof (hex_value_isxdigit b) as Hb.
    rewrite !Forall_cons, <- Ha, <- Hb. cbn [data_from_hexstring_loop].
    destruct (hex_value a) as [hi|]; [|split; [intros [[? ?] _]; done|done]].
    destruct (hex_value b) as [lo|]; [|split; [intros (_ & [? ?] & _); done|done]].
    destruct (IH (out ++ [z2b (Z.lor (u8 (Z.shiftl hi 4)) lo)]) Hl') as [IH1 IH2]. split.
    + intros (_ & _ & Hs). destruct (IH1 Hs) as (d & -> & Hd). eexists (_ :: d). rewrite <- app_assoc.
      split; [done|]. unfold hexstring_from_data in *. cbn [map concat]. by rewrite Hd, Hp.
    + intros Hn. apply IH2. intros Hs. apply Hn. split_and!; eauto.
Qed.

(** ** Splitting *)

(** [ps] with the delimiters [seps] between them. *)
Fixpoint interleave (ps : list str) (seps : str) : str :=
  match ps, seps with
  | [], _ => []
  | [p], _ | p :: _, [] => p
  | p :: ps, c :: seps => p ++ c :: interleave ps seps
  end.

(** What a split of [s] at the delimiters [P] into at most [max] pieces is. *)
Record is_split (P : byte -> bool) (max : Z) (s : str) (ps : list str) : Prop := {
  sp_seps : exists seps, interleave ps seps = s /\ length ps = S (length seps)
    /\ Forall (fun c => P c = true) seps;
  sp_free : Forall (Forall (fun c => P c = false)) (removelast ps);
  sp_max : zlen ps <= max;
  sp_all : zlen ps < max -> Forall (Forall (fun c => P c = false)) ps;
}.

Lemma is_split_cons P max s p c rest ps :
  Forall (fun c => P c = false) p -> P c = true -> s = p ++ c :: rest ->
  is_split P (max - 1) rest ps -> is_split P max s (p :: ps).
Proof.
  intros Hp Hc -> [(seps & Hi & Hl & Hs) Hf Hm Ha]. destruct ps as [|q ps]; [done|].
  split; rewrite ?zlen_cons in *.
  - exists (c :: seps). split_and!; [by rewrite <- Hi|simpl in *; lia|by constructor].
  - change (removelast (p :: q :: ps)) with (p :: removelast (q :: ps)). by constructor.
  - lia.
  - intros. constructor; [done|]. apply Ha. lia.
Qed.

Lemma split_loop_ok fuel P s last max result :
  0 <= last <= zlen s -> zlen s - last <= Z.of_nat fuel -> 2 <= max < 2 ^ 64 ->
  exists ps, split_loop fuel P s last (find_if_from P s last) max result = Ret (result ++ ps) tt
    /\ is_split P max (zdrop last s) ps.
Proof.
  revert last max result. induction fuel as [|fuel IH]; intros last max result Hlast Hf Hmax.
  all: destruct (find_if_from P s last) as [p|] eqn:E.
  2, 4: exists [zdrop last s]; split; [done|];
    unfold find_if_from in E; destruct (find_if P (zdrop last s)) eqn:En; [done|];
    apply find_if_none in En; split; [by exists []|simpl; by constructor|rewrite zlen_cons, zlen_nil; lia|by constructor].
  all: apply find_if_from_some in E as (Hp & c & Es & Hc & Hfree); [|done].
  { lia. }
  cbn [split_loop]. rewrite uw_small by fits. destruct (Z.eqb_spec (max - 1) 1).
  - exists [substr s last (p - last); zdrop (p + 1) s]. split; [by rewrite <- app_assoc|].
    split; [exists [c]; split_and!; [done|done|by constructor]|simpl; by constructor|..];
      rewrite !zlen_cons, zlen_nil; lia.
  - destruct (IH (p + 1) (max - 1) (result ++ [substr s last (p - last)])) as (ps & -> & Hps); [lia..|].
    exists (substr s last (p - last) :: ps). split; [by rewrite <- app_assoc|].
    by eapply is_split_cons.
Qed.

(** ** Replacing *)
Lemma find_drop_app P a b i :
  find_if_from P (a ++ b) (zlen a) = Some i <-> exists j, find_if P b = Some j /\ i = zlen a + j.
Proof.
  unfold find_if_from. rewrite zdrop_app_ge, Z.sub_diag, zdrop_0 by lia.
  destruct (find_if P b); naive_solver.
Qed.
Lemma find_drop_app_none P a b :
  find_if_from P (a ++ b) (zlen a) = None <-> Forall (fun c => P c = false) b.
Proof.
  unfold find_if_from. rewrite zdrop_app_ge, Z.sub_diag, zdrop_0, <- find_if_none by lia.
  destruct (find_if P b); naive_solver.
Qed.

Definition subst_char (f : byte) (r : str) (c : byte) : str := if decide (c = f) then r else [c].

Lemma subst_char_free f r s :
  Forall (fun c => eqb_char f c = false) s -> concat (map (subst_char f r) s) = s.
Proof.
  induction 1 as [|c s Hc _ IH]; [done|]. simpl. rewrite IH. unfold subst_char.
  apply bool_decide_eq_false in Hc. by rewrite decide_False.
Qed.

Lemma replace_cs_loop_ok fuel f r a b :
  (length b <= fuel)%nat ->
  replace_cs_loop fuel f r (find f (a ++ b) (zlen a)) (a ++ b) = Ret (a ++ concat (map (subst_char f r) b)) tt.
Proof.
  revert a b. induction fuel as [|fuel IH]; intros a b Hf.
  all: destruct (find f (a ++ b) (zlen a)) as [i|] eqn:E; unfold find in E.
  2, 4: apply find_drop_app_none in E; simpl; by rewrite subst_char_free.
  all: apply find_drop_app in E as (j & (p & c & q & -> & Hl & Hc & Hfree)%find_if_some & ->);
    rewrite length_app in Hf; simpl in Hf.
  { lia. }
  cbn [replace_cs_loop]. unfold substr, substr_to_end. pose proof (zlen_nonneg p). pose proof (zlen_nonneg a).
  assert (zsub 0 (zlen a + j) (a ++ p ++ c :: q) = a ++ p) as ->.
  { unfold zsub. rewrite zdrop_0, app_assoc, ztake_app_le by (rewrite zlen_app; lia).
    apply ztake_all. rewrite zlen_app. lia. }
  assert (zdrop (zlen a + j + 1) (a ++ p ++ c :: q) = q) as ->.
  { rewrite app_assoc, zdrop_app_ge by (rewrite zlen_app; lia). rewrite zlen_app.
    by replace (zlen a + j + 1 - (zlen a + zlen p)) with 1 by lia. }
  replace ((a ++ p) ++ r ++ q) with ((a ++ p ++ r) ++ q) by by rewrite <- !app_assoc.
  replace (zlen a + j + zlen r) with (zlen (a ++ p ++ r)) by (rewrite !zlen_app; lia).
  rewrite IH by lia. f_equal. apply bool_decide_eq_true in Hc as ->. rewrite map_app, concat_app, (subst_char_free f r p Hfree).
  cbn [map concat]. unfold subst_char at 2. rewrite decide_True by done. by rewrite <- !app_assoc.
Qed.

Lemma replace_cc_loop_cs fuel f r index s :
  (forall i, index = Some i -> 0 <= i < zlen s) ->
  replace_cc_loop fuel f r index s = replace_cs_loop fuel f [r] index s.
Proof.
  revert index s. induction fuel as [|fuel IH]; intros [i|] s Hi; try done.
  specialize (Hi i eq_refl) as Hr. cbn [replace_cc_loop replace_cs_loop].
  change (zlen [r]) with 1. unfold substr, substr_to_end, splice, zsub. rewrite zdrop_0. change (zlen [r]) with 1.
  apply IH. intros k Hk. apply find_if_from_some in Hk as [? _]; [lia|].
  rewrite !zlen_app, zlen_ztake, zlen_zdrop by lia. change (zlen [r]) with 1. lia.
Qed.

(** [join sep ps]: the pieces with [sep] between them. *)
Fixpoint join (sep : str) (ps : list str) : str :=
  match ps with [] => [] | [p] => p | p :: ps => p ++ sep ++ join sep ps end.

(** The leftmost, non-overlapping occurrences of [f] in [s]. *)
Record cut_at (f s : str) (ps : list str) : Prop := {
  cut_join : join f ps = s;
  cut_nonempty : ps <> [];
  cut_leftmost : Forall (fun p => find_str f (p ++ f) = Some (zlen p)) (removelast ps);
  cut_last : find_str f (List.last ps []) = None;
}.

Lemma starts_with_app_cut f p q : starts_with f ((p ++ f) ++ q) = starts_with f (p ++ f).
Proof.
  apply eq_true_iff_eq. rewrite !starts_with_spec. split.
  - intros [r E]. exists (drop (length f) (p ++ f)).
    rewrite <- (take_drop (length f) (p ++ f)) at 1. f_equal.
    rewrite <- (take_app_le (p ++ f) q) by (rewrite length_app; lia). rewrite E. apply take_app_length.
  - intros [r ->]. exists (r ++ q). by rewrite <- app_assoc.
Qed.

Lemma find_str_leftmost f p q :
  f <> [] -> find_str f (p ++ f ++ q) = Some (zlen p) -> find_str f (p ++ f) = Some (zlen p).
Proof.
  intros Hf. rewrite app_assoc. revert q. induction p as [|c p IH]; intros q.
  - intros _. assert (starts_with f f = true) as E by (apply starts_with_spec; exists []; by rewrite app_nil_r).
    destruct f as [|x f]; [done|]. cbn [app find_str]. by rewrite E.
  - cbn [app find_str]. change (c :: (p ++ f) ++ q) with (((c :: p) ++ f) ++ q). rewrite starts_with_app_cut.
    change ((c :: p) ++ f) with (c :: p ++ f). rewrite zlen_cons. destruct (starts_with f (c :: p ++ f)).
    + intros [= E]. pose proof (zlen_nonneg p). lia.
    + destruct (find_str f ((p ++ f) ++ q)) as [k|] eqn:E; [|done]. intros [= Ek].
      rewrite (IH q); [simpl; f_equal; lia|]. rewrite E. f_equal. lia.
Qed.

Lemma replace_ss_loop_ok fuel f r a b :
  f <> [] -> (length b <= fuel)%nat ->
  exists ps, replace_ss_loop fuel f r (find_str_from f (a ++ b) (zlen a)) (a ++ b) = Ret (a ++ join r ps) tt
    /\ cut_at f b ps.
Proof.
  intros Hne. revert a b. assert (forall a b, find_str_from f (a ++ b) (zlen a) = Z.add (zlen a) <$> find_str f b) as Hff.
  { intros a b. unfold find_str_from. rewrite zlen_app. pose proof (zlen_nonneg b).
    destruct (Z.ltb_spec (zlen a + zlen b) (zlen a)); [lia|]. by rewrite zdrop_app_ge, Z.sub_diag, zdrop_0 by lia. }
  induction fuel as [|fuel IH]; intros a b Hf; rewrite Hff; destruct (find_str f b) as [j|] eqn:E; simpl.
  2, 4: exists [b]; split; [done|]; split; [done|done|constructor|done].
  all: pose proof E as (p & q & -> & Hp)%find_str_some; rewrite !length_app in Hf.
  { destruct f; [done|simpl in Hf; lia]. }
  assert (zsub 0 (zlen a + j) (a ++ p ++ f ++ q) = a ++ p) as H1.
  { unfold zsub. rewrite zdrop_0, app_assoc, ztake_app_le by (rewrite zlen_app; lia).
    apply ztake_all. rewrite zlen_app. lia. }
  assert (zdrop (zlen a + j + zlen f) (a ++ p ++ f ++ q) = q) as H2.
  { rewrite !app_assoc. rewrite zdrop_app_ge by (rewrite !zlen_app; lia). rewrite !zlen_app.
    by replace (zlen a + j + zlen f - (zlen a + zlen p + zlen f)) with 0 by lia. }
  unfold substr, substr_to_end. rewrite H1, H2.
  replace ((a ++ p) ++ r ++ q) with ((a ++ p ++ r) ++ q) by by rewrite <- !app_assoc.
  replace (zlen a + j + zlen r) with (zlen (a ++ p ++ r)) by (rewrite !zlen_app; lia).
  destruct (IH (a ++ p ++ r) q) as (ps & -> & [Hj Hn Hl Hla]); [destruct f; [done|simpl in *; lia]|].
  destruct ps as [|x ps]; [done|]. exists (p :: x :: ps). split; [by rewrite <- !app_assoc|].
  split; [by rewrite <- Hj|done| |done]. change (removelast (p :: x :: ps)) with (p :: removelast (x :: ps)).
  constructor; [|done]. apply find_str_leftmost with q; [done|]. by rewrite E, Hp.
Qed.

(** ** MurmurHash3: every step is a bijection of 32-bit words *)
Lemma in_u_lxor w a b : 0 <= w -> in_u w a -> in_u w b -> in_u w (Z.lxor a b).
Proof.
  intros Hw Ha Hb. enough (Z.lxor a b = Z.land (Z.lxor a b) (Z.ones w)) as ->.
  { rewrite Z.land_ones by lia. by apply Z.mod_pos_bound; lia. }
  rewrite <- (Z.mod_small a (2 ^ w)), <- (Z.mod_small b (2 ^ w)) by done. rewrite <- !Z.land_ones by lia.
  apply Z.bits_inj'. intros i Hi. rewrite !Z.land_spec, !Z.lxor_spec, !Z.land_spec.
  by destruct (Z.testbit a i), (Z.testbit b i), (Z.testbit (Z.ones w) i).
Qed.

Lemma lxor_inj_l a b c : Z.lxor a c = Z.lxor b c -> a = b.
Proof.
  intros H. apply (f_equal (fun x => Z.lxor x c)) in H. by rewrite !Z.lxor_assoc, !Z.lxor_nilpotent, !Z.lxor_0_r in H.
Qed.

(** Multiplication by an odd constant, with its inverse. *)
Lemma mul_inj c inv x y :
  (c * inv) mod 2 ^ 32 = 1 -> in_u 32 x -> in_u 32 y -> u32 (x * c) = u32 (y * c) -> x = y.
Proof.
  intros Hc Hx Hy H. apply (f_equal (fun z => u32 (z * inv))) in H. unfold uw in H.
  rewrite !Z.mul_mod_idemp_l, <- !Z.mul_assoc, <- !(Z.mul_mod_idemp_r _ (c * inv)), Hc, !Z.mul_1_r in H by lia.
  unfold in_u in *. by rewrite !Z.mod_small in H by lia.
Qed.

Lemma xorshift_inj k x y :
  0 < k -> 0 <= x -> 0 <= y -> Z.lxor x (Z.shiftr x k) = Z.lxor y (Z.shiftr y k) -> x = y.
Proof.
  intros Hk Hx Hy H. apply Z.lxor_eq. set (d := Z.lxor x y).
  assert (d = Z.shiftr d k) as Hd.
  { unfold d. rewrite Z.shiftr_lxor. apply Z.lxor_eq. rewrite <- !Z.lxor_assoc.
    rewrite (Z.lxor_assoc x y), (Z.lxor_comm y), <- (Z.lxor_assoc x), H.
    rewrite (Z.lxor_assoc y), (Z.lxor_comm (Z.shiftr y k) y), <- Z.lxor_assoc, Z.lxor_nilpotent.
    by rewrite Z.lxor_0_l, Z.lxor_nilpotent. }
  assert (0 <= d) by (apply Z.lxor_nonneg; lia). rewrite Z.shiftr_div_pow2 in Hd by lia.
  pose proof (Z.pow_gt_1 2 k ltac:(lia)) as [Hp _]. specialize (Hp Hk).
  destruct (Z.eq_dec d 0); [done|]. pose proof (Z.div_lt d (2 ^ k)). lia.
Qed.

Lemma ROTL_arith x r :
  0 < r < 32 -> in_u 32 x -> ROTL x r = x mod 2 ^ (32 - r) * 2 ^ r + x / 2 ^ (32 - r).
Proof.
  intros Hr Hx. unfold ROTL. rewrite Z.shiftr_div_pow2 by lia.
  assert (2 ^ 32 = 2 ^ (32 - r) * 2 ^ r) as Hp by (rewrite <- Z.pow_add_r by lia; f_equal; lia).
  assert (u32 (Z.shiftl x r) = Z.shiftl (x mod 2 ^ (32 - r)) r) as ->.
  { rewrite !Z.shiftl_mul_pow2 by lia. unfold uw. rewrite Hp. by rewrite Z.mul_mod_distr_r by lia. }
  assert (0 < 2 ^ (32 - r)) by lia. assert (0 < 2 ^ r) by lia. unfold in_u in Hx.
  rewrite Z.lor_comm, lor_shiftl_add; [lia|lia|].
  split; [apply Z.div_pos; lia|apply Z.div_lt_upper_bound; lia].
Qed.

Lemma ROTL_range x r : 0 < r < 32 -> in_u 32 x -> in_u 32 (ROTL x r).
Proof.
  intros Hr Hx. rewrite ROTL_arith by done. unfold in_u in *.
  assert (2 ^ 32 = 2 ^ (32 - r) * 2 ^ r) as Hp by (rewrite <- Z.pow_add_r by lia; f_equal; lia).
  assert (0 < 2 ^ (32 - r)) by lia. assert (0 < 2 ^ r) by lia.
  pose proof (Z.mod_pos_bound x (2 ^ (32 - r)) ltac:(lia)).
  assert (0 <= x / 2 ^ (32 - r) < 2 ^ r) by (split; [apply Z.div_pos; lia|apply Z.div_lt_upper_bound; lia]).
  nia.
Qed.

Lemma ROTL_inj x y r : 0 < r < 32 -> in_u 32 x -> in_u 32 y -> ROTL x r = ROTL y r -> x = y.
Proof.
  intros Hr Hx Hy. rewrite !ROTL_arith by done. unfold in_u in *.
  assert (2 ^ 32 = 2 ^ (32 - r) * 2 ^ r) as Hp by (rewrite <- Z.pow_add_r by lia; f_equal; lia).
  assert (0 < 2 ^ (32 - r)) by lia. assert (0 < 2 ^ r) by lia. intros Hxy.
  rewrite (Z.div_mod x (2 ^ (32 - r))), (Z.div_mod y (2 ^ (32 - r))) by lia.
  assert (forall z, 0 <= z < 2 ^ 32 -> 0 <= z / 2 ^ (32 - r) < 2 ^ r) as Hz.
  { intros. split; [apply Z.div_pos; lia|apply Z.div_lt_upper_bound; lia]. }
  rewrite !(Z.mul_comm (_ mod _)) in Hxy.
  apply Z.div_mod_unique in Hxy as [-> ->]; [done|left; auto..].
Qed.

#[local] Ltac range32 := repeat first [done | apply in_u_lxor; [lia|..] | apply ROTL_range; [lia|] | apply uw_range; lia].

Lemma mix_s_range s : in_u 32 (mix_s s).
Proof. apply uw_range. lia. Qed.

Lemma mix_s_inj x y : in_u 32 x -> in_u 32 y -> mix_s x = mix_s y -> x = y.
Proof.
  intros Hx Hy H. unfold mix_s in H.
  apply (mul_inj seed2 0x56ed309b) in H; [|done|range32..].
  apply ROTL_inj in H; [|lia|range32..]. by apply (mul_inj seed1 0xdee13bb1) in H.
Qed.

Lemma mix_block_range h s : in_u 32 (mix_block h s).
Proof. apply uw_range. lia. Qed.

Lemma uw_add_inj w a b c : 0 <= w -> in_u w a -> in_u w b -> uw w (a + c) = uw w (b + c) -> a = b.
Proof.
  intros Hw Ha Hb H. apply (f_equal (fun z => (z + - c) mod 2 ^ w)) in H. unfold uw in H.
  rewrite !Z.add_mod_idemp_l, <- !Z.add_assoc, Z.add_opp_diag_r, !Z.add_0_r in H by lia.
  unfold in_u in *. by rewrite !Z.mod_small in H by lia.
Qed.

Lemma mix_block_lxor h s h' s' :
  in_u 32 h -> in_u 32 h' -> mix_block h s = mix_block h' s' -> Z.lxor h (mix_s s) = Z.lxor h' (mix_s s').
Proof.
  intros Hh Hh' H. unfold mix_block in H. pose proof (mix_s_range s). pose proof (mix_s_range s').
  apply uw_add_inj in H; [|lia|range32..]. apply (mul_inj 5 0xcccccccd) in H; [|done|range32..].
  apply ROTL_inj in H; [done|lia|range32..].
Qed.

Lemma mix_block_inj_h h h' s : in_u 32 h -> in_u 32 h' -> mix_block h s = mix_block h' s -> h = h'.
Proof. intros ? ? H%mix_block_lxor; [|done..]. by eapply lxor_inj_l. Qed.

Lemma mix_block_inj_s h s s' :
  in_u 32 h -> in_u 32 s -> in_u 32 s' -> mix_block h s = mix_block h s' -> s = s'.
Proof.
  intros ? ? ? H%mix_block_lxor; [|done..]. rewrite !(Z.lxor_comm h) in H. apply lxor_inj_l in H. by apply mix_s_inj.
Qed.

Lemma fmix32_inj x y : in_u 32 x -> in_u 32 y -> fmix32 x = fmix32 y -> x = y.
Proof.
  assert (forall x k, 0 <= k -> in_u 32 x -> in_u 32 (Z.shiftr x k)) as Hs.
  { intros z k Hk Hz. unfold in_u in *. rewrite Z.shiftr_div_pow2 by lia. assert (0 < 2 ^ k) by lia.
    split; [apply Z.div_pos; lia|]. apply Z.le_lt_trans with z; [|lia]. apply Z.div_le_upper_bound; nia. }
  assert (forall z, 0 <= u32 z) as H0 by (intros z; apply (uw_range 32 z); lia).
  intros Hx Hy H. unfold fmix32 in H. apply xorshift_inj in H; [|lia|apply H0..].
  apply (mul_inj _ 0x7ed1b41d) in H; [|done|range32; apply Hs; range32; lia..].
  apply xorshift_inj in H; [|lia|apply H0..].
  apply (mul_inj _ 0xa5cb9243) in H; [|done|range32; apply Hs; range32; lia..].
  apply xorshift_inj in H; [done|lia|apply Hx|apply Hy].
Qed.

Section murmur_facts.
Context `{PF : !Platform}.

Lemma host_val_range w : in_u (8 * zlen w) (host_val w).
Proof. unfold host_val, zlen. destruct BYTE_ORDER; [|rewrite <- length_rev]; apply le_val_range. Qed.

Lemma host_val_inj a b : length a = length b -> host_val a = host_val b -> a = b.
Proof.
  assert (forall a b, length a = length b -> le_val a = le_val b -> a = b) as Hle.
  { intros x y Hl Hv. rewrite <- (le_bytes_val x), <- (le_bytes_val y). congruence. }
  intros Hl. unfold host_val. destruct BYTE_ORDER; [by apply Hle|].
  intros Hab%Hle; [|by rewrite !length_rev]. by rewrite <- (rev_involutive a), Hab, rev_involutive.
Qed.

(** The blocks of [data] as words, and the loop as a fold over them. *)
Definition words (data : str) (n : nat) : list Z :=
  (fun i => host_val (zsub (4 * Z.of_nat i) 4 data)) <$> seq 0 n.

Lemma murmur3_blocks_fold data i n h :
  4 * Z.of_nat (i + n) <= zlen data ->
  murmur3_blocks n data (Z.of_nat i) h
  = Some (foldl mix_block h ((fun i => host_val (zsub (4 * Z.of_nat i) 4 data)) <$> seq i n)).
Proof.
  revert i h. induction n as [|n IH]; intros i h Hn; [done|]. cbn [murmur3_blocks seq fmap list_fmap foldl].
  unfold load. destruct (Z.leb_spec 0 (4 * Z.of_nat i)); [|lia].
  destruct (Z.leb_spec (4 * Z.of_nat i + 4) (zlen data)); [|lia]. simpl.
  replace (Z.of_nat i + 1) with (Z.of_nat (S i)) by lia. rewrite IH by lia. done.
Qed.

Lemma foldl_mix_range l h : in_u 32 h -> in_u 32 (foldl mix_block h l).
Proof. revert h. induction l; intros h Hh; [done|]. simpl. apply IHl, mix_block_range. Qed.

Lemma foldl_mix_inj l h h' :
  in_u 32 h -> in_u 32 h' -> foldl mix_block h l = foldl mix_block h' l -> h = h'.
Proof.
  revert h h'. induction l as [|s l IH]; intros h h' Hh Hh' H; [done|].
  apply IH in H; [by eapply mix_block_inj_h|apply mix_block_range..].
Qed.

(** The tail enters by an exclusive or that does not depend on the hash. *)
Lemma murmur3_tail_lxor data off k :
  0 <= off -> 0 <= k < 4 -> off + k <= zlen data ->
  exists t, in_u 32 t /\ (forall h, murmur3_tail data off k h = Some (Z.lxor h t))
    /\ forall data', zdrop off data = zdrop off data' -> zlen data = zlen data' ->
       forall h, murmur3_tail data' off k h = Some (Z.lxor h t).
Proof.
  intros Ho Hk Hl. unfold murmur3_tail. destruct (Z.eqb_spec k 0).
  { exists 0. split_and!; [done|intros; by rewrite Z.lxor_0_r|intros; by rewrite Z.lxor_0_r]. }
  unfold load. destruct (Z.leb_spec 0 off); [|lia]. destruct (Z.leb_spec (off + k) (zlen data)); [|lia]. simpl.
  eexists. split_and!; [|intros; reflexivity|]; [apply mix_s_range|].
  intros data' Hd Hz h. rewrite <- Hz. destruct (Z.leb_spec (off + k) (zlen data)); [|lia]. simpl.
  unfold zsub. by rewrite Hd.
Qed.

Lemma quot_4 n : 0 <= n -> Z.quot n 4 = n / 4 /\ Z.land n 3 = n mod 4.
Proof. intros. split; [apply Z.quot_div_nonneg; lia|]. apply (land_ones_mod n 2). lia. Qed.

(** The hash of a block of memory in terms of the fold. *)
Lemma murmur3_hash_fold data seed :
  zlen data < 2 ^ 31 -> in_u 32 seed ->
  exists t, in_u 32 t /\ murmur3_hash (Some data) (zlen data) seed
    = Some (fmix32 (Z.lxor (Z.lxor (foldl mix_block seed (words data (Z.to_nat (zlen data / 4)))) t) (zlen data)))
  /\ forall data' seed', zlen data' = zlen data ->
     zdrop (zlen data / 4 * 4) data = zdrop (zlen data / 4 * 4) data' ->
     murmur3_hash (Some data') (zlen data) seed'
     = Some (fmix32 (Z.lxor (Z.lxor (foldl mix_block seed' (words data' (Z.to_nat (zlen data / 4)))) t) (zlen data))).
Proof.
  intros Hl Hs. pose proof (zlen_nonneg data) as Hn. destruct (quot_4 (zlen data) Hn) as [Hq Hm].
  assert (s32 (zlen data) = zlen data) as Hs32 by (apply sw_small; [lia|unfold in_s; lia]).
  pose proof (Z.div_mod (zlen data) 4 ltac:(lia)) as Hdm. pose proof (Z.mod_pos_bound (zlen data) 4 ltac:(lia)).
  pose proof (Z.div_pos (zlen data) 4 Hn ltac:(lia)).
  destruct (murmur3_tail_lxor data (zlen data / 4 * 4) (zlen data mod 4)) as (t & Ht & T1 & T2); [lia..|].
  assert (forall d sd, zlen d = zlen data ->
    murmur3_blocks (Z.to_nat (zlen data / 4)) d 0 sd = Some (foldl mix_block sd (words d (Z.to_nat (zlen data / 4))))) as Hb.
  { intros d sd Hd. apply (murmur3_blocks_fold d 0). rewrite Hd. lia. }
  exists t. split; [done|]. unfold murmur3_hash, murmur3_body. rewrite Hs32, Hq, Hm, (uw_small 32 (zlen data)) by fits.
  split.
  - rewrite Hb by done. simpl. by rewrite T1.
  - intros d sd Hd Hdr. rewrite Hb by done. simpl. by rewrite (T2 d).
Qed.

Lemma foldl_mix_diff h l1 a b l2 :
  in_u 32 h -> in_u 32 a -> in_u 32 b -> a <> b ->
  foldl mix_block h (l1 ++ a :: l2) <> foldl mix_block h (l1 ++ b :: l2).
Proof.
  intros Hh Ha Hb Hab H. rewrite !foldl_app in H. cbn [foldl] in H. apply foldl_mix_inj in H; [|apply mix_block_range..].
  apply mix_block_inj_s in H; [done|by apply foldl_mix_range|done..].
Qed.

(** Replacing one aligned block changes exactly one word. *)
Lemma words_one_block p x y q n :
  zlen x = 4 -> zlen y = 4 -> zlen p mod 4 = 0 -> zlen p / 4 < Z.of_nat n ->
  exists l1 l2, words (p ++ x ++ q) n = l1 ++ host_val x :: l2 /\ words (p ++ y ++ q) n = l1 ++ host_val y :: l2.
Proof.
  intros Hx Hy Hp Hn. pose proof (zlen_nonneg p). pose proof (Z.div_mod (zlen p) 4 ltac:(lia)) as Hdm.
  set (i := Z.to_nat (zlen p / 4)). assert (zlen p = 4 * Z.of_nat i) as Hi by lia.
  assert (seq 0 n = seq 0 i ++ i :: seq (S i) (n - S i)) as Hseq.
  { replace n with (i + S (n - S i))%nat at 1 by lia. by rewrite seq_app. }
  assert (forall z, zlen z = 4 -> zsub (4 * Z.of_nat i) 4 (p ++ z ++ q) = z) as Hmid.
  { intros z Hz. rewrite zsub_app_r, Hi, Z.sub_diag, zsub_app_l, zsub_all by lia. done. }
  exists ((fun i => host_val (zsub (4 * Z.of_nat i) 4 (p ++ x ++ q))) <$> seq 0 i),
         ((fun i => host_val (zsub (4 * Z.of_nat i) 4 (p ++ x ++ q))) <$> seq (S i) (n - S i)).
  unfold words. rewrite Hseq, !fmap_app, !fmap_cons, !Hmid by done. split; [done|].
  f_equal; [|f_equal]; apply map_ext_in; intros j [? ?]%in_seq; f_equal.
  - by rewrite !zsub_app_l by lia.
  - rewrite !(zsub_app_r _ _ p) by lia. by rewrite !zsub_app_r, Hx, Hy by lia.
Qed.
End murmur_facts.

(** ** Properties *)

(** C38. Base64 round trip: for every byte string, [base64encode] never indexes
    outside its alphabet and produces the RFC 4648 encoding, of length
    [4 * ceil(n / 3)], and [base64decode] of it gives the bytes back. *)
Theorem base64_roundtrip (data : str) :
  zlen data < 2 ^ 61 ->
  base64encode data = Ret (b64 data) tt /\ zlen (b64 data) = 4 * ((zlen data + 2) / 3)
  /\ base64decode (b64 data) = Ret data tt.
Proof.
  intros Hl. split_and!; [by apply encode_loop_ok|apply zlen_b64|].
  unfold base64decode. pose proof (zlen_b64 data) as Hz. pose proof (zlen_nonneg data).
  apply (decode_loop_b64 data _ _ []).
  - unfold zlen in Hz. Z.to_euclidean_division_equations. lia.
  - rewrite uw_small, Hz by (unfold in_u; rewrite Hz; Z.to_euclidean_division_equations; lia).
    Z.to_euclidean_division_equations. lia.
Qed.

Lemma base64_roundtrip_witness :
  base64encode (bs "wuchat!") = Ret (bs "d3VjaGF0IQ==") tt
  /\ zlen (bs "d3VjaGF0IQ==") = 4 * ((zlen (bs "wuchat!") + 2) / 3)
  /\ base64decode (bs "d3VjaGF0IQ==") = Ret (bs "wuchat!") tt.
Proof. apply (base64_roundtrip (bs "wuchat!")). vm_compute. reflexivity. Defined.

(** Decoding untrusted base64 is safe: for every input, [base64decode]
    terminates without a store outside [result] and the result is never
    longer than the three quarters of the input it reserves. *)
Theorem base64decode_safe (src : str) :
  zlen src * 3 < 2 ^ 64 ->
  exists out, base64decode src = Ret out tt /\ zlen out <= zlen src * 3 / 4.
Proof.
  intros Hl. pose proof (zlen_nonneg src). unfold base64decode. rewrite uw_small by fits.
  destruct (decode_loop_safe (length src) src (zlen src * 3 / 4) []) as (res & E & Hr); [done| |].
  - Z.to_euclidean_division_equations. lia.
  - exists res. split; [done|]. rewrite zlen_nil in Hr.
    assert (0 <= zlen src * 3 / 4) by (apply Z.div_pos; lia). lia.
Qed.

Lemma base64decode_safe_witness :
  exists out, base64decode (bs "d3V=x") = Ret out tt /\ zlen out <= zlen (bs "d3V=x") * 3 / 4.
Proof. apply (base64decode_safe (bs "d3V=x")). vm_compute. reflexivity. Defined.

(** Hexadecimal: [data_from_hexstring] inverts [hexstring_from_data] on
    all bytes; on any input it either decodes all of it, to bytes whose
    hexadecimal form is the input in lower case, when the length is even and
    every character is a hexadecimal digit, or throws [invalid_argument]. *)
Theorem hexstring_roundtrip (data s : str) :
  data_from_hexstring (hexstring_from_data data) = Ret data tt
  /\ (if bool_decide (zlen s mod 2 = 0) && forallb isxdigit s
      then exists d, data_from_hexstring s = Ret d tt /\ hexstring_from_data d = map tolower s
      else data_from_hexstring s = Throw InvalidArgument tt).
Proof.
  split.
  - unfold data_from_hexstring. rewrite data_from_hexstring_hex.
    assert (zlen (hexstring_from_data data) = 2 * zlen data) as ->.
    { unfold hexstring_from_data. induction data as [|b data IH]; [done|]. cbn [map concat].
      rewrite zlen_app, IH, zlen_cons. change (zlen (hex_of_byte b)) with 2. lia. }
    rewrite Z.mul_comm, Z.mod_mul by lia. cbn [Z.eqb negb]. by destruct data.
  - unfold data_from_hexstring. case_bool_decide as Hl; cbn [andb].
    2: { destruct (Z.eqb_spec (zlen s mod 2) 0); done. }
    rewrite Hl. cbn [Z.eqb negb]. destruct (data_from_hexstring_loop_ok s [] Hl) as [H1 H2].
    destruct (Z.eqb_spec (zlen s) 0) as [E|E].
    { destruct s; [by exists []|]. rewrite zlen_cons in E. pose proof (zlen_nonneg s). lia. }
    destruct (forallb isxdigit s) eqn:Ef.
    + destruct H1 as (d & -> & Hd); [|by exists d]. by apply List.Forall_forall, forallb_forall.
    + apply H2. intros Hf. apply not_true_iff_false in Ef. by apply Ef, forallb_forall, List.Forall_forall.
Qed.

(** MurmurHash3 does not lose information inside a block: two inputs of
    the same length below [2^31] that differ in exactly one aligned 4-byte
    block never collide under the same seed, and one input never collides
    with itself under two seeds; no access leaves the input. *)
Theorem murmur3_no_single_block_collision `{!Platform} (p x y q : str) (seed seed' : Z) :
  zlen x = 4 -> zlen y = 4 -> zlen p mod 4 = 0 -> zlen (p ++ x ++ q) < 2 ^ 31 ->
  in_u 32 seed -> in_u 32 seed' ->
  exists h h' h'', murmur3_hash (Some (p ++ x ++ q)) (zlen (p ++ x ++ q)) seed = Some h
    /\ murmur3_hash (Some (p ++ y ++ q)) (zlen (p ++ y ++ q)) seed = Some h'
    /\ murmur3_hash (Some (p ++ x ++ q)) (zlen (p ++ x ++ q)) seed' = Some h''
    /\ (h = h' <-> x = y) /\ (h = h'' <-> seed = seed').
Proof.
  intros Hx Hy Hp Hl Hs Hs'. set (d := p ++ x ++ q) in *.
  assert (zlen (p ++ y ++ q) = zlen d) as Hlen by (unfold d; rewrite !zlen_app; lia).
  pose proof (zlen_nonneg p). pose proof (zlen_nonneg q). pose proof (Z.div_mod (zlen p) 4 ltac:(lia)).
  assert (zlen d = zlen p + 4 + zlen q) as Hd by (unfold d; rewrite !zlen_app; lia).
  pose proof (Z.div_mod (zlen d) 4 ltac:(lia)). pose proof (Z.mod_pos_bound (zlen d) 4 ltac:(lia)).
  destruct (murmur3_hash_fold d seed Hl Hs) as (t & Ht & E1 & E2).
  destruct (words_one_block p x y q (Z.to_nat (zlen d / 4)) Hx Hy Hp) as (l1 & l2 & W1 & W2); [lia|].
  do 3 eexists. split_and!; [exact E1| |by apply E2| |].
  - rewrite Hlen. apply E2; [done|]. assert (zlen p + 4 <= zlen d / 4 * 4) as Hn by lia.
    revert Hn. generalize (zlen d / 4 * 4). intros n Hn. unfold d. rewrite !app_assoc.
    rewrite !(zdrop_app_ge n) by (rewrite !zlen_app; lia). by rewrite !zlen_app, Hx, Hy.
  - split; [|intros ->; done]. intros Hh. unfold in_u in Hl.
    assert (forall sd l, in_u 32 sd -> in_u 32 (Z.lxor (Z.lxor (foldl mix_block sd l) t) (zlen d))) as Hr.
    { intros. apply in_u_lxor; [lia| |fits]. apply in_u_lxor; [lia| |done]. by apply foldl_mix_range. }
    apply fmix32_inj in Hh; [|by apply Hr..]. apply lxor_inj_l, lxor_inj_l in Hh.
    fold d in W1. rewrite W1, W2 in Hh. destruct (decide (x = y)) as [|Hn]; [done|]. exfalso. revert Hh.
    apply foldl_mix_diff; [done|..].
    + pose proof (host_val_range x) as Hv. by rewrite Hx in Hv.
    + pose proof (host_val_range y) as Hv. by rewrite Hy in Hv.
    + intros Hv%host_val_inj; [done|]. unfold zlen in *. lia.
  - split; [|intros ->; done]. intros Hh.
    assert (forall sd l, in_u 32 sd -> in_u 32 (Z.lxor (Z.lxor (foldl mix_block sd l) t) (zlen d))) as Hr.
    { intros. apply in_u_lxor; [lia| |fits]. apply in_u_lxor; [lia| |done]. by apply foldl_mix_range. }
    apply fmix32_inj in Hh; [|by apply Hr..]. apply lxor_inj_l, lxor_inj_l in Hh. by apply foldl_mix_inj in Hh.
Qed.

Lemma murmur3_no_single_block_collision_witness :
  exists h h' h'', @murmur3_hash x86_64 (Some (bs "abcdEFGHij")) 10 0 = Some h
    /\ @murmur3_hash x86_64 (Some (bs "abcdEFGhij")) 10 0 = Some h'
    /\ @murmur3_hash x86_64 (Some (bs "abcdEFGHij")) 10 1060627423 = Some h''
    /\ (h = h' <-> bs "EFGH" = bs "EFGh") /\ (h = h'' <-> 0 = 1060627423).
Proof.
  apply (@murmur3_no_single_block_collision x86_64 (bs "abcd") (bs "EFGH") (bs "EFGh") (bs "ij") 0 1060627423);
    vm_compute; try reflexivity; split; congruence.
Defined.

(** [hmac] is RFC 2104: with [H] the digest of the documented
    Init/Update/Final interface and [K] the key, hashed when longer than a
    block and padded with zeros to one block, the result is
    [H((K xor opad) ++ H((K xor ipad) ++ text))], for any text and key. *)
Theorem hmac_is_rfc2104 `{D : Digest, !DigestLaws D} (text key : str) :
  let H := sum in
  let K0 := if CBLOCK <? zlen key then H key else key in
  let K := K0 ++ replicate (Z.to_nat (CBLOCK - zlen K0)) Byte.x00 in
  zlen K = CBLOCK
  /\ hmac text key = H (map (xorStruct 0x5c) K ++ H (map (xorStruct 0x36) K ++ text)).
Proof.
  intros H K0 K. destruct digest_block as [Hl Hb]. assert (zlen K = CBLOCK) as HK.
  { unfold K, zlen. rewrite length_app, length_replicate. fold (zlen K0). assert (zlen K0 <= CBLOCK).
    - unfold K0. destruct (Z.ltb_spec CBLOCK (zlen key)); [|done]. unfold H, sum. rewrite Final_length. lia.
    - unfold zlen in *. lia. }
  split; [done|]. unfold hmac. fold (sum key). fold H. fold K0. fold K.
  assert (forall v, ztake CBLOCK (map (xorStruct v) K) = map (xorStruct v) K) as Hp.
  { intros v. apply ztake_all. unfold zlen in *. rewrite length_map. lia. }
  rewrite !Hp, (ztake_all DIGEST_LENGTH) by (rewrite Final_length; lia). by rewrite !Update_app.
Qed.

(** A digest for the interface: the xor of the bytes, repeated. *)
Definition toy_digest : Digest :=
  {| CTX := byte; Init := Byte.x00; Update c s := foldl (fun c x => xorStruct (b2z x) c) c s;
     Final c := [c; c]; CBLOCK := 4; DIGEST_LENGTH := 2 |}.

#[export] Instance toy_digest_laws : DigestLaws toy_digest.
Proof. split; [intros; simpl; by rewrite foldl_app|done|simpl; lia]. Qed.

Lemma hmac_is_rfc2104_witness :
  zlen (bs "key" ++ [Byte.x00]) = 4
  /\ @hmac toy_digest (bs "text") (bs "key")
     = @sum toy_digest (map (xorStruct 0x5c) (bs "key" ++ [Byte.x00])
         ++ @sum toy_digest (map (xorStruct 0x36) (bs "key" ++ [Byte.x00]) ++ bs "text")).
Proof. exact (@hmac_is_rfc2104 toy_digest toy_digest_laws (bs "text") (bs "key")). Defined.

(** [split] (both overloads) cuts a non-empty string exactly at the
    delimiters: the pieces with delimiters between them are the string, there
    are at most [max] of them, no piece but the last contains a delimiter,
    and the last contains one only when the limit was reached. *)
Theorem split_cuts_at_delimiters (P : byte -> bool) (s : str) (max : Z) :
  s <> [] -> 2 <= max < 2 ^ 64 ->
  exists ps, split_if P s max = Ret ps tt /\ is_split P max s ps.
Proof.
  intros Hs Hm. unfold split_if. rewrite bool_decide_false by done.
  apply (split_loop_ok (length s) P s 0 max []); [|unfold zlen; lia|done]. pose proof (zlen_nonneg s). lia.
Qed.

Lemma split_cuts_at_delimiters_witness :
  exists ps, split (bs "a,b,,c") (z2b 44) 3 = Ret ps tt /\ is_split (eqb_char (z2b 44)) 3 (bs "a,b,,c") ps.
Proof. apply (split_cuts_at_delimiters (eqb_char (z2b 44)) (bs "a,b,,c") 3); [done|lia]. Defined.

(** [replace]: the overloads for a character terminate and substitute
    every occurrence of it, and nothing else; the overload for a non-empty
    string terminates and replaces exactly the leftmost non-overlapping
    occurrences, never looking into what it inserted. *)
Theorem replace_substitutes (s f r : str) (c x : byte) :
  f <> [] ->
  replace_cc s c x = Ret (map (fun b => if decide (b = c) then x else b) s) tt
  /\ replace_cs s c r = Ret (concat (map (subst_char c r) s)) tt
  /\ exists ps, replace_ss (length s) s f r = Ret (join r ps) tt /\ cut_at f s ps.
Proof.
  intros Hf. split_and!.
  - unfold replace_cc. rewrite replace_cc_loop_cs.
    + etransitivity; [by apply (replace_cs_loop_ok (length s) c [x] [] s)|]. f_equal. cbn [app].
      clear. induction s as [|b s IH]; [done|]. cbn [map concat]. rewrite IH. unfold subst_char. by case_decide.
    + intros i Hi. apply find_if_from_some in Hi as [? _]; [lia|]. pose proof (zlen_nonneg s). lia.
  - by apply (replace_cs_loop_ok (length s) c r [] s).
  - by apply (replace_ss_loop_ok (length s) f r [] s).
Qed.

Lemma replace_substitutes_witness :
  replace_cc (bs "a-b-c") (z2b 45) (z2b 43) = Ret (bs "a+b+c") tt
  /\ replace_cs (bs "a-b-c") (z2b 45) (bs "--") = Ret (bs "a--b--c") tt
  /\ exists ps, replace_ss 5 (bs "a-b-c") (bs "-b") (bs "-bb") = Ret (join (bs "-bb") ps) tt
       /\ cut_at (bs "-b") (bs "a-b-c") ps.
Proof.
  destruct (replace_substitutes (bs "a-b-c") (bs "-b") (bs "-bb") (z2b 45) (z2b 43)) as (H1 & _ & H3); [done|].
  destruct (replace_substitutes (bs "a-b-c") (bs "-b") (bs "--") (z2b 45) (z2b 43)) as (_ & H2 & _); [done|].
  split_and!; [exact H1|exact H2|exact H3].
Defined.

(** *** Behaviour outside those conditions *)

(** Replacing the empty string never ends: every amount of fuel is used up. *)
Theorem replace_empty_diverges (fuel : nat) (s r : str) : replace_ss fuel s [] r = NoFuel.
Proof.
  assert (forall s pos, 0 <= pos <= zlen s -> find_str_from [] s pos = Some pos) as Hf.
  { intros l pos Hp. unfold find_str_from. destruct (Z.ltb_spec (zlen l) pos); [lia|].
    assert (find_str [] (zdrop pos l) = Some 0) as -> by (by destruct (zdrop pos l)). simpl. f_equal. lia. }
  pose proof (zlen_nonneg s). unfold replace_ss. rewrite Hf by lia.
  assert (forall pos s, 0 <= pos <= zlen s -> replace_ss_loop fuel [] r (Some pos) s = NoFuel) as Hl; [|apply Hl; lia].
  induction fuel as [|fuel IH]; intros pos l Hp; [done|]. cbn [replace_ss_loop]. unfold substr, substr_to_end.
  pose proof (zlen_nonneg r). set (l' := _ ++ _ ++ _).
  assert (zlen l' = zlen l + zlen r).
  { unfold l'. change (zlen []) with 0. rewrite Z.add_0_r, !zlen_app, zlen_zsub, zlen_zdrop by lia. lia. }
  rewrite Hf by lia. apply IH. lia.
Qed.

(** [split] with a limit of one piece is not limited: [--max] wraps. *)
Theorem split_max_one_is_unlimited :
  split (bs "a,b,c") (z2b 44) 1 = Ret [bs "a"; bs "b"; bs "c"] tt.
Proof. vm_compute. reflexivity. Qed.

(** The sized [quick_hash] only depends on the first byte and the size. *)
Theorem quick_hash_data_ignores_tail (c : byte) (a b : str) (size : Z) :
  quick_hash_data (c :: a) size = quick_hash_data (c :: b) size.
Proof. done. Qed.

(** [random_string] can contain a NUL, the terminator of [CHARS]. *)
Theorem random_string_may_emit_nul : random_string 1 [62] = Some [Byte.x00].
Proof. reflexivity. Qed.

End HashUtil.
