(* ===== verification/Ext.v ===== *)
(** * [luwu/luwu/ext.cpp]: [StringUtil], [TypeUtil] and the path functions of
    [FSUtil]

    URL encoding with its character tables, trimming, number conversion, and
    the directory operations over an abstract file system. *)
From S2P Require Import Prelude StdString.
Import StdString.
Local Open Scope Z_scope.

Module Ext.

(** ** URL encoding *)
Definition uri_chars : list Z :=
  [0; 0; 0; 0; 0; 0; 0; 0;   0; 0; 0; 0; 0; 0; 0; 0;
   0; 0; 0; 0; 0; 0; 0; 0;   0; 0; 0; 0; 0; 0; 0; 0;
   0; 0; 0; 0; 0; 0; 0; 0;   0; 0; 0; 0; 0; 1; 1; 0;
   1; 1; 1; 1; 1; 1; 1; 1;   1; 1; 0; 0; 0; 1; 0; 0;
   0; 1; 1; 1; 1; 1; 1; 1;   1; 1; 1; 1; 1; 1; 1; 1;
   1; 1; 1; 1; 1; 1; 1; 1;   1; 1; 1; 0; 0; 0; 0; 1;
   0; 1; 1; 1; 1; 1; 1; 1;   1; 1; 1; 1; 1; 1; 1; 1;
   1; 1; 1; 1; 1; 1; 1; 1;   1; 1; 1; 0; 0; 0; 1; 0] ++ replicate 128 0.

Definition xdigit_chars : list Z :=
  replicate 48 0
  ++ [0; 1; 2; 3; 4; 5; 6; 7; 8; 9; 0; 0; 0; 0; 0; 0]
  ++ [0; 10; 11; 12; 13; 14; 15; 0; 0; 0; 0; 0; 0; 0; 0; 0]
  ++ replicate 16 0
  ++ [0; 10; 11; 12; 13; 14; 15; 0; 0; 0; 0; 0; 0; 0; 0; 0]
  ++ replicate 144 0.

Definition CHAR_IS_UNRESERVED (c : byte) : bool :=
  negb (default 0 (uri_chars !! Z.to_nat (b2z c)) =? 0).

Definition hexdigits : str := bs "0123456789ABCDEF".
Definition hexdigit_at (i : Z) : byte := default Byte.x00 (hexdigits !! Z.to_nat i).

(** What is appended for a reserved character. *)
Definition escape (c : byte) (space_as_plus : bool) : str :=
  if (b2z c =? 32) && space_as_plus then [z2b 43]
  else [z2b 37; hexdigit_at (Z.shiftr (b2z c) 4); hexdigit_at (Z.land (b2z c) 0xf)].

(** The loop of [UrlEncode]: [pre] is what [c] has passed; [ss] is allocated,
    with a copy of [pre], at the first reserved character. *)
Fixpoint UrlEncode_loop (space_as_plus : bool) (pre rest : str) (ss : option str) : option str :=
  match rest with
  | [] => ss
  | c :: rest =>
      let ss :=
        if negb (CHAR_IS_UNRESERVED c) then Some (default pre ss ++ escape c space_as_plus)
        else (fun s => s ++ [c]) <$> ss in
      UrlEncode_loop space_as_plus (pre ++ [c]) rest ss
  end.
Definition UrlEncode (s : str) (space_as_plus : bool) : str :=
  default s (UrlEncode_loop space_as_plus [] s None).

Definition xdigit_at (c : byte) : Z := default 0 (xdigit_chars !! Z.to_nat (b2sz c)).

(** The loop of [UrlDecode]; [(c + 2) < end] is that two characters follow. *)
Fixpoint UrlDecode_loop (space_as_plus : bool) (pre rest : str) (ss : option str) : option str :=
  match rest with
  | [] => ss
  | c :: rest =>
      let plain := UrlDecode_loop space_as_plus (pre ++ [c]) rest ((fun s => s ++ [c]) <$> ss) in
      if (b2z c =? 43) && space_as_plus then
        UrlDecode_loop space_as_plus (pre ++ [c]) rest (Some (default pre ss ++ [z2b 32]))
      else if b2z c =? 37 then
        match rest with
        | a :: b :: rest' =>
            if isxdigit a && isxdigit b then
              UrlDecode_loop space_as_plus (pre ++ [c; a; b]) rest'
                (Some (default pre ss ++ [z2b (Z.lor (Z.shiftl (xdigit_at a) 4) (xdigit_at b))]))
            else plain
        | _ => plain
        end
      else plain
  end.
Definition UrlDecode (s : str) (space_as_plus : bool) : str :=
  default s (UrlDecode_loop space_as_plus [] s None).

(** ** Trimming *)
Definition Trim (s delimit : str) : str :=
  match find_first_not_of delimit s, find_last_not_of delimit s with
  | None, _ => []
  | Some b, Some e => substr s b (e - b + 1)
  | Some b, None => substr_to_end s b
  end.
Definition TrimLeft (s delimit : str) : str :=
  match find_first_not_of delimit s with None => [] | Some b => substr_to_end s b end.
Definition TrimRight (s delimit : str) : str :=
  match find_last_not_of delimit s with None => [] | Some e => substr s 0 e end.

(** ** Paths *)
Definition slash : byte := z2b 47.
Definition Dirname (filename : str) : str :=
  if bool_decide (filename = []) then bs "." else
  match rfind slash filename with
  | Some pos => if pos =? 0 then bs "/" else substr filename 0 pos
  | None => bs "."
  end.
Definition Basename (filename : str) : str :=
  if bool_decide (filename = []) then filename else
  match rfind slash filename with
  | None => filename
  | Some pos => substr_to_end filename (pos + 1)
  end.

(** ** Numbers *)
Definition ToChar (s : str) : Z := match s with [] => 0 | c :: _ => b2sz c end.
Definition Atoi (s : str) : Z := if bool_decide (s = []) then 0 else s64 (strtoull s).
(** The overloads for a C string; [None] is the null pointer. *)
Definition ToChar_cstr (s : option str) : Z :=
  match s with None => 0 | Some [] => 0 | Some (c :: _) => b2sz c end.
Definition Atoi_cstr (s : option str) : Z := match s with None => 0 | Some s => s64 (strtoull s) end.

(** ** The file system

    The system calls are parameters of the model: [fs] is the state of the
    file system, a call returns whether it succeeded. *)
Inductive dtype := DT_DIR | DT_REG | DT_OTHER.

Class FileSystem := {
  fs : Type;
  sys_exists : str -> fs -> bool;                  (* lstat / access(F_OK) *)
  sys_is_dir : str -> fs -> bool;                  (* S_IFDIR *)
  sys_mkdir : str -> fs -> bool * fs;
  sys_unlink : str -> fs -> bool * fs;
  sys_rmdir : str -> fs -> bool * fs;
  sys_rename : str -> str -> fs -> bool * fs;
  sys_symlink : str -> str -> fs -> bool * fs;
  sys_realpath : str -> fs -> option str;
  sys_readdir : str -> fs -> option (list (dtype * str));
  sys_open_write : str -> fs -> bool * fs;
  sys_getline : str -> fs -> option str;           (* the first line of a file *)
  sys_kill0 : Z -> fs -> bool;                     (* kill(pid, 0) == 0 *)
}.

Section FSUtil.
Context `{FS : !FileSystem}.

Definition lstat_ok (file : str) (f : fs) : bool := sys_exists file f.

Definition mkdir_if_absent (dirname : str) (f : fs) : bool * fs :=
  if sys_exists dirname f then (true, f) else sys_mkdir dirname f.

(** The [for] loop of [Mkdir]: [ptr] is the position of the slash that is
    overwritten; the answer says whether the loop was left by [break]. *)
Fixpoint Mkdir_loop (fuel : nat) (path : str) (ptr : option Z) (f : fs) : outcome fs bool :=
  match ptr with
  | None => Ret false f
  | Some p =>
      match fuel with
      | O => NoFuel
      | S fuel =>
          let '(ok, f) := mkdir_if_absent (ztake p path) f in
          if ok then Mkdir_loop fuel path (find slash path (p + 1)) f else Ret true f
      end
  end.

Definition Mkdir (dirname : str) (f : fs) : outcome fs bool :=
  let path := c_str dirname in
  if lstat_ok path f then Ret true f
  else if bool_decide (path = []) then UB (* strchr(path + 1, ...) behind the terminator *)
  else
    let* broken, f := Mkdir_loop (length path) path (find slash path 1) f in
    if broken : bool then Ret false f
    else let '(ok, f) := mkdir_if_absent path f in Ret ok f.

Definition Unlink (filename : str) (exist : bool) (f : fs) : bool * fs :=
  if negb exist && negb (lstat_ok filename f) then (true, f) else sys_unlink filename f.

(** [Rm] recurses into directories; [fuel] bounds their depth. *)
Fixpoint Rm (fuel : nat) (path : str) (f : fs) : outcome fs bool :=
  if negb (lstat_ok path f) then Ret true f
  else if negb (sys_is_dir path f) then let '(ok, f) := Unlink path false f in Ret ok f
  else match sys_readdir path f with
       | None => Ret false f
       | Some entries =>
           match fuel with
           | O => NoFuel
           | S fuel =>
               let names := filter (fun n => n <> bs "." /\ n <> bs "..") (snd <$> entries) in
               let* ret, f := foldl (fun o n => let* _, f := o in Rm fuel (path ++ bs "/" ++ n) f)
                                (Ret true f) names in
               let '(ok, f) := sys_rmdir path f in
               Ret (ret && ok) f
           end
       end.

Definition Mv (fuel : nat) (from to : str) (f : fs) : outcome fs bool :=
  let* ok, f := Rm fuel to f in
  if ok : bool then let '(ok, f) := sys_rename from to f in Ret ok f else Ret false f.

Definition Symlink (fuel : nat) (from to : str) (f : fs) : outcome fs bool :=
  let* ok, f := Rm fuel to f in
  if ok : bool then let '(ok, f) := sys_symlink from to f in Ret ok f else Ret false f.

Definition Realpath (path : str) (f : fs) : option str :=
  if lstat_ok path f then sys_realpath path f else None.

(** [ListAllFile]: regular files below [path] with the suffix. *)
Definition has_suffix (filename subfix : str) : bool :=
  bool_decide (subfix = []) ||
  (negb (zlen filename <? zlen subfix)
   && bool_decide (zdrop (zlen filename - zlen subfix) filename = subfix)).

Fixpoint ListAllFile (fuel : nat) (files : list str) (path subfix : str) (f : fs) : outcome fs (list str) :=
  if negb (sys_exists path f) then Ret files f
  else match sys_readdir path f with
       | None => Ret files f
       | Some entries =>
           match fuel with
           | O => NoFuel
           | S fuel =>
               foldl (fun o '(d_type, name) => let* files, f := o in
                 match d_type with
                 | DT_DIR =>
                     if bool_decide (name = bs "." \/ name = bs "..") then Ret files f
                     else ListAllFile fuel files (path ++ bs "/" ++ name) subfix f
                 | DT_REG =>
                     if has_suffix name subfix then Ret (files ++ [path ++ bs "/" ++ name]) f else Ret files f
                 | DT_OTHER => Ret files f
                 end)
               (Ret files f) entries
           end
       end.

Definition IsRunningPidfile (pidfile : str) (f : fs) : bool :=
  if negb (lstat_ok pidfile f) then false else
  match sys_getline pidfile f with
  | None => false
  | Some line =>
      if bool_decide (line = []) then false
      else let pid := atoi line in
           if pid <=? 1 then false else sys_kill0 pid f
  end.

(** [OpenForWrite]: a second attempt after creating the directory. *)
Definition OpenForWrite (filename : str) (f : fs) : outcome fs bool :=
  let '(ok, f) := sys_open_write filename f in
  if ok then Ret true f
  else let* _, f := Mkdir (Dirname filename) f in
       let '(ok, f) := sys_open_write filename f in Ret ok f.

(** *** [Mkdir]: documented behaviour of the calls it makes *)
Class MkdirLaws := {
  mkdir_creates p f f' : sys_mkdir p f = (true, f') -> sys_exists p f' = true;
  mkdir_keeps p q f ok f' : sys_mkdir p f = (ok, f') -> sys_exists q f = true -> sys_exists q f' = true;
}.
Context `{ML : !MkdirLaws}.

Lemma mkdir_if_absent_ok p f ok f' :
  mkdir_if_absent p f = (ok, f') ->
  (ok = true -> sys_exists p f' = true) /\ (forall q, sys_exists q f = true -> sys_exists q f' = true).
Proof.
  unfold mkdir_if_absent. destruct (sys_exists p f) eqn:E.
  - intros [= <- <-]. done.
  - intros H. split; [|intros q; by eapply mkdir_keeps].
    intros ->. by eapply mkdir_creates.
Qed.

(** The slashes of [path] at or behind [from]. *)
Definition slash_at (path : str) (from i : Z) : Prop := from <= i < zlen path /\ path !! Z.to_nat i = Some slash.

Lemma Mkdir_loop_ok fuel path from f :
  0 <= from <= zlen path -> zlen path - from <= Z.of_nat fuel ->
  exists broken f', Mkdir_loop fuel path (find slash path from) f = Ret broken f'
    /\ (forall q, sys_exists q f = true -> sys_exists q f' = true)
    /\ (broken = false -> forall i, slash_at path from i -> sys_exists (ztake i path) f' = true).
Proof.
  revert from f. induction fuel as [|fuel IH]; intros from f Hfrom Hf.
  all: destruct (find slash path from) as [p|] eqn:E.
  2, 4: exists false, f; split_and!; [done|done|]; intros _ i [Hi Hs]; unfold find, find_if_from in E;
    destruct (find_if _ _) eqn:En in E; [done|]; apply find_if_none in En; rewrite Forall_lookup in En;
    specialize (En (Z.to_nat i - Z.to_nat from)%nat slash); unfold zdrop in En; rewrite lookup_drop in En;
    replace (Z.to_nat from + (Z.to_nat i - Z.to_nat from))%nat with (Z.to_nat i) in En by lia;
    specialize (En Hs); unfold eqb_char in En; by rewrite bool_decide_true in En.
  all: apply find_if_from_some in E as (Hp & x & Es & Hx & Hfree); [|done].
  { lia. }
  cbn [Mkdir_loop]. destruct (mkdir_if_absent (ztake p path) f) as [ok f1] eqn:E1.
  destruct (mkdir_if_absent_ok _ _ _ _ E1) as [Hok Hk]. destruct ok; [|by exists true, f1].
  destruct (IH (p + 1) f1) as (broken & f2 & -> & Hk2 & Hall); [lia..|].
  exists broken, f2. split_and!; [done|by auto|]. intros Hb i [Hi Hs].
  destruct (Z.eq_dec i p) as [->|Hne]; [by apply Hk2, Hok|].
  destruct (Z.lt_ge_cases i p); [|apply Hall; [done|split; [lia|done]]].
  rewrite Forall_lookup in Hfree. specialize (Hfree (Z.to_nat i - Z.to_nat from)%nat slash).
  unfold zsub, ztake, zdrop in Hfree. rewrite lookup_take_lt, lookup_drop in Hfree by lia.
  replace (Z.to_nat from + (Z.to_nat i - Z.to_nat from))%nat with (Z.to_nat i) in Hfree by lia.
  specialize (Hfree Hs). unfold eqb_char in Hfree. by rewrite bool_decide_true in Hfree.
Qed.
End FSUtil.

(** ** URL encoding: reference definitions *)
Definition enc1 (sp : bool) (c : byte) : str := if CHAR_IS_UNRESERVED c then [c] else escape c sp.

Fixpoint url_decode (sp : bool) (s : str) : str :=
  match s with
  | [] => []
  | c :: rest =>
      if (b2z c =? 43) && sp then z2b 32 :: url_decode sp rest
      else if b2z c =? 37 then
        match rest with
        | a :: b :: rest' =>
            if isxdigit a && isxdigit b
            then z2b (Z.lor (Z.shiftl (xdigit_at a) 4) (xdigit_at b)) :: url_decode sp rest'
            else c :: url_decode sp rest
        | _ => c :: url_decode sp rest
        end
      else c :: url_decode sp rest
  end.

Lemma UrlEncode_loop_ok sp pre rest ss :
  default (pre ++ rest) (UrlEncode_loop sp pre rest ss) = default pre ss ++ concat (map (enc1 sp) rest).
Proof.
  revert pre ss. induction rest as [|c rest IH]; intros pre ss.
  - simpl. rewrite !app_nil_r. done.
  - cbn [UrlEncode_loop map concat]. specialize (IH (pre ++ [c])). rewrite <- app_assoc in IH. simpl in IH.
    unfold enc1 at 1. rewrite IH. destruct (CHAR_IS_UNRESERVED c); cbn [negb].
    + destruct ss; simpl; by rewrite <- !app_assoc.
    + destruct ss; simpl; by rewrite <- !app_assoc.
Qed.

Lemma UrlDecode_loop_ok sp n pre rest ss :
  (length rest <= n)%nat ->
  default (pre ++ rest) (UrlDecode_loop sp pre rest ss) = default pre ss ++ url_decode sp rest.
Proof.
  revert pre rest ss. induction n as [|n IH]; intros pre rest ss Hn.
  { destruct rest; simpl in *; [by rewrite !app_nil_r|lia]. }
  destruct rest as [|c rest]; [simpl; by rewrite !app_nil_r|]. simpl in Hn.
  assert (forall ss, default (pre ++ c :: rest) (UrlDecode_loop sp (pre ++ [c]) rest ss)
    = default (pre ++ [c]) ss ++ url_decode sp rest) as Hc.
  { intros x. rewrite <- IH by lia. by rewrite <- app_assoc. }
  assert (default (pre ++ c :: rest) (UrlDecode_loop sp (pre ++ [c]) rest ((fun s => s ++ [c]) <$> ss))
    = default pre ss ++ c :: url_decode sp rest) as Hp.
  { rewrite Hc. destruct ss; simpl; by rewrite <- app_assoc. }
  cbn [UrlDecode_loop url_decode]. destruct ((b2z c =? 43) && sp).
  { rewrite Hc. simpl. by rewrite <- app_assoc. }
  destruct (b2z c =? 37); [|done]. destruct rest as [|a [|b rest']]; [done|done|].
  destruct (isxdigit a && isxdigit b); [|done].
  simpl in Hn. transitivity (default ((pre ++ [c; a; b]) ++ rest') (UrlDecode_loop sp (pre ++ [c; a; b]) rest'
    (Some (default pre ss ++ [z2b (Z.lor (Z.shiftl (xdigit_at a) 4) (xdigit_at b))])))).
  - by rewrite <- app_assoc.
  - rewrite IH by lia. simpl. by rewrite <- app_assoc.
Qed.

Lemma UrlEncode_eq s sp : UrlEncode s sp = concat (map (enc1 sp) s).
Proof. apply (UrlEncode_loop_ok sp [] s None). Qed.
Lemma UrlDecode_eq s sp : UrlDecode s sp = url_decode sp s.
Proof. by apply (UrlDecode_loop_ok sp (length s) [] s None). Qed.

(** Each encoded character decodes to itself, whatever follows. *)
Lemma url_decode_enc1 esp dsp c r :
  (esp = true -> dsp = true) -> url_decode dsp (enc1 esp c ++ r) = c :: url_decode dsp r.
Proof.
  intros Hsp. unfold enc1. destruct (CHAR_IS_UNRESERVED c) eqn:Eu.
  - assert (forallb (fun c => negb (CHAR_IS_UNRESERVED c) || (negb (b2z c =? 43) && negb (b2z c =? 37))) all_bytes = true)
      as H by (vm_compute; reflexivity).
    pose proof (byte_forall _ H c) as Hc. simpl in Hc. rewrite Eu in Hc. simpl in Hc.
    apply andb_true_iff in Hc as [H1%negb_true_iff H2%negb_true_iff]. cbn [app url_decode]. by rewrite H1, H2.
  - unfold escape. destruct ((b2z c =? 32) && esp) eqn:Es.
    + apply andb_true_iff in Es as [Es%Z.eqb_eq Ht]. rewrite Hsp by done. simpl. f_equal.
      apply b2z_inj. by rewrite Es.
    + assert (forallb (fun c => let a := hexdigit_at (Z.shiftr (b2z c) 4) in let b := hexdigit_at (Z.land (b2z c) 0xf) in
        isxdigit a && isxdigit b && bool_decide (z2b (Z.lor (Z.shiftl (xdigit_at a) 4) (xdigit_at b)) = c)) all_bytes = true)
        as H by (vm_compute; reflexivity).
      pose proof (byte_forall _ H c) as Hc. cbv zeta in Hc.
      rewrite !andb_true_iff, bool_decide_eq_true in Hc. destruct Hc as [[Ha Hb] Hv].
      cbn [app url_decode]. change (b2z (z2b 37) =? 43) with false. change (b2z (z2b 37) =? 37) with true.
      cbn [andb]. by rewrite Ha, Hb, Hv.
Qed.

(** ** Properties *)

(** URL round trip: for every byte string, decoding what [UrlEncode]
    produced gives it back, when the decoder treats [+] as the encoder did
    (or decodes [+] although the encoder did not use it); the encoded string
    consists of unreserved characters, [%], [+] and upper-case hexadecimal
    digits only. *)
Theorem url_roundtrip (s : str) (esp dsp : bool) :
  (esp = true -> dsp = true) ->
  UrlDecode (UrlEncode s esp) dsp = s
  /\ Forall (fun c => CHAR_IS_UNRESERVED c = true \/ c = z2b 37 \/ c = z2b 43) (UrlEncode s esp).
Proof.
  intros Hsp. rewrite UrlDecode_eq, UrlEncode_eq. split.
  - induction s as [|c s IH]; [done|]. cbn [map concat]. rewrite url_decode_enc1 by done. by rewrite IH.
  - apply Forall_concat, Forall_map, Forall_true. intros c. unfold enc1.
    destruct (CHAR_IS_UNRESERVED c) eqn:Eu; [by constructor; [left|]|]. unfold escape.
    destruct (_ && esp); [constructor; [by right; right|done]|].
    assert (forallb (fun c => CHAR_IS_UNRESERVED (hexdigit_at (Z.shiftr (b2z c) 4))
      && CHAR_IS_UNRESERVED (hexdigit_at (Z.land (b2z c) 0xf))) all_bytes = true) as H by (vm_compute; reflexivity).
    pose proof (byte_forall _ H c) as [Ha Hb]%andb_true_iff.
    constructor; [by right; left|]. constructor; [by left|]. constructor; [by left|done].
Qed.

Lemma url_roundtrip_witness :
  UrlDecode (UrlEncode (bs "a b+c/100%") true) true = bs "a b+c/100%"
  /\ Forall (fun c => CHAR_IS_UNRESERVED c = true \/ c = z2b 37 \/ c = z2b 43) (UrlEncode (bs "a b+c/100%") true).
Proof. apply (url_roundtrip (bs "a b+c/100%") true true). done. Defined.

(** The two ends found by [find_first_not_of] and [find_last_not_of]. *)
Lemma not_delim (P : byte -> bool) s b :
  find_if P s = Some b ->
  exists a m q e, s = a ++ m ++ q /\ zlen a = b /\ rfind_if P s = Some e /\ zlen m = e - b + 1
    /\ Forall (fun c => P c = false) (a ++ q)
    /\ m <> [] /\ (forall c, head m = Some c -> P c = true) /\ (forall c, last m = Some c -> P c = true).
Proof.
  intros (a & x & r & Hs & Ha & Hx & Hfa)%find_if_some. destruct (rfind_if P s) as [e|] eqn:Ee.
  2: { apply rfind_if_none in Ee. rewrite Hs, Forall_app, Forall_cons in Ee. destruct Ee as (_ & ? & _). congruence. }
  apply rfind_if_some in Ee as (p & y & q & Hs' & He & Hy & Hfq).
  assert (exists k, p = a ++ k /\ x :: r = k ++ y :: q) as (k & -> & Hk).
  { rewrite Hs in Hs'. apply app_eq_inv in Hs' as [(k & -> & Hk)|(k & Hp & Hk)]; [|by exists k].
    destruct k as [|z k]; [exists []; by rewrite !app_nil_r|]. injection Hk as -> _.
    rewrite Forall_app, Forall_cons in Hfa. destruct Hfa as (_ & ? & _). congruence. }
  exists a, (k ++ [y]), q, e. rewrite zlen_app in He. split_and!; try done.
  - by rewrite Hs', <- !app_assoc.
  - rewrite zlen_app. change (zlen [y]) with 1. lia.
  - by apply Forall_app.
  - by destruct k.
  - destruct k as [|z k]; simpl in *; intros c [= <-]; [done|]. by injection Hk as <- _.
  - intros c. rewrite last_snoc. by intros [= <-].
Qed.

Lemma not_one_of (delimit : str) c : negb (one_of delimit c) = true <-> c ∉ delimit.
Proof. unfold one_of. by rewrite negb_true_iff, bool_decide_eq_false. Qed.
Lemma is_one_of (delimit : str) s :
  Forall (fun c => negb (one_of delimit c) = false) s -> Forall (fun c => c ∈ delimit) s.
Proof.
  intros H. eapply Forall_impl; [exact H|]. intros c. unfold one_of. by rewrite negb_false_iff, bool_decide_eq_true.
Qed.

(** [Trim] and [TrimLeft] remove exactly the delimiters at the ends: the
    string is delimiters, the result, delimiters (for [TrimLeft] nothing
    behind), and the result is empty or starts (and for [Trim] ends) with a
    character that is no delimiter. *)
Theorem trim_removes_delimiters (s delimit : str) :
  (exists a b, s = a ++ Trim s delimit ++ b /\ Forall (fun c => c ∈ delimit) (a ++ b)
    /\ (forall c, head (Trim s delimit) = Some c -> c ∉ delimit)
    /\ (forall c, last (Trim s delimit) = Some c -> c ∉ delimit))
  /\ exists a, s = a ++ TrimLeft s delimit /\ Forall (fun c => c ∈ delimit) a
    /\ (forall c, head (TrimLeft s delimit) = Some c -> c ∉ delimit).
Proof.
  unfold Trim, TrimLeft, find_first_not_of, find_last_not_of.
  destruct (find_if _ s) as [b|] eqn:E.
  - destruct (not_delim _ _ _ E) as (a & m & q & e & Hs & Ha & -> & Hm & Hf & Hn & Hh & Hl).
    apply is_one_of in Hf. pose proof (zlen_nonneg a). pose proof (zlen_nonneg m).
    assert (substr s b (e - b + 1) = m) as ->.
    { unfold substr. rewrite Hs, zsub_app_r, Ha, Z.sub_diag, zsub_app_l, zsub_all by lia. done. }
    assert (substr_to_end s b = m ++ q) as ->.
    { unfold substr_to_end. by rewrite Hs, zdrop_app_ge, Ha, Z.sub_diag by lia. }
    split; [exists a, q|exists a].
    + split_and!; try done; intros c Hc; apply not_one_of; auto.
    + split_and!; [done|by apply Forall_app in Hf as [? _]|]. intros c Hc. apply not_one_of, Hh.
      by destruct m.
  - apply find_if_none, is_one_of in E. split; [exists s, []|exists s]; rewrite !app_nil_r; split_and!; done.
Qed.

Lemma Trim_example : Trim (bs "  hi there ") (bs " ") = bs "hi there".
Proof. reflexivity. Qed.

(** Path round trip: for a path that contains a slash not at its start
    only, directory, slash and base name recombine to the path, and the base
    name contains no slash; a path without slash is its own base name in the
    directory [.]. *)
Theorem dirname_basename_recombine (filename : str) :
  filename <> [] ->
  Forall (fun c => c <> slash) (Basename filename) /\
  ((filename = Basename filename /\ Dirname filename = bs ".")
   \/ (filename = slash :: Basename filename /\ Dirname filename = bs "/")
   \/ filename = Dirname filename ++ [slash] ++ Basename filename).
Proof.
  intros Hne. unfold Basename, Dirname. rewrite bool_decide_false by done. unfold rfind.
  destruct (rfind_if _ filename) as [pos|] eqn:E.
  - apply rfind_if_some in E as (a & x & b & -> & Hl & Hx & Hf). apply bool_decide_eq_true in Hx as ->.
    pose proof (zlen_nonneg a).
    assert (substr_to_end (a ++ slash :: b) (pos + 1) = b) as ->.
    { unfold substr_to_end. rewrite zdrop_app_ge by lia. by replace (pos + 1 - zlen a) with 1 by lia. }
    split; [eapply Forall_impl; [done|]; intros c Hc; by apply bool_decide_eq_false in Hc|]. right.
    destruct (Z.eqb_spec pos 0) as [E|E].
    + left. destruct a; [done|]. rewrite zlen_cons in Hl. pose proof (zlen_nonneg a). lia.
    + right. unfold substr, zsub. rewrite zdrop_0, ztake_app_le, ztake_all by lia. done.
  - apply rfind_if_none in E. split; [|by left]. eapply Forall_impl; [done|].
    intros c Hc. by apply bool_decide_eq_false in Hc.
Qed.

Lemma dirname_basename_recombine_witness :
  Forall (fun c => c <> slash) (Basename (bs "/var/log/luwu.log")) /\
  ((bs "/var/log/luwu.log" = Basename (bs "/var/log/luwu.log") /\ Dirname (bs "/var/log/luwu.log") = bs ".")
   \/ (bs "/var/log/luwu.log" = slash :: Basename (bs "/var/log/luwu.log") /\ Dirname (bs "/var/log/luwu.log") = bs "/")
   \/ bs "/var/log/luwu.log" = Dirname (bs "/var/log/luwu.log") ++ [slash] ++ Basename (bs "/var/log/luwu.log")).
Proof. apply (dirname_basename_recombine (bs "/var/log/luwu.log")). done. Defined.

(** [TypeUtil::Atoi] inverts decimal printing on all of [int64_t],
    although it converts through the unsigned [strtoull]. *)
Theorem atoi_to_string (n : Z) : in_s 64 n -> Atoi (to_string n) = n.
Proof.
  intros Hn. unfold Atoi. rewrite bool_decide_false; [by apply strtoull_to_string|].
  unfold to_string. destruct (n <? 0); [done|apply dec_nonempty].
Qed.

Lemma atoi_to_string_witness : in_s 64 (-9223372036854775808) /\ Atoi (to_string (-9223372036854775808)) = -9223372036854775808.
Proof.
  assert (in_s 64 (-9223372036854775808)) as H by (vm_compute; split; congruence).
  split; [exact H|exact (atoi_to_string _ H)].
Defined.

(** [Mkdir] is [mkdir -p]: it terminates on every non-empty path, and
    when it answers [true] every directory on the path and the path itself
    exist; existing entries are kept whatever it answers.  The hypotheses on
    the file system are that a successful [mkdir] creates its argument and
    that [mkdir] removes nothing. *)
Theorem mkdir_creates_all_parents `{FS : FileSystem, !MkdirLaws} (path : str) (f : fs) :
  path <> [] -> Forall (fun c => c <> Byte.x00) path ->
  exists ok f', Mkdir path f = Ret ok f'
    /\ (forall q, sys_exists q f = true -> sys_exists q f' = true)
    /\ (ok = true -> sys_exists path f' = true
        /\ (sys_exists path f = true \/ forall i, slash_at path 1 i -> sys_exists (ztake i path) f' = true)).
Proof.
  intros Hne Hnul. unfold Mkdir, lstat_ok. rewrite c_str_id by done.
  destruct (sys_exists path f) eqn:E; [exists true, f; auto|]. rewrite bool_decide_false by done.
  assert (1 <= zlen path) by (destruct path; [done|rewrite zlen_cons; pose proof (zlen_nonneg path); lia]).
  destruct (Mkdir_loop_ok (length path) path 1 f) as (broken & f1 & -> & Hk & Hall); [lia|unfold zlen; lia|].
  cbn [obind]. destruct broken; [by exists false, f1|].
  destruct (mkdir_if_absent path f1) as [ok f2] eqn:E2. destruct (mkdir_if_absent_ok _ _ _ _ E2) as [Hok Hk2].
  exists ok, f2. split_and!; [done|by auto|]. intros ->. split; [by apply Hok|]. right. intros i Hi. by apply Hk2, Hall.
Qed.

(** A file system that is the list of the existing paths. *)
Definition list_fs : FileSystem :=
  {| fs := list str; sys_exists p f := bool_decide (p ∈ f); sys_is_dir p f := bool_decide (p ∈ f);
     sys_mkdir p f := (true, p :: f); sys_unlink p f := (false, f); sys_rmdir p f := (false, f);
     sys_rename a b f := (false, f); sys_symlink a b f := (false, f); sys_realpath p f := Some p;
     sys_readdir p f := Some []; sys_open_write p f := (true, p :: f); sys_getline p f := None;
     sys_kill0 p f := false |}.

#[export] Instance list_fs_laws : @MkdirLaws list_fs.
Proof.
  split; simpl.
  - intros p f f' [= <-]. apply bool_decide_eq_true. set_solver.
  - intros p q f ok f' [= <- <-]. rewrite !bool_decide_eq_true. set_solver.
Qed.

Lemma mkdir_creates_all_parents_witness :
  exists ok f', @Mkdir list_fs (bs "/a/b/c") [bs "/x"] = Ret ok f'
    /\ (forall q, @sys_exists list_fs q [bs "/x"] = true -> @sys_exists list_fs q f' = true)
    /\ (ok = true -> @sys_exists list_fs (bs "/a/b/c") f' = true
        /\ (@sys_exists list_fs (bs "/a/b/c") [bs "/x"] = true
            \/ forall i, slash_at (bs "/a/b/c") 1 i -> @sys_exists list_fs (ztake i (bs "/a/b/c")) f' = true)).
Proof.
  apply (@mkdir_creates_all_parents list_fs list_fs_laws (bs "/a/b/c") [bs "/x"]); [done|].
  repeat constructor; done.
Defined.

(** *** Behaviour outside those conditions *)

(** [TrimRight] also drops the last character that is no delimiter. *)
Theorem TrimRight_drops_last_kept (s delimit a b : str) (c : byte) :
  s = a ++ c :: b -> c ∉ delimit -> Forall (fun x => x ∈ delimit) b -> TrimRight s delimit = a.
Proof.
  intros -> Hc Hb. unfold TrimRight, find_last_not_of.
  assert (rfind_if (fun x => negb (one_of delimit x)) (a ++ c :: b) = Some (zlen a)) as ->.
  { induction a as [|z a IH].
    - simpl. assert (rfind_if (fun x => negb (one_of delimit x)) b = None) as ->.
      { apply rfind_if_none. eapply Forall_impl; [done|]. intros x Hx. unfold one_of.
        by rewrite negb_false_iff, bool_decide_eq_true. }
      by rewrite (proj2 (not_one_of _ _) Hc).
    - cbn [app rfind_if]. rewrite IH, zlen_cons. f_equal. lia. }
  unfold substr, zsub. rewrite zdrop_0, ztake_app_le, ztake_all by lia. done.
Qed.

(** [=] is passed through unencoded, unlike the alphabet in the comment above
    [UrlEncode] says. *)
Theorem url_encode_keeps_equals : UrlEncode (bs "k=v") true = bs "k=v".
Proof. reflexivity. Qed.

(** [Mkdir] of the empty path searches behind the terminator of its copy. *)
Theorem Mkdir_empty_is_undefined `{FS : FileSystem} (f : fs) : sys_exists [] f = false -> Mkdir [] f = UB.
Proof. intros H. unfold Mkdir, lstat_ok. simpl. by rewrite H. Qed.

End Ext.
