(* ===== verification/StdMap.v ===== *)
(** * [std::set] and [std::map] over a comparator

    An ordered container is the list of its elements in iteration order.  The
    comparator is a boolean function with the laws of a strict weak order,
    which is what the standard requires of it; equality of keys is
    incomparability.  Elements carry their key through [key], so that one set
    of lemmas serves sets ([key] the identity) and maps ([key] = [fst]). *)
From S2P Require Import Prelude StdString.
From Stdlib Require Import Sorting.Sorted.
From stdpp Require Import sorting.

Module StdMap.

(** What the containers ask of a comparator. *)
Class StrictWeakOrder {K} (ltb : K -> K -> bool) : Prop := {
  swo_irrefl a : ltb a a = false;
  swo_trans a b c : ltb a b = true -> ltb b c = true -> ltb a c = true;
  swo_incomp a b c : ltb a b = false -> ltb b c = false -> ltb a c = false;
}.

Section container.
Context {K E : Type} (ltb : K -> K -> bool) (key : E -> K).

Definition equivb (a b : K) : bool := negb (ltb a b) && negb (ltb b a).

(** [find]: the element whose key is equivalent to [k]; [None] is [end()]. *)
Fixpoint find (k : K) (l : list E) : option E :=
  match l with
  | [] => None
  | x :: l => if ltb (key x) k then find k l else if ltb k (key x) then None else Some x
  end.

(** [insert]: no effect when an equivalent key is present. *)
Fixpoint insert (e : E) (l : list E) : list E :=
  match l with
  | [] => [e]
  | x :: l' => if ltb (key e) (key x) then e :: l
               else if ltb (key x) (key e) then x :: insert e l' else l
  end.

Fixpoint erase (k : K) (l : list E) : list E :=
  match l with
  | [] => []
  | x :: l' => if ltb (key x) k then x :: erase k l' else if ltb k (key x) then l else l'
  end.

(** The elements before and behind [upper_bound(k)]. *)
Fixpoint upper_bound (k : K) (l : list E) : list E * list E :=
  match l with
  | [] => ([], [])
  | x :: l' => if ltb k (key x) then ([], l) else let '(a, b) := upper_bound k l' in (x :: a, b)
  end.

Definition lt (x y : E) : Prop := ltb (key x) (key y) = true.
Definition sorted (l : list E) : Prop := StronglySorted lt l.

Context `{SWO : !StrictWeakOrder ltb}.

Lemma equivb_spec a b : equivb a b = true <-> ltb a b = false /\ ltb b a = false.
Proof. unfold equivb. by rewrite andb_true_iff, !negb_true_iff. Qed.

Lemma ltb_asym a b : ltb a b = true -> ltb b a = false.
Proof.
  intros H. destruct (ltb b a) eqn:E'; [|done].
  pose proof (swo_trans a b a H E'). by rewrite swo_irrefl in *.
Qed.

Lemma ltb_equiv_l a b c : equivb a b = true -> ltb a c = ltb b c.
Proof.
  intros [H1 H2]%equivb_spec. destruct (ltb a c) eqn:Ea, (ltb b c) eqn:Eb; try done.
  - pose proof (swo_incomp a b c H1 Eb). congruence.
  - pose proof (swo_incomp b a c H2 Ea). congruence.
Qed.
Lemma ltb_equiv_r a b c : equivb a b = true -> ltb c a = ltb c b.
Proof.
  intros [H1 H2]%equivb_spec. destruct (ltb c a) eqn:Ea, (ltb c b) eqn:Eb; try done.
  - pose proof (swo_incomp c b a Eb H2). congruence.
  - pose proof (swo_incomp c a b Ea H1). congruence.
Qed.
Lemma equivb_sym a b : equivb a b = equivb b a.
Proof. unfold equivb. apply andb_comm. Qed.
Lemma equivb_refl a : equivb a a = true.
Proof. apply equivb_spec. by rewrite swo_irrefl. Qed.

(** In a sorted list everything behind a greater element is greater. *)
Lemma sorted_gt k x l y : sorted (x :: l) -> ltb k (key x) = true -> y ∈ l -> ltb k (key y) = true.
Proof.
  intros [_ Hall]%StronglySorted_inv Hk Hy. rewrite Forall_forall in Hall. eapply swo_trans; [done|]. by apply Hall.
Qed.

Lemma sorted_eq_unique l x y : sorted l -> x ∈ l -> y ∈ l -> equivb (key x) (key y) = true -> x = y.
Proof.
  intros Hs Hx Hy [H1 H2]%equivb_spec. induction Hs as [|z l Hs IH Hall]; [by apply not_elem_of_nil in Hx|].
  rewrite Forall_forall in Hall. apply elem_of_cons in Hx as [->|Hx], Hy as [->|Hy]; [done|..|by apply IH].
  - specialize (Hall y Hy). unfold lt in Hall. congruence.
  - specialize (Hall x Hx). unfold lt in Hall. congruence.
Qed.

Lemma find_spec k l e : sorted l -> find k l = Some e <-> e ∈ l /\ equivb (key e) k = true.
Proof.
  intros Hs. induction Hs as [|x l Hs IH Hall]; simpl.
  - split; [done|]. intros [H%not_elem_of_nil _]. done.
  - rewrite elem_of_cons, equivb_spec. rewrite equivb_spec in IH.
    destruct (ltb (key x) k) eqn:E1; [rewrite IH; naive_solver congruence|].
    destruct (ltb k (key x)) eqn:E2.
    + split; [done|]. intros [[->|He] [H1 H2]]; [congruence|].
      assert (ltb k (key e) = true); [|congruence]. eapply sorted_gt; [by constructor|done|done].
    + split; [intros [= <-]; auto|]. intros [[->|He] [H1 H2]]; [done|]. exfalso.
      rewrite Forall_forall in Hall. specialize (Hall e He). unfold lt in Hall.
      rewrite (ltb_equiv_l (key x) k (key e)) in Hall by by apply equivb_spec. congruence.
Qed.

Lemma find_none k l : sorted l -> find k l = None <-> forall e, e ∈ l -> equivb (key e) k = false.
Proof.
  intros Hs. split.
  - intros H e He. destruct (equivb (key e) k) eqn:Ee; [|done].
    assert (find k l = Some e) by (by apply find_spec). congruence.
  - intros H. destruct (find k l) as [e|] eqn:Ef; [|done]. apply find_spec in Ef as [He Hq]; [|done].
    rewrite H in Hq; done.
Qed.

Lemma elem_of_insert e l x :
  sorted l -> find (key e) l = None -> x ∈ insert e l <-> x = e \/ x ∈ l.
Proof.
  intros Hs. induction Hs as [|y l Hs IH Hall]; simpl; [set_solver|].
  destruct (ltb (key y) (key e)) eqn:E1.
  - rewrite (ltb_asym _ _ E1). intros H. rewrite elem_of_cons, IH by done. set_solver.
  - destruct (ltb (key e) (key y)) eqn:E2; [|done]. intros _. set_solver.
Qed.

Lemma insert_present e l x : find (key e) l = Some x -> insert e l = l.
Proof.
  induction l as [|y l IH]; simpl; [done|]. destruct (ltb (key y) (key e)) eqn:E1.
  - rewrite (ltb_asym _ _ E1). intros H. by rewrite IH.
  - by destruct (ltb (key e) (key y)).
Qed.

Lemma insert_sorted e l : sorted l -> sorted (insert e l).
Proof.
  intros Hs. destruct (find (key e) l) as [x|] eqn:Ef; [by erewrite insert_present|].
  induction Hs as [|y l Hs IH Hall]; simpl in *; [repeat constructor|].
  destruct (ltb (key e) (key y)) eqn:E1.
  - constructor; [by constructor|]. constructor; [done|]. rewrite Forall_forall in *. intros z Hz.
    eapply swo_trans; [done|]. by apply Hall.
  - destruct (ltb (key y) (key e)) eqn:E2; [|by constructor]. constructor; [by apply IH|].
    rewrite Forall_forall in *. intros z [->|Hz]%elem_of_insert; auto.
Qed.

Lemma elem_of_erase k l x : sorted l -> x ∈ erase k l <-> x ∈ l /\ equivb (key x) k = false.
Proof.
  intros Hs. induction Hs as [|y l Hs IH Hall]; simpl; [set_solver|].
  assert (forall z, z ∈ l -> ltb k (key y) = true -> equivb (key z) k = false) as Hgt.
  { intros z Hz Hk. apply not_true_iff_false. intros [? H2]%equivb_spec.
    rewrite (sorted_gt k y l z) in H2; [done|by constructor|done|done]. }
  destruct (ltb (key y) k) eqn:E1.
  - rewrite elem_of_cons, IH, elem_of_cons. unfold equivb at 2. split; [|naive_solver].
    intros [->|?]; [|naive_solver]. split; [by left|]. unfold equivb. by rewrite E1.
  - destruct (ltb k (key y)) eqn:E2.
    + split; [|by intros []]. intros [->|Hx]%elem_of_cons; split; [by left| |by right|auto].
      unfold equivb. by rewrite E1, E2.
    + assert (equivb (key y) k = true) as Hq by by apply equivb_spec.
      rewrite elem_of_cons. split.
      * intros Hx. split; [by right|]. rewrite Forall_forall in Hall. specialize (Hall x Hx). unfold lt in Hall.
        rewrite (ltb_equiv_l _ _ _ Hq) in Hall. unfold equivb. by rewrite Hall, andb_false_r.
      * intros [[->|Hx] Hn]; [congruence|done].
Qed.

Lemma erase_sublist k l : sublist (erase k l) l.
Proof.
  induction l as [|x l IH]; simpl; [done|]. destruct (ltb (key x) k); [by constructor|].
  destruct (ltb k (key x)); [done|by constructor].
Qed.

Lemma sorted_sublist l k : sublist k l -> sorted l -> sorted k.
Proof.
  intros Hsub. induction Hsub as [|x l1 l2 Hsub IH|x l1 l2 Hsub IH]; intros Hs; [done|..].
  - apply StronglySorted_inv in Hs as [Hs Hall]. constructor; [by apply IH|].
    rewrite Forall_forall in *. intros y Hy. apply Hall. by eapply elem_of_sublist.
  - apply StronglySorted_inv in Hs as [Hs _]. by apply IH.
Qed.

Lemma erase_sorted k l : sorted l -> sorted (erase k l).
Proof. apply sorted_sublist, erase_sublist. Qed.

Lemma sorted_NoDup l : sorted l -> NoDup l.
Proof.
  induction 1 as [|x l Hs IH Hall]; constructor; [|done]. intros Hx. rewrite Forall_forall in Hall.
  specialize (Hall x Hx). unfold lt in Hall. by rewrite swo_irrefl in Hall.
Qed.

Lemma upper_bound_spec k l a b :
  sorted l -> upper_bound k l = (a, b) ->
  l = a ++ b /\ Forall (fun x => ltb k (key x) = false) a /\ Forall (fun x => ltb k (key x) = true) b.
Proof.
  intros Hs. revert a b. induction Hs as [|x l Hs IH Hall]; intros a b; simpl; [by intros [= <- <-]|].
  destruct (ltb k (key x)) eqn:E1.
  - intros [= <- <-]. split_and!; [done|constructor|]. constructor; [done|]. rewrite Forall_forall. intros y Hy.
    eapply sorted_gt; [by constructor|done|done].
  - destruct (upper_bound k l) as [a' b']. intros [= <- <-]. destruct (IH a' b' eq_refl) as (-> & ? & ?).
    split_and!; [done|by constructor|done].
Qed.

(** The head of a sorted list is its least element. *)
Lemma sorted_head x l y : sorted (x :: l) -> y ∈ x :: l -> x = y \/ ltb (key x) (key y) = true.
Proof.
  intros [_ Hall]%StronglySorted_inv [->|Hy]%elem_of_cons; [by left|]. right.
  rewrite Forall_forall in Hall. by apply Hall.
Qed.
End container.

(** ** Maps *)
Section map.
Context {K V : Type} (ltb : K -> K -> bool).

(** [m[k] = v]: an equivalent key that is present keeps its spelling. *)
Fixpoint assign (k : K) (v : V) (m : list (K * V)) : list (K * V) :=
  match m with
  | [] => [(k, v)]
  | (x, w) :: m' => if ltb k x then (k, v) :: m
                    else if ltb x k then (x, w) :: assign k v m' else (x, v) :: m'
  end.
Definition lookup (k : K) (m : list (K * V)) : option V := snd <$> find ltb fst k m.
Definition map_sorted (m : list (K * V)) : Prop := sorted ltb fst m.

Context `{SWO : !StrictWeakOrder ltb}.

Lemma assign_keys k v m x w :
  (x, w) ∈ assign k v m -> (exists w', (x, w') ∈ m) \/ x = k.
Proof.
  induction m as [|[y u] m IH]; simpl; [set_solver|].
  destruct (ltb k y); [set_solver|]. destruct (ltb y k); set_solver.
Qed.

Lemma elem_of_assign k v m x w :
  (x, w) ∈ assign k v m -> (x, w) ∈ m \/ (w = v /\ equivb ltb k x = true).
Proof.
  induction m as [|[y u] m IH]; simpl; [intros H%list_elem_of_singleton; simplify_eq; eauto using equivb_refl|].
  destruct (ltb k y) eqn:E1; [intros [H|H]%elem_of_cons; simplify_eq; eauto using equivb_refl|].
  destruct (ltb y k) eqn:E2; intros [H|H]%elem_of_cons; simplify_eq; rewrite elem_of_cons; auto.
  - destruct (IH H); auto.
  - right. split; [done|]. by apply equivb_spec.
Qed.

Lemma lookup_assign_eq k v m : lookup k (assign k v m) = Some v.
Proof.
  unfold lookup. induction m as [|[y u] m IH]; simpl; [by rewrite swo_irrefl|].
  destruct (ltb k y) eqn:E1; simpl; [by rewrite swo_irrefl|].
  destruct (ltb y k) eqn:E2; simpl; rewrite ?E2, ?E1; done.
Qed.

Lemma assign_sorted k v m : map_sorted m -> map_sorted (assign k v m).
Proof.
  unfold map_sorted. intros Hs. induction Hs as [|[y u] m Hs IH Hall]; simpl; [repeat constructor|].
  rewrite Forall_forall in Hall. destruct (ltb k y) eqn:E1.
  - constructor; [constructor; [done|by apply Forall_forall]|]. constructor; [done|]. apply Forall_forall.
    intros z Hz. eapply swo_trans; [done|]. by apply (Hall z).
  - destruct (ltb y k) eqn:E2.
    + constructor; [done|]. apply Forall_forall. intros [z w] Hz. apply assign_keys in Hz as [[w' Hz]| ->]; [|done].
      by apply (Hall (z, w')).
    + constructor; [done|]. by apply Forall_forall.
Qed.

Lemma lookup_assign k k' v m :
  map_sorted m ->
  lookup k' (assign k v m) = if equivb ltb k k' then Some v else lookup k' m.
Proof.
  unfold lookup, map_sorted. intros Hs. induction Hs as [|[y u] m Hs IH Hall]; simpl.
  { unfold equivb. destruct (ltb k k'), (ltb k' k); done. }
  destruct (ltb k y) eqn:E1; simpl.
  { unfold equivb. destruct (ltb k k') eqn:Ek; [done|]. destruct (ltb k' k) eqn:Ek'; simpl; [|done].
    rewrite (ltb_asym ltb k' y) by by eapply swo_trans. by rewrite (swo_trans k' k y). }
  destruct (ltb y k) eqn:E2; simpl.
  - destruct (ltb y k') eqn:E3; [by apply IH|]. unfold equivb.
    assert (ltb k' k = true) as ->; [|by rewrite andb_false_r].
    destruct (ltb k' k) eqn:E4; [done|]. pose proof (swo_incomp _ _ _ E3 E4). congruence.
  - assert (equivb ltb y k = true) as Hq by by apply equivb_spec.
    rewrite (ltb_equiv_l ltb y k k' Hq), (ltb_equiv_r ltb y k k' Hq). unfold equivb.
    destruct (ltb k k'), (ltb k' k); done.
Qed.

Lemma lookup_insert k k' v m :
  map_sorted m ->
  lookup k' (insert ltb fst (k, v) m)
  = match lookup k' m with Some w => Some w | None => if equivb ltb k k' then Some v else None end.
Proof.
  unfold lookup, map_sorted. intros Hs. induction Hs as [|[y u] m Hs IH Hall]; simpl.
  { unfold equivb. destruct (ltb k k'), (ltb k' k); done. }
  destruct (ltb k y) eqn:E1; simpl.
  { destruct (ltb k k') eqn:Ek; simpl.
    - unfold equivb. rewrite Ek. simpl. by destruct (if ltb y k' then _ else _).
    - destruct (ltb k' k) eqn:Ek'; simpl.
      + rewrite (ltb_asym ltb k' y) by by eapply swo_trans. rewrite (swo_trans k' k y) by done. simpl.
        unfold equivb. by rewrite Ek', andb_false_r.
      + assert (equivb ltb k k' = true) as Hq by by apply equivb_spec. rewrite Hq.
        rewrite (ltb_equiv_l ltb k k' y Hq) in E1. rewrite (ltb_asym ltb k' y E1), E1. done. }
  destruct (ltb y k) eqn:E2; simpl.
  - destruct (ltb y k') eqn:E3; [by apply IH|]. destruct (ltb k' y) eqn:E4; simpl; [|done]. unfold equivb.
    assert (ltb k' k = true) as ->; [by eapply swo_trans|]. by rewrite andb_false_r.
  - destruct (ltb y k') eqn:E3.
    + destruct (snd <$> find ltb fst k' m); [done|]. unfold equivb.
      assert (equivb ltb y k = true) as Hq by by apply equivb_spec. by rewrite <- (ltb_equiv_l ltb y k k' Hq), E3.
    + destruct (ltb k' y) eqn:E4; simpl; [|done]. unfold equivb.
      assert (equivb ltb y k = true) as Hq by by apply equivb_spec.
      by rewrite <- (ltb_equiv_r ltb y k k' Hq), E4, andb_false_r.
Qed.

Lemma lookup_erase k k' m :
  map_sorted m -> lookup k' (erase ltb fst k m) = if equivb ltb k k' then None else lookup k' m.
Proof.
  intros Hs. unfold lookup. destruct (equivb ltb k k') eqn:Eq.
  - destruct (find ltb fst k' (erase ltb fst k m)) as [e|] eqn:Ef; [|done].
    apply find_spec in Ef as [He Hk]; [|done|by apply erase_sorted]. apply elem_of_erase in He as [_ Hn]; [|done|done].
    unfold equivb in Hk, Hn. rewrite <- (ltb_equiv_l ltb k k' _ Eq), <- (ltb_equiv_r ltb k k' _ Eq) in Hk. congruence.
  - f_equal. destruct (find ltb fst k' m) as [e|] eqn:Ef.
    + apply find_spec in Ef as [He Hk]; [|done|done]. apply find_spec; [done|by apply erase_sorted|].
      split; [|done]. apply elem_of_erase; [done|done|]. split; [done|].
      destruct (equivb ltb e.1 k) eqn:E2; [|done]. rewrite equivb_sym in Hk.
      unfold equivb in Hk, Eq. rewrite (ltb_equiv_l ltb _ _ k' E2), (ltb_equiv_r ltb _ _ k' E2), andb_comm in Hk. congruence.
    + apply find_none; [done|by apply erase_sorted|]. intros e He. apply elem_of_erase in He as [He _]; [|done|done].
      revert e He. by apply find_none.
Qed.
(** An element that is taken out, and one that is put in, are the whole change. *)
Lemma erase_Permutation k v m : map_sorted m -> find ltb fst k m = Some v -> m ≡ₚ v :: erase ltb fst k m.
Proof.
  intros Hs. induction Hs as [|x m Hs IH Hall]; simpl; [done|].
  destruct (ltb x.1 k); [intros H; rewrite (IH H) at 1; apply perm_swap|]. destruct (ltb k x.1); [done|]. by intros [= ->].
Qed.
Lemma erase_absent k m : lookup k m = None -> erase ltb fst k m = m.
Proof.
  unfold lookup. induction m as [|x m IH]; simpl; [done|]. destruct (ltb x.1 k); [intros H; by rewrite IH|]. by destruct (ltb k x.1).
Qed.
Lemma assign_Permutation k v m : lookup k m = None -> assign k v m ≡ₚ (k, v) :: m.
Proof.
  unfold lookup. induction m as [|[y u] m IH]; simpl; [done|]. destruct (ltb y k) eqn:E1.
  - intros H. rewrite (ltb_asym ltb y k E1), (IH H). apply perm_swap.
  - by destruct (ltb k y).
Qed.
End map.

(** The default comparator of [std::string] keys is a total order: equivalent
    keys are equal. *)
#[global] Instance string_swo : StrictWeakOrder StdString.ltb.
Proof.
  assert (forall a b, StdString.ltb a b = true <-> StdString.compare a b = Lt) as H.
  { intros a b. unfold StdString.ltb. by destruct (StdString.compare a b). }
  split.
  - intros a. apply not_true_iff_false. rewrite H. by rewrite StdString.compare_refl.
  - intros a b c. rewrite !H. apply StdString.compare_trans.
  - intros a b c. rewrite <- !not_true_iff_false, !H. apply StdString.compare_ge_trans.
Qed.

Lemma equivb_string a b : equivb StdString.ltb a b = bool_decide (a = b).
Proof.
  unfold equivb, StdString.ltb. rewrite (StdString.compare_antisym a b).
  destruct (StdString.compare a b) eqn:E; simpl; symmetry.
  - apply bool_decide_true. by apply StdString.compare_eq.
  - apply bool_decide_false. intros ->. by rewrite StdString.compare_refl in E.
  - apply bool_decide_false. intros ->. by rewrite StdString.compare_refl in E.
Qed.

(** Strings in the order of the keys of a map. *)
Definition string_le (a b : str) : Prop := StdString.ltb b a = false.
#[export] Instance string_le_dec : RelDecision string_le := fun a b => decide (StdString.ltb b a = false).
Definition sort_strings (l : list str) : list str := merge_sort string_le l.

End StdMap.
