(* ===== verification/Timer.v ===== *)
(** * Timers: [luwu/luwu/timer.cpp]

    [Timer] objects live in a heap and are shared by pointer between their
    owners and the ordered set [m_timers] of the manager, whose comparator
    reads the object.  The current time ([GetCurrentMS]), the address of a new
    object and the callbacks are arguments.  The lock of the manager makes
    each operation atomic, so a concurrent execution is a sequence of them. *)
From S2P Require Import Prelude StdMap.
From Stdlib Require Import Sorting.Sorted.
Import StdMap.
Local Open Scope Z_scope.

Module Timer.

(** The address of a [Timer], and the identity of a callback. *)
Abbreviation addr := Z.
Abbreviation callback := nat.

Record timer := MkTimer {
  m_recurring : bool;
  m_ms : Z;
  m_next : Z;
  m_cb : option callback;
}.

Definition with_cb (c : option callback) (t : timer) : timer := MkTimer (m_recurring t) (m_ms t) (m_next t) c.
Definition with_next (n : Z) (t : timer) : timer := MkTimer (m_recurring t) (m_ms t) n (m_cb t).
Definition with_ms (n : Z) (t : timer) : timer := MkTimer (m_recurring t) n (m_next t) (m_cb t).

(** [TimerManager], with the heap and the number of calls of the virtual
    [onTimerInsertAtFront]. *)
Record manager := MkManager {
  heap : gmap addr timer;
  m_timers : list addr;
  m_tickled : bool;
  tickles : nat;
}.
Definition with_heap (h : gmap addr timer) (m : manager) : manager :=
  MkManager h (m_timers m) (m_tickled m) (tickles m).
Definition with_timers (l : list addr) (m : manager) : manager :=
  MkManager (heap m) l (m_tickled m) (tickles m).

Definition empty_manager : manager := MkManager ∅ [] false 0.

Definition next_of (h : gmap addr timer) (a : addr) : Z := default 0 (m_next <$> h !! a).

(** [Timer::Comparator]; [None] is a null pointer. *)
Definition Comparator (h : gmap addr timer) (lhs rhs : option addr) : bool :=
  match lhs, rhs with
  | None, None => false
  | None, _ => true
  | _, None => false
  | Some l, Some r =>
      if next_of h l <? next_of h r then true
      else if next_of h r <? next_of h l then false
      else l <? r
  end.
Definition less (h : gmap addr timer) (a b : addr) : bool := Comparator h (Some a) (Some b).

(** The set operations on [m_timers]. *)
Definition set_find (m : manager) (a : addr) : option addr := find (less (heap m)) id a (m_timers m).
Definition set_insert (a : addr) (m : manager) : manager :=
  with_timers (insert (less (heap m)) id a (m_timers m)) m.
Definition set_erase (a : addr) (m : manager) : manager :=
  with_timers (erase (less (heap m)) id a (m_timers m)) m.
Definition upd (a : addr) (t : timer) (m : manager) : manager := with_heap (<[a := t]> (heap m)) m.

(** ** Operations *)

(** [addTimer(const Timer::ptr &, WriteLock &)]. *)
Definition addTimer_locked (val : addr) (m : manager) : manager :=
  let m := set_insert val m in
  let at_front := bool_decide (head (m_timers m) = Some val) && negb (m_tickled m) in
  if at_front then MkManager (heap m) (m_timers m) true (S (tickles m)) else m.

(** [addTimer(ms, cb, recurring)]: [a] is where the object is allocated, [now] the
    clock that its constructor reads before the lock is taken. *)
Definition addTimer (a now ms : Z) (cb : callback) (recurring : bool) (m : manager) : manager :=
  addTimer_locked a (upd a (MkTimer recurring ms (u64 (now + ms)) (Some cb)) m).

(** [OnTimer]: the callback runs when the condition is still alive. *)
Definition OnTimer (alive : bool) (cb : callback) : option callback := if alive then Some cb else None.

(** [addConditionTimer]: [bind cb] is the closure that calls [OnTimer]. *)
Definition addConditionTimer (bind : callback -> callback) (a now ms : Z) (cb : callback) (recurring : bool)
    (m : manager) : manager := addTimer a now ms (bind cb) recurring m.

(** [cancel]: erasing [end()] is undefined. *)
Definition cancel (a : addr) : M manager bool := fun m =>
  match heap m !! a with
  | None => UB
  | Some t =>
      match m_cb t with
      | Some _ =>
          let m := upd a (with_cb None t) m in
          match set_find m a with
          | Some _ => Ret true (set_erase a m)
          | None => UB
          end
      | None => Ret false m
      end
  end.

Definition refresh (a now : Z) : M manager bool := fun m =>
  match heap m !! a with
  | None => UB
  | Some t =>
      match m_cb t with
      | Some _ =>
          match set_find m a with
          | None => Ret false m
          | Some _ =>
              let m := set_erase a m in
              let m := upd a (with_next (u64 (now + m_ms t)) t) m in
              Ret true (set_insert a m)
          end
      | None => Ret false m
      end
  end.

Definition reset (a now ms : Z) (from_now : bool) : M manager bool := fun m =>
  match heap m !! a with
  | None => UB
  | Some t =>
      if (ms =? m_ms t) && negb from_now then Ret true m
      else match m_cb t with
      | Some _ =>
          match set_find m a with
          | None => Ret false m
          | Some _ =>
              let m := set_erase a m in
              let start := if from_now then now else u64 (m_next t - m_ms t) in
              let m := upd a (with_next (u64 (start + ms)) (with_ms ms t)) m in
              Ret true (addTimer_locked a m)
          end
      | None => Ret false m
      end
  end.

Definition getNextTimer (now : Z) (m : manager) : Z * manager :=
  let m := MkManager (heap m) (m_timers m) false (tickles m) in
  match m_timers m with
  | [] => (2 ^ 64 - 1, m)
  | a :: _ => if next_of (heap m) a <=? now then (0, m) else (next_of (heap m) a - now, m)
  end.

(** One round of the loop of [listExpiredCb]. *)
Definition expire1 (now : Z) (a : addr) (m : manager) : manager :=
  match heap m !! a with
  | None => m
  | Some t =>
      if m_recurring t
      then set_insert a (upd a (with_next (u64 (now + m_ms t)) t) (set_erase a m))
      else set_erase a m
  end.
Fixpoint expire (now : Z) (expired : list addr) (cbs : list (option callback)) (m : manager)
    : list (option callback) * manager :=
  match expired with
  | [] => (cbs, m)
  | a :: expired =>
      expire now expired (cbs ++ [t ← heap m !! a; m_cb t]) (expire1 now a m)
  end.

(** [listExpiredCb]; [now_timer] is allocated at [tmp] for the search. *)
Definition listExpiredCb (now : Z) (tmp : addr) (cbs : list (option callback)) (m : manager)
    : list (option callback) * manager :=
  match m_timers m with
  | [] => (cbs, m)
  | _ =>
      let h := <[tmp := MkTimer false 0 now None]> (heap m) in
      expire now (fst (upper_bound (less h) id tmp (m_timers m))) cbs m
  end.

(** ** The comparator is a strict total order *)
#[export] Instance less_swo h : StrictWeakOrder (less h).
Proof.
  split; unfold less, Comparator.
  - intros a. by rewrite !Z.ltb_irrefl.
  - intros a b c. destruct (Z.ltb_spec (next_of h a) (next_of h b)), (Z.ltb_spec (next_of h b) (next_of h a)),
      (Z.ltb_spec (next_of h b) (next_of h c)), (Z.ltb_spec (next_of h c) (next_of h b)),
      (Z.ltb_spec (next_of h a) (next_of h c)), (Z.ltb_spec (next_of h c) (next_of h a)); try done; try lia;
      rewrite ?Z.ltb_lt; lia.
  - intros a b c. destruct (Z.ltb_spec (next_of h a) (next_of h b)), (Z.ltb_spec (next_of h b) (next_of h a)),
      (Z.ltb_spec (next_of h b) (next_of h c)), (Z.ltb_spec (next_of h c) (next_of h b)),
      (Z.ltb_spec (next_of h a) (next_of h c)), (Z.ltb_spec (next_of h c) (next_of h a)); try done; try lia;
      rewrite ?Z.ltb_ge; lia.
Qed.

Lemma less_true h a b :
  less h a b = true <-> next_of h a < next_of h b \/ (next_of h a = next_of h b /\ a < b).
Proof.
  unfold less, Comparator. destruct (Z.ltb_spec (next_of h a) (next_of h b)), (Z.ltb_spec (next_of h b) (next_of h a));
    rewrite ?Z.ltb_lt; naive_solver lia.
Qed.

Lemma less_equiv h a b : equivb (less h) a b = true <-> a = b.
Proof.
  rewrite equivb_spec. split; [|intros ->; by rewrite swo_irrefl]. rewrite <- !not_true_iff_false, !less_true.
  intros. destruct (Z.lt_total (next_of h a) (next_of h b)) as [|[|]]; destruct (Z.lt_total a b) as [|[|]]; naive_solver lia.
Qed.

Lemma less_ext h h' a b :
  next_of h a = next_of h' a -> next_of h b = next_of h' b -> less h a b = less h' a b.
Proof. unfold less, Comparator. by intros -> ->. Qed.

Abbreviation tsorted h := (sorted (less h) id).

Lemma tsorted_ext h h' l :
  (forall a, a ∈ l -> next_of h a = next_of h' a) -> tsorted h l -> tsorted h' l.
Proof.
  intros Hn Hs. induction Hs as [|x l Hs IH Hall]; constructor.
  - apply IH. intros. apply Hn. set_solver.
  - rewrite Forall_forall in *. intros y Hy. unfold lt in *. simpl in *.
    rewrite <- (less_ext h h'); [by apply Hall|apply Hn; set_solver|apply Hn; set_solver].
Qed.

Lemma next_of_insert_ne h a b t : a <> b -> next_of (<[a := t]> h) b = next_of h b.
Proof. intros. unfold next_of. by rewrite lookup_insert_ne. Qed.
Lemma next_of_insert h a t : next_of (<[a := t]> h) a = m_next t.
Proof. unfold next_of. by rewrite lookup_insert_eq. Qed.

Lemma tsorted_upd h l a t : a ∉ l -> tsorted h l -> tsorted (<[a := t]> h) l.
Proof.
  intros Ha. apply tsorted_ext. intros b Hb. rewrite next_of_insert_ne; [done|]. by intros ->.
Qed.

Lemma tfind h l a : tsorted h l -> find (less h) id a l = Some a <-> a ∈ l.
Proof.
  intros Hs. rewrite (find_spec (less h) id) by done. simpl. rewrite less_equiv. naive_solver.
Qed.
Lemma tfind_some h l a x : tsorted h l -> find (less h) id a l = Some x -> x = a /\ a ∈ l.
Proof. intros Hs Hf. apply (find_spec (less h) id) in Hf as [Hx Hq]; [|done]. simpl in Hq. apply less_equiv in Hq. naive_solver. Qed.
Lemma tfind_none h l a : tsorted h l -> find (less h) id a l = None <-> a ∉ l.
Proof.
  intros Hs. rewrite (find_none (less h) id) by done. split.
  - intros H Ha. specialize (H a Ha). unfold id in H. by rewrite (equivb_refl (less h)) in H.
  - intros H e He. destruct (equivb _ _ _) eqn:E; [|done]. apply less_equiv in E. simpl in E. naive_solver.
Qed.
Lemma telem_insert h l a x : tsorted h l -> x ∈ insert (less h) id a l <-> x = a \/ x ∈ l.
Proof.
  intros Hs. destruct (find (less h) id a l) as [e|] eqn:E.
  - erewrite (insert_present (less h) id a l) by done. apply tfind_some in E; naive_solver.
  - by apply (elem_of_insert (less h) id).
Qed.
Lemma telem_erase h l a x : tsorted h l -> x ∈ erase (less h) id a l <-> x ∈ l /\ x <> a.
Proof.
  intros Hs. rewrite (elem_of_erase (less h) id) by done. simpl. rewrite <- not_true_iff_false, less_equiv. done.
Qed.

(** ** The invariant *)
Record Inv (m : manager) : Prop := {
  inv_sorted : tsorted (heap m) (m_timers m);
  inv_cb a : a ∈ m_timers m -> exists t, heap m !! a = Some t /\ m_cb t <> None;
}.

Lemma Inv_empty : Inv empty_manager.
Proof. split; [constructor|]. simpl. set_solver. Qed.

Lemma Inv_erase a m : Inv m -> Inv (set_erase a m).
Proof.
  intros [Hs Hc]. split; simpl; [by apply erase_sorted|]. intros x [? _]%telem_erase; auto.
Qed.

Lemma Inv_upd a t m : Inv m -> a ∉ m_timers m -> Inv (upd a t m).
Proof.
  intros [Hs Hc] Ha. split; simpl; [by apply tsorted_upd|]. intros x Hx.
  rewrite lookup_insert_ne by (by intros ->). auto.
Qed.

Lemma Inv_insert a m t : Inv m -> heap m !! a = Some t -> m_cb t <> None -> Inv (set_insert a m).
Proof.
  intros [Hs Hc] Ha Ht. split; simpl; [by apply (insert_sorted (less (heap m)) id)|].
  intros x [->|Hx]%telem_insert; eauto.
Qed.

Lemma Inv_tickle m b n : Inv m -> Inv (MkManager (heap m) (m_timers m) b n).
Proof. by intros []. Qed.

Lemma Inv_addTimer_locked a m t :
  Inv m -> heap m !! a = Some t -> m_cb t <> None -> Inv (addTimer_locked a m).
Proof.
  intros. unfold addTimer_locked. pose proof (Inv_insert a m t). destruct (_ && _); [apply Inv_tickle|]; auto.
Qed.

Lemma not_in_erase a m : Inv m -> a ∉ m_timers (set_erase a m).
Proof. intros [Hs _] [_ ?]%telem_erase; done. Qed.

Lemma Inv_expire1 now a m : Inv m -> a ∈ m_timers m -> Inv (expire1 now a m).
Proof.
  intros Hi Ha. pose proof (Inv_erase a m Hi) as Hi'. unfold expire1. destruct Hi as [Hs Hc].
  destruct (Hc a Ha) as (t & E & Ht). rewrite E. destruct (m_recurring t); [|done].
  eapply Inv_insert; [apply Inv_upd; [done|apply not_in_erase; by split]|simpl; by rewrite lookup_insert_eq|done].
Qed.

(** What one round does to the set and to the heap. *)
Definition fired (now : Z) (t : timer) : timer :=
  if m_recurring t then with_next (u64 (now + m_ms t)) t else t.

Lemma expire1_spec now a m t :
  Inv m -> a ∈ m_timers m -> heap m !! a = Some t ->
  heap (expire1 now a m) = <[a := fired now t]> (heap m)
  /\ (forall x, x ∈ m_timers (expire1 now a m) <-> x ∈ m_timers m /\ (x = a -> m_recurring t = true))
  /\ m_tickled (expire1 now a m) = m_tickled m /\ tickles (expire1 now a m) = tickles m.
Proof.
  intros Hi Ha E. pose proof Hi as [Hs Hc]. unfold expire1, fired. rewrite E.
  destruct (m_recurring t) eqn:Hr; simpl.
  - split_and!; try done. intros x. rewrite telem_insert; [rewrite telem_erase by done; destruct (decide (x = a)); naive_solver|].
    pose proof (not_in_erase a m Hi) as Hn. simpl in Hn. by apply tsorted_upd, erase_sorted.
  - split_and!; try done; [by rewrite insert_id|]. intros x. rewrite telem_erase by done. naive_solver.
Qed.

Lemma expire_spec now expired cbs m :
  Inv m -> NoDup expired -> (forall a, a ∈ expired -> a ∈ m_timers m) ->
  let '(out, m') := expire now expired cbs m in
  out = cbs ++ map (fun a => t ← heap m !! a; m_cb t) expired
  /\ Inv m' /\ m_tickled m' = m_tickled m /\ tickles m' = tickles m
  /\ (forall a, heap m' !! a = if bool_decide (a ∈ expired) then fired now <$> heap m !! a else heap m !! a)
  /\ (forall a, a ∈ m_timers m' <->
        a ∈ m_timers m /\ (a ∈ expired -> exists t, heap m !! a = Some t /\ m_recurring t = true)).
Proof.
  revert cbs m. induction expired as [|x l IH]; intros cbs m Hi Hnd Hsub; simpl.
  { split_and!; try done; [by rewrite app_nil_r|]. intros a. set_solver. }
  apply NoDup_cons in Hnd as [Hx Hnd]. assert (x ∈ m_timers m) as Hxm by (apply Hsub; set_solver).
  destruct (inv_cb m Hi x Hxm) as (t & E & Ht). destruct (expire1_spec now x m t Hi Hxm E) as (Hh & Hm & Ht1 & Ht2).
  specialize (IH (cbs ++ [t ← heap m !! x; m_cb t]) (expire1 now x m) (Inv_expire1 now x m Hi Hxm) Hnd).
  destruct (expire now l _ _) as [out m']. destruct IH as (-> & Hi' & Hk & Hk2 & Hheap & Hset).
  { intros a Ha. apply Hm. split; [apply Hsub; set_solver|]. intros ->. done. }
  assert (forall a, a ∈ l -> heap (expire1 now x m) !! a = heap m !! a) as Hsame.
  { intros a Ha. rewrite Hh, lookup_insert_ne; [done|]. by intros ->. }
  split_and!; try done; try congruence.
  - rewrite <- app_assoc. simpl. do 2 f_equal. apply map_ext_in. intros a Ha%list_elem_of_In. by rewrite Hsame.
  - intros a. rewrite Hheap. destruct (decide (a = x)) as [->|Hne].
    + rewrite bool_decide_false by done. rewrite bool_decide_true by set_solver.
      by rewrite Hh, lookup_insert_eq, E.
    + rewrite Hh, lookup_insert_ne by done. erewrite bool_decide_ext; [done|]. set_solver.
  - intros a. rewrite Hset, Hm. destruct (decide (a = x)) as [->|Hne].
    + split; [intros [[? Hr] _]; split; [done|]; eauto|].
      intros [? Hr]. destruct Hr as (t' & E' & Hr); [set_solver|]. split; [|by intros].
      split; [done|]. intros _. congruence.
    + split.
      * intros [[? _] Hl]. split; [done|]. intros [->|Ha]%elem_of_cons; [done|]. rewrite <- (Hsame a Ha). auto.
      * intros [? Hl]. split; [by split|]. intros Ha. rewrite (Hsame a Ha). apply Hl. set_solver.
Qed.

(** The timers that [listExpiredCb] takes: those due before [now], and of
    those due exactly [now] the ones at an address not above [tmp]. *)
Definition due (now : Z) (tmp : addr) (h : gmap addr timer) (a : addr) : Prop :=
  next_of h a < now \/ (next_of h a = now /\ a <= tmp).

Lemma listExpired_split now tmp m :
  Inv m -> tmp ∉ m_timers m ->
  let h := <[tmp := MkTimer false 0 now None]> (heap m) in
  exists l r, upper_bound (less h) id tmp (m_timers m) = (l, r) /\ m_timers m = l ++ r
    /\ (forall a, a ∈ l <-> a ∈ m_timers m /\ due now tmp (heap m) a).
Proof.
  intros Hi Htmp h. destruct (upper_bound (less h) id tmp (m_timers m)) as [l r] eqn:E.
  destruct (upper_bound_spec (less h) id tmp (m_timers m) l r) as (Hl & Hle & Hgt);
    [by apply tsorted_upd, Hi|done|].
  exists l, r. split_and!; [done|done|]. rewrite Forall_forall in Hle, Hgt.
  assert (forall a, a ∈ m_timers m -> less h tmp a = true <-> ~ due now tmp (heap m) a) as Hd.
  { intros a Ha. rewrite less_true. unfold h. rewrite next_of_insert, next_of_insert_ne by (by intros ->).
    unfold due. simpl. lia. }
  intros a. split.
  - intros Ha. assert (a ∈ m_timers m) as Hm by (rewrite Hl; set_solver). split; [done|].
    specialize (Hle a Ha). unfold id in Hle. apply not_true_iff_false in Hle. rewrite Hd in Hle by done.
    unfold due in *. lia.
  - intros [Ha Hdue]. rewrite Hl in Ha. apply elem_of_app in Ha as [|Ha]; [done|].
    specialize (Hgt a Ha). unfold id in Hgt. rewrite Hd in Hgt; [done|]. rewrite Hl. set_solver.
Qed.

Lemma listExpired_spec now tmp cbs m :
  Inv m -> tmp ∉ m_timers m ->
  exists expired m', listExpiredCb now tmp cbs m
    = (cbs ++ map (fun a => t ← heap m !! a; m_cb t) expired, m')
  /\ Inv m' /\ m_tickled m' = m_tickled m /\ tickles m' = tickles m
  /\ sublist expired (m_timers m)
  /\ (forall a, a ∈ expired <-> a ∈ m_timers m /\ due now tmp (heap m) a)
  /\ (forall a, heap m' !! a = if bool_decide (a ∈ expired) then fired now <$> heap m !! a else heap m !! a)
  /\ (forall a, a ∈ m_timers m' <->
        a ∈ m_timers m /\ (a ∈ expired -> exists t, heap m !! a = Some t /\ m_recurring t = true)).
Proof.
  intros Hi Htmp. destruct (listExpired_split now tmp m Hi Htmp) as (l & r & Hub & Hm & Hl).
  pose proof (sorted_NoDup (less (heap m)) id _ (inv_sorted m Hi)) as Hnd. rewrite Hm in Hnd.
  apply NoDup_app in Hnd as (Hnd & _ & _).
  unfold listExpiredCb. rewrite Hub. simpl fst.
  pose proof (expire_spec now l cbs m Hi Hnd) as He. destruct (expire now l cbs m) as [out m'] eqn:E.
  destruct He as (-> & Hi' & Ht & Ht2 & Hh & Hs); [intros a Ha; by apply Hl|].
  exists l, m'. split_and!; try done; [|rewrite Hm; by apply sublist_inserts_r].
  destruct (m_timers m); [|done]. destruct l; [|done]. exact E.
Qed.

(** ** Executions *)
Inductive op :=
| Add (a ms : Z) (cb : callback) (recurring : bool)
| Cancel (a : addr)
| Refresh (a : addr)
| Reset (a ms : Z) (from_now : bool)
| GetNext
| ListExpired (tmp : addr).

(** The manager, the clock, and what the last [getNextTimer] told its caller:
    when it was called, until when the caller sleeps, and how often
    [onTimerInsertAtFront] had been called by then. *)
Record gstate := G { g_m : manager; g_clock : Z; g_sleep : option (Z * Z * nat) }.

Inductive step (now : Z) : op -> gstate -> gstate -> Prop :=
| step_add a ms cb r m c s :
    heap m !! a = None -> 0 <= ms -> now + ms < 2 ^ 64 ->
    step now (Add a ms cb r) (G m c s) (G (addTimer a now ms cb r m) now s)
| step_cancel a b m m' c s :
    cancel a m = Ret b m' -> step now (Cancel a) (G m c s) (G m' now s)
| step_refresh a t b m m' c s :
    heap m !! a = Some t -> now + m_ms t < 2 ^ 64 ->
    refresh a now m = Ret b m' -> step now (Refresh a) (G m c s) (G m' now s)
| step_reset a ms f b m m' c s :
    0 <= ms -> now + ms < 2 ^ 64 ->
    reset a now ms f m = Ret b m' -> step now (Reset a ms f) (G m c s) (G m' now s)
| step_next r m m' c s :
    getNextTimer now m = (r, m') -> step now GetNext (G m c s) (G m' now (Some (now, now + r, tickles m)))
| step_expired tmp cbs m m' c s :
    heap m !! tmp = None -> (forall a t, heap m !! a = Some t -> now + m_ms t < 2 ^ 64) ->
    listExpiredCb now tmp [] m = (cbs, m') -> step now (ListExpired tmp) (G m c s) (G m' now s).

(** The states an execution with a clock that does not go backwards reaches. *)
Inductive reach : gstate -> Prop :=
| reach_init c : 0 <= c -> reach (G empty_manager c None)
| reach_step now o g g' : reach g -> g_clock g <= now -> step now o g g' -> reach g'.

(** Every timer was started in the past. *)
Definition started (c : Z) (m : manager) : Prop :=
  forall a t, heap m !! a = Some t -> 0 <= m_ms t <= m_next t /\ m_next t - m_ms t <= c.

(** Nobody oversleeps: unless the sleeper has been tickled since, no pending
    timer is due before it wakes up. *)
Definition no_oversleep (m : manager) (s : option (Z * Z * nat)) : Prop :=
  match s with
  | None => True
  | Some (t0, wake, n) =>
      (n <= tickles m)%nat /\ (m_tickled m = true -> (n < tickles m)%nat)
      /\ ((n < tickles m)%nat \/ forall a, a ∈ m_timers m -> wake <= next_of (heap m) a `max` t0)
  end.

Record GInv (g : gstate) : Prop := {
  gi_inv : Inv (g_m g);
  gi_started : started (g_clock g) (g_m g);
  gi_clock : 0 <= g_clock g;
  gi_past : match g_sleep g with Some (t0, _, _) => t0 <= g_clock g | None => True end;
  gi_sleep : no_oversleep (g_m g) (g_sleep g);
}.

(** Inserting at the front tickles; inserting elsewhere moves nothing
    forward. *)
Lemma no_oversleep_add a m s :
  Inv m -> a ∉ m_timers m -> no_oversleep m s -> no_oversleep (addTimer_locked a m) s.
Proof.
  intros Hi Ha Hs. destruct s as [[[t0 wake] n]|]; [|done]. destruct Hs as (Hn & Ht & Hw).
  unfold addTimer_locked. simpl.
  pose proof (insert_sorted (less (heap m)) id a _ (inv_sorted m Hi)) as Hsort.
  assert (forall x, x ∈ insert (less (heap m)) id a (m_timers m) <-> x = a \/ x ∈ m_timers m) as Hel
    by (intros; apply telem_insert, Hi).
  destruct (insert (less (heap m)) id a (m_timers m)) as [|f l] eqn:E.
  { exfalso. apply (not_elem_of_nil a), Hel. by left. }
  cbn [head]. case_bool_decide as Hf; [injection Hf as ->|]; cbn [andb].
  - destruct (m_tickled m) eqn:Et; cbn [negb].
    + split_and!; simpl; [done|by rewrite Et|]. left. auto.
    + split_and!; simpl; [lia|lia|left; lia].
  - split_and!; simpl; [done|done|]. destruct Hw as [|Hw]; [by left|]. right. intros x Hx. rewrite E in Hx.
    destruct (decide (x = a)) as [->|Hne]; [|apply Hw; apply Hel in Hx; naive_solver].
    assert (f ∈ m_timers m) as Hfm. { destruct (proj1 (Hel f) ltac:(set_solver)); [congruence|done]. }
    specialize (Hw f Hfm). destruct (sorted_head (less (heap m)) id f l a Hsort) as [->|Hlt]; [set_solver|done|].
    unfold id in Hlt. apply less_true in Hlt. lia.
Qed.

(** Removing timers, or moving them to later deadlines that the clock has not
    passed before, wakes nobody late. *)
Lemma no_oversleep_later m m' s :
  m_tickled m' = m_tickled m -> tickles m' = tickles m ->
  (forall a, a ∈ m_timers m' -> a ∈ m_timers m /\
     (next_of (heap m) a <= next_of (heap m') a)) ->
  no_oversleep m s -> no_oversleep m' s.
Proof.
  intros Et En Hle. destruct s as [[[t0 wake] n]|]; [|done]. unfold no_oversleep. rewrite Et, En.
  intros (Hn & Ht & Hw). split_and!; [done|done|]. destruct Hw as [|Hw]; [by left|]. right. intros a Ha.
  destruct (Hle a Ha) as [Hm Hnx]. specialize (Hw a Hm). lia.
Qed.

Lemma heap_addTimer_locked a m : heap (addTimer_locked a m) = heap m.
Proof. unfold addTimer_locked. by destruct (_ && _). Qed.

Lemma not_pending a m : Inv m -> heap m !! a = None -> a ∉ m_timers m.
Proof. intros [_ Hc] Ha Hin. destruct (Hc a Hin) as (t & ? & _). congruence. Qed.

Lemma started_upd c a t m :
  started c m -> 0 <= m_ms t <= m_next t -> m_next t - m_ms t <= c -> started c (upd a t m).
Proof.
  intros Hs H1 H2 b u. simpl. destruct (decide (a = b)) as [->|].
  - rewrite lookup_insert_eq. by intros [= <-].
  - rewrite lookup_insert_ne by done. apply Hs.
Qed.

Lemma started_mono c c' m : c <= c' -> started c m -> started c' m.
Proof. intros Hc Hs a t Ha. destruct (Hs a t Ha). lia. Qed.

Lemma no_oversleep_upd a t m s : a ∉ m_timers m -> no_oversleep m s -> no_oversleep (upd a t m) s.
Proof.
  intros Ha. apply no_oversleep_later; [done|done|]. simpl. intros b Hb. split; [done|].
  rewrite next_of_insert_ne by (by intros ->). lia.
Qed.

Lemma no_oversleep_erase a m s : Inv m -> no_oversleep m s -> no_oversleep (set_erase a m) s.
Proof.
  intros Hi. apply no_oversleep_later; [done|done|]. simpl. intros b [Hb _]%telem_erase; [|apply Hi]. split; [done|lia].
Qed.

Lemma cancel_ok a b m m' :
  Inv m -> cancel a m = Ret b m' ->
  (b = false /\ m' = m) \/
  (b = true /\ a ∈ m_timers m /\ exists t, heap m !! a = Some t /\ m' = set_erase a (upd a (with_cb None t) m)).
Proof.
  intros Hi. unfold cancel. destruct (heap m !! a) as [t|] eqn:E; [|done]. destruct (m_cb t); [|intros [= <- <-]; by left].
  destruct (set_find _ a) as [x|] eqn:Ef; [|done]. intros [= <- <-]. right. split; [done|]. split; [|by exists t].
  unfold set_find in Ef. simpl in Ef. apply tfind_some in Ef as [_ ?]; [done|].
  eapply tsorted_ext; [|apply Hi]. intros x' _. unfold next_of. destruct (decide (a = x')) as [->|];
    [by rewrite lookup_insert_eq, E|by rewrite lookup_insert_ne].
Qed.

Lemma next_of_with_cb h a t c x : h !! a = Some t -> next_of (<[a := with_cb c t]> h) x = next_of h x.
Proof.
  intros E. unfold next_of. destruct (decide (a = x)) as [->|];
    [by rewrite lookup_insert_eq, E|by rewrite lookup_insert_ne].
Qed.

Lemma GInv_cancel now a t m c s :
  c <= now -> heap m !! a = Some t -> GInv (G m c s) ->
  GInv (G (set_erase a (upd a (with_cb None t) m)) now s).
Proof.
  intros Hc E [Hi Hst Hc0 Hp Hs]. simpl in *. pose proof Hi as [Hsort Hcb].
  assert (tsorted (<[a := with_cb None t]> (heap m)) (m_timers m)) as Hs'.
  { eapply tsorted_ext; [|done]. intros. by rewrite next_of_with_cb. }
  split; simpl; try lia.
  - split; simpl; [by apply (erase_sorted (less _) id)|]. intros x [Hx Hne]%telem_erase; [|done].
    rewrite lookup_insert_ne by done. auto.
  - apply started_upd; [by eapply started_mono| |]; destruct (Hst a t E); simpl; lia.
  - destruct s as [[[? ?] ?]|]; [lia|done].
  - eapply no_oversleep_later; [| | |exact Hs]; [done|done|]. simpl. intros x [Hx _]%telem_erase; [|done].
    split; [done|]. rewrite next_of_with_cb by done. lia.
Qed.

(** Adding a new timer, cancelling a pending one, and cancelling one that has
    left the set with its callback. *)
Lemma addTimer_spec a now ms cb r m :
  Inv m -> heap m !! a = None ->
  Inv (addTimer a now ms cb r m) /\ heap (addTimer a now ms cb r m) = <[a := MkTimer r ms (u64 (now + ms)) (Some cb)]> (heap m)
  /\ forall x, x ∈ m_timers (addTimer a now ms cb r m) <-> x = a \/ x ∈ m_timers m.
Proof.
  intros Hi Ha. pose proof (not_pending a m Hi Ha) as Hn. unfold addTimer. set (t := MkTimer _ _ _ _).
  assert (Inv (upd a t m)) as Hu by by apply Inv_upd. split; [|split].
  - eapply Inv_addTimer_locked; [done|simpl; apply lookup_insert_eq|done].
  - by rewrite heap_addTimer_locked.
  - intros x. unfold addTimer_locked. destruct (_ && _); simpl; by rewrite telem_insert by apply Hu.
Qed.

Lemma cancel_find a t m x :
  Inv m -> heap m !! a = Some t -> set_find (upd a (with_cb x t) m) a = if bool_decide (a ∈ m_timers m) then Some a else None.
Proof.
  intros Hi E. assert (tsorted (<[a := with_cb x t]> (heap m)) (m_timers m)) as Hs.
  { eapply tsorted_ext; [|apply Hi]. intros y _. by rewrite (next_of_with_cb _ _ _ _ _ E). }
  unfold set_find. cbn [upd with_heap heap m_timers]. case_bool_decide; [by apply tfind|by apply tfind_none].
Qed.

Lemma cancel_pending a t m :
  Inv m -> a ∈ m_timers m -> heap m !! a = Some t ->
  exists m', cancel a m = Ret true m' /\ Inv m' /\ heap m' = <[a := with_cb None t]> (heap m)
    /\ forall x, x ∈ m_timers m' <-> x ∈ m_timers m /\ x <> a.
Proof.
  intros Hi Ha E. destruct (inv_cb m Hi a Ha) as (t' & E' & Ht). rewrite E in E'. injection E' as <-.
  unfold cancel. rewrite E. destruct (m_cb t) as [k|] eqn:Ek; [|done]. rewrite cancel_find by done. rewrite bool_decide_true by done.
  eexists. split; [done|]. assert (tsorted (<[a := with_cb None t]> (heap m)) (m_timers m)) as Hs.
  { eapply tsorted_ext; [|apply Hi]. intros y _. by rewrite (next_of_with_cb _ _ _ _ _ E). }
  split_and!; [|done|intros x; by apply telem_erase]. split; simpl; [by apply (erase_sorted (less _) id)|].
  intros x [Hx Hne]%telem_erase; [|done]. rewrite lookup_insert_ne by done. by apply Hi.
Qed.

Lemma cancel_fired a t m : Inv m -> a ∉ m_timers m -> heap m !! a = Some t -> m_cb t <> None -> cancel a m = UB.
Proof.
  intros Hi Ha E Ht. unfold cancel. rewrite E. destruct (m_cb t); [|done]. rewrite cancel_find by done. by rewrite bool_decide_false.
Qed.

(** Taking a pending timer out and back in with a new deadline. *)
Definition reschedule (a : addr) (t : timer) (m : manager) : manager := upd a t (set_erase a m).

Lemma GInv_reschedule now a t m c s :
  c <= now -> GInv (G m c s) -> m_cb t <> None ->
  0 <= m_ms t <= m_next t -> m_next t - m_ms t <= now ->
  GInv (G (reschedule a t m) now s) /\ (a ∉ m_timers (reschedule a t m))
  /\ heap (reschedule a t m) !! a = Some t.
Proof.
  intros Hc [Hi Hst Hc0 Hp Hs] Ht H1 H2. simpl in *. pose proof (not_in_erase a m Hi) as Hn.
  split_and!; [|done|simpl; by rewrite lookup_insert_eq]. split; simpl; try lia.
  - by apply Inv_upd; [apply Inv_erase|].
  - apply started_upd; [exact (started_mono c now _ Hc Hst)|done|done].
  - destruct s as [[[? ?] ?]|]; [lia|done].
  - by apply no_oversleep_upd; [|apply no_oversleep_erase].
Qed.

Lemma GInv_addTimer_locked a t m c s :
  GInv (G m c s) -> a ∉ m_timers m -> heap m !! a = Some t -> m_cb t <> None -> GInv (G (addTimer_locked a m) c s).
Proof.
  intros [Hi Hst Hc0 Hp Hs] Ha E Ht. split; simpl in *; try done.
  - by eapply Inv_addTimer_locked.
  - intros x u. rewrite heap_addTimer_locked. apply Hst.
  - by apply no_oversleep_add.
Qed.

Lemma GInv_wait now m c s : GInv (G m c s) -> c <= now -> GInv (G m now s).
Proof.
  intros [Hi Hst Hc0 Hp Hs] ?. split; simpl in *; try done; [by eapply started_mono|lia|].
  destruct s as [[[? ?] ?]|]; [lia|done].
Qed.

Lemma GInv_add now a ms cb r m c s :
  GInv (G m c s) -> c <= now -> heap m !! a = None -> 0 <= ms -> now + ms < 2 ^ 64 ->
  GInv (G (addTimer a now ms cb r m) now s).
Proof.
  intros HG Hc Hf H0 Hov. pose proof (gi_clock _ HG) as Hc0. simpl in Hc0.
  pose proof (not_pending a m (gi_inv _ HG) Hf) as Hn. unfold addTimer.
  eapply GInv_addTimer_locked; [|done|simpl; by rewrite lookup_insert_eq|done].
  rewrite uw_small by fits. destruct (GInv_wait now m c s HG Hc). simpl in *.
  split; simpl; try done; [by apply Inv_upd|apply started_upd; simpl; (done || lia)|by apply no_oversleep_upd].
Qed.

Lemma GInv_refresh now a t b m m' c s :
  GInv (G m c s) -> c <= now -> heap m !! a = Some t -> now + m_ms t < 2 ^ 64 ->
  refresh a now m = Ret b m' -> GInv (G m' now s).
Proof.
  intros HG Hc Ea Hov E. pose proof (GInv_wait now m c s HG Hc) as HW. pose proof HG as [Hi Hst Hc0 Hp Hs]. simpl in *.
  unfold refresh in E. rewrite Ea in E. destruct (m_cb t) eqn:Ecb; [|by injection E as <- <-].
  destruct (set_find m a) as [x|] eqn:Ef; [|by injection E as <- <-]. injection E as <- <-.
  destruct (Hst a t Ea). rewrite uw_small by fits.
  destruct (GInv_reschedule now a (with_next (now + m_ms t) t) m c s) as ([Hi1 Hst1 ? ? Hs1] & Hn & El);
    simpl; try (done || lia); [congruence|]. simpl in *.
  apply tfind_some in Ef as [_ Hin]; [|apply Hi].
  split; simpl; try done; [eapply (Inv_insert a (reschedule a _ m)); [done|exact El|simpl; congruence]|].
  eapply no_oversleep_later; [| | |exact Hs]; [done|done|]. simpl. intros y Hx.
  apply telem_insert in Hx; [|apply Hi1]. destruct (decide (y = a)) as [->|Hne].
  - split; [done|]. rewrite next_of_insert. simpl. unfold next_of. rewrite Ea. simpl. lia.
  - destruct Hx as [|Hx]; [done|]. apply telem_erase in Hx as [Hx _]; [|apply Hi].
    split; [done|]. rewrite next_of_insert_ne by done. lia.
Qed.

Lemma GInv_reset now a ms f b m m' c s :
  GInv (G m c s) -> c <= now -> 0 <= ms -> now + ms < 2 ^ 64 ->
  reset a now ms f m = Ret b m' -> GInv (G m' now s).
Proof.
  intros HG Hc H0 Hov E. pose proof (GInv_wait now m c s HG Hc) as HW. pose proof HG as [Hi Hst Hc0 Hp Hs]. simpl in *.
  unfold reset in E. destruct (heap m !! a) as [t|] eqn:Ea; [|done].
  destruct (_ && _); [by injection E as <- <-|].
  destruct (m_cb t) eqn:Ecb; [|by injection E as <- <-].
  destruct (set_find m a) as [x|]; [|by injection E as <- <-]. injection E as <- <-.
  destruct (Hst a t Ea). rewrite (uw_small 64 (m_next t - m_ms t)) by fits.
  rewrite uw_small by (unfold in_u; destruct f; lia).
  destruct (GInv_reschedule now a (with_next ((if f then now else m_next t - m_ms t) + ms) (with_ms ms t)) m c s)
    as (HG1 & Hn & El); simpl; try done; [congruence|destruct f; lia|destruct f; lia|].
  eapply (GInv_addTimer_locked a _ (reschedule a _ m)); [done|done|exact El|simpl; congruence].
Qed.

Lemma getNext_spec now r m m' :
  Inv m -> getNextTimer now m = (r, m') ->
  m' = MkManager (heap m) (m_timers m) false (tickles m)
  /\ (m_timers m = [] -> r = 2 ^ 64 - 1)
  /\ (forall a, a ∈ m_timers m -> r <= 0 `max` (next_of (heap m) a - now))
  /\ (m_timers m <> [] -> exists a, a ∈ m_timers m /\ r = 0 `max` (next_of (heap m) a - now)).
Proof.
  intros Hi. pose proof (inv_sorted m Hi) as Hsort. unfold getNextTimer. simpl.
  destruct (m_timers m) as [|f l]; [intros [= <- <-]; split_and!; set_solver|].
  intros E. assert (r = 0 `max` (next_of (heap m) f - now) /\ m' = MkManager (heap m) (f :: l) false (tickles m)) as [-> ->].
  { destruct (Z.leb_spec (next_of (heap m) f) now); injection E as <- <-; split; (done || lia). }
  split_and!; [done|done| |intros _; exists f; split; [set_solver|done]].
  intros a Ha. destruct (sorted_head (less (heap m)) id f l a Hsort Ha) as [->|Hlt]; [lia|].
  unfold id in Hlt. apply less_true in Hlt. lia.
Qed.

Lemma GInv_next now r m m' c s :
  GInv (G m c s) -> c <= now -> getNextTimer now m = (r, m') ->
  GInv (G m' now (Some (now, now + r, tickles m))).
Proof.
  intros [Hi Hst Hc0 Hp Hs] Hc E. simpl in *. destruct (getNext_spec now r m m' Hi E) as (-> & _ & Hr & _).
  split; simpl; try done; [by apply Inv_tickle|by eapply started_mono|lia|].
  split_and!; [done|done|]. right. intros a Ha. specialize (Hr a Ha). lia.
Qed.

Lemma fired_next now u :
  now + m_ms u < 2 ^ 64 -> 0 <= now -> 0 <= m_ms u ->
  m_ms (fired now u) = m_ms u /\ (m_next (fired now u) = m_next u \/ m_next (fired now u) = now + m_ms u).
Proof.
  intros. unfold fired. destruct (m_recurring u); [|auto]. rewrite uw_small by fits. auto.
Qed.

Lemma GInv_expired now tmp cbs m m' c s :
  GInv (G m c s) -> c <= now -> heap m !! tmp = None ->
  (forall a t, heap m !! a = Some t -> now + m_ms t < 2 ^ 64) ->
  listExpiredCb now tmp [] m = (cbs, m') -> GInv (G m' now s).
Proof.
  intros HG Hc Hf Hov E. pose proof HG as [Hi Hst Hc0 Hp Hs]. simpl in *.
  destruct (listExpired_spec now tmp [] m Hi (not_pending tmp m Hi Hf))
    as (l & m1 & E1 & Hi1 & Ht1 & Ht2 & _ & Hl & Hh & Hset).
  rewrite E in E1. injection E1 as _ ->. split; simpl; try done.
  - intros a t. rewrite Hh. destruct (heap m !! a) as [u|] eqn:Eu; [|by case_bool_decide].
    destruct (Hst a u Eu). specialize (Hov a u Eu). destruct (fired_next now u) as [H1 H2]; [lia..|].
    case_bool_decide; simpl; intros [= <-]; lia.
  - lia.
  - destruct s as [[[? ?] ?]|]; [lia|done].
  - eapply no_oversleep_later; [done|done| |exact Hs]. intros a [Ha _]%Hset. split; [done|].
    unfold next_of. rewrite Hh. case_bool_decide as Hin; [|lia]. apply Hl in Hin as [_ Hdue].
    destruct (inv_cb m Hi a Ha) as (u & Eu & _). unfold due, next_of in Hdue. rewrite Eu in *. simpl in *.
    destruct (Hst a u Eu). specialize (Hov a u Eu). destruct (fired_next now u) as [H1 H2]; lia.
Qed.

Lemma GInv_step now o g g' : GInv g -> g_clock g <= now -> step now o g g' -> GInv g'.
Proof.
  intros HG Hc Hs. destruct Hs as [| a b m m' c s E | | | |]; simpl in Hc.
  - by eapply GInv_add.
  - destruct (cancel_ok a b m m' (gi_inv _ HG) E) as [[_ ->]|(_ & _ & t & Et & ->)].
    + by eapply GInv_wait.
    + by eapply GInv_cancel.
  - by eapply GInv_refresh.
  - by eapply GInv_reset.
  - by eapply GInv_next.
  - by eapply GInv_expired.
Qed.

Lemma GInv_reach g : reach g -> GInv g.
Proof.
  induction 1 as [c Hc|now o g g' _ IH Hc Hs]; [|by eapply GInv_step].
  split; simpl; try done. apply Inv_empty.
Qed.

(** ** Properties *)

(** C6. No lost wakeup: in every state the manager reaches through any
    interleaving of its operations at a clock that does not go backwards,
    whoever sleeps on the answer of the last [getNextTimer] either has been
    tickled through [onTimerInsertAtFront] since, or does not sleep past the
    deadline of any pending timer; timers that are refreshed, reset, added or
    fired and rescheduled in between included. *)
Theorem timer_no_lost_wakeup (g : gstate) (t0 wake : Z) (n : nat) :
  reach g -> g_sleep g = Some (t0, wake, n) ->
  (n < tickles (g_m g))%nat
  \/ forall a, a ∈ m_timers (g_m g) -> wake <= next_of (heap (g_m g)) a `max` t0.
Proof.
  intros Hr Hs. pose proof (gi_sleep g (GInv_reach g Hr)) as Hn. rewrite Hs in Hn. apply Hn.
Qed.

(** An execution: a timer, a sleeper, an earlier recurring timer. *)
Definition c18_state : gstate :=
  G (addTimer 2 20 30 8%nat true (snd (getNextTimer 10 (addTimer 1 10 100 7%nat false empty_manager)))) 20
    (Some (10, 110, 1%nat)).
Lemma c18_reach : reach c18_state.
Proof.
  eapply (reach_step 20); [eapply (reach_step 10); [eapply (reach_step 10); [apply (reach_init 0)| |
    apply (step_add 10 1 100 7%nat false)]| |apply (step_next 10 100)]| |apply step_add]; simpl; (lia || done).
Qed.

Lemma timer_no_lost_wakeup_witness :
  reach c18_state /\
  ((1 < tickles (g_m c18_state))%nat
   \/ forall a, a ∈ m_timers (g_m c18_state) -> 110 <= next_of (heap (g_m c18_state)) a `max` 10).
Proof.
  split; [exact c18_reach|]. apply (timer_no_lost_wakeup c18_state 10 110 1 c18_reach). reflexivity.
Defined.

(** [listExpiredCb] fires what is due, in order: from any reachable
    state it appends the callbacks of the pending timers due before [now],
    and possibly of some due exactly then, in the order of their deadlines;
    one-shot timers among them leave the set, recurring ones stay with the
    deadline [now + ms], all other timers keep their place and their
    deadline, and the set stays ordered. *)
Theorem listExpired_fires_due (g : gstate) (now : Z) (tmp : addr) (cbs : list (option callback)) :
  reach g -> heap (g_m g) !! tmp = None ->
  exists expired m', listExpiredCb now tmp cbs (g_m g)
    = (cbs ++ map (fun a => t ← heap (g_m g) !! a; m_cb t) expired, m')
  /\ Inv m' /\ sublist expired (m_timers (g_m g))
  /\ (forall a, a ∈ expired -> next_of (heap (g_m g)) a <= now)
  /\ (forall a, a ∈ m_timers (g_m g) -> next_of (heap (g_m g)) a < now -> a ∈ expired)
  /\ (forall a, a ∈ m_timers m' <-> a ∈ m_timers (g_m g) /\
        (a ∈ expired -> exists t, heap (g_m g) !! a = Some t /\ m_recurring t = true))
  /\ (forall a, heap m' !! a = if bool_decide (a ∈ expired) then fired now <$> heap (g_m g) !! a else heap (g_m g) !! a).
Proof.
  intros Hr Htmp. pose proof (gi_inv g (GInv_reach g Hr)) as Hi.
  destruct (listExpired_spec now tmp cbs (g_m g) Hi (not_pending tmp _ Hi Htmp))
    as (l & m' & E & Hi' & _ & _ & Hsub & Hl & Hh & Hs).
  exists l, m'. split_and!; try done.
  - intros a [_ Hd]%Hl. unfold due in Hd. lia.
  - intros a Ha Hd. apply Hl. unfold due. auto.
Qed.

Lemma listExpired_fires_due_witness :
  exists expired m', listExpiredCb 60 9 [] (g_m c18_state)
    = ([] ++ map (fun a => t ← heap (g_m c18_state) !! a; m_cb t) expired, m')
  /\ Inv m' /\ sublist expired [2; 1]
  /\ (forall a, a ∈ expired -> next_of (heap (g_m c18_state)) a <= 60)
  /\ (forall a, a ∈ m_timers (g_m c18_state) -> next_of (heap (g_m c18_state)) a < 60 -> a ∈ expired).
Proof.
  destruct (listExpired_fires_due c18_state 60 9 [] c18_reach) as (l & m' & H1 & H2 & H3 & H4 & H5 & _);
    [reflexivity|].
  exists l, m'. repeat split; [exact H1|apply H2|apply H2|exact H3|exact H4|exact H5].
Defined.

(** [getNextTimer] answers the time to the earliest deadline: the
    maximal [uint64_t] without timers, otherwise the least over the pending
    timers of the time left (zero when overdue); it changes nothing but the
    [m_tickled] flag. *)
Theorem getNextTimer_is_earliest (g : gstate) (now r : Z) (m' : manager) :
  reach g -> getNextTimer now (g_m g) = (r, m') ->
  m' = MkManager (heap (g_m g)) (m_timers (g_m g)) false (tickles (g_m g))
  /\ (m_timers (g_m g) = [] -> r = 2 ^ 64 - 1)
  /\ (forall a, a ∈ m_timers (g_m g) -> r <= 0 `max` (next_of (heap (g_m g)) a - now))
  /\ (m_timers (g_m g) <> [] -> exists a, a ∈ m_timers (g_m g) /\ r = 0 `max` (next_of (heap (g_m g)) a - now)).
Proof. intros Hr E. apply getNext_spec; [|done]. apply gi_inv, GInv_reach, Hr. Qed.

Lemma getNextTimer_is_earliest_witness :
  getNextTimer 30 (g_m c18_state) = (20, snd (getNextTimer 30 (g_m c18_state)))
  /\ exists a, a ∈ m_timers (g_m c18_state) /\ 20 = 0 `max` (next_of (heap (g_m c18_state)) a - 30).
Proof.
  assert (getNextTimer 30 (g_m c18_state) = (20, snd (getNextTimer 30 (g_m c18_state)))) as E by (vm_compute; reflexivity).
  split; [exact E|].
  destruct (getNextTimer_is_earliest c18_state 30 20 _ c18_reach E) as (_ & _ & _ & H). apply H.
  vm_compute. discriminate.
Defined.

(** *** Behaviour outside those conditions *)

(** [listExpiredCb] keeps [m_cb] of the one-shot timers it removes, so a later
    [cancel] of such a timer erases [end()]. *)
Theorem cancel_after_fire_is_undefined :
  let m := addTimer 1 10 100 7%nat false empty_manager in
  let '(cbs, m) := listExpiredCb 200 9 [] m in
  cbs = [Some 7%nat] /\ m_timers m = [] /\ cancel 1 m = UB.
Proof. vm_compute. repeat split. Qed.

(** Of two timers due at exactly the same instant, the address of the search
    object decides which one fires. *)
Theorem equal_deadline_depends_on_address :
  let m := addTimer 1 0 50 7%nat false (addTimer 5 0 50 8%nat false empty_manager) in
  fst (listExpiredCb 50 3 [] m) = [Some 7%nat] /\ fst (listExpiredCb 50 9 [] m) = [Some 7%nat; Some 8%nat].
Proof. vm_compute. split; reflexivity. Qed.

End Timer.
