(* ===== verification/IOManager.v ===== *)
(** * The event loop: [luwu/luwu/iomanager.cpp]

    The contexts of the file descriptors, the count of pending events, the
    interest set that the kernel keeps for the epoll descriptor, and the tasks
    handed to schedulers.  Each critical section is one step: the lookup of a
    context holds the lock of the vector, the rest of an operation the mutex of
    the context.  The timers that the loop also serves are in [Timer]. *)
From S2P Require Import Prelude.
Local Open Scope Z_scope.

Module IOManager.

(** [Event]; the values are those of epoll. *)
Definition NONE : Z := 0x0.
Definition READ : Z := 0x1.
Definition WRITE : Z := 0x4.
Definition EPOLLIN : Z := 0x1.
Definition EPOLLOUT : Z := 0x4.
Definition EPOLLERR : Z := 0x8.
Definition EPOLLHUP : Z := 0x10.

(** Schedulers, fibers and callbacks are known by number. *)
Record EventContext := MkEventContext { scheduler : option N; fiber : option N; cb : option N }.
Definition empty_context : EventContext := MkEventContext None None None.
Record FdContext := MkFdContext { read : EventContext; write : EventContext; event : Z }.
Definition new_FdContext : FdContext := MkFdContext empty_context empty_context NONE.

(** A task that was given to a scheduler. *)
Inductive task := RunCb (s c : N) | RunFiber (s f : N).
#[export] Instance task_eq_decision : EqDecision task.
Proof. solve_decision. Defined.

Record io := MkIo {
  m_fdContexts : list FdContext;
  m_pendingEventCount : Z;
  interest : gmap Z Z;
  scheduled : list task;
}.

(** ** [FdContext] *)
Definition getEventContext (e : Z) (c : FdContext) : option EventContext :=
  if e =? READ then Some (read c) else if e =? WRITE then Some (write c) else None.
Definition setEventContext (e : Z) (x : EventContext) (c : FdContext) : FdContext :=
  if e =? READ then MkFdContext x (write c) (event c) else MkFdContext (read c) x (event c).
Definition set_event (e : Z) (c : FdContext) : FdContext := MkFdContext (read c) (write c) e.

(** [event & ~e]. *)
Definition without (m e : Z) : Z := Z.land m (Z.lnot e).
Definition has (m e : Z) : bool := negb (Z.land m e =? 0).

(** [triggerEvent]: the task handed to the scheduler of the event. *)
Definition triggerEvent (e : Z) (c : FdContext) : outcome (list task) FdContext :=
  if negb (has (event c) e) then Throw AssertFailed [] else
  let c := set_event (without (event c) e) c in
  match getEventContext e c with
  | None => Throw AssertFailed []
  | Some x =>
      match scheduler x with
      | None => UB
      | Some s =>
          match cb x, fiber x with
          | Some k, _ => Ret (setEventContext e empty_context c) [RunCb s k]
          | None, Some f => Ret (setEventContext e empty_context c) [RunFiber s f]
          | None, None => Ret (setEventContext e empty_context c) []   (* an empty task is not queued *)
          end
      end
  end.

(** ** The kernel *)
Inductive op := ADD | MOD | DEL.

(** [epoll_ctl]: [up] is false when it fails for a reason of its own. *)
Definition epoll_ctl (up : bool) (o : op) (fd events : Z) (m : gmap Z Z) : option (gmap Z Z) :=
  if negb up then None else
  match o, m !! fd with
  | ADD, None => Some (<[fd := events]> m)
  | MOD, Some _ => Some (<[fd := events]> m)
  | DEL, Some _ => Some (delete fd m)
  | _, _ => None
  end.

(** ** [IOManager] *)

(** [contextResize]: the vector gets exactly [n] entries. *)
Definition contextResize (n : Z) (l : list FdContext) : list FdContext :=
  ztake n l ++ replicate (Z.to_nat (n - zlen l)) new_FdContext.

Definition create : io := MkIo (contextResize 32 []) 0 ∅ [].

Definition ctx (fd : Z) (s : io) : option FdContext := if fd <? 0 then None else m_fdContexts s !! Z.to_nat fd.
Definition put (fd : Z) (c : FdContext) (s : io) : io :=
  MkIo (<[Z.to_nat fd := c]> (m_fdContexts s)) (m_pendingEventCount s) (interest s) (scheduled s).
Definition with_interest (m : gmap Z Z) (s : io) : io := MkIo (m_fdContexts s) (m_pendingEventCount s) m (scheduled s).
Definition add_pending (d : Z) (s : io) : io := MkIo (m_fdContexts s) (u64 (m_pendingEventCount s + d)) (interest s) (scheduled s).
Definition schedule (ts : list task) (s : io) : io :=
  MkIo (m_fdContexts s) (m_pendingEventCount s) (interest s) (scheduled s ++ ts).

(** The critical sections of [addEvent].  Under the read lock: is the vector
    long enough for [fd]? *)
Definition has_context (fd : Z) (s : io) : bool := fd <? zlen (m_fdContexts s).
(** Under the write lock, taken after the read lock was given back: the
    vector gets [fd * 2] entries, an [int] product, even if it has more by now. *)
Definition enlarge (fd : Z) : M io unit := fun s =>
  if 2 ^ 31 <=? fd * 2 then UB
  else Ret tt (MkIo (contextResize (fd * 2) (m_fdContexts s)) (m_pendingEventCount s) (interest s) (scheduled s)).
(** Under the mutex of the context; [this] is [Scheduler::GetThis()], [self]
    the running fiber. *)
Definition add_locked (up : bool) (this : option N) (self : N) (fd e : Z) (k : option N) : M io bool := fun s =>
  match ctx fd s with
  | None => UB
  | Some c =>
      if has (event c) e then Throw AssertFailed s else
      match epoll_ctl up (if event c =? 0 then ADD else MOD) fd (Z.lor (event c) e) (interest s) with
      | None => Ret false s
      | Some m =>
          let s := add_pending 1 (with_interest m s) in
          let c := set_event (Z.lor (event c) e) c in
          match getEventContext e c with
          | Some (MkEventContext None None None) =>
              let x := match k with
                       | Some k => MkEventContext this None (Some k)
                       | None => MkEventContext this (Some self) None
                       end in
              Ret true (put fd (setEventContext e x c) s)
          | _ => Throw AssertFailed (put fd c s)
          end
      end
  end.
(** [addEvent] when no other thread gets between its critical sections. *)
Definition addEvent (up : bool) (this : option N) (self : N) (fd e : Z) (k : option N) : M io bool := fun s =>
  if has_context fd s then add_locked up this self fd e k s
  else let* _, s := enlarge fd s in add_locked up this self fd e k s.

Definition delEvent (up : bool) (fd e : Z) : M io bool := fun s =>
  if zlen (m_fdContexts s) <=? fd then Ret false s else
  match ctx fd s with
  | None => UB
  | Some c =>
      if negb (has (event c) e) then Ret false s else
      let new_event := without (event c) e in
      match epoll_ctl up (if new_event =? 0 then DEL else MOD) fd new_event (interest s) with
      | None => Ret false s
      | Some m =>
          let s := add_pending (-1) (with_interest m s) in
          match getEventContext e c with
          | None => Throw AssertFailed s
          | Some _ => Ret true (put fd (setEventContext e empty_context (set_event new_event c)) s)
          end
      end
  end.

(** [triggerEvent] and the decrement of the count, on the context of [fd]. *)
Definition fire (fd e : Z) (c : FdContext) : M io FdContext := fun s =>
  match triggerEvent e c with
  | Ret c ts => Ret c (add_pending (-1) (schedule ts (put fd c s)))
  | Throw x _ => Throw x s
  | UB => UB
  | NoFuel => NoFuel
  end.

Definition cancelEvent (up : bool) (fd e : Z) : M io bool := fun s =>
  if zlen (m_fdContexts s) <=? fd then Ret false s else
  match ctx fd s with
  | None => UB
  | Some c =>
      if negb (has (event c) e) then Ret false s else
      let new_event := without (event c) e in
      match epoll_ctl up (if new_event =? 0 then DEL else MOD) fd new_event (interest s) with
      | None => Ret false s
      | Some m => let* _, s := fire fd e c (with_interest m s) in Ret true s
      end
  end.

(** Trigger the events of [m] among READ and WRITE. *)
Definition fire_set (fd m : Z) (c : FdContext) : M io FdContext := fun s =>
  let* c, s := (if has m READ then fire fd READ c s else Ret c s) in
  if has m WRITE then fire fd WRITE c s else Ret c s.

Definition cancelAll (up : bool) (fd : Z) : M io bool := fun s =>
  if zlen (m_fdContexts s) <=? fd then Ret false s else
  match ctx fd s with
  | None => UB
  | Some c =>
      if event c =? 0 then Ret false s else
      match epoll_ctl up DEL fd 0 (interest s) with
      | None => Ret false s
      | Some m =>
          let* c, s := fire_set fd (event c) c (with_interest m s) in
          if event c =? 0 then Ret true s else Throw AssertFailed s
      end
  end.

(** What [idle] does with one event that [epoll_wait] reported. *)
Definition handle_ready (up : bool) (fd events : Z) : M io unit := fun s =>
  match ctx fd s with
  | None => UB
  | Some c =>
      let events := if has events (Z.lor EPOLLERR EPOLLHUP)
                    then Z.lor events (Z.land (Z.lor EPOLLIN EPOLLOUT) (event c)) else events in
      let real := Z.lor (if has events EPOLLIN then READ else NONE) (if has events EPOLLOUT then WRITE else NONE) in
      if Z.land (event c) real =? NONE then Ret tt s else
      let left_ := without (event c) real in
      match epoll_ctl up (if left_ =? 0 then DEL else MOD) fd left_ (interest s) with
      | None => Ret tt s
      | Some m => let* _, s := fire_set fd real c (with_interest m s) in Ret tt s
      end
  end.

(** The loop of [idle] over the reported events. *)
Fixpoint handle_all (l : list (bool * Z * Z)) : M io unit := fun s =>
  match l with
  | [] => Ret tt s
  | (up, fd, events) :: l => let* _, s := handle_ready up fd events s in handle_all l s
  end.

(** [stopping(timeout)]: [next] is [getNextTimer()], [base] the answer of
    [Scheduler::stopping()]. *)
Definition stopping (next : Z) (base : bool) (s : io) : bool :=
  (next =? 2 ^ 64 - 1) && (m_pendingEventCount s =? 0) && base.

(** The timeout of [epoll_wait]. *)
Definition MAX_TIMEOUT : Z := 3000.
Definition wait_timeout (next : Z) : Z :=
  if negb (next =? 2 ^ 64 - 1) then s32 (u64 (Z.min (s32 next) MAX_TIMEOUT)) else MAX_TIMEOUT.

(** ** Contexts by what they wait for

    A context in use is determined by the task of each of its two events. *)
Definition slot_of (t : option task) : EventContext :=
  match t with
  | None => empty_context
  | Some (RunCb s k) => MkEventContext (Some s) None (Some k)
  | Some (RunFiber s f) => MkEventContext (Some s) (Some f) None
  end.
Definition mask (r w : option task) : Z :=
  Z.lor (match r with Some _ => READ | None => NONE end) (match w with Some _ => WRITE | None => NONE end).
Definition ctx_of (r w : option task) : FdContext := MkFdContext (slot_of r) (slot_of w) (mask r w).

Definition task_of (x : EventContext) : list task :=
  match scheduler x, cb x, fiber x with
  | Some s, Some k, _ => [RunCb s k]
  | Some s, None, Some f => [RunFiber s f]
  | _, _, _ => []
  end.
Definition tasks (c : FdContext) : list task := task_of (read c) ++ task_of (write c).
(** All tasks that wait for an event. *)
Definition registered (s : io) : list task := concat (map tasks (m_fdContexts s)).

Lemma tasks_ctx_of r w : tasks (ctx_of r w) = option_list r ++ option_list w.
Proof. by destruct r as [[]|], w as [[]|]. Qed.

Lemma ctx_of_inj r w r' w' : ctx_of r w = ctx_of r' w' -> r = r' /\ w = w'.
Proof.
  intros [= H1 H2 _]. split.
  - destruct r as [[]|], r' as [[]|]; unfold slot_of, empty_context in H1; congruence.
  - destruct w as [[]|], w' as [[]|]; unfold slot_of, empty_context in H2; congruence.
Qed.

(** One step of the bookkeeping of a descriptor. *)
Definition upd (fd : Z) (c : FdContext) (m : gmap Z Z) (ts : list task) (d : Z) (s : io) : io :=
  MkIo (<[Z.to_nat fd := c]> (m_fdContexts s)) (u64 (m_pendingEventCount s + d)) m (scheduled s ++ ts).

Lemma upd_upd fd c1 m1 ts1 d1 c2 m2 ts2 d2 s :
  upd fd c2 m2 ts2 d2 (upd fd c1 m1 ts1 d1 s) = upd fd c2 m2 (ts1 ++ ts2) (d1 + d2) s.
Proof.
  unfold upd. simpl. rewrite list_insert_insert_eq, <- app_assoc. f_equal.
  unfold uw. rewrite Zplus_mod_idemp_l. f_equal. lia.
Qed.

Lemma fire_read fd t w m s :
  fire fd READ (ctx_of (Some t) w) (with_interest m s) = Ret (ctx_of None w) (upd fd (ctx_of None w) m [t] (-1) s).
Proof. by destruct t, w as [[]|]. Qed.
Lemma fire_write fd t r m s :
  fire fd WRITE (ctx_of r (Some t)) (with_interest m s) = Ret (ctx_of r None) (upd fd (ctx_of r None) m [t] (-1) s).
Proof. by destruct t, r as [[]|]. Qed.

(** The events of [m] fire when they are all registered. *)
Definition keep (b : bool) (t : option task) : option task := if b then None else t.
Definition fired (b : bool) (t : option task) : list task := if b then option_list t else [].
Lemma fire_set_ok fd r w (br bw : bool) m s :
  (br = true -> is_Some r) -> (bw = true -> is_Some w) -> m_pendingEventCount s = u64 (m_pendingEventCount s) ->
  m_fdContexts s !! Z.to_nat fd = Some (ctx_of r w) ->
  fire_set fd (Z.lor (if br then READ else NONE) (if bw then WRITE else NONE)) (ctx_of r w) (with_interest m s)
    = Ret (ctx_of (keep br r) (keep bw w))
        (upd fd (ctx_of (keep br r) (keep bw w)) m (fired br r ++ fired bw w) (- Z.of_nat (length (fired br r ++ fired bw w))) s).
Proof.
  intros Hr Hw Hp Hc. unfold fire_set. destruct br, bw; cbn [keep fired].
  - destruct (Hr eq_refl) as [a ->], (Hw eq_refl) as [b ->]. simpl has. cbv iota. rewrite fire_read. cbn [obind].
    etransitivity; [apply (fire_write fd b None m (upd fd (ctx_of None (Some b)) m [a] (-1) s))|]. by rewrite upd_upd.
  - destruct (Hr eq_refl) as [a ->]. simpl has. cbv iota. rewrite fire_read. done.
  - destruct (Hw eq_refl) as [b ->]. apply (fire_write fd b r m s).
  - simpl has. cbv iota. cbn [obind]. f_equal. unfold upd, with_interest. simpl.
    rewrite list_insert_id by done. rewrite app_nil_r, Z.add_0_r, <- Hp. done.
Qed.

(** ** The invariant *)
Definition expected (s : io) (fd : Z) : option Z :=
  match ctx fd s with Some c => if event c =? 0 then None else Some (event c) | None => None end.
Record Inv (s : io) : Prop := {
  inv_size : 32 <= zlen (m_fdContexts s);
  inv_ctx i c : m_fdContexts s !! i = Some c -> exists r w, c = ctx_of r w;
  inv_interest fd : interest s !! fd = expected s fd;
  inv_pending : m_pendingEventCount s = u64 (Z.of_nat (length (registered s)));
}.

Lemma concat_update {A B} (f : A -> list B) l i c :
  l !! i = Some c ->
  exists rest, concat (map f l) ≡ₚ f c ++ rest /\ forall c', concat (map f (<[i := c']> l)) ≡ₚ f c' ++ rest.
Proof.
  intros Hi. exists (concat (map f (take i l)) ++ concat (map f (drop (S i) l))).
  assert (forall x, concat (map f (take i l)) ++ f x ++ concat (map f (drop (S i) l))
    ≡ₚ f x ++ concat (map f (take i l)) ++ concat (map f (drop (S i) l))) as Hx.
  { intros x. rewrite !app_assoc. by rewrite (Permutation_app_comm (concat (map f (take i l))) (f x)). }
  split.
  - rewrite <- (take_drop_middle l i c Hi) at 1. rewrite map_app, concat_app. simpl. apply Hx.
  - intros c'. rewrite insert_take_drop by (by eapply lookup_lt_Some). rewrite map_app, concat_app. simpl. apply Hx.
Qed.

Lemma Inv_pending s : Inv s -> m_pendingEventCount s = u64 (m_pendingEventCount s).
Proof. intros [_ _ _ ->]. symmetry. apply uw_small, uw_range. lia. Qed.

Lemma ctx_lookup fd s c : ctx fd s = Some c -> 0 <= fd /\ m_fdContexts s !! Z.to_nat fd = Some c.
Proof. unfold ctx. destruct (Z.ltb_spec fd 0); [done|]. intros. split; [lia|done]. Qed.

(** A step on [fd] keeps the invariant, and the waiting tasks change by
    those of its context. *)
Lemma io_Inv_upd fd r w r' w' m ts s :
  Inv s -> ctx fd s = Some (ctx_of r w) ->
  m !! fd = (if mask r' w' =? 0 then None else Some (mask r' w')) -> (forall i, i <> fd -> m !! i = interest s !! i) ->
  let d := Z.of_nat (length (option_list r' ++ option_list w')) - Z.of_nat (length (option_list r ++ option_list w)) in
  Inv (upd fd (ctx_of r' w') m ts d s)
  /\ exists rest, registered s ≡ₚ (option_list r ++ option_list w) ++ rest
       /\ registered (upd fd (ctx_of r' w') m ts d s) ≡ₚ (option_list r' ++ option_list w') ++ rest.
Proof.
  intros [H1 H2 H3 H4] Hc Hm Hne d. pose proof (ctx_lookup _ _ _ Hc) as [Hfd Hl].
  destruct (concat_update tasks _ _ _ Hl) as (rest & Hr1 & Hr2).
  rewrite tasks_ctx_of in Hr1. pose proof (Hr2 (ctx_of r' w')) as Hr3. rewrite tasks_ctx_of in Hr3.
  split; [|exists rest; by split]. split.
  - simpl. unfold zlen in *. by rewrite length_insert.
  - intros i c. simpl. intros [(<- & <- & _)|[_ Hi]]%list_lookup_insert_Some; eauto.
  - intros i. unfold expected, ctx. cbn [upd interest m_fdContexts]. destruct (decide (i = fd)) as [->|Hi].
    + destruct (Z.ltb_spec fd 0); [lia|]. rewrite list_lookup_insert_eq by (by eapply lookup_lt_Some). exact Hm.
    + rewrite Hne, H3 by done. unfold expected, ctx. destruct (Z.ltb_spec i 0); [done|].
      by rewrite list_lookup_insert_ne by lia.
  - cbn [upd m_pendingEventCount]. rewrite H4. unfold registered at 2. cbn [m_fdContexts upd].
    rewrite Hr3. unfold registered. rewrite Hr1. unfold uw. rewrite Zplus_mod_idemp_l. f_equal.
    unfold d. rewrite !length_app. lia.
Qed.

(** ** The operations under the invariant *)
Definition is_event (e : Z) : Prop := e = READ \/ e = WRITE.
Definition waiting (e : Z) (r w : option task) : option task := if e =? READ then r else w.

(** The task that waits for an event of a descriptor. *)
Definition slot_task (fd e : Z) (s : io) : list task :=
  match ctx fd s with Some c => match getEventContext e c with Some x => task_of x | None => [] end | None => [] end.
Lemma slot_task_ok fd e s r w : is_event e -> ctx fd s = Some (ctx_of r w) -> slot_task fd e s = option_list (waiting e r w).
Proof. intros He Hc. unfold slot_task. rewrite Hc. destruct He as [-> | ->]; [by destruct r as [[]|]|by destruct w as [[]|]]. Qed.
Lemma slot_upd fd r w r' w' m ts d s i e :
  is_event e -> ctx fd s = Some (ctx_of r w) ->
  slot_task i e (upd fd (ctx_of r' w') m ts d s) = if i =? fd then option_list (waiting e r' w') else slot_task i e s.
Proof.
  intros He Hc. destruct (ctx_lookup _ _ _ Hc) as [H0 Hl]. destruct (Z.eqb_spec i fd) as [->|Hi].
  - apply slot_task_ok; [done|]. unfold ctx, upd. cbn [m_fdContexts]. destruct (Z.ltb_spec fd 0); [lia|].
    by rewrite list_lookup_insert_eq by (by eapply lookup_lt_Some).
  - unfold slot_task, ctx, upd. cbn [m_fdContexts]. destruct (Z.ltb_spec i 0); [done|]. by rewrite list_lookup_insert_ne by lia.
Qed.

(** What an operation did: the tasks that began to wait, those that stopped
    waiting, and those among the latter that were scheduled. *)
Record effect (s s' : io) (new gone ran : list task) : Prop := {
  ef_inv : Inv s';
  ef_waiting : registered s' ++ gone ≡ₚ registered s ++ new;
  ef_scheduled : scheduled s' = scheduled s ++ ran;
  ef_slot fd e : is_event e -> slot_task fd e s' = slot_task fd e s
    \/ (slot_task fd e s' = [] /\ slot_task fd e s ⊆ gone) \/ (slot_task fd e s = [] /\ slot_task fd e s' ⊆ new);
}.

Lemma effect_refl s : Inv s -> effect s s [] [] [].
Proof. split; [done|by rewrite app_nil_r|by rewrite app_nil_r|by left]. Qed.
#[local] Hint Resolve effect_refl : luwu.

(** The state in which the context of [fd] exists, if the vector only grows. *)
Definition resized (n : Z) (s : io) : io :=
  MkIo (contextResize n (m_fdContexts s)) (m_pendingEventCount s) (interest s) (scheduled s).
Definition grow (fd : Z) (s : io) : io := if has_context fd s then s else resized (fd * 2) s.
Definition is_fd (fd : Z) : Prop := 0 <= fd < 2 ^ 30.

Lemma addEvent_grow up this self fd e k s : is_fd fd -> addEvent up this self fd e k s = add_locked up this self fd e k (grow fd s).
Proof.
  intros Hfd. unfold addEvent, grow, enlarge. destruct (has_context fd s); [done|]. unfold is_fd in Hfd.
  destruct (Z.leb_spec (2 ^ 31) (fd * 2)); [lia|done].
Qed.

(** Lengthening the vector is no change for those who wait. *)
Lemma resized_ok n s :
  Inv s -> zlen (m_fdContexts s) <= n ->
  Inv (resized n s) /\ registered (resized n s) = registered s
  /\ forall i, 0 <= i < n -> exists r w, ctx i (resized n s) = Some (ctx_of r w).
Proof.
  intros Hinv Hn. pose proof Hinv as [H1 H2 H3 H4]. unfold resized, contextResize. rewrite ztake_all by lia.
  set (k := Z.to_nat (n - zlen (m_fdContexts s))).
  assert (forall i, (m_fdContexts s ++ replicate k new_FdContext) !! i
    = match m_fdContexts s !! i with Some c => Some c | None => if decide (i < length (m_fdContexts s) + k)%nat then Some new_FdContext else None end) as Hlk.
  { intros i. destruct (m_fdContexts s !! i) as [c|] eqn:E; [by apply lookup_app_l_Some|].
    apply lookup_ge_None in E. rewrite lookup_app_r by done. case_decide.
    - apply lookup_replicate_2. lia.
    - apply lookup_replicate_None. lia. }
  assert (forall k, concat (map tasks (replicate k new_FdContext)) = []) as Hz by (clear; induction k as [|k IHk]; [done|exact IHk]).
  split_and!.
  - split; simpl.
    + rewrite zlen_app. pose proof (zlen_nonneg (replicate k new_FdContext)). lia.
    + intros i c. rewrite Hlk. destruct (m_fdContexts s !! i) eqn:E; [intros [= <-]; eauto|].
      case_decide; [|done]. intros [= <-]. by exists None, None.
    + intros i. rewrite H3. unfold expected, ctx. simpl. destruct (i <? 0); [done|]. rewrite Hlk.
      destruct (m_fdContexts s !! Z.to_nat i); [done|]. by case_decide.
    + unfold registered in *. simpl. by rewrite map_app, concat_app, Hz, app_nil_r.
  - unfold registered. simpl. by rewrite map_app, concat_app, Hz, app_nil_r.
  - intros i Hi. unfold ctx. simpl. destruct (Z.ltb_spec i 0); [lia|]. rewrite Hlk.
    destruct (m_fdContexts s !! Z.to_nat i) as [c|] eqn:E; [destruct (H2 _ _ E) as (r & w & ->); eauto|].
    rewrite decide_True by (unfold k, zlen in *; lia). by exists None, None.
Qed.

Lemma slot_resized n i e s : zlen (m_fdContexts s) <= n -> slot_task i e (resized n s) = slot_task i e s.
Proof.
  intros Hz. unfold slot_task, ctx, resized, contextResize. cbn [m_fdContexts]. destruct (Z.ltb_spec i 0); [done|].
  rewrite ztake_all by done. destruct (m_fdContexts s !! Z.to_nat i) as [c|] eqn:E; [by rewrite (lookup_app_l_Some _ _ _ _ E)|].
  apply lookup_ge_None in E. rewrite lookup_app_r by done. destruct (replicate _ new_FdContext !! _) as [c|] eqn:E'; [|done].
  apply lookup_replicate in E' as [-> _]. unfold getEventContext. destruct (e =? READ), (e =? WRITE); done.
Qed.

(** The context of a descriptor that the vector has. *)
Lemma ctx_exists s fd : Inv s -> 0 <= fd < zlen (m_fdContexts s) -> exists r w, ctx fd s = Some (ctx_of r w).
Proof.
  intros [_ H2 _ _] Hfd. unfold ctx. destruct (Z.ltb_spec fd 0); [lia|].
  destruct (lookup_lt_is_Some_2 (m_fdContexts s) (Z.to_nat fd)) as [c Hc]; [unfold zlen in *; lia|].
  destruct (H2 _ _ Hc) as (r & w & ->). eauto.
Qed.

Lemma grow_ok fd s :
  Inv s -> 0 <= fd -> Inv (grow fd s) /\ registered (grow fd s) = registered s /\ scheduled (grow fd s) = scheduled s
    /\ exists r w, ctx fd (grow fd s) = Some (ctx_of r w).
Proof.
  intros Hinv Hfd. unfold grow, has_context. destruct (Z.ltb_spec fd (zlen (m_fdContexts s))) as [Hlt|Hge].
  - split_and!; try done. by apply ctx_exists.
  - pose proof (inv_size _ Hinv). destruct (resized_ok (fd * 2) s Hinv) as (H1 & H2 & H3); [lia|]. split_and!; try done. apply H3. lia.
Qed.

Lemma slot_grow fd i e s : slot_task i e (grow fd s) = slot_task i e s.
Proof.
  unfold grow, has_context. destruct (Z.ltb_spec fd (zlen (m_fdContexts s))) as [|Hge]; [done|].
  apply slot_resized. pose proof (zlen_nonneg (m_fdContexts s)). lia.
Qed.

(** Changing the interest of a descriptor that has one. *)
Definition set_interest (fd n : Z) (m : gmap Z Z) : gmap Z Z := if n =? 0 then delete fd m else <[fd := n]> m.
Lemma epoll_change up fd n s v :
  interest s !! fd = Some v ->
  epoll_ctl up (if n =? 0 then DEL else MOD) fd n (interest s) = if up then Some (set_interest fd n (interest s)) else None.
Proof. intros H. unfold epoll_ctl, set_interest. destruct up; [|done]. destruct (n =? 0); simpl; by rewrite H. Qed.
Lemma set_interest_eq fd n m : set_interest fd n m !! fd = if n =? 0 then None else Some n.
Proof. unfold set_interest. destruct (n =? 0); [apply lookup_delete_eq|apply lookup_insert_eq]. Qed.
Lemma set_interest_ne fd n m i : i <> fd -> set_interest fd n m !! i = m !! i.
Proof. intros. unfold set_interest. destruct (n =? 0); [by rewrite lookup_delete_ne|by rewrite lookup_insert_ne]. Qed.

Lemma has_mask e r w : is_event e -> has (mask r w) e = bool_decide (is_Some (waiting e r w)).
Proof. intros [-> | ->]; by destruct r as [[]|], w as [[]|]. Qed.

Lemma interest_waiting s fd e r w :
  Inv s -> is_event e -> ctx fd s = Some (ctx_of r w) -> is_Some (waiting e r w) -> interest s !! fd = Some (mask r w).
Proof.
  intros [_ _ H3 _] He Hc Hw. rewrite H3. unfold expected. rewrite Hc. cbn [event ctx_of].
  destruct He as [-> | ->], Hw as [t Ht]; cbn [waiting] in Ht; destruct r as [[]|], w as [[]|]; done.
Qed.

(** How the task of an event can change. *)
Definition moved (t t' : option task) (new gone : list task) : Prop :=
  t' = t \/ (t' = None /\ option_list t ⊆ gone) \/ (t = None /\ option_list t' ⊆ new).

(** The step that the operations come down to. *)
Lemma effect_upd fd r w r' w' m ts d s new gone :
  Inv s -> ctx fd s = Some (ctx_of r w) ->
  m !! fd = (if mask r' w' =? 0 then None else Some (mask r' w')) -> (forall i, i <> fd -> m !! i = interest s !! i) ->
  d = Z.of_nat (length (option_list r' ++ option_list w')) - Z.of_nat (length (option_list r ++ option_list w)) ->
  (option_list r' ++ option_list w') ++ gone ≡ₚ (option_list r ++ option_list w) ++ new ->
  moved r r' new gone -> moved w w' new gone ->
  effect s (upd fd (ctx_of r' w') m ts d s) new gone ts.
Proof.
  intros Hinv Hc Hm Hne -> Hp Hr Hw. destruct (io_Inv_upd fd r w r' w' m ts s Hinv Hc Hm Hne) as (H1 & rest & H2 & H3).
  split; [done| |done|].
  2:{ intros i e He. rewrite (slot_upd fd r w) by done. destruct (Z.eqb_spec i fd) as [->|]; [|by left].
      rewrite (slot_task_ok fd e s r w He Hc). destruct He as [-> | ->]; cbn [waiting];
        [destruct Hr as [->|[[-> ?]|[-> ?]]]|destruct Hw as [->|[[-> ?]|[-> ?]]]]; cbn; auto. } rewrite H3, H2. rewrite <- !app_assoc, (Permutation_app_comm rest gone), (Permutation_app_comm rest new).
  rewrite !app_assoc. by rewrite Hp.
Qed.

Definition new_task (sc self : N) (k : option N) : task := match k with Some k => RunCb sc k | None => RunFiber sc self end.

Lemma add_locked_ok up sc self fd e k s r w :
  Inv s -> is_event e -> ctx fd s = Some (ctx_of r w) ->
  (add_locked up (Some sc) self fd e k s = Throw AssertFailed s /\ is_Some (waiting e r w))
  \/ (exists s', add_locked up (Some sc) self fd e k s = Ret up s' /\ effect s s' (if up then [new_task sc self k] else []) [] []
      /\ waiting e r w = None).
Proof.
  intros Hinv He Hc. unfold add_locked. rewrite Hc. cbn [event ctx_of]. rewrite has_mask by done.
  case_bool_decide as Hw; [left; eauto|right].
  assert (waiting e r w = None) as Hn by (destruct (waiting e r w); [exfalso; eauto|done]).
  assert (epoll_ctl up (if mask r w =? 0 then ADD else MOD) fd (Z.lor (mask r w) e) (interest s)
    = if up then Some (<[fd := Z.lor (mask r w) e]> (interest s)) else None) as ->.
  { unfold epoll_ctl. destruct up; [|done]. rewrite (inv_interest _ Hinv). unfold expected. rewrite Hc. cbn [event ctx_of negb].
    by destruct (mask r w =? 0). }
  destruct up; [|exists s; split; [done|split; [by apply effect_refl|done]]].
  exists (upd fd (if e =? READ then ctx_of (Some (new_task sc self k)) w else ctx_of r (Some (new_task sc self k)))
    (<[fd := Z.lor (mask r w) e]> (interest s)) [] 1 s).
  split; [|split; [|done]].
  - destruct He as [-> | ->]; [change (waiting READ r w) with r in Hn|change (waiting WRITE r w) with w in Hn]; subst;
      [destruct k, w as [[]|]|destruct k, r as [[]|]]; unfold upd; simpl; by rewrite app_nil_r.
  - destruct He as [-> | ->]; [change (waiting READ r w) with r in Hn|change (waiting WRITE r w) with w in Hn]; subst.
    + apply (effect_upd fd None w); [done|done|..].
      * rewrite lookup_insert_eq. by destruct w as [[]|].
      * intros i Hi. by rewrite lookup_insert_ne.
      * by destruct w.
      * simpl. rewrite app_nil_r. destruct w; simpl; [apply Permutation_swap|done].
      * right; right. by split.
      * by left.
    + apply (effect_upd fd r None); [done|done|..].
      * rewrite lookup_insert_eq. by destruct r as [[]|].
      * intros i Hi. by rewrite lookup_insert_ne.
      * by destruct r.
      * simpl. by rewrite !app_nil_r.
      * by left.
      * right; right. by split.
Qed.

(** The whole of [addEvent], undisturbed. *)
Lemma addEvent_ok up sc self fd e k s :
  Inv s -> is_fd fd -> is_event e ->
  (addEvent up (Some sc) self fd e k s = Throw AssertFailed (grow fd s) /\ exists r w, ctx fd (grow fd s) = Some (ctx_of r w) /\ is_Some (waiting e r w))
  \/ (exists s', addEvent up (Some sc) self fd e k s = Ret up s' /\ effect s s' (if up then [new_task sc self k] else []) [] []
      /\ forall r w, ctx fd (grow fd s) = Some (ctx_of r w) -> waiting e r w = None).
Proof.
  intros Hinv Hfd He. rewrite addEvent_grow by done. destruct (grow_ok fd s Hinv (proj1 Hfd)) as (Hg & Hreg & Hsch & r & w & Hc).
  destruct (add_locked_ok up sc self fd e k (grow fd s) r w Hg He Hc) as [[E Hw]|(s' & E & [Hf1 Hf2 Hf3 Hf4] & Hn)]; [left; eauto|right].
  exists s'. split; [done|]. split.
  - split; [done|by rewrite <- Hreg|by rewrite <- Hsch|]. intros i e0 He0. rewrite <- (slot_grow fd i e0 s). by apply Hf4.
  - intros r2 w2. rewrite Hc. intros Hq%(inj Some). by apply ctx_of_inj in Hq as [<- <-].
Qed.

(** [addEvent] leaves the other events alone. *)
Lemma addEvent_slots up sc self fd e k s b s' :
  Inv s -> is_fd fd -> is_event e -> addEvent up (Some sc) self fd e k s = Ret b s' ->
  forall i e0, is_event e0 ->
    slot_task i e0 s' = if b && (i =? fd) && (e0 =? e) then [new_task sc self k] else slot_task i e0 s.
Proof.
  intros Hinv Hfd He Ha i e0 He0. pose proof (proj1 Hfd) as Hfd0. rewrite addEvent_grow in Ha by done. destruct (grow_ok fd s Hinv (proj1 Hfd)) as (_ & _ & _ & r & w & Hc).
  rewrite <- (slot_grow fd i e0 s). unfold add_locked in Ha. rewrite Hc in Ha. cbn [event ctx_of] in Ha. rewrite has_mask in Ha by done.
  case_bool_decide as Hw; [done|]. destruct (epoll_ctl _ _ _ _ _) as [m|]; [|by injection Ha as <- <-].
  assert (waiting e r w = None) as Hn by (destruct (waiting e r w); [exfalso; eauto|done]).
  destruct (ctx_lookup _ _ _ Hc) as [_ Hl]. unfold slot_task.
  assert (b = true /\ exists r' w' v, s' = put fd (MkFdContext (slot_of r') (slot_of w') v) (add_pending 1 (with_interest m (grow fd s)))
    /\ waiting e r' w' = Some (new_task sc self k) /\ forall e1, is_event e1 -> e1 <> e -> waiting e1 r' w' = waiting e1 r w) as (-> & r' & w' & v & -> & H1 & H2).
  { destruct He as [-> | ->]; [change (waiting READ r w) with r in Hn|change (waiting WRITE r w) with w in Hn]; subst; cbn in Ha;
      injection Ha as <- <-; (split; [done|]); [exists (Some (new_task sc self k)), w|exists r, (Some (new_task sc self k))];
      (eexists; split; [by destruct k|]); (split; [done|]); intros e1 [-> | ->]; done. }
  cbn [andb]. unfold ctx at 1. cbn [put add_pending with_interest m_fdContexts]. destruct (Z.eqb_spec i fd) as [->|Hi]; cbn [andb].
  - destruct (Z.ltb_spec fd 0); [lia|]. rewrite list_lookup_insert_eq by (by eapply lookup_lt_Some). rewrite Hc.
    assert (forall v r w, match getEventContext e0 (MkFdContext (slot_of r) (slot_of w) v) with Some x => task_of x | None => [] end
      = option_list (waiting e0 r w)) as Hq by (intros v0 r0 w0; destruct He0 as [-> | ->]; [by destruct r0 as [[]|]|by destruct w0 as [[]|]]).
    unfold ctx_of. rewrite !Hq. destruct (Z.eqb_spec e0 e) as [->|]; [by rewrite H1|by rewrite H2].
  - unfold ctx. destruct (Z.ltb_spec i 0); [done|]. by rewrite list_lookup_insert_ne by lia.
Qed.

(** A free event can be added. *)
Lemma addEvent_free up sc self fd e k s :
  Inv s -> is_fd fd -> is_event e -> slot_task fd e s = [] ->
  exists s', addEvent up (Some sc) self fd e k s = Ret up s' /\ effect s s' (if up then [new_task sc self k] else []) [] [].
Proof.
  intros Hinv Hfd He Hs. destruct (addEvent_ok up sc self fd e k s Hinv Hfd He) as [(_ & r & w & Hc & [t Ht])|(s' & Ha & Hef & _)]; [|eauto].
  exfalso. rewrite <- (slot_grow fd), (slot_task_ok fd e _ r w He Hc), Ht in Hs. done.
Qed.

(** Dropping the events [br] and [bw] of a context. *)
Lemma without_mask r w (br bw : bool) :
  without (mask r w) (Z.lor (if br then READ else NONE) (if bw then WRITE else NONE)) = mask (keep br r) (keep bw w).
Proof. by destruct br, bw, r as [[]|], w as [[]|]. Qed.

Lemma keep_length b t : Z.of_nat (length (option_list (keep b t))) = Z.of_nat (length (option_list t)) - Z.of_nat (length (fired b t)).
Proof. destruct b, t; simpl; lia. Qed.

Lemma effect_drop fd r w (br bw : bool) ts s :
  Inv s -> ctx fd s = Some (ctx_of r w) ->
  effect s (upd fd (ctx_of (keep br r) (keep bw w)) (set_interest fd (mask (keep br r) (keep bw w)) (interest s)) ts
             (- Z.of_nat (length (fired br r ++ fired bw w))) s) [] (fired br r ++ fired bw w) ts.
Proof.
  intros Hinv Hc. apply (effect_upd fd r w); [done|done|apply set_interest_eq|apply set_interest_ne|..].
  - rewrite !length_app, !Nat2Z.inj_add, !keep_length. lia.
  - rewrite app_nil_r. destruct br, bw, r, w; simpl; rewrite ?app_nil_r; try done; apply Permutation_swap.
  - unfold moved. destruct br; [right; left; split; [done|simpl; set_solver]|by left].
  - unfold moved. destruct bw; [right; left; split; [done|simpl; set_solver]|by left].
Qed.

(** Events as the flags of their two kinds. *)
Definition flags (e : Z) : bool * bool := (e =? READ, e =? WRITE).
Lemma event_flags e : is_event e -> e = Z.lor (if fst (flags e) then READ else NONE) (if snd (flags e) then WRITE else NONE).
Proof. by intros [-> | ->]. Qed.
Lemma fired_flags e r w : is_event e -> fired (fst (flags e)) r ++ fired (snd (flags e)) w = option_list (waiting e r w).
Proof. intros [-> | ->]; simpl; [by rewrite app_nil_r|done]. Qed.

(** [delEvent] removes the task of the event, [cancelEvent] schedules it. *)
Lemma delEvent_ok up fd e s :
  Inv s -> 0 <= fd -> is_event e ->
  exists b s', delEvent up fd e s = Ret b s' /\ effect s s' [] (if b then slot_task fd e s else []) [].
Proof.
  intros Hinv Hfd He. unfold delEvent. destruct (Z.leb_spec (zlen (m_fdContexts s)) fd); [exists false, s; auto with luwu|].
  destruct (ctx_exists s fd Hinv) as (r & w & Hc); [lia|]. rewrite Hc. cbn [event ctx_of]. rewrite has_mask by done.
  case_bool_decide as Hw; cbn [negb]; [|exists false, s; auto with luwu].
  pose proof (event_flags e He) as Ee. assert (without (mask r w) e = mask (keep (fst (flags e)) r) (keep (snd (flags e)) w)) as Ew.
  { rewrite Ee at 1. apply without_mask. }
  rewrite Ew, (epoll_change up fd _ s (mask r w)) by (by eapply interest_waiting).
  destruct up; [|exists false, s; auto with luwu].
  pose proof (effect_drop fd r w (fst (flags e)) (snd (flags e)) [] s Hinv Hc) as Hef. rewrite fired_flags in Hef by done.
  destruct Hw as [t Ht]. rewrite Ht in Hef. simpl option_list in Hef.
  eexists true, _. rewrite (slot_task_ok fd e s r w He Hc), Ht. split; [|exact Hef].
  destruct He as [-> | ->]; [change (waiting READ r w) with r in Ht|change (waiting WRITE r w) with w in Ht]; subst;
    [destruct w as [[]|], t|destruct r as [[]|], t]; unfold upd; simpl; by rewrite app_nil_r.
Qed.

Lemma cancelEvent_ok up fd e s :
  Inv s -> 0 <= fd -> is_event e ->
  exists b s', cancelEvent up fd e s = Ret b s'
    /\ effect s s' [] (if b then slot_task fd e s else []) (if b then slot_task fd e s else []).
Proof.
  intros Hinv Hfd He. unfold cancelEvent. destruct (Z.leb_spec (zlen (m_fdContexts s)) fd); [exists false, s; auto with luwu|].
  destruct (ctx_exists s fd Hinv) as (r & w & Hc); [lia|]. rewrite Hc. cbn [event ctx_of]. rewrite has_mask by done.
  case_bool_decide as Hw; cbn [negb]; [|exists false, s; auto with luwu].
  pose proof (event_flags e He) as Ee. assert (without (mask r w) e = mask (keep (fst (flags e)) r) (keep (snd (flags e)) w)) as Ew.
  { rewrite Ee at 1. apply without_mask. }
  rewrite Ew, (epoll_change up fd _ s (mask r w)) by (by eapply interest_waiting).
  destruct up; [|exists false, s; auto with luwu].
  destruct Hw as [t Ht]. pose proof (effect_drop fd r w (fst (flags e)) (snd (flags e)) [t] s Hinv Hc) as Hef.
  rewrite fired_flags, Ht in Hef by done. eexists true, _. rewrite (slot_task_ok fd e s r w He Hc), Ht. split; [|exact Hef].
  destruct He as [-> | ->]; [change (waiting READ r w) with r in Ht|change (waiting WRITE r w) with w in Ht]; subst.
  - cbn [keep flags fst snd]. rewrite fire_read. done.
  - change (keep (fst (flags WRITE)) r) with r. change (keep (snd (flags WRITE)) (Some t)) with (@None task). rewrite fire_write. done.
Qed.

Lemma cancelAll_ok up fd s :
  Inv s -> 0 <= fd ->
  exists b s', cancelAll up fd s = Ret b s'
    /\ effect s s' [] (if b then slot_task fd READ s ++ slot_task fd WRITE s else []) (if b then slot_task fd READ s ++ slot_task fd WRITE s else []).
Proof.
  intros Hinv Hfd. unfold cancelAll. destruct (Z.leb_spec (zlen (m_fdContexts s)) fd); [exists false, s; auto with luwu|].
  destruct (ctx_exists s fd Hinv) as (r & w & Hc); [lia|]. rewrite Hc. cbn [event ctx_of].
  destruct (Z.eqb_spec (mask r w) 0) as [|Hm]; [exists false, s; auto with luwu|].
  set (br := bool_decide (is_Some r)). set (bw := bool_decide (is_Some w)).
  assert (keep br r = None /\ keep bw w = None) as [Kr Kw] by (split; [by destruct r|by destruct w]).
  assert (mask r w = Z.lor (if br then READ else NONE) (if bw then WRITE else NONE)) as Em by by destruct r, w.
  pose proof (effect_drop fd r w br bw (fired br r ++ fired bw w) s Hinv Hc) as Hef. rewrite Kr, Kw in Hef.
  assert (interest s !! fd = Some (mask r w)) as Hi.
  { rewrite (inv_interest _ Hinv). unfold expected. rewrite Hc. cbn [event ctx_of]. by destruct (Z.eqb_spec (mask r w) 0). }
  destruct up; [|exists false, s; auto with luwu].
  unfold epoll_ctl. cbn [negb]. rewrite Hi, Em, fire_set_ok, Kr, Kw; [|by destruct r|by destruct w|by apply Inv_pending|by apply ctx_lookup].
  eexists true, _. split; [reflexivity|].
  rewrite (slot_task_ok fd READ s r w (or_introl eq_refl) Hc), (slot_task_ok fd WRITE s r w (or_intror eq_refl) Hc).
  change (waiting READ r w) with r. change (waiting WRITE r w) with w.
  assert (fired br r = option_list r /\ fired bw w = option_list w) as [<- <-] by (split; [by destruct r|by destruct w]). exact Hef.
Qed.

Lemma has_lor a b e : has (Z.lor a b) e = has a e || has b e.
Proof.
  unfold has. rewrite Z.land_lor_distr_l. destruct (Z.eqb_spec (Z.land a e) 0) as [E|E]; simpl.
  - by rewrite E, Z.lor_0_l.
  - destruct (Z.eqb_spec (Z.lor (Z.land a e) (Z.land b e)) 0) as [E2|]; [|done]. by apply Z.lor_eq_0_iff in E2 as [? _].
Qed.

(** What an epoll report makes due: its own events, and both kinds on an
    error or hang-up, as far as they are waited for. *)
Definition due (events bit : Z) (t : option task) : bool :=
  has events bit || (has events (Z.lor EPOLLERR EPOLLHUP) && bool_decide (is_Some t)).

(** A report names only events that the descriptor is registered for. *)
Definition reported (events : Z) (r w : option task) : Prop :=
  (has events EPOLLIN = true -> is_Some r) /\ (has events EPOLLOUT = true -> is_Some w).

Lemma handle_ready_ok up fd events r w s :
  Inv s -> ctx fd s = Some (ctx_of r w) -> reported events r w ->
  exists s', handle_ready up fd events s = Ret tt s'
    /\ effect s s' [] (if up then fired (due events EPOLLIN r) r ++ fired (due events EPOLLOUT w) w else [])
                       (if up then fired (due events EPOLLIN r) r ++ fired (due events EPOLLOUT w) w else [])
    /\ (up = true -> ctx fd s' = Some (ctx_of (keep (due events EPOLLIN r) r) (keep (due events EPOLLOUT w) w))).
Proof.
  intros Hinv Hc [Hr Hw]. unfold handle_ready. rewrite Hc. cbn [event ctx_of].
  set (events2 := if has events _ then _ else _).
  assert (has events2 EPOLLIN = due events EPOLLIN r /\ has events2 EPOLLOUT = due events EPOLLOUT w) as [-> ->].
  { unfold events2, due. destruct (has events (Z.lor EPOLLERR EPOLLHUP)); rewrite ?has_lor, ?orb_false_r; [|done].
    by destruct r as [[]|], w as [[]|]. }
  set (br := due events EPOLLIN r). set (bw := due events EPOLLOUT w).
  assert (br = true -> is_Some r) as Hbr.
  { unfold br, due. intros [H|[_ H]%andb_true_iff]%orb_true_iff; [auto|by apply bool_decide_eq_true in H]. }
  assert (bw = true -> is_Some w) as Hbw.
  { unfold bw, due. intros [H|[_ H]%andb_true_iff]%orb_true_iff; [auto|by apply bool_decide_eq_true in H]. }
  clearbody br bw. clear events2 Hr Hw.
  assert ((Z.land (mask r w) (Z.lor (if br then READ else NONE) (if bw then WRITE else NONE)) =? NONE)
    = negb (br || bw)) as ->.
  { clear - Hbr Hbw. destruct br, bw, r as [[]|], w as [[]|]; try done; exfalso;
      first [by destruct (Hbr eq_refl)|by destruct (Hbw eq_refl)]. }
  destruct (br || bw) eqn:Eb; cbn [negb].
  - assert (interest s !! fd = Some (mask r w)) as Hi.
    { rewrite (inv_interest _ Hinv). unfold expected. rewrite Hc. cbn [event ctx_of].
      destruct br; [destruct (Hbr eq_refl) as [? ->]|destruct bw; [destruct (Hbw eq_refl) as [? ->]|done]];
        [by destruct w|by destruct r]. }
    rewrite without_mask, (epoll_change up fd _ s _ Hi). destruct up; [|exists s; split; [done|split; [by apply effect_refl|done]]].
    rewrite fire_set_ok; [|done|done|by apply Inv_pending|by apply ctx_lookup]. cbn [obind].
    eexists. split; [done|]. split; [by apply effect_drop|intros _]. destruct (ctx_lookup _ _ _ Hc) as [? Hl].
    unfold ctx, upd. cbn [m_fdContexts]. destruct (Z.ltb_spec fd 0); [lia|]. by rewrite list_lookup_insert_eq by (by eapply lookup_lt_Some).
  - apply orb_false_iff in Eb as [-> ->]. exists s. split; [done|]. split; [destruct up; by apply effect_refl|done].
Qed.

(** What [epoll_wait] can report of a descriptor: the events it was asked for,
    errors and hang-ups. *)
Definition kernel_report (fd events : Z) (s : io) : option Z :=
  m ← interest s !! fd; Some (Z.land events (Z.lor m (Z.lor EPOLLERR EPOLLHUP))).

Lemma handle_report up fd events ev s :
  Inv s -> kernel_report fd events s = Some ev ->
  exists gone s', handle_ready up fd ev s = Ret tt s' /\ effect s s' [] gone gone
    /\ (up = true -> forall e, is_event e -> has events e = true -> slot_task fd e s ⊆ gone /\ slot_task fd e s' = []).
Proof.
  intros Hinv Hk. unfold kernel_report in Hk. destruct (interest s !! fd) as [m|] eqn:Ei; [|done]. injection Hk as <-.
  pose proof Ei as Ei'. rewrite (inv_interest _ Hinv) in Ei'. unfold expected in Ei'. destruct (ctx fd s) as [c|] eqn:Ec; [|done].
  destruct (ctx_lookup _ _ _ Ec) as [_ Hl]. destruct (inv_ctx _ Hinv _ _ Hl) as (r & w & ->). cbn [event ctx_of] in Ei'.
  destruct (mask r w =? 0); [done|]. injection Ei' as <-.
  set (ev := Z.land events _).
  assert (has ev EPOLLIN = has events EPOLLIN && bool_decide (is_Some r)) as H1.
  { unfold has, ev. rewrite <- Z.land_assoc. destruct r as [[]|], w as [[]|]; cbn [mask]; rewrite ?andb_true_r, ?andb_false_r; try done;
      change (Z.land _ EPOLLIN) with 0; by rewrite Z.land_0_r. }
  assert (has ev EPOLLOUT = has events EPOLLOUT && bool_decide (is_Some w)) as H2.
  { unfold has, ev. rewrite <- Z.land_assoc. destruct r as [[]|], w as [[]|]; cbn [mask]; rewrite ?andb_true_r, ?andb_false_r; try done;
      change (Z.land _ EPOLLOUT) with 0; by rewrite Z.land_0_r. }
  destruct (handle_ready_ok up fd ev r w s Hinv Ec) as (s' & Hh & Hef & Hs').
  { unfold reported. rewrite H1, H2. split; intros [_ ?%bool_decide_eq_true]%andb_true_iff; done. }
  eexists _, s'. split; [done|]. split; [exact Hef|]. intros -> e He Hb. rewrite (slot_task_ok fd e s r w He Ec), (slot_task_ok fd e s' _ _ He (Hs' eq_refl)).
  unfold due. rewrite H1, H2. destruct He as [-> | ->].
  - change (has events EPOLLIN = true) in Hb. rewrite Hb. unfold waiting. cbn [Z.eqb READ Pos.eqb]. destruct r; simpl; (split; [set_solver|]); unfold keep; by repeat case_match.
  - change (has events EPOLLOUT = true) in Hb. rewrite Hb. unfold waiting. cbn [Z.eqb READ WRITE Pos.eqb]. destruct w; simpl; (split; [set_solver|]); unfold keep; by repeat case_match.
Qed.

(** Where somebody waits, the kernel was asked. *)
Lemma kernel_report_none fd events e s : Inv s -> is_event e -> kernel_report fd events s = None -> slot_task fd e s = [].
Proof.
  intros Hinv He. unfold kernel_report. rewrite (inv_interest _ Hinv). unfold expected, slot_task.
  destruct (ctx fd s) as [c|] eqn:Ec; [|done]. destruct (ctx_lookup _ _ _ Ec) as [_ Hl].
  destruct (inv_ctx _ Hinv _ _ Hl) as (r & w & ->). cbn [event ctx_of].
  destruct He as [-> | ->]; destruct r as [[]|], w as [[]|]; done.
Qed.

(** A report that does not end the process: whatever it named, the tasks that
    stop waiting are those that are scheduled. *)
Lemma handle_ready_ret up fd events s s' :
  Inv s -> handle_ready up fd events s = Ret tt s' -> exists ran, effect s s' [] ran ran.
Proof.
  intros Hinv. destruct (ctx fd s) as [c|] eqn:Hc; [|by unfold handle_ready; rewrite Hc].
  destruct (ctx_lookup _ _ _ Hc) as [_ Hl]. destruct (inv_ctx _ Hinv _ _ Hl) as (r & w & ->).
  destruct (decide (has events EPOLLIN = true /\ r = None \/ has events EPOLLOUT = true /\ w = None)) as [Hst|Hok].
  2:{ destruct (handle_ready_ok up fd events r w s Hinv Hc) as (s1 & -> & Hef & _).
      - split; intros Hb; [destruct r|destruct w]; try done; naive_solver.
      - intros [= <-]. eauto. }
  unfold handle_ready. rewrite Hc. cbn [event ctx_of]. set (ev := if has events _ then _ else _).
  assert (has ev EPOLLIN = true /\ r = None \/ has ev EPOLLOUT = true /\ w = None) as Hst'.
  { unfold ev. destruct (has events (Z.lor EPOLLERR EPOLLHUP)); [|done]. rewrite !has_lor. destruct Hst as [[-> ?]|[-> ?]]; [left|right]; by rewrite ?orb_true_l. }
  clearbody ev. destruct (Z.land _ _ =? NONE); [intros [= <-]; eauto with luwu|].
  destruct (epoll_ctl _ _ _ _ _) as [m|]; [|intros [= <-]; eauto with luwu].
  destruct (has ev EPOLLIN), (has ev EPOLLOUT), r as [[]|], w as [[]|]; simpl; try done; exfalso; clear -Hst'; intuition congruence.
Qed.

(** ** Histories

    The critical sections of all threads in any order: the state, the threads
    that found the vector too short and wait for the write lock (by the
    descriptor they want), whether [contextResize] ever made the vector
    shorter, and the tasks that were ever added and those that were deleted
    while they waited.  A context is known by its index, which is right until
    the vector shrinks; there a history ends. *)
Record history := MkHistory {
  h_io : io;
  h_short : list Z;
  h_shrunk : bool;
  h_added : list task;
  h_deleted : list task;
}.
Definition h_start : history := MkHistory create [] false [] [].

Inductive hstep : history -> history -> Prop :=
| h_look g fd : 0 <= fd -> has_context fd (h_io g) = false ->
    hstep g (MkHistory (h_io g) (h_short g ++ [fd]) (h_shrunk g) (h_added g) (h_deleted g))
| h_enlarge g fd l1 l2 s' : h_short g = l1 ++ fd :: l2 -> enlarge fd (h_io g) = Ret tt s' ->
    hstep g (MkHistory s' (l1 ++ l2) (fd * 2 <? zlen (m_fdContexts (h_io g))) (h_added g) (h_deleted g))
| h_add g up sc self fd e k b s' : 0 <= fd -> is_event e -> has_context fd (h_io g) = true ->
    add_locked up (Some sc) self fd e k (h_io g) = Ret b s' ->
    hstep g (MkHistory s' (h_short g) (h_shrunk g) (h_added g ++ if b then [new_task sc self k] else []) (h_deleted g))
| h_del g up fd e b s' : 0 <= fd -> is_event e -> delEvent up fd e (h_io g) = Ret b s' ->
    hstep g (MkHistory s' (h_short g) (h_shrunk g) (h_added g) (h_deleted g ++ if b then slot_task fd e (h_io g) else []))
| h_cancel g up fd e b s' : 0 <= fd -> is_event e -> cancelEvent up fd e (h_io g) = Ret b s' ->
    hstep g (MkHistory s' (h_short g) (h_shrunk g) (h_added g) (h_deleted g))
| h_cancelAll g up fd b s' : 0 <= fd -> cancelAll up fd (h_io g) = Ret b s' ->
    hstep g (MkHistory s' (h_short g) (h_shrunk g) (h_added g) (h_deleted g))
| h_ready g up fd events s' : handle_ready up fd events (h_io g) = Ret tt s' ->
    hstep g (MkHistory s' (h_short g) (h_shrunk g) (h_added g) (h_deleted g)).

Inductive hreach : history -> Prop :=
| hreach_init : hreach h_start
| hreach_step g g' : hreach g -> h_shrunk g = false -> hstep g g' -> hreach g'.

Record HInv (g : history) : Prop := {
  hi_inv : Inv (h_io g);
  hi_account : h_added g ≡ₚ registered (h_io g) ++ scheduled (h_io g) ++ h_deleted g;
}.

Lemma io_Inv_create : Inv create.
Proof.
  assert (forall i c, m_fdContexts create !! i = Some c -> c = new_FdContext) as Hc.
  { intros i c [H _]%lookup_replicate_1. done. }
  split.
  - vm_compute. discriminate.
  - intros i c ->%Hc. by exists None, None.
  - intros fd. cbn [interest create]. rewrite lookup_empty. unfold expected, ctx. destruct (fd <? 0); [done|].
    destruct (m_fdContexts create !! Z.to_nat fd) eqn:E; [|done]. by apply Hc in E as ->.
  - reflexivity.
Qed.

(** Tasks that stop waiting were either scheduled or deleted. *)
Lemma HInv_effect g s' l b new gone ran del :
  HInv g -> effect (h_io g) s' new gone ran -> gone = ran ++ del ->
  HInv (MkHistory s' l b (h_added g ++ new) (h_deleted g ++ del)).
Proof.
  intros [_ Ha] [Hi Hw Hs] ->. split; [done|]. simpl. rewrite Hs, Ha.
  transitivity ((registered (h_io g) ++ new) ++ scheduled (h_io g) ++ h_deleted g); [solve_Permutation|].
  rewrite <- Hw. solve_Permutation.
Qed.

Lemma HInv_quiet g s' l b gone : HInv g -> effect (h_io g) s' [] gone gone -> HInv (MkHistory s' l b (h_added g) (h_deleted g)).
Proof.
  intros HI Hef. rewrite <- (app_nil_r (h_added g)), <- (app_nil_r (h_deleted g)). eapply HInv_effect; [done|done|by rewrite app_nil_r].
Qed.

Lemma hstep_inv g g' : hstep g g' -> h_shrunk g' = false -> HInv g -> HInv g'.
Proof.
  intros Hst Hsh HI. pose proof (hi_inv _ HI) as Hinv.
  destruct Hst as [g fd Hfd E|g fd l1 l2 s' Hl E|g up sc self fd e k b s' Hfd He Hh E|g up fd e b s' Hfd He E|g up fd e b s' Hfd He E
    |g up fd b s' Hfd E|g up fd ev s' E].
  - apply (HInv_quiet g (h_io g) _ _ []); auto with luwu.
  - unfold enlarge in E. destruct (2 ^ 31 <=? fd * 2); [done|]. injection E as <-. cbn in Hsh. apply Z.ltb_ge in Hsh.
    destruct (resized_ok (fd * 2) (h_io g) Hinv Hsh) as (H1 & H2 & _). split; [exact H1|]. cbn [h_io h_added h_deleted].
    fold (resized (fd * 2) (h_io g)). rewrite H2. apply HI.
  - destruct (ctx_exists (h_io g) fd Hinv) as (r & w & Hc); [unfold has_context in Hh; lia|].
    destruct (add_locked_ok up sc self fd e k (h_io g) r w Hinv He Hc) as [[E' _]|(s1 & E' & Hef & _)]; [congruence|].
    rewrite E' in E. injection E as <- <-. rewrite <- (app_nil_r (h_deleted g)). by eapply HInv_effect.
  - destruct (delEvent_ok up fd e (h_io g) Hinv Hfd He) as (b1 & s1 & E' & Hef). rewrite E' in E. injection E as <- <-.
    rewrite <- (app_nil_r (h_added g)). by eapply HInv_effect.
  - destruct (cancelEvent_ok up fd e (h_io g) Hinv Hfd He) as (b1 & s1 & E' & Hef). rewrite E' in E. injection E as <- <-. by eapply HInv_quiet.
  - destruct (cancelAll_ok up fd (h_io g) Hinv Hfd) as (b1 & s1 & E' & Hef). rewrite E' in E. injection E as <- <-. by eapply HInv_quiet.
  - apply handle_ready_ret in E as [ran Hef]; [|done]. by eapply HInv_quiet.
Qed.

Lemma hreach_inv g : hreach g -> h_shrunk g = false -> HInv g.
Proof. induction 1 as [|g g' _ IH Hs Hst]; intros Hg; [split; [apply io_Inv_create|done]|]. eapply hstep_inv; eauto. Qed.

(** ** Properties *)

(** C5. No event is lost or served twice.  In every state that the critical
    sections of [addEvent], [delEvent], [cancelEvent], [cancelAll] and of the
    event loop reach in any order on any number of threads, as long as no
    [contextResize] has made the vector shorter and no section has failed an
    assertion (events are added under a scheduler): the tasks that were ever added
    are exactly those that still wait, those that were handed to a scheduler,
    once each, and those that were deleted; the count of pending events is the
    number of those that wait, and the kernel is interested in precisely the
    events of each descriptor.  ([resize_race_loses_events] shows that two
    threads in [addEvent] can make the vector shorter, and what is lost;
    [stale_report_aborts] an assertion that fails.) *)
Theorem io_events_accounted (g : history) :
  hreach g -> h_shrunk g = false ->
  h_added g ≡ₚ registered (h_io g) ++ scheduled (h_io g) ++ h_deleted g
  /\ m_pendingEventCount (h_io g) = u64 (Z.of_nat (length (registered (h_io g))))
  /\ forall fd, interest (h_io g) !! fd = expected (h_io g) fd.
Proof. intros Hr Hs. destruct (hreach_inv g Hr Hs) as [[H1 H2 H3 H4] H5]. done. Qed.

(** Two threads look for the context of 40 before either enlarges the vector;
    both enlarge it and add their events. *)
Definition c36_large : io := resized 80 create.
Definition c36_first : io :=
  match add_locked true (Some 1%N) 7%N 40 READ (Some 5%N) c36_large with Ret _ s => s | _ => create end.
Definition c36_again : io := resized 80 c36_first.
Definition c36_second : io := match add_locked true (Some 1%N) 7%N 40 WRITE None c36_again with Ret _ s => s | _ => create end.
Definition c36_third : io := match handle_ready true 40 EPOLLIN c36_second with Ret _ s => s | _ => create end.
Definition c36_history : history := MkHistory c36_third [] false [RunCb 1 5; RunFiber 1 7] [].

Lemma c36_reach : hreach c36_history.
Proof.
  pose (g1 := MkHistory create [40] false [] []). pose (g2 := MkHistory create [40; 40] false [] []).
  pose (g3 := MkHistory c36_large [40] false [] []). pose (g4 := MkHistory c36_first [40] false [RunCb 1 5] []).
  pose (g5 := MkHistory c36_again [] false [RunCb 1 5] []). pose (g6 := MkHistory c36_second [] false [RunCb 1 5; RunFiber 1 7] []).
  apply (hreach_step g6); [apply (hreach_step g5); [apply (hreach_step g4); [apply (hreach_step g3); [apply (hreach_step g2);
    [apply (hreach_step g1); [apply (hreach_step h_start); [apply hreach_init|reflexivity|]|reflexivity|]|reflexivity|]
    |reflexivity|]|reflexivity|]|reflexivity|]|reflexivity|].
  - apply (h_look h_start 40); [lia|reflexivity].
  - apply (h_look g1 40); [lia|reflexivity].
  - apply (h_enlarge g2 40 [] [40]); reflexivity.
  - apply (h_add g3 true 1%N 7%N 40 READ (Some 5%N) true c36_first); [lia|by left|reflexivity|vm_compute; reflexivity].
  - apply (h_enlarge g4 40 [] []); reflexivity.
  - apply (h_add g5 true 1%N 7%N 40 WRITE None true c36_second); [lia|by right|reflexivity|vm_compute; reflexivity].
  - apply (h_ready g6 true 40 EPOLLIN c36_third). vm_compute. reflexivity.
Qed.

Lemma io_events_accounted_witness :
  hreach c36_history /\ m_pendingEventCount (h_io c36_history) = 1 /\ interest (h_io c36_history) !! 40 = Some WRITE
  /\ [RunCb 1 5; RunFiber 1 7] ≡ₚ registered c36_third ++ scheduled c36_third ++ [].
Proof.
  destruct (io_events_accounted c36_history c36_reach eq_refl) as (H1 & H2 & H3).
  split; [exact c36_reach|]. split; [rewrite H2; vm_compute; reflexivity|]. split; [rewrite H3; vm_compute; reflexivity|exact H1].
Defined.

(** The operations return.  In every reachable state whose vector never shrank
    and for every descriptor below [2^30]: adding an event that nobody waits for returns, with success
    exactly when the kernel accepts; deleting and cancelling return; and a
    report of epoll that names registered events schedules exactly the tasks
    that are due, errors and hang-ups waking both kinds. *)
Theorem io_operations_return (g : history) (up : bool) (sc self : N) (fd e events : Z) (k : option N) (r w : option task) :
  hreach g -> h_shrunk g = false -> is_fd fd -> is_event e -> ctx fd (h_io g) = Some (ctx_of r w) ->
  (waiting e r w = None -> exists s', addEvent up (Some sc) self fd e k (h_io g) = Ret up s')
  /\ (exists b s', delEvent up fd e (h_io g) = Ret b s' /\ scheduled s' = scheduled (h_io g))
  /\ (exists b s', cancelEvent up fd e (h_io g) = Ret b s'
        /\ scheduled s' = scheduled (h_io g) ++ if b then option_list (waiting e r w) else [])
  /\ (exists b s', cancelAll up fd (h_io g) = Ret b s'
        /\ scheduled s' = scheduled (h_io g) ++ if b then option_list r ++ option_list w else [])
  /\ (reported events r w -> exists s', handle_ready up fd events (h_io g) = Ret tt s'
        /\ scheduled s' = scheduled (h_io g)
             ++ if up then fired (due events EPOLLIN r) r ++ fired (due events EPOLLOUT w) w else []).
Proof.
  intros Hr Hsh Hfd He Hc. destruct (hreach_inv g Hr Hsh) as [Hinv _]. clear Hr. pose proof (proj1 Hfd) as Hfd0.
  pose proof (slot_task_ok fd e _ r w He Hc) as St. pose proof (slot_task_ok fd READ _ r w (or_introl eq_refl) Hc) as Sr.
  pose proof (slot_task_ok fd WRITE _ r w (or_intror eq_refl) Hc) as Sw. split; [|split; [|split; [|split]]].
  - intros Hn. destruct (addEvent_ok up sc self fd e k _ Hinv Hfd He) as [[_ (r' & w' & Hc' & Hw)]|(s' & E & _)]; [|eauto].
    exfalso. assert (grow fd (h_io g) = h_io g) as Hg.
    { unfold grow, has_context. destruct (Z.ltb_spec fd (zlen (m_fdContexts (h_io g)))); [done|].
      apply ctx_lookup in Hc as [_ Hc%lookup_lt_Some]. unfold zlen in *. lia. }
    rewrite Hg, Hc in Hc'. apply (inj Some) in Hc'. apply ctx_of_inj in Hc' as [<- <-]. rewrite Hn in Hw. by destruct Hw.
  - destruct (delEvent_ok up fd e _ Hinv Hfd0 He) as (b & s' & E & [_ _ Hs]). exists b, s'. by rewrite Hs, app_nil_r.
  - destruct (cancelEvent_ok up fd e _ Hinv Hfd0 He) as (b & s' & E & [_ _ Hs]). exists b, s'. by rewrite Hs, St.
  - destruct (cancelAll_ok up fd _ Hinv Hfd0) as (b & s' & E & [_ _ Hs]). exists b, s'. by rewrite Hs, Sr, Sw.
  - intros Hr. destruct (handle_ready_ok up fd events r w _ Hinv Hc Hr) as (s' & E & [_ _ Hs _] & _). exists s'. by rewrite Hs.
Qed.

Lemma io_operations_return_witness :
  (exists s', addEvent true (Some 1%N) 9%N 40 READ None c36_third = Ret true s')
  /\ exists s', handle_ready true 40 EPOLLHUP c36_third = Ret tt s' /\ scheduled s' = [RunCb 1 5; RunFiber 1 7].
Proof.
  destruct (io_operations_return c36_history true 1%N 9%N 40 READ EPOLLHUP None None (Some (RunFiber 1 7)) c36_reach eq_refl
    ltac:(unfold is_fd; lia) ltac:(by left) ltac:(vm_compute; reflexivity)) as (H1 & _ & _ & _ & H5).
  split; [exact (H1 eq_refl)|]. assert (reported EPOLLHUP None (Some (RunFiber 1 7))) as Hr by (split; intros Hx; [vm_compute in Hx; discriminate Hx|eauto]).
  destruct (H5 Hr) as (s' & E & Hs).
  exists s'. split; [exact E|]. rewrite Hs. vm_compute. reflexivity.
Defined.

(** *** Behaviour outside those conditions *)

(** A report may be out of date: if an event was deleted between
    [epoll_wait] and the lock, its bit is still set and the assertion of
    [triggerEvent] ends the process. *)
Theorem stale_report_aborts (up : bool) (fd : Z) (t : task) (s : io) :
  ctx fd s = Some (ctx_of (Some t) None) -> interest s !! fd = Some READ -> up = true ->
  exists s', handle_ready up fd (Z.lor EPOLLIN EPOLLOUT) s = Throw AssertFailed s'.
Proof.
  intros Hc Hi ->. unfold handle_ready. rewrite Hc. unfold epoll_ctl. simpl. rewrite Hi. destruct t; eexists; reflexivity.
Qed.

(** [contextResize] may shrink: a thread that found the vector too short for
    33 resizes it to 66, although another has made it longer meanwhile and
    registered an event for descriptor 70.  The event is in the vector no more,
    so that nothing cancels or deletes it. *)
Theorem resize_race_loses_events :
  exists g, hreach g /\ h_shrunk g = true /\ h_added g = [RunFiber 1 7] /\ m_pendingEventCount (h_io g) = 1
    /\ registered (h_io g) = [] /\ cancelEvent true 70 READ (h_io g) = Ret false (h_io g).
Proof.
  pose (s1 := resized 140 create). pose (s2 := match add_locked true (Some 1%N) 7%N 70 READ None s1 with Ret _ s => s | _ => create end).
  pose (g1 := MkHistory create [33] false [] []). pose (g2 := MkHistory create [33; 70] false [] []).
  pose (g3 := MkHistory s1 [33] false [] []). pose (g4 := MkHistory s2 [33] false [RunFiber 1 7] []).
  exists (MkHistory (resized 66 s2) [] true [RunFiber 1 7] []). split; [|by vm_compute].
  apply (hreach_step g4); [apply (hreach_step g3); [apply (hreach_step g2); [apply (hreach_step g1); [apply (hreach_step h_start);
    [apply hreach_init|reflexivity|]|reflexivity|]|reflexivity|]|reflexivity|]|reflexivity|].
  - apply (h_look h_start 33); [lia|reflexivity].
  - apply (h_look g1 70); [lia|reflexivity].
  - apply (h_enlarge g2 70 [33] []); reflexivity.
  - apply (h_add g3 true 1%N 7%N 70 READ None true s2); [lia|by left|reflexivity|vm_compute; reflexivity].
  - apply (h_enlarge g4 33 [] []); vm_compute; reflexivity.
Qed.

(** A timer that is [2^31] milliseconds away or more makes the timeout
    negative, which for [epoll_wait] is no timeout at all. *)
Theorem far_timer_waits_forever (n : Z) : 2 ^ 31 <= n < 2 ^ 32 - 1 -> wait_timeout n < 0.
Proof.
  intros Hn. unfold wait_timeout. destruct (Z.eqb_spec n (2 ^ 64 - 1)); [lia|]. cbn [negb].
  assert (s32 n = n - 2 ^ 32) as ->.
  { unfold sw. rewrite Z.mod_small by lia. simpl. destruct (Z.ltb_spec n (2 ^ (32 - 1))); lia. }
  rewrite Z.min_l by (unfold MAX_TIMEOUT; lia). assert (u64 (n - 2 ^ 32) = n - 2 ^ 32 + 2 ^ 64) as ->.
  { unfold uw. rewrite <- (Z.mod_add _ 1) by lia. rewrite Z.mul_1_l. apply Z.mod_small. lia. }
  unfold sw. replace (n - 2 ^ 32 + 2 ^ 64) with (n + (2 ^ 32 - 1) * 2 ^ 32) by lia. rewrite Z.mod_add, Z.mod_small by lia.
  destruct (Z.ltb_spec n (2 ^ (32 - 1))); lia.
Qed.

End IOManager.
