(* ===== verification/Wakeup.v ===== *)
(** * Waking an idle thread: [tickle] and the pipe of [luwu/luwu/iomanager.cpp],
      with [Scheduler::run] and [scheduler]

    Threads look at the queue one after the other, and when it is empty wait in
    [epoll_wait], whose set has the reading end of a pipe, edge triggered; who
    queues a task writes to the pipe if a thread is idle.  The steps of all of
    them interleave.  Here a task is a number in the queue, for any thread; what
    tasks are is in [Scheduler], what else [epoll_wait] reports in [IOManager]. *)
From S2P Require Import Prelude.

Module Wakeup.

(** Where a thread is: in [run], at the look at the queue, [hasIdleThreads] and
    [write] of its [tickle], in a task, in front of [++m_idleThreadCount]; in
    [idle], in front of [epoll_wait], in it, reading the pipe, and yielding. *)
Inductive pc := Top | Check | Write | Run | Enter | Stop | Poll | Read | Back.
#[export] Instance pc_eq_decision : EqDecision pc.
Proof. solve_decision. Defined.

Record state := MkState {
  m_fibers : nat;            (* tasks in the queue *)
  m_idleThreadCount : nat;
  pipe : nat;                (* bytes in it *)
  edge : bool;               (* bytes came in that [epoll_wait] has not reported *)
  checks : nat;              (* calls of [scheduler] that are at [hasIdleThreads], *)
  writes : nat;              (* and at [write] *)
  workers : list pc;
}.
Definition begin (n : nat) : state := MkState 0 0 0 false 0 0 (replicate n Top).

(** [scheduler()]: the task is queued, and [tickle] is called if the queue was
    empty. *)
Definition push (s : state) : state :=
  MkState (S (m_fibers s)) (m_idleThreadCount s) (pipe s) (edge s) (if decide (m_fibers s = 0) then S (checks s) else checks s) (writes s) (workers s).
Definition hasIdleThreads (s : state) : bool := bool_decide (0 < m_idleThreadCount s).
Definition write_pipe (s : state) : state := MkState (m_fibers s) (m_idleThreadCount s) (S (pipe s)) true (checks s) (writes s) (workers s).
(** The parts of a [tickle] that [scheduler()] calls. *)
Definition check (s : state) : option state :=
  match checks s with
  | 0 => None
  | S c => Some (MkState (m_fibers s) (m_idleThreadCount s) (pipe s) (edge s) c (if hasIdleThreads s then S (writes s) else writes s) (workers s))
  end.
Definition write (s : state) : option state :=
  match writes s with
  | 0 => None
  | S n => Some (write_pipe (MkState (m_fibers s) (m_idleThreadCount s) (pipe s) (edge s) (checks s) n (workers s)))
  end.
Definition goto (i : nat) (p : pc) (s : state) : state :=
  MkState (m_fibers s) (m_idleThreadCount s) (pipe s) (edge s) (checks s) (writes s) (<[i := p]> (workers s)).
(** [epoll_wait]: [timeout] says that it returns without the pipe, after its time
    or with other events. *)
Definition poll (i : nat) (timeout : bool) (s : state) : option state :=
  if timeout then Some (goto i Back s)
  else if edge s then Some (goto i Read (MkState (m_fibers s) (m_idleThreadCount s) (pipe s) false (checks s) (writes s) (workers s)))
  else None.
(** [read] of at most 256 bytes, until there are none. *)
Definition drain (i : nat) (s : state) : state :=
  if decide (pipe s = 0) then goto i Back s
  else MkState (m_fibers s) (m_idleThreadCount s) (pipe s - 256) (edge s) (checks s) (writes s) (workers s).
(** A thread. *)
Definition worker (i : nat) (timeout : bool) (s : state) : option state :=
  p ← workers s !! i;
  match p with
  | Top =>
      match m_fibers s with
      | 0 => Some (goto i Enter s)
      | S n => Some (goto i (if decide (n = 0) then Run else Check)
                 (MkState n (m_idleThreadCount s) (pipe s) (edge s) (checks s) (writes s) (workers s)))
      end
  | Check => Some (goto i (if hasIdleThreads s then Write else Run) s)
  | Write => Some (goto i Run (write_pipe s))
  | Run => Some (goto i Top s)
  | Enter => Some (goto i Stop (MkState (m_fibers s) (S (m_idleThreadCount s)) (pipe s) (edge s) (checks s) (writes s) (workers s)))
  | Stop => Some (goto i Poll s)
  | Poll => poll i timeout s
  | Read => Some (drain i s)
  | Back => Some (goto i Top (MkState (m_fibers s) (m_idleThreadCount s - 1) (pipe s) (edge s) (checks s) (writes s) (workers s)))
  end.

Inductive act := Push | DoCheck | DoWrite | Step (i : nat) (timeout : bool).
Definition exec (a : act) (s : state) : option state :=
  match a with Push => Some (push s) | DoCheck => check s | DoWrite => write s | Step i timeout => worker i timeout s end.

(** No [hasIdleThreads] of [scheduler()] while no thread is idle but one has
    already found the queue empty. *)
Definition in_time (a : act) (s : state) : Prop := a = DoCheck -> 0 < m_idleThreadCount s \/ Enter ∉ workers s.
Inductive reach (s0 : state) : state -> Prop :=
| reach_refl : reach s0 s0
| reach_step s s' a : reach s0 s -> in_time a s -> exec a s = Some s' -> reach s0 s'.

(** ** Invariants *)
Definition is_idle (p : pc) : nat := match p with Stop | Poll | Read | Back => 1 | _ => 0 end.
(** A thread that looks at the queue before it waits. *)
Definition looks (p : pc) : Prop := match p with Top | Check | Write | Run | Read | Back => True | _ => False end.
#[export] Instance looks_dec p : Decision (looks p).
Proof. destruct p; apply _. Defined.
Record inv (s : state) : Prop := {
  inv_idle : m_idleThreadCount s = sum_list_with is_idle (workers s);
  inv_pipe : 0 < pipe s -> edge s = true \/ Read ∈ workers s;
  inv_wake : 0 < m_fibers s -> Exists looks (workers s) \/ edge s = true \/ 0 < checks s \/ 0 < writes s;
  inv_some : workers s <> [];
}.

Lemma sum_is_idle i p p' l : l !! i = Some p -> sum_list_with is_idle (<[i := p']> l) + is_idle p = sum_list_with is_idle l + is_idle p'.
Proof. revert i. induction l as [|x l IH]; intros [|i] Hi; simpl in *; try done; [injection Hi as ->; lia|]. specialize (IH i Hi). lia. Qed.
Lemma insert_nonempty {A} i (x : A) l : l <> [] -> <[i := x]> l <> [].
Proof. intros Hl He. apply Hl, nil_length_inv. by rewrite <- (length_insert l i x), He. Qed.
(** The thread that moved looks, or somebody else already did. *)
Lemma looks_insert i p p' (l : list pc) : l !! i = Some p -> looks p' -> Exists looks (<[i := p']> l).
Proof. intros Hi Hp. apply Exists_exists. exists p'. split; [|done]. eapply list_elem_of_insert. by eapply lookup_lt_Some. Qed.
Lemma looks_keep i p p' (l : list pc) : l !! i = Some p -> ~ looks p -> Exists looks l -> Exists looks (<[i := p']> l).
Proof.
  intros Hi Hp (x & (j & Hj)%list_elem_of_lookup & Hx)%Exists_exists. apply Exists_exists. exists x. split; [|done]. apply list_elem_of_lookup. exists j.
  rewrite list_lookup_insert_ne; [done|]. intros ->. congruence.
Qed.
Lemma read_keep i p p' (l : list pc) : l !! i = Some p -> p <> Read -> Read ∈ l -> Read ∈ <[i := p']> l.
Proof. intros Hi Hp (j & Hj)%list_elem_of_lookup. apply list_elem_of_lookup. exists j. rewrite list_lookup_insert_ne; [done|]. intros ->. congruence. Qed.

Lemma push_ok s : inv s -> inv (push s).
Proof. intros [H1 H2 H3 H4]. split; cbn; try done. intros _. case_decide as Hz; [right; right; left; lia|]. apply H3. lia. Qed.
Lemma write_pipe_ok s : inv s -> inv (write_pipe s).
Proof. intros [H1 H2 H3 H4]. split; cbn; auto. Qed.
(** The window is what [in_time] leaves out. *)
Lemma check_ok s s' : inv s -> 0 < m_idleThreadCount s \/ Enter ∉ workers s -> check s = Some s' -> inv s'.
Proof.
  intros [H1 H2 H3 H4] Ht. unfold check, hasIdleThreads. destruct (checks s) as [|c] eqn:Ec; [done|]. intros [= <-]. split; cbn; try done. intros Hq. case_bool_decide as Hi; [right; right; right; lia|].
  destruct Ht as [|Ht]; [lia|]. left. destruct (workers s) as [|p l]; [done|]. apply Exists_cons_hd. cbn in H1. destruct p; cbn in *; try done; try lia. set_solver.
Qed.
Lemma write_step_ok s s' : inv s -> write s = Some s' -> inv s'.
Proof.
  intros [H1 H2 H3 H4]. unfold write. destruct (writes s); [done|]. intros [= <-]. split; cbn; auto.
Qed.
Lemma worker_ok i timeout s s' : inv s -> worker i timeout s = Some s' -> inv s'.
Proof.
  intros Hinv. unfold worker. destruct (workers s !! i) as [p|] eqn:Ei; [|done]. cbn [mbind option_bind]. pose proof Hinv as [H1 H2 H3 H4].
  pose proof (fun p' => sum_is_idle i p p' _ Ei) as Hsum. pose proof (fun p' => insert_nonempty i p' _ H4) as Hne.
  pose proof (fun p' => looks_insert i p p' _ Ei) as Hli. pose proof (fun p' => read_keep i p p' _ Ei) as Hrk.
  destruct p; cbn [is_idle looks] in *.
  - (* Top *) destruct (m_fibers s) as [|n] eqn:Eq; intros [= <-]; split; cbn; try done.
    + specialize (Hsum Enter). cbn in Hsum. lia.
    + intros Hp. destruct (H2 Hp); auto.
    + lia.
    + specialize (Hsum (if decide (n = 0) then Run else Check)). case_decide; cbn in Hsum; lia.
    + intros Hp. destruct (H2 Hp); auto.
    + intros _. left. apply Hli. by case_decide.
  - intros [= <-]. split; cbn; try done.
    + destruct (hasIdleThreads s); [specialize (Hsum Write)|specialize (Hsum Run)]; cbn in Hsum; lia.
    + intros Hp. destruct (H2 Hp); auto.
    + intros _. left. apply Hli. by destruct (hasIdleThreads s).
  - intros [= <-]. split; cbn; try done; auto. specialize (Hsum Run). cbn in Hsum. lia.
  - intros [= <-]. split; cbn; try done.
    + specialize (Hsum Top). cbn in Hsum. lia.
    + intros Hp. destruct (H2 Hp); auto.
    + intros _. left. by apply Hli.
  - intros [= <-]. split; cbn; try done.
    + specialize (Hsum Stop). cbn in Hsum. lia.
    + intros Hp. destruct (H2 Hp); auto.
    + intros Hq. destruct (H3 Hq); [left; eapply looks_keep; [exact Ei|by intros []|done]|auto].
  - intros [= <-]. split; cbn; try done.
    + specialize (Hsum Poll). cbn in Hsum. lia.
    + intros Hp. destruct (H2 Hp); auto.
    + intros Hq. destruct (H3 Hq); [left; eapply looks_keep; [exact Ei|by intros []|done]|auto].
  - (* Poll *) unfold poll. destruct timeout; [|destruct (edge s) eqn:Ee; [|done]]; intros [= <-]; split; cbn; try done.
    + specialize (Hsum Back). cbn in Hsum. lia.
    + intros Hp. destruct (H2 Hp); auto.
    + intros _. left. by apply Hli.
    + specialize (Hsum Read). cbn in Hsum. lia.
    + intros _. right. eapply list_elem_of_insert. by eapply lookup_lt_Some.
    + intros _. left. by apply Hli.
  - (* Read *) unfold drain. intros [= <-]. case_decide as Hz; split; cbn; try done.
    + specialize (Hsum Back). cbn in Hsum. lia.
    + lia.
    + intros _. left. by apply Hli.
    + intros _. right. by eapply list_elem_of_lookup_2.
  - intros [= <-]. split; cbn; try done.
    + specialize (Hsum Top). cbn in Hsum. lia.
    + intros Hp. destruct (H2 Hp); auto.
    + intros _. left. by apply Hli.
Qed.
Lemma wake_begin_ok n : 0 < n -> inv (begin n).
Proof.
  intros Hn. split; cbn; [|lia|lia|destruct n; [lia|done]]. clear Hn. induction n as [|n IH]; [done|]. cbn. done.
Qed.
Lemma reach_ok n s : 0 < n -> reach (begin n) s -> inv s.
Proof.
  intros Hn. induction 1 as [|s s' a _ IH Ht He]; [by apply wake_begin_ok|]. destruct a; cbn in He.
  - injection He as <-. by apply push_ok.
  - by eapply check_ok; [|apply Ht|].
  - by eapply write_step_ok.
  - by eapply worker_ok.
Qed.
(** A step that is no new task and does not wait for a time. *)
Definition prompt (a : act) : bool := match a with Push | Step _ true => false | _ => true end.
Lemma prompt_step s : inv s -> 0 < m_fibers s -> exists a s', prompt a = true /\ exec a s = Some s'.
Proof.
  intros [H1 H2 H3 H4] Hq. destruct (H3 Hq) as [(p & (i & Hi)%list_elem_of_lookup & Hp)%Exists_exists|[He|[Hc|Hw]]].
  - exists (Step i false). cbn. unfold worker. rewrite Hi. cbn. destruct p; try done; try (by eexists). destruct (m_fibers s); by eexists.
  - destruct (workers s) as [|p l] eqn:Ew; [done|]. exists (Step 0 false). cbn. unfold worker. rewrite Ew. cbn. destruct p; try (by eexists); [destruct (m_fibers s); by eexists|unfold poll; rewrite He; by eexists].
  - exists DoCheck. cbn. unfold check. destruct (checks s); [lia|]. by eexists.
  - exists DoWrite. cbn. unfold write. destruct (writes s); [lia|]. by eexists.
Qed.

(** C14. Idle threads are woken: with any number of threads and of callers of
    [scheduler], whose steps interleave, as long as no caller asks for idle threads
    in the moment in which none is idle but one has found the queue empty: while
    a task is queued, some thread is on its way to the queue, or the pipe has
    something new to report, or a caller is about to write to it, so that the
    system goes on without waiting for a time-out; the count of idle threads is
    exact, and what is in the pipe is noticed. *)
Theorem wakeups_arrive (n : nat) (s : state) :
  0 < n -> reach (begin n) s ->
  m_idleThreadCount s = sum_list_with is_idle (workers s)
  /\ (0 < pipe s -> edge s = true \/ Read ∈ workers s)
  /\ (0 < m_fibers s -> (Exists looks (workers s) \/ edge s = true \/ 0 < checks s \/ 0 < writes s)
        /\ exists a s', prompt a = true /\ exec a s = Some s').
Proof.
  intros Hn Hr. pose proof (reach_ok n s Hn Hr) as Hi. split_and!; [apply Hi|apply Hi|]. intros Hq. split; [by apply Hi|by apply prompt_step].
Qed.
Fixpoint play (l : list act) (s : state) : option state := match l with [] => Some s | a :: l => exec a s ≫= play l end.
Definition in_timeb (a : act) (s : state) : bool := match a with DoCheck => bool_decide (0 < m_idleThreadCount s \/ Enter ∉ workers s) | _ => true end.
Fixpoint timely (l : list act) (s : state) : bool :=
  match l with [] => true | a :: l => in_timeb a s && match exec a s with Some s => timely l s | None => true end end.
Lemma wake_play_reach l s0 s s' : reach s0 s -> timely l s = true -> play l s = Some s' -> reach s0 s'.
Proof.
  revert s. induction l as [|a l IH]; intros s Hr Ht Hp; cbn in *; [by injection Hp as <-|]. apply andb_true_iff in Ht as [Ha Ht]. destruct (exec a s) as [s1|] eqn:Ee; [|done].
  apply (IH s1); [|done|done]. eapply reach_step; [exact Hr| |exact Ee]. intros ->. by apply bool_decide_eq_true in Ha.
Qed.
(** Two threads go to sleep, and a task wakes one of them. *)
Definition to_sleep (i : nat) : list act := [Step i false; Step i false; Step i false].
Definition asleep : state := MkState 1 2 1 true 0 0 [Poll; Poll].
Lemma wakeups_arrive_witness :
  play (to_sleep 0 ++ to_sleep 1 ++ [Push; DoCheck; DoWrite]) (begin 2) = Some asleep /\ exists a s', prompt a = true /\ exec a asleep = Some s'.
Proof.
  assert (play (to_sleep 0 ++ to_sleep 1 ++ [Push; DoCheck; DoWrite]) (begin 2) = Some asleep) as Hp by (vm_compute; reflexivity).
  assert (timely (to_sleep 0 ++ to_sleep 1 ++ [Push; DoCheck; DoWrite]) (begin 2) = true) as Ht by (vm_compute; reflexivity).
  destruct (wakeups_arrive 2 asleep) as (_ & _ & Hs); [lia|exact (wake_play_reach _ _ _ _ (reach_refl _) Ht Hp)|]. split; [exact Hp|]. apply Hs. cbn. lia.
Defined.

(** *** What goes wrong *)

(** The window: a thread finds the queue empty, a task is queued and nobody is
    idle yet; then the thread goes to sleep beside the task, and only a time-out
    goes on. *)
Lemma wakeup_is_missed :
  exists s, play [Step 0 false; Push; DoCheck; Step 0 false; Step 0 false] (begin 1) = Some s
    /\ m_fibers s = 1 /\ workers s = [Poll] /\ forall a, prompt a = true -> exec a s = None.
Proof.
  eexists. split_and!; [reflexivity..|]. intros [| | |[|i] [|]] Ha; try done.
Qed.

End Wakeup.
