(* ===== verification/Fiber.v ===== *)
(** * Fibers: [luwu/luwu/fiber.cpp]

    Fiber objects live in a heap; a [Fiber*] is the identifier of the fiber.
    A thread has its thread-local variables and the fiber whose code is on
    its processor.  [ucontext_t] is modelled by whose execution it holds:
    [swapcontext] stores that of the processor and loads another one.  A
    context that was loaded is stale until it is stored again, and loading a
    stale one is undefined behaviour. *)
From S2P Require Import Prelude.
Local Open Scope Z_scope.

Module Fiber.

Inductive State := READY | RUNNING | TERM.
#[export] Instance state_eq_decision : EqDecision State.
Proof. solve_decision. Defined.

Record Fiber := MkFiber {
  m_stackSize : Z;
  m_stack : bool;                (* the stack is allocated *)
  m_state : State;
  m_cb : option N;               (* the entry function, by number *)
  m_runInScheduler : bool;
  m_context : option N;          (* whose execution the context holds *)
}.

(** The thread-local variables of [fiber.cpp] and [scheduler.cpp], the fiber
    on the processor, and the fiber whose [yield] has not reached its
    [swapcontext] yet. *)
Record cpu := MkCpu {
  t_fiber : option N;
  t_threadFiber : option N;
  t_scheduler_fiber : option N;
  executing : option N;
  leaving : option N;
}.

Record world := MkWorld { fibers : gmap N Fiber; s_fiberId : N; s_fiberCount : Z; cpus : gmap Z cpu }.

(** A thread that has not used fibers yet. *)
Definition native : cpu := MkCpu None None None None None.
Definition thread (t : Z) (w : world) : cpu := default native (cpus w !! t).

Definition put (f : N) (F : Fiber) (w : world) : world :=
  MkWorld (<[f := F]> (fibers w)) (s_fiberId w) (s_fiberCount w) (cpus w).
Definition put_cpu (t : Z) (c : cpu) (w : world) : world :=
  MkWorld (fibers w) (s_fiberId w) (s_fiberCount w) (<[t := c]> (cpus w)).
Definition set_state (x : State) (F : Fiber) : Fiber :=
  MkFiber (m_stackSize F) (m_stack F) x (m_cb F) (m_runInScheduler F) (m_context F).
Definition set_cb (k : option N) (F : Fiber) : Fiber :=
  MkFiber (m_stackSize F) (m_stack F) (m_state F) k (m_runInScheduler F) (m_context F).
Definition set_context (g : option N) (F : Fiber) : Fiber :=
  MkFiber (m_stackSize F) (m_stack F) (m_state F) (m_cb F) (m_runInScheduler F) g.
Definition SetThis (f : option N) (c : cpu) : cpu :=
  MkCpu f (t_threadFiber c) (t_scheduler_fiber c) (executing c) (leaving c).
Definition set_scheduler_fiber (f : option N) (c : cpu) : cpu :=
  MkCpu (t_fiber c) (t_threadFiber c) f (executing c) (leaving c).
Definition set_leaving (f : option N) (c : cpu) : cpu :=
  MkCpu (t_fiber c) (t_threadFiber c) (t_scheduler_fiber c) (executing c) f.
Definition set_executing (f : option N) (c : cpu) : cpu :=
  MkCpu (t_fiber c) (t_threadFiber c) (t_scheduler_fiber c) f (leaving c).

(** ** Construction and destruction *)

(** [Fiber()]: the fiber of the thread itself. *)
Definition main_fiber (t : Z) : M world N := fun w =>
  let id := s_fiberId w in
  let c := thread t w in
  let c := MkCpu (Some id) (t_threadFiber c) (t_scheduler_fiber c) (Some id) (leaving c) in
  Ret id (put_cpu t c (MkWorld (<[id := MkFiber 0 false RUNNING None true None]> (fibers w))
                         (id + 1)%N (u64 (s_fiberCount w + 1)) (cpus w))).

(** [Fiber(cb, stackSize, run_in_scheduler)]; [cfg] is [fiber.stack_size]. *)
Definition new_fiber (cfg : Z) (cb : option N) (stackSize : Z) (run_in_scheduler : bool) : M world N := fun w =>
  let id := s_fiberId w in
  let F := MkFiber (u32 (if stackSize =? 0 then cfg else stackSize)) true READY cb run_in_scheduler (Some id) in
  Ret id (MkWorld (<[id := F]> (fibers w)) (id + 1)%N (u64 (s_fiberCount w + 1)) (cpus w)).

(** [~Fiber], on thread [t]. *)
Definition destroy (t : Z) (f : N) : M world unit := fun w =>
  match fibers w !! f with
  | None => UB
  | Some F =>
      let gone c := MkWorld (delete f (fibers w)) (s_fiberId w) (u64 (s_fiberCount w - 1)) c in
      if m_stack F then
        if decide (m_state F = TERM) then Ret tt (gone (cpus w)) else Throw AssertFailed w
      else if m_cb F is Some _ then Throw AssertFailed w
      else if decide (m_state F = RUNNING) then
        let c := thread t w in
        Ret tt (gone (if decide (t_fiber c = Some f) then <[t := SetThis None c]> (cpus w) else cpus w))
      else Throw AssertFailed w
  end.

(** [Fiber::reset]. *)
Definition reset (f : N) (cb : option N) : M world unit := fun w =>
  match fibers w !! f with
  | None => UB
  | Some F =>
      if negb (m_stack F) then Throw AssertFailed w
      else if decide (m_state F = TERM)
      then Ret tt (put f (MkFiber (m_stackSize F) true READY cb (m_runInScheduler F) (Some f)) w)
      else Throw AssertFailed w
  end.

(** [Fiber::GetThis]: the first call makes the fiber of the thread. *)
Definition GetThis (t : Z) : M world N := fun w =>
  match t_fiber (thread t w) with
  | Some f => if fibers w !! f is Some _ then Ret f w else UB
  | None =>
      let* f, w := main_fiber t w in
      let c := thread t w in
      Ret f (put_cpu t (MkCpu (t_fiber c) (Some f) (t_scheduler_fiber c) (executing c) (leaving c)) w)
  end.

Definition GetFiberId (t : Z) (w : world) : N := default 0%N (t_fiber (thread t w)).
Definition TotalFibers (w : world) : Z := s_fiberCount w.

(** ** Switching *)

(** [swapcontext(&save->m_context, &load->m_context)] on thread [t]. *)
Definition swapcontext (t : Z) (save load : option N) : M world unit := fun w =>
  match save, load, executing (thread t w) with
  | Some a, Some b, Some e =>
      match fibers w !! a with
      | None => UB
      | Some A =>
          let w := put a (set_context (Some e) A) w in
          match fibers w !! b with
          | None => UB
          | Some B =>
              match m_context B with
              | None => UB
              | Some g => Ret tt (put_cpu t (set_executing (Some g) (thread t w)) (put b (set_context None B) w))
              end
          end
      end
  | _, _, _ => UB
  end.

(** The fiber that [f] is exchanged with. *)
Definition partner (t : Z) (F : Fiber) (w : world) : option N :=
  if m_runInScheduler F then t_scheduler_fiber (thread t w) else t_threadFiber (thread t w).

(** [Fiber::resume] of [f] on thread [t]. *)
Definition resume (t : Z) (f : N) : M world unit := fun w =>
  match fibers w !! f with
  | None => UB
  | Some F =>
      if decide (m_state F = READY) then
        let w := put f (set_state RUNNING F) (put_cpu t (SetThis (Some f) (thread t w)) w) in
        swapcontext t (partner t F w) (Some f) w
      else Throw AssertFailed w
  end.

(** [Fiber::yield] up to its [swapcontext]. *)
Definition yield_enter (t : Z) (f : N) : M world unit := fun w =>
  match fibers w !! f with
  | None => UB
  | Some F =>
      if decide (m_state F = READY) then Throw AssertFailed w else
      let c := thread t w in
      let w := put_cpu t (set_leaving (Some f) (SetThis (t_threadFiber c) c)) w in
      Ret tt (if decide (m_state F = RUNNING) then put f (set_state READY F) w else w)
  end.

(** The [swapcontext] of [yield]. *)
Definition yield_switch (t : Z) : M world unit := fun w =>
  match leaving (thread t w) with
  | None => UB
  | Some f =>
      match fibers w !! f with
      | None => UB
      | Some F => swapcontext t (Some f) (partner t F w) (put_cpu t (set_leaving None (thread t w)) w)
      end
  end.

Definition yield (t : Z) (f : N) : M world unit := fun w =>
  let* _, w := yield_enter t f w in yield_switch t w.

(** [MainFunc] of [f] after its entry function has returned, up to the
    [swapcontext] of its last [yield]. *)
Definition finish_enter (t : Z) (f : N) : M world unit := fun w =>
  match fibers w !! f with
  | None => UB
  | Some F => yield_enter t f (put f (set_state TERM (set_cb None F)) w)
  end.

Definition finish (t : Z) (f : N) : M world unit := fun w =>
  let* _, w := finish_enter t f w in yield_switch t w.

(** ** One thread

    The operations of a thread whose scheduling fiber is [sf], with the
    condition under which the scheduler and the fibers call them. *)
Inductive op := New (cb : option N) | Reset (f : N) (cb : option N) | Resume (f : N) | Yield | Finish | Destroy (f : N).

Definition exec (cfg t : Z) (o : op) : M world unit := fun w =>
  match o with
  | New k => let* _, w := new_fiber cfg k 0 true w in Ret tt w
  | Reset f k => reset f k w
  | Resume f => resume t f w
  | Yield => let* f, w := GetThis t w in yield t f w
  | Finish => let* f, w := GetThis t w in finish t f w
  | Destroy f => destroy t f w
  end.

Definition state_of (f : N) (w : world) : option State := m_state <$> fibers w !! f.

(** What a fiber is made for: whether it has a stack and whether it is
    exchanged with the scheduling fiber. *)
Definition kind (f : N) (x : world) : option (bool * bool) := (fun F => (m_stack F, m_runInScheduler F)) <$> fibers x !! f.

(** The fibers that are neither the scheduling fiber nor the thread's own. *)
Definition user (t : Z) (sf f : N) (w : world) : bool :=
  bool_decide (is_Some (fibers w !! f) /\ f <> sf /\ t_threadFiber (thread t w) <> Some f).

Definition allowed (t : Z) (sf : N) (o : op) (w : world) : bool :=
  let e := executing (thread t w) in
  match o with
  | New _ => true
  | Resume f => user t sf f w && bool_decide (state_of f w = Some READY) && bool_decide (e = Some sf)
  | Reset f _ | Destroy f => user t sf f w && bool_decide (state_of f w = Some TERM) && bool_decide (e <> Some f)
  | Yield | Finish => bool_decide (e <> Some sf)
  end.

(** A pool thread inside [Scheduler::run]: its own fiber schedules. *)
Definition boot_pool (t : Z) : M world N := fun w =>
  let* sf, w := GetThis t w in
  Ret sf (put_cpu t (set_scheduler_fiber (Some sf) (thread t w)) w).

(** The caller's thread: a fiber of its own schedules, which [stop] resumes. *)
Definition boot_caller (cfg t : Z) (run : N) : M world N := fun w =>
  let* _, w := GetThis t w in
  let* sf, w := new_fiber cfg (Some run) 0 false w in
  let w := put_cpu t (set_scheduler_fiber (Some sf) (thread t w)) w in
  let* _, w := resume t sf w in Ret sf w.

Definition nothing : world := MkWorld ∅ 0 0 ∅.

Inductive reach (cfg t : Z) (sf : N) : world -> Prop :=
| reach_pool w : boot_pool t nothing = Ret sf w -> reach cfg t sf w
| reach_caller run w : boot_caller cfg t run nothing = Ret sf w -> reach cfg t sf w
| reach_exec o w w' : reach cfg t sf w -> allowed t sf o w = true -> exec cfg t o w = Ret tt w' -> reach cfg t sf w'.

(** *** Invariant *)

(** A fiber that is not on the processor: suspended with its own execution in
    its context, or terminated. *)
Definition rests (f : N) (F : Fiber) : Prop :=
  m_state F = READY /\ m_context F = Some f \/ m_state F = TERM.

(** What is on the processor: the scheduling fiber, or a fiber that runs or
    is about to switch, while the scheduling fiber's execution is stored. *)
Definition on_cpu (sf : N) (c : cpu) (w : world) : Prop :=
  (executing c = Some sf /\ leaving c = None)
  \/ exists e E S, executing c = Some e /\ e <> sf /\ t_threadFiber c <> Some e
       /\ fibers w !! e = Some E /\ fibers w !! sf = Some S /\ m_context S = Some sf
       /\ (leaving c = None /\ m_state E = RUNNING /\ t_fiber c = Some e
           \/ leaving c = Some e /\ m_state E <> RUNNING).

Record Inv (t : Z) (sf : N) (w : world) : Prop := {
  inv_sf : t_scheduler_fiber (thread t w) = Some sf;
  inv_mf : is_Some (t_threadFiber (thread t w));
  inv_sched : is_Some (fibers w !! sf);
  inv_ids : forall f, is_Some (fibers w !! f) -> (f < s_fiberId w)%N;
  inv_user : forall f F, fibers w !! f = Some F -> f <> sf -> t_threadFiber (thread t w) <> Some f ->
    m_stack F = true /\ m_runInScheduler F = true /\ (executing (thread t w) <> Some f -> rests f F);
  inv_cpu : on_cpu sf (thread t w) w;
}.

Lemma thread_put_cpu t c w : thread t (put_cpu t c w) = c.
Proof. unfold thread, put_cpu. cbn. by rewrite lookup_insert_eq. Qed.
Lemma thread_put t f F w : thread t (put f F w) = thread t w.
Proof. done. Qed.
Lemma lookup_put f F w : fibers (put f F w) !! f = Some F.
Proof. apply lookup_insert_eq. Qed.
Lemma lookup_put_ne f g F w : f <> g -> fibers (put f F w) !! g = fibers w !! g.
Proof. intros. by apply lookup_insert_ne. Qed.
Create Rewrite HintDb fiber.
#[local] Hint Rewrite thread_put_cpu thread_put lookup_put : fiber.

(** An operation moved fiber [f] to state [x], left the state of every other
    fiber alone, and put [e] on the processor of [t]. *)
Record moved (t : Z) (f : N) (x : State) (e : N) (w w' : world) : Prop := {
  mv_self : state_of f w' = Some x;
  mv_other : forall g, g <> f -> state_of g w' = state_of g w;
  mv_exec : executing (thread t w') = Some e;
  mv_thread : t_threadFiber (thread t w') = t_threadFiber (thread t w);
  mv_sched : t_scheduler_fiber (thread t w') = t_scheduler_fiber (thread t w);
  mv_kind : forall g, kind g w' = kind g w;
  mv_keep : forall g, g <> f -> t_scheduler_fiber (thread t w) <> Some g -> fibers w' !! g = fibers w !! g;
}.

Lemma user_true t sf f w : user t sf f w = true ->
  is_Some (fibers w !! f) /\ f <> sf /\ t_threadFiber (thread t w) <> Some f.
Proof. unfold user. intros H%bool_decide_eq_true. done. Qed.

Lemma resume_ok t sf f w :
  Inv t sf w -> user t sf f w = true -> state_of f w = Some READY -> executing (thread t w) = Some sf ->
  exists w', resume t f w = Ret tt w' /\ Inv t sf w' /\ moved t f RUNNING f w w' /\ leaving (thread t w') = None.
Proof.
  intros [Hsf Hmf [S HS] Hids Huser Hcpu] ([F HF] & Hne & Hth)%user_true Hst He.
  unfold state_of in Hst. rewrite HF in Hst. injection Hst as Hst.
  destruct (Huser f F HF Hne Hth) as (H1 & H2 & H3).
  destruct H3 as [[_ Hctx]|H3]; [congruence| |congruence].
  assert (leaving (thread t w) = None) as Hl.
  { destruct Hcpu as [[_ ?]|(e & ? & ? & ? & ? & _)]; [done|congruence]. }
  unfold resume. rewrite HF, decide_True by done. unfold partner. rewrite H2, thread_put, thread_put_cpu.
  cbn [t_scheduler_fiber SetThis]. rewrite Hsf. unfold swapcontext.
  rewrite thread_put, thread_put_cpu. cbn [executing SetThis]. rewrite He.
  rewrite lookup_put_ne by done. cbn [fibers put_cpu]. rewrite HS, lookup_put_ne, lookup_put by done.
  cbn [m_context set_state]. rewrite Hctx. eexists. split; [reflexivity|].
  split; [split|split; [split|by autorewrite with fiber; cbn]]; autorewrite with fiber; cbn; try done.
  - destruct (decide (f = sf)); [done|]. rewrite lookup_insert_ne by done. rewrite lookup_insert_eq. eauto.
  - intros g [G Hg]. apply Hids. destruct (decide (g = f)) as [->|]; [eauto|]. destruct (decide (g = sf)) as [->|]; [eauto|].
    rewrite !lookup_insert_ne in Hg by done. eauto.
  - intros g G Hg Hgs Hgt. destruct (decide (g = f)) as [->|Hgf].
    + rewrite lookup_insert_eq in Hg. injection Hg as <-. cbn. split; [done|]. split; [done|]. congruence.
    + rewrite !lookup_insert_ne in Hg by done. destruct (Huser g G Hg Hgs Hgt) as (? & ? & Hr). split; [done|]. split; [done|].
      intros _. apply Hr. congruence.
  - right. exists f, (set_context None (set_state RUNNING F)), (set_context (Some sf) S).
    repeat (split; [done || (cbn; simplify_map_eq; done)|]). left. done.
  - unfold state_of. cbn. by rewrite lookup_insert_eq.
  - intros g Hg. unfold state_of. cbn. rewrite lookup_insert_ne by done. destruct (decide (g = sf)) as [->|].
    + rewrite lookup_insert_eq, HS. done.
    + by rewrite !lookup_insert_ne.
  - intros g. unfold kind. cbn. rewrite !lookup_insert. repeat case_decide; subst; rewrite ?HF, ?HS; done.
  - intros g Hg Hgs. rewrite Hsf in Hgs. by rewrite !lookup_insert_ne by congruence.
Qed.

(** Lookup in a heap where two fibers were replaced. *)
Lemma state_put f F g w : state_of g (put f F w) = if decide (g = f) then Some (m_state F) else state_of g w.
Proof.
  unfold state_of. destruct (decide (g = f)) as [->|]; [by rewrite lookup_put|by rewrite lookup_put_ne].
Qed.
Lemma state_put_cpu t c g w : state_of g (put_cpu t c w) = state_of g w.
Proof. done. Qed.
Lemma state_some f F w : fibers w !! f = Some F -> state_of f w = Some (m_state F).
Proof. unfold state_of. by intros ->. Qed.

(** A running fiber enters [yield]; with [x] as [TERM] this is the end of
    [MainFunc]. *)
Lemma yield_enter_ok t sf e w :
  Inv t sf w -> executing (thread t w) = Some e -> e <> sf -> leaving (thread t w) = None ->
  GetThis t w = Ret e w
  /\ (exists w', yield_enter t e w = Ret tt w' /\ Inv t sf w' /\ moved t e READY e w w' /\ leaving (thread t w') = Some e)
  /\ exists w', finish_enter t e w = Ret tt w' /\ Inv t sf w' /\ moved t e TERM e w w' /\ leaving (thread t w') = Some e.
Proof.
  intros [Hsf Hmf HS Hids Huser Hcpu] He Hne Hl.
  destruct Hcpu as [[? _]|(e' & E & S & He' & _ & Hth & HE & HSS & Hctx & [(_ & Hst & Ht)|[? _]])]; [congruence| |congruence].
  assert (e' = e) as -> by congruence.
  split; [unfold GetThis; by rewrite Ht, HE|].
  assert (forall x k, x <> RUNNING -> let w' := put e (set_state x (set_cb k E)) (put_cpu t (set_leaving (Some e) (SetThis (t_threadFiber (thread t w)) (thread t w))) w) in
    Inv t sf w' /\ moved t e x e w w' /\ leaving (thread t w') = Some e) as Hgen.
  { intros x k Hx w'. split; [split|split; [split|]]; unfold w'; autorewrite with fiber; cbn; try done.
    - by rewrite lookup_insert_ne.
    - intros g [G Hg]. apply Hids. destruct (decide (g = e)) as [->|]; [eauto|]. rewrite lookup_insert_ne in Hg by done. eauto.
    - intros g G Hg Hgs Hgt. destruct (decide (g = e)) as [->|Hgf].
      + rewrite lookup_insert_eq in Hg. injection Hg as <-. destruct (Huser e E HE Hne Hth) as (? & ? & _). cbn. split; [done|]. split; [done|]. congruence.
      + rewrite lookup_insert_ne in Hg by done. by apply Huser.
    - right. exists e, (set_state x (set_cb k E)), S. repeat (split; [done || (cbn; simplify_map_eq; done)|]). right. done.
    - rewrite state_put. by rewrite decide_True.
    - intros g Hg. rewrite state_put. by rewrite decide_False.
    - intros g. unfold kind. cbn. rewrite lookup_insert. case_decide; subst; by rewrite ?HE.
    - intros g Hg _. by rewrite lookup_insert_ne. }
  split.
  - unfold yield_enter. rewrite HE, decide_False, decide_True by congruence. eexists. split; [reflexivity|].
    apply (Hgen READY (m_cb E)). done.
  - unfold finish_enter. rewrite HE. unfold yield_enter. rewrite lookup_put. cbn [m_state set_state].
    rewrite decide_False, decide_False by done. eexists. split; [reflexivity|].
    by apply (Hgen TERM None).
Qed.

(** The switch back to the scheduling fiber. *)
Lemma yield_switch_ok t sf e w :
  Inv t sf w -> executing (thread t w) = Some e -> leaving (thread t w) = Some e ->
  exists w' x, yield_switch t w = Ret tt w' /\ Inv t sf w' /\ moved t e x sf w w' /\ leaving (thread t w') = None
    /\ state_of e w = Some x /\ x <> RUNNING.
Proof.
  intros [Hsf Hmf HS Hids Huser Hcpu] He Hl.
  destruct Hcpu as [[_ ?]|(e' & E & S & He' & Hne & Hth & HE & HSS & Hctx & [[? _]|[_ Hst]])]; [congruence|congruence|].
  assert (e' = e) as -> by congruence. destruct (Huser e E HE Hne Hth) as (H1 & H2 & _).
  unfold yield_switch. rewrite Hl, HE. unfold partner. rewrite H2, Hsf. unfold swapcontext.
  rewrite thread_put_cpu. cbn [executing set_leaving fibers put_cpu]. rewrite He, HE, lookup_put_ne by done.
  cbn [fibers put_cpu]. rewrite HSS, Hctx. eexists _, (m_state E). split; [reflexivity|].
  rewrite (state_some e E) by done. split; [split|split; [split|by autorewrite with fiber]]; autorewrite with fiber; cbn; try done.
  - rewrite lookup_insert_eq. eauto.
  - intros g [G Hg]. apply Hids. destruct (decide (g = sf)) as [->|]; [eauto|]. destruct (decide (g = e)) as [->|]; [eauto|].
    rewrite !lookup_insert_ne in Hg by done. eauto.
  - intros g G Hg Hgs Hgt. rewrite lookup_insert_ne in Hg by done. destruct (decide (g = e)) as [->|Hgf].
    + rewrite lookup_insert_eq in Hg. injection Hg as <-. cbn. split; [done|]. split; [done|]. intros _. unfold rests. cbn.
      destruct (m_state E); naive_solver.
    + rewrite lookup_insert_ne in Hg by done. destruct (Huser g G Hg Hgs Hgt) as (? & ? & Hr). split; [done|]. split; [done|].
      intros _. apply Hr. congruence.
  - left. done.
  - rewrite state_put_cpu, !state_put, decide_False, decide_True by done. done.
  - intros g Hg. rewrite state_put_cpu, !state_put. destruct (decide (g = sf)) as [->|]; [by rewrite (state_some _ _ _ HSS)|].
    by rewrite decide_False.
  - intros g. unfold kind. cbn. rewrite !lookup_insert. repeat case_decide; subst; rewrite ?HE, ?HSS; done.
  - intros g Hg Hgs. rewrite Hsf in Hgs. by rewrite !lookup_insert_ne by congruence.
Qed.

(** Changes to a fiber that is not on the processor. *)
Lemma Inv_put t sf f F w :
  Inv t sf w -> f <> sf -> executing (thread t w) <> Some f -> (f < s_fiberId w)%N ->
  m_stack F = true -> m_runInScheduler F = true -> rests f F -> Inv t sf (put f F w).
Proof.
  intros [Hsf Hmf HS Hids Huser Hcpu] Hne He Hlt H1 H2 H3. split; rewrite ?thread_put; cbn; try done.
  - by rewrite lookup_insert_ne.
  - intros g [G Hg]. destruct (decide (g = f)) as [->|]; [done|]. rewrite lookup_insert_ne in Hg by done. eauto.
  - intros g G Hg Hgs Hgt. destruct (decide (g = f)) as [->|]; [|rewrite lookup_insert_ne in Hg by done; by apply Huser].
    rewrite lookup_insert_eq in Hg. by injection Hg as <-.
  - destruct Hcpu as [?|(e & E & S & ? & ? & ? & ? & ? & ? & ?)]; [by left|]. right. exists e, E, S.
    repeat (split; [done || (rewrite lookup_put_ne; congruence)|]). done.
Qed.

Lemma Inv_delete t sf f w n :
  Inv t sf w -> f <> sf -> executing (thread t w) <> Some f ->
  Inv t sf (MkWorld (delete f (fibers w)) (s_fiberId w) n (cpus w)).
Proof.
  intros [Hsf Hmf HS Hids Huser Hcpu] Hne He. split; cbn; try done.
  - by rewrite lookup_delete_ne.
  - intros g [G Hg]. apply lookup_delete_Some in Hg as [? Hg]. eauto.
  - intros g G [? Hg]%lookup_delete_Some. by apply Huser.
  - destruct Hcpu as [?|(e & E & S & ? & ? & ? & ? & ? & ? & ?)]; [by left|]. right. exists e, E, S.
    repeat (split; [done || (cbn; rewrite lookup_delete_ne; congruence)|]). done.
Qed.

Lemma new_fiber_ok cfg t sf k w :
  Inv t sf w -> exists w', new_fiber cfg k 0 true w = Ret (s_fiberId w) w' /\ Inv t sf w'
    /\ state_of (s_fiberId w) w = None /\ state_of (s_fiberId w) w' = Some READY
    /\ (forall g, g <> s_fiberId w -> state_of g w' = state_of g w) /\ thread t w' = thread t w.
Proof.
  intros Hinv. assert (forall g, is_Some (fibers w !! g) -> g <> s_fiberId w) as Hfresh.
  { intros g Hg%(inv_ids _ _ _ Hinv) ->. lia. }
  eexists. split; [reflexivity|]. split; [|unfold state_of; cbn; rewrite lookup_insert_eq; repeat split; try done].
  - set (w1 := MkWorld (fibers w) (s_fiberId w + 1)%N (u64 (s_fiberCount w + 1)) (cpus w)).
    apply (Inv_put t sf _ _ w1); try done.
    + destruct Hinv as [? ? ? Hids ? ?]. split; try done. intros f Hf%Hids. cbn. lia.
    + intros Hx. by eapply Hfresh; [apply (inv_sched _ _ _ Hinv)|].
    + intros He. destruct (inv_cpu _ _ _ Hinv) as [[He' _]|(e & E & S & He' & _ & _ & HE & _)];
        change (thread t w1) with (thread t w) in He; rewrite He in He'; injection He' as He'.
      * eapply Hfresh; [apply (inv_sched _ _ _ Hinv)|done].
      * eapply Hfresh; [exact (mk_is_Some _ _ HE)|done].
    + cbn. lia.
    + by left.
  - destruct (fibers w !! s_fiberId w) eqn:E; [|done]. exfalso. eapply Hfresh; eauto.
  - intros g Hg. by rewrite lookup_insert_ne.
Qed.

(** [f] alone changed its state, to [x] ([None] when it is gone). *)
Definition changed (t : Z) (f : N) (x : option State) (w w' : world) : Prop :=
  state_of f w' = x /\ (forall g, g <> f -> state_of g w' = state_of g w) /\ thread t w' = thread t w.

Lemma reset_ok t sf f k w :
  Inv t sf w -> user t sf f w = true -> state_of f w = Some TERM -> executing (thread t w) <> Some f ->
  exists w', reset f k w = Ret tt w' /\ Inv t sf w' /\ changed t f (Some READY) w w'.
Proof.
  intros Hinv ([F HF] & Hne & Hth)%user_true Hst He. rewrite (state_some _ _ _ HF) in Hst. injection Hst as Hst.
  destruct (inv_user _ _ _ Hinv f F HF Hne Hth) as (H1 & H2 & _).
  unfold reset. rewrite HF, H1, decide_True by done. cbn [negb]. eexists. split; [reflexivity|]. split.
  - apply Inv_put; try done; [by apply (inv_ids _ _ _ Hinv); eauto|by left].
  - split; [by rewrite state_put, decide_True|]. split; [|done]. intros g Hg. by rewrite state_put, decide_False.
Qed.

Lemma destroy_ok t sf f w :
  Inv t sf w -> user t sf f w = true -> state_of f w = Some TERM -> executing (thread t w) <> Some f ->
  exists w', destroy t f w = Ret tt w' /\ Inv t sf w' /\ changed t f None w w'.
Proof.
  intros Hinv ([F HF] & Hne & Hth)%user_true Hst He. rewrite (state_some _ _ _ HF) in Hst. injection Hst as Hst.
  destruct (inv_user _ _ _ Hinv f F HF Hne Hth) as (H1 & H2 & _).
  unfold destroy. rewrite HF, H1, decide_True by done. eexists. split; [reflexivity|]. split; [by apply Inv_delete|].
  unfold changed, state_of. cbn. rewrite lookup_delete_eq. split; [done|]. split; [|done].
  intros g Hg. by rewrite lookup_delete_ne.
Qed.

(** What each operation does. *)
Definition effect (t : Z) (sf : N) (o : op) (w w' : world) : Prop :=
  let e := executing (thread t w) in
  match o with
  | New _ => state_of (s_fiberId w) w = None /\ changed t (s_fiberId w) (Some READY) w w'
  | Reset f _ => changed t f (Some READY) w w'
  | Resume f => moved t f RUNNING f w w'
  | Yield => exists f, e = Some f /\ moved t f READY sf w w'
  | Finish => exists f, e = Some f /\ moved t f TERM sf w w'
  | Destroy f => changed t f None w w'
  end.

Lemma moved_trans t f x y e e' w w1 w2 : moved t f x e w w1 -> moved t f y e' w1 w2 -> moved t f y e' w w2.
Proof.
  intros [A1 A2 A3 A4 A5 A6 A7] [B1 B2 B3 B4 B5 B6 B7]. split; try done; try congruence.
  - intros g Hg. by rewrite B2, A2.
  - intros g Hg Hs. rewrite B7, A7; congruence.
Qed.

(** A [yield] that was entered is completed by the switch. *)
Lemma left_ok t sf e x w w1 :
  Inv t sf w1 -> moved t e x e w w1 -> leaving (thread t w1) = Some e ->
  exists w', yield_switch t w1 = Ret tt w' /\ (Inv t sf w' /\ leaving (thread t w') = None) /\ moved t e x sf w w'.
Proof.
  intros H1 H2 H3. destruct (yield_switch_ok t sf e w1 H1 (mv_exec _ _ _ _ _ _ H2) H3) as (w' & y & E & Hi & Hm & Hl & Hy & _).
  rewrite (mv_self _ _ _ _ _ _ H2) in Hy. injection Hy as ->. exists w'. split; [done|]. split; [done|]. by eapply moved_trans.
Qed.

Lemma exec_ok cfg t sf o w :
  Inv t sf w -> leaving (thread t w) = None -> allowed t sf o w = true ->
  exists w', exec cfg t o w = Ret tt w' /\ (Inv t sf w' /\ leaving (thread t w') = None) /\ effect t sf o w w'.
Proof.
  intros Hinv Hl Ha. destruct o as [k|f k|f| | |f]; cbn [exec allowed effect] in *.
  - destruct (new_fiber_ok cfg t sf k w Hinv) as (w' & -> & Hi & H1 & H2 & H3 & H4). exists w'. cbn [obind]. rewrite H4. done.
  - apply andb_true_iff in Ha as [[Hu Hs%bool_decide_eq_true]%andb_true_iff He%bool_decide_eq_true].
    destruct (reset_ok t sf f k w Hinv Hu Hs He) as (w' & -> & Hi & Hc). exists w'. destruct Hc as (? & ? & Ht). by rewrite Ht.
  - apply andb_true_iff in Ha as [[Hu Hs%bool_decide_eq_true]%andb_true_iff He%bool_decide_eq_true].
    destruct (resume_ok t sf f w Hinv Hu Hs He) as (w' & -> & Hi & Hc & Hl'). eauto.
  - apply bool_decide_eq_true in Ha. destruct (inv_cpu _ _ _ Hinv) as [[? _]|(e & _ & _ & He & Hne & _)]; [done|].
    destruct (yield_enter_ok t sf e w Hinv He Hne Hl) as (-> & (w1 & E & H1 & H2 & H3) & _). cbn [obind]. unfold yield.
    rewrite E. cbn [obind]. destruct (left_ok t sf e READY w w1 H1 H2 H3) as (w' & ? & ? & ?). eauto 6.
  - apply bool_decide_eq_true in Ha. destruct (inv_cpu _ _ _ Hinv) as [[? _]|(e & _ & _ & He & Hne & _)]; [done|].
    destruct (yield_enter_ok t sf e w Hinv He Hne Hl) as (-> & _ & w1 & E & H1 & H2 & H3). cbn [obind]. unfold finish.
    rewrite E. cbn [obind]. destruct (left_ok t sf e TERM w w1 H1 H2 H3) as (w' & ? & ? & ?). eauto 6.
  - apply andb_true_iff in Ha as [[Hu Hs%bool_decide_eq_true]%andb_true_iff He%bool_decide_eq_true].
    destruct (destroy_ok t sf f w Hinv Hu Hs He) as (w' & -> & Hi & Hc). exists w'. destruct Hc as (? & ? & Ht). by rewrite Ht.
Qed.

(** *** Start of a thread *)
Lemma boot_pool_ok t : exists w, boot_pool t nothing = Ret 0%N w /\ Inv t 0 w /\ leaving (thread t w) = None.
Proof.
  unfold boot_pool, GetThis, thread, nothing. cbn. rewrite !lookup_insert_eq. eexists. split; [reflexivity|].
  split; [split|]; unfold thread; cbn; rewrite ?lookup_insert_eq; cbn; try done.
  - intros f [F HF]. destruct (decide (f = 0%N)) as [->|]; [lia|]. by rewrite lookup_insert_ne, lookup_empty in HF.
  - intros f F HF Hf. by rewrite lookup_insert_ne, lookup_empty in HF.
  - by left.
Qed.

Lemma boot_caller_ok cfg t run :
  exists w, boot_caller cfg t run nothing = Ret 1%N w /\ Inv t 1 w /\ leaving (thread t w) = None.
Proof.
  unfold boot_caller, GetThis, thread, nothing. cbn.
  unfold resume, thread, partner, swapcontext, thread, put, put_cpu. cbn. simplify_map_eq.
  eexists. split; [reflexivity|].
  split; [split|]; unfold thread; cbn; rewrite ?lookup_insert_eq; cbn; try done.
  - intros f [F HF]. destruct (decide (f = 1%N)) as [->|]; [lia|]. destruct (decide (f = 0%N)) as [->|]; [lia|].
    by rewrite !lookup_insert_ne, lookup_empty in HF.
  - intros f F HF Hf Hf0. destruct (decide (f = 0%N)) as [->|]; [done|]. by rewrite !lookup_insert_ne, lookup_empty in HF by done.
  - by left.
Qed.

Lemma reach_inv cfg t sf w : reach cfg t sf w -> Inv t sf w /\ leaving (thread t w) = None.
Proof.
  induction 1 as [w E|run w E|o w w' _ [Hi Hl] Ha E].
  - destruct (boot_pool_ok t) as (w' & E' & H). rewrite E in E'. by injection E' as -> ->.
  - destruct (boot_caller_ok cfg t run) as (w' & E' & H). rewrite E in E'. by injection E' as -> ->.
  - destruct (exec_ok cfg t sf o w Hi Hl Ha) as (w1 & E' & H & _). rewrite E in E'. by injection E' as ->.
Qed.

(** ** Properties *)

(** C29. The fibers of a scheduler are coroutines.  On a thread with a scheduling
    fiber and fibers made to run under it, through any sequence of operations
    each [allowed] in its state (creating a fiber; resuming one that is [READY],
    from the scheduling fiber; yielding and finishing inside one; resetting and
    destroying one that has ended): every operation so allowed returns, and
    moves exactly the fiber it names ([effect]): a resumed fiber is put on the
    processor in state [RUNNING], a fiber that yields or finishes gives the
    processor back to the scheduling fiber and is [READY] or [TERM]; the
    fiber that is running is the one on the processor, it is the one
    [GetThis] answers, and there is no other; and resuming a fiber that is
    not [READY] fails its assertion.  (A fiber that resumes another one is not
    allowed here: [nested_resume_loses_scheduler] shows what it does.) *)
Theorem fiber_switching (cfg t : Z) (sf : N) (w : world) (o : op) :
  reach cfg t sf w ->
  (allowed t sf o w = true -> exists w', exec cfg t o w = Ret tt w' /\ reach cfg t sf w' /\ effect t sf o w w')
  /\ (forall f, user t sf f w = true -> (state_of f w = Some RUNNING <-> executing (thread t w) = Some f))
  /\ (forall f, executing (thread t w) = Some f -> f <> sf -> GetThis t w = Ret f w)
  /\ (forall f, user t sf f w = true -> state_of f w <> Some READY -> resume t f w = Throw AssertFailed w).
Proof.
  intros Hreach. pose proof (reach_inv _ _ _ _ Hreach) as [Hinv Hl]. split; [|split; [|split]].
  - intros Ha. destruct (exec_ok cfg t sf o w Hinv Hl Ha) as (w' & E & _ & He). exists w'.
    split; [done|]. split; [by eapply reach_exec|done].
  - intros f ([F HF] & Hne & Hth)%user_true. rewrite (state_some _ _ _ HF). split.
    + intros [=Hst]. destruct (decide (executing (thread t w) = Some f)) as [|He]; [done|].
      destruct (inv_user _ _ _ Hinv f F HF Hne Hth) as (_ & _ & [[? _]|?]%(fun H => H He)); congruence.
    + intros He. destruct (inv_cpu _ _ _ Hinv) as [[? _]|(e & E & S & He' & _ & _ & HE & _ & _ & [(_ & Hst & _)|[? _]])]; congruence.
  - intros f He Hne. by destruct (yield_enter_ok t sf f w Hinv He Hne Hl).
  - intros f ([F HF] & _)%user_true Hst. unfold resume. rewrite HF, decide_False; [done|].
    intros H. apply Hst. by rewrite (state_some _ _ _ HF), H.
Qed.

(** A sequence of operations, each in a state that allows it. *)
Fixpoint guarded (cfg t : Z) (sf : N) (os : list op) (w : world) : option world :=
  match os with
  | [] => Some w
  | o :: os =>
      if allowed t sf o w then match exec cfg t o w with Ret _ w => guarded cfg t sf os w | _ => None end else None
  end.

Lemma guarded_reach cfg t sf os w w' : reach cfg t sf w -> guarded cfg t sf os w = Some w' -> reach cfg t sf w'.
Proof.
  revert w. induction os as [|o os IH]; intros w Hr; cbn [guarded]; [by intros [= ->]|].
  destruct (allowed t sf o w) eqn:Ea; [|done]. destruct (exec cfg t o w) as [[] w1| | |] eqn:E; try done.
  apply IH. by eapply reach_exec.
Qed.

(** On a pool thread two fibers run in turn; the first yields, the second
    ends. *)
Definition pool_thread : world := match boot_pool 7 nothing with Ret _ w => w | _ => nothing end.
Definition two_fibers : world :=
  default nothing (guarded 131072 7 0 [New (Some 1%N); New (Some 2%N); Resume 1%N; Yield; Resume 2%N; Finish] pool_thread).

Lemma two_fibers_reached : reach 131072 7 0 two_fibers.
Proof.
  apply (guarded_reach _ _ _ [New (Some 1%N); New (Some 2%N); Resume 1%N; Yield; Resume 2%N; Finish] pool_thread).
  - apply reach_pool. vm_compute. reflexivity.
  - vm_compute. reflexivity.
Qed.

Lemma fiber_switching_witness :
  (exists w', exec 131072 7 (Resume 1%N) two_fibers = Ret tt w' /\ executing (thread 7 w') = Some 1%N)
  /\ resume 7 2 two_fibers = Throw AssertFailed two_fibers.
Proof.
  destruct (fiber_switching 131072 7 0 two_fibers (Resume 1%N) two_fibers_reached) as (H1 & _ & _ & H4). split.
  - destruct H1 as (w' & E & _ & He); [vm_compute; reflexivity|]. exists w'. split; [exact E|].
    exact (mv_exec _ _ _ _ _ _ He).
  - apply H4; vm_compute; [reflexivity|discriminate].
Defined.

(** *** Behaviour outside those conditions *)

(** A fiber that resumes another fiber overwrites the context of the
    scheduling fiber with its own: when both have come back, no context holds
    the execution of the scheduling fiber any more, and the [yield] of the
    outer fiber loads a stale one. *)
Theorem nested_resume_loses_scheduler :
  exists w, (let* _, w := exec 131072 7 (New (Some 1%N)) pool_thread in
             let* _, w := exec 131072 7 (New (Some 2%N)) w in
             let* _, w := resume 7 1 w in
             let* _, w := resume 7 2 w in yield 7 2 w) = Ret tt w
    /\ executing (thread 7 w) = Some 1%N
    /\ (forall f F, fibers w !! f = Some F -> m_context F <> Some 0%N)
    /\ yield 7 1 w = UB.
Proof.
  eexists. split; [vm_compute; reflexivity|]. split; [vm_compute; reflexivity|]. split; [|vm_compute; reflexivity].
  apply (bool_decide_unpack (map_Forall (fun _ F => m_context F <> Some 0%N) _)). vm_compute. exact I.
Qed.

End Fiber.
