(* ===== verification/Sync.v ===== *)
(** * Locks and guards: [luwu/luwu/mutex.h]

    The locks are those of pthread and an atomic flag, behind one interface
    ([Lock]); what pthread promises of them is in their definitions, and a call
    that it leaves undefined is a result of its own.  The scoped guards are run
    by threads in any order, one call at a time: [sys_step] is a step of one
    thread.  That critical sections exclude each other, which the other
    components take for granted, is proved here from the guards. *)
From S2P Require Import Prelude.
Local Open Scope Z_scope.

Module Sync.

(** ** Locks *)
Abbreviation tid := nat.
Inductive mode := MLock | MRead | MWrite.  (* [lock], [rdlock], [wrlock] *)
#[export] Instance mode_eq_decision : EqDecision mode.
Proof. solve_decision. Defined.

(** What a call does: it returns, waits, or is undefined. *)
Inductive call (X : Type) := Got (x : X) | Blocks | Undefined.
Arguments Got {X} x.
Arguments Blocks {X}.
Arguments Undefined {X}.
Definition cmap {X Y} (f : X -> Y) (c : call X) : call Y := match c with Got x => Got (f x) | Blocks => Blocks | Undefined => Undefined end.

Class Lock (L : Type) := {
  lk_init : L;
  lk_acquire : mode -> tid -> L -> call L;
  lk_release : tid -> L -> call L;
}.

(** [Mutex] and [Spinlock]: the owner; a thread that locks again waits for
    itself. *)
Record Mutex := MkMutex { owner : option tid }.
#[export] Instance mutex_lock : Lock Mutex := {|
  lk_init := MkMutex None;
  lk_acquire m t l :=
    match m with
    | MLock => match owner l with None => Got (MkMutex (Some t)) | Some _ => Blocks end
    | _ => Undefined
    end;
  lk_release t l := if decide (owner l = Some t) then Got (MkMutex None) else Undefined;
|}.
(** [RWMutex]: the readers, as often as they hold it, or the writer. *)
Fixpoint remove_one (t : tid) (l : list tid) : list tid :=
  match l with [] => [] | u :: l => if decide (u = t) then l else u :: remove_one t l end.
Record RWMutex := MkRW { readers : list tid; writer : option tid }.
#[export] Instance rwmutex_lock : Lock RWMutex := {|
  lk_init := MkRW [] None;
  lk_acquire m t l :=
    match m with
    | MLock => Undefined
    | MRead => match writer l with None => Got (MkRW (t :: readers l) None) | Some w => if decide (w = t) then Undefined else Blocks end
    | MWrite =>
        match writer l with
        | Some w => if decide (w = t) then Undefined else Blocks
        | None => if bool_decide (readers l = []) then Got (MkRW [] (Some t)) else Blocks
        end
    end;
  lk_release t l :=
    if decide (writer l = Some t) then Got (MkRW (readers l) None)
    else if decide (t ∈ readers l) then Got (MkRW (remove_one t (readers l)) (writer l)) else Undefined;
|}.
(** [CASLock]: a flag.  [lock] sets it until it was clear; setting a flag that
    is set changes nothing.  [unlock] clears it, whoever set it. *)
Record CASLock := MkCAS { flag : bool }.
Definition test_and_set (l : CASLock) : bool * CASLock := (flag l, MkCAS true).
#[export] Instance cas_lock : Lock CASLock := {|
  lk_init := MkCAS false;
  lk_acquire m t l := match m with MLock => let '(old, l) := test_and_set l in if old then Blocks else Got l | _ => Undefined end;
  lk_release t l := Got (MkCAS false);
|}.
(** [NullMutex]: nothing. *)
Record NullMutex := MkNull {}.
#[export] Instance null_lock : Lock NullMutex := {| lk_init := MkNull; lk_acquire m t l := Got l; lk_release t l := Got l |}.

(** ** Scoped guards

    [ScopedLockImpl], [ReadScopedLockImpl] and [WriteScopedLockImpl] differ in
    the call that takes the lock; [m_locked] is the state of a guard. *)
Section guards.
Context {L : Type} `{Lock L} (m : mode) (t : tid).
Definition guard_ctor (l : L) : call (bool * L) := cmap (pair true) (lk_acquire m t l).
Definition guard_lock (m_locked : bool) (l : L) : call (bool * L) :=
  if negb m_locked then cmap (pair true) (lk_acquire m t l) else Got (m_locked, l).
Definition guard_unlock (m_locked : bool) (l : L) : call (bool * L) :=
  if m_locked then cmap (pair false) (lk_release t l) else Got (m_locked, l).
Definition guard_dtor (m_locked : bool) (l : L) : call (bool * L) := guard_unlock m_locked l.
End guards.

(** A scope: a guard, and the calls of [lock] and [unlock] in it. *)
Inductive cmd := GLock | GUnlock.
Record scope := MkScope { sc_mode : mode; sc_cmds : list cmd }.
(** A thread: the scope it is in, with its guard, and those to come. *)
Record thread := MkThread { th_in : option (bool * scope); th_next : list scope }.
Definition finished (th : thread) : bool := match th with MkThread None [] => true | _ => false end.
Definition locked_mode (th : thread) : option mode := match th_in th with Some (true, sc) => Some (sc_mode sc) | _ => None end.

Section system.
Context {L : Type} `{Lock L}.
Definition thread_step (t : tid) (th : thread) (l : L) : call (thread * L) :=
  match th_in th with
  | None =>
      match th_next th with
      | [] => Blocks
      | sc :: next => cmap (fun r => (MkThread (Some (fst r, sc)) next, snd r)) (guard_ctor (sc_mode sc) t l)
      end
  | Some (g, MkScope m (c :: cs)) =>
      cmap (fun r => (MkThread (Some (fst r, MkScope m cs)) (th_next th), snd r))
        match c with GLock => guard_lock m t g l | GUnlock => guard_unlock t g l end
  | Some (g, MkScope m []) => cmap (fun r => (MkThread None (th_next th), snd r)) (guard_dtor t g l)
  end.
Record system := MkSys { threads : list thread; the_lock : L }.
Definition sys_step (t : tid) (s : system) : call system :=
  match threads s !! t with
  | None => Blocks
  | Some th => cmap (fun r => MkSys (<[t := fst r]> (threads s)) (snd r)) (thread_step t th (the_lock s))
  end.
Definition start (programs : list (list scope)) : system := MkSys (map (MkThread None) programs) lk_init.
(** [n] steps, in any order of the threads. *)
Inductive steps (s : system) : nat -> system -> Prop :=
| steps_nil : steps s 0 s
| steps_cons n s1 s2 t : steps s n s1 -> sys_step t s1 = Got s2 -> steps s (S n) s2.
(** Calls of a guard that are left. *)
Definition scope_size (sc : scope) : nat := S (S (length (sc_cmds sc))).
Definition thread_size (th : thread) : nat :=
  match th_in th with Some (_, sc) => S (length (sc_cmds sc)) | None => 0 end + sum_list_with scope_size (th_next th).
Definition size (s : system) : nat := sum_list_with thread_size (threads s).
(** The guards of a program take the lock in modes that it has. *)
Definition modes_in (ms : list mode) (program : list scope) : Prop := Forall (fun sc => sc_mode sc ∈ ms) program.
End system.
Arguments system : clear implicits.


(** ** What the locks promise

    [held] says in which mode a thread holds the lock; [lk_ok] is what the lock
    keeps true of itself.  The laws are about threads that do not ask for a lock
    they hold, which guards never do. *)
Class LockSpec (L : Type) `{Lock L} (ms : list mode) := {
  held : L -> tid -> option mode;
  lk_ok : L -> Prop;
}.
Class LockLaws (L : Type) `{LS : LockSpec L ms} : Prop := {
  held_init t : held lk_init t = None;
  ok_init : lk_ok lk_init;
  acquire_defined m t l : m ∈ ms -> held l t = None -> lk_acquire m t l <> Undefined;
  (** It is taken beside others only if all of them read. *)
  acquire_got m t l l' : lk_ok l -> held l t = None -> lk_acquire m t l = Got l' ->
    lk_ok l' /\ (forall u, held l' u = if decide (u = t) then Some m else held l u)
    /\ (forall u m', held l u = Some m' -> m = MRead /\ m' = MRead);
  acquire_free m t l : m ∈ ms -> lk_ok l -> (forall u, held l u = None) -> exists l', lk_acquire m t l = Got l';
  release_held m t l : lk_ok l -> held l t = Some m ->
    exists l', lk_release t l = Got l' /\ lk_ok l' /\ forall u, held l' u = if decide (u = t) then None else held l u;
}.

#[export] Instance mutex_spec : LockSpec Mutex [MLock] := {| held l t := if decide (owner l = Some t) then Some MLock else None; lk_ok l := True |}.
#[export] Instance mutex_laws : LockLaws Mutex.
Proof.
  split; cbn.
  - done.
  - done.
  - intros m t l ->%list_elem_of_singleton _. by destruct (owner l).
  - intros m t l l' _ Hh Ha. destruct m; try done. destruct (owner l) as [o|] eqn:Eo; [done|]. injection Ha as <-. split_and!; [done| |].
    + intros u. cbn. repeat case_decide; congruence.
    + intros u m' Hu. by case_decide.
  - intros m t l ->%list_elem_of_singleton _ Hf. destruct (owner l) as [o|] eqn:Eo; [|by eauto]. specialize (Hf o). by rewrite decide_True in Hf.
  - intros m t l _ Hh. case_decide as Eo; [|done]. eexists. split; [done|]. split; [done|]. intros u. cbn. repeat case_decide; congruence.
Qed.

#[export] Instance rwmutex_spec : LockSpec RWMutex [MRead; MWrite] := {|
  held l t := if decide (writer l = Some t) then Some MWrite else if decide (t ∈ readers l) then Some MRead else None;
  lk_ok l := NoDup (readers l) /\ (writer l <> None -> readers l = []);
|}.
Lemma elem_of_remove_one t u l : NoDup l -> u ∈ remove_one t l <-> u ∈ l /\ u <> t.
Proof.
  induction l as [|x l IH]; cbn; [set_solver|]. intros [Hx Hl]%NoDup_cons. case_decide as E; [subst|]; set_solver.
Qed.
Lemma NoDup_remove_one t l : NoDup l -> NoDup (remove_one t l).
Proof.
  induction l as [|x l IH]; cbn; [done|]. intros [Hx Hl]%NoDup_cons. case_decide; [done|]. constructor; [|by apply IH]. rewrite elem_of_remove_one by done. tauto.
Qed.
#[export] Instance rwmutex_laws : LockLaws RWMutex.
Proof.
  split; cbn.
  - intros t. by rewrite decide_False by set_solver.
  - split; [constructor|done].
  - intros m t l Hm Hh. case_decide as Hw; [done|]. apply elem_of_cons in Hm as [->|Hm%list_elem_of_singleton]; [|subst m]; destruct (writer l) as [w|]; cbn; repeat case_decide; try congruence; by case_bool_decide.
  - intros m t l l' [Hnd Hwr] Hh Ha. case_decide as Hw; [done|]. case_decide as Hr; [done|]. destruct m; [done|..].
    + destruct (writer l) as [w|] eqn:Ew; [by case_decide|]. injection Ha as <-. cbn. split_and!; [by constructor|done| |].
      * intros u. repeat case_decide; set_solver.
      * intros u m' Hu. repeat case_decide; naive_solver.
    + destruct (writer l) as [w|] eqn:Ew; [by case_decide|]. case_bool_decide as Er; [|done]. injection Ha as <-. cbn. split_and!; [constructor|done| |].
      * intros u. rewrite Er. repeat case_decide; naive_solver.
      * intros u m'. rewrite Er. repeat case_decide; set_solver.
  - intros m t l Hm [Hnd Hwr] Hf. assert (writer l = None) as Hw.
    { destruct (writer l) as [w|] eqn:Ew; [|done]. specialize (Hf w). by rewrite decide_True in Hf. }
    assert (readers l = []) as Hr.
    { destruct (readers l) as [|r rs] eqn:Er; [done|]. specialize (Hf r). rewrite Hw, decide_False, decide_True in Hf; set_solver. }
    rewrite Hw, Hr. apply elem_of_cons in Hm as [->|Hm%list_elem_of_singleton]; [|subst m]; eauto.
  - intros m t l [Hnd Hwr] Hh. case_decide as Hw; [|case_decide as Hr; [|done]].
    + eexists. split; [done|]. cbn. rewrite Hwr by congruence. split; [split; [constructor|done]|].
      intros u. repeat case_decide; set_solver.
    + eexists. split; [done|]. cbn. split; [split; [by apply NoDup_remove_one|intros Hne; by rewrite (Hwr Hne)]|].
      intros u. pose proof (elem_of_remove_one t u (readers l) Hnd). repeat case_decide; naive_solver.
Qed.

(** ** Guards exclude each other *)
Section exclusion.
Context {L : Type} {ms : list mode} `{LL : LockLaws L ms}.

Definition thread_modes (th : thread) : Prop := modes_in ms (match th_in th with Some (_, sc) => [sc] | None => [] end ++ th_next th).
Record sinv (s : system L) : Prop := {
  inv_ok : lk_ok (the_lock s);
  inv_held t : held (the_lock s) t = threads s !! t ≫= locked_mode;
  inv_modes : Forall thread_modes (threads s);
  inv_read t u m m' : t <> u -> held (the_lock s) t = Some m -> held (the_lock s) u = Some m' -> m = MRead /\ m' = MRead;
}.
(** A step of a thread whose guard says what the lock says. *)
Definition stepped (t : tid) (l : L) (th' : thread) (l' : L) : Prop :=
  lk_ok l' /\ thread_modes th' /\ (forall u, held l' u = if decide (u = t) then locked_mode th' else held l u)
  /\ (forall m, held l' t = Some m -> held l t = Some m \/ forall u m', held l u = Some m' -> m = MRead /\ m' = MRead).

Lemma thread_step_ok t th l :
  lk_ok l -> held l t = locked_mode th -> thread_modes th ->
  match thread_step t th l with Undefined => False | Blocks => True | Got (th', l') => stepped t l th' l' /\ thread_size th = S (thread_size th') end.
Proof.
  intros Hok Hh Hm. destruct th as [[[g [m cs]]|] next]; unfold thread_modes, modes_in in Hm; cbn [th_in th_next app] in Hm.
  - apply Forall_cons in Hm as [Hsc Hm]. cbn [sc_mode] in Hsc.
    assert (forall th', locked_mode th' = locked_mode (MkThread (Some (g, MkScope m cs)) next) -> thread_modes th' -> stepped t l th' l) as Hstay.
    { intros th' Hl Hm'. split_and!; [done|done| |by left]. intros u. case_decide; [subst; by rewrite Hl|done]. }
    assert (forall th', g = true -> locked_mode th' = None -> thread_modes th' -> exists l', lk_release t l = Got l' /\ stepped t l th' l') as Hrel.
    { intros th' -> Hl Hm'. destruct (release_held m t l Hok Hh) as (l' & Hr & Hok' & Hh'). exists l'. split; [done|]. split_and!; [done|done|intros u; by rewrite Hh', Hl|].
      intros m0 Hn. by rewrite Hh', decide_True in Hn. }
    destruct cs as [|c cs]; cbn [thread_step th_in].
    + unfold guard_dtor, guard_unlock. destruct g.
      * destruct (Hrel (MkThread None next)) as (l' & -> & Hs); [done..|by cbn]. 
      * cbn. split; [by apply Hstay|done].
    + assert (thread_modes (MkThread (Some (true, MkScope m cs)) next) /\ thread_modes (MkThread (Some (false, MkScope m cs)) next)) as [Hm1 Hm2] by (split; by constructor).
      destruct c; unfold guard_lock, guard_unlock; destruct g; cbn [negb cmap fst snd].
      * split; [by apply Hstay|done].
      * pose proof (acquire_defined m t l Hsc Hh) as Hd. destruct (lk_acquire m t l) as [l'| |] eqn:Ea; cbn [cmap]; [|done|done].
        destruct (acquire_got m t l l' Hok Hh Ea) as (Hok' & Hh' & Hx). split; [|done]. split_and!; [done|done|done|].
        intros m0 Hl. right. intros u m' Hu. rewrite Hh', decide_True in Hl by done. injection Hl as <-. by apply (Hx u).
      * destruct (Hrel (MkThread (Some (false, MkScope m cs)) next)) as (l' & -> & Hs); [done..|by cbn].
      * split; [by apply Hstay|done].
  - destruct next as [|sc next]; cbn [thread_step th_in th_next]; [done|]. apply Forall_cons in Hm as [Hsc Hm]. unfold guard_ctor.
    pose proof (acquire_defined (sc_mode sc) t l Hsc Hh) as Hd. destruct (lk_acquire (sc_mode sc) t l) as [l'| |] eqn:Ea; cbn [cmap]; [|done|done].
    destruct (acquire_got (sc_mode sc) t l l' Hok Hh Ea) as (Hok' & Hh' & Hx). cbn [fst snd]. split; [|unfold thread_size; cbn; lia]. split_and!; [done|by constructor|done|].
    intros m0 Hl. right. intros u m' Hu. rewrite Hh', decide_True in Hl by done. injection Hl as <-. by apply (Hx u).
Qed.
Lemma sum_insert {A} (f : A -> nat) l i x y : l !! i = Some x -> (sum_list_with f (<[i := y]> l) + f x = sum_list_with f l + f y)%nat.
Proof. revert i. induction l as [|z l IH]; intros [|i] Hi; simpl in *; try done; [injection Hi as ->; lia|]. specialize (IH i Hi). lia. Qed.
Lemma sys_step_ok t s :
  sinv s -> match sys_step t s with Undefined => False | Blocks => True | Got s' => sinv s' /\ size s = S (size s') end.
Proof.
  intros [Hok Hh Hm Hr]. unfold sys_step. destruct (threads s !! t) as [th|] eqn:Et; [|done].
  assert (held (the_lock s) t = locked_mode th) as Ht by (by rewrite Hh, Et).
  assert (thread_modes th) as Hth by (rewrite Forall_forall in Hm; apply Hm; by eapply list_elem_of_lookup_2).
  pose proof (thread_step_ok t th (the_lock s) Hok Ht Hth) as Hs. destruct (thread_step t th (the_lock s)) as [[th' l']| |]; [|done|done].
  destruct Hs as ((Hok' & Hm' & Hh' & Hx) & Hsz). cbn [cmap fst snd]. pose proof (lookup_lt_Some _ _ _ Et) as Hlt. split; [split; cbn [threads the_lock]|].
  - done.
  - intros u. rewrite Hh'. case_decide as E; [subst; by rewrite list_lookup_insert_eq by done|]. by rewrite list_lookup_insert_ne, Hh by done.
  - by apply Forall_insert.
  - assert (forall b m m', b <> t -> held l' t = Some m -> held (the_lock s) b = Some m' -> m = MRead /\ m' = MRead) as Hnew.
    { intros b m m' Hb Ht' Hbh. destruct (Hx m Ht') as [H0|H0]; [by eapply (Hr t b)|by eapply H0]. }
    intros a b m m' Hab Ha Hb. pose proof Ha as Ha'. pose proof Hb as Hb'. rewrite Hh' in Ha', Hb'. destruct (decide (a = t)) as [->|], (decide (b = t)) as [->|].
    + done.
    + by eapply Hnew.
    + destruct (Hnew a m' m) as [-> ->]; done.
    + by eapply (Hr a b).
  - unfold size. cbn [threads]. pose proof (sum_insert thread_size (threads s) t th th' Et). lia.
Qed.
Lemma start_ok programs : Forall (modes_in ms) programs -> sinv (start programs).
Proof.
  intros Hp. split; cbn.
  - apply ok_init.
  - intros t. rewrite held_init, list_lookup_fmap. by destruct (programs !! t).
  - apply Forall_map. eapply Forall_impl; [done|]. done.
  - intros t u m m' _ Ht. by rewrite held_init in Ht.
Qed.
Lemma steps_ok s n s' : sinv s -> steps s n s' -> sinv s' /\ size s = (n + size s')%nat.
Proof.
  intros Hs. induction 1 as [|n s1 s2 t _ [IH Hn] Ht]; [done|]. pose proof (sys_step_ok t s1 IH) as H1. rewrite Ht in H1. destruct H1 as [H1 H2]. split; [done|lia].
Qed.

(** A thread that holds the lock is never kept waiting, and neither is any when
    nobody holds it. *)
Lemma thread_progress t th l :
  lk_ok l -> thread_modes th -> held l t = locked_mode th -> finished th = false -> locked_mode th <> None \/ (forall u, held l u = None) ->
  exists r, thread_step t th l = Got r.
Proof.
  intros Hok Hm Hh Hf Hfree. pose proof (thread_step_ok t th l Hok Hh Hm) as Hs.
  assert (forall m, m ∈ ms -> locked_mode th = None -> lk_acquire m t l <> Blocks) as Hacq.
  { intros m Hms Hn Hb. destruct Hfree as [?|Hfree]; [done|]. destruct (acquire_free m t l Hms Hok Hfree) as [l' Hl']. congruence. }
  destruct (thread_step t th l) as [r| |] eqn:E; [by eauto| |done]. exfalso. revert E. clear Hs.
  destruct th as [[[g [m cs]]|] next]; unfold thread_modes, modes_in in Hm; cbn [th_in th_next app] in Hm.
  - apply Forall_cons in Hm as [Hsc Hm]. cbn [sc_mode] in Hsc. assert (g = true -> lk_release t l <> Blocks) as Hrel.
    { intros ->. destruct (release_held m t l Hok Hh) as (l' & -> & _). done. }
    destruct cs as [|[] cs]; cbn [thread_step th_in]; unfold guard_dtor, guard_unlock, guard_lock; destruct g; cbn [negb]; try done.
    + specialize (Hrel eq_refl). by destruct (lk_release t l).
    + specialize (Hacq m Hsc eq_refl). by destruct (lk_acquire m t l).
    + specialize (Hrel eq_refl). by destruct (lk_release t l).
  - destruct next as [|sc next]; [done|]. apply Forall_cons in Hm as [Hsc Hm]. cbn [thread_step th_in th_next]. unfold guard_ctor.
    specialize (Hacq (sc_mode sc) Hsc eq_refl). by destruct (lk_acquire (sc_mode sc) t l).
Qed.
Lemma system_progress s : sinv s -> forallb finished (threads s) = false -> exists t s', sys_step t s = Got s'.
Proof.
  intros [Hok Hh Hm Hr] Hf.
  assert (exists t th, threads s !! t = Some th /\ finished th = false /\ (locked_mode th <> None \/ forall u, held (the_lock s) u = None)) as (t & th & Et & Hfin & Hor).
  { destruct (decide (Exists (fun th => locked_mode th <> None) (threads s))) as [He|Hn].
    - apply Exists_exists in He as (th & (t & Et)%list_elem_of_lookup & Hl). exists t, th. split_and!; [done| |by left]. by destruct th as [[[[] ?]|] ?].
    - assert (exists t th, threads s !! t = Some th /\ finished th = false) as (t & th & Et & Hfin).
      { clear -Hf. revert Hf. generalize (threads s). intros l. induction l as [|th l IH]; [done|]. cbn. destruct (finished th) eqn:E; [|intros _; by exists 0%nat, th].
        intros (t & th' & Et & Hf)%IH. by exists (S t), th'. }
      exists t, th. split_and!; [done|done|]. right. intros u. rewrite Hh. destruct (threads s !! u) as [tu|] eqn:Eu; [|done]. cbn.
      destruct (locked_mode tu) eqn:El; [|done]. exfalso. apply Hn. apply Exists_exists. exists tu. split; [by eapply list_elem_of_lookup_2|congruence]. }
  assert (thread_modes th) as Hth by (rewrite Forall_forall in Hm; apply Hm; by eapply list_elem_of_lookup_2).
  destruct (thread_progress t th (the_lock s)) as [r Hrr]; try done; [by rewrite Hh, Et|]. exists t. unfold sys_step. rewrite Et, Hrr. cbn. eauto.
Qed.
End exclusion.

(** C19. Scoped guards exclude each other and come to an end: threads that use a
    lock through guards, however their calls are interleaved, never make a call
    that is undefined; two guards that hold the lock at a time both read; every
    step is one of the finitely many calls, and as long as some thread is not
    done, some thread is not kept waiting; in the end nobody holds the lock. *)
Theorem scoped_guards {L : Type} {ms : list mode} `{LL : LockLaws L ms} (programs : list (list scope)) (n : nat) (s : system L) :
  Forall (modes_in ms) programs -> steps (start programs) n s ->
  (forall t, sys_step t s <> Undefined)
  /\ (forall t u th th' m m', t <> u -> threads s !! t = Some th -> threads s !! u = Some th' -> locked_mode th = Some m -> locked_mode th' = Some m' ->
       m = MRead /\ m' = MRead)
  /\ (n + size s = size (L := L) (start programs))%nat
  /\ ((exists t s', sys_step t s = Got s') \/ forallb finished (threads s) = true /\ forall u, held (the_lock s) u = None).
Proof.
  intros Hp Hst. destruct (steps_ok _ _ _ (start_ok programs Hp) Hst) as [Hs Hn]. split_and!.
  - intros t Ht. pose proof (sys_step_ok t s Hs) as H1. by rewrite Ht in H1.
  - intros t u th th' m m' Htu Et Eu Hm Hm'. apply (inv_read s Hs t u m m' Htu); rewrite (inv_held s Hs); [by rewrite Et|by rewrite Eu].
  - done.
  - destruct (forallb finished (threads s)) eqn:Ef; [right|left; by apply system_progress]. split; [done|]. intros u. rewrite (inv_held s Hs).
    destruct (threads s !! u) as [th|] eqn:Eu; [|done]. cbn. rewrite forallb_forall in Ef. apply list_elem_of_lookup_2, list_elem_of_In in Eu. specialize (Ef th Eu).
    by destruct th as [[[]|] []].
Qed.
Definition two_threads : list (list scope) := [[MkScope MWrite [GUnlock; GLock]]; [MkScope MRead [GUnlock; GUnlock]; MkScope MRead []]].
Definition after_two : system RWMutex :=
  MkSys [MkThread (Some (false, MkScope MWrite [GLock])) []; MkThread None [MkScope MRead [GUnlock; GUnlock]; MkScope MRead []]] (MkRW [] None).
Lemma scoped_guards_witness :
  steps (L := RWMutex) (start two_threads) 2 after_two /\ (2 + size after_two = 10)%nat /\ exists t s', sys_step t after_two = Got s'.
Proof.
  assert (steps (L := RWMutex) (start two_threads) 2 after_two) as Hst.
  { eapply steps_cons with (t := 0%nat); [eapply steps_cons with (t := 0%nat); [apply steps_nil|reflexivity]|reflexivity]. }
  destruct (scoped_guards (L := RWMutex) two_threads 2 after_two) as (_ & _ & Hn & [Hp|[Hf _]]); [repeat constructor; set_solver|exact Hst|..|discriminate Hf].
  split_and!; [exact Hst|exact Hn|exact Hp].
Defined.

(** *** The atomic flag *)
Definition cas_sim (b : CASLock) (o : Mutex) : Prop := flag b = bool_decide (owner o <> None).
Lemma cas_thread_step t th b th' b' o :
  thread_step t th b = Got (th', b') -> cas_sim b o -> held o t = locked_mode th -> thread_modes (ms := [MLock]) th ->
  exists o', thread_step t th o = Got (th', o') /\ cas_sim b' o'.
Proof.
  intros Hst Hsim Hh Hm. unfold cas_sim in *. destruct b as [b], o as [o]. cbn in Hsim. subst b.
  assert (forall m, m ∈ [MLock] -> forall b', lk_acquire m t (MkCAS (bool_decide (o <> None))) = Got b' -> o = None /\ b' = MkCAS true /\ lk_acquire m t (MkMutex o) = Got (MkMutex (Some t))) as Hacq.
  { intros m ->%list_elem_of_singleton b'' Ha. cbn in Ha. destruct o; [done|]. cbn in *. injection Ha as <-. done. }
  assert (held (MkMutex o) t = Some MLock -> lk_release t (MkMutex o) = Got (MkMutex None)) as Hrel by (cbn; by case_decide).
  destruct th as [[[g [m cs]]|] next]; unfold thread_modes, modes_in in Hm; cbn [th_in th_next app] in Hm.
  - apply Forall_cons in Hm as [Hsc Hm]. cbn [sc_mode] in Hsc. pose proof Hsc as Hml. apply list_elem_of_singleton in Hml. subst m.
    destruct cs as [|[] cs]; cbn [thread_step th_in] in *; unfold guard_dtor, guard_unlock, guard_lock in *; destruct g; cbn [negb cmap] in *;
      try (injection Hst as <- <-; eexists; split; [reflexivity|done]).
    + rewrite Hrel by done. injection Hst as <- <-. eexists. by split.
    + destruct (lk_acquire MLock t (MkCAS _)) as [b1| |] eqn:Ea; try done. destruct (Hacq MLock Hsc b1 Ea) as (-> & -> & Hl). rewrite Hl. injection Hst as <- <-. eexists. by split.
    + rewrite Hrel by done. injection Hst as <- <-. eexists. by split.
  - destruct next as [|sc next]; [done|]. apply Forall_cons in Hm as [Hsc Hm]. cbn [thread_step th_in th_next] in *. unfold guard_ctor in *.
    destruct (lk_acquire (sc_mode sc) t (MkCAS _)) as [b1| |] eqn:Ea; try done. destruct (Hacq _ Hsc b1 Ea) as (-> & -> & Hl). rewrite Hl. injection Hst as <- <-. eexists. by split.
Qed.
(** C20. [CASLock] is a mutex: threads that use it through guards do what they could
    do with a [Mutex], which is held exactly while the flag is set; so at most
    one of them holds it. *)
Theorem cas_refines_mutex (programs : list (list scope)) (n : nat) (s : system CASLock) :
  Forall (modes_in [MLock]) programs -> steps (start programs) n s ->
  exists o, steps (L := Mutex) (start programs) n (MkSys (threads s) o) /\ flag (the_lock s) = bool_decide (owner o <> None)
    /\ (forall t, is_Some (threads s !! t ≫= locked_mode) <-> owner o = Some t).
Proof.
  intros Hp Hst. assert (exists o, steps (L := Mutex) (start programs) n (MkSys (threads s) o) /\ cas_sim (the_lock s) o) as (o & Ho & Hsim).
  { induction Hst as [|n s1 s2 t Hst (o & Ho & Hsim) Ht]; [exists lk_init; split; [apply steps_nil|done]|].
    destruct (steps_ok _ _ _ (start_ok programs Hp) Ho) as [Hinv _]. unfold sys_step in Ht. destruct (threads s1 !! t) as [th|] eqn:Et; [|done].
    destruct (thread_step t th (the_lock s1)) as [[th' b']| |] eqn:Es; try done. injection Ht as <-.
    assert (thread_modes (ms := [MLock]) th) as Hth by (pose proof (inv_modes _ Hinv) as Hm; rewrite Forall_forall in Hm; apply Hm; by eapply list_elem_of_lookup_2).
    destruct (cas_thread_step t th (the_lock s1) th' b' o Es Hsim) as (o' & Hs' & Hsim'); [pose proof (inv_held _ Hinv t) as Hh; cbn [threads the_lock] in Hh; by rewrite Et in Hh|done|].
    exists o'. split; [|done]. eapply steps_cons with (t := t); [exact Ho|]. unfold sys_step. cbn [threads the_lock]. rewrite Et, Hs'. done. }
  exists o. split_and!; [done|done|]. intros t. destruct (steps_ok _ _ _ (start_ok programs Hp) Ho) as [Hinv _]. pose proof (inv_held _ Hinv t) as Hh. cbn in Hh.
  rewrite <- Hh. case_decide; split; try done; by intros [].
Qed.
Definition two_spins : list (list scope) := [[MkScope MLock []]; [MkScope MLock []]].
Lemma cas_refines_mutex_witness :
  exists s o, steps (L := CASLock) (start two_spins) 1 s /\ sys_step 0 s = Blocks /\ steps (L := Mutex) (start two_spins) 1 (MkSys (threads s) o) /\ flag (the_lock s) = true /\ owner o = Some 1%nat.
Proof.
  set (s := MkSys [MkThread None [MkScope MLock []]; MkThread (Some (true, MkScope MLock [])) []] (MkCAS true)).
  assert (steps (L := CASLock) (start two_spins) 1 s) as Hst by (eapply steps_cons with (t := 1%nat); [apply steps_nil|reflexivity]).
  destruct (cas_refines_mutex two_spins 1 s) as (o & Ho & Hf & Hall); [repeat constructor; set_solver|exact Hst|].
  exists s, o. split_and!; [exact Hst|reflexivity|exact Ho|reflexivity|]. apply Hall. by exists MLock.
Defined.

End Sync.
