(* ===== verification/Thread.v ===== *)
(** * Threads: [luwu/luwu/thread.h], [thread.cpp], and the semaphore of
      [mutex.h]

    A thread object, the thread that makes it and the thread that runs it, one
    statement at a time in any order.  An access to an object that is gone is
    [Undefined].  The results of [pthread_create], and whether a signal
    interrupts [sem_wait], are arguments of the steps. *)
From S2P Require Import Prelude StdString Sync.
Import StdString Sync.
Local Open Scope Z_scope.

Module Thread.

(** ** [Semaphore]

    [None] is the exception: of [sem_post] at the largest value, of [sem_wait]
    when a signal interrupts it. *)
Definition SEM_VALUE_MAX : Z := 2 ^ 31 - 1.
Definition sem_new (count : Z) : option Z := if count <=? SEM_VALUE_MAX then Some count else None.
Definition wait (interrupted : bool) (m_sem : Z) : call (option Z) :=
  if 0 <? m_sem then Got (Some (m_sem - 1)) else if interrupted then Got None else Blocks.
Definition notify (m_sem : Z) : option Z := if m_sem <? SEM_VALUE_MAX then Some (m_sem + 1) else None.

(** ** [Thread] *)
Record Thread := MkThread {
  m_id : Z;
  m_thread : Z;                    (* 0: none, or joined *)
  m_callback : option (list str);  (* the names that the function sets *)
  m_name : str;
  m_sem : Z;
}.
Definition UNKNOWN : str := bs "UNKNOWN".
Definition with_name (n : str) (o : Thread) : Thread := MkThread (m_id o) (m_thread o) (m_callback o) n (m_sem o).
Definition with_sem (v : Z) (o : Thread) : Thread := MkThread (m_id o) (m_thread o) (m_callback o) (m_name o) v.
Definition with_thread (h : Z) (o : Thread) : Thread := MkThread (m_id o) h (m_callback o) (m_name o) (m_sem o).

(** The statements of [run]. *)
Inductive at_run := RThis | RName | RId | RSystemName | RSwap | RNotify.
Inductive child := CNone | CRun (r : at_run) (callback : list str) | CBody (names : list str) | CDone.
(** The maker: before and in the constructor, then [join] and the destructor. *)
Inductive maker := PNew | PWait | PBuilt | PJoined | PGone | PThrown.

Record world := MkWorld {
  obj : option Thread;
  parent : maker;
  runner : child;
  t_thread : bool;      (* of the new thread: whether it points to the object *)
  t_thread_name : str;
  system_name : str;
}.
Definition new_thread (callback : list str) (name : str) : world :=
  MkWorld (Some (MkThread (-1) 0 (Some callback) (if bool_decide (name = []) then UNKNOWN else name) 0)) PNew CNone false UNKNOWN [].

Section steps.
Context (tid handle : Z) (joins : bool).

(** A step of the maker; [joins] says whether it calls [join] before the
    destructor. *)
Definition maker_step (rt : Z) (interrupted : bool) (w : world) : call world :=
  let set o p r := MkWorld o p r (t_thread w) (t_thread_name w) (system_name w) in
  match parent w, obj w with
  | PNew, Some o => Got (if rt =? 0 then set (Some (with_thread handle o)) PWait (CRun RThis []) else set None PThrown (runner w))
  | PWait, Some o =>
      cmap (fun r => match r with Some v => set (Some (with_sem v o)) PBuilt (runner w) | None => set None PThrown (runner w) end) (wait interrupted (m_sem o))
  | PBuilt, Some o =>
      if joins then if m_thread o =? 0 then Got (set (Some o) PJoined (runner w))
                    else match runner w with CDone => Got (set (Some (with_thread 0 o)) PJoined (runner w)) | _ => Blocks end
      else Got (set None PGone (runner w))
  | PJoined, Some o => Got (set None PGone (runner w))
  | PGone, _ | PThrown, _ => Blocks
  | _, None => Undefined
  end.

(** [SetName] in the new thread. *)
Definition SetName (n : str) (w : world) : call world :=
  if bool_decide (n = []) then Got w
  else if t_thread w
  then match obj w with
       | Some o => Got (MkWorld (Some (with_name n o)) (parent w) (runner w) (t_thread w) n (system_name w))
       | None => Undefined
       end
  else Got (MkWorld (obj w) (parent w) (runner w) (t_thread w) n (system_name w)).
(** A step of the new thread: of [run], and of the function that it calls. *)
Definition runner_step (w : world) : call world :=
  match runner w with
  | CNone | CDone => Blocks
  | CRun RThis cb => Got (MkWorld (obj w) (parent w) (CRun RName cb) true (t_thread_name w) (system_name w))
  | CRun r cb =>
      match obj w with
      | None => Undefined
      | Some o =>
          let go o r := MkWorld (Some o) (parent w) r (t_thread w) in
          match r with
          | RName => Got (go o (CRun RId cb) (m_name o) (system_name w))
          | RId => Got (go (MkThread tid (m_thread o) (m_callback o) (m_name o) (m_sem o)) (CRun RSystemName cb) (t_thread_name w) (system_name w))
          | RSystemName => Got (go o (CRun RSwap cb) (t_thread_name w) (ztake 15 (m_name o)))
          | RSwap => Got (go (MkThread (m_id o) (m_thread o) None (m_name o) (m_sem o)) (CRun RNotify (default [] (m_callback o))) (t_thread_name w) (system_name w))
          | _ => match notify (m_sem o) with
                 | Some v => Got (go (with_sem v o) (CBody cb) (t_thread_name w) (system_name w))
                 | None => Undefined  (* the exception leaves the thread: terminate *)
                 end
          end
      end
  | CBody (n :: ns) => cmap (fun w => MkWorld (obj w) (parent w) (CBody ns) (t_thread w) (t_thread_name w) (system_name w)) (SetName n w)
  | CBody [] => Got (MkWorld (obj w) (parent w) CDone (t_thread w) (t_thread_name w) (system_name w))
  end.

Inductive step (w : world) : call world -> Prop :=
| by_maker rt : step w (maker_step rt false w)
| by_runner : step w (runner_step w).
Inductive reach (w : world) : world -> Prop :=
| reach_refl : reach w w
| reach_step w1 w2 : reach w w1 -> step w1 (Got w2) -> reach w w2.
End steps.

(** ** The start of a thread *)
Section start.
Context (tid handle : Z) (joins : bool) (callback : list str).

Definition ready (o : Thread) (sem : Z) : Prop := m_id o = tid /\ m_callback o = None /\ m_sem o = sem.
(** What holds of the object while [run] is at a statement. *)
Definition running (r : at_run) (cb : list str) (o : Thread) : Prop :=
  m_sem o = 0 /\ (r = RNotify -> m_callback o = None /\ cb = callback) /\ (r <> RNotify -> m_callback o = Some callback)
  /\ (r = RSystemName \/ r = RSwap \/ r = RNotify -> m_id o = tid).
(** The function runs: it sets no name, or the maker joins it. *)
Definition in_body (c : child) : Prop := match c with CBody names => joins = true \/ Forall (eq []) names | CDone => True | _ => False end.
Definition tinv (w : world) : Prop :=
  match parent w with
  | PNew => exists o, obj w = Some o /\ runner w = CNone /\ m_sem o = 0 /\ m_callback o = Some callback
  | PWait => exists o, obj w = Some o /\ match runner w with CRun r cb => running r cb o | c => in_body c /\ ready o 1 end
  | PBuilt => exists o, obj w = Some o /\ in_body (runner w) /\ ready o 0 /\ m_thread o = handle
  | PJoined => exists o, obj w = Some o /\ runner w = CDone
  | PGone => obj w = None /\ in_body (runner w) /\ (joins = true -> runner w = CDone)
  | PThrown => obj w = None /\ runner w = CNone
  end
  /\ (parent w <> PNew -> match obj w with Some o => parent w = PJoined \/ m_thread o = handle | None => True end).

Lemma maker_step_ok rt w : handle <> 0 -> tinv w -> match maker_step handle joins rt false w with Undefined => False | Blocks => True | Got w' => tinv w' end.
Proof.
  intros Hh [Hi Ht]. unfold maker_step. destruct w as [o p r tt tn sn]. cbn [parent obj runner] in *. destruct p; cbn [parent obj runner] in *.
  - destruct Hi as (x & -> & -> & Hs & Hc). destruct (rt =? 0).
    + split; cbn; [|by right]. exists (with_thread handle x). split; [done|]. split_and!; naive_solver.
    + by split.
  - destruct Hi as (x & -> & Hr). unfold wait. destruct (Z.ltb_spec 0 (m_sem x)) as [Hp|]; [|done]. cbn. destruct r as [|r cb|ns|].
    + by destruct Hr.
    + destruct Hr as [Hs _]. lia.
    + destruct Hr as (Hb & Hid & Hcb & Hs). destruct (Ht ltac:(done)) as [|Hth]; [done|]. split; cbn; [|by right]. exists (with_sem (m_sem x - 1) x). rewrite Hs. by split_and!.
    + destruct Hr as (Hb & Hid & Hcb & Hs). destruct (Ht ltac:(done)) as [|Hth]; [done|]. split; cbn; [|by right]. exists (with_sem (m_sem x - 1) x). rewrite Hs. by split_and!.
  - destruct Hi as (x & -> & Hb & Hr & Hth). destruct joins eqn:Ej.
    + destruct (Z.eqb_spec (m_thread x) 0); [congruence|]. destruct r; try done. split; cbn; [by eexists|by left].
    + split; cbn; [split_and!; [done|done|congruence]|done].
  - destruct Hi as (x & -> & ->). split; cbn; [|done]. by split_and!.
  - done.
  - done.
Qed.

(** A step of the function, while the object is there or no name is set. *)
Lemma body_step_ok w names :
  runner w = CBody names -> (obj w = None -> Forall (eq []) names) ->
  exists w', runner_step tid w = Got w' /\ runner w' = match names with [] => CDone | _ :: ns => CBody ns end /\ parent w' = parent w
    /\ match obj w, obj w' with
       | Some o, Some o' => m_id o' = m_id o /\ m_thread o' = m_thread o /\ m_callback o' = m_callback o /\ m_sem o' = m_sem o
       | None, None => True
       | _, _ => False
       end.
Proof.
  intros Hr Hn. unfold runner_step. rewrite Hr. destruct names as [|n ns]; [eexists; split; [done|]; cbn; by destruct (obj w)|]. unfold SetName.
  case_bool_decide as En; [eexists; split; [done|]; cbn; by destruct (obj w)|]. destruct (obj w) as [o|] eqn:Eo.
  - destruct (t_thread w); (eexists; split; [done|]); cbn; by rewrite ?Eo.
  - specialize (Hn eq_refl). apply Forall_cons in Hn as [Hn _]. congruence.
Qed.
Lemma in_body_tail n ns : in_body (CBody (n :: ns)) -> in_body (CBody ns).
Proof. cbn. intros [|[_ ?]%Forall_cons]; auto. Qed.
Lemma in_body_next names : in_body (CBody names) -> in_body match names with [] => CDone | _ :: ns => CBody ns end.
Proof. destruct names; [done|]. apply in_body_tail. Qed.
Lemma runner_step_ok w :
  joins = true \/ Forall (eq []) callback -> tinv w -> match runner_step tid w with Undefined => False | Blocks => True | Got w' => tinv w' end.
Proof.
  intros Hcb [Hi Ht]. destruct (runner w) as [|r cb|names|] eqn:Er; try rewrite Er in Hi.
  - unfold runner_step. by rewrite Er.
  - destruct w as [o p c tt tn sn]. cbn [parent obj runner] in *. subst c. destruct p.
    + destruct Hi as (x & -> & ? & _). done.
    + destruct Hi as (x & -> & Hs & H1 & H2 & H3). specialize (Ht ltac:(done)). destruct Ht as [|Hth]; [done|].
      destruct r; unfold runner_step; cbn; try (split; [|by right]; exists x; split; [done|]; split_and!; naive_solver).
      * split; [|by right]. eexists. split; [done|]. split_and!; naive_solver.
      * split; [|by right]. eexists. split; [done|]. cbn. rewrite H2 by done. split_and!; naive_solver.
      * destruct (H1 eq_refl) as [Hc ->]. unfold notify. rewrite Hs. cbn. split; [|by right]. eexists. split; [done|]. cbn. split; [done|]. split_and!; naive_solver.
    + destruct Hi as (x & -> & [] & _).
    + destruct Hi as (x & -> & ?). done.
    + destruct Hi as (_ & [] & _).
    + destruct Hi as (_ & ?). done.
  - destruct (body_step_ok w names Er) as (w' & Hw & Hr' & Hp' & Ho').
    { intros Ho. destruct (parent w); try (destruct Hi as (x & Hx & _); congruence); [|by destruct Hi as (_ & ?)]. destruct Hi as (_ & Hb & Hj). destruct Hb as [Hb|]; [|done]. by specialize (Hj Hb). }
    rewrite Hw. unfold tinv. rewrite Hp'. destruct (parent w) eqn:Ep.
    + destruct Hi as (x & _ & ? & _). congruence.
    + destruct Hi as (x & Hx & Hb).  destruct Hb as [Hb (H1 & H2 & H3)]. rewrite Hx in Ho', Ht. destruct (obj w') as [o'|]; [|done]. destruct Ho' as (Ha & Hb' & Hc & Hd).
      split; [|intros _; right; destruct (Ht ltac:(done)); congruence]. exists o'. split; [done|]. rewrite Hr'. apply in_body_next in Hb. unfold ready. destruct names; cbn in *; split_and!; congruence || done.
    + destruct Hi as (x & Hx & Hb & (H1 & H2 & H3) & Hth).  rewrite Hx in Ho', Ht. destruct (obj w') as [o'|]; [|done]. destruct Ho' as (Ha & Hb' & Hc & Hd).
      split; [|intros _; right; congruence]. exists o'. rewrite Hr'. apply in_body_next in Hb. unfold ready. split_and!; congruence || done.
    + destruct Hi as (x & _ & ?). congruence.
    + destruct Hi as (Ho & Hb & Hj).  rewrite Ho in Ho'. destruct (obj w') as [o'|]; [done|]. split; [|done]. rewrite Hr'. split_and!; [done|by apply in_body_next|].
      intros Hjt. specialize (Hj Hjt). congruence.
    + destruct Hi as (_ & ?). congruence.
  - unfold runner_step. by rewrite Er.
Qed.
Lemma thread_made_ok name : tinv (new_thread callback name).
Proof. split; [by eexists|done]. Qed.
End start.

(** C21. A thread object is ready when its constructor returns: whatever the order of
    the two threads, the constructor that was not interrupted returns only when
    [run] has set the id and taken the function out of the object, and the
    semaphore is down again; if the maker joins the thread before it destroys the
    object, or the function sets no name, no access to the object comes too
    late; a thread that could not be made never runs. *)
Theorem thread_start (tid handle : Z) (joins : bool) (callback : list str) (name : str) (w : world) :
  handle <> 0 -> joins = true \/ Forall (eq []) callback -> reach tid handle joins (new_thread callback name) w ->
  (forall r, step tid handle joins w r -> r <> Undefined)
  /\ (parent w = PBuilt -> exists o, obj w = Some o /\ m_id o = tid /\ m_callback o = None /\ m_sem o = 0 /\ m_thread o = handle
        /\ (runner w = CDone \/ exists names, runner w = CBody names))
  /\ (parent w = PThrown -> runner w = CNone).
Proof.
  intros Hh Hcb Hr. assert (tinv tid handle joins callback w) as Hi.
  { induction Hr as [|w1 w2 _ IH Hs]; [apply thread_made_ok|]. inversion Hs as [rt Heq|Heq].
    - pose proof (maker_step_ok tid handle joins callback rt w1 Hh IH) as H1. by rewrite Heq in H1.
    - pose proof (runner_step_ok tid handle joins callback w1 Hcb IH) as H1. by rewrite Heq in H1. }
  split_and!.
  - intros r Hs ->. inversion Hs as [rt Heq|Heq].
    + pose proof (maker_step_ok tid handle joins callback rt w Hh Hi) as H1. by rewrite Heq in H1.
    + pose proof (runner_step_ok tid handle joins callback w Hcb Hi) as H1. by rewrite Heq in H1.
  - intros Hp. destruct Hi as [Hi _]. rewrite Hp in Hi. destruct Hi as (o & Ho & Hb & (H1 & H2 & H3) & H4). exists o. split_and!; try done. destruct (runner w); try done; eauto.
  - intros Hp. destruct Hi as [Hi _]. rewrite Hp in Hi. by destruct Hi.
Qed.
(** A run of given steps. *)
Inductive agent := Maker (rt : Z) | Runner.
Definition agent_step (tid handle : Z) (joins : bool) (a : agent) (w : world) : call world :=
  match a with Maker rt => maker_step handle joins rt false w | Runner => runner_step tid w end.
Fixpoint play (tid handle : Z) (joins : bool) (l : list agent) (w : world) : call world :=
  match l with
  | [] => Got w
  | a :: l => match agent_step tid handle joins a w with Got w => play tid handle joins l w | c => c end
  end.
Lemma play_reach tid handle joins l w0 w w' : reach tid handle joins w0 w -> play tid handle joins l w = Got w' -> reach tid handle joins w0 w'.
Proof.
  revert w. induction l as [|a l IH]; intros w Hr Hp; cbn [play] in Hp; [by injection Hp as <-|]. destruct (agent_step tid handle joins a w) as [w1| |] eqn:Ea; try done.
  apply (IH w1); [|done]. eapply reach_step; [exact Hr|]. rewrite <- Ea. destruct a; constructor.
Qed.
Definition until_built : list agent := [Maker 0; Runner; Runner; Runner; Runner; Runner; Runner; Maker 0].
Lemma thread_start_witness :
  exists w, play 7 1 true until_built (new_thread [bs "w"] (bs "worker_0")) = Got w /\ parent w = PBuilt /\ exists o, obj w = Some o /\ m_id o = 7.
Proof.
  assert (exists w, play 7 1 true until_built (new_thread [bs "w"] (bs "worker_0")) = Got w /\ parent w = PBuilt) as (w & Hw & Hp) by (eexists; split; reflexivity).
  destruct (thread_start 7 1 true [bs "w"] (bs "worker_0") w) as (_ & Hb & _); [discriminate|by left|exact (play_reach _ _ _ _ _ _ _ (reach_refl _ _ _ _) Hw)|].
  destruct (Hb Hp) as (o & Ho & Hid & _). exists w. split_and!; [exact Hw|exact Hp|]. exists o. by split.
Defined.

(** *** What goes wrong *)

(** A thread that is not joined and sets its name writes to an object that may be
    gone. *)
Lemma detached_thread_uses_freed_object :
  play 7 1 false (until_built ++ [Maker 0; Runner]) (new_thread [bs "w"] (bs "worker_0")) = Undefined.
Proof. reflexivity. Qed.
(** A signal that interrupts the wait makes the constructor throw: the object is
    gone while the thread runs. *)
Lemma interrupted_start_uses_freed_object :
  exists w, play 7 1 true [Maker 0; Runner] (new_thread [] (bs "worker_0")) = Got w
    /\ exists w', maker_step 1 true 0 true w = Got w' /\ parent w' = PThrown /\ runner_step 7 w' = Undefined.
Proof. eexists. split; [reflexivity|]. eexists. by split_and!. Qed.

End Thread.
