(* ===== verification/Scheduler.v ===== *)
(** * The scheduler: [luwu/luwu/scheduler.h] and [scheduler.cpp]

    The queue of tasks, the counters and, for every thread inside [run], its
    local variables and how far it is in the loop.  What holds the mutex is
    one step; so is a [resume], the part of a [yield] before its switch and
    the switch itself.  Steps of all threads interleave freely. *)
From S2P Require Import Prelude Fiber.
Local Open Scope Z_scope.

Module Scheduler.
Import Fiber.

Record SchedulerTask := MkTask { fiber : option N; cb : option N; task_thread : Z }.
#[export] Instance task_eq_decision : EqDecision SchedulerTask.
Proof. solve_decision. Defined.

(** [SchedulerTask()], and what [SchedulerTask::reset] leaves. *)
Definition no_task : SchedulerTask := MkTask None None (-1).
Definition is_task (k : SchedulerTask) : bool := bool_decide (is_Some (fiber k) \/ is_Some (cb k)).

(** How far a thread is in the loop of [run]: at its head, with the task it
    took ([no_task] if there was none), inside the [resume] of a task's fiber,
    of the fiber made for a callback, or of the idle fiber, or past the loop. *)
Inductive place :=
| Fetching
| Took (k : SchedulerTask)
| InFiber (k : SchedulerTask) (f : N)
| InCb (k : SchedulerTask) (f : N)
| InIdle
| Left.

Record locals := MkLocals { idle_fiber : N; cb_fiber : option N; at_ : place }.

Record sched := MkSched {
  w : world;
  m_fibers : list SchedulerTask;
  m_threads : list Z;            (* the pool, by thread identifier *)
  m_threadIds : list Z;
  m_threadCount : Z;             (* threads of the pool to start *)
  m_activeThreadCount : Z;
  m_idleThreadCount : Z;
  m_rootFiber : option N;
  m_rootThread : Z;
  m_stopping : bool;
  t_scheduler : list Z;          (* the threads whose scheduler is this one *)
  runs : gmap Z locals;          (* the threads inside [run] *)
  tickles : nat;                 (* calls of the virtual [tickle] *)
}.

Definition with_w (x : world) (s : sched) : sched :=
  MkSched x (m_fibers s) (m_threads s) (m_threadIds s) (m_threadCount s) (m_activeThreadCount s) (m_idleThreadCount s) (m_rootFiber s) (m_rootThread s)
    (m_stopping s) (t_scheduler s) (runs s) (tickles s).
Definition with_queue (q : list SchedulerTask) (s : sched) : sched :=
  MkSched (w s) q (m_threads s) (m_threadIds s) (m_threadCount s) (m_activeThreadCount s) (m_idleThreadCount s) (m_rootFiber s) (m_rootThread s)
    (m_stopping s) (t_scheduler s) (runs s) (tickles s).
Definition add_active (d : Z) (s : sched) : sched :=
  MkSched (w s) (m_fibers s) (m_threads s) (m_threadIds s) (m_threadCount s) (u64 (m_activeThreadCount s + d)) (m_idleThreadCount s) (m_rootFiber s)
    (m_rootThread s) (m_stopping s) (t_scheduler s) (runs s) (tickles s).
Definition add_idle (d : Z) (s : sched) : sched :=
  MkSched (w s) (m_fibers s) (m_threads s) (m_threadIds s) (m_threadCount s) (m_activeThreadCount s) (u64 (m_idleThreadCount s + d)) (m_rootFiber s)
    (m_rootThread s) (m_stopping s) (t_scheduler s) (runs s) (tickles s).
Definition with_run (t : Z) (r : locals) (s : sched) : sched :=
  MkSched (w s) (m_fibers s) (m_threads s) (m_threadIds s) (m_threadCount s) (m_activeThreadCount s) (m_idleThreadCount s) (m_rootFiber s) (m_rootThread s)
    (m_stopping s) (t_scheduler s) (<[t := r]> (runs s)) (tickles s).
Definition tickle (n : nat) (s : sched) : sched :=
  MkSched (w s) (m_fibers s) (m_threads s) (m_threadIds s) (m_threadCount s) (m_activeThreadCount s) (m_idleThreadCount s) (m_rootFiber s) (m_rootThread s)
    (m_stopping s) (t_scheduler s) (runs s) (tickles s + n).

(** A fiber operation inside the scheduler. *)
Definition on_fibers {A} (m : M world A) : M sched A := fun s =>
  match m (w s) with
  | Ret a x => Ret a (with_w x s)
  | Throw e x => Throw e (with_w x s)
  | UB => UB
  | NoFuel => NoFuel
  end.

(** ** Life of a scheduler *)

(** The constructor on thread [t] (whose scheduler is not set), and [start]
    with the identifiers of the threads it makes. *)
Definition create (cfg : Z) (threads : Z) (use_call : bool) (t : Z) (run : N) (x : world) : outcome world sched :=
  if threads <=? 0 then Throw AssertFailed x else
  if use_call then
    let* _, x := GetThis t x in
    let* root, x := new_fiber cfg (Some run) 0 false x in
    let x := put_cpu t (set_scheduler_fiber (Some root) (thread t x)) x in
    Ret (MkSched x [] [] [t] (threads - 1) 0 0 (Some root) t false [t] ∅ 0) x
  else Ret (MkSched x [] [] [] threads 0 0 None (-1) false [] ∅ 0) x.

Definition start (tids : list Z) : M sched unit := fun s =>
  if m_stopping s then Ret tt s else
  if bool_decide (m_threads s = []) then
    Ret tt (MkSched (w s) (m_fibers s) tids (m_threadIds s ++ tids) (m_threadCount s) (m_activeThreadCount s)
              (m_idleThreadCount s) (m_rootFiber s) (m_rootThread s) (m_stopping s) (t_scheduler s) (runs s) (tickles s))
  else Throw AssertFailed s.

Definition stopping (s : sched) : bool :=
  m_stopping s && bool_decide (m_fibers s = []) && (m_activeThreadCount s =? 0).

(** [stop] on thread [t] up to the resumed scheduling fiber, or to [join]. *)
Definition stop (t : Z) : M sched unit := fun s =>
  if stopping s then Ret tt s else
  let s := MkSched (w s) (m_fibers s) (m_threads s) (m_threadIds s) (m_threadCount s) (m_activeThreadCount s) (m_idleThreadCount s) (m_rootFiber s)
             (m_rootThread s) true (t_scheduler s) (runs s) (tickles s) in
  if bool_decide (is_Some (m_rootFiber s)) then
    if bool_decide (t ∈ t_scheduler s) then
      match m_rootFiber s with
      | Some root => on_fibers (resume t root) (tickle (Z.to_nat (m_threadCount s) + 1) s)
      | None => Ret tt s
      end
    else Throw AssertFailed s
  else if bool_decide (t ∈ t_scheduler s) then Throw AssertFailed s
  else Ret tt (tickle (Z.to_nat (m_threadCount s)) s).

(** ** Tasks *)

(** [schedulerNoLock] and [scheduler]. *)
Definition schedulerNoLock (k : SchedulerTask) (s : sched) : bool * sched :=
  (bool_decide (m_fibers s = []), if is_task k then with_queue (m_fibers s ++ [k]) s else s).
Definition schedule (k : SchedulerTask) (s : sched) : sched :=
  let r := schedulerNoLock k s in if fst r then tickle 1 (snd r) else snd r.

(** The search of [run] for a task of thread [me]: the task, the rest of the
    queue, and whether other threads are to be told. *)
Fixpoint search (me : Z) (q : list SchedulerTask) : option SchedulerTask * list SchedulerTask * bool :=
  match q with
  | [] => (None, [], false)
  | k :: q =>
      if negb (task_thread k =? -1) && negb (task_thread k =? me)
      then let r := search me q in (fst (fst r), k :: snd (fst r), true)
      else (Some k, q, bool_decide (q <> []))
  end.

(** ** [run] *)

(** Before the loop. *)
Definition run_enter (cfg t : Z) (idle : N) : M sched unit := fun s =>
  let s := MkSched (w s) (m_fibers s) (m_threads s) (m_threadIds s) (m_threadCount s) (m_activeThreadCount s) (m_idleThreadCount s) (m_rootFiber s)
             (m_rootThread s) (m_stopping s) (t :: t_scheduler s) (runs s) (tickles s) in
  let* _, s := (if t =? m_rootThread s then Ret tt s
                else on_fibers (fun x => let* f, x := GetThis t x in
                                         Ret tt (put_cpu t (set_scheduler_fiber (Some f) (thread t x)) x)) s) in
  let* f, s := on_fibers (new_fiber cfg (Some idle) 0 true) s in
  Ret tt (with_run t (MkLocals f None Fetching) s).

(** The critical section of the loop. *)
Definition fetch (t : Z) (r : locals) : M sched unit := fun s =>
  let '(o, q, tell) := search t (m_fibers s) in
  let s := if tell then tickle 1 s else s in
  match o with
  | Some k =>
      if is_task k then Ret tt (with_run t (MkLocals (idle_fiber r) (cb_fiber r) (Took k)) (add_active 1 (with_queue q s)))
      else Throw AssertFailed s
  | None => Ret tt (with_run t (MkLocals (idle_fiber r) (cb_fiber r) (Took no_task)) s)
  end.

(** The three branches, up to the [resume] they end in. *)
Definition dispatch (cfg t : Z) (r : locals) (k : SchedulerTask) : M sched unit := fun s =>
  match fiber k, cb k with
  | Some f, _ =>
      let* _, s := on_fibers (resume t f) s in
      Ret tt (with_run t (MkLocals (idle_fiber r) (cb_fiber r) (InFiber k f)) s)
  | None, Some c =>
      let* g, s := on_fibers (fun x => match cb_fiber r with
                                       | Some g => let* _, x := reset g (Some c) x in Ret g x
                                       | None => new_fiber cfg (Some c) 0 true x
                                       end) s in
      let* _, s := on_fibers (resume t g) s in
      Ret tt (with_run t (MkLocals (idle_fiber r) (Some g) (InCb k g)) s)
  | None, None =>
      if decide (state_of (idle_fiber r) (w s) = Some TERM)
      then Ret tt (with_run t (MkLocals (idle_fiber r) (cb_fiber r) Left) s)
      else let* _, s := on_fibers (resume t (idle_fiber r)) (add_idle 1 s) in
           Ret tt (with_run t (MkLocals (idle_fiber r) (cb_fiber r) InIdle) s)
  end.

(** After the [resume] has returned.  [cb_fiber.reset()] forgets the fiber; if that
    was the last pointer, its destructor runs as well ([Fiber.destroy]), which
    nothing here depends on. *)
Definition back (t : Z) (r : locals) (s : sched) : sched :=
  match at_ r with
  | InFiber _ _ => with_run t (MkLocals (idle_fiber r) (cb_fiber r) Fetching) (add_active (-1) s)
  | InCb _ _ => with_run t (MkLocals (idle_fiber r) None Fetching) (add_active (-1) s)
  | InIdle => with_run t (MkLocals (idle_fiber r) (cb_fiber r) Fetching) (add_idle (-1) s)
  | _ => s
  end.

(** [idle]: one round of its loop on the idle fiber of [t]. *)
Definition idle_round (t : Z) (r : locals) : M sched unit := fun s =>
  if stopping s then on_fibers (finish t (idle_fiber r)) s
  else on_fibers (fun x => let* f, x := GetThis t x in yield t f x) s.

(** ** All threads together *)

(** What all threads together contribute to a list. *)
Definition collect {X} (g : locals -> list X) (m : gmap Z locals) : list X := map_to_list m ≫= (fun p => g (snd p)).

(** The task a thread has taken from the queue and not finished with. *)
Definition held (r : locals) : list SchedulerTask :=
  match at_ r with
  | Took k => if is_task k then [k] else []
  | InFiber k _ | InCb k _ => [k]
  | _ => []
  end.
Definition idling (r : locals) : list unit := match at_ r with InIdle => [tt] | _ => [] end.

(** The processor of [t] is in [run], or in the code of a task. *)
Definition home (t : Z) (s : sched) : bool :=
  bool_decide (is_Some (executing (thread t (w s))) /\ executing (thread t (w s)) = t_scheduler_fiber (thread t (w s))).
Definition in_task (r : locals) : bool := match at_ r with InFiber _ _ | InCb _ _ => true | _ => false end.
Definition busy (t : Z) (s : sched) : bool :=
  match runs s !! t with
  | Some r => in_task r && negb (home t s) && bool_decide (leaving (thread t (w s)) = None)
  | None => false
  end.

(** Fibers that programs can name: those made with a stack for a scheduler,
    without the idle fibers. *)
Definition nameable (f : N) (s : sched) : Prop :=
  kind f (w s) = Some (true, true) /\ forall t r, runs s !! t = Some r -> idle_fiber r <> f.
Definition valid (k : SchedulerTask) (s : sched) : Prop := forall f, fiber k = Some f -> nameable f s.

(** A history: the state, every task that was submitted, every task that was
    executed with the thread it ran on, and whether a task was submitted
    from outside after [stop] was called. *)
Record history := MkHistory {
  h_s : sched;
  h_submitted : list SchedulerTask;
  h_executed : list (Z * SchedulerTask);
  h_late : bool;
}.
Definition now (s : sched) (h : history) : history := MkHistory s (h_submitted h) (h_executed h) (h_late h).
Definition submitted (k : SchedulerTask) : list SchedulerTask := if is_task k then [k] else [].

Inductive hstep (cfg : Z) (h : history) : history -> Prop :=
| h_enter t idle s' :
    runs (h_s h) !! t = None -> m_rootThread (h_s h) <> t /\ t ∈ m_threads (h_s h) /\ cpus (w (h_s h)) !! t = None
      \/ m_rootThread (h_s h) = t /\ is_Some (m_rootFiber (h_s h)) /\ executing (thread t (w (h_s h))) = m_rootFiber (h_s h)
         /\ t_scheduler_fiber (thread t (w (h_s h))) = m_rootFiber (h_s h) /\ leaving (thread t (w (h_s h))) = None ->
    run_enter cfg t idle (h_s h) = Ret tt s' -> hstep cfg h (now s' h)
| h_fetch t r s' : runs (h_s h) !! t = Some r -> home t (h_s h) = true -> at_ r = Fetching ->
    fetch t r (h_s h) = Ret tt s' -> hstep cfg h (now s' h)
| h_dispatch t r k s' : runs (h_s h) !! t = Some r -> home t (h_s h) = true -> at_ r = Took k ->
    dispatch cfg t r k (h_s h) = Ret tt s' -> hstep cfg h (now s' h)
| h_back t r : runs (h_s h) !! t = Some r -> home t (h_s h) = true ->
    hstep cfg h (MkHistory (back t r (h_s h)) (h_submitted h)
                   (h_executed h ++ if in_task r then (fun k => (t, k)) <$> held r else []) (h_late h))
| h_idle t r s' : runs (h_s h) !! t = Some r -> home t (h_s h) = false -> at_ r = InIdle -> leaving (thread t (w (h_s h))) = None ->
    idle_round t r (h_s h) = Ret tt s' -> hstep cfg h (now s' h)
| h_submit t k : busy t (h_s h) = true -> valid k (h_s h) ->
    hstep cfg h (MkHistory (schedule k (h_s h)) (h_submitted h ++ submitted k) (h_executed h) (h_late h))
| h_outside k : valid k (h_s h) ->
    hstep cfg h (MkHistory (schedule k (h_s h)) (h_submitted h ++ submitted k) (h_executed h) (h_late h || m_stopping (h_s h)))
| h_new c f s' : on_fibers (new_fiber cfg (Some c) 0 true) (h_s h) = Ret f s' -> hstep cfg h (now s' h)
| h_yield t s' : busy t (h_s h) = true -> on_fibers (fun x => let* f, x := GetThis t x in yield_enter t f x) (h_s h) = Ret tt s' ->
    hstep cfg h (now s' h)
| h_finish t f s' : busy t (h_s h) = true -> executing (thread t (w (h_s h))) = Some f ->
    on_fibers (finish_enter t f) (h_s h) = Ret tt s' -> hstep cfg h (now s' h)
| h_switch t r s' : runs (h_s h) !! t = Some r -> at_ r <> Left -> on_fibers (yield_switch t) (h_s h) = Ret tt s' -> hstep cfg h (now s' h)
| h_stop t s' : runs (h_s h) !! t = None -> executing (thread t (w (h_s h))) = t_threadFiber (thread t (w (h_s h))) ->
    stop t (h_s h) = Ret tt s' -> hstep cfg h (now s' h)
| h_root_ends t r f s' : runs (h_s h) !! t = Some r -> executing (thread t (w (h_s h))) = Some f -> at_ r = Left ->
    m_rootThread (h_s h) = t -> m_rootFiber (h_s h) = Some f ->
    on_fibers (finish t f) (h_s h) = Ret tt s' -> hstep cfg h (now s' h).

(** A scheduler that was made and started, and everything after. *)
Inductive hreach (cfg : Z) : history -> Prop :=
| hreach_start threads use_call t run x s s' tids :
    create cfg threads use_call t run nothing = Ret s x -> start tids s = Ret tt s' -> zlen tids < 2 ^ 63 ->
    hreach cfg (MkHistory s' [] [] false)
| hreach_step h h' : hreach cfg h -> hstep cfg h h' -> hreach cfg h'.

(** ** What fiber operations change, on a machine with many threads *)

Definition ctx_ok (x : world) : Prop :=
  forall f F, fibers x !! f = Some F -> m_context F = None \/ m_context F = Some f.
Definition ids_ok (x : world) : Prop := forall f, is_Some (fibers x !! f) -> (f < s_fiberId x)%N.

(** An operation of thread [t] on fiber [f]. *)
Record frame (t : Z) (f : N) (x x' : world) : Prop := {
  fr_cpu : forall t', t' <> t -> thread t' x' = thread t' x;
  fr_kind : forall g b, kind g x = Some b -> kind g x' = Some b;
  fr_ctx : ctx_ok x -> ctx_ok x';
  fr_ids : ids_ok x -> ids_ok x';
  fr_state : forall g, g <> f -> is_Some (kind g x) -> state_of g x' = state_of g x;
}.

Lemma frame_trans t f x y z : frame t f x y -> frame t f y z -> frame t f x z.
Proof.
  intros [A1 A2 A3 A4 A5] [B1 B2 B3 B4 B5]. split; eauto.
  - intros t' Ht. by rewrite B1, A1.
  - intros g Hg [b Hk]. rewrite B5, A5; eauto.
Qed.
Lemma frame_refl t f x : frame t f x x.
Proof. by split. Qed.

Lemma thread_put_cpu_ne t t' c x : t' <> t -> thread t' (put_cpu t c x) = thread t' x.
Proof. intros. unfold thread, put_cpu. cbn. by rewrite lookup_insert_ne. Qed.

Lemma frame_put_cpu t f c x : frame t f x (put_cpu t c x).
Proof. split; try done. intros. by apply thread_put_cpu_ne. Qed.

(** Replacing a fiber by one of the same kind whose context is in order. *)
Lemma frame_put t f h F F' x :
  fibers x !! h = Some F -> m_stack F' = m_stack F -> m_runInScheduler F' = m_runInScheduler F ->
  (ctx_ok x -> m_context F' = None \/ m_context F' = Some h) -> (m_state F' = m_state F \/ f = h) -> frame t f x (put h F' x).
Proof.
  intros HF H1 H2 H3 H4. split; try done.
  - intros g b. unfold kind. destruct (decide (g = h)) as [->|]; [rewrite lookup_put, HF; cbn; by rewrite H1, H2|by rewrite lookup_put_ne].
  - intros Hc g G. destruct (decide (g = h)) as [->|]; [rewrite lookup_put; intros [= <-]; auto|rewrite lookup_put_ne by done; apply Hc].
  - intros Hi g Hg. apply Hi. destruct (decide (g = h)) as [->|]; [eauto|]. by rewrite lookup_put_ne in Hg.
  - intros g Hg _. rewrite state_put. destruct (decide (g = h)) as [->|]; [|done].
    destruct H4 as [->|]; [by rewrite (state_some _ _ _ HF)|congruence].
Qed.

Lemma swapcontext_frame t f a b x x' :
  swapcontext t (Some a) (Some b) x = Ret tt x' -> executing (thread t x) = Some a -> ctx_ok x ->
  frame t f x x' /\ thread t x' = set_executing (Some b) (thread t x) /\ forall g, state_of g x' = state_of g x.
Proof.
  unfold swapcontext. intros E He Hc. rewrite He in E. destruct (fibers x !! a) as [A|] eqn:HA; [|done].
  destruct (fibers (put a (set_context (Some a) A) x) !! b) as [B|] eqn:HB; [|done].
  destruct (m_context B) as [g|] eqn:Hg; [|done]. injection E as <-.
  assert (frame t f x (put a (set_context (Some a) A) x)) as F1.
  { eapply frame_put; try done; cbn; auto. }
  assert (g = b) as -> by (destruct (fr_ctx _ _ _ _ F1 Hc b B HB); congruence).
  split; [|split].
  - eapply frame_trans; [done|]. eapply frame_trans; [|apply frame_put_cpu]. eapply frame_put; try done; cbn; auto.
  - by rewrite thread_put_cpu.
  - intros h. rewrite state_put_cpu, state_put. destruct (decide (h = b)) as [->|].
    + apply state_some in HB as HB'. rewrite state_put in HB'. cbn. rewrite <- HB'. destruct (decide (b = a)) as [->|]; [|done].
      by rewrite (state_some _ _ _ HA).
    + rewrite state_put. destruct (decide (h = a)) as [->|]; [|done]. by rewrite (state_some _ _ _ HA).
Qed.

Lemma resume_frame t f p F x x' :
  resume t f x = Ret tt x' -> fibers x !! f = Some F -> partner t F x = Some p -> executing (thread t x) = Some p -> ctx_ok x ->
  frame t f x x' /\ thread t x' = set_executing (Some f) (SetThis (Some f) (thread t x)) /\ state_of f x' = Some RUNNING.
Proof.
  intros E HF Hp He Hc. unfold resume in E. rewrite HF in E. destruct (decide _); [|done].
  set (y := put f (set_state RUNNING F) (put_cpu t (SetThis (Some f) (thread t x)) x)) in *.
  assert (frame t f x y) as F1.
  { eapply frame_trans; [apply frame_put_cpu|]. eapply frame_put; try done; [intros _; exact (Hc _ _ HF)|by right]. }
  assert (thread t y = SetThis (Some f) (thread t x)) as Ht by (unfold y; by rewrite thread_put, thread_put_cpu).
  assert (partner t F y = Some p) as Hp' by (rewrite <- Hp; unfold partner; by rewrite Ht).
  rewrite Hp' in E. apply (swapcontext_frame t f) in E as (F2 & H2 & H3); [|by rewrite Ht|by eapply fr_ctx].
  split; [by eapply frame_trans|]. split; [by rewrite H2, Ht|]. rewrite H3. unfold y. by rewrite state_put, decide_True.
Qed.

Lemma yield_enter_frame t e x x' :
  yield_enter t e x = Ret tt x' -> ctx_ok x ->
  frame t e x x' /\ thread t x' = set_leaving (Some e) (SetThis (t_threadFiber (thread t x)) (thread t x))
  /\ (state_of e x' = Some TERM -> state_of e x = Some TERM).
Proof.
  unfold yield_enter. intros E Hc. destruct (fibers x !! e) as [F|] eqn:HF; [|done]. destruct (decide _); [done|].
  injection E as <-. destruct (decide _).
  - split; [|split; [by rewrite thread_put, thread_put_cpu|by rewrite state_put, decide_True]].
    eapply frame_trans; [apply frame_put_cpu|]. eapply frame_put; try done; [intros _; exact (Hc _ _ HF)|by right].
  - split; [apply frame_put_cpu|]. split; [by rewrite thread_put_cpu|done].
Qed.

Lemma finish_enter_frame t e x x' :
  finish_enter t e x = Ret tt x' -> ctx_ok x ->
  frame t e x x' /\ thread t x' = set_leaving (Some e) (SetThis (t_threadFiber (thread t x)) (thread t x)).
Proof.
  unfold finish_enter. intros E Hc. destruct (fibers x !! e) as [F|] eqn:HF; [|done].
  set (y := put e (set_state TERM (set_cb None F)) x) in *.
  assert (frame t e x y) as F1 by (eapply frame_put; try done; [intros _; exact (Hc _ _ HF)|by right]).
  apply yield_enter_frame in E as (F2 & H2 & _); [|by eapply fr_ctx]. split; [by eapply frame_trans|done].
Qed.

Lemma yield_switch_frame t e p F x x' :
  yield_switch t x = Ret tt x' -> leaving (thread t x) = Some e -> executing (thread t x) = Some e ->
  fibers x !! e = Some F -> partner t F x = Some p -> ctx_ok x ->
  frame t e x x' /\ thread t x' = set_executing (Some p) (set_leaving None (thread t x)) /\ forall g, state_of g x' = state_of g x.
Proof.
  unfold yield_switch. intros E Hl He HF Hp Hc. rewrite Hl, HF in E.
  set (y := put_cpu t (set_leaving None (thread t x)) x) in *.
  assert (frame t e x y) as F1 by apply frame_put_cpu.
  rewrite Hp in E. apply (swapcontext_frame t e) in E as (F2 & H2 & H3); [| |by eapply fr_ctx].
  - split; [by eapply frame_trans|]. split; [by rewrite H2; unfold y; rewrite thread_put_cpu|done].
  - unfold y. by rewrite thread_put_cpu.
Qed.

Lemma new_fiber_frame cfg k n b x t g :
  ids_ok x -> exists x', new_fiber cfg k n b x = Ret (s_fiberId x) x' /\ frame t g x x'
    /\ kind (s_fiberId x) x = None /\ kind (s_fiberId x) x' = Some (true, b) /\ state_of (s_fiberId x) x' = Some READY
    /\ forall t', thread t' x' = thread t' x.
Proof.
  intros Hi. assert (fibers x !! s_fiberId x = None) as Hn.
  { destruct (fibers x !! s_fiberId x) eqn:E; [|done]. assert (s_fiberId x < s_fiberId x)%N by (apply Hi; eauto). lia. }
  eexists. split; [reflexivity|]. split; [|unfold kind, state_of; cbn; rewrite Hn, lookup_insert_eq; cbn; eauto 10].
  assert (forall h, is_Some (fibers x !! h) -> h <> s_fiberId x) as Hne by (intros h [? Hh] ->; congruence).
  split; cbn; try done.
  - unfold kind. cbn. intros h c. rewrite lookup_insert. destruct (decide (s_fiberId x = h)) as [<-|]; [by rewrite Hn|done].
  - intros Hc h F. cbn. rewrite lookup_insert. destruct (decide (s_fiberId x = h)) as [<-|]; [|apply Hc]. intros [= <-]. by right.
  - intros _ h. cbn. rewrite lookup_insert. destruct (decide (s_fiberId x = h)) as [<-|]; [lia|]. intros Hh%Hi. lia.
  - unfold kind, state_of. cbn. intros h _ [? Hh]. rewrite lookup_insert_ne; [done|]. intros <-. by rewrite Hn in Hh.
Qed.

(** ** Threads and their fibers *)

(** The fiber that the thread has resumed. *)
Definition cur (r : locals) : option N :=
  match at_ r with InFiber _ f | InCb _ f => Some f | InIdle => Some (idle_fiber r) | _ => None end.

Definition placed (sf : N) (r : locals) (c : cpu) : Prop :=
  executing c = Some sf /\ leaving c = None
  \/ exists e, cur r = Some e /\ executing c = Some e /\ (leaving c = None /\ t_fiber c = Some e \/ leaving c = Some e).

Record run_ok (t : Z) (r : locals) (s : sched) : Prop := {
  ro_sf : exists sf b, t_scheduler_fiber (thread t (w s)) = Some sf /\ kind sf (w s) = Some b /\ b <> (true, true)
            /\ (at_ r <> Left -> placed sf r (thread t (w s)));
  ro_idle : kind (idle_fiber r) (w s) = Some (true, true);
  ro_task : forall k, k ∈ held r -> is_task k = true /\ valid k s;
  ro_cur : match at_ r with
           | InFiber k f => fiber k = Some f /\ cb_fiber r = None
           | InCb k f => nameable f s /\ cb_fiber r = Some f
           | _ => cb_fiber r = None
           end;
}.

Record G (s : sched) : Prop := {
  g_ctx : ctx_ok (w s);
  g_ids : ids_ok (w s);
  g_runs : forall t r, runs s !! t = Some r -> run_ok t r s;
  g_queue : forall k, k ∈ m_fibers s -> is_task k = true /\ valid k s;
  g_root : forall f, m_rootFiber s = Some f -> kind f (w s) = Some (true, false);
}.

(** Fibers keep their kind, and the idle fibers are the old ones or new. *)
Definition ext (s s' : sched) : Prop :=
  (forall f b, kind f (w s) = Some b -> kind f (w s') = Some b)
  /\ forall t r', runs s' !! t = Some r' ->
       (exists r, runs s !! t = Some r /\ idle_fiber r = idle_fiber r') \/ kind (idle_fiber r') (w s) = None.

Lemma nameable_ext f s s' : ext s s' -> nameable f s -> nameable f s'.
Proof.
  intros [H1 H2] [Hk Hi]. split; [auto|]. intros t r' Hr <-. destruct (H2 t r' Hr) as [(r & Hr' & He)|Hn]; [|congruence].
  by apply (Hi t r).
Qed.

Lemma valid_ext k s s' : ext s s' -> valid k s -> valid k s'.
Proof. intros He Hv f Hf. eapply nameable_ext; eauto. Qed.

Lemma run_ok_ext t r s s' : ext s s' -> thread t (w s') = thread t (w s) -> run_ok t r s -> run_ok t r s'.
Proof.
  intros He Ht [(sf & b & H1 & H2 & H3) H4 H5 H6]. pose proof He as [Hk _]. split.
  - exists sf, b. rewrite Ht. eauto.
  - auto.
  - intros k Hk'. destruct (H5 k Hk'). split; [done|]. by eapply valid_ext.
  - destruct (at_ r); try done. destruct H6. split; [by eapply nameable_ext|done].
Qed.

(** A step of thread [t] that leaves its locals as [r']. *)
Lemma G_update t f r' s s' :
  G s -> frame t f (w s) (w s') -> runs s' = <[t := r']> (runs s) -> m_rootFiber s' = m_rootFiber s ->
  ((exists r, runs s !! t = Some r /\ idle_fiber r = idle_fiber r') \/ kind (idle_fiber r') (w s) = None) ->
  (forall k, k ∈ m_fibers s' -> k ∈ m_fibers s) -> (ext s s' -> run_ok t r' s') -> G s'.
Proof.
  intros [H1 H2 H3 H4 H5] F Hr Hroot Hidle Hq Hok.
  assert (ext s s') as He.
  { split; [apply F|]. intros t' r1. rewrite Hr, lookup_insert. destruct (decide (t = t')) as [<-|]; [by intros [= <-]|eauto]. }
  split.
  - by eapply fr_ctx.
  - by eapply fr_ids.
  - intros t' r1. rewrite Hr, lookup_insert. destruct (decide (t = t')) as [<-|]; [intros [= <-]; auto|].
    intros Hr1. eapply run_ok_ext; [done|by eapply fr_cpu|auto].
  - intros k Hk%Hq. destruct (H4 k Hk). split; [done|]. by eapply valid_ext.
  - intros g. rewrite Hroot. intros Hg. eapply fr_kind; eauto.
Qed.

(** A step that leaves the locals of all threads alone. *)
Lemma G_other t f s s' :
  G s -> frame t f (w s) (w s') -> runs s' = runs s -> m_rootFiber s' = m_rootFiber s ->
  (forall k, k ∈ m_fibers s' -> k ∈ m_fibers s \/ is_task k = true /\ valid k s) ->
  (forall r, runs s !! t = Some r -> ext s s' -> run_ok t r s') -> G s'.
Proof.
  intros [H1 H2 H3 H4 H5] F Hr Hroot Hq Hok. assert (ext s s') as He.
  { split; [apply F|]. rewrite Hr. eauto. }
  split; [by eapply fr_ctx|by eapply fr_ids| | |].
  - intros t' r1. rewrite Hr. intros Hr1. destruct (decide (t = t')) as [<-|]; [auto|].
    eapply run_ok_ext; [done|by eapply fr_cpu|auto].
  - intros k [Hk|[Hk Hv]]%Hq; [|split; [done|by eapply valid_ext]]. destruct (H4 k Hk). split; [done|]. by eapply valid_ext.
  - intros g. rewrite Hroot. intros Hg. eapply fr_kind; eauto.
Qed.

Lemma home_spec t s : home t s = true <->
  exists sf, executing (thread t (w s)) = Some sf /\ t_scheduler_fiber (thread t (w s)) = Some sf.
Proof. unfold home. rewrite bool_decide_eq_true. split; [intros [[sf H1] H2]; exists sf; by rewrite <- H2|intros (sf & -> & ->); eauto]. Qed.

(** In [run], a thread is on its scheduling fiber and not inside a [yield]. *)
Lemma home_placed t r s : run_ok t r s -> home t s = true -> at_ r <> Left ->
  exists sf b, t_scheduler_fiber (thread t (w s)) = Some sf /\ kind sf (w s) = Some b /\ b <> (true, true)
    /\ executing (thread t (w s)) = Some sf /\ leaving (thread t (w s)) = None.
Proof.
  intros [(sf & b & H1 & H2 & H3 & H4) Hi Ht Hc] (sf' & E1 & E2)%home_spec HL. exists sf, b.
  assert (sf' = sf) as -> by congruence. repeat (split; [done|]). destruct (H4 HL) as [[_ ?]|(e & He & Hx & _)]; [done|].
  assert (e = sf) as -> by congruence. exfalso. assert (kind sf (w s) = Some (true, true)); [|congruence].
  unfold cur in He. destruct (at_ r) as [| |k f|k f| |] eqn:Ea; simplify_eq/=.
  - destruct Hc as [Hf _]. destruct (Ht k) as [_ Hv]; [unfold held; rewrite Ea; left|]. by apply Hv.
  - by destruct Hc as [[? _] _].
Qed.

(** How a step of thread [t] moves tasks between the queue, the threads and
    the executed ones, and what it does to the counters. *)
Record booked (t : Z) (r r' : locals) (done : list SchedulerTask) (s s' : sched) : Prop := {
  bk_runs : runs s' = <[t := r']> (runs s);
  bk_tasks : m_fibers s ++ held r ≡ₚ m_fibers s' ++ held r' ++ done;
  bk_active : forall n, m_activeThreadCount s = u64 n -> m_activeThreadCount s' = u64 (n + (zlen (held r') - zlen (held r)));
  bk_idle : forall n, m_idleThreadCount s = u64 n -> m_idleThreadCount s' = u64 (n + (zlen (idling r') - zlen (idling r)));
  bk_stop : m_stopping s' = m_stopping s /\ m_threads s' = m_threads s /\ m_rootThread s' = m_rootThread s
            /\ m_rootFiber s' = m_rootFiber s;
}.

(** The search takes the first task that may run on this thread. *)
Lemma search_spec me q o q' tell : search me q = (o, q', tell) ->
  (forall k, o = Some k -> q ≡ₚ k :: q' /\ (task_thread k = -1 \/ task_thread k = me))
  /\ (o = None -> q' = q /\ forall k, k ∈ q -> task_thread k <> -1 /\ task_thread k <> me)
  /\ tell = bool_decide (q' <> []).
Proof.
  revert o q' tell. induction q as [|k q IH]; intros o q' tell; cbn [search]; [intros [= <- <- <-]; split; [done|]; split; [|done]|].
  { intros _. split; [done|]. by intros k ?%not_elem_of_nil. }
  destruct (Z.eqb_spec (task_thread k) (-1)); [|destruct (Z.eqb_spec (task_thread k) me)]; cbn [negb andb].
  1,2: intros [= <- <- <-]; split; [|done]; intros k' [= <-]; auto.
  destruct (search me q) as [[o1 q1] t1]. cbn. intros [= <- <- <-]. destruct (IH o1 q1 t1 eq_refl) as (H1 & H2 & _). split; [|split; [|done]].
  - intros k' Hk'. destruct (H1 k' Hk') as [-> ?]. split; [apply Permutation_swap|done].
  - intros Ho. destruct (H2 Ho) as [-> H]. split; [done|]. intros k' [->|Hk']%elem_of_cons; auto.
Qed.

Lemma u64_add_l a d : u64 (u64 a + d) = u64 (a + d).
Proof. unfold uw. by rewrite Z.add_mod_idemp_l. Qed.

Lemma fetch_ok t r s s' :
  G s -> runs s !! t = Some r -> home t s = true -> at_ r = Fetching -> fetch t r s = Ret tt s' ->
  exists r', G s' /\ booked t r r' [] s s' /\ w s' = w s /\ idle_fiber r' = idle_fiber r /\ at_ r' <> Left
    /\ forall k, k ∈ held r' -> task_thread k = -1 \/ task_thread k = t.
Proof.
  intros HG Hr Hh Ha E. pose proof (g_runs _ HG t r Hr) as Hok.
  destruct (home_placed t r s Hok Hh ltac:(by rewrite Ha)) as (sf & b & S1 & S2 & S3 & S4 & S5).
  assert (cb_fiber r = None) as Hcb by (pose proof (ro_cur _ _ _ Hok) as Hc; by rewrite Ha in Hc).
  assert (forall k s', G s -> ext s s' -> w s' = w s -> (is_task k = true -> k ∈ m_fibers s) ->
    run_ok t (MkLocals (idle_fiber r) (cb_fiber r) (Took k)) s') as Hnew.
  { intros k s1 [_ _ _ Hq _] He Hw Hk. split; cbn.
    - exists sf, b. rewrite Hw. repeat (split; [done|]). by left.
    - rewrite Hw. apply Hok.
    - unfold held. cbn. destruct (is_task k) eqn:Et; [|by intros ? ?%not_elem_of_nil].
      intros k' ->%list_elem_of_singleton. split; [done|]. destruct (Hq k (Hk eq_refl)). by eapply valid_ext.
    - done. }
  unfold fetch in E. destruct (search t (m_fibers s)) as [[o q] tell] eqn:Es. apply search_spec in Es as (Q1 & Q2 & _).
  assert (held r = [] /\ idling r = []) as [Hh0 Hi0] by (unfold held, idling; by rewrite Ha).
  destruct o as [k|].
  - destruct (Q1 k eq_refl) as [Hq Hp]. destruct (is_task k) eqn:Et; [|done]. injection E as <-.
    exists (MkLocals (idle_fiber r) (cb_fiber r) (Took k)). split; [|split; [split|]]; try done.
    + eapply (G_update t 0%N); try done; [by destruct tell; apply frame_refl|by destruct tell|by destruct tell|eauto| |].
      * intros k' Hk'. rewrite Hq. right. by destruct tell.
      * intros He. apply Hnew; try done; [by destruct tell|]. intros _. rewrite Hq. left.
    + by destruct tell.
    + rewrite Hh0, app_nil_r, Hq. unfold held. cbn. rewrite Et. destruct tell; cbn; solve_Permutation.
    + intros n Hn. rewrite Hh0. unfold held. cbn. rewrite Et. destruct tell; cbn; by rewrite Hn, u64_add_l.
    + intros n Hn. rewrite Hi0. cbn. rewrite Z.add_0_r. by destruct tell.
    + by destruct tell.
    + split; [by destruct tell|]. split; [done|]. split; [done|]. unfold held. cbn. rewrite Et. by intros k' ->%list_elem_of_singleton.
  - injection E as <-. exists (MkLocals (idle_fiber r) (cb_fiber r) (Took no_task)). split; [|split; [split|]]; try done.
    + eapply (G_update t 0%N); try done; [by destruct tell; apply frame_refl|by destruct tell|by destruct tell|eauto| |].
      * intros k' Hk'. by destruct tell.
      * intros He. apply Hnew; try done. by destruct tell.
    + by destruct tell.
    + rewrite Hh0. by destruct tell.
    + intros n Hn. rewrite Hh0. cbn. rewrite Z.add_0_r. by destruct tell.
    + intros n Hn. rewrite Hi0. cbn. rewrite Z.add_0_r. by destruct tell.
    + by destruct tell.
    + split; [by destruct tell|]. split; [done|]. split; [done|]. by intros k ?%not_elem_of_nil.
Qed.

Lemma on_fibers_inv {A} (m : M world A) s a s' :
  on_fibers m s = Ret a s' -> exists x, m (w s) = Ret a x /\ s' = with_w x s.
Proof. unfold on_fibers. destruct (m (w s)) eqn:E; try done. intros [= <- <-]. eauto. Qed.

Lemma kind_some f x b1 b2 : kind f x = Some (b1, b2) -> exists F, fibers x !! f = Some F /\ m_stack F = b1 /\ m_runInScheduler F = b2.
Proof. unfold kind. destruct (fibers x !! f) as [F|] eqn:E; [|done]. intros [= <- <-]. eauto. Qed.

(** A resume from [run]. *)
Lemma resume_home t sf f x x' :
  resume t f x = Ret tt x' -> kind f x = Some (true, true) -> t_scheduler_fiber (thread t x) = Some sf ->
  executing (thread t x) = Some sf -> leaving (thread t x) = None -> ctx_ok x ->
  frame t f x x' /\ state_of f x' = Some RUNNING /\ t_scheduler_fiber (thread t x') = Some sf
  /\ forall r, cur r = Some f -> placed sf r (thread t x').
Proof.
  intros E (F & HF & _ & H2)%kind_some Hs He Hl Hc.
  apply (resume_frame t f sf F) in E as (F1 & H3 & H4); try done; [|unfold partner; by rewrite H2].
  split; [done|]. split; [done|]. rewrite H3. split; [done|]. intros r Hr. right. exists f. split; [done|]. split; [done|]. by left.
Qed.

(** Outside the idle rounds no fiber that existed becomes [TERM], or only
    fibers that programs can name do. *)
Definition no_new_term (P : N -> Prop) (x x' : world) : Prop :=
  forall g, ~ P g -> is_Some (kind g x) -> state_of g x' = Some TERM -> state_of g x = Some TERM.

Lemma no_new_term_frame t f x x' : frame t f x x' -> state_of f x' = Some RUNNING -> no_new_term (fun _ => False) x x'.
Proof.
  intros F Hf g _ Hk Hg. destruct (decide (g = f)) as [->|Hne]; [congruence|]. by rewrite <- (fr_state _ _ _ _ F g Hne Hk).
Qed.

(** A step that moves no task. *)
Lemma booked_same t r r' d s s' :
  runs s' = <[t := r']> (runs s) -> m_fibers s' = m_fibers s -> held r' = held r ->
  m_activeThreadCount s' = m_activeThreadCount s -> zlen (idling r') - zlen (idling r) = d ->
  (forall n, m_idleThreadCount s = u64 n -> m_idleThreadCount s' = u64 (n + d)) ->
  m_stopping s' = m_stopping s -> m_threads s' = m_threads s -> m_rootThread s' = m_rootThread s ->
  m_rootFiber s' = m_rootFiber s -> booked t r r' [] s s'.
Proof.
  intros H1 H2 H3 H4 <- H5 H6 H7 H8 H9. split; try done.
  - by rewrite H2, H3, app_nil_r.
  - intros n Hn. by rewrite H4, H3, Z.sub_diag, Z.add_0_r.
Qed.

Lemma dispatch_ok cfg t r k s s' :
  G s -> runs s !! t = Some r -> home t s = true -> at_ r = Took k -> dispatch cfg t r k s = Ret tt s' ->
  exists r', G s' /\ booked t r r' [] s s' /\ idle_fiber r' = idle_fiber r /\ m_fibers s' = m_fibers s /\ held r' = held r
    /\ (at_ r' = Left -> state_of (idle_fiber r) (w s) = Some TERM) /\ no_new_term (fun _ => False) (w s) (w s').
Proof.
  intros HG Hr Hh Ha E. pose proof (g_runs _ HG t r Hr) as Hok.
  destruct (home_placed t r s Hok Hh ltac:(by rewrite Ha)) as (sf & b & S1 & S2 & S3 & S4 & S5).
  assert (cb_fiber r = None) as Hcb by (pose proof (ro_cur _ _ _ Hok) as Hc; by rewrite Ha in Hc).
  assert (held r = (if is_task k then [k] else []) /\ idling r = []) as [Hheld Hidl] by (unfold held, idling; by rewrite Ha).
  assert (kind (idle_fiber r) (w s) = Some (true, true)) as Hik by apply Hok.
  assert (forall k', k' ∈ held r -> is_task k' = true /\ valid k' s) as Htask by apply Hok.
  (* a branch that resumes [f] *)
  assert (forall r' f x s', w s' = x -> runs s' = <[t := r']> (runs s) -> m_rootFiber s' = m_rootFiber s -> m_fibers s' = m_fibers s ->
    idle_fiber r' = idle_fiber r -> held r' = held r -> cur r' = Some f -> frame t f (w s) x -> state_of f x = Some RUNNING ->
    t_scheduler_fiber (thread t x) = Some sf -> (forall r, cur r = Some f -> placed sf r (thread t x)) ->
    (ext s s' -> match at_ r' with InFiber k f => fiber k = Some f /\ cb_fiber r' = None
       | InCb k f => nameable f s' /\ cb_fiber r' = Some f | _ => cb_fiber r' = None end) ->
    G s' /\ no_new_term (fun _ => False) (w s) (w s')) as Hgo.
  { intros r' f x s1 <- R1 R2 R3 R4 R5 R6 F R7 R8 R9 R10. split; [|by eapply no_new_term_frame].
    eapply (G_update t f); try done; [eauto|by rewrite R3|]. intros He. split; [| | |exact (R10 He)].
    - exists sf, b. split; [done|]. split; [by eapply fr_kind|]. auto.
    - rewrite R4. by eapply fr_kind.
    - rewrite R5. intros k' Hk'. destruct (Htask k' Hk'). split; [done|]. by eapply valid_ext. }
  unfold dispatch in E. destruct (fiber k) as [f|] eqn:Ef; [|destruct (cb k) as [c|] eqn:Ec].
  - assert (is_task k = true) as Hk by (apply bool_decide_eq_true; rewrite Ef; eauto).
    apply obind_inv in E as ([] & s1 & (x & E1 & ->)%on_fibers_inv & [= <-]).
    assert (nameable f s) as [Hkf _] by (destruct (Htask k) as [_ Hv]; [rewrite Hheld, Hk; left|by apply Hv]).
    apply (resume_home t sf) in E1 as (F & R1 & R2 & R3); try done; [|apply HG].
    set (r' := MkLocals (idle_fiber r) (cb_fiber r) (InFiber k f)). exists r'.
    assert (held r' = held r) as Hh' by (rewrite Hheld, Hk; done).
    destruct (Hgo r' f x (with_run t r' (with_w x s))) as [G1 G2]; try done.
    split; [done|]. split; [|done]. eapply booked_same; try done. rewrite Hidl. cbn. intros n Hn. by rewrite Z.add_0_r.
  - assert (is_task k = true) as Hk by (apply bool_decide_eq_true; rewrite Ec; eauto).
    apply obind_inv in E as (g & s1 & (x & E0 & ->)%on_fibers_inv & E).
    apply obind_inv in E as ([] & s2 & (x' & E1 & ->)%on_fibers_inv & [= <-]). rewrite Hcb in E0. cbn [w with_w] in E1.
    destruct (new_fiber_frame cfg (Some c) 0 true (w s) t g (g_ids _ HG)) as (x0 & E0' & F0 & K0 & K1 & K2 & K3).
    rewrite E0 in E0'. injection E0' as -> <-. set (g := s_fiberId (w s)) in *.
    apply (resume_home t sf) in E1 as (F & R1 & R2 & R3); rewrite ?K3; try done; [|eapply fr_ctx; [done|apply HG]].
    set (r' := MkLocals (idle_fiber r) (Some g) (InCb k g)). exists r'.
    assert (held r' = held r) as Hh' by (rewrite Hheld, Hk; done).
    destruct (Hgo r' g x' (with_run t r' (with_w x' s))) as [G1 G2]; try done.
    { by eapply frame_trans. }
    { intros He. cbn. split; [|done]. split; [by eapply fr_kind|]. cbn. intros t' r1. rewrite lookup_insert.
      assert (forall r2 t2, runs s !! t2 = Some r2 -> idle_fiber r2 <> g) as Hfr.
      { intros r2 t2 Hr2 Hx. pose proof (ro_idle _ _ _ (g_runs _ HG _ _ Hr2)). congruence. }
      destruct (decide (t = t')); [intros [= <-]; cbn; by eapply Hfr|apply Hfr]. }
    split; [done|]. split; [|done]. eapply booked_same; try done. rewrite Hidl. cbn. intros n Hn. by rewrite Z.add_0_r.
  - assert (is_task k = false) as Hk by (apply bool_decide_eq_false; rewrite Ef, Ec; intros [[? ?]|[? ?]]; done).
    rewrite Hk in Hheld. destruct (decide _) as [Ht|Ht].
    + injection E as <-. set (r' := MkLocals (idle_fiber r) (cb_fiber r) Left). exists r'. split; [|split; [|rewrite Hheld; do 4 (split; [done|]); by intros g]].
      * eapply (G_update t 0%N); try done; [eauto|]. intros He. split; [|done|by intros ? ?%not_elem_of_nil|done].
        exists sf, b. by repeat (split; [done|]).
      * eapply booked_same; try done. rewrite Hidl. cbn. intros n Hn. by rewrite Z.add_0_r.
    + apply obind_inv in E as ([] & s1 & (x & E1 & ->)%on_fibers_inv & [= <-]).
      apply (resume_home t sf) in E1 as (F & R1 & R2 & R3); try done; [|apply HG].
      set (r' := MkLocals (idle_fiber r) (cb_fiber r) InIdle). exists r'.
      assert (held r' = held r) as Hh' by (by rewrite Hheld).
      destruct (Hgo r' (idle_fiber r) x (with_run t r' (with_w x (add_idle 1 s)))) as [G1 G2]; try done.
      split; [done|]. split; [|done]. eapply booked_same; try done. rewrite Hidl. cbn. intros n Hn. by rewrite Hn, u64_add_l.
Qed.

Lemma back_ok t r s :
  G s -> runs s !! t = Some r -> home t s = true -> cur r <> None ->
  exists r', G (back t r s) /\ booked t r r' (if in_task r then held r else []) s (back t r s)
    /\ w (back t r s) = w s /\ idle_fiber r' = idle_fiber r /\ at_ r' <> Left /\ held r' = [].
Proof.
  intros HG Hr Hh Hcur. pose proof (g_runs _ HG t r Hr) as Hok.
  assert (at_ r <> Left) as HL by (intros Ha; unfold cur in Hcur; by rewrite Ha in Hcur).
  destruct (home_placed t r s Hok Hh HL) as (sf & b & S1 & S2 & S3 & S4 & S5).
  assert (forall s', w s' = w s -> runs s' = <[t := MkLocals (idle_fiber r) None Fetching]> (runs s) ->
    m_rootFiber s' = m_rootFiber s -> m_fibers s' = m_fibers s -> G s') as Hgo.
  { intros s' H1 H2 H3 H4. eapply (G_update t 0%N); try done; [rewrite H1; apply frame_refl|eauto|by rewrite H4|].
    intros He. split; [|rewrite H1; apply Hok|by intros ? ?%not_elem_of_nil|done].
    exists sf, b. rewrite H1. repeat (split; [done|]). intros _. by left. }
  exists (MkLocals (idle_fiber r) None Fetching). pose proof (ro_cur _ _ _ Hok) as Hc.
  unfold cur in Hcur. unfold back, in_task. destruct (at_ r) as [|k|k f|k f| |] eqn:Ha; try done.
  - destruct Hc as [_ ->]. assert (held r = [k] /\ idling r = []) as [Hh' Hi'] by (unfold held, idling; by rewrite Ha).
    split; [by apply Hgo|]. split; [split; try done|done].
    + intros n Hn. rewrite Hh'. cbn. by rewrite Hn, u64_add_l.
    + intros n Hn. rewrite Hi'. cbn. by rewrite Z.add_0_r.
  - assert (held r = [k] /\ idling r = []) as [Hh' Hi'] by (unfold held, idling; by rewrite Ha).
    split; [by apply Hgo|]. split; [split; try done|done].
    + intros n Hn. rewrite Hh'. cbn. by rewrite Hn, u64_add_l.
    + intros n Hn. rewrite Hi'. cbn. by rewrite Z.add_0_r.
  - rewrite Hc. assert (held r = [] /\ idling r = [tt]) as [Hh' Hi'] by (unfold held, idling; by rewrite Ha).
    split; [by apply Hgo|]. split; [split; try done|done].
    + by rewrite Hh'.
    + intros n Hn. rewrite Hh'. cbn. by rewrite Z.add_0_r.
    + intros n Hn. rewrite Hi'. cbn. by rewrite Hn, u64_add_l.
Qed.

Lemma cur_kind t r s e : run_ok t r s -> cur r = Some e -> kind e (w s) = Some (true, true).
Proof.
  intros [_ Hi Ht Hc]. unfold cur. destruct (at_ r) as [| |k f|k f| |] eqn:Ha; try done; intros [= <-].
  - destruct Hc as [Hf _]. destruct (Ht k) as [_ Hv]; [unfold held; rewrite Ha; left|]. by apply Hv.
  - by destruct Hc as [[? _] _].
  - done.
Qed.

(** Off its scheduling fiber, a thread runs the fiber it has resumed. *)
Lemma away_placed t r s : run_ok t r s -> home t s = false -> at_ r <> Left ->
  exists sf b e, t_scheduler_fiber (thread t (w s)) = Some sf /\ kind sf (w s) = Some b /\ b <> (true, true)
    /\ cur r = Some e /\ executing (thread t (w s)) = Some e
    /\ (leaving (thread t (w s)) = None /\ t_fiber (thread t (w s)) = Some e \/ leaving (thread t (w s)) = Some e).
Proof.
  intros [(sf & b & H1 & H2 & H3 & H4) _ _ _] Hh HL. destruct (H4 HL) as [[He _]|(e & ? & ? & ?)].
  - exfalso. apply not_true_iff_false in Hh. apply Hh, home_spec. eauto.
  - exists sf, b, e. eauto 10.
Qed.

(** The locals of [t] stay in order when its fiber enters or leaves. *)
Lemma run_ok_moved t r s x sf b :
  run_ok t r s -> ext s (with_w x s) -> t_scheduler_fiber (thread t x) = Some sf -> kind sf (w s) = Some b -> b <> (true, true) ->
  placed sf r (thread t x) -> run_ok t r (with_w x s).
Proof.
  intros [_ Hi Ht Hc] He H1 H2 H3 H4. pose proof He as [Hk _]. split.
  - exists sf, b. split; [done|]. split; [by apply Hk|]. auto.
  - by apply Hk.
  - intros k Hk'. destruct (Ht k Hk'). split; [done|]. by eapply valid_ext.
  - destruct (at_ r); try done. destruct Hc. split; [by eapply nameable_ext|done].
Qed.

Lemma enter_ok t r s e x :
  G s -> runs s !! t = Some r -> at_ r <> Left -> cur r = Some e -> executing (thread t (w s)) = Some e ->
  frame t e (w s) x -> thread t x = set_leaving (Some e) (SetThis (t_threadFiber (thread t (w s))) (thread t (w s))) ->
  G (with_w x s).
Proof.
  intros HG Hr HL Hc He F Ht. pose proof (g_runs _ HG t r Hr) as Hok. destruct (ro_sf _ _ _ Hok) as (sf & b & H1 & H2 & H3 & _).
  eapply (G_other t e); try done; [by left|]. intros r1 Hr1 Hext. assert (r1 = r) as -> by congruence.
  eapply run_ok_moved; try done; rewrite Ht; [done|]. right. exists e. split; [done|]. split; [done|]. by right.
Qed.

Lemma switch_ok t r s x :
  G s -> runs s !! t = Some r -> at_ r <> Left -> yield_switch t (w s) = Ret tt x ->
  G (with_w x s) /\ forall g, state_of g x = state_of g (w s).
Proof.
  intros HG Hr HL E. pose proof (g_runs _ HG t r Hr) as Hok. destruct (ro_sf _ _ _ Hok) as (sf & b & H1 & H2 & H3 & H4).
  destruct (leaving (thread t (w s))) as [e|] eqn:Hl; [|unfold yield_switch in E; by rewrite Hl in E].
  destruct (H4 HL) as [[_ ?]|(e' & Hc & He & [[? _]|?])]; try congruence. assert (e' = e) as -> by congruence.
  destruct (kind_some _ _ _ _ (cur_kind t r s e Hok Hc)) as (F & HF & _ & Hp).
  apply (yield_switch_frame t e sf F) in E as (Fr & Ht & Hst); try done; [|unfold partner; by rewrite Hp|apply HG].
  split; [|done]. eapply (G_other t e); try done; [by left|]. intros r1 Hr1 Hext. assert (r1 = r) as -> by congruence.
  eapply run_ok_moved; try done; rewrite Ht; [done|]. by left.
Qed.

Lemma user_yield_ok t s s' :
  G s -> busy t s = true -> on_fibers (fun x => let* f, x := GetThis t x in yield_enter t f x) s = Ret tt s' ->
  exists x, s' = with_w x s /\ G s' /\ no_new_term (fun _ => False) (w s) x.
Proof.
  intros HG Hb (x & E & ->)%on_fibers_inv. exists x. split; [done|]. unfold busy in Hb. destruct (runs s !! t) as [r|] eqn:Hr; [|done].
  apply andb_true_iff in Hb as [[Hi Hh%negb_true_iff]%andb_true_iff Hl%bool_decide_eq_true].
  assert (at_ r <> Left) as HL by (intros Ha; unfold in_task in Hi; by rewrite Ha in Hi).
  destruct (away_placed t r s (g_runs _ HG t r Hr) Hh HL) as (sf & b & e & H1 & H2 & H3 & H4 & H5 & [[_ H6]|?]); [|congruence].
  apply obind_inv in E as (f & x1 & E1 & E2). unfold GetThis in E1. rewrite H6 in E1.
  destruct (fibers (w s) !! e); [|done]. injection E1 as <- <-.
  apply yield_enter_frame in E2 as (F & Ht & Hs); [|apply HG]. split; [by eapply enter_ok|].
  intros g _ Hk Hg. destruct (decide (g = e)) as [->|Hne]; [auto|]. by rewrite <- (fr_state _ _ _ _ F g Hne Hk).
Qed.

Lemma user_finish_ok t f s s' :
  G s -> busy t s = true -> executing (thread t (w s)) = Some f -> on_fibers (finish_enter t f) s = Ret tt s' ->
  exists x, s' = with_w x s /\ G s' /\ no_new_term (fun g => nameable g s) (w s) x.
Proof.
  intros HG Hb Hf (x & E & ->)%on_fibers_inv. exists x. split; [done|]. unfold busy in Hb. destruct (runs s !! t) as [r|] eqn:Hr; [|done].
  apply andb_true_iff in Hb as [[Hi Hh%negb_true_iff]%andb_true_iff Hl%bool_decide_eq_true].
  assert (at_ r <> Left) as HL by (intros Ha; unfold in_task in Hi; by rewrite Ha in Hi).
  pose proof (g_runs _ HG t r Hr) as Hok.
  destruct (away_placed t r s Hok Hh HL) as (sf & b & e & H1 & H2 & H3 & H4 & H5 & _). assert (e = f) as -> by congruence.
  assert (nameable f s) as Hnm.
  { pose proof (ro_cur _ _ _ Hok) as Hc. unfold cur in H4. unfold in_task in Hi. destruct (at_ r) as [| |k g|k g| |] eqn:Ha; simplify_eq.
    - destruct (ro_task _ _ _ Hok k) as [_ Hv]; [unfold held; rewrite Ha; left|]. apply Hv, Hc.
    - apply Hc. }
  apply finish_enter_frame in E as (F & Ht); [|apply HG]. split; [by eapply enter_ok|].
  intros g Hg Hk. destruct (decide (g = f)) as [->|Hne]; [done|]. by rewrite <- (fr_state _ _ _ _ F g Hne Hk).
Qed.

(** A whole [yield] or [finish] of the fiber that thread [t] runs. *)
Lemma leave_ok t r s e x1 x2 :
  G s -> runs s !! t = Some r -> at_ r <> Left -> cur r = Some e -> executing (thread t (w s)) = Some e ->
  frame t e (w s) x1 -> thread t x1 = set_leaving (Some e) (SetThis (t_threadFiber (thread t (w s))) (thread t (w s))) ->
  yield_switch t x1 = Ret tt x2 ->
  G (with_w x2 s) /\ forall g, state_of g x2 = state_of g x1.
Proof.
  intros HG Hr HL Hc He F Ht E. assert (G (with_w x1 s)) as HG1 by by eapply enter_ok.
  exact (switch_ok t r (with_w x1 s) x2 HG1 Hr HL E).
Qed.

Lemma idle_round_ok t r s s' :
  G s -> runs s !! t = Some r -> home t s = false -> at_ r = InIdle -> leaving (thread t (w s)) = None ->
  idle_round t r s = Ret tt s' ->
  exists x, s' = with_w x s /\ G s' /\ no_new_term (fun _ => stopping s = true) (w s) x.
Proof.
  intros HG Hr Hh Ha Hl E. assert (at_ r <> Left) as HL by by rewrite Ha.
  destruct (away_placed t r s (g_runs _ HG t r Hr) Hh HL) as (sf & b & e & H1 & H2 & H3 & H4 & H5 & [[_ H6]|?]); [|congruence].
  unfold idle_round in E. destruct (stopping s) eqn:Es; apply on_fibers_inv in E as (x & E & ->); exists x; (split; [done|]).
  - assert (idle_fiber r = e) as Hie by (unfold cur in H4; rewrite Ha in H4; congruence).
    apply obind_inv in E as ([] & x1 & E1 & E2). rewrite Hie in E1. apply finish_enter_frame in E1 as (F & Ht); [|apply HG].
    destruct (leave_ok t r s e x1 x HG Hr HL H4 H5 F Ht E2) as [HG' _]. split; [done|]. by intros g [].
  - apply obind_inv in E as (f & x1 & E1 & E2). unfold GetThis in E1. rewrite H6 in E1.
    destruct (fibers (w s) !! e); [|done]. injection E1 as <- <-. apply obind_inv in E2 as ([] & x2 & E1 & E2).
    apply yield_enter_frame in E1 as (F & Ht & Hs); [|apply HG].
    destruct (leave_ok t r s e x2 x HG Hr HL H4 H5 F Ht E2) as [HG' Hst]. split; [done|].
    intros g _ Hk. rewrite Hst. destruct (decide (g = e)) as [->|Hne]; [auto|]. by rewrite <- (fr_state _ _ _ _ F g Hne Hk).
Qed.

(** Steps that only make or resume fibers outside the run loops. *)
Lemma new_ok cfg c f s s' :
  G s -> on_fibers (new_fiber cfg (Some c) 0 true) s = Ret f s' ->
  exists x, s' = with_w x s /\ G s' /\ no_new_term (fun _ => False) (w s) x.
Proof.
  intros HG (x & E & ->)%on_fibers_inv. exists x. split; [done|].
  set (t := fresh (dom (runs s))). assert (runs s !! t = None) as Ht by (apply not_elem_of_dom, is_fresh).
  destruct (new_fiber_frame cfg (Some c) 0 true (w s) t f (g_ids _ HG)) as (x0 & E0 & F & K0 & _).
  rewrite E in E0. injection E0 as -> <-. split.
  - eapply (G_other t); try done; [by left|]. intros r Hr. congruence.
  - intros g _ Hk. destruct (decide (g = s_fiberId (w s))) as [->|Hne]; [rewrite K0 in Hk; by destruct Hk|].
    by rewrite <- (fr_state _ _ _ _ F g Hne Hk).
Qed.

Lemma stop_ok t s s' :
  G s -> runs s !! t = None -> executing (thread t (w s)) = t_threadFiber (thread t (w s)) -> stop t s = Ret tt s' ->
  G s' /\ runs s' = runs s /\ m_fibers s' = m_fibers s /\ m_activeThreadCount s' = m_activeThreadCount s
  /\ m_idleThreadCount s' = m_idleThreadCount s /\ m_threads s' = m_threads s /\ m_rootThread s' = m_rootThread s
  /\ (m_stopping s = true -> m_stopping s' = true) /\ no_new_term (fun _ => False) (w s) (w s').
Proof.
  intros HG Hr He E. unfold stop in E. destruct (stopping s) eqn:Es; [injection E as <-; do 8 (split; [done|]); by intros g|].
  destruct (m_rootFiber s) as [root|] eqn:Hroot; cbn [m_rootFiber] in E; rewrite ?Hroot in E.
  - rewrite bool_decide_true in E by eauto. destruct (bool_decide _); [|done]. apply on_fibers_inv in E as (x & E & ->).
    cbn [w tickle] in E. destruct (kind_some _ _ _ _ (g_root _ HG root Hroot)) as (F & HF & _ & Hp).
    destruct (executing (thread t (w s))) as [e|] eqn:Hex.
    + apply (resume_frame t root e F) in E as (Fr & Ht & Hst); try done; [|unfold partner; by rewrite Hp|apply HG].
      cbn. split; [|do 7 (split; [done|]); by eapply no_new_term_frame].
      eapply (G_other t root); try done; [by left|]. intros r Hr'. congruence.
    + exfalso. unfold resume in E. rewrite HF in E. destruct (decide _); [|done]. unfold swapcontext in E.
      rewrite thread_put, thread_put_cpu in E. cbn [executing SetThis] in E. rewrite Hex in E. by destruct (partner _ _ _).
  - rewrite bool_decide_false in E by (intros [? ?]; done). destruct (bool_decide _); [done|]. injection E as <-. cbn.
    split; [|do 7 (split; [done|]); by intros g].
    eapply (G_other t 0%N); try done; [by left|]. intros r Hr'. congruence.
Qed.

(** A new object in the heap. *)
Lemma frame_insert t g h F n x :
  fibers x !! h = None -> m_context F = None \/ m_context F = Some h -> (h < n)%N -> (s_fiberId x <= n)%N ->
  frame t g x (MkWorld (<[h := F]> (fibers x)) n (u64 (s_fiberCount x + 1)) (cpus x)).
Proof.
  intros Hn Hc Hlt Hle. split; try done.
  - unfold kind. cbn. intros f b. rewrite lookup_insert. destruct (decide (h = f)) as [<-|]; [by rewrite Hn|done].
  - intros Hx f F'. cbn. rewrite lookup_insert. destruct (decide (h = f)) as [<-|]; [|apply Hx]. by intros [= <-].
  - intros Hi f. cbn. rewrite lookup_insert. destruct (decide (h = f)) as [<-|]; [lia|]. intros Hf%Hi. lia.
  - unfold kind, state_of. cbn. intros f _ [? Hf]. rewrite lookup_insert_ne; [done|]. intros <-. by rewrite Hn in Hf.
Qed.

Lemma fresh_id x : ids_ok x -> fibers x !! s_fiberId x = None.
Proof. intros Hi. destruct (fibers x !! s_fiberId x) eqn:E; [|done]. assert (s_fiberId x < s_fiberId x)%N by (apply Hi; eauto). lia. Qed.

Lemma GetThis_first t g x :
  ids_ok x -> thread t x = native ->
  exists x', GetThis t x = Ret (s_fiberId x) x' /\ frame t g x x' /\ kind (s_fiberId x) x = None
    /\ kind (s_fiberId x) x' = Some (false, true)
    /\ thread t x' = MkCpu (Some (s_fiberId x)) (Some (s_fiberId x)) None (Some (s_fiberId x)) None.
Proof.
  intros Hi Ht. unfold GetThis. rewrite Ht. cbn. rewrite Ht. eexists. split; [reflexivity|]. split; [|split; [|split]].
  - eapply frame_trans; [|apply frame_put_cpu]. eapply frame_trans; [|apply frame_put_cpu].
    apply frame_insert; [by apply fresh_id|by left|lia|lia].
  - unfold kind. by rewrite fresh_id.
  - unfold kind. cbn. by rewrite lookup_insert_eq.
  - rewrite thread_put_cpu. rewrite thread_put_cpu. done.
Qed.

Lemma run_enter_ok cfg t idle s s' :
  G s -> runs s !! t = None ->
  (m_rootThread s <> t /\ cpus (w s) !! t = None
   \/ m_rootThread s = t /\ is_Some (m_rootFiber s) /\ executing (thread t (w s)) = m_rootFiber s
      /\ t_scheduler_fiber (thread t (w s)) = m_rootFiber s /\ leaving (thread t (w s)) = None) ->
  run_enter cfg t idle s = Ret tt s' ->
  exists f, let r' := MkLocals f None Fetching in G s' /\ runs s' = <[t := r']> (runs s) /\ m_fibers s' = m_fibers s
    /\ m_activeThreadCount s' = m_activeThreadCount s /\ m_idleThreadCount s' = m_idleThreadCount s
    /\ m_threads s' = m_threads s /\ m_rootThread s' = m_rootThread s /\ m_stopping s' = m_stopping s
    /\ state_of f (w s') = Some READY /\ no_new_term (fun _ => False) (w s) (w s').
Proof.
  intros HG Hr Hcase E. unfold run_enter in E. cbn [m_rootThread] in E.
  set (s0 := MkSched _ _ _ _ _ _ _ _ _ _ _ _ _) in E.
  (* the thread has its scheduling fiber *)
  apply obind_inv in E as ([] & s1 & E1 & E).
  assert (exists x1 sf b, s1 = with_w x1 s0 /\ (forall g, frame t g (w s) x1) /\ kind sf x1 = Some b /\ b <> (true, true)
    /\ t_scheduler_fiber (thread t x1) = Some sf /\ executing (thread t x1) = Some sf /\ leaving (thread t x1) = None) as
    (x1 & sf & b & -> & F1 & K1 & K2 & K3 & K4 & K5).
  { destruct Hcase as [[Hne Hcpu]|(Heq & [root Hroot] & H1 & H2 & H3)].
    - rewrite (proj2 (Z.eqb_neq _ _)) in E1 by congruence. apply on_fibers_inv in E1 as (x & E1 & ->). cbn [w s0] in E1.
      assert (thread t (w s) = native) as Ht by (unfold thread; by rewrite Hcpu).
      pose proof (fun g => GetThis_first t g (w s) (g_ids _ HG) Ht) as Hget.
      destruct (Hget 0%N) as (x0 & E0 & _ & _ & Hk & Hth). rewrite E0 in E1. cbn [obind] in E1. injection E1 as <-.
      eexists _, _, (false, true). split; [done|]. rewrite thread_put_cpu, Hth. cbn. split; [|done]. intros g.
      eapply frame_trans; [|apply frame_put_cpu]. destruct (Hget g) as (x0' & E0' & F & _). congruence.
    - rewrite Heq, Z.eqb_refl in E1. injection E1 as <-. exists (w s), root, (true, false). rewrite Hroot in H1, H2.
      split; [done|]. split; [intros; apply frame_refl|]. split; [by apply (g_root _ HG)|]. done. }
  apply obind_inv in E as (f & s2 & (x2 & E2 & ->)%on_fibers_inv & [= <-]). cbn [w with_w] in E2.
  destruct (new_fiber_frame cfg (Some idle) 0 true x1 t f) as (x0 & E0 & F2 & N1 & N2 & N3 & N4); [by eapply fr_ids; [apply (F1 0%N)|apply HG]|].
  rewrite E2 in E0. injection E0 as -> <-. set (f := s_fiberId x1) in *. exists f.
  assert (frame t f (w s) x2) as F by (eapply frame_trans; eauto).
  assert (kind f (w s) = None) as Kf.
  { destruct (kind f (w s)) as [b'|] eqn:Ek; [|done]. apply (fr_kind _ _ _ _ (F1 f)) in Ek. congruence. }
  cbn. split; [|do 8 (split; [done|])].
  - eapply (G_update t f); try done; [by right|]. intros He. split; [|done|by intros ? ?%not_elem_of_nil|done].
    exists sf, b. cbn. rewrite N4. split; [done|]. split; [exact (fr_kind _ _ _ _ F2 _ _ K1)|]. split; [done|]. intros _. by left.
  - intros g _ Hk. destruct (decide (g = f)) as [->|Hne]; [rewrite Kf in Hk; by destruct Hk|].
    by rewrite <- (fr_state _ _ _ _ F g Hne Hk).
Qed.

Lemma root_ends_ok t r f s s' :
  G s -> runs s !! t = Some r -> executing (thread t (w s)) = Some f -> at_ r = Left -> m_rootFiber s = Some f ->
  on_fibers (finish t f) s = Ret tt s' ->
  exists x, s' = with_w x s /\ G s' /\ no_new_term (fun g => g = f) (w s) x.
Proof.
  intros HG Hr He Ha Hroot (x & E & ->)%on_fibers_inv. exists x. split; [done|]. apply obind_inv in E as ([] & x1 & E1 & E2).
  destruct (kind_some _ _ _ _ (g_root _ HG f Hroot)) as (F0 & HF0 & _ & Hp0).
  apply finish_enter_frame in E1 as (F & Ht); [|apply HG].
  pose proof (fr_kind _ _ _ _ F f _ (g_root _ HG f Hroot)) as (F1 & HF1 & _ & Hp)%kind_some.
  destruct (t_threadFiber (thread t x1)) as [p|] eqn:Hth.
  2: { exfalso. unfold yield_switch in E2. rewrite Ht in E2. cbn [leaving set_leaving] in E2. rewrite HF1 in E2.
       unfold partner in E2. rewrite Hp, Hth in E2. done. }
  apply (yield_switch_frame t f p F1) in E2 as (F2 & Ht2 & Hst); try done; try (by rewrite Ht); [| |by eapply fr_ctx; [done|apply HG]].
  - assert (frame t f (w s) x) as Fx by by eapply frame_trans. split.
    + eapply (G_other t f); try done; [by left|]. intros r1 Hr1 Hext. assert (r1 = r) as -> by congruence.
      pose proof (g_runs _ HG t r Hr) as Hok. destruct (ro_sf _ _ _ Hok) as (sf & b & S1 & S2 & S3 & _). split.
      * exists sf, b. cbn. rewrite Ht2, Ht. split; [done|]. split; [by eapply fr_kind|]. split; [done|]. by rewrite Ha.
      * eapply fr_kind; [done|apply Hok].
      * intros k Hk. destruct (ro_task _ _ _ Hok k Hk). split; [done|]. by eapply valid_ext.
      * pose proof (ro_cur _ _ _ Hok). by rewrite Ha in *.
    + intros g Hg Hk. by rewrite <- (fr_state _ _ _ _ Fx g Hg Hk).
  - unfold partner. by rewrite Hp, Hth.
Qed.

(** ** Accounting *)

Lemma collect_insert {X} (g : locals -> list X) m t r : collect g (<[t := r]> m) ≡ₚ g r ++ collect g (delete t m).
Proof. unfold collect. rewrite <- insert_delete_eq, map_to_list_insert by apply lookup_delete_eq. done. Qed.

Lemma collect_lookup {X} (g : locals -> list X) m t r : m !! t = Some r -> collect g m ≡ₚ g r ++ collect g (delete t m).
Proof. intros H. rewrite <- (collect_insert g m t r). by rewrite insert_id. Qed.

Lemma collect_bound {X} (g : locals -> list X) m : (forall r, (length (g r) <= 1)%nat) -> (length (collect g m) <= size m)%nat.
Proof.
  intros Hg. induction m as [|t r m Hn IH] using map_ind; [done|].
  rewrite collect_insert, length_app, delete_id, map_size_insert_None by done. specialize (Hg r). lia.
Qed.

Lemma held_le r : (length (held r) <= 1)%nat.
Proof. unfold held. destruct (at_ r); cbn; try lia. destruct (is_task k); cbn; lia. Qed.

Definition runs_on (t : Z) (k : SchedulerTask) : Prop := task_thread k = -1 \/ task_thread k = t.
Definition quiet (s : sched) : Prop := m_stopping s = true /\ m_fibers s = [] /\ collect held (runs s) = [].
(** A thread has seen [stopping()] in its idle fiber. *)
Definition ended (s : sched) : Prop :=
  exists t r, runs s !! t = Some r /\ (at_ r = Left \/ state_of (idle_fiber r) (w s) = Some TERM).

Record HInv (h : history) : Prop := {
  hi_G : G (h_s h);
  hi_tasks : h_submitted h ≡ₚ m_fibers (h_s h) ++ collect held (runs (h_s h)) ++ (h_executed h).*2;
  hi_active : m_activeThreadCount (h_s h) = u64 (zlen (collect held (runs (h_s h))));
  hi_idle : m_idleThreadCount (h_s h) = u64 (zlen (collect idling (runs (h_s h))));
  hi_pin : forall t k, (t, k) ∈ h_executed h \/ (exists r, runs (h_s h) !! t = Some r /\ k ∈ held r) ->
    runs_on t k /\ t ∈ m_rootThread (h_s h) :: m_threads (h_s h);
  hi_dom : forall t, is_Some (runs (h_s h) !! t) -> t ∈ m_rootThread (h_s h) :: m_threads (h_s h);
  hi_size : zlen (m_threads (h_s h)) < 2 ^ 63;
  hi_quiet : h_late h = false -> ended (h_s h) -> quiet (h_s h);
}.

Lemma zlen_perm {X} (l k : list X) : l ≡ₚ k -> zlen l = zlen k.
Proof. unfold zlen. by intros ->. Qed.

(** A thread took its next step in [run]. *)
Lemma HInv_booked t r r' done s' h :
  HInv h -> runs (h_s h) !! t = Some r -> G s' -> booked t r r' done (h_s h) s' ->
  (forall k, k ∈ held r' ++ done -> runs_on t k) ->
  (ended s' -> ended (h_s h)) ->
  HInv (MkHistory s' (h_submitted h) (h_executed h ++ ((fun k => (t, k)) <$> done)) (h_late h)).
Proof.
  intros [I1 I2 I3 I4 I5 I6 I7 I8] Hr HG [B1 B2 B3 B4 (B5 & B6 & B7 & B8)] Hpin Hend.
  pose proof (collect_lookup held _ _ _ Hr) as C1. pose proof (collect_lookup idling _ _ _ Hr) as C2.
  split; cbn [h_s h_submitted h_executed h_late]; try done.
  - rewrite I2, B1, (collect_insert held), C1, fmap_app, <- list_fmap_compose. cbn.
    replace ((snd ∘ (fun k => (t, k))) <$> done) with done by (symmetry; apply list_fmap_id).
    transitivity ((m_fibers (h_s h) ++ held r) ++ collect held (delete t (runs (h_s h))) ++ (h_executed h).*2); [solve_Permutation|].
    rewrite B2. solve_Permutation.
  - rewrite B1, (zlen_perm _ _ (collect_insert held _ t r')). rewrite (zlen_perm _ _ C1) in I3.
    rewrite (B3 _ I3). rewrite !zlen_app. f_equal. lia.
  - rewrite B1, (zlen_perm _ _ (collect_insert idling _ t r')). rewrite (zlen_perm _ _ C2) in I4.
    rewrite (B4 _ I4). rewrite !zlen_app. f_equal. lia.
  - rewrite B6, B7. assert (t ∈ m_rootThread (h_s h) :: m_threads (h_s h)) as Hin by (apply I6; eauto). intros t' k [Hk|(r1 & Hr1 & Hk)].
    + apply elem_of_app in Hk as [Hk|Hk]; [auto|]. apply list_elem_of_fmap in Hk as (k' & [= -> ->] & Hk).
      split; [|done]. apply Hpin, elem_of_app. by right.
    + rewrite B1, lookup_insert in Hr1. destruct (decide (t = t')) as [<-|]; [|by eauto].
      injection Hr1 as <-. split; [|done]. apply Hpin, elem_of_app. by left.
  - intros t'. rewrite B1, lookup_insert, B6, B7. destruct (decide (t = t')) as [<-|]; [|auto]. intros _. apply I6. eauto.
  - by rewrite B6.
  - intros Hl He. destruct (I8 Hl (Hend He)) as (Q1 & Q2 & Q3). rewrite Q3 in C1. apply Permutation_nil_l in C1.
    symmetry in C1. apply app_nil in C1 as [Q4 Q5]. rewrite Q2, Q4 in B2. apply Permutation_nil_l in B2.
    symmetry in B2. apply app_nil in B2 as [B2 [B2' _]%app_nil]. split; [congruence|]. split; [done|].
    rewrite B1. apply Permutation_nil_r. by rewrite (collect_insert held), B2', Q5.
Qed.

(** A step that leaves the queue and the run loops alone. *)
Lemma HInv_same s' h :
  HInv h -> G s' -> runs s' = runs (h_s h) -> m_fibers s' = m_fibers (h_s h) ->
  m_activeThreadCount s' = m_activeThreadCount (h_s h) -> m_idleThreadCount s' = m_idleThreadCount (h_s h) ->
  m_threads s' = m_threads (h_s h) -> m_rootThread s' = m_rootThread (h_s h) ->
  (m_stopping (h_s h) = true -> m_stopping s' = true) ->
  (h_late h = false -> ended s' -> quiet (h_s h)) -> HInv (now s' h).
Proof.
  intros [I1 I2 I3 I4 I5 I6 I7 I8] HG R1 R2 R3 R4 R5 R6 R7 R8.
  split; cbn [h_s h_submitted h_executed h_late now]; rewrite ?R1, ?R2, ?R3, ?R4, ?R5, ?R6; try done.
  intros Hl He. destruct (R8 Hl He) as (Q1 & Q2 & Q3). split; [auto|]. by rewrite R1, R2.
Qed.

(** No thread sees [stopping()] by steps that end no idle fiber. *)
Lemma ended_back P x s :
  G s -> no_new_term P (w s) x -> (forall t r, runs s !! t = Some r -> ~ P (idle_fiber r)) -> ended (with_w x s) -> ended s.
Proof.
  intros HG Hn Hi (t & r & Hr & [Ha|Ht]); exists t, r; (split; [done|]); [by left|right].
  apply Hn; [by eapply Hi|rewrite (ro_idle _ _ _ (g_runs _ HG t r Hr)); eauto|done].
Qed.

Lemma HInv_world P x h :
  HInv h -> G (with_w x (h_s h)) -> no_new_term P (w (h_s h)) x ->
  (forall t r, runs (h_s h) !! t = Some r -> ~ P (idle_fiber r)) -> HInv (now (with_w x (h_s h)) h).
Proof.
  intros HI HG Hn Hi. apply HInv_same; try done. intros Hl He. apply HI; [done|]. eapply ended_back; eauto. apply HI.
Qed.

Lemma threads_few h : HInv h -> zlen (collect held (runs (h_s h))) < 2 ^ 64.
Proof.
  intros HI. pose proof (collect_bound held (runs (h_s h)) held_le) as Hb.
  assert (size (runs (h_s h)) <= S (length (m_threads (h_s h))))%nat as Hs.
  { rewrite <- length_map_to_list, <- (length_fmap fst). change (S _) with (length (m_rootThread (h_s h) :: m_threads (h_s h))).
    apply submseteq_length, NoDup_submseteq; [apply NoDup_fst_map_to_list|].
    intros t ([t' r] & -> & Hr%elem_of_map_to_list)%list_elem_of_fmap. apply (hi_dom _ HI). eauto. }
  pose proof (hi_size _ HI). unfold zlen in *. lia.
Qed.

(** What [stopping()] says. *)
Lemma stopping_quiet h : HInv h -> stopping (h_s h) = true -> quiet (h_s h).
Proof.
  intros HI [[Hs Hq%bool_decide_eq_true]%andb_true_iff Ha%Z.eqb_eq]%andb_true_iff. split; [done|]. split; [done|].
  pose proof (threads_few h HI) as Hlt. rewrite (hi_active _ HI) in Ha. rewrite uw_small in Ha; [|unfold in_u, zlen in *; lia].
  unfold zlen in Ha. destruct (collect held (runs (h_s h))); [done|cbn in Ha; lia].
Qed.

Lemma HInv_submit late k h :
  HInv h -> valid k (h_s h) -> (late = false -> h_late h = false /\ (ended (h_s h) -> ~ quiet (h_s h))) ->
  HInv (MkHistory (schedule k (h_s h)) (h_submitted h ++ submitted k) (h_executed h) late).
Proof.
  intros [I1 I2 I3 I4 I5 I6 I7 I8] Hv Hlate.
  set (s' := schedule k (h_s h)).
  assert (w s' = w (h_s h) /\ runs s' = runs (h_s h) /\ m_fibers s' = m_fibers (h_s h) ++ submitted k
    /\ m_activeThreadCount s' = m_activeThreadCount (h_s h) /\ m_idleThreadCount s' = m_idleThreadCount (h_s h)
    /\ m_threads s' = m_threads (h_s h) /\ m_rootThread s' = m_rootThread (h_s h) /\ m_rootFiber s' = m_rootFiber (h_s h))
    as (R0 & R1 & R2 & R3 & R4 & R5 & R6 & R7).
  { unfold s', schedule, schedulerNoLock, submitted. cbn. destruct (is_task k), (bool_decide _); cbn; by rewrite ?app_nil_r. }
  clearbody s'. split; cbn [h_s h_submitted h_executed h_late]; rewrite ?R1, ?R3, ?R4, ?R5, ?R6; try done.
  - eapply (G_other 0 0%N); try done; [rewrite R0; apply frame_refl| |].
    + intros k'. rewrite R2, elem_of_app. intros [?|Hk]; [by left|right]. unfold submitted in Hk.
      destruct (is_task k) eqn:Et; [|by apply not_elem_of_nil in Hk]. by apply list_elem_of_singleton in Hk as ->.
    + intros r Hr He. eapply run_ok_ext; [done|by rewrite R0|by apply I1].
  - rewrite R2, I2. solve_Permutation.
  - intros Hl (t & r & Hr & He). destruct (Hlate Hl) as [Hl' Hnq]. exfalso. rewrite R0 in He. rewrite R1 in Hr.
    assert (ended (h_s h)) as Hen by (exists t, r; done). by apply Hnq; [|apply I8].
Qed.

Lemma HInv_enter t r' s' h :
  HInv h -> runs (h_s h) !! t = None -> t ∈ m_rootThread (h_s h) :: m_threads (h_s h) -> G s' ->
  at_ r' = Fetching -> state_of (idle_fiber r') (w s') = Some READY -> no_new_term (fun _ => False) (w (h_s h)) (w s') ->
  runs s' = <[t := r']> (runs (h_s h)) -> m_fibers s' = m_fibers (h_s h) ->
  m_activeThreadCount s' = m_activeThreadCount (h_s h) -> m_idleThreadCount s' = m_idleThreadCount (h_s h) ->
  m_threads s' = m_threads (h_s h) -> m_rootThread s' = m_rootThread (h_s h) -> m_stopping s' = m_stopping (h_s h) ->
  HInv (now s' h).
Proof.
  intros [I1 I2 I3 I4 I5 I6 I7 I8] Hr Ht HG Ha Hst Hn R1 R2 R3 R4 R5 R6 R7.
  assert (held r' = [] /\ idling r' = []) as [H1 H2] by (unfold held, idling; by rewrite Ha).
  assert (collect held (runs s') ≡ₚ collect held (runs (h_s h)) /\ collect idling (runs s') ≡ₚ collect idling (runs (h_s h))) as [C1 C2].
  { rewrite R1, !collect_insert, H1, H2, delete_id by done. done. }
  split; cbn [h_s h_submitted h_executed h_late now]; rewrite ?R2, ?R3, ?R4, ?R5, ?R6; try done.
  - by rewrite C1.
  - by rewrite (zlen_perm _ _ C1).
  - by rewrite (zlen_perm _ _ C2).
  - intros t' k [Hk|(r & Hr' & Hk)]; [by eauto|]. rewrite R1, lookup_insert in Hr'. destruct (decide (t = t')) as [<-|]; [|eauto].
    injection Hr' as <-. rewrite H1 in Hk. by apply not_elem_of_nil in Hk.
  - intros t'. rewrite R1, lookup_insert. destruct (decide (t = t')) as [<-|]; [done|auto].
  - intros Hl (t' & r & Hr' & He). destruct (I8 Hl) as (Q1 & Q2 & Q3).
    + rewrite R1, lookup_insert in Hr'. destruct (decide (t = t')) as [<-|].
      * injection Hr' as <-. destruct He; congruence.
      * exists t', r. split; [done|]. destruct He as [|He]; [by left|right]. apply Hn; [tauto| |done].
        rewrite (ro_idle _ _ _ (g_runs _ I1 t' r Hr')). eauto.
    + split; [congruence|]. split; [congruence|]. rewrite Q3 in C1. by apply Permutation_nil_r in C1.
Qed.

Lemma sstep_inv cfg h h' : hstep cfg h h' -> HInv h -> HInv h'.
Proof.
  intros Hst HI. pose proof (hi_G _ HI) as HG.
  assert (forall r' s' t r, runs (h_s h) !! t = Some r -> runs s' = <[t := r']> (runs (h_s h)) -> idle_fiber r' = idle_fiber r ->
    no_new_term (fun _ => False) (w (h_s h)) (w s') -> (at_ r' = Left -> state_of (idle_fiber r) (w (h_s h)) = Some TERM) ->
    ended s' -> ended (h_s h)) as Hend.
  { intros r' s' t r Hr Hr' Hi Hn HL (t1 & r1 & Hr1 & He). rewrite Hr', lookup_insert in Hr1.
    assert (forall t2 r2, runs (h_s h) !! t2 = Some r2 -> state_of (idle_fiber r2) (w s') = Some TERM -> state_of (idle_fiber r2) (w (h_s h)) = Some TERM) as Hb.
    { intros t2 r2 H2 Hs. apply Hn; [tauto|rewrite (ro_idle _ _ _ (g_runs _ HG t2 r2 H2)); eauto|done]. }
    destruct (decide (t = t1)) as [<-|].
    - injection Hr1 as <-. exists t, r. split; [done|]. right. destruct He as [|He]; [auto|]. rewrite Hi in He. by eapply Hb.
    - exists t1, r1. split; [done|]. destruct He as [|He]; [by left|right]. by eapply Hb. }
  destruct Hst as [t idle s' Hr Hc E|t r s' Hr Hh Ha E|t r k s' Hr Hh Ha E|t r Hr Hh|t r s' Hr Hh Ha Hl E|t k Hb Hv|k Hv|c f s' E
    |t s' Hb E|t f s' Hb Hf E|t r s' Hr HL E|t s' Hr He E|t r f s' Hr He Ha Ht Hf E].
  - apply run_enter_ok in E as (f & G' & R1 & R2 & R3 & R4 & R5 & R6 & R7 & R8 & R9); [|done|done|naive_solver].
    apply (HInv_enter t (MkLocals f None Fetching)); try done. destruct Hc as [(_ & ? & _)|(<- & _)]; [by right|by left].
  - destruct (fetch_ok t r _ s' HG Hr Hh Ha E) as (r' & G' & B & W & Hi & HL & Hp).
    replace (now s' h) with (MkHistory s' (h_submitted h) (h_executed h ++ ((fun k => (t, k)) <$> [])) (h_late h))
      by (unfold now; by rewrite app_nil_r).
    eapply HInv_booked; try done; [intros k; rewrite app_nil_r; apply Hp|].
    eapply Hend; [done|by apply B|done|by rewrite W; intros g|done].
  - destruct (dispatch_ok cfg t r k _ s' HG Hr Hh Ha E) as (r' & G' & B & Hi & _ & Hh' & HL & Hn).
    replace (now s' h) with (MkHistory s' (h_submitted h) (h_executed h ++ ((fun k => (t, k)) <$> [])) (h_late h))
      by (unfold now; by rewrite app_nil_r).
    eapply HInv_booked; try done; [|by eapply Hend; [|apply B| | |]].
    intros k' Hk. rewrite app_nil_r, Hh' in Hk. apply (hi_pin _ HI). eauto.
  - destruct (cur r) eqn:Hcur.
    + destruct (back_ok t r _ HG Hr Hh) as (r' & G' & B & W & Hi & HL & Hh'); [by rewrite Hcur|].
      replace (if in_task r then (fun k => (t, k)) <$> held r else []) with ((fun k => (t, k)) <$> (if in_task r then held r else []))
        by (by destruct (in_task r)).
      eapply HInv_booked; try done; [|by eapply Hend; [|apply B| |rewrite W; intros g|]].
      intros k Hk. rewrite Hh' in Hk. apply (hi_pin _ HI). right. exists r. split; [done|]. destruct (in_task r); [done|by apply not_elem_of_nil in Hk].
    + assert (in_task r = false) as -> by (unfold cur in Hcur; unfold in_task; by destruct (at_ r)).
      assert (back t r (h_s h) = h_s h) as -> by (unfold cur in Hcur; unfold back; by destruct (at_ r)).
      rewrite app_nil_r. by destruct h.
  - destruct (idle_round_ok t r _ s' HG Hr Hh Ha Hl E) as (x & -> & G' & Hn).
    destruct (stopping (h_s h)) eqn:Es; [|eapply HInv_world; [done|done|done|by intros]].
    apply HInv_same; try done. intros _ _. by apply stopping_quiet.
  - apply HInv_submit; try done. intros Hl. split; [done|]. intros He (_ & _ & Q3).
    unfold busy in Hb. destruct (runs (h_s h) !! t) as [r|] eqn:Hr; [|done].
    apply andb_true_iff in Hb as [[Hi _]%andb_true_iff _]. pose proof (collect_lookup held _ _ _ Hr) as C. rewrite Q3 in C.
    apply Permutation_nil_l in C. symmetry in C. apply app_nil in C as [C _]. unfold held in C. unfold in_task in Hi. by destruct (at_ r).
  - apply HInv_submit; try done. intros [Hl Hs]%orb_false_iff. split; [done|]. intros He (Q1 & _). congruence.
  - destruct (new_ok cfg c f _ s' HG E) as (x & -> & G' & Hn). eapply HInv_world; eauto.
  - destruct (user_yield_ok t _ s' HG Hb E) as (x & -> & G' & Hn). eapply HInv_world; eauto.
  - destruct (user_finish_ok t f _ s' HG Hb Hf E) as (x & -> & G' & Hn). eapply HInv_world; eauto.
    intros t' r Hr [_ Hnot]. by apply (Hnot t' r).
  - apply on_fibers_inv in E as (x & E & ->). destruct (switch_ok t r _ x HG Hr HL E) as [G' Hs].
    eapply (HInv_world (fun _ => False)); eauto. intros g _ _. by rewrite Hs.
  - destruct (stop_ok t _ s' HG Hr He E) as (G' & R1 & R2 & R3 & R4 & R5 & R6 & R7 & R8). apply HInv_same; try done.
    intros Hl (t' & r & Hr' & Hx). apply HI; [done|]. rewrite R1 in Hr'. exists t', r. split; [done|].
    destruct Hx as [|Hx]; [by left|right]. apply R8; [tauto|rewrite (ro_idle _ _ _ (g_runs _ HG t' r Hr')); eauto|done].
  - destruct (root_ends_ok t r f _ s' HG Hr He Ha Hf E) as (x & -> & G' & Hn). eapply HInv_world; eauto.
    intros t' r' Hr' Hx. pose proof (ro_idle _ _ _ (g_runs _ HG t' r' Hr')) as Hk. rewrite Hx, (g_root _ HG f Hf) in Hk. done.
Qed.

Lemma start_inv cfg threads use_call t run x s s' tids :
  create cfg threads use_call t run nothing = Ret s x -> start tids s = Ret tt s' -> zlen tids < 2 ^ 63 ->
  HInv (MkHistory s' [] [] false).
Proof.
  intros E1 E2 Hlen. assert (ctx_ok nothing /\ ids_ok nothing) as [Hc0 Hi0].
  { split; [intros f F|intros f [F HF]]; cbn in *; by rewrite lookup_empty in *. }
  assert (forall x root rt tc, ctx_ok x -> ids_ok x -> (forall f, root = Some f -> kind f x = Some (true, false)) ->
    forall ids, HInv (MkHistory (MkSched x [] tids ids tc 0 0 root rt false (match root with Some _ => [t] | None => [] end) ∅ 0) [] [] false)) as Hgo.
  { intros y root rt tc Hc Hi Hroot ids. split; cbn [h_s h_submitted h_executed h_late m_fibers runs m_threads]; try done.
    - split; cbn; [done|done|intros t' r Hr; by rewrite lookup_empty in Hr|by intros k ?%not_elem_of_nil|done].
    - intros t' k [?%not_elem_of_nil|(r & Hr & _)]; [done|]. by rewrite lookup_empty in Hr.
    - intros t' [r Hr]. by rewrite lookup_empty in Hr.
    - intros _ (t' & r & Hr & _). cbn in Hr. by rewrite lookup_empty in Hr. }
  unfold create in E1. destruct (threads <=? 0); [done|]. destruct use_call.
  - destruct (GetThis_first t 0%N nothing Hi0 eq_refl) as (x1 & G1 & F1 & _ & K1 & _). rewrite G1 in E1. cbn [obind] in E1.
    destruct (new_fiber_frame cfg (Some run) 0 false x1 t 0%N) as (x2 & N1 & F2 & _ & K2 & _); [by eapply fr_ids|].
    rewrite N1 in E1. cbn [obind] in E1. injection E1 as <- <-. unfold start in E2. cbn in E2. injection E2 as <-.
    apply (Hgo _ (Some (s_fiberId x1))); [| |by intros f [= <-]].
    + eapply fr_ctx; [apply (frame_put_cpu t 0%N)|]. eapply fr_ctx; [done|]. by eapply fr_ctx.
    + eapply fr_ids; [apply (frame_put_cpu t 0%N)|]. eapply fr_ids; [done|]. by eapply fr_ids.
  - injection E1 as <- <-. unfold start in E2. cbn in E2. injection E2 as <-. by apply (Hgo nothing None).
Qed.

Lemma sreach_inv cfg h : hreach cfg h -> HInv h.
Proof. induction 1; [by eapply start_inv|by eapply sstep_inv]. Qed.

(** ** Histories by computation *)

Definition nameableb (f : N) (s : sched) : bool :=
  bool_decide (kind f (w s) = Some (true, true)) && forallb (fun p => negb (idle_fiber (snd p) =? f)%N) (map_to_list (runs s)).
Definition validb (k : SchedulerTask) (s : sched) : bool := match fiber k with Some f => nameableb f s | None => true end.

Lemma validb_ok k s : validb k s = true -> valid k s.
Proof.
  unfold validb. intros Hb f Hf. rewrite Hf in Hb. apply andb_true_iff in Hb as [Hk%bool_decide_eq_true Hi].
  split; [done|]. intros t r Hr Heq. rewrite forallb_forall in Hi. specialize (Hi (t, r)). cbn in Hi. rewrite Heq, N.eqb_refl in Hi.
  discriminate Hi. by apply list_elem_of_In, elem_of_map_to_list.
Qed.

(** What happens next: whether it can, and what it does. *)
Inductive move :=
| MEnter (t : Z) (idle : N) | MFetch (t : Z) | MDispatch (t : Z) | MBack (t : Z) | MIdle (t : Z)
| MSubmit (t : Z) (k : SchedulerTask) | MOutside (k : SchedulerTask) | MNew (c : N)
| MYield (t : Z) | MFinish (t : Z) | MSwitch (t : Z) | MStop (t : Z) | MRootEnds (t : Z).

Definition place_of (t : Z) (s : sched) : option place := at_ <$> runs s !! t.

(** The moves that the code can make in a state.  [stop] is called by a thread that
    is not inside [run]. *)
Definition enabled (m : move) (s : sched) : bool :=
  let c t := thread t (w s) in
  match m with
  | MEnter t _ =>
      bool_decide (runs s !! t = None)
      && (bool_decide (m_rootThread s <> t /\ t ∈ m_threads s /\ cpus (w s) !! t = None)
          || bool_decide (m_rootThread s = t /\ is_Some (m_rootFiber s) /\ executing (c t) = m_rootFiber s
               /\ t_scheduler_fiber (c t) = m_rootFiber s /\ leaving (c t) = None))
  | MFetch t => match place_of t s with Some Fetching => home t s | _ => false end
  | MDispatch t => match place_of t s with Some (Took _) => home t s | _ => false end
  | MBack t => bool_decide (is_Some (runs s !! t)) && home t s
  | MIdle t => match place_of t s with Some InIdle => negb (home t s) && bool_decide (leaving (c t) = None) | _ => false end
  | MSubmit t k => busy t s && validb k s
  | MOutside k => validb k s
  | MNew _ => true
  | MYield t | MFinish t => busy t s && bool_decide (is_Some (executing (c t)))
  | MSwitch t => match place_of t s with Some Left | None => false | Some _ => bool_decide (is_Some (leaving (c t))) end
  | MStop t => bool_decide (runs s !! t = None) && bool_decide (executing (c t) = t_threadFiber (c t))
  | MRootEnds t =>
      match place_of t s with
      | Some Left => bool_decide (m_rootThread s = t /\ is_Some (m_rootFiber s) /\ executing (c t) = m_rootFiber s)
      | _ => false
      end
  end.

Definition perform (cfg : Z) (m : move) : M sched unit := fun s =>
  match m with
  | MEnter t idle => run_enter cfg t idle s
  | MFetch t => match runs s !! t with Some r => fetch t r s | None => UB end
  | MDispatch t => match runs s !! t with
                   | Some r => match at_ r with Took k => dispatch cfg t r k s | _ => UB end
                   | None => UB
                   end
  | MBack t => match runs s !! t with Some r => Ret tt (back t r s) | None => UB end
  | MIdle t => match runs s !! t with Some r => idle_round t r s | None => UB end
  | MSubmit _ k | MOutside k => Ret tt (schedule k s)
  | MNew c => let* _, s := on_fibers (new_fiber cfg (Some c) 0 true) s in Ret tt s
  | MYield t => on_fibers (fun x => let* f, x := GetThis t x in yield_enter t f x) s
  | MFinish t => match executing (thread t (w s)) with Some f => on_fibers (finish_enter t f) s | None => UB end
  | MSwitch t => on_fibers (yield_switch t) s
  | MStop t => stop t s
  | MRootEnds t => match m_rootFiber s with Some f => on_fibers (finish t f) s | None => UB end
  end.

(** The history after the move has led to [s]. *)
Definition record (m : move) (h : history) (s : sched) : history :=
  match m with
  | MBack t => MkHistory s (h_submitted h)
                 (h_executed h ++ match runs (h_s h) !! t with
                                  | Some r => if in_task r then (fun k => (t, k)) <$> held r else []
                                  | None => []
                                  end) (h_late h)
  | MSubmit _ k => MkHistory s (h_submitted h ++ submitted k) (h_executed h) (h_late h)
  | MOutside k => MkHistory s (h_submitted h ++ submitted k) (h_executed h) (h_late h || m_stopping (h_s h))
  | _ => now s h
  end.

Definition play (cfg : Z) (m : move) (h : history) : option history :=
  if enabled m (h_s h) then match perform cfg m (h_s h) with Ret _ s => Some (record m h s) | _ => None end else None.

Lemma play_inv cfg m h h' : play cfg m h = Some h' ->
  enabled m (h_s h) = true /\ exists s', perform cfg m (h_s h) = Ret tt s' /\ h' = record m h s'.
Proof.
  unfold play. destruct (enabled m (h_s h)); [|done]. destruct (perform cfg m (h_s h)) as [[] s'| | |]; try done. intros [= <-]. eauto.
Qed.

Lemma place_of_inv t s a : place_of t s = Some a -> exists r, runs s !! t = Some r /\ at_ r = a.
Proof. unfold place_of. destruct (runs s !! t); [|done]. intros [= <-]. eauto. Qed.

Lemma play_ok cfg m h h' : play cfg m h = Some h' -> hstep cfg h h'.
Proof.
  intros (He & s' & E & ->)%play_inv.
  destruct m as [t idle|t|t|t|t|t k|k|k|t|t|t|t|t]; cbn [enabled perform record] in *.
  - apply andb_true_iff in He as [Hr%bool_decide_eq_true Hc]. eapply h_enter; eauto.
    apply orb_true_iff in Hc as [Hc%bool_decide_eq_true|Hc%bool_decide_eq_true]; auto.
  - destruct (place_of t _) as [[]|] eqn:Hp; try done. apply place_of_inv in Hp as (r & Hr & Ha). rewrite Hr in E. by eapply h_fetch.
  - destruct (place_of t _) as [[]|] eqn:Hp; try done. apply place_of_inv in Hp as (r & Hr & Ha). rewrite Hr, Ha in E. by eapply h_dispatch.
  - apply andb_true_iff in He as [[r Hr]%bool_decide_eq_true Hh]. rewrite Hr in E. injection E as <-. rewrite Hr. by apply h_back.
  - destruct (place_of t _) as [[]|] eqn:Hp; try done. apply place_of_inv in Hp as (r & Hr & Ha). rewrite Hr in E.
    apply andb_true_iff in He as [Hh%negb_true_iff Hl%bool_decide_eq_true]. by eapply h_idle.
  - apply andb_true_iff in He as [Hb Hv%validb_ok]. injection E as <-. by eapply h_submit.
  - apply validb_ok in He. injection E as <-. by apply h_outside.
  - apply obind_inv in E as (f & s1 & E & [= <-]). by eapply h_new.
  - apply andb_true_iff in He as [Hb _]. by eapply h_yield.
  - apply andb_true_iff in He as [Hb [f Hf]%bool_decide_eq_true]. rewrite Hf in E. by eapply h_finish.
  - destruct (place_of t _) as [a|] eqn:Hp; [|done]. apply place_of_inv in Hp as (r & Hr & Ha). eapply h_switch; eauto. by destruct a; rewrite Ha.
  - apply andb_true_iff in He as [Hr%bool_decide_eq_true Hx%bool_decide_eq_true]. by eapply h_stop.
  - destruct (place_of t _) as [[]|] eqn:Hp; try done. apply place_of_inv in Hp as (r & Hr & Ha).
    apply bool_decide_eq_true in He as (H1 & [f Hf] & H3). rewrite Hf in *. by eapply h_root_ends.
Qed.

Definition play_all (cfg : Z) (ms : list move) (h : history) : option history :=
  foldl (fun o m => o ≫= play cfg m) (Some h) ms.

Lemma play_all_ok cfg ms h h' : hreach cfg h -> play_all cfg ms h = Some h' -> hreach cfg h'.
Proof.
  revert h. unfold play_all. induction ms as [|m ms IH]; intros h Hr; cbn; [by intros [= <-]|].
  destruct (play cfg m h) as [h1|] eqn:E.
  - apply IH. eapply hreach_step; [done|]. by eapply play_ok.
  - intros Hx. exfalso. clear -Hx. induction ms; cbn in *; [done|auto].
Qed.

(** ** Properties *)

(** C13. Every task is executed exactly once, by a thread that may run it.  For
    any number of threads, every interleaving of their steps and every
    program: the tasks that were ever submitted are those in the queue, those
    in the hands of a thread and those that were executed, with multiplicity;
    a task bound to a thread was executed by that thread; the counters are
    the numbers of busy and of idle threads; and when the run loop of a
    thread has ended, as [stop] waits for, nothing is left over: all tasks
    were executed, unless some were submitted from outside after [stop]. *)
Theorem tasks_accounted (cfg : Z) (h : history) :
  hreach cfg h ->
  h_submitted h ≡ₚ m_fibers (h_s h) ++ collect held (runs (h_s h)) ++ (h_executed h).*2
  /\ (forall t k, (t, k) ∈ h_executed h -> runs_on t k)
  /\ m_activeThreadCount (h_s h) = u64 (zlen (collect held (runs (h_s h))))
  /\ m_idleThreadCount (h_s h) = u64 (zlen (collect idling (runs (h_s h))))
  /\ (h_late h = false -> forall t r, runs (h_s h) !! t = Some r -> at_ r = Left ->
        m_stopping (h_s h) = true /\ h_submitted h ≡ₚ (h_executed h).*2).
Proof.
  intros HI%sreach_inv. split; [apply HI|]. split; [intros t k Hk; apply (hi_pin _ HI); by left|]. split; [apply HI|]. split; [apply HI|].
  intros Hl t r Hr Ha. destruct (hi_quiet _ HI Hl) as (Q1 & Q2 & Q3); [exists t, r; auto|].
  split; [done|]. by rewrite (hi_tasks _ HI), Q2, Q3.
Qed.

(** Two threads share three tasks: a fiber that schedules itself again before
    it yields, a callback, and a callback bound to the second thread. *)
Definition two_threads : history :=
  match create 131072 2 false 0 0 nothing with
  | Ret s _ => match start [1; 2] s with Ret _ s => MkHistory s [] [] false | _ => MkHistory s [] [] false end
  | _ => MkHistory (MkSched nothing [] [] [] 0 0 0 None (-1) false [] ∅ 0) [] [] false
  end.
Definition work (t : Z) : list move := [MFetch t; MDispatch t; MFinish t; MSwitch t; MBack t].
Definition leave (t : Z) : list move := [MFetch t; MDispatch t; MIdle t; MBack t; MFetch t; MDispatch t].
Definition day : list move :=
  [MEnter 1 0; MEnter 2 0; MNew 7; MOutside (MkTask (Some 4%N) None (-1)); MOutside (MkTask None (Some 8%N) 2);
   MFetch 1; MDispatch 1; MSubmit 1 (MkTask None (Some 9%N) (-1)); MYield 1; MSwitch 1; MBack 1]
  ++ work 2 ++ work 1 ++ [MOutside (MkTask (Some 4%N) None (-1))] ++ work 2 ++ [MStop 0] ++ leave 1 ++ leave 2.
Definition evening : history := default two_threads (play_all 131072 day two_threads).

Lemma two_threads_reached : hreach 131072 two_threads.
Proof. eapply (hreach_start _ 2 false 0 0 nothing _ _ [1; 2]); [vm_compute; reflexivity|vm_compute; reflexivity|by vm_compute]. Qed.

Lemma evening_reached : hreach 131072 evening.
Proof. eapply (play_all_ok _ day); [apply two_threads_reached|vm_compute; reflexivity]. Qed.

Lemma tasks_accounted_witness :
  m_stopping (h_s evening) = true
  /\ [MkTask (Some 4%N) None (-1); MkTask None (Some 8%N) 2; MkTask None (Some 9%N) (-1); MkTask (Some 4%N) None (-1)]
     ≡ₚ (h_executed evening).*2.
Proof.
  destruct (tasks_accounted 131072 evening evening_reached) as (_ & _ & _ & _ & H).
  exact (H eq_refl 1 (MkLocals 1 None Left) ltac:(vm_compute; reflexivity) eq_refl).
Defined.

(** *** Behaviour outside those conditions *)

(** [run] does not skip fibers that are still running (the check is commented
    out): a fiber that schedules itself and then yields can be taken by
    another thread in between.  Before the [yield] the assertion of [resume]
    ends the process; inside it, the fiber runs on two threads at once. *)
Theorem self_scheduling_races :
  exists h1 h2 : history, hreach 131072 h1 /\ hreach 131072 h2
    /\ (exists s, perform 131072 (MDispatch 2) (h_s h1) = Throw AssertFailed s)
    /\ perform 131072 (MDispatch 2) (h_s h2) = UB.
Proof.
  set (self := MkTask (Some 4%N) None (-1)).
  set (before := [MEnter 1 0; MEnter 2 0; MNew 7; MOutside self; MFetch 1; MDispatch 1; MSubmit 1 self]).
  eexists _, _. split; [|split; [|split]].
  - eapply (play_all_ok _ (before ++ [MFetch 2])); [apply two_threads_reached|vm_compute; reflexivity].
  - eapply (play_all_ok _ (before ++ [MYield 1; MFetch 2])); [apply two_threads_reached|vm_compute; reflexivity].
  - eexists. vm_compute. reflexivity.
  - vm_compute. reflexivity.
Qed.

(** A task bound to a thread that the scheduler does not have stays in the
    queue for ever, and [stopping()] is never true. *)
Theorem foreign_task_never_runs (cfg : Z) (h : history) (k : SchedulerTask) :
  hreach cfg h -> k ∈ h_submitted h -> task_thread k <> -1 -> task_thread k ∉ m_rootThread (h_s h) :: m_threads (h_s h) ->
  k ∈ m_fibers (h_s h) /\ stopping (h_s h) = false.
Proof.
  intros HI%sreach_inv Hk Hne Hout. assert (k ∈ m_fibers (h_s h)) as Hq.
  { assert (forall t, ~ (runs_on t k /\ t ∈ m_rootThread (h_s h) :: m_threads (h_s h))) as Hno.
    { intros t [[?|<-] ?]; auto. }
    rewrite (hi_tasks _ HI), !elem_of_app in Hk. destruct Hk as [?|[Hk|Hk]]; [done| |]; exfalso.
    - unfold collect in Hk. apply list_elem_of_bind in Hk as ([t r] & Hh & Hr%elem_of_map_to_list).
      eapply Hno, (hi_pin _ HI t). right. eauto.
    - apply list_elem_of_fmap in Hk as ([t k'] & -> & Hk). eapply Hno, (hi_pin _ HI t). by left. }
  split; [done|]. unfold stopping. apply andb_false_iff. left. apply andb_false_iff. right. apply bool_decide_eq_false.
  intros Hn. rewrite Hn in Hq. by apply not_elem_of_nil in Hq.
Qed.

End Scheduler.
