(* ===== verification/SchedulerSafety.v ===== *)
(** * A scheduler with one thread is safe

    The moves of [Scheduler] for programs that follow the discipline of the
    framework: a fiber is submitted while it is suspended and not submitted
    yet, or by itself before it yields.  On one thread, pool or caller's, no
    such program makes an assertion fail or a context be loaded twice, and
    [stop] can always come to its end. *)
From S2P Require Import Prelude Fiber Scheduler.
Local Open Scope Z_scope.

Module SchedulerSafety.
Import Fiber Scheduler.

(** The fibers in the queue. *)
Definition queued (s : sched) : list N := omap fiber (m_fibers s).
Definition taken (t : Z) (s : sched) : option N :=
  match place_of t s with Some (Took k) => fiber k | _ => None end.

(** What the program may do on thread [t]. *)
Definition disciplined (t : Z) (m : move) (s : sched) : bool :=
  match m with
  | MSubmit _ (MkTask (Some f) _ _) =>
      bool_decide (f ∉ queued s)
      && (bool_decide (executing (thread t (w s)) = Some f) || bool_decide (state_of f (w s) = Some READY))
  | MOutside (MkTask (Some f) _ _) =>
      bool_decide (f ∉ queued s) && bool_decide (state_of f (w s) = Some READY) && bool_decide (taken t s <> Some f)
  | MFinish _ => match executing (thread t (w s)) with Some f => bool_decide (f ∉ queued s) | None => false end
  | MStop t' => if m_rootFiber s is Some _ then bool_decide (t' = t) else bool_decide (t' <> t)
  | _ => true
  end.

(** One thread [t]: the caller's, or a pool of one. *)
Definition one_thread (cfg t : Z) (caller : bool) (run : N) : option history :=
  match create cfg 1 caller (if caller then t else t + 1) run nothing with
  | Ret s _ => match start (if caller then [] else [t]) s with Ret _ s => Some (MkHistory s [] [] false) | _ => None end
  | _ => None
  end.

Inductive dreach (cfg t : Z) : history -> Prop :=
| dreach_start caller run h : 0 < t -> one_thread cfg t caller run = Some h -> dreach cfg t h
| dreach_step m h h' : dreach cfg t h -> disciplined t m (h_s h) = true -> play cfg m h = Some h' -> dreach cfg t h'.

(** ** Invariant *)

(** Inside [run]. *)
Record D (t : Z) (sf : N) (s : sched) : Prop := {
  d_fib : Fiber.Inv t sf (w s);
  d_runs : forall t', is_Some (runs s !! t') -> t' = t;
  d_nodup : NoDup (queued s);
  d_ready : forall f, f ∈ queued s -> state_of f (w s) = Some READY
              \/ executing (thread t (w s)) = Some f /\ f <> sf /\ state_of f (w s) = Some RUNNING;
  d_took : forall f, taken t s = Some f -> state_of f (w s) = Some READY /\ f ∉ queued s;
  d_sf : exists b, kind sf (w s) = Some b /\ b <> (true, true);
  d_main : exists mf, t_threadFiber (thread t (w s)) = Some mf /\ kind mf (w s) = Some (false, true)
             /\ (mf <> sf -> exists F, fibers (w s) !! mf = Some F /\ m_context F = Some mf);
  d_threads : forall t', t' ∈ m_threads s -> t' = t;
  d_root : m_rootFiber s = None /\ m_rootThread s <> t /\ t_scheduler s = [t]
           \/ m_rootFiber s = Some sf /\ m_rootThread s = t /\ kind sf (w s) = Some (true, false);
}.

(** Before the thread enters [run]: all fibers of programs are suspended. *)
Record Pre (t : Z) (s : sched) : Prop := {
  p_runs : runs s = ∅;
  p_threads : forall t', t' ∈ m_threads s -> t' = t;
  p_nodup : NoDup (queued s);
  p_ready : forall f, f ∈ queued s -> state_of f (w s) = Some READY;
  p_mode : (m_rootFiber s = None /\ m_rootThread s <> t /\ t_scheduler s = [] /\ cpus (w s) = ∅
            /\ forall f F, fibers (w s) !! f = Some F -> m_stack F = true /\ m_runInScheduler F = true /\ rests f F)
        \/ exists root mf R, m_rootFiber s = Some root /\ m_rootThread s = t /\ t_scheduler s = [t]
             /\ thread t (w s) = MkCpu (Some mf) (Some mf) (Some root) (Some mf) None /\ mf <> root
             /\ kind mf (w s) = Some (false, true) /\ fibers (w s) !! root = Some R
             /\ m_stack R = true /\ m_runInScheduler R = false /\ m_state R = READY /\ m_context R = Some root
             /\ forall f F, fibers (w s) !! f = Some F -> f <> root -> f <> mf ->
                  m_stack F = true /\ m_runInScheduler F = true /\ rests f F;
}.

(** The caller's thread after [stop]. *)
Definition Over (t : Z) (s : sched) : Prop :=
  (forall t', is_Some (runs s !! t') -> t' = t) /\ place_of t s = Some Left /\ m_rootThread s = t
  /\ executing (thread t (w s)) <> m_rootFiber s /\ home t s = false /\ is_Some (m_rootFiber s)
  /\ forall t', t' ∈ m_threads s -> t' = t.

Definition DInv (t : Z) (h : history) : Prop :=
  HInv h /\ (Pre t (h_s h) \/ (exists sf, D t sf (h_s h)) \/ Over t (h_s h)).

Lemma user_of_kind t sf f s : D t sf s -> kind f (w s) = Some (true, true) -> user t sf f (w s) = true.
Proof.
  intros HD Hk. unfold user. apply bool_decide_eq_true. destruct (d_sf _ _ _ HD) as (b & Hb & Hne).
  destruct (d_main _ _ _ HD) as (mf & Hm & Hmk & _).
  split; [|split; [intros ->; congruence|rewrite Hm; intros [= ->]; congruence]].
  unfold kind in Hk. destruct (fibers (w s) !! f); [eauto|done].
Qed.

Lemma sched_fiber t sf s : D t sf s -> t_scheduler_fiber (thread t (w s)) = Some sf.
Proof. intros HD. apply (d_fib _ _ _ HD). Qed.

Lemma home_one t sf s : D t sf s -> home t s = true <-> executing (thread t (w s)) = Some sf.
Proof.
  intros HD. rewrite home_spec, (sched_fiber t sf s HD). split; [intros (x & -> & [= ->]); done|eauto].
Qed.

(** A fiber operation of thread [t] inside [run] that changes the state of
    [f] only; the queue and the locals may change as stated. *)
Lemma D_moved t sf f x e s s' :
  D t sf s -> moved t f x e (w s) (w s') -> Fiber.Inv t sf (w s') ->
  kind f (w s) <> Some (false, true) ->
  m_fibers s' = m_fibers s -> (forall t', is_Some (runs s' !! t') -> t' = t) ->
  m_rootFiber s' = m_rootFiber s -> m_rootThread s' = m_rootThread s -> t_scheduler s' = t_scheduler s -> m_threads s' = m_threads s ->
  taken t s' = None ->
  (forall g, g ∈ queued s -> g <> f -> state_of g (w s) = Some READY) ->
  (f ∈ queued s -> x = READY \/ x = RUNNING /\ e = f /\ f <> sf) ->
  D t sf s'.
Proof.
  intros [H1 H2 H3 H4 H5 H6 H7 H9 H8] [M1 M2 M3 M4 M5 M6 M7] Hinv Hk Q1 R1 R2 R3 R4 R5 Ht Hq Hf.
  assert (queued s' = queued s) as Hqq by (unfold queued; by rewrite Q1).
  split; rewrite ?Hqq, ?Ht; try done.
  - intros g Hg. destruct (decide (g = f)) as [->|Hne].
    + destruct (Hf Hg) as [->|(-> & -> & Hfs)]; [by left|right]. by rewrite M3, M1.
    + left. rewrite M2 by done. auto.
  - destruct H6 as (b & Hb & ?). exists b. by rewrite M6.
  - destruct H7 as (mf & Hm & Hmk & Hc). exists mf. rewrite M4. split; [done|]. split; [by rewrite M6|].
    intros Hne. rewrite M7; [auto|congruence|]. rewrite (inv_sf _ _ _ H1). congruence.
  - by rewrite R5.
  - rewrite R2, R3, R4. destruct H8 as [?|(? & ? & ?)]; [by left|right]. by rewrite M6.
Qed.

(** ** The moves of a thread inside [run] *)

(** The world and the queue stay; only the locals change. *)
Lemma D_locals t sf s s' :
  D t sf s -> w s' = w s -> (forall t', is_Some (runs s' !! t') -> t' = t) -> m_rootFiber s' = m_rootFiber s ->
  m_rootThread s' = m_rootThread s -> (m_rootFiber s = None -> t_scheduler s' = t_scheduler s) -> m_threads s' = m_threads s ->
  NoDup (queued s') ->
  (forall f, f ∈ queued s' -> f ∈ queued s) ->
  (forall f, taken t s' = Some f -> state_of f (w s) = Some READY /\ f ∉ queued s') -> D t sf s'.
Proof.
  intros [H1 H2 H3 H4 H5 H6 H7 H9 H8] Hw R1 R2 R3 R4 R5 Hn Hq Ht. split; rewrite ?Hw, ?R2, ?R3, ?R5; auto.
  destruct H8 as [(? & ? & <-)|?]; [left; auto|by right].
Qed.

Lemma runs_insert t r s : (forall t', is_Some (runs s !! t') -> t' = t) -> forall t', is_Some (<[t := r]> (runs s) !! t') -> t' = t.
Proof. intros H t'. rewrite lookup_insert. case_decide; [done|apply H]. Qed.

Lemma D_fetch t sf s r : G s -> D t sf s -> runs s !! t = Some r -> home t s = true -> at_ r = Fetching ->
  exists s', fetch t r s = Ret tt s' /\ D t sf s'.
Proof.
  intros HG HD Hr Hh Ha. unfold fetch. destruct (search t (m_fibers s)) as [[o q] tell] eqn:Es.
  apply search_spec in Es as (Q1 & Q2 & _).
  set (s1 := if tell then tickle 1 s else s). assert (w s1 = w s /\ runs s1 = runs s /\ m_fibers s1 = m_fibers s
    /\ m_rootFiber s1 = m_rootFiber s /\ m_rootThread s1 = m_rootThread s /\ t_scheduler s1 = t_scheduler s
    /\ m_threads s1 = m_threads s) as (E1 & E2 & E3 & E4 & E5 & E6 & E7).
  { by destruct tell. }
  clearbody s1. apply (home_one t sf s HD) in Hh.
  destruct o as [k|].
  - destruct (Q1 k eq_refl) as [Hq _]. destruct (g_queue _ HG k) as [-> _]; [rewrite Hq; left|]. eexists. split; [done|].
    assert (queued s ≡ₚ option_list (fiber k) ++ omap fiber q) as Hqq.
    { unfold queued. rewrite Hq. cbn. by destruct (fiber k). }
    pose proof (d_nodup _ _ _ HD) as Hnd. rewrite Hqq in Hnd. apply NoDup_app in Hnd as (_ & Hx & Hnd).
    eapply D_locals; try done; cbn; rewrite ?E2; try done.
    + apply runs_insert, HD.
    + intros f Hf. rewrite Hqq, elem_of_app. by right.
    + intros f. unfold taken, place_of. cbn. rewrite E2, lookup_insert_eq. cbn. intros Hf. rewrite Hf in Hqq, Hx. cbn in *.
      split; [|by apply Hx; left]. destruct (d_ready _ _ _ HD f) as [?|(? & ? & _)]; [rewrite Hqq; left|done|congruence].
  - destruct (Q2 eq_refl) as [-> _]. eexists. split; [done|]. eapply D_locals; try done; cbn; rewrite ?E2; try done.
    + apply runs_insert, HD.
    + unfold queued. cbn. rewrite E3. apply HD.
    + unfold queued. cbn. by rewrite E3.
    + intros f. unfold taken, place_of. cbn. by rewrite E2, lookup_insert_eq.
Qed.

(** The fibers of the queue are other fibers than [f] or suspended. *)
Lemma queued_others t sf s f : D t sf s -> (executing (thread t (w s)) = Some sf \/ executing (thread t (w s)) = Some f) ->
  forall g, g ∈ queued s -> g <> f -> state_of g (w s) = Some READY.
Proof. intros HD He g Hg Hne. destruct (d_ready _ _ _ HD g Hg) as [?|(H1 & H2 & _)]; [done|]. destruct He; congruence. Qed.

Lemma queued_kind s f : G s -> f ∈ queued s -> nameable f s.
Proof. intros HG (k & Hk & Hf)%list_elem_of_omap. destruct (g_queue _ HG k Hk) as [_ Hv]. by apply Hv. Qed.

Lemma D_resume t sf s f s' x' :
  D t sf s -> executing (thread t (w s)) = Some sf -> kind f (w s) = Some (true, true) -> state_of f (w s) = Some READY ->
  f ∉ queued s -> resume t f (w s) = Ret tt x' -> w s' = x' -> m_fibers s' = m_fibers s ->
  (forall t', is_Some (runs s' !! t') -> t' = t) -> m_rootFiber s' = m_rootFiber s -> m_rootThread s' = m_rootThread s ->
  t_scheduler s' = t_scheduler s -> m_threads s' = m_threads s -> taken t s' = None -> D t sf s'.
Proof.
  intros HD He Hk Hst Hq E Hw Q R1 R2 R3 R4 R5 Ht.
  destruct (resume_ok t sf f (w s) (d_fib _ _ _ HD) (user_of_kind t sf f s HD Hk) Hst He) as (x & E' & Hi & Hm & _).
  assert (x' = x) as -> by congruence. subst x. eapply D_moved; try done; [congruence|].
  eapply queued_others; [done|by left].
Qed.

Lemma resume_returns t sf s f :
  D t sf s -> executing (thread t (w s)) = Some sf -> kind f (w s) = Some (true, true) -> state_of f (w s) = Some READY ->
  exists x, resume t f (w s) = Ret tt x.
Proof.
  intros HD He Hk Hst. destruct (resume_ok t sf f (w s) (d_fib _ _ _ HD) (user_of_kind t sf f s HD Hk) Hst He) as (x & E & _). eauto.
Qed.

(** A new fiber leaves everything as it was. *)
Lemma D_new cfg t sf c s : G s -> D t sf s ->
  exists x, new_fiber cfg (Some c) 0 true (w s) = Ret (s_fiberId (w s)) x /\ D t sf (with_w x s)
    /\ kind (s_fiberId (w s)) x = Some (true, true) /\ state_of (s_fiberId (w s)) x = Some READY /\ (s_fiberId (w s) ∉ queued s)
    /\ thread t x = thread t (w s).
Proof.
  intros HG HD. destruct (new_fiber_ok cfg t sf (Some c) (w s) (d_fib _ _ _ HD)) as (x & E & Hi & Hn & Hs & Ho & Ht).
  destruct (new_fiber_frame cfg (Some c) 0 true (w s) t 0%N (g_ids _ HG)) as (x' & E' & F & Kn & K & _).
  assert (x' = x) as -> by congruence. exists x.
  assert (forall f, is_Some (kind f (w s)) -> f <> s_fiberId (w s)) as Hfresh by (intros f [? Hf] ->; congruence).
  assert (s_fiberId (w s) ∉ queued s) as Hnq.
  { intros Hq%(queued_kind _ _ HG). destruct Hq as [Hq _]. congruence. }
  split; [done|]. split; [|done]. destruct HD as [H1 H2 H3 H4 H5 H6 H7 H9 H8]. split; cbn [w with_w]; rewrite ?Ht; try done.
  - intros f Hf. rewrite Ho; [auto|]. apply Hfresh. destruct (queued_kind _ _ HG Hf) as [Hk _]. eauto.
  - intros f Hf. destruct (H5 f Hf) as [Hr ?]. split; [|done]. rewrite Ho; [done|]. intros ->. congruence.
  - destruct H6 as (b & Hb & ?). exists b. split; [by eapply fr_kind|done].
  - destruct H7 as (mf & Hm & Hmk & Hc). exists mf. split; [done|]. split; [by eapply fr_kind|]. intros Hne. destruct (Hc Hne) as (F' & HF & ?).
    exists F'. split; [|done]. injection E as <-. cbn. rewrite lookup_insert_ne; [done|]. intros Heq. apply (Hfresh mf); eauto.
  - destruct H8 as [?|(? & ? & Hk)]; [by left|right]. split; [done|]. split; [done|]. by eapply fr_kind.
Qed.

Lemma taken_insert t r s : (forall k, at_ r <> Took k) -> taken t (with_run t r s) = None.
Proof. intros H. unfold taken, place_of. cbn. rewrite lookup_insert_eq. cbn. destruct (at_ r) eqn:E; try done. by edestruct H. Qed.

Lemma D_dispatch cfg t sf s r k : G s -> D t sf s -> runs s !! t = Some r -> home t s = true -> at_ r = Took k ->
  exists s', dispatch cfg t r k s = Ret tt s' /\ D t sf s'.
Proof.
  intros HG HD Hr Hh Ha. pose proof (g_runs _ HG t r Hr) as Hok. apply (home_one t sf s HD) in Hh.
  assert (cb_fiber r = None) as Hcb by (pose proof (ro_cur _ _ _ Hok) as Hc; by rewrite Ha in Hc).
  assert (taken t s = fiber k) as Htk by (unfold taken, place_of; rewrite Hr; cbn; by rewrite Ha).
  unfold dispatch. destruct (fiber k) as [f|] eqn:Ef; [|destruct (cb k) as [c|] eqn:Ec].
  - assert (is_task k = true) as Hk by (apply bool_decide_eq_true; rewrite Ef; eauto).
    destruct (ro_task _ _ _ Hok k) as [_ Hv]; [unfold held; rewrite Ha, Hk; left|]. destruct (Hv f Ef) as [Hkind _].
    destruct (d_took _ _ _ HD f Htk) as [Hst Hq]. destruct (resume_returns t sf s f HD Hh Hkind Hst) as (x & E).
    unfold on_fibers. rewrite E. cbn [obind]. eexists. split; [done|].
    eapply (D_resume t sf s f); try done; [apply runs_insert, HD|by apply taken_insert].
  - destruct (D_new cfg t sf c s HG HD) as (x & E & HD1 & Hkind & Hst & Hq & Hth).
    unfold on_fibers at 1. rewrite Hcb, E. cbn [obind]. set (g := s_fiberId (w s)) in *.
    assert (executing (thread t (w (with_w x s))) = Some sf) as Hh1 by (cbn; by rewrite Hth).
    destruct (resume_returns t sf (with_w x s) g HD1 Hh1 Hkind Hst) as (x' & E').
    unfold on_fibers. rewrite E'. cbn [obind]. eexists. split; [done|].
    eapply (D_resume t sf (with_w x s) g); try done; [apply runs_insert, HD|by apply taken_insert].
  - assert (kind (idle_fiber r) (w s) = Some (true, true)) as Hik by apply Hok.
    destruct (decide _) as [Ht|Ht].
    + eexists. split; [done|]. eapply D_locals; try done; [apply runs_insert, HD|apply HD|by rewrite taken_insert].
    + assert (state_of (idle_fiber r) (w s) = Some READY) as Hst.
      { destruct (kind_some _ _ _ _ Hik) as (F & HF & _). rewrite (state_some _ _ _ HF) in *.
        apply (user_of_kind t sf _ s HD), user_true in Hik as (_ & Hne & Hth).
        destruct (inv_user _ _ _ (d_fib _ _ _ HD) _ F HF Hne Hth) as (_ & _ & Hrest).
        destruct Hrest as [[-> _]|?]; congruence. }
      destruct (resume_returns t sf s _ HD Hh Hik Hst) as (x & E). unfold on_fibers. cbn [w add_idle]. rewrite E. cbn [obind].
      eexists. split; [done|]. eapply (D_resume t sf s (idle_fiber r)); try done; [|apply runs_insert, HD|by apply taken_insert].
      intros Hq%(queued_kind _ _ HG). by destruct Hq as [_ Hq]; apply (Hq t r).
Qed.

Lemma D_back t sf s r : D t sf s -> runs s !! t = Some r -> D t sf (back t r s).
Proof.
  intros HD Hr. assert (forall c s0, w s0 = w s -> runs s0 = runs s -> m_fibers s0 = m_fibers s -> m_rootFiber s0 = m_rootFiber s ->
    m_rootThread s0 = m_rootThread s -> t_scheduler s0 = t_scheduler s -> m_threads s0 = m_threads s ->
    D t sf (with_run t (MkLocals (idle_fiber r) c Fetching) s0)) as Hgo.
  { intros c s0 R0 R1 R2 R3 R4 R5 R6. eapply D_locals; try done; cbn.
    - rewrite R1. apply runs_insert, HD.
    - unfold queued. cbn. rewrite R2. apply HD.
    - unfold queued. cbn. by rewrite R2.
    - by rewrite taken_insert. }
  unfold back. destruct (at_ r); try done; by apply Hgo.
Qed.

(** Off its scheduling fiber the thread runs a fiber that is in no other
    place than perhaps the queue. *)
Lemma away_one t sf s r : G s -> D t sf s -> runs s !! t = Some r -> home t s = false -> at_ r <> Left -> leaving (thread t (w s)) = None ->
  exists e, cur r = Some e /\ executing (thread t (w s)) = Some e /\ e <> sf /\ kind e (w s) = Some (true, true) /\ taken t s = None.
Proof.
  intros HG HD Hr Hh HL Hl. pose proof (g_runs _ HG t r Hr) as Hok.
  destruct (away_placed t r s Hok Hh HL) as (sf' & b & e & H1 & H2 & H3 & H4 & H5 & _).
  rewrite (sched_fiber t sf s HD) in H1. injection H1 as <-. exists e. pose proof (cur_kind t r s e Hok H4).
  split; [done|]. split; [done|]. split; [congruence|]. split; [done|]. unfold taken, place_of. rewrite Hr. cbn.
  unfold cur in H4. by destruct (at_ r).
Qed.

Lemma D_enter t sf s r : G s -> D t sf s -> runs s !! t = Some r -> home t s = false -> at_ r <> Left -> leaving (thread t (w s)) = None ->
  exists e, cur r = Some e /\ executing (thread t (w s)) = Some e /\ GetThis t (w s) = Ret e (w s)
    /\ (exists x, yield_enter t e (w s) = Ret tt x /\ D t sf (with_w x s) /\ leaving (thread t x) = Some e /\ executing (thread t x) = Some e)
    /\ (e ∉ queued s -> exists x, finish_enter t e (w s) = Ret tt x /\ D t sf (with_w x s) /\ leaving (thread t x) = Some e
          /\ executing (thread t x) = Some e).
Proof.
  intros HG HD Hr Hh HL Hl. destruct (away_one t sf s r HG HD Hr Hh HL Hl) as (e & Hc & He & Hne & Hk & Ht).
  destruct (yield_enter_ok t sf e (w s) (d_fib _ _ _ HD) He Hne Hl) as (Hg & (x & E & Hi & Hm & Hlv) & x' & E' & Hi' & Hm' & Hlv').
  exists e. split; [done|]. split; [done|]. split; [done|]. split.
  - exists x. split; [done|]. split; [|split; [done|apply Hm]]. eapply D_moved; try done; [congruence|apply HD|eapply queued_others; [done|by right]|auto].
  - intros Hq. exists x'. split; [done|]. split; [|split; [done|apply Hm']].
    eapply D_moved; try done; [congruence|apply HD|eapply queued_others; [done|by right]].
Qed.

Lemma D_switch t sf s e : D t sf s -> executing (thread t (w s)) = Some e -> leaving (thread t (w s)) = Some e ->
  kind e (w s) = Some (true, true) -> taken t s = None ->
  exists x, yield_switch t (w s) = Ret tt x /\ D t sf (with_w x s).
Proof.
  intros HD He Hl Hk Ht. destruct (yield_switch_ok t sf e (w s) (d_fib _ _ _ HD) He Hl) as (x & y & E & Hi & Hm & _ & Hy & Hny).
  exists x. split; [done|]. eapply D_moved; try done; [congruence|apply HD|eapply queued_others; [done|by right]|].
  intros Hq. destruct (d_ready _ _ _ HD e Hq) as [?|(_ & _ & ?)]; left; congruence.
Qed.

(** What [schedule] leaves alone, and the queue it makes. *)
Lemma schedule_fields k s :
  w (schedule k s) = w s /\ runs (schedule k s) = runs s /\ m_rootFiber (schedule k s) = m_rootFiber s
  /\ m_rootThread (schedule k s) = m_rootThread s /\ t_scheduler (schedule k s) = t_scheduler s
  /\ m_threads (schedule k s) = m_threads s /\ queued (schedule k s) = queued s ++ option_list (fiber k).
Proof.
  unfold schedule, schedulerNoLock. cbn. destruct (is_task k) eqn:Et.
  - do 6 (split; [by destruct (bool_decide _)|]). destruct (bool_decide _); unfold queued; cbn; rewrite omap_app; cbn; by destruct (fiber k).
  - do 6 (split; [by destruct (bool_decide _)|]). apply bool_decide_eq_false in Et.
    destruct (fiber k) eqn:Ef; [exfalso; eauto|]. cbn. rewrite app_nil_r. by destruct (bool_decide _).
Qed.

Lemma taken_schedule t k s : taken t (schedule k s) = taken t s.
Proof. unfold taken, place_of. by rewrite (proj1 (proj2 (schedule_fields k s))). Qed.

(** Submitting a fiber that is not in the queue nor in a thread's hand. *)
Lemma NoDup_submit k s : NoDup (queued s) -> (forall f, fiber k = Some f -> f ∉ queued s) -> NoDup (queued (schedule k s)).
Proof.
  intros Hn Hf. destruct (schedule_fields k s) as (_ & _ & _ & _ & _ & _ & ->). apply NoDup_app. split; [done|]. split.
  - intros g Hg Hk. destruct (fiber k) as [f|]; [|by apply not_elem_of_nil in Hk]. apply list_elem_of_singleton in Hk as ->. by apply (Hf f).
  - destruct (fiber k); cbn; [apply NoDup_singleton|apply NoDup_nil_2].
Qed.

Lemma D_submit t sf k s :
  D t sf s -> (forall f, fiber k = Some f -> (f ∉ queued s) /\ taken t s <> Some f
    /\ (state_of f (w s) = Some READY \/ executing (thread t (w s)) = Some f /\ f <> sf /\ state_of f (w s) = Some RUNNING)) ->
  D t sf (schedule k s).
Proof.
  intros [H1 H2 H3 H4 H5 H6 H7 H9 H8] Hf. destruct (schedule_fields k s) as (W & R1 & R2 & R3 & R4 & R5 & Q).
  split; rewrite ?W, ?R1, ?R2, ?R3, ?R4, ?R5; try done.
  - apply NoDup_submit; [done|]. intros f Hk. by apply Hf.
  - rewrite Q. intros f [?|Hk]%elem_of_app; [auto|]. destruct (fiber k) as [g|]; [|by apply not_elem_of_nil in Hk].
    apply list_elem_of_singleton in Hk as ->. by apply Hf.
  - rewrite taken_schedule, Q. intros f Ht. destruct (H5 f Ht) as [? Hq]. split; [done|]. intros [?|Hk]%elem_of_app; [done|].
    destruct (fiber k) as [g|]; [|by apply not_elem_of_nil in Hk]. apply list_elem_of_singleton in Hk as ->. by destruct (Hf g eq_refl) as (_ & ? & _).
Qed.

(** The caller's scheduling fiber ends and gives the thread back. *)
Lemma root_ends t sf s r : D t sf s -> runs s !! t = Some r -> at_ r = Left -> m_rootFiber s = Some sf ->
  executing (thread t (w s)) = Some sf -> exists x, finish t sf (w s) = Ret tt x /\ Over t (with_w x s).
Proof.
  intros HD Hr Ha Hroot He. destruct (d_root _ _ _ HD) as [(? & _)|(_ & Hrt & Hk)]; [congruence|].
  destruct (kind_some _ _ _ _ Hk) as (F & HF & _ & Hp). destruct (d_main _ _ _ HD) as (mf & Hm & Hmk & Hctx).
  assert (mf <> sf) as Hne by (intros ->; congruence). destruct (Hctx Hne) as (F' & HF' & Hc').
  pose proof (sched_fiber t sf s HD) as Hsf.
  unfold finish, finish_enter. rewrite HF. unfold yield_enter. rewrite lookup_put. cbn [m_state set_state].
  rewrite !decide_False by done. cbn [obind]. unfold yield_switch. rewrite thread_put_cpu. cbn [leaving set_leaving].
  cbn [fibers put_cpu]. rewrite lookup_put. unfold partner. cbn [m_runInScheduler set_state set_cb]. rewrite Hp.
  rewrite thread_put_cpu, thread_put. cbn [t_threadFiber set_leaving SetThis]. rewrite Hm.
  unfold swapcontext. rewrite thread_put_cpu. cbn [executing set_leaving SetThis]. rewrite He. cbn [fibers put_cpu].
  rewrite lookup_put, lookup_put_ne by done. cbn [fibers put_cpu]. rewrite lookup_put_ne, HF', Hc' by done.
  eexists. split; [reflexivity|]. split; [apply HD|]. split; [unfold place_of; cbn; rewrite Hr; cbn; by rewrite Ha|].
  split; [done|]. cbn [w with_w]. rewrite thread_put_cpu. cbn [executing set_executing].
  cbn [m_rootFiber with_w]. split; [congruence|].
  split; [|split; [rewrite Hroot; eauto|apply HD]]. apply not_true_iff_false. intros (x & E1 & E2)%home_spec. cbn [w with_w] in *.
  rewrite thread_put_cpu in E1, E2. cbn in E1, E2.
  repeat (rewrite thread_put in E2 || rewrite thread_put_cpu in E2 || cbn in E2). congruence.
Qed.

Lemma busy_inv t' s : busy t' s = true ->
  exists r, runs s !! t' = Some r /\ in_task r = true /\ home t' s = false /\ leaving (thread t' (w s)) = None.
Proof.
  unfold busy. destruct (runs s !! t') as [r|]; [|done].
  intros [[H1 H2%negb_true_iff]%andb_true_iff H3%bool_decide_eq_true]%andb_true_iff. eauto.
Qed.

Lemma in_task_left r : in_task r = true -> at_ r <> Left.
Proof. unfold in_task. intros H E. by rewrite E in H. Qed.

(** The fiber on the processor runs. *)
Lemma executing_runs t sf s e : D t sf s -> executing (thread t (w s)) = Some e -> e <> sf -> leaving (thread t (w s)) = None ->
  state_of e (w s) = Some RUNNING.
Proof.
  intros HD He Hne Hl. destruct (inv_cpu _ _ _ (d_fib _ _ _ HD)) as [[? _]|(e' & E & S & He' & _ & _ & HE & _ & _ & [(_ & Hst & _)|[? _]])]; try congruence.
  assert (e' = e) as -> by congruence. by rewrite (state_some _ _ _ HE), Hst.
Qed.

Lemma D_idle t sf s r : G s -> D t sf s -> runs s !! t = Some r -> home t s = false -> at_ r = InIdle -> leaving (thread t (w s)) = None ->
  exists s', idle_round t r s = Ret tt s' /\ D t sf s'.
Proof.
  intros HG HD Hr Hh Ha Hl. assert (at_ r <> Left) as HL by by rewrite Ha.
  destruct (D_enter t sf s r HG HD Hr Hh HL Hl) as (e & Hc & He & Hg & (x & E & HDx & L1 & L2) & Hfin).
  assert (idle_fiber r = e) as Hi by (unfold cur in Hc; rewrite Ha in Hc; congruence).
  pose proof (ro_idle _ _ _ (g_runs _ HG t r Hr)) as Hk. rewrite Hi in Hk.
  assert (forall x, D t sf (with_w x s) -> leaving (thread t x) = Some e -> executing (thread t x) = Some e ->
    kind e x = Some (true, true) -> exists x', yield_switch t x = Ret tt x' /\ D t sf (with_w x' s)) as Hsw.
  { intros y Hy Hly Hey Hky. destruct (D_switch t sf (with_w y s) e Hy Hey Hly Hky) as (x' & E' & HD'); [|eauto].
    unfold taken, place_of. cbn. rewrite Hr. cbn. by rewrite Ha. }
  unfold idle_round. destruct (stopping s).
  - destruct Hfin as (y & Ey & Dy & L3 & L4). { intros Hq%(queued_kind _ _ HG). by destruct Hq as [_ Hq]; apply (Hq t r). }
    destruct (Hsw y Dy L3 L4) as (x' & E' & HD').
    { apply (fr_kind t e (w s) y); [|done]. by apply (finish_enter_frame _ _ _ _ Ey), HG. }
    exists (with_w x' s). split; [|done]. unfold on_fibers, finish. rewrite Hi, Ey. cbn [obind]. by rewrite E'.
  - destruct (Hsw x HDx L1 L2) as (x' & E' & HD').
    { apply (fr_kind t e (w s) x); [|done]. by apply (yield_enter_frame _ _ _ _ E), HG. }
    exists (with_w x' s). split; [|done]. unfold on_fibers. rewrite Hg. cbn [obind]. unfold yield. rewrite E. cbn [obind]. by rewrite E'.
Qed.

Lemma D_run_enter cfg t sf s idle : G s -> D t sf s -> m_rootFiber s = Some sf -> m_rootThread s = t ->
  exists s', run_enter cfg t idle s = Ret tt s' /\ D t sf s'.
Proof.
  intros HG HD Hroot Hrt. destruct (D_new cfg t sf idle s HG HD) as (x & E & HD1 & _).
  unfold run_enter. cbn [m_rootThread]. rewrite Hrt, Z.eqb_refl. cbn [obind]. unfold on_fibers. cbn [w]. rewrite E. cbn [obind].
  eexists. split; [reflexivity|]. eapply (D_locals t sf (with_w x s)); try done.
  - apply runs_insert, HD.
  - intros Hn. cbn in Hn. congruence.
  - apply HD.
  - by rewrite taken_insert.
Qed.

(** No move fails inside [run]. *)
Lemma D_perform cfg t sf m s :
  G s -> D t sf s -> enabled m s = true -> disciplined t m s = true ->
  exists s', perform cfg m s = Ret tt s' /\ (D t sf s' \/ Over t s').
Proof.
  intros HG HD He Hd. destruct m as [t' idle|t'|t'|t'|t'|t' k|k|c|t'|t'|t'|t'|t']; cbn [enabled perform disciplined] in *.
  - apply andb_true_iff in He as [Hr%bool_decide_eq_true Hc].
    apply orb_true_iff in Hc as [(Hrt & Hin & Hcpu)%bool_decide_eq_true|(Hrt & Hroot & _)%bool_decide_eq_true].
    + exfalso. apply (d_threads _ _ _ HD) in Hin as ->. pose proof (sched_fiber t sf s HD) as Hs. unfold thread in Hs. by rewrite Hcpu in Hs.
    + destruct (d_root _ _ _ HD) as [(Hn & _)|(Hroot' & Hrt' & _)]; [rewrite Hn in Hroot; by destruct Hroot|].
      assert (t' = t) as -> by congruence. destruct (D_run_enter cfg t sf s idle HG HD Hroot' Hrt') as (s' & -> & ?). eauto.
  - destruct (place_of t' s) as [[]|] eqn:Hp; try done. apply place_of_inv in Hp as (r & Hr & Ha). rewrite Hr.
    assert (t' = t) as -> by (apply HD; eauto). destruct (D_fetch t sf s r HG HD Hr He Ha) as (s' & -> & ?). eauto.
  - destruct (place_of t' s) as [[]|] eqn:Hp; try done. apply place_of_inv in Hp as (r & Hr & Ha). rewrite Hr, Ha.
    assert (t' = t) as -> by (apply HD; eauto). destruct (D_dispatch cfg t sf s r k HG HD Hr He Ha) as (s' & -> & ?). eauto.
  - apply andb_true_iff in He as [[r Hr]%bool_decide_eq_true Hh]. rewrite Hr. assert (t' = t) as -> by (apply HD; eauto).
    eexists. split; [done|]. left. by apply D_back.
  - destruct (place_of t' s) as [[]|] eqn:Hp; try done. apply place_of_inv in Hp as (r & Hr & Ha). rewrite Hr.
    assert (t' = t) as -> by (apply HD; eauto). apply andb_true_iff in He as [Hh%negb_true_iff Hl%bool_decide_eq_true].
    destruct (D_idle t sf s r HG HD Hr Hh Ha Hl) as (s' & -> & ?). eauto.
  - apply andb_true_iff in He as [(r & Hr & Hi & Hh & Hl)%busy_inv Hv]. assert (t' = t) as -> by (apply HD; eauto).
    eexists. split; [done|]. left. apply D_submit; [done|]. intros f Hf. destruct k as [[g|] c b]; [|done]. injection Hf as ->.
    apply andb_true_iff in Hd as [Hq%bool_decide_eq_true Hd]. split; [done|].
    destruct (away_one t sf s r HG HD Hr Hh (in_task_left r Hi) Hl) as (e & Hc & Hex & Hne & Hk & Ht). split; [by rewrite Ht|].
    apply orb_true_iff in Hd as [Hx%bool_decide_eq_true|Hx%bool_decide_eq_true]; [right|by left].
    assert (e = f) as -> by congruence. split; [done|]. split; [done|]. by eapply executing_runs.
  - eexists. split; [done|]. left. apply D_submit; [done|]. intros f Hf. destruct k as [[g|] c b]; [|done]. injection Hf as ->.
    apply andb_true_iff in Hd as [[Hq%bool_decide_eq_true Hx%bool_decide_eq_true]%andb_true_iff Ht%bool_decide_eq_true]. auto.
  - destruct (D_new cfg t sf c s HG HD) as (x & E & HD1 & _). unfold on_fibers. rewrite E. cbn [obind]. eauto.
  - apply andb_true_iff in He as [(r & Hr & Hi & Hh & Hl)%busy_inv _]. assert (t' = t) as -> by (apply HD; eauto).
    destruct (D_enter t sf s r HG HD Hr Hh (in_task_left r Hi) Hl) as (e & _ & _ & Hg & (x & E & HDx & _) & _).
    unfold on_fibers. rewrite Hg. cbn [obind]. rewrite E. eauto.
  - apply andb_true_iff in He as [(r & Hr & Hi & Hh & Hl)%busy_inv _]. assert (t' = t) as -> by (apply HD; eauto).
    destruct (D_enter t sf s r HG HD Hr Hh (in_task_left r Hi) Hl) as (e & _ & Hex & _ & _ & Hfin). rewrite Hex in Hd |- *.
    apply bool_decide_eq_true in Hd. destruct (Hfin Hd) as (x & E & HDx & _). unfold on_fibers. rewrite E. eauto.
  - assert (exists r e, runs s !! t' = Some r /\ at_ r <> Left /\ leaving (thread t' (w s)) = Some e) as (r & e & Hr & HL & Hl).
    { destruct (place_of t' s) as [a|] eqn:Hp; [|done]. apply place_of_inv in Hp as (r & Hr & <-). exists r.
      destruct (at_ r); try done; apply bool_decide_eq_true in He as [e Hl]; eauto. }
    assert (t' = t) as -> by (apply HD; eauto). pose proof (g_runs _ HG t r Hr) as Hok.
    destruct (ro_sf _ _ _ Hok) as (sf' & b & _ & _ & _ & H4). destruct (H4 HL) as [[_ ?]|(e' & Hc & Hex & [[? _]|?])]; try congruence.
    assert (e' = e) as -> by congruence.
    destruct (D_switch t sf s e HD Hex Hl (cur_kind t r s e Hok Hc)) as (x & E & HDx).
    { unfold taken, place_of. rewrite Hr. cbn. unfold cur in Hc. by destruct (at_ r). }
    unfold on_fibers. rewrite E. eauto.
  - apply andb_true_iff in He as [Hr%bool_decide_eq_true Hx%bool_decide_eq_true].
    destruct (d_root _ _ _ HD) as [(Hn & Hrt & Hts)|(Hroot & Hrt & Hk)].
    + rewrite Hn in Hd. apply bool_decide_eq_true in Hd. unfold stop. destruct (stopping s); [eauto|]. cbn [m_rootFiber t_scheduler]. rewrite Hn, Hts.
      rewrite bool_decide_false by (intros [? ?]; done). rewrite bool_decide_false by (intros ?%list_elem_of_singleton; done).
      eexists. split; [done|]. left. eapply D_locals; try done; [apply HD|apply HD|apply HD].
    + exfalso. rewrite Hroot in Hd. apply bool_decide_eq_true in Hd as ->.
      destruct (d_main _ _ _ HD) as (mf & Hm & Hmk & _). rewrite Hm in Hx.
      destruct (inv_cpu _ _ _ (d_fib _ _ _ HD)) as [[He' _]|(e & E & S & He' & _ & Hth & _)]; congruence.
  - destruct (place_of t' s) as [[]|] eqn:Hp; try done. apply place_of_inv in Hp as (r & Hr & Ha).
    assert (t' = t) as -> by (apply HD; eauto). apply bool_decide_eq_true in He as (Hrt & [f Hroot] & Hex).
    destruct (d_root _ _ _ HD) as [(Hn & _)|(Hroot' & _)]; [congruence|]. rewrite Hroot' in *. 
    destruct (root_ends t sf s r HD Hr Ha Hroot' Hex) as (x & E & HO). unfold on_fibers. rewrite E. eauto.
Qed.

(** ** Before and after *)

Lemma Over_perform cfg t m s :
  G s -> Over t s -> enabled m s = true -> disciplined t m s = true -> exists s', perform cfg m s = Ret tt s' /\ Over t s'.
Proof.
  intros HG (O1 & O2 & O3 & O4 & O5 & O6 & O7) He Hd.
  assert (is_Some (runs s !! t)) as Hrt by (apply place_of_inv in O2 as (r & ? & _); eauto).
  assert (forall t' a, place_of t' s = Some a -> t' = t /\ a = Left) as Hpl.
  { intros t' a Hp. apply place_of_inv in Hp as Hp'. destruct Hp' as (r & Hr & _). assert (t' = t) as -> by (apply O1; eauto).
    split; congruence. }
  destruct m as [t' idle|t'|t'|t'|t'|t' k|k|c|t'|t'|t'|t'|t']; cbn [enabled perform disciplined] in *.
  - exfalso. apply andb_true_iff in He as [Hr%bool_decide_eq_true Hc]. assert (t' <> t) as Hne by (intros ->; rewrite Hr in Hrt; by destruct Hrt).
    apply orb_true_iff in Hc as [(_ & Hin & _)%bool_decide_eq_true|(? & _)%bool_decide_eq_true]; [by apply O7 in Hin|congruence].
  - destruct (place_of t' s) as [[]|] eqn:Hp; try done. by apply Hpl in Hp as [_ ?].
  - destruct (place_of t' s) as [[]|] eqn:Hp; try done. by apply Hpl in Hp as [_ ?].
  - apply andb_true_iff in He as [Hr%bool_decide_eq_true Hh]. apply O1 in Hr as ->. congruence.
  - destruct (place_of t' s) as [[]|] eqn:Hp; try done. by apply Hpl in Hp as [_ ?].
  - apply andb_true_iff in He as [(r & Hr & Hi & _)%busy_inv _]. apply in_task_left in Hi.
    destruct (Hpl t' (at_ r)) as [_ ?]; [unfold place_of; by rewrite Hr|done].
  - eexists. split; [done|]. destruct (schedule_fields k s) as (W & R1 & R2 & R3 & R4 & R5 & _).
    unfold Over, place_of, home. rewrite W, R1, R2, R3, R5. done.
  - destruct (new_fiber_frame cfg (Some c) 0 true (w s) t 0%N (g_ids _ HG)) as (x & E & _ & _ & _ & _ & Ht).
    unfold on_fibers. rewrite E. cbn [obind]. eexists. split; [done|]. unfold Over, place_of, home. cbn. rewrite Ht. done.
  - apply andb_true_iff in He as [(r & Hr & Hi & _)%busy_inv _]. apply in_task_left in Hi.
    destruct (Hpl t' (at_ r)) as [_ ?]; [unfold place_of; by rewrite Hr|done].
  - apply andb_true_iff in He as [(r & Hr & Hi & _)%busy_inv _]. apply in_task_left in Hi.
    destruct (Hpl t' (at_ r)) as [_ ?]; [unfold place_of; by rewrite Hr|done].
  - destruct (place_of t' s) as [[]|] eqn:Hp; try done; by apply Hpl in Hp as [_ ?].
  - destruct O6 as [f Hf]. rewrite Hf in Hd. apply bool_decide_eq_true in Hd as ->.
    apply andb_true_iff in He as [Hr%bool_decide_eq_true _]. rewrite Hr in Hrt. by destruct Hrt.
  - destruct (place_of t' s) as [[]|] eqn:Hp; try done. apply Hpl in Hp as [-> _]. apply bool_decide_eq_true in He as (_ & _ & ?). done.
Qed.

(** A fiber that is made before the thread runs. *)
Lemma Pre_new cfg t c s : G s -> Pre t s ->
  exists s', (let* _, s := on_fibers (new_fiber cfg (Some c) 0 true) s in Ret tt s) = Ret tt s' /\ Pre t s'.
Proof.
  intros HG [P1 P2 P3 P4 P5]. destruct (new_fiber_frame cfg (Some c) 0 true (w s) t (s_fiberId (w s)) (g_ids _ HG)) as (x & E & F & Kn & K & Hst & Ht).
  unfold on_fibers. rewrite E. cbn [obind]. exists (with_w x s). split; [done|].
  assert (forall f, is_Some (kind f (w s)) -> f <> s_fiberId (w s)) as Hfresh by (intros f [? Hf] ->; congruence).
  assert (forall f F', fibers x !! f = Some F' -> f = s_fiberId (w s) /\ m_stack F' = true /\ m_runInScheduler F' = true /\ rests f F'
    \/ fibers (w s) !! f = Some F') as Hcase.
  { intros f F'. injection E as <-. cbn. rewrite lookup_insert. case_decide as Hx; [|by right]. intros [= <-]. left.
    split; [done|]. split; [done|]. split; [done|]. left. cbn. by subst. }
  assert (forall f F', f <> s_fiberId (w s) -> fibers (w s) !! f = Some F' -> fibers x !! f = Some F') as Hold.
  { intros f F' Hne HF. injection E as <-. cbn. by rewrite lookup_insert_ne. }
  split; try done.
  - intros f Hf. cbn. assert (f ∈ queued s) as Hq by done. apply (queued_kind _ _ HG) in Hq as [Hk _].
    rewrite (fr_state _ _ _ _ F f) by eauto. auto.
  - destruct P5 as [(M1 & M2 & M3 & M4 & M5)|(root & mf & R & M1 & M2 & M3 & M4 & M5 & M6 & M7 & M8 & M9 & M10 & M11 & M12)].
    + left. cbn. injection E as <-. cbn. do 4 (split; [done|]). intros f F' HF. destruct (Hcase f F' HF) as [(_ & ?)|?]; [done|auto].
    + right. exists root, mf, R. cbn. rewrite Ht. do 5 (split; [done|]). split; [by eapply fr_kind|].
      split; [apply Hold; [apply Hfresh; unfold kind; rewrite M7; eauto|done]|]. do 4 (split; [done|]).
      intros f F' HF Hf1 Hf2. destruct (Hcase f F' HF) as [(_ & ?)|?]; [done|eauto].
Qed.

Lemma Pre_outside t k s : Pre t s ->
  (forall f, fiber k = Some f -> (f ∉ queued s) /\ state_of f (w s) = Some READY) -> Pre t (schedule k s).
Proof.
  intros [P1 P2 P3 P4 P5] Hf. destruct (schedule_fields k s) as (W & R1 & R2 & R3 & R4 & R5 & Q).
  split; rewrite ?W, ?R1, ?R2, ?R3, ?R4, ?R5; try done.
  - apply NoDup_submit; [done|]. intros f Hk. by apply Hf.
  - rewrite Q. intros f [?|Hk]%elem_of_app; [auto|]. destruct (fiber k) as [g|]; [|by apply not_elem_of_nil in Hk].
    apply list_elem_of_singleton in Hk as ->. by apply Hf.
Qed.

(** [stop] on the caller's thread starts its scheduling fiber. *)
Lemma Pre_stop_caller t s root mf R :
  G s -> Pre t s -> m_rootFiber s = Some root -> m_rootThread s = t -> t_scheduler s = [t] ->
  thread t (w s) = MkCpu (Some mf) (Some mf) (Some root) (Some mf) None -> mf <> root -> kind mf (w s) = Some (false, true) ->
  fibers (w s) !! root = Some R -> m_stack R = true -> m_runInScheduler R = false -> m_state R = READY -> m_context R = Some root ->
  (forall f F, fibers (w s) !! f = Some F -> f <> root -> f <> mf -> m_stack F = true /\ m_runInScheduler F = true /\ rests f F) ->
  exists s', stop t s = Ret tt s' /\ (Pre t s' \/ D t root s').
Proof.
  intros HG HP M1 M2 M3 M4 M5 M6 M7 M8 M9 M10 M11 M12. unfold stop. destruct (stopping s); [eauto|].
  cbn [m_rootFiber t_scheduler]. rewrite M1, M3, bool_decide_true by eauto. rewrite bool_decide_true by (by left).
  destruct (kind_some _ _ _ _ M6) as (F & HF & HF1 & HF2).
  unfold on_fibers. cbn [w tickle]. unfold resume. rewrite M7, decide_True by done. unfold partner. rewrite M9, thread_put, thread_put_cpu, M4.
  cbn [t_threadFiber SetThis]. unfold swapcontext. rewrite thread_put, thread_put_cpu. cbn [executing SetThis].
  rewrite lookup_put_ne by done. cbn [fibers put_cpu]. rewrite HF, lookup_put_ne, lookup_put by done. cbn [m_context set_state]. rewrite M11.
  rewrite !thread_put, thread_put_cpu. cbn [set_executing SetThis t_fiber t_threadFiber t_scheduler_fiber leaving].
  eexists. split; [reflexivity|]. right. set (x := put_cpu t _ (put root _ (put mf _ _))).
  assert (thread t x = MkCpu (Some root) (Some mf) (Some root) (Some root) None) as Hth by (unfold x; by rewrite thread_put_cpu).
  assert (fibers x = <[root := set_context None (set_state RUNNING R)]> (<[mf := set_context (Some mf) F]> (<[root := set_state RUNNING R]> (fibers (w s))))) as Hx by done.
  assert (s_fiberId x = s_fiberId (w s)) as Hid by done.
  assert (forall f, f <> root -> f <> mf -> fibers x !! f = fibers (w s) !! f) as Hkeep.
  { intros f H1 H2. by rewrite Hx, !lookup_insert_ne. }
  assert (fibers x !! root = Some (set_context None (set_state RUNNING R))) as Hxr by (by rewrite Hx, lookup_insert_eq).
  assert (fibers x !! mf = Some (set_context (Some mf) F)) as Hxm by (by rewrite Hx, lookup_insert_ne, lookup_insert_eq).
  assert (kind root x = Some (true, false)) as Hkr by (unfold kind; rewrite Hxr; cbn; by rewrite M8, M9).
  assert (kind mf x = Some (false, true)) as Hkm by (unfold kind; rewrite Hxm; cbn; by rewrite HF1, HF2).
  clearbody x. split; cbn [w with_w m_fibers m_threads m_rootFiber m_rootThread]; rewrite ?Hth; try done.
  - split; rewrite ?Hth; cbn; try done; eauto.
    + intros f Hf. rewrite Hid. apply (g_ids _ HG). destruct (decide (f = root)) as [->|]; [eauto|]. destruct (decide (f = mf)) as [->|]; [eauto|].
      by rewrite Hkeep in Hf.
    + intros f F' HF' H1 H2. rewrite Hkeep in HF' by congruence. destruct (M12 f F' HF' H1) as (? & ? & ?); [congruence|]. done.
    + by left.
  - cbn. rewrite (p_runs _ _ HP). intros t' [? Hr]. by rewrite lookup_empty in Hr.
  - apply HP.
  - intros f Hf. left. assert (f ∈ queued s) as Hq by done. pose proof (p_ready _ _ HP f Hq) as Hst.
    destruct (queued_kind _ _ HG Hq) as [Hk _]. unfold state_of in *. rewrite Hkeep; [done| |]; intros ->; [|congruence].
    unfold kind in Hk. rewrite M7 in Hk. cbn in Hk. congruence.
  - unfold taken, place_of. cbn. by rewrite (p_runs _ _ HP), lookup_empty.
  - by exists (true, false).
  - exists mf. split; [done|]. split; [done|]. eauto.
  - apply HP.
  - by right.
Qed.

(** A pool thread enters [run]. *)
Lemma Pre_enter_pool cfg t idle s :
  G s -> Pre t s -> m_rootFiber s = None -> m_rootThread s <> t -> t_scheduler s = [] -> cpus (w s) = ∅ ->
  (forall f F, fibers (w s) !! f = Some F -> m_stack F = true /\ m_runInScheduler F = true /\ rests f F) ->
  exists s' sf, run_enter cfg t idle s = Ret tt s' /\ D t sf s'.
Proof.
  intros HG HP M1 M2 M3 M4 M5. assert (thread t (w s) = native) as Hnat by (unfold thread; by rewrite M4, lookup_empty).
  destruct (GetThis_first t 0%N (w s) (g_ids _ HG) Hnat) as (x & E & F & Kn & K & Hth).
  set (sf := s_fiberId (w s)) in *. set (x1 := put_cpu t (set_scheduler_fiber (Some sf) (thread t x)) x).
  set (s1 := MkSched x1 (m_fibers s) (m_threads s) (m_threadIds s) (m_threadCount s) (m_activeThreadCount s) (m_idleThreadCount s)
    (m_rootFiber s) (m_rootThread s) (m_stopping s) (t :: t_scheduler s) (runs s) (tickles s)).
  assert (thread t x1 = MkCpu (Some sf) (Some sf) (Some sf) (Some sf) None) as Ht1 by (unfold x1; rewrite thread_put_cpu, Hth; done).
  assert (frame t 0%N (w s) x1) as F1 by (eapply frame_trans; [done|apply frame_put_cpu]).
  assert (forall f, f <> sf -> fibers x1 !! f = fibers (w s) !! f) as Hkeep.
  { intros f Hf. unfold GetThis in E. rewrite Hnat in E. cbn in E. injection E as <-. cbn. by rewrite lookup_insert_ne. }
  assert (kind sf x1 = Some (false, true)) as Ksf by done.
  assert (forall f, is_Some (kind f (w s)) -> f <> sf) as Hfresh by (intros f [? Hf] ->; congruence).
  assert (G s1) as HG1.
  { eapply (G_other t 0%N); try done; [by left|]. intros r Hr. by rewrite (p_runs _ _ HP), lookup_empty in Hr. }
  assert (D t sf s1) as HD1.
  { split; cbn [w s1]; rewrite ?Ht1; try done.
    - split; rewrite ?Ht1; cbn; try done; [|apply HG1| |by left].
      + destruct (kind_some _ _ _ _ Ksf) as (F' & HF & _). exists F'. exact HF.
      + intros f F' HF Hf Hf'. rewrite Hkeep in HF by done. destruct (M5 f F' HF) as (? & ? & ?). done.
    - cbn. rewrite (p_runs _ _ HP). intros t' [? Hr]. by rewrite lookup_empty in Hr.
    - apply HP.
    - intros f Hf. left. assert (f ∈ queued s) as Hq by done. unfold state_of. rewrite Hkeep; [by apply (p_ready _ _ HP)|].
      apply Hfresh. destruct (queued_kind _ _ HG Hq) as [Hk _]. eauto.
    - unfold taken, place_of. cbn. by rewrite (p_runs _ _ HP), lookup_empty.
    - by exists (false, true).
    - exists sf. by split; [|split].
    - apply HP.
    - left. cbn. by rewrite M3. }
  destruct (D_new cfg t sf idle s1 HG1 HD1) as (x2 & E2 & HD2 & _). exists (with_run t (MkLocals (s_fiberId x1) None Fetching) (with_w x2 s1)), sf.
  split.
  - unfold run_enter. cbn [m_rootThread]. rewrite (proj2 (Z.eqb_neq _ _)) by congruence. unfold on_fibers at 1. cbn [w]. rewrite E. cbn [obind].
    unfold on_fibers. cbn [w with_w]. fold x1. change (w s1) with x1 in E2. rewrite E2. done.
  - eapply (D_locals t sf (with_w x2 s1)); try done; [apply runs_insert, HD1|apply HD1|by rewrite taken_insert].
Qed.

Lemma Pre_perform cfg t m s :
  G s -> Pre t s -> enabled m s = true -> disciplined t m s = true ->
  exists s', perform cfg m s = Ret tt s' /\ (Pre t s' \/ exists sf, D t sf s').
Proof.
  intros HG HP He Hd. assert (forall t', runs s !! t' = None) as Hnr by (intros; by rewrite (p_runs _ _ HP), lookup_empty).
  assert (forall t', place_of t' s = None) as Hnp by (intros; unfold place_of; by rewrite Hnr).
  assert (forall t', busy t' s = false) as Hnb by (intros; unfold busy; by rewrite Hnr).
  destruct m as [t' idle|t'|t'|t'|t'|t' k|k|c|t'|t'|t'|t'|t']; cbn [enabled perform disciplined] in *; rewrite ?Hnp, ?Hnb in He; try done.
  - apply andb_true_iff in He as [_ Hc].
    destruct (p_mode _ _ HP) as [(M1 & M2 & M3 & M4 & M5)|(root & mf & R & M1 & M2 & M3 & M4 & M5 & M6 & _)].
    + apply orb_true_iff in Hc as [(_ & Hin & _)%bool_decide_eq_true|(_ & Hx & _)%bool_decide_eq_true]; [|rewrite M1 in Hx; by destruct Hx].
      apply (p_threads _ _ HP) in Hin as ->. destruct (Pre_enter_pool cfg t idle s HG HP M1 M2 M3 M4 M5) as (s' & sf & -> & ?). eauto.
    + exfalso. apply orb_true_iff in Hc as [(Hx & Hin & _)%bool_decide_eq_true|(Hx & _ & He & _)%bool_decide_eq_true].
      * by apply (p_threads _ _ HP) in Hin as ->.
      * assert (t' = t) as -> by congruence. rewrite M4, M1 in He. cbn in He. congruence.
  - apply andb_true_iff in He as [Hr%bool_decide_eq_true _]. rewrite Hnr in Hr. by destruct Hr.
  - eexists. split; [done|]. left. apply Pre_outside; [done|]. intros f Hf. destruct k as [[g|] c b]; [|done]. injection Hf as ->.
    apply andb_true_iff in Hd as [[Hq%bool_decide_eq_true Hx%bool_decide_eq_true]%andb_true_iff _]. auto.
  - destruct (Pre_new cfg t c s HG HP) as (s' & -> & ?). eauto.
  - destruct (p_mode _ _ HP) as [(M1 & M2 & M3 & M4 & M5)|(root & mf & R & M1 & M2 & M3 & M4 & M5 & M6 & M7 & M8 & M9 & M10 & M11 & M12)].
    + unfold stop. destruct (stopping s); [eauto|]. cbn [m_rootFiber t_scheduler]. rewrite M1, M3.
      rewrite bool_decide_false by (intros [? ?]; done). rewrite bool_decide_false by (apply not_elem_of_nil).
      eexists. split; [done|]. left. destruct HP as [P1 P2 P3 P4 _]. split; try done. left. by repeat (split; [done|]).
    + rewrite M1 in Hd. apply bool_decide_eq_true in Hd as ->.
      destruct (Pre_stop_caller t s root mf R HG HP M1 M2 M3 M4 M5 M6 M7 M8 M9 M10 M11 M12) as (s' & -> & [?|?]); eauto.
Qed.

(** ** Reachable histories *)

Lemma one_thread_hreach cfg t caller run h : one_thread cfg t caller run = Some h -> hreach cfg h.
Proof.
  unfold one_thread. destruct (create _ _ _ _ _ _) as [s x| | |] eqn:E1; try done. destruct (start _ s) as [[] s'| | |] eqn:E2; try done.
  intros [= <-]. eapply hreach_start; eauto. by destruct caller.
Qed.

Lemma one_thread_pre cfg t caller run h : 0 < t -> one_thread cfg t caller run = Some h -> Pre t (h_s h).
Proof.
  intros Ht. unfold one_thread, create. destruct caller.
  - cbn [Z.leb Z.compare]. unfold GetThis. change (thread t nothing) with native. cbn [t_fiber native].
    unfold main_fiber. change (thread t nothing) with native. cbn [obind]. rewrite thread_put_cpu.
    unfold new_fiber. cbn [obind]. unfold start. cbn [m_stopping m_threads]. rewrite bool_decide_true by done. intros [= <-]. cbn [h_s].
    split; try done.
    + by intros t' ?%not_elem_of_nil.
    + apply NoDup_nil_2.
    + by intros f ?%not_elem_of_nil.
    + right. eexists 1%N, 0%N, _. cbn [m_rootFiber m_rootThread t_scheduler w]. rewrite thread_put_cpu. unfold kind. cbn.
      unfold thread. cbn. rewrite !lookup_insert_eq. cbn.
      do 5 (split; [done|]). split; [by rewrite lookup_insert_ne, lookup_insert_eq|]. do 5 (split; [done|]).
      intros f F HF Hf1 Hf0. by rewrite !lookup_insert_ne, lookup_empty in HF.
  - unfold start. cbn. intros [= <-]. cbn [h_s]. split; try done.
    + by intros t' ?%list_elem_of_singleton.
    + apply NoDup_nil_2.
    + by intros f ?%not_elem_of_nil.
    + left. cbn. split; [done|]. split; [lia|]. split; [done|]. split; [done|]. intros f F HF. by rewrite lookup_empty in HF.
Qed.

Lemma play_HInv cfg m h h' : HInv h -> play cfg m h = Some h' -> HInv h'.
Proof. intros HI E%play_ok. by eapply sstep_inv. Qed.

Lemma record_s m h s : h_s (record m h s) = s.
Proof. by destruct m. Qed.

(** A move that the discipline allows returns and keeps the invariant. *)
Lemma DInv_perform cfg t m h :
  DInv t h -> enabled m (h_s h) = true -> disciplined t m (h_s h) = true ->
  exists s', perform cfg m (h_s h) = Ret tt s' /\ DInv t (record m h s').
Proof.
  intros [HI HD] He Hd. pose proof (hi_G _ HI) as HG.
  assert (exists s', perform cfg m (h_s h) = Ret tt s' /\ (Pre t s' \/ (exists sf, D t sf s') \/ Over t s')) as (s' & E & HD').
  { destruct HD as [HP|[[sf HD]|HO]].
    - destruct (Pre_perform cfg t m _ HG HP He Hd) as (s' & E & [?|?]); eauto 6.
    - destruct (D_perform cfg t sf m _ HG HD He Hd) as (s' & E & [?|?]); eauto 6.
    - destruct (Over_perform cfg t m _ HG HO He Hd) as (s' & E & ?); eauto 6. }
  exists s'. split; [done|]. split; [|by rewrite record_s].
  eapply (play_HInv cfg m); [done|]. unfold play. by rewrite He, E.
Qed.

Lemma dreach_inv cfg t h : dreach cfg t h -> DInv t h.
Proof.
  induction 1 as [caller run h Ht E|m h h' _ IH Hd E].
  - split; [|left; by eapply one_thread_pre]. eapply sreach_inv, one_thread_hreach, E.
  - apply play_inv in E as (He & s' & E & ->). destruct (DInv_perform cfg t m h IH He Hd) as (s1 & E' & ?). congruence.
Qed.

(** ** Properties *)

(** C15. One thread is safe.  For a scheduler with one thread, the caller's or one
    of a pool, and every program that submits a fiber only while it is
    suspended and not submitted, or by itself before it yields: whatever can
    happen next returns.  No assertion of the fibers or of the scheduler
    fails and no stale context is loaded, in any reachable state. *)
Theorem one_thread_never_fails (cfg t : Z) (h : history) (m : move) :
  dreach cfg t h -> enabled m (h_s h) = true -> disciplined t m (h_s h) = true ->
  exists s', perform cfg m (h_s h) = Ret tt s'.
Proof. intros HI%dreach_inv He Hd. destruct (DInv_perform cfg t m h HI He Hd) as (s' & ? & _). eauto. Qed.

(** The moves of a list, each allowed. *)
Fixpoint obey (cfg t : Z) (ms : list move) (h : history) : option history :=
  match ms with
  | [] => Some h
  | m :: ms => if disciplined t m (h_s h) then play cfg m h ≫= obey cfg t ms else None
  end.

Lemma obey_ok cfg t ms h h' : dreach cfg t h -> obey cfg t ms h = Some h' -> dreach cfg t h'.
Proof.
  revert h. induction ms as [|m ms IH]; intros h Hr; cbn; [by intros [= <-]|].
  destruct (disciplined t m (h_s h)) eqn:Ed; [|done]. destruct (play cfg m h) as [h1|] eqn:E; [|done]. apply IH. by eapply dreach_step.
Qed.

(** The caller's thread: a fiber submits itself and yields, then [stop]. *)
Definition self : SchedulerTask := MkTask (Some 2%N) None (-1).
Definition caller_start : history := default two_threads (one_thread 131072 5 true 0).
Definition caller_run : list move :=
  [MNew 7; MOutside self; MStop 5; MEnter 5 0; MFetch 5; MDispatch 5; MSubmit 5 self; MYield 5; MSwitch 5; MBack 5; MFetch 5].
Definition caller_end : history := default two_threads (obey 131072 5 caller_run caller_start).

Lemma caller_end_reached : dreach 131072 5 caller_end.
Proof.
  apply (obey_ok _ _ caller_run caller_start); [|vm_compute; reflexivity].
  apply (dreach_start _ _ true 0); [lia|vm_compute; reflexivity].
Qed.

Lemma one_thread_never_fails_witness :
  enabled (MDispatch 5) (h_s caller_end) = true /\ exists s', perform 131072 (MDispatch 5) (h_s caller_end) = Ret tt s'.
Proof.
  split; [vm_compute; reflexivity|].
  apply (one_thread_never_fails 131072 5 caller_end (MDispatch 5) caller_end_reached); vm_compute; reflexivity.
Defined.

(** ** [stop] comes to its end *)

(** The next move of thread [t] when every task that runs ends, or yields if
    it has submitted itself. *)
Definition next (t : Z) (s : sched) : option move :=
  match place_of t s with
  | None | Some Left => None
  | Some Fetching => Some (MFetch t)
  | Some (Took _) => Some (MDispatch t)
  | Some InIdle =>
      Some (if home t s then MBack t else if leaving (thread t (w s)) is Some _ then MSwitch t else MIdle t)
  | Some _ =>
      Some (if home t s then MBack t else
            if leaving (thread t (w s)) is Some _ then MSwitch t else
            if executing (thread t (w s)) is Some f then if bool_decide (f ∈ queued s) then MYield t else MFinish t
            else MFinish t)
  end.

Fixpoint drain (cfg t : Z) (fuel : nat) (h : history) : option history :=
  match next t (h_s h) with
  | None => Some h
  | Some m => match fuel with O => None | S fuel => play cfg m h ≫= drain cfg t fuel end
  end.

(** How far the thread is from the end of its loop. *)
Definition weight (t : Z) (s : sched) : nat :=
  match runs s !! t with
  | None => 0
  | Some r =>
      let over := bool_decide (state_of (idle_fiber r) (w s) = Some TERM) in
      let base := (if over then 2 else 11)%nat in
      (20 * length (m_fibers s)
       + match at_ r with
         | Fetching => base
         | Took k => if is_task k then base + 19
                     else if over then 1 else if bool_decide (m_fibers s = []) then 10 else 14
         | InFiber _ _ | InCb _ _ =>
             if home t s then base + 16 else if leaving (thread t (w s)) is Some _ then base + 17 else base + 18
         | InIdle => if home t s then (if over then 3 else 12)
                     else if leaving (thread t (w s)) is Some _ then 13 else if stopping s then 9 else 13
         | Left => 0
         end)%nat
  end.

Lemma fetch_weight t r s s' :
  (forall k, k ∈ m_fibers s -> runs_on t k) -> runs s !! t = Some r -> at_ r = Fetching -> fetch t r s = Ret tt s' ->
  (weight t s' < weight t s)%nat /\ (forall k, k ∈ m_fibers s' -> k ∈ m_fibers s).
Proof.
  intros Hel Hr Ha E. unfold fetch in E. destruct (search t (m_fibers s)) as [[o q] tell] eqn:Es. apply search_spec in Es as (Q1 & Q2 & _).
  set (s1 := if tell then tickle 1 s else s) in E.
  assert (w s1 = w s /\ m_fibers s1 = m_fibers s) as [W Q] by (by destruct tell). clearbody s1.
  unfold weight at 2. rewrite Hr, Ha. destruct o as [k|].
  - destruct (Q1 k eq_refl) as [Hq _]. destruct (is_task k) eqn:Et; [|done]. injection E as <-. unfold weight. cbn. rewrite lookup_insert_eq. cbn.
    rewrite Et, W, Hq. cbn [length]. split; [destruct (bool_decide _); lia|]. intros k' Hk. rewrite Hq. by right.
  - destruct (Q2 eq_refl) as [-> Hno]. injection E as <-. unfold weight. cbn. rewrite lookup_insert_eq. cbn. rewrite W, Q.
    destruct (m_fibers s) as [|k q] eqn:Hq; [|exfalso; destruct (Hno k) as [H1 H2]; [left|]; destruct (Hel k); [left|done|done]].
    split; [|done]. cbn. destruct (bool_decide (state_of _ _ = _)); lia.
Qed.

(** The parts of the weight, for a thread with locals [r]. *)
Lemma weight_home_back t r s : runs s !! t = Some r -> home t s = true -> cur r <> None -> (weight t (back t r s) < weight t s)%nat.
Proof.
  intros Hr Hh Hc. unfold weight at 2. rewrite Hr, Hh. unfold back, cur in *.
  destruct (at_ r); try done; unfold weight; cbn; rewrite lookup_insert_eq; cbn; destruct (bool_decide _); lia.
Qed.

Definition same_idle (r : locals) (x x' : world) : Prop := state_of (idle_fiber r) x' = state_of (idle_fiber r) x.

(** The fiber on the processor leaves, or is about to. *)
Lemma enter_weight t r s x :
  runs s !! t = Some r -> in_task r = true -> home t s = false -> leaving (thread t (w s)) = None ->
  home t (with_w x s) = false -> is_Some (leaving (thread t x)) -> same_idle r (w s) x ->
  (weight t (with_w x s) < weight t s)%nat.
Proof.
  intros Hr Hi Hh Hl Hh' [e He] Hs. unfold weight. cbn. rewrite Hr, Hh, Hl, Hh', He, Hs. unfold in_task in Hi.
  destruct (at_ r); try done; destruct (bool_decide _); lia.
Qed.

Lemma switch_weight t r s x :
  runs s !! t = Some r -> cur r <> None -> home t s = false -> is_Some (leaving (thread t (w s))) ->
  home t (with_w x s) = true -> same_idle r (w s) x -> (weight t (with_w x s) < weight t s)%nat.
Proof.
  intros Hr Hc Hh [e He] Hh' Hs. unfold weight. cbn. rewrite Hr, Hh, He, Hh', Hs. unfold cur in Hc.
  destruct (at_ r); try done; destruct (bool_decide _); try destruct (stopping s); lia.
Qed.

Lemma idle_weight t r s x :
  runs s !! t = Some r -> at_ r = InIdle -> home t s = false -> leaving (thread t (w s)) = None ->
  home t (with_w x s) = true -> (stopping s = true -> state_of (idle_fiber r) x = Some TERM) ->
  (weight t (with_w x s) < weight t s)%nat.
Proof.
  intros Hr Ha Hh Hl Hh' Hs. unfold weight. cbn. rewrite Hr, Ha, Hh, Hl, Hh'. destruct (stopping s) eqn:Es.
  - rewrite (bool_decide_true _ (Hs eq_refl)). lia.
  - destruct (bool_decide _); lia.
Qed.

Lemma dispatch_weight t r r' k s s' :
  runs s !! t = Some r -> at_ r = Took k -> runs s' = <[t := r']> (runs s) -> m_fibers s' = m_fibers s ->
  idle_fiber r' = idle_fiber r ->
  (is_task k = true -> in_task r' = true /\ home t s' = false /\ leaving (thread t (w s')) = None /\ same_idle r (w s) (w s')) ->
  (is_task k = false -> at_ r' = Left
     \/ at_ r' = InIdle /\ home t s' = false /\ leaving (thread t (w s')) = None /\ state_of (idle_fiber r) (w s) <> Some TERM
        /\ (m_fibers s = [] -> stopping s' = true)) ->
  (weight t s' < weight t s)%nat.
Proof.
  intros Hr Ha R Q Hi H1 H2. unfold weight. rewrite Hr, Ha, R, lookup_insert_eq, Hi, Q. destruct (is_task k).
  - destruct (H1 eq_refl) as (Hin & Hh & Hl & Hs). rewrite Hh, Hl, Hs. unfold in_task in Hin. destruct (at_ r'); try done; lia.
  - destruct (H2 eq_refl) as [->|(-> & Hh & Hl & Hs & Hq)].
    + destruct (bool_decide (state_of (idle_fiber r) (w s) = Some TERM)), (bool_decide (m_fibers s = [])); lia.
    + rewrite Hh, Hl, (bool_decide_false (state_of (idle_fiber r) (w s) = Some TERM) Hs). destruct (m_fibers s).
      * rewrite Hq by done. cbn. lia.
      * rewrite bool_decide_false by done. destruct (stopping s'); lia.
Qed.

Lemma collect_one {X} (g : locals -> list X) t r s :
  (forall t', is_Some (runs s !! t') -> t' = t) -> runs s !! t = Some r -> collect g (runs s) ≡ₚ g r.
Proof.
  intros Ho Hr. rewrite (collect_lookup g _ _ _ Hr). replace (delete t (runs s)) with (∅ : gmap Z locals); [cbn; by rewrite app_nil_r|].
  apply map_eq. intros t'. rewrite lookup_empty. symmetry. destruct (decide (t' = t)) as [->|Hne]; [apply lookup_delete_eq|].
  rewrite lookup_delete_ne by done. destruct (runs s !! t') eqn:E; [|done]. exfalso. eauto.
Qed.

(** A thread that has resumed [f] is away from its scheduling fiber. *)
Lemma moved_away t sf f x e s s' : D t sf s -> moved t f x e (w s) (w s') -> e <> sf -> home t s' = false.
Proof.
  intros HD Hm Hne. apply not_true_iff_false. intros (y & H1 & H2)%home_spec.
  rewrite (mv_sched _ _ _ _ _ _ Hm), (sched_fiber t sf s HD) in H2. rewrite (mv_exec _ _ _ _ _ _ Hm) in H1. congruence.
Qed.

Lemma dispatch_shrinks cfg t sf r k h s' :
  HInv h -> D t sf (h_s h) -> m_stopping (h_s h) = true -> runs (h_s h) !! t = Some r -> home t (h_s h) = true -> at_ r = Took k ->
  dispatch cfg t r k (h_s h) = Ret tt s' -> (weight t s' < weight t (h_s h))%nat.
Proof.
  intros HI HD Hst Hr Hh Ha E. pose proof (hi_G _ HI) as HG. pose proof (g_runs _ HG t r Hr) as Hok. set (s := h_s h) in *.
  apply (home_one t sf s HD) in Hh. pose proof (ro_idle _ _ _ Hok) as Hik.
  assert (cb_fiber r = None) as Hcb by (pose proof (ro_cur _ _ _ Hok) as Hc; by rewrite Ha in Hc).
  assert (taken t s = fiber k) as Htk by (unfold taken, place_of; rewrite Hr; cbn; by rewrite Ha).
  unfold dispatch in E. destruct (fiber k) as [f|] eqn:Ef; [|destruct (cb k) as [c|] eqn:Ec].
  - assert (is_task k = true) as Hk by (apply bool_decide_eq_true; rewrite Ef; eauto).
    apply obind_inv in E as ([] & s1 & (x & E1 & ->)%on_fibers_inv & [= <-]).
    destruct (ro_task _ _ _ Hok k) as [_ Hv]; [unfold held; rewrite Ha, Hk; left|]. destruct (Hv f Ef) as [Hkind Hni].
    destruct (d_took _ _ _ HD f Htk) as [Hsr _]. pose proof (user_of_kind t sf f s HD Hkind) as Hu. pose proof Hu as (_ & Hne & _)%user_true.
    destruct (resume_ok t sf f (w s) (d_fib _ _ _ HD) Hu Hsr Hh) as (x' & E' & _ & Hm & Hl).
    assert (x' = x) as -> by congruence. eapply dispatch_weight; try done; [|by rewrite Hk]. intros _. split; [done|].
    split; [by eapply (moved_away t sf f)|]. split; [done|]. apply Hm. by apply (Hni t r).
  - assert (is_task k = true) as Hk by (apply bool_decide_eq_true; rewrite Ec; eauto).
    apply obind_inv in E as (g & s1 & (x & E0 & ->)%on_fibers_inv & E).
    apply obind_inv in E as ([] & s2 & (x2 & E1 & ->)%on_fibers_inv & [= <-]). rewrite Hcb in E0. cbn [w with_w] in E1.
    destruct (D_new cfg t sf c s HG HD) as (x0 & E0' & HD1 & Hkind & Hsr & _ & Hth).
    destruct (new_fiber_frame cfg (Some c) 0 true (w s) t (s_fiberId (w s)) (g_ids _ HG)) as (x1 & E0'' & F & Kn & _).
    assert (g = s_fiberId (w s) /\ x0 = x /\ x1 = x) as (-> & -> & ->) by (repeat split; congruence). set (g := s_fiberId (w s)) in *.
    pose proof (user_of_kind t sf g _ HD1 Hkind) as Hu. pose proof Hu as (_ & Hne & _)%user_true.
    assert (executing (thread t x) = Some sf) as Hh1 by (by rewrite Hth).
    destruct (resume_ok t sf g x (d_fib _ _ _ HD1) Hu Hsr Hh1) as (x' & E' & _ & Hm & Hl).
    assert (x' = x2) as -> by congruence. eapply dispatch_weight; try done; [|by rewrite Hk]. intros _. split; [done|].
    split; [by eapply (moved_away t sf g _ _ (with_w x s))|]. split; [done|].
    assert (idle_fiber r <> g) as Hig by (intros Hx; rewrite Hx in Hik; congruence).
    unfold same_idle. cbn. rewrite (mv_other _ _ _ _ _ _ Hm) by done. apply (fr_state _ _ _ _ F); [done|eauto].
  - assert (is_task k = false) as Hk by (apply bool_decide_eq_false; rewrite Ef, Ec; intros [[? ?]|[? ?]]; done).
    destruct (decide _) as [Ht|Ht].
    + injection E as <-. eapply dispatch_weight; try done; [by rewrite Hk|]. intros _. by left.
    + apply obind_inv in E as ([] & s1 & (x & E1 & ->)%on_fibers_inv & [= <-]). cbn [w add_idle] in E1.
      pose proof (user_of_kind t sf _ s HD Hik) as Hu. pose proof Hu as ([F HF] & Hne & Hth)%user_true.
      assert (state_of (idle_fiber r) (w s) = Some READY) as Hsr.
      { rewrite (state_some _ _ _ HF) in *. destruct (inv_user _ _ _ (d_fib _ _ _ HD) _ F HF Hne Hth) as (_ & _ & Hrest).
        destruct Hrest as [[-> _]|?]; congruence. }
      destruct (resume_ok t sf _ (w s) (d_fib _ _ _ HD) Hu Hsr Hh) as (x' & E' & _ & Hm & Hl). assert (x' = x) as -> by congruence.
      eapply dispatch_weight; try done; [by rewrite Hk|]. intros _. right. split; [done|].
      split; [by eapply (moved_away t sf (idle_fiber r))|]. split; [done|]. split; [done|]. intros Hq. unfold stopping. cbn.
      pose proof (hi_active _ HI) as Hact. fold s in Hact. rewrite Hst, Hq, Hact, (zlen_perm _ _ (collect_one held t r _ (d_runs _ _ _ HD) Hr)). unfold held. rewrite Ha, Hk. done.
Qed.

(** A step towards the end: what it keeps and that it makes progress. *)
Definition progress (t : Z) (s s' : sched) : Prop :=
  (weight t s' < weight t s)%nat /\ (forall k, k ∈ m_fibers s' -> k ∈ m_fibers s) /\ m_stopping s' = m_stopping s
  /\ is_Some (place_of t s').

Lemma progress_world t r s x : runs s !! t = Some r -> (weight t (with_w x s) < weight t s)%nat -> progress t s (with_w x s).
Proof. intros Hr Hw. split; [done|]. split; [done|]. split; [done|]. unfold place_of. cbn. rewrite Hr. eauto. Qed.

Lemma progress_booked t r r' d s s' : booked t r r' d s s' -> (weight t s' < weight t s)%nat ->
  (forall k, k ∈ m_fibers s' -> k ∈ m_fibers s) -> progress t s s'.
Proof.
  intros [B1 _ _ _ (B5 & _)] Hw Hq. split; [done|]. split; [done|]. split; [done|]. unfold place_of. rewrite B1, lookup_insert_eq. eauto.
Qed.

Lemma fetching_home t r s : run_ok t r s -> cur r = None -> at_ r <> Left -> home t s = true.
Proof.
  intros [(sf & b & H1 & _ & _ & H4) _ _ _] Hc HL. destruct (H4 HL) as [[He _]|(e & He & _)]; [|congruence].
  apply home_spec. eauto.
Qed.

Lemma switch_shrinks t sf r s e :
  G s -> D t sf s -> runs s !! t = Some r -> cur r = Some e -> executing (thread t (w s)) = Some e -> home t s = false ->
  leaving (thread t (w s)) = Some e -> exists x, yield_switch t (w s) = Ret tt x /\ (weight t (with_w x s) < weight t s)%nat.
Proof.
  intros HG HD Hr Hc He Hh Hl. destruct (yield_switch_ok t sf e (w s) (d_fib _ _ _ HD) He Hl) as (x & y & E & _ & Hm & _ & Hy & _).
  exists x. split; [done|]. eapply switch_weight; eauto; [by rewrite Hc| |].
  - apply home_spec. exists sf. cbn. split; [apply Hm|]. rewrite (mv_sched _ _ _ _ _ _ Hm). apply (sched_fiber t sf s HD).
  - unfold same_idle. destruct (decide (idle_fiber r = e)) as [->|Hne]; [|by apply Hm]. rewrite Hy. apply Hm.
Qed.

Lemma idle_shrinks t sf r s s' :
  G s -> D t sf s -> runs s !! t = Some r -> at_ r = InIdle -> home t s = false -> leaving (thread t (w s)) = None ->
  idle_round t r s = Ret tt s' -> exists x, s' = with_w x s /\ (weight t s' < weight t s)%nat.
Proof.
  intros HG HD Hr Ha Hh Hl E. assert (at_ r <> Left) as HL by by rewrite Ha.
  destruct (away_one t sf s r HG HD Hr Hh HL Hl) as (e & Hc & He & Hne & Hk & Ht).
  assert (idle_fiber r = e) as Hi by (unfold cur in Hc; rewrite Ha in Hc; congruence).
  destruct (yield_enter_ok t sf e (w s) (d_fib _ _ _ HD) He Hne Hl) as (Hg & (x1 & E1 & I1 & M1 & L1) & x2 & E2 & I2 & M2 & L2).
  assert (forall y x1, Fiber.Inv t sf x1 -> moved t e y e (w s) x1 -> leaving (thread t x1) = Some e ->
    exists x, yield_switch t x1 = Ret tt x /\ home t (with_w x s) = true /\ state_of e x = Some y) as Hsw.
  { intros y x0 I0 M0 L0. destruct (yield_switch_ok t sf e x0 I0 (mv_exec _ _ _ _ _ _ M0) L0) as (x & z & E0 & _ & Hm & _ & Hz & _).
    exists x. split; [done|]. rewrite (mv_self _ _ _ _ _ _ M0) in Hz. injection Hz as <-. split; [|apply Hm].
    apply home_spec. exists sf. cbn. split; [apply Hm|]. rewrite (mv_sched _ _ _ _ _ _ Hm), (mv_sched _ _ _ _ _ _ M0). apply (sched_fiber t sf s HD). }
  unfold idle_round in E. destruct (stopping s) eqn:Es; apply on_fibers_inv in E as (x & E & ->); exists x; (split; [done|]).
  - destruct (Hsw TERM x2 I2 M2 L2) as (x' & E' & Hh' & Hst). unfold finish in E. rewrite Hi, E2 in E. cbn [obind] in E.
    assert (x' = x) as -> by congruence. eapply idle_weight; eauto. intros _. by rewrite Hi.
  - destruct (Hsw READY x1 I1 M1 L1) as (x' & E' & Hh' & Hst). rewrite Hg in E. cbn [obind] in E. unfold yield in E. rewrite E1 in E. cbn [obind] in E.
    assert (x' = x) as -> by congruence. eapply idle_weight; eauto. congruence.
Qed.

Lemma enter_shrinks t sf r s e x y :
  G s -> D t sf s -> runs s !! t = Some r -> in_task r = true -> home t s = false -> leaving (thread t (w s)) = None ->
  cur r = Some e -> moved t e y e (w s) x -> leaving (thread t x) = Some e -> e <> sf -> (weight t (with_w x s) < weight t s)%nat.
Proof.
  intros HG HD Hr Hi Hh Hl Hc Hm Hl' Hne. eapply enter_weight; eauto; [by eapply (moved_away t sf e _ _ s)|].
  unfold same_idle. apply Hm. pose proof (g_runs _ HG t r Hr) as Hok. pose proof (ro_cur _ _ _ Hok) as Hcur.
  unfold cur in Hc. unfold in_task in Hi. destruct (at_ r) as [| |k f|k f| |] eqn:Ha; try done; injection Hc as ->.
  - destruct (ro_task _ _ _ Hok k) as [_ Hv]; [unfold held; rewrite Ha; left|]. destruct Hcur as [Hf _]. by apply (Hv e Hf) in Hr.
  - destruct Hcur as [[_ Hn] _]. by apply (Hn t r).
Qed.

(** The next move is taken, is allowed and makes progress. *)
Definition advances (cfg t : Z) (h : history) : Prop :=
  exists m s', next t (h_s h) = Some m /\ play cfg m h = Some (record m h s') /\ disciplined t m (h_s h) = true
    /\ progress t (h_s h) s' /\ h_submitted (record m h s') = h_submitted h /\ h_late (record m h s') = h_late h.

Section advance.
Context (cfg t : Z) (h : history) (sf : N) (r : locals).
Context (HDI : DInv t h) (HD : D t sf (h_s h)) (Hr : runs (h_s h) !! t = Some r).

Lemma advance m :
  next t (h_s h) = Some m -> enabled m (h_s h) = true -> disciplined t m (h_s h) = true ->
  (forall s', perform cfg m (h_s h) = Ret tt s' -> progress t (h_s h) s') ->
  (forall s', h_submitted (record m h s') = h_submitted h /\ h_late (record m h s') = h_late h) -> advances cfg t h.
Proof.
  intros Hn He Hd Hpr Hrec. destruct (DInv_perform cfg t m h HDI He Hd) as (s' & E & _). exists m, s'. split; [done|].
  split; [unfold play; by rewrite He, E|]. split; [done|]. split; [by apply Hpr|apply Hrec].
Qed.

Let HG : G (h_s h) := hi_G _ (proj1 HDI).
Let Hok : run_ok t r (h_s h) := g_runs _ HG t r Hr.

Lemma advance_back : home t (h_s h) = true -> cur r <> None -> next t (h_s h) = Some (MBack t) -> advances cfg t h.
Proof.
  intros Hh Hc Hn. apply (advance (MBack t)); try done; [cbn; rewrite Hh, bool_decide_true by eauto; done|].
  intros s'. cbn. rewrite Hr. intros [= <-]. destruct (back_ok t r _ HG Hr Hh Hc) as (r' & _ & B & _).
  eapply progress_booked; [done|by apply weight_home_back|]. unfold back. by destruct (at_ r).
Qed.

Lemma advance_switch : home t (h_s h) = false -> at_ r <> Left -> is_Some (leaving (thread t (w (h_s h)))) ->
  next t (h_s h) = Some (MSwitch t) -> advances cfg t h.
Proof.
  intros Hh HL [e Hl] Hn. apply (advance (MSwitch t)); try done.
  - cbn. unfold place_of. rewrite Hr. cbn. rewrite Hl. by destruct (at_ r).
  - intros s'. cbn. intros (x & E & ->)%on_fibers_inv. eapply progress_world; [done|].
    destruct (away_placed t r _ Hok Hh HL) as (sf' & b & e' & _ & _ & _ & Hc & He & [[? _]|Hl']); [congruence|].
    assert (e' = e) as -> by congruence. destruct (switch_shrinks t sf r _ e HG HD Hr Hc He Hh Hl) as (x' & E' & Hlt). congruence.
Qed.

Lemma advance_idle : home t (h_s h) = false -> at_ r = InIdle -> leaving (thread t (w (h_s h))) = None ->
  next t (h_s h) = Some (MIdle t) -> advances cfg t h.
Proof.
  intros Hh Ha Hl Hn. apply (advance (MIdle t)); try done.
  - cbn. unfold place_of. rewrite Hr. cbn. by rewrite Ha, Hh, Hl.
  - intros s'. cbn. rewrite Hr. intros E. destruct (idle_shrinks t sf r _ s' HG HD Hr Ha Hh Hl E) as (x & -> & Hlt). by eapply progress_world.
Qed.

Lemma advance_leave e : home t (h_s h) = false -> in_task r = true -> leaving (thread t (w (h_s h))) = None ->
  executing (thread t (w (h_s h))) = Some e ->
  next t (h_s h) = Some (if bool_decide (e ∈ queued (h_s h)) then MYield t else MFinish t) -> advances cfg t h.
Proof.
  intros Hh Hi Hl He Hn. pose proof (in_task_left r Hi) as HL.
  destruct (away_one t sf _ r HG HD Hr Hh HL Hl) as (e' & Hc & He' & Hne & Hk & Ht). assert (e' = e) as -> by congruence.
  destruct (yield_enter_ok t sf e _ (d_fib _ _ _ HD) He Hne Hl) as (Hg & (x1 & E1 & I1 & M1 & L1) & x2 & E2 & I2 & M2 & L2).
  assert (busy t (h_s h) = true) as Hb by (unfold busy; rewrite Hr, Hi, Hh, Hl; done).
  apply (advance _ Hn).
  - case_bool_decide; cbn; rewrite Hb, He; done.
  - case_bool_decide as Hq; cbn; [done|]. rewrite He. by apply bool_decide_eq_true.
  - intros s'. case_bool_decide; cbn.
    + intros (x & E & ->)%on_fibers_inv. rewrite Hg in E. cbn [obind] in E. assert (x1 = x) as -> by congruence.
      eapply progress_world; [done|]. by eapply (enter_shrinks t sf r).
    + rewrite He. intros (x & E & ->)%on_fibers_inv. assert (x2 = x) as -> by congruence.
      eapply progress_world; [done|]. by eapply (enter_shrinks t sf r).
  - intros s'. by case_bool_decide.
Qed.

Lemma advance_task : in_task r = true -> advances cfg t h.
Proof.
  intros Hi. pose proof (in_task_left r Hi) as HL.
  assert (next t (h_s h) = Some (if home t (h_s h) then MBack t else
            if leaving (thread t (w (h_s h))) is Some _ then MSwitch t else
            if executing (thread t (w (h_s h))) is Some f then if bool_decide (f ∈ queued (h_s h)) then MYield t else MFinish t
            else MFinish t)) as Hn.
  { unfold next, place_of. rewrite Hr. cbn. unfold in_task in Hi. by destruct (at_ r). }
  destruct (home t (h_s h)) eqn:Hh.
  - apply advance_back; [done| |done]. unfold cur. unfold in_task in Hi. by destruct (at_ r).
  - destruct (leaving (thread t (w (h_s h)))) as [e|] eqn:Hl; [apply advance_switch; eauto|].
    destruct (away_one t sf _ r HG HD Hr Hh HL Hl) as (e & _ & He & _). rewrite He in Hn. by apply (advance_leave e).
Qed.

Lemma advance_loop :
  m_stopping (h_s h) = true -> (forall k, k ∈ m_fibers (h_s h) -> runs_on t k) -> at_ r <> Left -> advances cfg t h.
Proof.
  intros Hst Hel HL. assert (place_of t (h_s h) = Some (at_ r)) as Hp by (unfold place_of; by rewrite Hr).
  destruct (at_ r) as [|k|k f|k f| |] eqn:Ha; try done; try (apply advance_task; unfold in_task; by rewrite Ha).
  - assert (home t (h_s h) = true) as Hh by (apply (fetching_home t r); [done|unfold cur; by rewrite Ha|by rewrite Ha]).
    apply (advance (MFetch t)); try done; [unfold next; by rewrite Hp|cbn; by rewrite Hp|].
    intros s'. cbn. rewrite Hr. intros E. destruct (fetch_weight t r _ s' Hel Hr Ha E) as [Hlt Hq].
    destruct (fetch_ok t r _ s' HG Hr Hh Ha E) as (r' & _ & B & _). by eapply progress_booked.
  - assert (home t (h_s h) = true) as Hh by (apply (fetching_home t r); [done|unfold cur; by rewrite Ha|by rewrite Ha]).
    apply (advance (MDispatch t)); try done; [unfold next; by rewrite Hp|cbn; by rewrite Hp|].
    intros s'. cbn. rewrite Hr, Ha. intros E.
    destruct (dispatch_ok cfg t r k _ s' HG Hr Hh Ha E) as (r' & _ & B & _ & Hq & _). eapply progress_booked; [done| |by rewrite Hq].
    eapply dispatch_shrinks; eauto. apply HDI.
  - destruct (home t (h_s h)) eqn:Hh.
    + apply advance_back; [done|unfold cur; by rewrite Ha|unfold next; by rewrite Hp, Hh].
    + destruct (leaving (thread t (w (h_s h)))) as [e|] eqn:Hl.
      * apply advance_switch; [done|by rewrite Ha|eauto|unfold next; by rewrite Hp, Hh, Hl].
      * apply advance_idle; try done. unfold next. by rewrite Hp, Hh, Hl.
Qed.

End advance.

(** C16. [stop] comes to its end when the tasks do.  A scheduler with one thread
    whose loop runs, after [stop] was called, in a history without submissions
    from outside since then ([h_late]), and with every queued task one that this
    thread may run: when from now on nothing is submitted and each task that
    runs ends at once (or yields once more, when it has already submitted
    itself), which are the moves of [next], then within [weight] steps the loop
    is left, no step fails, and by then every task was executed as often as it
    was submitted.  ([Scheduler.foreign_task_never_runs] shows a queued task for
    another thread, with which [stop] never ends.) *)
Theorem stop_completes (cfg t : Z) (h : history) :
  dreach cfg t h -> m_stopping (h_s h) = true -> h_late h = false -> is_Some (place_of t (h_s h)) ->
  (forall k, k ∈ m_fibers (h_s h) -> runs_on t k) ->
  exists h', drain cfg t (weight t (h_s h)) h = Some h' /\ dreach cfg t h' /\ place_of t (h_s h') = Some Left
    /\ h_submitted h' = h_submitted h /\ h_submitted h' ≡ₚ (h_executed h').*2.
Proof.
  enough (forall n h, (weight t (h_s h) <= n)%nat -> dreach cfg t h -> m_stopping (h_s h) = true -> h_late h = false ->
    is_Some (place_of t (h_s h)) -> (forall k, k ∈ m_fibers (h_s h) -> runs_on t k) ->
    exists h', drain cfg t n h = Some h' /\ dreach cfg t h' /\ place_of t (h_s h') = Some Left
      /\ h_submitted h' = h_submitted h /\ h_submitted h' ≡ₚ (h_executed h').*2) by eauto.
  clear h. intros n. induction n as [|n IH]; intros h Hn Hd Hst Hl [a Hp] Hel.
  all: pose proof (dreach_inv _ _ _ Hd) as HDI; pose proof HDI as [HI HD0]; apply place_of_inv in Hp as Hp'; destruct Hp' as (r & Hr & Ha).
  all: assert (a = Left \/ a <> Left) as [->|HL] by (destruct a; auto; by right).
  1, 3: exists h; unfold drain, next; rewrite Hp; do 4 (split; [done|]); destruct (hi_quiet _ HI Hl) as (_ & Q2 & Q3); [by exists t, r; auto|];
    by rewrite (hi_tasks _ HI), Q2, Q3.
  all: assert (exists sf, D t sf (h_s h)) as [sf HD] by (destruct HD0 as [HP|[?|HO]]; [|done|]; exfalso;
    [by rewrite (p_runs _ _ HP), lookup_empty in Hr|destruct HO as (_ & HO & _); congruence]).
  all: destruct (advance_loop cfg t h sf r HDI HD Hr Hst Hel ltac:(congruence)) as (m & s' & Hnx & Hplay & Hdis & (Hlt & Hq & Hs' & Hp'') & R1 & R2).
  - exfalso. lia.
  - destruct (IH (record m h s')) as (h' & E & D' & P' & S' & X').
    + rewrite record_s. lia.
    + by eapply dreach_step.
    + rewrite record_s. congruence.
    + congruence.
    + by rewrite record_s.
    + rewrite record_s. auto.
    + exists h'. split; [cbn [drain]; rewrite Hnx, Hplay; done|]. rewrite <- R1. done.
Qed.

Lemma stop_completes_witness :
  exists h', drain 131072 5 (weight 5 (h_s caller_end)) caller_end = Some h' /\ place_of 5 (h_s h') = Some Left /\ [self; self] ≡ₚ (h_executed h').*2.
Proof.
  destruct (stop_completes 131072 5 caller_end caller_end_reached eq_refl eq_refl) as (h' & H1 & _ & H3 & H4 & H5).
  - vm_compute. eexists. reflexivity.
  - intros k Hk. vm_compute in Hk. by apply not_elem_of_nil in Hk.
  - exists h'. split; [exact H1|]. split; [exact H3|]. rewrite <- H5, H4. vm_compute. reflexivity.
Defined.

End SchedulerSafety.
