(* ===== verification/Address.v ===== *)
(** * Socket addresses: [luwu/luwu/address.cpp]

    The four classes of addresses are the constructors of [Address], each with
    the fields of its [sockaddr].  A field in network byte order is kept as the
    integer the host reads there.  [getaddrinfo], [inet_pton] and [getifaddrs]
    are parameters. *)
From S2P Require Import Prelude StdString StdMap Codec.
Import StdString Codec.
Local Open Scope Z_scope.

Module Address.

Definition AF_UNSPEC : Z := 0.
Definition AF_UNIX : Z := 1.
Definition AF_INET : Z := 2.
Definition AF_INET6 : Z := 10.

Record sockaddr_in := MkIn { sin_port : Z; s_addr : Z; sin_zero : str }.
Record sockaddr_in6 := MkIn6 { sin6_port : Z; sin6_flowinfo : Z; s6_addr : str; sin6_scope_id : Z }.

(** What a [const sockaddr *] designates. *)
Inductive sockaddr := SaIn (a : sockaddr_in) | SaIn6 (a : sockaddr_in6) | SaOther (family : Z) (sa_data : str).

Inductive Address :=
| IPv4Address (m_addr : sockaddr_in)
| IPv6Address (m_addr : sockaddr_in6)
| UnixAddress (sun_path : str) (m_length : Z)
| UnknownAddress (family : Z) (sa_data : str).

(** [CreateMask<T>] for a type of [w] bits: the shift and the subtraction are
    those of [int]. *)
Definition CreateMask (w bits : Z) : option Z :=
  let sh := w - bits in
  if bool_decide (0 <= sh < 31) then Some (uw w (Z.shiftl 1 sh - 1)) else None.

(** [CountBytes]: the loop clears the lowest bit that is set. *)
Fixpoint CountBytes_loop (fuel : nat) (value result : Z) : option Z :=
  match fuel with
  | O => None
  | S fuel => if value =? 0 then Some result else CountBytes_loop fuel (Z.land value (value - 1)) (result + 1)
  end.
Definition CountBytes (value : Z) : option Z := CountBytes_loop (S (S (Z.to_nat (Z.log2 value)))) value 0.

Section with_platform.
Context `{!Platform}.

(** ** Object representations and comparison *)
Definition repr (a : Address) : str :=
  match a with
  | IPv4Address a => host_bytes 2 AF_INET ++ host_bytes 2 (sin_port a) ++ host_bytes 4 (s_addr a) ++ sin_zero a
  | IPv6Address a => host_bytes 2 AF_INET6 ++ host_bytes 2 (sin6_port a) ++ host_bytes 4 (sin6_flowinfo a) ++ s6_addr a
                     ++ host_bytes 4 (sin6_scope_id a)
  | UnixAddress p _ => host_bytes 2 AF_UNIX ++ p
  | UnknownAddress f d => host_bytes 2 f ++ d
  end.
Definition getAddrLen (a : Address) : Z :=
  match a with
  | IPv4Address _ => 16
  | IPv6Address _ => 28
  | UnixAddress _ n => n
  | UnknownAddress _ _ => 16
  end.
Definition getFamily (a : Address) : Z :=
  match a with
  | IPv4Address _ => AF_INET
  | IPv6Address _ => AF_INET6
  | UnixAddress _ _ => AF_UNIX
  | UnknownAddress f _ => f
  end.

(** The arrays have their sizes, and [setAddrLen] was not given more than the
    object has. *)
Definition wf (a : Address) : bool :=
  match a with
  | IPv4Address a => zlen (sin_zero a) =? 8
  | IPv6Address a => zlen (s6_addr a) =? 16
  | UnixAddress p n => (zlen p =? 108) && (0 <=? n) && (n <=? 110)
  | UnknownAddress _ d => zlen d =? 14
  end.

(** [memcmp]. *)
Definition memcmp (n : Z) (a b : str) : comparison := compare (ztake n a) (ztake n b).

(** [operator<], [operator==] and [operator!=]. *)
Definition lt (a b : Address) : bool :=
  match memcmp (Z.min (getAddrLen a) (getAddrLen b)) (repr a) (repr b) with
  | Lt => true
  | Gt => false
  | Eq => getAddrLen a <? getAddrLen b
  end.
Definition eq (a b : Address) : bool :=
  (getAddrLen a =? getAddrLen b) && match memcmp (getAddrLen a) (repr a) (repr b) with Eq => false | _ => true end.
Definition ne (a b : Address) : bool := negb (eq a b).

(** ** [IPv4Address] *)
Definition IPv4 (address port : Z) : Address :=
  IPv4Address (MkIn (byteSwapOnLittleEndian 2 port) (byteSwapOnLittleEndian 4 address) (replicate 8 Byte.x00)).

(** [inet_pton(AF_INET, ...)] gives the four bytes of the address. *)
Definition IPv4_Create (inet_pton : str -> option str) (address : str) (port : Z) : option Address :=
  match inet_pton address with
  | Some b => Some (IPv4Address (MkIn (byteSwapOnLittleEndian 2 port) (host_val b) (replicate 8 Byte.x00)))
  | None => None
  end.

Definition with_s_addr (v : Z) (a : sockaddr_in) : sockaddr_in := MkIn (sin_port a) v (sin_zero a).

(** The results are [None] for a null pointer. *)
Definition broadcastAddress4 (a : sockaddr_in) (prefix_len : Z) : outcome unit (option Address) :=
  if 32 <? prefix_len then Ret None tt else
  match CreateMask 32 prefix_len with
  | None => UB
  | Some m => Ret (Some (IPv4Address (with_s_addr (Z.lor (s_addr a) (byteSwapOnLittleEndian 4 m)) a))) tt
  end.
Definition networkAddress4 (a : sockaddr_in) (prefix_len : Z) : outcome unit (option Address) :=
  if 32 <? prefix_len then Ret None tt else
  match CreateMask 32 prefix_len with
  | None => UB
  | Some m => Ret (Some (IPv4Address (with_s_addr (Z.land (s_addr a) (byteSwapOnLittleEndian 4 (u32 (Z.lnot m)))) a))) tt
  end.
Definition subnetMask4 (prefix_len : Z) : outcome unit (option Address) :=
  if 32 <? prefix_len then Ret None tt else
  match CreateMask 32 prefix_len with
  | None => UB
  | Some m => Ret (Some (IPv4Address (MkIn 0 (u32 (Z.lnot (byteSwapOnLittleEndian 4 m))) (replicate 8 Byte.x00)))) tt
  end.

Definition dump4 (a : sockaddr_in) : str :=
  let address := byteSwapOnLittleEndian 4 (s_addr a) in
  to_string (Z.land (Z.shiftr address 24) 0xff) ++ bs "." ++ to_string (Z.land (Z.shiftr address 16) 0xff) ++ bs "."
  ++ to_string (Z.land (Z.shiftr address 8) 0xff) ++ bs "." ++ to_string (Z.land address 0xff)
  ++ bs ":" ++ to_string (byteSwapOnLittleEndian 2 (sin_port a)).

(** ** [IPv6Address] *)
Definition IPv6 (address : str) (port : Z) : Address :=
  IPv6Address (MkIn6 (byteSwapOnLittleEndian 2 port) 0 (ztake 16 address) 0).
Definition IPv6_default : Address := IPv6Address (MkIn6 0 0 (replicate 16 Byte.x00) 0).
Definition IPv6_Create (inet_pton : str -> option str) (address : str) (port : Z) : option Address :=
  match inet_pton address with
  | Some b => Some (IPv6Address (MkIn6 (byteSwapOnLittleEndian 2 port) 0 b 0))
  | None => None
  end.

Definition with_s6_addr (v : str) (a : sockaddr_in6) : sockaddr_in6 := MkIn6 (sin6_port a) (sin6_flowinfo a) v (sin6_scope_id a).

(** Change the byte at [prefix_len / 8] and set the following ones: the index
    is not checked. *)
Definition edit6 (f : byte -> byte) (fill : byte) (prefix_len : Z) (l : str) : outcome unit str :=
  let q := Z.to_nat (prefix_len / 8) in
  match l !! q with
  | None => UB
  | Some b => Ret (take q l ++ f b :: replicate (15 - q) fill) tt
  end.
Definition mask8 (bits : Z) : Z := default 0 (CreateMask 8 bits).

Definition broadcastAddress6 (a : sockaddr_in6) (prefix_len : Z) : outcome unit Address :=
  let* l, u := edit6 (fun b => z2b (Z.lor (b2z b) (mask8 (prefix_len mod 8)))) Byte.xff prefix_len (s6_addr a) in
  Ret (IPv6Address (with_s6_addr l a)) u.
Definition networkAddress6 (a : sockaddr_in6) (prefix_len : Z) : outcome unit Address :=
  let* l, u := edit6 (fun b => z2b (Z.land (b2z b) (mask8 (prefix_len mod 8)))) Byte.x00 prefix_len (s6_addr a) in
  Ret (IPv6Address (with_s6_addr l a)) u.
Definition subnetMask6 (prefix_len : Z) : outcome unit Address :=
  let q := Z.to_nat (prefix_len / 8) in
  if 128 <=? prefix_len then UB
  else Ret (IPv6Address (MkIn6 0 0 (replicate q Byte.xff ++ z2b (Z.lnot (mask8 (prefix_len mod 8))) :: replicate (15 - q) Byte.x00) 0)) tt.

(** [operator<< std::hex] of a non-negative integer. *)
Definition hex_digit (d : Z) : byte := if d <? 10 then z2b (48 + d) else z2b (87 + d).
Fixpoint hex_loop (fuel : nat) (n : Z) (acc : str) : str :=
  match fuel with
  | O => acc
  | S fuel => if n <? 16 then hex_digit n :: acc else hex_loop fuel (n / 16) (hex_digit (n mod 16) :: acc)
  end.
Definition hex (n : Z) : str := hex_loop (S (Z.to_nat (Z.log2 n))) n [].

(** [s6_addr] as an array of [uint16_t]. *)
Fixpoint words (l : str) : list Z :=
  match l with
  | a :: b :: l => host_val [a; b] :: words l
  | _ => []
  end.

(** The loop of [dump]: [first] is [i == 0], [prev] is [addr[i - 1]]; the result
    has the text and [used_zeros]. *)
Fixpoint dump6_loop (ws : list Z) (first : bool) (prev : Z) (used_zeros : bool) : str * bool :=
  match ws with
  | [] => ([], used_zeros)
  | w :: ws =>
      if (w =? 0) && negb used_zeros then dump6_loop ws false w used_zeros
      else
        let mark := negb first && (prev =? 0) && negb used_zeros in
        let '(text, used) := dump6_loop ws false w (used_zeros || mark) in
        ((if mark then bs ":" else []) ++ (if first then [] else bs ":") ++ hex (byteSwapOnLittleEndian 2 w) ++ text, used)
  end.
Definition dump6 (a : sockaddr_in6) : str :=
  let ws := words (s6_addr a) in
  let '(text, used_zeros) := dump6_loop ws true 0 false in
  bs "[" ++ text ++ (if negb used_zeros && (List.last ws 1 =? 0) then bs "::" else [])
  ++ bs "]:" ++ to_string (byteSwapOnLittleEndian 2 (sin6_port a)).

(** ** [IPAddress] *)
Definition getPort (a : Address) : option Z :=
  match a with
  | IPv4Address a => Some (byteSwapOnLittleEndian 2 (sin_port a))
  | IPv6Address a => Some (byteSwapOnLittleEndian 2 (sin6_port a))
  | _ => None
  end.
Definition setPort (p : Z) (a : Address) : Address :=
  match a with
  | IPv4Address a => IPv4Address (MkIn (byteSwapOnLittleEndian 2 p) (s_addr a) (sin_zero a))
  | IPv6Address a => IPv6Address (MkIn6 (byteSwapOnLittleEndian 2 p) (sin6_flowinfo a) (s6_addr a) (sin6_scope_id a))
  | a => a
  end.

(** [dynamic_pointer_cast<IPAddress>]. *)
Definition is_ip (a : Address) : bool := match a with IPv4Address _ | IPv6Address _ => true | _ => false end.

(** ** [UnixAddress] *)
Definition MAX_PATH_LENGTH : Z := 107.
Definition Unix_default : Address := UnixAddress (replicate 108 Byte.x00) (2 + MAX_PATH_LENGTH).

(** The bytes copied are those of [path] and of its terminating NUL. *)
Definition Unix (path : str) : outcome unit Address :=
  let len := zlen path + 1 - (if bool_decide (head path = Some Byte.x00) then 1 else 0) in
  if 108 <? len then Throw LogicError tt
  else Ret (UnixAddress (ztake len (path ++ [Byte.x00]) ++ replicate (Z.to_nat (108 - len)) Byte.x00) (u32 (len + 2))) tt.

Definition getPath (sun_path : str) (m_length : Z) : str :=
  if (2 <? m_length) && bool_decide (head sun_path = Some Byte.x00)
  then bs "\0" ++ zsub 1 (m_length - 2 - 1) sun_path
  else c_str sun_path.

Definition dump (a : Address) : str :=
  match a with
  | IPv4Address a => dump4 a
  | IPv6Address a => dump6 a
  | UnixAddress p n => getPath p n
  | UnknownAddress f _ => bs "[UnknownAddress family=" ++ to_string f ++ bs "]"
  end.

(** ** Lookup *)
Definition Create (addr : option sockaddr) : option Address :=
  match addr with
  | None => None
  | Some (SaIn a) => Some (IPv4Address a)
  | Some (SaIn6 a) => Some (IPv6Address a)
  | Some (SaOther f d) => Some (UnknownAddress f d)
  end.

(** [IPAddress::Create]; [numeric] is [getaddrinfo] with AI_NUMERICHOST, of
    whose results the first is taken. *)
Definition IPAddress_Create (numeric : str -> option sockaddr) (address : str) (port : Z) : option Address :=
  match numeric address with
  | None => None
  | Some sa =>
      match Create (Some sa) with
      | Some a => if is_ip a then Some (setPort port a) else None
      | None => None
      end
  end.

(** The node and the service that [Lookup] asks for. *)
Definition lookup_args (host : str) : str * option str :=
  let c := c_str host in
  let '(node, service) :=
    if bool_decide (head host = Some (z2b 91)) then
      match find_if (eqb_char (z2b 93)) c with
      | Some i =>
          (zsub 1 (i - 1) host,
           if bool_decide (c !! Z.to_nat (i + 1) = Some (z2b 58)) then Some (zdrop (i + 2) c) else None)
      | None => ([], None)
      end
    else ([], None) in
  let '(node, service) :=
    if bool_decide (node = []) then
      match find_if (eqb_char (z2b 58)) host with
      | Some i =>
          let rest := c_str (zdrop i host) in
          if bool_decide (is_Some (find_if (eqb_char (z2b 58)) (zdrop 1 rest))) then (node, Some rest)
          else (ztake i host, Some (zdrop 1 rest))
      | None => (node, None)
      end
    else (node, service) in
  (c_str (if bool_decide (node = []) then host else node), service).

Section resolver.
(** [getaddrinfo(node, service, {family, type, protocol})]: [None] is an error. *)
Context (getaddrinfo : str -> option str -> Z -> Z -> Z -> option (list sockaddr)).

Definition Lookup (host : str) (family type protocol : Z) : option (list Address) :=
  let '(node, service) := lookup_args host in
  match getaddrinfo node service family type protocol with
  | None => None
  | Some l => let results := omap (fun a => Create (Some a)) l in if bool_decide (results = []) then None else Some results
  end.
Definition LookupAny (host : str) (family type protocol : Z) : option Address :=
  match Lookup host family type protocol with Some l => head l | None => None end.
Definition LookupAnyIPAddress (host : str) (family type protocol : Z) : option Address :=
  match Lookup host family type protocol with Some l => head (filter (fun a => is_ip a = true) l) | None => None end.
End resolver.

(** ** Interfaces: name, address and netmask; an interface may have none. *)
Record ifaddr := MkIf { ifa_name : str; ifa_addr : option sockaddr; ifa_netmask : sockaddr }.

Definition sa_family (a : sockaddr) : Z := match a with SaIn _ => AF_INET | SaIn6 _ => AF_INET6 | SaOther f _ => f end.
Definition prefix_length (netmask : sockaddr) : option Z :=
  match netmask with
  | SaIn m => CountBytes (s_addr m)
  | SaIn6 m => foldr (fun b n => c ← CountBytes (b2z b); n ← n; Some (c + n)) (Some 0) (s6_addr m)
  | SaOther _ _ => Some 0
  end.

(** [GetInterfaceAddress(multimap &, family)]: [None] is [getifaddrs] failing.
    Equal keys keep the order of insertion. *)
Fixpoint interfaces (family : Z) (l : list ifaddr) : outcome unit (list (str * (Address * Z))) :=
  match l with
  | [] => Ret [] tt
  | x :: l =>
      match ifa_addr x with
      | None => UB
      | Some a =>
          if negb (family =? AF_UNSPEC) && negb (family =? sa_family a) then interfaces family l
          else
            match a with
            | SaOther _ _ => interfaces family l
            | _ =>
                match Create (Some a), prefix_length (ifa_netmask x) with
                | Some addr, Some p => let* rest, u := interfaces family l in Ret ((ifa_name x, (addr, p)) :: rest) u
                | _, _ => NoFuel
                end
            end
      end
  end.
(** [GetInterfaceAddress(vector &, face, family)]. *)
Definition GetInterfaceAddress (getifaddrs : option (list ifaddr)) (face : str) (family : Z) : outcome unit (option (list (Address * Z))) :=
  if bool_decide (face = []) || bool_decide (face = bs "*") then
    Ret (Some ((if (family =? AF_INET) || (family =? AF_UNSPEC) then [(IPv4 0 0, 0)] else [])
               ++ (if (family =? AF_INET6) || (family =? AF_UNSPEC) then [(IPv6_default, 0)] else []))) tt
  else
    match getifaddrs with
    | None => Ret None tt
    | Some l => let* r, u := interfaces family l in
                Ret (Some (map snd (filter (fun e => fst e = face) r))) u
    end.

(** ** Comparison *)

(** The bytes that the comparison is about. *)
Definition key (a : Address) : str := ztake (getAddrLen a) (repr a).

Lemma zlen_replicate {A} n (x : A) : zlen (replicate n x) = Z.of_nat n.
Proof. unfold zlen. by rewrite length_replicate. Qed.
Lemma zlen_host_bytes n v : zlen (host_bytes n v) = Z.of_nat n.
Proof. unfold zlen. by rewrite length_host_bytes. Qed.
Lemma zlen_repr a : wf a = true -> 0 <= getAddrLen a <= zlen (repr a).
Proof.
  destruct a as [a|a|p n|f d]; cbn [wf repr getAddrLen]; rewrite ?andb_true_iff, ?Z.eqb_eq, ?Z.leb_le, ?zlen_app, ?zlen_host_bytes;
    intros; destruct_and?; simpl; lia.
Qed.

(** Comparing common prefixes, then lengths, is the lexicographic order. *)
Lemma compare_prefix (a b : str) :
  compare a b = match compare (take (length a `min` length b) a) (take (length a `min` length b) b) with
                | Eq => (length a ?= length b)%nat
                | c => c
                end.
Proof.
  revert b. induction a as [|x a IH]; intros [|y b]; try done. cbn [length Nat.min take compare Nat.compare].
  destruct (b2z x ?= b2z y); [apply IH|done|done].
Qed.

Lemma lt_key a b : wf a = true -> wf b = true -> lt a b = ltb (key a) (key b).
Proof.
  intros Ha%zlen_repr Hb%zlen_repr. unfold lt, ltb, memcmp. rewrite (compare_prefix (key a) (key b)).
  assert (length (key a) = Z.to_nat (getAddrLen a)) as La by (unfold key, ztake, zlen in *; rewrite length_take; lia).
  assert (length (key b) = Z.to_nat (getAddrLen b)) as Lb by (unfold key, ztake, zlen in *; rewrite length_take; lia).
  rewrite La, Lb. assert (forall c d, 0 <= getAddrLen c <= zlen (repr c) -> 0 <= getAddrLen d ->
    take (Z.to_nat (getAddrLen c) `min` Z.to_nat (getAddrLen d)) (key c) = ztake (Z.min (getAddrLen c) (getAddrLen d)) (repr c)) as Ht.
  { intros c d Hc Hd. unfold key, ztake. rewrite take_take. f_equal. lia. }
  rewrite (Ht a b) by lia. rewrite Nat.min_comm, (Ht b a), (Z.min_comm (getAddrLen b)) by lia.
  destruct (compare _ _); try done. destruct (Nat.compare_spec (Z.to_nat (getAddrLen a)) (Z.to_nat (getAddrLen b)));
    destruct (Z.ltb_spec (getAddrLen a) (getAddrLen b)); done || lia.
Qed.

(** C39. [operator<] orders addresses strictly and totally by the bytes the
    kernel is given, so they can be the keys of maps and sets. *)
Theorem address_order (a b c : Address) :
  wf a = true -> wf b = true -> wf c = true ->
  lt a a = false /\ (lt a b = true -> lt b c = true -> lt a c = true)
  /\ (lt a b = false /\ lt b a = false <-> key a = key b).
Proof.
  intros Ha Hb Hc. rewrite !lt_key by done. split_and!.
  - apply (StdMap.swo_irrefl (ltb := ltb)).
  - apply (StdMap.swo_trans (ltb := ltb)).
  - unfold ltb. rewrite (compare_antisym (key a) (key b)). rewrite <- compare_eq. destruct (compare (key a) (key b)); simpl; naive_solver.
Qed.

(** The test for equality is the opposite of what it means. *)
Theorem address_equals_itself_not (a : Address) : eq a a = false /\ ne a a = true.
Proof. unfold ne, eq. rewrite Z.eqb_refl. unfold memcmp. by rewrite compare_refl. Qed.

(** ** Byte order and bits *)
Lemma le_val_bit (l : str) i :
  0 <= i -> Z.testbit (le_val l) i = match l !! Z.to_nat (i / 8) with Some b => Z.testbit (b2z b) (i mod 8) | None => false end.
Proof.
  revert i. induction l as [|b l IH]; intros i Hi; [cbn; by rewrite Z.bits_0|]. cbn [le_val]. pose proof (b2z_range b).
  destruct (Z.ltb_spec i 8).
  - rewrite Z.div_small, Z.mod_small by lia. cbn.
    rewrite <- (Z.mod_pow2_bits_low _ 8) by lia. change (2 ^ 8) with 256.
    rewrite (Z.mul_comm 256), Z.mod_add, Z.mod_small by lia. done.
  - replace i with (i - 8 + 8) at 1 by lia. rewrite <- Z.div_pow2_bits by lia. change (2 ^ 8) with 256.
    rewrite (Z.mul_comm 256), Z.div_add, Z.div_small, Z.add_0_l by lia. rewrite IH by lia.
    replace (i / 8) with ((i - 8) / 8 + 1) by (rewrite <- Z.div_add by lia; f_equal; lia).
    replace (i mod 8) with ((i - 8) mod 8) by (rewrite <- (Z.mod_add (i - 8) 1 8) by lia; f_equal; lia).
    assert (0 <= (i - 8) / 8) by (apply Z.div_pos; lia).
    by replace (Z.to_nat ((i - 8) / 8 + 1)) with (S (Z.to_nat ((i - 8) / 8))) by lia.
Qed.

Lemma z2b_bit v i : 0 <= i < 8 -> Z.testbit (b2z (z2b v)) i = Z.testbit v i.
Proof. intros. rewrite b2z_z2b. change 256 with (2 ^ 8). rewrite Z.mod_pow2_bits_low by lia. done. Qed.

(** The bit that ends up at place [i] of a swapped 32-bit integer. *)
Definition swapped_bit (i : Z) : Z := 8 * (3 - i / 8) + i mod 8.

Lemma bswap_bit v i : 0 <= i -> Z.testbit (bswap 4 v) i = if i <? 32 then Z.testbit v (swapped_bit i) else false.
Proof.
  intros Hi. unfold bswap. cbn [le_bytes rev app]. rewrite le_val_bit by done.
  assert (0 <= i mod 8 < 8 /\ 0 <= i / 8 /\ (i / 8 < 4 <-> i < 32)) as (Hm & H0 & Hq) by (Z.to_euclidean_division_equations; lia).
  destruct (Z.ltb_spec i 32).
  - unfold swapped_bit. assert (i / 8 = 0 \/ i / 8 = 1 \/ i / 8 = 2 \/ i / 8 = 3) as [E|[E|[E|E]]] by lia; rewrite E;
      [change (Z.to_nat 0) with 0%nat|change (Z.to_nat 1) with 1%nat|change (Z.to_nat 2) with 2%nat|change (Z.to_nat 3) with 3%nat];
      cbn [lookup list_lookup];
      rewrite z2b_bit by lia; rewrite ?Z.div_div by lia; change 256 with (2 ^ 8); rewrite <- ?Z.pow_mul_r, <- ?Z.pow_add_r by lia;
      rewrite ?Z.div_pow2_bits by lia; f_equal; lia.
  - rewrite (lookup_ge_None_2 _ (Z.to_nat (i / 8))); [done|]. cbn. lia.
Qed.

(** Network order on 32-bit integers, bit by bit. *)
Abbreviation net := (byteSwapOnLittleEndian 4).
Definition net_bit (i : Z) : Z := match BYTE_ORDER with LITTLE_ENDIAN => swapped_bit i | BIG_ENDIAN => i end.

Lemma net_bit_ok i : 0 <= i < 32 -> 0 <= net_bit i < 32 /\ net_bit (net_bit i) = i.
Proof. intros. unfold net_bit, swapped_bit. destruct BYTE_ORDER; [Z.to_euclidean_division_equations; lia|done]. Qed.
Lemma uw_bit w v i : 0 <= w -> 0 <= i -> Z.testbit (uw w v) i = (i <? w) && Z.testbit v i.
Proof.
  intros. unfold uw. destruct (Z.ltb_spec i w); [by rewrite Z.mod_pow2_bits_low|by rewrite Z.mod_pow2_bits_high].
Qed.
Lemma in_u_bit w v i : 0 <= w -> in_u w v -> w <= i -> Z.testbit v i = false.
Proof. intros ? Hv ?. rewrite <- (uw_small w v Hv), uw_bit by lia. by destruct (Z.ltb_spec i w); [lia|]. Qed.
Lemma net_testbit v i : in_u 32 v -> 0 <= i -> Z.testbit (net v) i = if i <? 32 then Z.testbit v (net_bit i) else false.
Proof.
  intros Hv Hi. unfold byteSwapOnLittleEndian, net_bit. destruct BYTE_ORDER.
  - unfold byteSwap. rewrite bswap_bit by done. change (8 * Z.of_nat 4) with 32. by rewrite uw_small.
  - destruct (Z.ltb_spec i 32); [done|]. by apply (in_u_bit 32).
Qed.
Lemma net_range v : in_u 32 v -> in_u 32 (net v).
Proof.
  intros Hv. unfold byteSwapOnLittleEndian. destruct BYTE_ORDER; [|done]. unfold byteSwap. apply (bswap_range 4).
Qed.

(** Equality of 32-bit integers from their bits. *)
Lemma u32_ext a b : in_u 32 a -> in_u 32 b -> (forall i, 0 <= i < 32 -> Z.testbit a i = Z.testbit b i) -> a = b.
Proof.
  intros Ha Hb Hbit. apply Z.bits_inj'. intros i Hi. destruct (Z.ltb_spec i 32); [by apply Hbit|]. by rewrite !(in_u_bit 32).
Qed.
Lemma u32_lnot_bit v i : 0 <= i < 32 -> Z.testbit (u32 (Z.lnot v)) i = negb (Z.testbit v i).
Proof. intros. rewrite uw_bit, Z.lnot_spec by lia. by destruct (Z.ltb_spec i 32); [|lia]. Qed.
Lemma in_u_lor a b : in_u 32 a -> in_u 32 b -> in_u 32 (Z.lor a b).
Proof.
  intros Ha Hb. assert (Z.lor a b = u32 (Z.lor a b)) as ->; [|apply uw_range; lia]. apply Z.bits_inj'. intros i Hi.
  rewrite uw_bit, Z.lor_spec by lia. destruct (Z.ltb_spec i 32); [done|]. by rewrite !(in_u_bit 32).
Qed.
Lemma in_u_land a b : in_u 32 a -> in_u 32 (Z.land a b).
Proof.
  intros Ha. assert (Z.land a b = u32 (Z.land a b)) as ->; [|apply uw_range; lia]. apply Z.bits_inj'. intros i Hi.
  rewrite uw_bit, Z.land_spec by lia. destruct (Z.ltb_spec i 32); [done|]. by rewrite (in_u_bit 32 a).
Qed.
Create HintDb addr.
#[local] Hint Resolve net_range in_u_lor in_u_land : addr.
#[local] Hint Extern 1 (in_u 32 (u32 _)) => apply uw_range; lia : addr.

Ltac net_bits :=
  apply u32_ext; [auto with addr|auto with addr|]; let i := fresh "i" in let Hi := fresh "Hi" in intros i Hi;
  destruct (net_bit_ok i Hi);
  repeat first [rewrite net_testbit by (auto with addr || lia) | rewrite Z.lor_spec | rewrite Z.land_spec | rewrite u32_lnot_bit by lia];
  repeat (match goal with |- context [?x <? 32] => destruct (Z.ltb_spec x 32); [|lia] end);
  repeat first [rewrite net_testbit by (auto with addr || lia) | rewrite Z.lor_spec | rewrite Z.land_spec | rewrite u32_lnot_bit by lia].

Lemma net_net v : in_u 32 v -> net (net v) = v.
Proof. intros. net_bits. by f_equal. Qed.
Lemma net_lor a b : in_u 32 a -> in_u 32 b -> net (Z.lor a b) = Z.lor (net a) (net b).
Proof. intros. by net_bits. Qed.
Lemma net_land a b : in_u 32 a -> in_u 32 b -> net (Z.land a b) = Z.land (net a) (net b).
Proof. intros. by net_bits. Qed.
Lemma net_lnot a : in_u 32 a -> net (u32 (Z.lnot a)) = u32 (Z.lnot (net a)).
Proof. intros. by net_bits. Qed.

(** ** IPv4 networks *)

(** The mask of a prefix that the arithmetic of [int] can compute. *)
Lemma CreateMask_ok p : 2 <= p <= 32 -> CreateMask 32 p = Some (Z.ones (32 - p)).
Proof.
  intros. unfold CreateMask. rewrite bool_decide_true by lia. f_equal. rewrite Z.ones_equiv, Z.shiftl_1_l, uw_small; [lia|].
  unfold in_u. pose proof (Z.pow_pos_nonneg 2 (32 - p) ltac:(lia) ltac:(lia)).
  assert (2 ^ (32 - p) <= 2 ^ 32) by (apply Z.pow_le_mono_r; lia). lia.
Qed.
Lemma ones_range n : 0 <= n <= 32 -> in_u 32 (Z.ones n).
Proof.
  intros. rewrite Z.ones_equiv. unfold in_u. pose proof (Z.pow_pos_nonneg 2 n ltac:(lia) ltac:(lia)).
  assert (2 ^ n <= 2 ^ 32) by (apply Z.pow_le_mono_r; lia). lia.
Qed.
Lemma land_mask v n : in_u 32 v -> 0 <= n <= 32 -> Z.land v (u32 (Z.lnot (Z.ones n))) = v / 2 ^ n * 2 ^ n.
Proof.
  intros Hv Hn. assert (Z.land v (u32 (Z.lnot (Z.ones n))) = Z.ldiff v (Z.ones n)) as ->.
  { apply Z.bits_inj'. intros i Hi. rewrite Z.land_spec, Z.ldiff_spec, uw_bit, Z.lnot_spec by lia.
    destruct (Z.ltb_spec i 32); [done|]. by rewrite (in_u_bit 32 v). }
  rewrite Z.ldiff_ones_r, Z.shiftl_mul_pow2, Z.shiftr_div_pow2 by lia. done.
Qed.
Lemma lor_mask v n : 0 <= n -> Z.lor v (Z.ones n) = v / 2 ^ n * 2 ^ n + 2 ^ n - 1.
Proof.
  intros Hn. rewrite <- Z.shiftr_div_pow2, <- Z.shiftl_mul_pow2, <- Z.ldiff_ones_r by lia.
  replace (Z.ldiff v (Z.ones n) + 2 ^ n - 1) with (Z.ldiff v (Z.ones n) + Z.ones n) by (rewrite Z.ones_equiv; lia).
  rewrite Z.add_nocarry_lxor by (rewrite Z.land_comm; apply Z.bits_inj'; intros i Hi; rewrite Z.land_spec, Z.ldiff_spec, Z.bits_0; by destruct (Z.testbit v i), (Z.testbit (Z.ones n) i)).
  apply Z.bits_inj'. intros i Hi. rewrite Z.lor_spec, Z.lxor_spec, Z.ldiff_spec. by destruct (Z.testbit v i), (Z.testbit (Z.ones n) i).
Qed.

(** The address as an integer of the host. *)
Definition value4 (a : sockaddr_in) : Z := net (s_addr a).

(** On IPv4 the network address of a prefix is the lowest address that
    shares it, the broadcast address the highest, and the mask has exactly the
    prefix set; port and family stay.  This is so on hosts of either byte order,
    for prefixes of 2 to 32 bits. *)
Theorem ipv4_networks (a : sockaddr_in) (p : Z) :
  in_u 32 (s_addr a) -> 2 <= p <= 32 ->
  exists n b m, networkAddress4 a p = Ret (Some (IPv4Address n)) tt /\ broadcastAddress4 a p = Ret (Some (IPv4Address b)) tt
    /\ subnetMask4 p = Ret (Some (IPv4Address m)) tt
    /\ value4 n = value4 a / 2 ^ (32 - p) * 2 ^ (32 - p)
    /\ value4 b = value4 n + 2 ^ (32 - p) - 1
    /\ value4 m = 2 ^ 32 - 2 ^ (32 - p)
    /\ sin_port n = sin_port a /\ sin_port b = sin_port a.
Proof.
  intros Ha Hp. unfold networkAddress4, broadcastAddress4, subnetMask4. destruct (Z.ltb_spec 32 p); [lia|].
  rewrite CreateMask_ok by done. do 3 eexists. split_and!; [done|done|done|..]; unfold value4; cbn [s_addr with_s_addr]; try done.
  all: pose proof (ones_range (32 - p) ltac:(lia)) as Ho.
  - rewrite net_land, net_net by auto with addr. apply land_mask; [auto with addr|lia].
  - rewrite net_lor, net_land, !net_net by auto with addr. rewrite lor_mask, land_mask by (auto with addr || lia). lia.
  - rewrite net_lnot, net_net by auto with addr. rewrite Z.ones_equiv in *. unfold uw, Z.lnot in *. unfold in_u in Ho.
    rewrite <- (Z.mod_unique _ (2 ^ 32) (-1) (2 ^ 32 - 2 ^ (32 - p))); lia.
Qed.

(** ** IPv6 networks *)
Lemma le_val_app a b : le_val (a ++ b) = le_val a + 256 ^ zlen a * le_val b.
Proof.
  induction a as [|x a IH]; [change (zlen []) with 0; cbn [app le_val]; rewrite Z.pow_0_r; lia|]. cbn [app le_val]. rewrite IH, zlen_cons. pose proof (zlen_nonneg a).
  rewrite Z.pow_add_r by lia. lia.
Qed.
Lemma be_val_app a b : be_val (a ++ b) = be_val a * 256 ^ zlen b + be_val b.
Proof.
  unfold be_val. rewrite rev_app_distr, le_val_app. replace (zlen (rev b)) with (zlen b) by (unfold zlen; by rewrite length_rev). lia.
Qed.
Lemma be_val_cons x b : be_val (x :: b) = b2z x * 256 ^ zlen b + be_val b.
Proof. change (x :: b) with ([x] ++ b). rewrite be_val_app. unfold be_val at 1. cbn. lia. Qed.
Lemma be_val_range l : 0 <= be_val l < 256 ^ zlen l.
Proof.
  unfold be_val. pose proof (le_val_range (rev l)) as Hr. rewrite length_rev in Hr. unfold in_u in Hr.
  rewrite Z.pow_mul_r in Hr by lia. unfold zlen. exact Hr.
Qed.
Lemma be_val_zeros n : be_val (replicate n Byte.x00) = 0.
Proof. induction n as [|n IH]; [done|]. cbn [replicate]. rewrite be_val_cons, IH. cbn. lia. Qed.
Lemma be_val_ff n : be_val (replicate n Byte.xff) = 256 ^ Z.of_nat n - 1.
Proof.
  induction n as [|n IH]; [done|]. cbn [replicate]. rewrite be_val_cons, IH. unfold zlen. rewrite length_replicate.
  rewrite Nat2Z.inj_succ, Z.pow_succ_r by lia. change (b2z Byte.xff) with 255. lia.
Qed.

(** The byte in which the prefix ends. *)
Lemma byte_mask_ok (b : byte) r :
  0 <= r < 8 ->
  b2z (z2b (Z.lor (b2z b) (mask8 r))) = b2z b / 2 ^ (8 - r) * 2 ^ (8 - r) + 2 ^ (8 - r) - 1
  /\ b2z (z2b (Z.lnot (mask8 r))) = 256 - 2 ^ (8 - r).
Proof.
  intros Hr. assert (forallb (fun b => forallb (fun k =>
    (b2z (z2b (Z.lor (b2z b) (mask8 (Z.of_nat k)))) =? b2z b / 2 ^ (8 - Z.of_nat k) * 2 ^ (8 - Z.of_nat k) + 2 ^ (8 - Z.of_nat k) - 1)
    && (b2z (z2b (Z.lnot (mask8 (Z.of_nat k)))) =? 256 - 2 ^ (8 - Z.of_nat k))) (seq 0 8)) all_bytes = true) as Hall by (vm_compute; reflexivity).
  pose proof (byte_forall _ Hall b) as Hb. rewrite forallb_forall in Hb. specialize (Hb (Z.to_nat r)).
  rewrite Z2Nat.id in Hb by lia. rewrite andb_true_iff, !Z.eqb_eq in Hb. apply Hb, in_seq. lia.
Qed.

(** Splitting an address at the byte in which the prefix ends. *)
Lemma split_prefix (l : str) p :
  zlen l = 16 -> 0 <= p < 128 ->
  exists pre b post, l = pre ++ b :: post /\ l !! Z.to_nat (p / 8) = Some b /\ take (Z.to_nat (p / 8)) l = pre
    /\ zlen pre = p / 8 /\ zlen post = 15 - p / 8.
Proof.
  intros Hl Hp. assert (0 <= p / 8 < 16) as Hq by (Z.to_euclidean_division_equations; lia). unfold zlen in *.
  destruct (lookup_lt_is_Some_2 l (Z.to_nat (p / 8))) as [b Hb]; [lia|].
  exists (take (Z.to_nat (p / 8)) l), b, (drop (S (Z.to_nat (p / 8))) l). rewrite length_take, length_drop.
  split_and!; [by rewrite take_drop_middle|done|done|lia|lia].
Qed.
Lemma prefix_pow p : 0 <= p < 128 -> 2 ^ (128 - p) = 2 ^ (8 - p mod 8) * 256 ^ (15 - p / 8).
Proof.
  intros. change 256 with (2 ^ 8). assert (0 <= p / 8 < 16 /\ 0 <= p mod 8 < 8 /\ p = 8 * (p / 8) + p mod 8) as (? & ? & ?)
    by (Z.to_euclidean_division_equations; lia).
  rewrite <- Z.pow_mul_r, <- Z.pow_add_r by lia. f_equal. lia.
Qed.
(** Rounding down a number whose low digits are below the place of the cut. *)
Lemma round_down x b c e d : 0 < e -> 0 < d -> 256 mod e = 0 -> 0 <= c < d ->
  ((x * 256 + b) * d + c) / (e * d) * (e * d) = (x * 256 + b / e * e) * d.
Proof.
  intros He Hd Hm Hc. rewrite (Z.mul_comm e d), <- Z.div_div by lia.
  replace (((x * 256 + b) * d + c) / d) with (x * 256 + b) by (apply (Z.div_unique _ _ _ c); lia).
  apply Z.mod_divide in Hm as [k Hk]; [|lia]. rewrite Hk.
  replace (x * (k * e) + b) with (x * k * e + b) by lia. rewrite Z.div_add_l by lia. lia.
Qed.

(** On IPv6 the broadcast address of a prefix shorter than 128 bits is the
    highest address that shares it, and the mask has exactly the prefix set. *)
Theorem ipv6_networks (a : sockaddr_in6) (p : Z) :
  zlen (s6_addr a) = 16 -> 0 <= p < 128 ->
  exists b m, broadcastAddress6 a p = Ret (IPv6Address b) tt /\ subnetMask6 p = Ret (IPv6Address m) tt
    /\ be_val (s6_addr b) = be_val (s6_addr a) / 2 ^ (128 - p) * 2 ^ (128 - p) + 2 ^ (128 - p) - 1
    /\ be_val (s6_addr m) = 2 ^ 128 - 2 ^ (128 - p)
    /\ sin6_port b = sin6_port a /\ sin6_scope_id b = sin6_scope_id a.
Proof.
  intros Hl Hp. destruct (split_prefix (s6_addr a) p Hl Hp) as (pre & x & post & E & Ex & Et & Lp & Lq).
  unfold broadcastAddress6, subnetMask6, edit6. rewrite Ex, Et. destruct (Z.leb_spec 128 p); [lia|]. cbn [obind].
  assert (0 <= p / 8 < 16 /\ 0 <= p mod 8 < 8) as [Hq Hr] by (Z.to_euclidean_division_equations; lia).
  do 2 eexists. split_and!; [done|done|..]; cbn [s6_addr with_s6_addr]; try done.
  - rewrite E, !be_val_app, !be_val_cons, !zlen_cons, be_val_ff. unfold zlen at 1 2. rewrite length_replicate. rewrite Lq.
    replace (Z.of_nat (15 - Z.to_nat (p / 8))) with (15 - p / 8) by lia. replace (1 + (15 - p / 8)) with (15 - p / 8 + 1) by lia.
    replace (Z.succ (15 - p / 8)) with (15 - p / 8 + 1) by lia. rewrite !Z.pow_add_r by lia. rewrite (proj1 (byte_mask_ok x (p mod 8) Hr)), prefix_pow by done.
    pose proof (be_val_range post) as Hc. rewrite Lq in Hc. pose proof (Z.pow_pos_nonneg 256 (15 - p / 8) ltac:(lia) ltac:(lia)) as Hd.
    replace (be_val pre * (256 ^ (15 - p / 8) * 256 ^ 1) + (b2z x * 256 ^ (15 - p / 8) + be_val post))
      with ((be_val pre * 256 + b2z x) * 256 ^ (15 - p / 8) + be_val post) by lia.
    rewrite round_down; [lia|apply Z.pow_pos_nonneg; lia|done| |done].
    assert (forallb (fun k => 256 mod 2 ^ (8 - Z.of_nat k) =? 0) (seq 0 8) = true) as Hall by reflexivity. rewrite forallb_forall in Hall.
    specialize (Hall (Z.to_nat (p mod 8))). rewrite Z2Nat.id, Z.eqb_eq in Hall by lia. apply Hall, in_seq. lia.
  - rewrite be_val_app, be_val_cons, be_val_zeros, be_val_ff, zlen_cons. unfold zlen. rewrite length_replicate.
    rewrite (proj2 (byte_mask_ok x (p mod 8) Hr)), prefix_pow by done.
    replace (Z.of_nat (15 - Z.to_nat (p / 8))) with (15 - p / 8) by lia. rewrite Z2Nat.id by lia.
    change (2 ^ 128) with (256 ^ 16). replace 16 with (p / 8 + (15 - p / 8 + 1)) at 1 by lia. replace (1 + (15 - p / 8)) with (15 - p / 8 + 1) by lia.
    rewrite (Z.pow_add_r 256 (p / 8)), !(Z.pow_add_r 256 (15 - p / 8)) by lia. lia.
Qed.

(** ** The text form of IPv6 addresses

    The notation of RFC 4291: groups of hexadecimal digits, of which one run of
    zeros may be left out. *)
Definition colon : byte := z2b 58.
Definition digit_val (c : byte) : option Z :=
  if isdigit c then Some (b2z c - 48)
  else if between 97 102 c then Some (b2z c - 87)
  else if between 65 70 c then Some (b2z c - 55) else None.
Fixpoint hex_scan (s : str) (acc : Z) : option Z :=
  match s with [] => Some acc | c :: s => d ← digit_val c; hex_scan s (16 * acc + d) end.
Definition group (s : str) : option Z := if bool_decide (s = []) || (4 <? zlen s) then None else hex_scan s 0.
Fixpoint fields (s : str) : list str :=
  match s with
  | [] => [[]]
  | c :: s =>
      if bool_decide (c = colon) then [] :: fields s
      else match fields s with f :: l => (c :: f) :: l | [] => [[c]] end
  end.
Definition side (s : str) : option (list Z) := if bool_decide (s = []) then Some [] else mapM group (fields s).
(** The text before and after the first double colon. *)
Fixpoint cut (s : str) : str * option str :=
  match s with
  | [] => ([], None)
  | c :: s' =>
      match s' with
      | d :: r => if bool_decide (c = colon) && bool_decide (d = colon) then ([], Some r)
                  else let '(l, o) := cut s' in (c :: l, o)
      | [] => ([c], None)
      end
  end.
Definition parse6 (text : str) : option (list Z) :=
  match cut text with
  | (l, None) => gs ← side l; if bool_decide (length gs = 8%nat) then Some gs else None
  | (l, Some r) =>
      a ← side l; b ← side r;
      if bool_decide (length a + length b < 8)%nat then Some (a ++ replicate (8 - (length a + length b)) 0 ++ b) else None
  end.

Lemma hex_digit_ok d : 0 <= d < 16 -> digit_val (hex_digit d) = Some d /\ hex_digit d <> colon.
Proof.
  intros Hd. assert (forallb (fun k => bool_decide (digit_val (hex_digit (Z.of_nat k)) = Some (Z.of_nat k)) && bool_decide (hex_digit (Z.of_nat k) <> colon)) (seq 0 16) = true)
    as Hall by (vm_compute; reflexivity).
  rewrite forallb_forall in Hall. specialize (Hall (Z.to_nat d)). rewrite Z2Nat.id, andb_true_iff, !bool_decide_eq_true in Hall by lia.
  apply Hall, in_seq. lia.
Qed.

Lemma hex_loop_ok fuel n acc a :
  0 <= n < 2 ^ Z.of_nat fuel -> 0 <= a -> (0 < fuel)%nat -> Forall (fun c => c <> colon) acc ->
  exists k, 1 <= k /\ zlen (hex_loop fuel n acc) = k + zlen acc
    /\ hex_scan (hex_loop fuel n acc) a = hex_scan acc (a * 16 ^ k + n) /\ (k = 1 \/ 16 ^ (k - 1) <= n)
    /\ Forall (fun c => c <> colon) (hex_loop fuel n acc).
Proof.
  revert n acc a. induction fuel as [|fuel IH]; intros n acc a Hn Ha Hf Hc; [lia|]. cbn [hex_loop]. destruct (Z.ltb_spec n 16).
  - exists 1. destruct (hex_digit_ok n) as [Hd Hv]; [lia|]. rewrite zlen_cons. split_and!; [lia|lia| |by left|by constructor].
    cbn [hex_scan]. rewrite Hd. cbn [mbind option_bind]. f_equal. lia.
  - rewrite Nat2Z.inj_succ, Z.pow_succ_r in Hn by lia. pose proof (Z.mod_pos_bound n 16 ltac:(lia)) as Hm.
    pose proof (Z.div_mod n 16 ltac:(lia)) as Hdm. destruct (hex_digit_ok (n mod 16) Hm) as [Hd Hv].
    destruct fuel as [|fuel]; [simpl in Hn; lia|].
    destruct (IH (n / 16) (hex_digit (n mod 16) :: acc) a) as (k & Hk & Hl & E & Hle & Hcs); [|done|lia|by constructor|].
    { split; [apply Z.div_pos; lia|]. apply Z.div_lt_upper_bound; lia. }
    exists (k + 1). rewrite Hl, zlen_cons. split_and!; [lia|lia| | |done].
    + rewrite E. cbn [hex_scan]. rewrite Hd. cbn [mbind option_bind]. f_equal. rewrite Z.pow_add_r by lia. lia.
    + right. replace (k + 1 - 1) with (Z.succ (k - 1)) by lia. rewrite Z.pow_succ_r by lia.
      destruct Hle as [->|Hle]; [change (16 ^ (1 - 1)) with 1; lia|lia].
Qed.

Lemma hex_ok n : 0 <= n < 65536 -> group (hex n) = Some n /\ hex n <> [] /\ Forall (fun c => c <> colon) (hex n).
Proof.
  intros Hn. destruct (hex_loop_ok (S (Z.to_nat (Z.log2 n))) n [] 0) as (k & Hk & Hl & E & Hle & Hc); [|lia|lia|done|].
  { split; [lia|]. destruct (Z.eq_dec n 0) as [->|]; [lia|].
    rewrite Nat2Z.inj_succ, Z2Nat.id by apply Z.log2_nonneg. apply Z.log2_spec. lia. }
  fold (hex n) in Hl, E, Hc. rewrite zlen_nil, Z.add_0_r in Hl. unfold group. rewrite Hl.
  assert (hex n <> []) as Hne by (intros E0; rewrite E0, zlen_nil in Hl; lia). rewrite bool_decide_false by done. cbn [orb].
  assert (k <= 4) as Hk4.
  { destruct Hle as [->|Hle]; [lia|]. destruct (Z.le_gt_cases k 4); [done|]. assert (16 ^ 4 <= 16 ^ (k - 1)) by (apply Z.pow_le_mono_r; lia). lia. }
  destruct (Z.ltb_spec 4 k); [lia|]. rewrite E. by cbn.
Qed.

(** Fields joined by colons. *)
Definition tail_text (l : list str) : str := concat (map (fun x => colon :: x) l).
Definition join (l : list str) : str := match l with [] => [] | x :: l => x ++ tail_text l end.
Definition plain_field (x : str) : Prop := x <> [] /\ Forall (fun c => c <> colon) x.

Lemma cut_skip x r : Forall (fun c => c <> colon) x -> cut (x ++ r) = (x ++ fst (cut r), snd (cut r)).
Proof.
  induction x as [|c x IH]; intros Hx; [cbn [app join tail_text map concat]; by destruct (cut r)|]. inversion Hx as [|? ? Hc Hx']; subst. cbn [app cut].
  destruct (x ++ r) as [|d q] eqn:E.
  - apply app_eq_nil in E as [-> ->]. done.
  - rewrite bool_decide_false by done. cbn [andb]. specialize (IH Hx'). by rewrite IH.
Qed.
Lemma cut_tail l r : Forall plain_field l -> cut (tail_text l ++ r) = (tail_text l ++ fst (cut r), snd (cut r)).
Proof.
  induction l as [|x l IH]; intros Hl; [cbn [app join tail_text map concat]; by destruct (cut r)|]. inversion Hl as [|? ? [Hne Hx] Hl']; subst.
  unfold tail_text. cbn [map concat]. fold (tail_text l). cbn [app]. rewrite <- app_assoc.
  destruct x as [|c x]; [done|]. cbn [app]. inversion Hx as [|? ? Hc Hx']; subst.
  change (cut (colon :: c :: x ++ tail_text l ++ r)) with
    (if bool_decide (colon = colon) && bool_decide (c = colon) then ([], Some (x ++ tail_text l ++ r))
     else let '(l0, o) := cut ((c :: x) ++ tail_text l ++ r) in (colon :: l0, o)).
  rewrite (bool_decide_false (c = colon)) by done. rewrite andb_false_r, cut_skip, IH by done. cbn [fst snd]. by rewrite app_assoc.
Qed.
Lemma cut_join l r : Forall plain_field l -> cut (join l ++ r) = (join l ++ fst (cut r), snd (cut r)).
Proof.
  destruct l as [|x l]; intros Hl; [cbn [app join tail_text map concat]; by destruct (cut r)|]. inversion Hl as [|? ? [_ Hx] Hl']; subst. cbn [join].
  rewrite <- app_assoc, cut_skip, cut_tail by done. cbn [fst snd]. by rewrite app_assoc.
Qed.

Lemma fields_skip x r : Forall (fun c => c <> colon) x -> fields (x ++ colon :: r) = x :: fields r.
Proof.
  induction x as [|c x IH]; intros Hx; cbn [app fields]; [by rewrite bool_decide_true|].
  inversion Hx as [|? ? Hc Hx']; subst. rewrite bool_decide_false by done. by rewrite IH.
Qed.
Lemma fields_one x : Forall (fun c => c <> colon) x -> fields x = [x].
Proof.
  induction x as [|c x IH]; intros Hx; [done|]. inversion Hx as [|? ? Hc Hx']; subst. cbn [fields].
  rewrite bool_decide_false by done. by rewrite IH.
Qed.
Lemma fields_join x l : Forall plain_field (x :: l) -> fields (join (x :: l)) = x :: l.
Proof.
  revert x. induction l as [|y l IH]; intros x Hl; inversion Hl as [|? ? [_ Hx] Hl']; subst; cbn [join].
  - unfold tail_text. cbn. rewrite app_nil_r. by apply fields_one.
  - change (x ++ tail_text (y :: l)) with (x ++ colon :: join (y :: l)). rewrite fields_skip by done. f_equal. apply (IH y Hl').
Qed.

(** The groups of an address, from its bytes in network order. *)
Fixpoint pairs (l : str) : list Z :=
  match l with
  | a :: b :: l => 256 * b2z a + b2z b :: pairs l
  | _ => []
  end.

Lemma word_value a b : byteSwapOnLittleEndian 2 (host_val [a; b]) = 256 * b2z a + b2z b.
Proof.
  pose proof (b2z_range a). pose proof (b2z_range b). unfold byteSwapOnLittleEndian, host_val. destruct BYTE_ORDER.
  - unfold byteSwap, bswap. rewrite le_bytes_uw. change (le_bytes 2 (le_val [a; b])) with (le_bytes (length [a; b]) (le_val [a; b])). rewrite le_bytes_val. cbn. lia.
  - cbn. lia.
Qed.
Lemma word_zero a b : (host_val [a; b] =? 0) = (256 * b2z a + b2z b =? 0).
Proof.
  pose proof (b2z_range a). pose proof (b2z_range b). unfold host_val.
  destruct BYTE_ORDER; cbn [rev app le_val];
    destruct (Z.eqb_spec (256 * b2z a + b2z b) 0), (Z.eqb_spec (b2z a + 256 * (b2z b + 256 * 0)) 0), (Z.eqb_spec (b2z b + 256 * (b2z a + 256 * 0)) 0); lia || done.
Qed.

(** A word of the address with the group it shows. *)
Definition shows (w g : Z) : Prop := byteSwapOnLittleEndian 2 w = g /\ (w =? 0) = (g =? 0) /\ 0 <= g < 65536.
Lemma words_show l : Forall2 shows (words l) (pairs l).
Proof.
  remember (length l) as n eqn:Hn. revert l Hn. induction n as [n IH] using lt_wf_ind. intros [|a [|b l]] ->; [constructor|constructor|].
  cbn [words pairs]. constructor; [|apply (IH (length l)); [cbn; lia|done]].
  split; [apply word_value|]. split; [apply word_zero|]. pose proof (b2z_range a). pose proof (b2z_range b). lia.
Qed.

Lemma length_pairs l n : length l = (2 * n)%nat -> length (pairs l) = n.
Proof. revert l. induction n as [|n IH]; intros [|a [|b l]] Hl; cbn in *; try lia. f_equal. apply IH. lia. Qed.

(** After the run of zeros everything is written. *)
Lemma loop_used ws gs prev :
  Forall2 shows ws gs -> dump6_loop ws false prev true = (tail_text (map hex gs), true).
Proof.
  intros HF. revert prev. induction HF as [|w g ws gs (Hw & _ & _) HF IH]; intros prev; [done|]. cbn [dump6_loop]. rewrite andb_false_r.
  cbn [orb]. rewrite IH, Hw. rewrite andb_false_r. done.
Qed.

(** The text that the loop and the test after it add. *)
Definition rest_text (ws : list Z) (first : bool) (prev : Z) : str :=
  let '(t, used) := dump6_loop ws first prev false in t ++ (if negb used && (List.last ws prev =? 0) then bs "::" else []).

(** What a list of groups is shortened to: the groups before the first run of
    zeros, its length, and the groups after it. *)
Record short (gs pre : list Z) (z : nat) (post : list Z) : Prop := {
  sh_eq : gs = pre ++ replicate z 0 ++ post;
  sh_post : z = 0%nat -> post = [];
}.

Lemma last_cons (w prev : Z) ws : List.last (w :: ws) prev = List.last ws w.
Proof. revert w prev. induction ws as [|x ws IH]; intros w prev; [done|]. change (List.last (w :: x :: ws) prev) with (List.last (x :: ws) prev). rewrite !IH. done. Qed.

(** In the run of zeros. *)
Lemma rest_zeros ws gs :
  Forall2 shows ws gs -> exists z post, gs = replicate z 0 ++ post /\ rest_text ws false 0 = bs "::" ++ join (map hex post).
Proof.
  intros HF. induction HF as [|w g ws gs (Hw & Hz & Hg) HF IH]; [by exists 0%nat, []|]. unfold rest_text. cbn [dump6_loop].
  rewrite last_cons, Hz. destruct (Z.eqb_spec g 0) as [->|Hne]; cbn [andb negb orb].
  - destruct IH as (z & post & -> & Hr). exists (S z), post. split; [done|]. apply Z.eqb_eq in Hz. subst w. exact Hr.
  - exists 0%nat, (g :: gs). split; [done|]. change (0 =? 0) with true. cbn [andb orb negb]. rewrite (loop_used ws gs w HF), Hw. cbn [negb andb]. by rewrite app_nil_r.
Qed.

(** Before the run, after a group that is not zero. *)
Lemma rest_start ws gs prev :
  (prev =? 0) = false -> Forall2 shows ws gs ->
  exists pre z post, short gs pre z post
    /\ rest_text ws false prev = tail_text (map hex pre) ++ (if decide (z = 0%nat) then [] else bs "::" ++ join (map hex post)).
Proof.
  intros Hp HF. revert prev Hp. induction HF as [|w g ws gs (Hw & Hz & Hg) HF IH]; intros prev Hp.
  { exists [], 0%nat, []. split; [done|]. unfold rest_text. cbn. by rewrite Hp. }
  unfold rest_text. cbn [dump6_loop]. rewrite last_cons, Hz. destruct (Z.eqb_spec g 0) as [->|Hne]; cbn [andb negb orb].
  - destruct (rest_zeros ws gs HF) as (z & post & -> & Hr). exists [], (S z), post. split; [done|].
    rewrite decide_False by done. apply Z.eqb_eq in Hz. subst w. exact Hr.
  - destruct (IH w Hz) as (pre & z & post & [-> Hpost] & Hr). exists (g :: pre), z, post. split; [done|].
    rewrite Hp. cbn [orb negb andb]. unfold rest_text in Hr. destruct (dump6_loop ws false w false) as [t u].
    rewrite Hw. cbn [map]. change (tail_text (hex g :: map hex pre)) with (colon :: hex g ++ tail_text (map hex pre)).
    change (bs ":") with [colon]. cbn [app]. rewrite <- !app_assoc, <- Hr. done.
Qed.

Lemma whole_text ws gs :
  ws <> [] -> Forall2 shows ws gs ->
  exists pre z post, short gs pre z post
    /\ (let '(t, used) := dump6_loop ws true 0 false in t ++ (if negb used && (List.last ws 1 =? 0) then bs "::" else []))
       = join (map hex pre) ++ (if decide (z = 0%nat) then [] else bs "::" ++ join (map hex post)).
Proof.
  intros Hne HF. destruct HF as [|w g ws gs (Hw & Hz & Hg) HF]; [done|]. rewrite last_cons. cbn [dump6_loop]. rewrite Hz.
  destruct (Z.eqb_spec g 0) as [->|Hg0]; cbn [andb negb orb].
  - destruct (rest_zeros ws gs HF) as (z & post & -> & Hr). exists [], (S z), post. split; [done|].
    rewrite decide_False by done. apply Z.eqb_eq in Hz. subst w. exact Hr.
  - destruct (rest_start ws gs w Hz HF) as (pre & z & post & [-> Hpost] & Hr). exists (g :: pre), z, post. split; [done|].
    unfold rest_text in Hr. destruct (dump6_loop ws false w false) as [t u]. rewrite Hw. cbn [map join app].
    rewrite <- !app_assoc, <- Hr. done.
Qed.

Lemma side_join gs : Forall (fun g => 0 <= g < 65536) gs -> side (join (map hex gs)) = Some gs.
Proof.
  intros Hgs. destruct gs as [|g gs]; [done|]. unfold side.
  assert (Forall plain_field (map hex (g :: gs))) as Hf.
  { apply Forall_map. eapply Forall_impl; [exact Hgs|]. intros x Hx. by destruct (hex_ok x Hx) as (_ & ? & ?). }
  rewrite bool_decide_false.
  - cbn [map]. rewrite fields_join by done. change (hex g :: map hex gs) with (map hex (g :: gs)). clear Hf.
    induction Hgs as [|x l Hx Hl IH]; [done|]. cbn [map mapM]. destruct (hex_ok x Hx) as (-> & _). cbn [mbind option_bind].
    by rewrite IH.
  - inversion Hf as [|? ? [Hne _] _]; subst. cbn [map join]. destruct (hex g); [done|discriminate].
Qed.

Lemma plain_hex gs : Forall (fun g => 0 <= g < 65536) gs -> Forall plain_field (map hex gs).
Proof. intros. apply Forall_map. eapply Forall_impl; [done|]. intros x Hx. by destruct (hex_ok x Hx) as (_ & ? & ?). Qed.

(** The text form of an IPv6 address is a valid notation of exactly that
    address, however its zeros lie, followed by the port. *)
Theorem ipv6_text_roundtrip (a : sockaddr_in6) :
  zlen (s6_addr a) = 16 ->
  exists text, dump6 a = bs "[" ++ text ++ bs "]:" ++ to_string (byteSwapOnLittleEndian 2 (sin6_port a))
    /\ parse6 text = Some (pairs (s6_addr a)).
Proof.
  intros Hl. pose proof (words_show (s6_addr a)) as HF.
  assert (length (pairs (s6_addr a)) = 8%nat) as H8 by (apply length_pairs; unfold zlen in Hl; lia).
  assert (words (s6_addr a) <> []) as Hne by (intros E; apply Forall2_length in HF; rewrite E, H8 in HF; done).
  destruct (whole_text _ _ Hne HF) as (pre & z & post & [Hgs Hpost] & Ht).
  exists (join (map hex pre) ++ (if decide (z = 0%nat) then [] else bs "::" ++ join (map hex post))). split.
  { unfold dump6. destruct (dump6_loop _ _ _ _) as [t u]. rewrite <- Ht, <- !app_assoc. done. }
  assert (Forall (fun g => 0 <= g < 65536) (pairs (s6_addr a))) as Hr.
  { eapply Forall2_Forall_r; [exact HF|]. apply Forall_true. intros ? ? (_ & _ & ?). done. }
  rewrite Hgs in *. apply Forall_app in Hr as [Hpre [_ Hpo]%Forall_app]. unfold parse6. rewrite cut_join by by apply plain_hex.
  rewrite !length_app, length_replicate in H8. destruct (decide (z = 0%nat)) as [->|Hz].
  - rewrite (Hpost eq_refl) in *. cbn [cut fst snd app replicate] in *. rewrite !app_nil_r. rewrite side_join by done. cbn [mbind option_bind].
    cbn in H8. rewrite bool_decide_true by lia. done.
  - change (cut (bs "::" ++ join (map hex post))) with (@nil byte, Some (join (map hex post))). cbn [fst snd]. rewrite app_nil_r.
    rewrite !side_join by done. cbn [mbind option_bind]. rewrite bool_decide_true by lia. do 3 f_equal. f_equal. lia.
Qed.

(** ** Ports *)
Lemma net16_net16 p : in_u 16 p -> byteSwapOnLittleEndian 2 (byteSwapOnLittleEndian 2 p) = p.
Proof.
  intros Hp. unfold byteSwapOnLittleEndian. destruct BYTE_ORDER; [|done]. unfold byteSwap. cbv iota.
  unfold bswap at 1. rewrite le_bytes_uw. unfold bswap. rewrite le_bytes_uw.
  change 2%nat with (length (rev (le_bytes 2 p))) at 1. rewrite le_bytes_val, rev_involutive, le_val_bytes.
  by apply Z.mod_small.
Qed.

(** An address that is created has the port that was asked for. *)
Theorem port_roundtrip (a : Address) (p : Z) : in_u 16 p -> is_ip a = true -> getPort (setPort p a) = Some p.
Proof. intros Hp. destruct a; try done; intros _; cbn [setPort getPort sin_port sin6_port]; by rewrite net16_net16. Qed.

(** ** Paths of Unix addresses *)

(** A path is kept as it is, an abstract one with its marker, and a path that
    does not fit is refused. *)
Theorem unix_path_kept (p : str) :
  Forall (fun c => c <> Byte.x00) p -> p <> [] ->
  (zlen p <= 107 -> exists d n, Unix p = Ret (UnixAddress d n) tt /\ wf (UnixAddress d n) = true /\ getPath d n = p)
  /\ (107 < zlen p -> Unix p = Throw LogicError tt)
  /\ (zlen p <= 107 -> exists d n, Unix (Byte.x00 :: p) = Ret (UnixAddress d n) tt /\ getPath d n = bs "\0" ++ p).
Proof.
  intros Hp Hne. pose proof (zlen_nonneg p). destruct p as [|c p]; [done|]. inversion Hp as [|? ? Hc Hp']; subst.
  assert (bool_decide (head (c :: p) = Some Byte.x00) = false) as Hb by (apply bool_decide_false; cbn; congruence).
  unfold Unix. rewrite Hb, Z.sub_0_r. split_and!.
  - intros Hl. destruct (Z.ltb_spec 108 (zlen (c :: p) + 1)); [lia|]. do 2 eexists. split; [done|].
    rewrite ztake_all by (rewrite zlen_app; change (zlen [Byte.x00]) with 1; lia). split.
    + cbn [wf]. rewrite !zlen_app. change (zlen [Byte.x00]) with 1. rewrite uw_small by (unfold in_u; lia).
      rewrite !andb_true_iff, Z.eqb_eq, !Z.leb_le. rewrite zlen_replicate. lia.
    + unfold getPath. cbn [app head]. rewrite bool_decide_false by congruence. rewrite andb_false_r.
      rewrite <- app_assoc. cbn [app].
      clear -Hp. change (c_str ((c :: p) ++ Byte.x00 :: replicate (Z.to_nat (108 - (zlen (c :: p) + 1))) Byte.x00) = c :: p).
      generalize (replicate (Z.to_nat (108 - (zlen (c :: p) + 1))) Byte.x00). generalize dependent (c :: p). intros q Hq r.
      induction Hq as [|x q Hx Hq IH]; cbn [app c_str]; [by rewrite bool_decide_true|]. rewrite bool_decide_false by done. by rewrite IH.
  - intros Hl. destruct (Z.ltb_spec 108 (zlen (c :: p) + 1)); [done|lia].
  - intros Hl. rewrite bool_decide_true by done. rewrite (zlen_cons Byte.x00). destruct (Z.ltb_spec 108 (1 + zlen (c :: p) + 1 - 1)); [lia|].
    do 2 eexists. split; [done|]. unfold getPath. rewrite uw_small by (unfold in_u; lia).
    assert (ztake (1 + zlen (c :: p) + 1 - 1) ((Byte.x00 :: c :: p) ++ [Byte.x00]) = Byte.x00 :: c :: p) as ->.
    { rewrite ztake_app_le by (rewrite (zlen_cons Byte.x00); lia). apply ztake_all. rewrite (zlen_cons Byte.x00). lia. }
    rewrite bool_decide_true by done. destruct (Z.ltb_spec 2 (1 + zlen (c :: p) + 1 - 1 + 2)); [|lia]. cbn [andb]. f_equal.
    unfold zsub, zdrop. cbn [app]. change (Z.to_nat 1) with 1%nat. cbn [drop]. change (c :: p ++ replicate (Z.to_nat (108 - (1 + zlen (c :: p) + 1 - 1))) Byte.x00) with ((c :: p) ++ replicate (Z.to_nat (108 - (1 + zlen (c :: p) + 1 - 1))) Byte.x00).
    rewrite ztake_app_le by lia. apply ztake_all. lia.
Qed.

(** ** Host names *)
Abbreviation without c := (Forall (fun x : byte => x <> c)).

Lemma eqb_char_none c s : without c s -> find_if (eqb_char c) s = None.
Proof. intros Hs. apply find_if_none. eapply Forall_impl; [exact Hs|]. intros x Hx. by apply bool_decide_false. Qed.
Lemma eqb_char_app c s r : without c s -> find_if (eqb_char c) (s ++ c :: r) = Some (zlen s).
Proof.
  intros Hs. apply find_if_app; [|by apply bool_decide_true]. eapply Forall_impl; [exact Hs|]. intros x Hx. by apply bool_decide_false.
Qed.

(** A name, a name and a port, and an address in brackets with or without a
    port are split into what the resolver expects. *)
Theorem lookup_splits_host (h p : str) :
  h <> [] -> without Byte.x00 h -> without colon h -> head h <> Some (z2b 91) ->
  without Byte.x00 p -> without colon p ->
  lookup_args h = (h, None) /\ lookup_args (h ++ colon :: p) = (h, Some p).
Proof.
  intros Hne Hn Hc Hb Hpn Hpc. unfold lookup_args. destruct h as [|x h]; [done|].
  assert (bool_decide (head (x :: h) = Some (z2b 91)) = false) as Hb1 by by apply bool_decide_false.
  assert (bool_decide (head ((x :: h) ++ colon :: p) = Some (z2b 91)) = false) as Hb2 by by apply bool_decide_false.
  rewrite Hb1, Hb2. rewrite !(bool_decide_true ([] = [])) by done. change (z2b 58) with colon. split.
  - rewrite eqb_char_none by done. rewrite bool_decide_true by done. by rewrite c_str_id.
  - rewrite eqb_char_app by done.
    assert (zdrop (zlen (x :: h)) ((x :: h) ++ colon :: p) = colon :: p) as -> by (unfold zdrop, zlen; rewrite Nat2Z.id; apply drop_app_length).
    assert (ztake (zlen (x :: h)) ((x :: h) ++ colon :: p) = x :: h) as -> by (unfold ztake, zlen; rewrite Nat2Z.id; apply take_app_length).
    assert (without Byte.x00 (colon :: p)) as Hcp by by constructor. rewrite (c_str_id (colon :: p)) by done.
    change (zdrop 1 (colon :: p)) with p. rewrite (eqb_char_none colon p) by done. rewrite bool_decide_false by (by intros [? ?]).
    rewrite bool_decide_false by done. by rewrite c_str_id.
Qed.

(** ** Where the code falls short *)

(** A bare IPv6 address is looked up with a piece of itself as the service. *)
Theorem bare_ipv6_gets_a_service : lookup_args (bs "fe80::1") = (bs "fe80::1", Some (bs "::1")).
Proof. vm_compute. reflexivity. Qed.

(** The IPv6 network address keeps the host bits of one byte and drops the
    network bits. *)
Theorem ipv6_network_address_wrong (p : Z) :
  p = 12 -> networkAddress6 (MkIn6 0 0 (replicate 16 Byte.xff) 0) p
    = Ret (IPv6Address (MkIn6 0 0 ([Byte.xff; Byte.x0f] ++ replicate 14 Byte.x00) 0)) tt.
Proof. intros ->. vm_compute. reflexivity. Qed.

(** Prefixes of 0 and 1 bits overflow an [int] on IPv4, and prefixes from 128
    bits on write behind the address on IPv6. *)
Theorem prefix_out_of_range (a : sockaddr_in) (b : sockaddr_in6) (p q : Z) :
  0 <= p <= 1 -> zlen (s6_addr b) = 16 -> 128 <= q ->
  networkAddress4 a p = UB /\ broadcastAddress4 a p = UB /\ subnetMask4 p = UB
  /\ broadcastAddress6 b q = UB /\ networkAddress6 b q = UB /\ subnetMask6 q = UB.
Proof.
  intros Hp Hb Hq. unfold networkAddress4, broadcastAddress4, subnetMask4, CreateMask. destruct (Z.ltb_spec 32 p); [lia|].
  rewrite bool_decide_false by lia. unfold broadcastAddress6, networkAddress6, subnetMask6, edit6.
  assert (16 <= q / 8) by (apply Z.div_le_lower_bound; lia).
  rewrite (lookup_ge_None_2 (s6_addr b)) by (unfold zlen in Hb; lia). destruct (Z.leb_spec 128 q); [done|lia].
Qed.

(** An interface without an address is dereferenced. *)
Theorem interface_without_address (name : str) (mask : sockaddr) (l : list ifaddr) (family : Z) :
  interfaces family (MkIf name None mask :: l) = UB.
Proof. reflexivity. Qed.

End with_platform.

(** ** Witnesses *)
Lemma address_order_witness :
  @lt x86_64 (@IPv4 x86_64 0x0a000001 80) (@IPv4 x86_64 0x0a000002 80) = true
  /\ @lt x86_64 (@IPv4 x86_64 0x0a000001 80) (@IPv4 x86_64 0x0a000001 80) = false.
Proof.
  destruct (@address_order x86_64 (@IPv4 x86_64 0x0a000001 80) (@IPv4 x86_64 0x0a000002 80) (@IPv4 x86_64 0x0a000003 80) eq_refl eq_refl eq_refl) as (H & _).
  split; [vm_compute; reflexivity|exact H].
Defined.

Lemma ipv4_networks_witness :
  exists n b m, @networkAddress4 x86_64 (MkIn 0 (@byteSwapOnLittleEndian x86_64 4 0xc0a80a37) []) 20 = Ret (Some (IPv4Address n)) tt
    /\ @value4 x86_64 n = 0xc0a80000 /\ @value4 x86_64 b = 0xc0a80fff /\ @value4 x86_64 m = 0xfffff000.
Proof.
  destruct (@ipv4_networks x86_64 (MkIn 0 (@byteSwapOnLittleEndian x86_64 4 0xc0a80a37) []) 20) as (n & b & m & H1 & _ & _ & H4 & H5 & H6 & _);
    [vm_compute; split; congruence|lia|].
  exists n, b, m. rewrite H5, H4, H6. split; [exact H1|]. vm_compute. repeat split.
Defined.

Definition loopback6 : sockaddr_in6 := MkIn6 0 0 (replicate 15 Byte.x00 ++ [Byte.x01]) 0.
Lemma ipv6_networks_witness : exists b, @broadcastAddress6 loopback6 120 = Ret (IPv6Address b) tt /\ be_val (s6_addr b) = 255.
Proof.
  destruct (ipv6_networks loopback6 120) as (b & m & H1 & _ & H3 & _); [reflexivity|lia|].
  exists b. split; [exact H1|]. rewrite H3. vm_compute. reflexivity.
Defined.

Lemma ipv6_text_roundtrip_witness :
  exists text, @dump6 x86_64 loopback6 = bs "[::1]:0" /\ text = bs "::1" /\ parse6 text = Some [0; 0; 0; 0; 0; 0; 0; 1].
Proof.
  destruct (@ipv6_text_roundtrip x86_64 loopback6 eq_refl) as (text & H1 & H2). exists (bs "::1").
  split; [vm_compute; reflexivity|]. split; [reflexivity|].
  assert (text = bs "::1") as E.
  { apply (app_inv_head (bs "[")), (app_inv_tail (bs "]:0")). transitivity (@dump6 x86_64 loopback6); [|vm_compute; reflexivity].
    rewrite H1, <- app_assoc. reflexivity. }
  rewrite <- E. exact H2.
Defined.

End Address.
