(* ===== verification/UrlParser.v ===== *)
(** * Splitting URLs: [http_parser_parse_url] of
      [luwu/luwu/http/http-parser/http_parser.c]

    The two state machines of the bundled C parser that [URI::Create] calls:
    one over the whole URL, one over its authority.  Offsets and lengths are
    16-bit integers, as in [struct http_parser_url]; a field is absent while its
    bit in [field_set] is clear.  The member [port], which no caller reads, is
    the result of [port_loop] and is not kept. *)
From S2P Require Import Prelude StdString.
Import StdString.
Local Open Scope Z_scope.

Module UrlParser.

(** ** Classes of characters, with [HTTP_PARSER_STRICT] *)
Definition chr (s : String.string) : byte := default Byte.x00 (head (bs s)).
Definition is_char (s : String.string) (c : byte) : bool := bool_decide (c = chr s).
Definition LOWER (c : byte) : Z := Z.lor (b2z c) 0x20.
Definition IS_ALPHA (c : byte) : bool := (97 <=? LOWER c) && (LOWER c <=? 122).
Definition IS_NUM (c : byte) : bool := (48 <=? b2sz c) && (b2sz c <=? 57).
Definition IS_ALPHANUM (c : byte) : bool := IS_ALPHA c || IS_NUM c.
Definition IS_HEX (c : byte) : bool := IS_NUM c || ((97 <=? LOWER c) && (LOWER c <=? 102)).
Definition IS_MARK (c : byte) : bool := one_of (bs "-_.!~*'()") c.
Definition IS_USERINFO_CHAR (c : byte) : bool := IS_ALPHANUM c || IS_MARK c || one_of (bs "%;:&=+$,") c.
Definition IS_HOST_CHAR (c : byte) : bool := IS_ALPHANUM c || one_of (bs ".-") c.
(** The table [normal_url_char]: the printable characters but [#] and [?]. *)
Definition IS_URL_CHAR (c : byte) : bool := (33 <=? b2z c) && (b2z c <=? 126) && negb (b2z c =? 35) && negb (b2z c =? 63).

(** ** [parse_url_char] *)
Inductive state :=
| s_dead | s_req_spaces_before_url | s_req_schema | s_req_schema_slash | s_req_schema_slash_slash | s_req_server_start
| s_req_server | s_req_server_with_at | s_req_path | s_req_query_string_start | s_req_query_string
| s_req_fragment_start | s_req_fragment.
#[export] Instance state_eq_decision : EqDecision state.
Proof. solve_decision. Defined.

Definition in_server (c : byte) : state :=
  if is_char "/" c then s_req_path
  else if is_char "?" c then s_req_query_string_start
  else if is_char "@" c then s_req_server_with_at
  else if IS_USERINFO_CHAR c || one_of (bs "[]") c then s_req_server
  else s_dead.

Definition parse_url_char (s : state) (c : byte) : state :=
  if one_of (map z2b [32; 13; 10; 9; 12]) c then s_dead else
  match s with
  | s_req_spaces_before_url => if one_of (bs "/*") c then s_req_path else if IS_ALPHA c then s_req_schema else s_dead
  | s_req_schema => if IS_ALPHA c then s else if is_char ":" c then s_req_schema_slash else s_dead
  | s_req_schema_slash => if is_char "/" c then s_req_schema_slash_slash else s_dead
  | s_req_schema_slash_slash => if is_char "/" c then s_req_server_start else s_dead
  | s_req_server_with_at => if is_char "@" c then s_dead else in_server c
  | s_req_server_start | s_req_server => in_server c
  | s_req_path =>
      if IS_URL_CHAR c then s else if is_char "?" c then s_req_query_string_start
      else if is_char "#" c then s_req_fragment_start else s_dead
  | s_req_query_string_start | s_req_query_string =>
      if IS_URL_CHAR c then s_req_query_string else if is_char "?" c then s_req_query_string
      else if is_char "#" c then s_req_fragment_start else s_dead
  | s_req_fragment_start =>
      if IS_URL_CHAR c then s_req_fragment else if is_char "?" c then s_req_fragment else if is_char "#" c then s else s_dead
  | s_req_fragment => if IS_URL_CHAR c then s else if one_of (bs "?#") c then s else s_dead
  | s_dead => s_dead
  end.

(** ** [struct http_parser_url] *)
Inductive field := UF_SCHEMA | UF_HOST | UF_PORT | UF_PATH | UF_QUERY | UF_FRAGMENT | UF_USERINFO.
#[export] Instance field_eq_decision : EqDecision field.
Proof. solve_decision. Defined.

Definition field_index (f : field) : nat :=
  match f with UF_SCHEMA => 0 | UF_HOST => 1 | UF_PORT => 2 | UF_PATH => 3 | UF_QUERY => 4 | UF_FRAGMENT => 5 | UF_USERINFO => 6 end.
Definition field_at (n : nat) : option field :=
  [UF_SCHEMA; UF_HOST; UF_PORT; UF_PATH; UF_QUERY; UF_FRAGMENT; UF_USERINFO] !! n.
#[export] Instance field_countable : Countable field.
Proof. by apply (inj_countable field_index field_at); intros []. Defined.

(** The offset and length of the fields whose bit is set. *)
Abbreviation url := (gmap field (Z * Z)).
Definition url_init : url := ∅.
Definition set_field (f : field) (v : Z * Z) (u : url) : url := <[f := v]> u.
Definition off (f : field) (u : url) : Z := default 0 (fst <$> u !! f).
Definition len (f : field) (u : url) : Z := default 0 (snd <$> u !! f).

(** One more character at [p] for a field: a new run, or a longer one. *)
Definition begin_run (f : field) (p : Z) (u : url) : url := set_field f (u16 p, 1) u.
Definition grow_run (f : field) (u : url) : url := set_field f (off f u, u16 (len f u + 1)) u.

(** ** [http_parse_host] *)
Inductive hstate :=
| s_http_host_dead | s_http_userinfo_start | s_http_userinfo | s_http_host_start | s_http_host_v6_start | s_http_host
| s_http_host_v6 | s_http_host_v6_end | s_http_host_v6_zone_start | s_http_host_v6_zone | s_http_host_port_start | s_http_host_port.
#[export] Instance hstate_eq_decision : EqDecision hstate.
Proof. solve_decision. Defined.

Definition http_parse_host_char (s : hstate) (c : byte) : hstate :=
  match s with
  | s_http_userinfo | s_http_userinfo_start =>
      if is_char "@" c then s_http_host_start else if IS_USERINFO_CHAR c then s_http_userinfo else s_http_host_dead
  | s_http_host_start =>
      if is_char "[" c then s_http_host_v6_start else if IS_HOST_CHAR c then s_http_host else s_http_host_dead
  | s_http_host =>
      if IS_HOST_CHAR c then s_http_host else if is_char ":" c then s_http_host_port_start else s_http_host_dead
  | s_http_host_v6_end => if is_char ":" c then s_http_host_port_start else s_http_host_dead
  | s_http_host_v6 =>
      if is_char "]" c then s_http_host_v6_end
      else if IS_HEX c || is_char ":" c || is_char "." c then s_http_host_v6
      else if is_char "%" c then s_http_host_v6_zone_start else s_http_host_dead
  | s_http_host_v6_start => if IS_HEX c || is_char ":" c || is_char "." c then s_http_host_v6 else s_http_host_dead
  | s_http_host_v6_zone =>
      if is_char "]" c then s_http_host_v6_end
      else if IS_ALPHANUM c || one_of (bs "%.-_~") c then s_http_host_v6_zone else s_http_host_dead
  | s_http_host_v6_zone_start => if IS_ALPHANUM c || one_of (bs "%.-_~") c then s_http_host_v6_zone else s_http_host_dead
  | s_http_host_port | s_http_host_port_start => if IS_NUM c then s_http_host_port else s_http_host_dead
  | s_http_host_dead => s_http_host_dead
  end.

(** What a step does to the fields. *)
Definition host_field (s new_s : hstate) (p : Z) (u : url) : url :=
  match new_s with
  | s_http_host | s_http_host_v6 => set_field UF_HOST (if decide (s = new_s) then off UF_HOST u else u16 p, u16 (len UF_HOST u + 1)) u
  | s_http_host_v6_zone_start | s_http_host_v6_zone => grow_run UF_HOST u
  | s_http_host_port => grow_run UF_PORT (if decide (s = new_s) then u else set_field UF_PORT (u16 p, 0) u)
  | s_http_userinfo => grow_run UF_USERINFO (if decide (s = new_s) then u else set_field UF_USERINFO (u16 p, 0) u)
  | _ => u
  end.
Fixpoint host_loop (s : hstate) (l : str) (p : Z) (u : url) : option (hstate * url) :=
  match l with
  | [] => Some (s, u)
  | c :: l =>
      let new_s := http_parse_host_char s c in
      if decide (new_s = s_http_host_dead) then None else host_loop new_s l (p + 1) (host_field s new_s p u)
  end.
Definition host_end (s : hstate) : bool :=
  match s with s_http_host | s_http_host_v6_end | s_http_host_port | s_http_host_dead => true | _ => false end.

(** [None] is the result 1. *)
Definition http_parse_host (buf : str) (u : url) (found_at : bool) : option url :=
  let o := off UF_HOST u in
  let n := len UF_HOST u in
  match host_loop (if found_at then s_http_userinfo_start else s_http_host_start) (zsub o n buf) o (set_field UF_HOST (o, 0) u) with
  | Some (s, u) => if host_end s then Some u else None
  | None => None
  end.

(** ** [http_parser_parse_url] *)

(** The field of a state; a delimiter has none. *)
Definition field_of (s : state) : option field :=
  match s with
  | s_req_schema => Some UF_SCHEMA
  | s_req_server_with_at | s_req_server => Some UF_HOST
  | s_req_path => Some UF_PATH
  | s_req_query_string => Some UF_QUERY
  | s_req_fragment => Some UF_FRAGMENT
  | _ => None
  end.
Definition is_dead (s : state) : bool := match s with s_dead | s_req_spaces_before_url => true | _ => false end.

Fixpoint url_loop (s : state) (l : str) (p : Z) (old_uf : option field) (found_at : bool) (u : url) : option (bool * url) :=
  match l with
  | [] => Some (found_at, u)
  | c :: l =>
      let s := parse_url_char s c in
      if is_dead s then None
      else
        match field_of s with
        | None => url_loop s l (p + 1) old_uf found_at u
        | Some uf =>
            let found_at := found_at || bool_decide (s = s_req_server_with_at) in
            if decide (old_uf = Some uf) then url_loop s l (p + 1) old_uf found_at (grow_run uf u)
            else url_loop s l (p + 1) (Some uf) found_at (begin_run uf p u)
        end
  end.

(** The value of the digits of a port, up to 65535. *)
Fixpoint port_loop (l : str) (v : Z) : option Z :=
  match l with
  | [] => Some v
  | c :: l => let v := u64 (v * 10 + (b2sz c - 48)) in if 0xffff <? v then None else port_loop l v
  end.

Definition is_set (f : field) (u : url) : bool := bool_decide (is_Some (u !! f)).
Definition only_host_port (u : url) : bool :=
  is_set UF_HOST u && is_set UF_PORT u && negb (is_set UF_SCHEMA u) && negb (is_set UF_PATH u) && negb (is_set UF_QUERY u)
  && negb (is_set UF_FRAGMENT u) && negb (is_set UF_USERINFO u).

Definition http_parser_parse_url (buf : str) (is_connect : bool) : option url :=
  if bool_decide (buf = []) then None else
  '(found_at, u) ← url_loop (if is_connect then s_req_server_start else s_req_spaces_before_url) buf 0 None false url_init;
  if is_set UF_SCHEMA u && negb (is_set UF_HOST u) then None else
  u ← (if is_set UF_HOST u then http_parse_host buf u found_at else Some u);
  if is_connect && negb (only_host_port u) then None
  else if is_set UF_PORT u
       then _ ← port_loop (zsub (off UF_PORT u) (len UF_PORT u) buf) 0; Some u
       else Some u.

(** ** Runs of characters *)

(** Reading [l] from [s], all characters belong to the field [f]: the state
    after it, and whether it has an [@]. *)
Fixpoint stays (f : field) (s : state) (l : str) : option (state * bool) :=
  match l with
  | [] => Some (s, false)
  | c :: l =>
      let s := parse_url_char s c in
      if negb (is_dead s) && bool_decide (field_of s = Some f)
      then '(s', b) ← stays f s l; Some (s', bool_decide (s = s_req_server_with_at) || b)
      else None
  end.

Lemma stays_app f s a b s1 x1 s2 x2 :
  stays f s a = Some (s1, x1) -> stays f s1 b = Some (s2, x2) -> stays f s (a ++ b) = Some (s2, x1 || x2).
Proof.
  revert s x1. induction a as [|c a IH]; intros s x1 Ha Hb; cbn [stays app] in *; [by injection Ha as <- <-|].
  destruct (_ && _); [|done]. destruct (stays f (parse_url_char s c) a) as [[s' y]|] eqn:E; [|done]. injection Ha as <- <-.
  rewrite (IH _ _ E Hb). cbn [mbind option_bind]. by rewrite orb_assoc.
Qed.
(** A run of characters of one kind. *)
Lemma stays_all f s l (P : byte -> bool) :
  (forall c, P c = true -> parse_url_char s c = s) -> is_dead s = false -> field_of s = Some f -> s <> s_req_server_with_at ->
  forallb P l = true -> stays f s l = Some (s, false).
Proof.
  intros HP Hd Hf Hs. induction l as [|c l IH]; [done|]. cbn [forallb stays]. intros [Hc Hl]%andb_true_iff.
  rewrite (HP c Hc), Hd, Hf, bool_decide_true by done. cbn [negb andb]. rewrite (IH Hl). cbn. by rewrite bool_decide_false.
Qed.

(** The rest of a run. *)
Lemma url_loop_grow f s l s' b r p fa u o n :
  stays f s l = Some (s', b) -> u !! f = Some (o, n) -> 0 <= n -> n + zlen l < 65536 ->
  url_loop s (l ++ r) p (Some f) fa u = url_loop s' r (p + zlen l) (Some f) (fa || b) (set_field f (o, n + zlen l) u).
Proof.
  revert s p fa u n b. induction l as [|c l IH]; intros s p fa u n b Hst Hu Hn Hl; cbn [stays app url_loop] in *.
  - injection Hst as <- <-. rewrite zlen_nil, !Z.add_0_r, orb_false_r. unfold set_field. by rewrite insert_id.
  - destruct (is_dead (parse_url_char s c)); [done|]. cbn [negb andb] in Hst. case_bool_decide as Hf; [|done]. rewrite Hf.
    destruct (stays f (parse_url_char s c) l) as [[s1 b1]|] eqn:E; [|done]. injection Hst as <- <-. rewrite decide_True by done.
    rewrite zlen_cons in *. pose proof (zlen_nonneg l).
    rewrite (IH _ _ _ (grow_run f u) (n + 1) b1 E); [|unfold grow_run, off, len, set_field; rewrite Hu; cbn; rewrite lookup_insert_eq, uw_small by (unfold in_u; lia); done|lia|lia].
    unfold grow_run, set_field. rewrite insert_insert_eq, orb_assoc. replace (n + 1 + zlen l) with (n + (1 + zlen l)) by lia. f_equal. lia.
Qed.

(** A run from its first character. *)
Lemma url_loop_run f s c l s' b r p old fa u :
  stays f s (c :: l) = Some (s', b) -> old <> Some f -> 0 <= p -> p + zlen (c :: l) < 65536 ->
  url_loop s ((c :: l) ++ r) p old fa u = url_loop s' r (p + zlen (c :: l)) (Some f) (fa || b) (set_field f (p, zlen (c :: l)) u).
Proof.
  intros Hst Hold Hp Hl. cbn [stays app url_loop] in *. destruct (is_dead (parse_url_char s c)); [done|]. cbn [negb andb] in Hst.
  case_bool_decide as Hf; [|done]. rewrite Hf. destruct (stays f (parse_url_char s c) l) as [[s1 b1]|] eqn:E; [|done]. injection Hst as <- <-.
  rewrite decide_False by done. rewrite zlen_cons in *. pose proof (zlen_nonneg l).
  rewrite (url_loop_grow f _ l s1 b1 r _ _ (begin_run f p u) p 1 E); [|unfold begin_run, set_field; rewrite lookup_insert_eq, uw_small by (unfold in_u; lia); done|lia|lia].
  unfold begin_run, set_field. rewrite insert_insert_eq, orb_assoc. f_equal; lia.
Qed.

(** A delimiter. *)
Lemma url_loop_skip s c s' r p old fa u :
  parse_url_char s c = s' -> is_dead s' = false -> field_of s' = None ->
  url_loop s (c :: r) p old fa u = url_loop s' r (p + 1) old fa u.
Proof. intros <- Hd Hf. cbn [url_loop]. by rewrite Hd, Hf. Qed.

(** ** Runs of the authority *)
Lemma host_loop_app s a b p u s1 u1 :
  host_loop s a p u = Some (s1, u1) -> host_loop s (a ++ b) p u = host_loop s1 b (p + zlen a) u1.
Proof.
  revert s p u. induction a as [|c a IH]; intros s p u Ha; cbn [host_loop app] in *.
  - injection Ha as <- <-. rewrite zlen_nil. f_equal. lia.
  - destruct (decide _); [done|]. rewrite (IH _ _ _ Ha), zlen_cons. f_equal. lia.
Qed.

(** The states that collect one field. *)
Definition collects (s : hstate) : option field :=
  match s with s_http_userinfo => Some UF_USERINFO | s_http_host => Some UF_HOST | s_http_host_port => Some UF_PORT | _ => None end.

Lemma host_run_grow s f (P : byte -> bool) l p u o n :
  collects s = Some f -> (forall c, P c = true -> http_parse_host_char s c = s) -> forallb P l = true ->
  u !! f = Some (o, n) -> 0 <= n -> n + zlen l < 65536 ->
  host_loop s l p u = Some (s, set_field f (o, n + zlen l) u).
Proof.
  intros Hs HP. revert p u n. induction l as [|c l IH]; intros p u n Hl Hu Hn Hb; cbn [forallb host_loop] in *.
  - rewrite zlen_nil, Z.add_0_r. unfold set_field. by rewrite insert_id.
  - apply andb_true_iff in Hl as [Hc Hl]. rewrite (HP c Hc). rewrite decide_False by (by intros ->). rewrite zlen_cons in *. pose proof (zlen_nonneg l).
    assert (host_field s s p u = set_field f (o, n + 1) u) as ->.
    { unfold off, len, host_field, grow_run. destruct s; try done; injection Hs as <-; rewrite decide_True by done; unfold off, len; rewrite Hu; cbn;
        by rewrite uw_small by (unfold in_u; lia). }
    rewrite (IH _ _ (n + 1)); [|done|unfold set_field; by rewrite lookup_insert_eq|lia|lia].
    unfold set_field. rewrite insert_insert_eq. do 4 f_equal. lia.
Qed.

(** A run of the authority from its first character. *)
Lemma host_run s0 s f (P : byte -> bool) c l p u :
  collects s = Some f -> s0 <> s -> (forall c, P c = true -> http_parse_host_char s c = s) -> http_parse_host_char s0 c = s ->
  forallb P l = true -> (f = UF_HOST -> u !! UF_HOST = Some (p, 0) \/ len UF_HOST u = 0) -> 0 <= p -> p + zlen (c :: l) < 65536 ->
  host_loop s0 (c :: l) p u = Some (s, set_field f (p, zlen (c :: l)) u).
Proof.
  intros Hs Hne HP Hc Hl Hhost Hp Hb. cbn [host_loop]. rewrite Hc. rewrite decide_False by (by intros ->). rewrite zlen_cons in *. pose proof (zlen_nonneg l).
  assert (host_field s0 s p u = set_field f (p, 1) u) as ->.
  { unfold host_field. destruct s; try done; injection Hs as <-; rewrite decide_False by done; unfold grow_run, off, len, set_field.
    - rewrite lookup_insert_eq, insert_insert_eq. cbn. by rewrite !uw_small by (unfold in_u; lia).
    - assert (default 0 (snd <$> u !! UF_HOST) = 0) as -> by (destruct (Hhost eq_refl) as [->|]; done). by rewrite !uw_small by (unfold in_u; lia).
    - rewrite lookup_insert_eq, insert_insert_eq. cbn. by rewrite !uw_small by (unfold in_u; lia). }
  rewrite (host_run_grow s f P l _ _ p 1); [|done|done|done|unfold set_field; by rewrite lookup_insert_eq|lia|lia].
  unfold set_field. by rewrite insert_insert_eq.
Qed.

(** ** Well-formed URLs *)
Record parts := MkParts {
  pt_scheme : str; pt_userinfo : str; pt_host : str; pt_port : option str; pt_path : str; pt_query : str; pt_fragment : str;
}.
Definition authority (t : parts) : str :=
  (if bool_decide (pt_userinfo t = []) then [] else pt_userinfo t ++ bs "@") ++ pt_host t
  ++ match pt_port t with Some d => bs ":" ++ d | None => [] end.
Definition suffix (mark : str) (x : str) : str := if bool_decide (x = []) then [] else mark ++ x.
Definition url_text (t : parts) : str :=
  pt_scheme t ++ bs "://" ++ authority t ++ pt_path t ++ suffix (bs "?") (pt_query t) ++ suffix (bs "#") (pt_fragment t).

Definition QUERY_CHAR (c : byte) : bool := IS_URL_CHAR c || is_char "?" c.
Definition FRAGMENT_CHAR (c : byte) : bool := IS_URL_CHAR c || is_char "?" c || is_char "#" c.
Definition nonempty (s : str) : bool := negb (bool_decide (s = [])).
Definition valid_parts (t : parts) : bool :=
  nonempty (pt_scheme t) && forallb IS_ALPHA (pt_scheme t) && forallb IS_USERINFO_CHAR (pt_userinfo t)
  && nonempty (pt_host t) && forallb IS_HOST_CHAR (pt_host t)
  && match pt_port t with
     | Some d => nonempty d && forallb IS_NUM d && bool_decide (is_Some (port_loop d 0))
     | None => true
     end
  && bool_decide (head (pt_path t) = Some (chr "/")) && forallb IS_URL_CHAR (pt_path t)
  && forallb QUERY_CHAR (pt_query t) && forallb FRAGMENT_CHAR (pt_fragment t) && negb (bool_decide (head (pt_fragment t) = Some (chr "#"))).

(** Facts about single characters, by trying all of them. *)
Lemma forall_bytes (P Q : byte -> bool) : forallb (fun c => implb (P c) (Q c)) all_bytes = true -> forall c, P c = true -> Q c = true.
Proof. intros Hall c Hc. pose proof (byte_forall _ Hall c) as Hb. cbn in Hb. by rewrite Hc in Hb. Qed.

Ltac char_fact :=
  let Hc := fresh "Hc" in
  match goal with |- ?P ?c = true -> _ => intros Hc; apply (bool_decide_eq_true _); revert c Hc; apply forall_bytes; vm_compute; reflexivity end.
Lemma alpha_start c : IS_ALPHA c = true -> parse_url_char s_req_spaces_before_url c = s_req_schema.
Proof. char_fact. Qed.
Lemma alpha_schema c : IS_ALPHA c = true -> parse_url_char s_req_schema c = s_req_schema.
Proof. char_fact. Qed.
Lemma server_start_char c : IS_USERINFO_CHAR c = true -> parse_url_char s_req_server_start c = s_req_server.
Proof. char_fact. Qed.
Lemma server_char c : IS_USERINFO_CHAR c = true -> parse_url_char s_req_server c = s_req_server.
Proof. char_fact. Qed.
Lemma server_at_char c : IS_USERINFO_CHAR c = true -> parse_url_char s_req_server_with_at c = s_req_server.
Proof. char_fact. Qed.
Lemma path_char c : IS_URL_CHAR c = true -> parse_url_char s_req_path c = s_req_path.
Proof. char_fact. Qed.
Lemma query_char c : QUERY_CHAR c = true -> parse_url_char s_req_query_string c = s_req_query_string.
Proof. char_fact. Qed.
Lemma query_start_char c : QUERY_CHAR c = true -> parse_url_char s_req_query_string_start c = s_req_query_string.
Proof. char_fact. Qed.
Lemma fragment_char c : FRAGMENT_CHAR c = true -> parse_url_char s_req_fragment c = s_req_fragment.
Proof. char_fact. Qed.
Lemma fragment_start_char c : QUERY_CHAR c = true -> parse_url_char s_req_fragment_start c = s_req_fragment.
Proof. char_fact. Qed.
Lemma host_is_userinfo c : IS_HOST_CHAR c = true -> IS_USERINFO_CHAR c = true.
Proof. revert c. apply forall_bytes. vm_compute. reflexivity. Qed.
Lemma num_is_userinfo c : IS_NUM c = true -> IS_USERINFO_CHAR c = true.
Proof. revert c. apply forall_bytes. vm_compute. reflexivity. Qed.
Lemma userinfo_start_char c : IS_USERINFO_CHAR c = true -> http_parse_host_char s_http_userinfo_start c = s_http_userinfo.
Proof. char_fact. Qed.
Lemma userinfo_char c : IS_USERINFO_CHAR c = true -> http_parse_host_char s_http_userinfo c = s_http_userinfo.
Proof. char_fact. Qed.
Lemma host_start_char c : IS_HOST_CHAR c = true -> http_parse_host_char s_http_host_start c = s_http_host.
Proof. char_fact. Qed.
Lemma host_char c : IS_HOST_CHAR c = true -> http_parse_host_char s_http_host c = s_http_host.
Proof. char_fact. Qed.
Lemma port_start_char c : IS_NUM c = true -> http_parse_host_char s_http_host_port_start c = s_http_host_port.
Proof. char_fact. Qed.
Lemma port_char c : IS_NUM c = true -> http_parse_host_char s_http_host_port c = s_http_host_port.
Proof. char_fact. Qed.

(** ** Parsing a well-formed URL *)
Lemma split_nonempty (s : str) : nonempty s = true -> exists c l, s = c :: l.
Proof. destruct s; [done|eauto]. Qed.

(** The authority is one run for the first machine. *)
Lemma stays_authority t s0 :
  forallb IS_USERINFO_CHAR (pt_userinfo t) = true -> nonempty (pt_host t) = true -> forallb IS_HOST_CHAR (pt_host t) = true ->
  match pt_port t with Some d => forallb IS_NUM d = true | None => True end -> s0 = s_req_server_start ->
  stays UF_HOST s0 (authority t) = Some (s_req_server, nonempty (pt_userinfo t)).
Proof.
  intros Hu Hne Hh Hp ->. destruct (split_nonempty _ Hne) as (h & hs & Eh). unfold authority.
  assert (forall l, forallb IS_USERINFO_CHAR l = true -> stays UF_HOST s_req_server l = Some (s_req_server, false)) as Hrun.
  { intros l Hl. by apply (stays_all _ _ _ IS_USERINFO_CHAR); [apply server_char|..]. }
  assert (forall s, parse_url_char s h = s_req_server ->
    stays UF_HOST s (pt_host t ++ match pt_port t with Some d => bs ":" ++ d | None => [] end) = Some (s_req_server, false)) as Hhost.
  { intros s Hs. rewrite Eh in *. cbn [app stays]. rewrite Hs. cbn [is_dead negb andb field_of]. rewrite bool_decide_true by done.
    cbn [forallb] in Hh. apply andb_true_iff in Hh as [_ Hh].
    rewrite Hrun; [done|]. rewrite forallb_app. apply andb_true_iff. split.
    - rewrite forallb_forall in *. intros x Hx. apply host_is_userinfo. by apply Hh.
    - destruct (pt_port t) as [d|]; [|done]. rewrite forallb_app. apply andb_true_iff. split; [done|].
      rewrite forallb_forall in *. intros x Hx. apply num_is_userinfo. by apply Hp. }
  assert (IS_USERINFO_CHAR h = true) as Hhu.
  { rewrite Eh in Hh. cbn in Hh. apply andb_true_iff in Hh as [? _]. by apply host_is_userinfo. }
  unfold nonempty. case_bool_decide as Eu; cbn [negb app].
  - apply Hhost. by apply server_start_char.
  - destruct (pt_userinfo t) as [|x xs]; [done|]. cbn [forallb] in Hu. apply andb_true_iff in Hu as [Hx Hxs].
    assert (stays UF_HOST s_req_server_start ((x :: xs) ++ bs "@") = Some (s_req_server_with_at, true)) as Hui.
    { change true with (false || true). eapply (stays_app _ _ _ _ s_req_server); [|by vm_compute].
      cbn [stays]. rewrite server_start_char by done. cbn [is_dead negb andb field_of]. rewrite bool_decide_true by done. by rewrite (Hrun xs Hxs). }
    change true with (true || false). eapply stays_app; [exact Hui|]. apply Hhost. by apply server_at_char.
Qed.

(** The second machine finds the parts of the authority at [p]. *)
Definition authority_fields (t : parts) (p : Z) (u : url) : url :=
  let ui := zlen (pt_userinfo t) in
  let at_host := if bool_decide (pt_userinfo t = []) then p else p + ui + 1 in
  let u := if bool_decide (pt_userinfo t = []) then u else set_field UF_USERINFO (p, ui) u in
  let u := set_field UF_HOST (at_host, zlen (pt_host t)) u in
  match pt_port t with Some d => set_field UF_PORT (at_host + zlen (pt_host t) + 1, zlen d) u | None => u end.

Lemma host_colon r p u : host_loop s_http_host (bs ":" ++ r) p u = host_loop s_http_host_port_start r (p + 1) u.
Proof. reflexivity. Qed.
Lemma host_at r p u : host_loop s_http_userinfo (bs "@" ++ r) p u = host_loop s_http_host_start r (p + 1) u.
Proof. reflexivity. Qed.

Lemma host_tail t p u :
  nonempty (pt_host t) = true -> forallb IS_HOST_CHAR (pt_host t) = true ->
  match pt_port t with Some d => nonempty d = true /\ forallb IS_NUM d = true | None => True end ->
  0 <= p -> p + zlen (pt_host t ++ match pt_port t with Some d => bs ":" ++ d | None => [] end) < 65536 -> len UF_HOST u = 0 ->
  exists s, host_end s = true /\
  host_loop s_http_host_start (pt_host t ++ match pt_port t with Some d => bs ":" ++ d | None => [] end) p u
  = Some (s, match pt_port t with
             | Some d => set_field UF_PORT (p + zlen (pt_host t) + 1, zlen d) (set_field UF_HOST (p, zlen (pt_host t)) u)
             | None => set_field UF_HOST (p, zlen (pt_host t)) u
             end).
Proof.
  intros Hne Hh Hp H0 Hb Hu. destruct (split_nonempty _ Hne) as (h & hs & Eh). rewrite zlen_app in Hb.
  pose proof (zlen_nonneg (match pt_port t with Some d => bs ":" ++ d | None => [] end)).
  assert (host_loop s_http_host_start (pt_host t) p u = Some (s_http_host, set_field UF_HOST (p, zlen (pt_host t)) u)) as Hrun.
  { rewrite Eh in *. cbn [forallb] in Hh. apply andb_true_iff in Hh as [Hh Hhs].
    apply (host_run _ _ _ IS_HOST_CHAR); try done; [apply host_char|by apply host_start_char|by right|lia]. }
  rewrite (host_loop_app _ _ _ _ _ _ _ Hrun). destruct (pt_port t) as [d|]; [|by exists s_http_host].
  destruct Hp as [Hdn Hd]. destruct (split_nonempty _ Hdn) as (x & xs & ->). cbn [forallb] in Hd. apply andb_true_iff in Hd as [Hx Hxs].
  exists s_http_host_port. split; [done|]. rewrite host_colon. rewrite zlen_app in Hb. change (zlen (bs ":")) with 1 in Hb.
  rewrite (host_run _ s_http_host_port UF_PORT IS_NUM); try done; [apply port_char|by apply port_start_char|pose proof (zlen_nonneg (pt_host t)); lia|lia].
Qed.

Lemma authority_parsed t p u fa :
  valid_parts t = true -> 0 <= p -> p + zlen (authority t) < 65536 -> len UF_HOST u = 0 -> fa = nonempty (pt_userinfo t) ->
  exists s, host_end s = true
    /\ host_loop (if fa then s_http_userinfo_start else s_http_host_start) (authority t) p u = Some (s, authority_fields t p u).
Proof.
  unfold valid_parts. rewrite !andb_true_iff. intros Hv H0 Hb Hu ->. destruct_and? Hv. unfold authority, authority_fields, nonempty in *.
  assert (match pt_port t with Some d => nonempty d = true /\ forallb IS_NUM d = true | None => True end) as Hport.
  { destruct (pt_port t) as [d|]; [|done]. repeat match goal with Hx : _ && _ = true |- _ => apply andb_true_iff in Hx as [? ?] end. done. }
  case_bool_decide as Eu; cbn [negb app].
  - destruct (host_tail t p u) as (s & Hs & Hrun); try done. exists s. split; [done|]. rewrite Hrun. by destruct (pt_port t).
  - set (tail := pt_host t ++ _) in *. rewrite !zlen_app in Hb. change (zlen (bs "@")) with 1 in Hb.
    pose proof (zlen_nonneg (pt_userinfo t)). pose proof (zlen_nonneg tail).
    destruct (pt_userinfo t) as [|x xs] eqn:Ex; [done|]. rewrite <- app_assoc.
    assert (host_loop s_http_userinfo_start (x :: xs) p u = Some (s_http_userinfo, set_field UF_USERINFO (p, zlen (x :: xs)) u)) as Hrun.
    { match goal with Hx : forallb IS_USERINFO_CHAR _ = true |- _ => cbn [forallb] in Hx; apply andb_true_iff in Hx as [? ?] end.
      apply (host_run _ _ _ IS_USERINFO_CHAR); try done; [apply userinfo_char|by apply userinfo_start_char|lia]. }
    rewrite (host_loop_app _ _ _ _ _ _ _ Hrun). rewrite host_at.
    destruct (host_tail t (p + zlen (x :: xs) + 1) (set_field UF_USERINFO (p, zlen (x :: xs)) u)) as (s & Hs & Hrun2); try done.
    + lia.
    + fold tail. lia.
    + unfold len, set_field. by rewrite lookup_insert_ne.
    + exists s. split; [done|]. fold tail in Hrun2. rewrite Hrun2. by destruct (pt_port t).
Qed.

(** The fields the first machine finds. *)
Definition at_authority (t : parts) : Z := zlen (pt_scheme t) + 3.
Definition at_path (t : parts) : Z := at_authority t + zlen (authority t).
Definition at_query (t : parts) : Z := at_path t + zlen (pt_path t).
Definition at_fragment (t : parts) : Z := at_query t + zlen (suffix (bs "?") (pt_query t)).
Definition set_part (f : field) (at_part : Z) (x : str) (u : url) : url := if bool_decide (x = []) then u else set_field f (at_part, zlen x) u.
Definition raw_fields (t : parts) : url :=
  set_part UF_FRAGMENT (at_fragment t + 1) (pt_fragment t)
    (set_part UF_QUERY (at_query t + 1) (pt_query t)
       (set_field UF_PATH (at_path t, zlen (pt_path t))
          (set_field UF_HOST (at_authority t, zlen (authority t)) (set_field UF_SCHEMA (0, zlen (pt_scheme t)) url_init)))).

Lemma fragment_parsed x s p old fa u :
  forallb FRAGMENT_CHAR x = true -> head x <> Some (chr "#") -> s = s_req_path \/ s = s_req_query_string ->
  old <> Some UF_FRAGMENT -> 0 <= p -> p + zlen (suffix (bs "#") x) < 65536 ->
  url_loop s (suffix (bs "#") x) p old fa u = Some (fa, set_part UF_FRAGMENT (p + 1) x u).
Proof.
  intros Hx Hhd Hs Hold Hp Hb. unfold suffix, set_part in *. case_bool_decide as Ex; [done|]. destruct x as [|c x]; [done|].
  cbn [forallb] in Hx. apply andb_true_iff in Hx as [Hc Hx]. rewrite zlen_app in Hb. change (zlen (bs "#")) with 1 in Hb.
  change (bs "#" ++ c :: x) with (chr "#" :: c :: x).
  rewrite (url_loop_skip _ _ s_req_fragment_start); [|by destruct Hs as [->| ->]; vm_compute|done|done].
  assert (QUERY_CHAR c = true) as Hq.
  { unfold FRAGMENT_CHAR in Hc. apply orb_true_iff in Hc as [Hc|Hc]; [done|]. apply bool_decide_eq_true in Hc. by subst c. }
  rewrite <- (app_nil_r (c :: x)) at 1.
  rewrite (url_loop_run UF_FRAGMENT _ c x s_req_fragment false); [cbn [url_loop]; by rewrite orb_false_r| |done|lia|lia].
  cbn [stays]. rewrite fragment_start_char by done. cbn [is_dead negb andb field_of]. rewrite bool_decide_true by done.
  by rewrite (stays_all _ _ _ FRAGMENT_CHAR fragment_char).
Qed.

Lemma query_parsed x y p fa u :
  forallb QUERY_CHAR x = true -> forallb FRAGMENT_CHAR y = true -> head y <> Some (chr "#") ->
  0 <= p -> p + zlen (suffix (bs "?") x) + zlen (suffix (bs "#") y) < 65536 ->
  url_loop s_req_path (suffix (bs "?") x ++ suffix (bs "#") y) p (Some UF_PATH) fa u
  = Some (fa, set_part UF_FRAGMENT (p + zlen (suffix (bs "?") x) + 1) y (set_part UF_QUERY (p + 1) x u)).
Proof.
  intros Hx Hy Hhd Hp Hb. pose proof (zlen_nonneg (suffix (bs "#") y)). unfold suffix at 1, set_part at 2. unfold suffix in Hb at 1.
  destruct (bool_decide_reflect (x = [])) as [->|Ex].
  - cbn [app]. rewrite zlen_nil in Hb. rewrite fragment_parsed by (by auto || lia). unfold suffix at 1. rewrite bool_decide_true by done. by rewrite zlen_nil, Z.add_0_r.
  - destruct x as [|c x]; [done|]. cbn [forallb] in Hx. apply andb_true_iff in Hx as [Hc Hx].
    rewrite zlen_app in Hb. change (zlen (bs "?")) with 1 in Hb. pose proof (zlen_nonneg (c :: x)).
    rewrite <- app_assoc. change (bs "?" ++ (c :: x) ++ ?r) with (chr "?" :: (c :: x) ++ r).
    rewrite (url_loop_skip _ _ s_req_query_string_start); [|by vm_compute|done|done].
    rewrite (url_loop_run UF_QUERY _ c x s_req_query_string false); [| |done|lia|lia].
    + rewrite orb_false_r, fragment_parsed by (by auto || lia). unfold suffix at 1. rewrite bool_decide_false, zlen_app by done. change (zlen (bs "?")) with 1. do 3 f_equal. lia.
    + cbn [stays]. rewrite query_start_char by done. cbn [is_dead negb andb field_of]. rewrite bool_decide_true by done.
      by rewrite (stays_all _ _ _ QUERY_CHAR query_char).
Qed.

(** What [valid_parts] checks. *)
Lemma valid_parts_spec t :
  valid_parts t = true ->
  (nonempty (pt_scheme t) = true /\ forallb IS_ALPHA (pt_scheme t) = true)
  /\ forallb IS_USERINFO_CHAR (pt_userinfo t) = true
  /\ (nonempty (pt_host t) = true /\ forallb IS_HOST_CHAR (pt_host t) = true)
  /\ match pt_port t with Some d => nonempty d = true /\ forallb IS_NUM d = true /\ is_Some (port_loop d 0) | None => True end
  /\ (head (pt_path t) = Some (chr "/") /\ forallb IS_URL_CHAR (pt_path t) = true)
  /\ forallb QUERY_CHAR (pt_query t) = true
  /\ forallb FRAGMENT_CHAR (pt_fragment t) = true /\ head (pt_fragment t) <> Some (chr "#").
Proof.
  unfold valid_parts. rewrite !andb_true_iff, negb_true_iff, bool_decide_eq_false, bool_decide_eq_true. intros Hv. destruct_and? Hv. split_and!; try done.
  destruct (pt_port t); [|done]. rewrite !andb_true_iff, bool_decide_eq_true in *. naive_solver.
Qed.

Lemma authority_nonempty t : nonempty (pt_host t) = true -> exists c l, authority t = c :: l.
Proof. intros (h & hs & E)%split_nonempty. unfold authority. rewrite E. case_bool_decide; [by eauto|]. destruct (pt_userinfo t); cbn; eauto. Qed.

Lemma raw_fields_found t :
  valid_parts t = true -> zlen (url_text t) < 65536 ->
  url_loop s_req_spaces_before_url (url_text t) 0 None false url_init = Some (nonempty (pt_userinfo t), raw_fields t).
Proof.
  intros Hv Hb. destruct (valid_parts_spec t Hv) as ((Hs & Hsa) & Hu & (Hh & Hha) & Hp & (Hsl & Hpa) & Hq & Hf & Hfh).
  unfold url_text in *. rewrite !zlen_app in Hb. change (zlen (bs "://")) with 3 in Hb.
  destruct (split_nonempty _ Hs) as (c & sc & Es). destruct (authority_nonempty t Hh) as (a & au & Ea). destruct (pt_path t) as [|x pa] eqn:Ep; [done|].
  injection Hsl as ->. pose proof (zlen_nonneg (authority t)). pose proof (zlen_nonneg (pt_scheme t)).
  pose proof (zlen_nonneg (chr "/" :: pa)). pose proof (zlen_nonneg (suffix (bs "?") (pt_query t))). pose proof (zlen_nonneg (suffix (bs "#") (pt_fragment t))).
  assert (stays UF_SCHEMA s_req_spaces_before_url (pt_scheme t) = Some (s_req_schema, false)) as Hrs.
  { rewrite Es in *. cbn [forallb stays] in *. apply andb_true_iff in Hsa as [Hc Hsc]. rewrite alpha_start by done. cbn [is_dead negb andb field_of].
    rewrite bool_decide_true by done. by rewrite (stays_all _ _ _ IS_ALPHA alpha_schema). }
  assert (stays UF_HOST s_req_server_start (authority t) = Some (s_req_server, nonempty (pt_userinfo t))) as Hra.
  { apply stays_authority; try done. destruct (pt_port t); [naive_solver|done]. }
  assert (stays UF_PATH s_req_server (chr "/" :: pa) = Some (s_req_path, false)) as Hrp.
  { cbn [stays forallb] in *. apply andb_true_iff in Hpa as [_ Hpa]. change (parse_url_char s_req_server (chr "/")) with s_req_path. cbn [is_dead negb andb field_of].
    rewrite bool_decide_true by done. by rewrite (stays_all _ _ _ IS_URL_CHAR path_char). }
  rewrite Es in Hrs |- *. rewrite (url_loop_run UF_SCHEMA _ c sc _ _ _ _ _ _ _ Hrs); [|done|lia|rewrite <- Es; lia].
  change (bs "://" ++ ?r) with (chr ":" :: chr "/" :: chr "/" :: r).
  rewrite (url_loop_skip _ _ s_req_schema_slash), (url_loop_skip _ _ s_req_schema_slash_slash), (url_loop_skip _ _ s_req_server_start) by done.
  rewrite <- Es. rewrite Ea in Hra |- *. rewrite (url_loop_run UF_HOST _ a au _ _ _ _ _ _ _ Hra); [|done|lia|rewrite <- Ea; lia].
  rewrite <- Ea. rewrite (url_loop_run UF_PATH _ _ _ _ _ _ _ _ _ _ Hrp); [|done|lia|lia].
  rewrite query_parsed by (done || lia). unfold raw_fields, at_fragment, at_query, at_path, at_authority. rewrite Ep, !orb_false_r, !orb_false_l.
  replace (0 + zlen (pt_scheme t) + 1 + 1 + 1) with (zlen (pt_scheme t) + 3) by lia. done.
Qed.

(** ** The text of a field *)
Definition field_text (buf : str) (u : url) (f : field) : option str := (fun v => zsub v.1 v.2 buf) <$> u !! f.
Definition part (t : parts) (f : field) : option str :=
  let present x := if bool_decide (x = []) then None else Some x in
  match f with
  | UF_SCHEMA => Some (pt_scheme t)
  | UF_USERINFO => present (pt_userinfo t)
  | UF_HOST => Some (pt_host t)
  | UF_PORT => pt_port t
  | UF_PATH => Some (pt_path t)
  | UF_QUERY => present (pt_query t)
  | UF_FRAGMENT => present (pt_fragment t)
  end.

Lemma zsub_mid (a b c : str) p n : p = zlen a -> n = zlen b -> zsub p n (a ++ b ++ c) = b.
Proof. intros -> ->. rewrite zsub_app_r, Z.sub_diag, zsub_app_l by (pose proof (zlen_nonneg b); lia). by apply zsub_all. Qed.

(** The fields after both machines. *)
Definition fields (t : parts) : url := authority_fields t (at_authority t) (set_field UF_HOST (at_authority t, 0) (raw_fields t)).

Lemma authority_in_text t : zsub (at_authority t) (zlen (authority t)) (url_text t) = authority t.
Proof. unfold url_text. rewrite (app_assoc (pt_scheme t)). apply zsub_mid; [by rewrite zlen_app|done]. Qed.

(** Where each part is. *)
Definition at_host (t : parts) : Z := at_authority t + (if bool_decide (pt_userinfo t = []) then 0 else zlen (pt_userinfo t) + 1).
Definition place (t : parts) (f : field) : Z :=
  match f with
  | UF_SCHEMA => 0
  | UF_USERINFO => at_authority t
  | UF_HOST => at_host t
  | UF_PORT => at_host t + zlen (pt_host t) + 1
  | UF_PATH => at_path t
  | UF_QUERY => at_query t + 1
  | UF_FRAGMENT => at_fragment t + 1
  end.
Lemma fields_lookup t f : fields t !! f = (fun x => (place t f, zlen x)) <$> part t f.
Proof.
  unfold fields, authority_fields, raw_fields, set_part, set_field, part, place, at_host, url_init.
  destruct f; repeat case_bool_decide; destruct (pt_port t); simplify_map_eq; try done; by rewrite ?Z.add_0_r, ?Z.add_assoc.
Qed.

(** The text before a part. *)
Definition before_host (t : parts) : str := pt_scheme t ++ bs "://" ++ (if bool_decide (pt_userinfo t = []) then [] else pt_userinfo t ++ bs "@").
Definition before (t : parts) (f : field) : str :=
  match f with
  | UF_SCHEMA => []
  | UF_USERINFO => pt_scheme t ++ bs "://"
  | UF_HOST => before_host t
  | UF_PORT => before_host t ++ pt_host t ++ bs ":"
  | UF_PATH => pt_scheme t ++ bs "://" ++ authority t
  | UF_QUERY => pt_scheme t ++ bs "://" ++ authority t ++ pt_path t ++ bs "?"
  | UF_FRAGMENT => pt_scheme t ++ bs "://" ++ authority t ++ pt_path t ++ suffix (bs "?") (pt_query t) ++ bs "#"
  end.
Lemma zlen_before t f : zlen (before t f) = place t f.
Proof.
  unfold before, before_host, place, at_fragment, at_query, at_path, at_host, at_authority.
  destruct f; repeat (rewrite zlen_app || case_bool_decide || rewrite zlen_nil); change (zlen (bs "://")) with 3;
    change (zlen (bs ":")) with 1; change (zlen (bs "@")) with 1; change (zlen (bs "?")) with 1; change (zlen (bs "#")) with 1; lia.
Qed.
Lemma before_part t f x : part t f = Some x -> exists c, url_text t = before t f ++ x ++ c.
Proof.
  unfold part, url_text. intros Hx.
  destruct f; repeat case_bool_decide; simplify_eq; unfold before, before_host, authority, suffix;
    repeat match goal with
           | Hy : pt_port t = _ |- _ => rewrite Hy
           | Hy : ?l <> [] |- context [bool_decide (?l = [])] => rewrite (bool_decide_false (l = []) Hy)
           end;
    first [eexists; repeat rewrite <- app_assoc; reflexivity | exists []; rewrite app_nil_r; repeat rewrite <- app_assoc; reflexivity].
Qed.

Lemma fields_text t f : field_text (url_text t) (fields t) f = part t f.
Proof.
  unfold field_text. rewrite fields_lookup. destruct (part t f) as [x|] eqn:E; [|done]. cbn [fmap option_fmap option_map fst snd].
  destruct (before_part t f x E) as (c & ->). f_equal. apply zsub_mid; [by rewrite zlen_before|done].
Qed.

(** A well-formed URL of less than 65536 bytes is accepted, and the fields
    found are its parts. *)
Theorem url_fields (t : parts) :
  valid_parts t = true -> zlen (url_text t) < 65536 ->
  exists u, http_parser_parse_url (url_text t) false = Some u /\ forall f, field_text (url_text t) u f = part t f.
Proof.
  intros Hv Hb. exists (fields t). split; [|apply fields_text].
  destruct (valid_parts_spec t Hv) as ((Hs & _) & _ & (Hh & _) & Hp & _).
  unfold http_parser_parse_url. rewrite bool_decide_false.
  2: { destruct (split_nonempty _ Hs) as (c & l & E). unfold url_text. by rewrite E. }
  rewrite raw_fields_found by done. cbn [mbind option_bind].
  assert (raw_fields t !! UF_HOST = Some (at_authority t, zlen (authority t))) as Hraw.
  { unfold raw_fields, set_part, set_field. repeat case_bool_decide; by simplify_map_eq. }
  assert (is_set UF_HOST (raw_fields t) = true) as -> by (unfold is_set; rewrite Hraw; by apply bool_decide_true).
  rewrite andb_false_r. unfold http_parse_host, off, len. rewrite Hraw. cbn [fmap option_fmap option_map fst snd default].
  pose proof (zlen_nonneg (pt_scheme t)).
  assert (at_authority t + zlen (authority t) <= zlen (url_text t)) as Hle.
  { unfold url_text, at_authority. rewrite !zlen_app. change (zlen (bs "://")) with 3.
    pose proof (zlen_nonneg (pt_path t)). pose proof (zlen_nonneg (suffix (bs "?") (pt_query t))). pose proof (zlen_nonneg (suffix (bs "#") (pt_fragment t))). lia. }
  unfold id. rewrite authority_in_text.
  destruct (authority_parsed t (at_authority t) (set_field UF_HOST (at_authority t, 0) (raw_fields t)) (nonempty (pt_userinfo t))) as (s & Hend & ->); try done.
  - unfold at_authority. lia.
  - lia.
  - unfold len, set_field. by rewrite lookup_insert_eq.
  - rewrite Hend. cbn [mbind option_bind andb negb]. fold (fields t). pose proof (fields_text t UF_PORT) as Ht. pose proof (fields_lookup t UF_PORT) as Hl.
    unfold field_text, part in *. unfold is_set, off, len. rewrite Hl in *. destruct (pt_port t) as [d|]; cbn in Ht |- *; [|done].
    injection Ht as ->. destruct Hp as (_ & _ & [v ->]). done.
Qed.

(** ** The port field of any URL *)

(** The port is a run of digits of the buffer that ends at [p], in the state
    that collects it, and is absent in every other state. *)
Definition port_run (buf : str) (o k : Z) : Prop := 0 <= o /\ 1 <= k /\ forallb IS_NUM (zsub o k buf) = true.
Definition port_inv (buf : str) (s : hstate) (p : Z) (u : url) : Prop :=
  if decide (s = s_http_host_port) then exists o k, u !! UF_PORT = Some (o, k) /\ o + k = p /\ port_run buf o k else u !! UF_PORT = None.

Lemma port_char_num s c : http_parse_host_char s c = s_http_host_port -> IS_NUM c = true /\ (s = s_http_host_port \/ s = s_http_host_port_start).
Proof. destruct s; cbn; repeat case_match; try done; auto. Qed.
Lemma port_state_stays c : http_parse_host_char s_http_host_port c <> s_http_host_dead -> http_parse_host_char s_http_host_port c = s_http_host_port.
Proof. cbn. by destruct (IS_NUM c). Qed.
Lemma host_field_port s s' p u : s' <> s_http_host_port -> host_field s s' p u !! UF_PORT = u !! UF_PORT.
Proof. destruct s'; try done; intros _; cbn; unfold grow_run, set_field; repeat case_decide; by simplify_map_eq. Qed.

Lemma zsub_snoc (a b : str) c o k : 0 <= o -> 0 <= k -> o + k = zlen a -> zsub o (k + 1) (a ++ c :: b) = zsub o k (a ++ c :: b) ++ [c].
Proof.
  intros. rewrite <- zsub_app by lia. f_equal. rewrite zsub_app_r by lia. replace (o + k - zlen a) with 0 by lia. done.
Qed.

Lemma host_loop_port buf pre l post s p u s' u' :
  buf = pre ++ l ++ post -> zlen pre = p -> p + zlen l < 65536 -> port_inv buf s p u -> host_loop s l p u = Some (s', u') ->
  port_inv buf s' (p + zlen l) u'.
Proof.
  revert pre s p u. induction l as [|c l IH]; intros pre s p u Hbuf Hpre Hb Hinv Hl; cbn [host_loop] in Hl.
  - injection Hl as <- <-. by rewrite zlen_nil, Z.add_0_r.
  - destruct (decide (http_parse_host_char s c = s_http_host_dead)); [done|]. rewrite zlen_cons in *. pose proof (zlen_nonneg l). pose proof (zlen_nonneg pre).
    rewrite Z.add_assoc. eapply (IH (pre ++ [c])); [by rewrite Hbuf, <- app_assoc|by rewrite zlen_app, Hpre|lia| |exact Hl]. clear IH Hl.
    unfold port_inv in *. destruct (decide (http_parse_host_char s c = s_http_host_port)) as [E|E].
    + destruct (port_char_num s c E) as [Hc Hs]. rewrite E. cbn [host_field]. unfold grow_run.
      destruct Hs as [-> | ->]; repeat (case_decide; try done).
      * destruct Hinv as (o & k & Hu & <- & ? & ? & Hd). exists o, (k + 1). unfold off, len, set_field, port_run. rewrite Hu. cbn.
        rewrite lookup_insert_eq, uw_small by (unfold in_u; lia). split_and!; try (done || lia).
        rewrite Hbuf in *. cbn [app] in *. rewrite zsub_snoc, forallb_app, Hd by lia. cbn. by rewrite Hc.
      * exists p, 1. unfold off, len, set_field, port_run. rewrite !lookup_insert_eq. cbn [fmap option_fmap option_map fst snd default from_option id].
        rewrite !uw_small by (unfold in_u; lia). split_and!; try (done || lia).
        rewrite Hbuf. cbn [app]. change 1 with (0 + 1). rewrite zsub_snoc, zsub_nil by lia. cbn. by rewrite Hc.
    + rewrite host_field_port by done. destruct (decide (s = s_http_host_port)) as [->|]; [by rewrite port_state_stays in E|done].
Qed.

(** The first machine finds no port. *)
Lemma url_loop_port s l p old fa u b u' : url_loop s l p old fa u = Some (b, u') -> u !! UF_PORT = None -> u' !! UF_PORT = None.
Proof.
  revert s p old fa u. induction l as [|c l IH]; intros s p old fa u; cbn [url_loop]; [by intros [= <- <-]|].
  destruct (is_dead _); [done|]. destruct (field_of _) as [f|] eqn:E; [|by eauto].
  assert (f <> UF_PORT) as Hf by (destruct (parse_url_char s c); cbn in E; congruence).
  unfold grow_run, begin_run, set_field. case_decide; intros Hl Hu; eapply IH; [exact Hl| |exact Hl|]; by rewrite lookup_insert_ne.
Qed.

(** Every field it finds lies within the text read. *)
Definition within (p : Z) (u : url) : Prop := forall f o k, u !! f = Some (o, k) -> 0 <= o /\ 0 <= k /\ o + k <= p.
Lemma within_set f o k p u : within p u -> 0 <= o -> 0 <= k -> o + k <= p + 1 -> within (p + 1) (set_field f (o, k) u).
Proof.
  intros Hw Ho Hk Hp f' o' k'. unfold set_field. destruct (decide (f = f')) as [->|]; [rewrite lookup_insert_eq; intros [= <- <-]; lia|].
  rewrite lookup_insert_ne by done. intros Hu. specialize (Hw _ _ _ Hu). lia.
Qed.
Lemma u16_le z : 0 <= z -> 0 <= u16 z <= z.
Proof. intros. unfold uw. split; [apply Z.mod_pos_bound; lia|apply Z.mod_le; lia]. Qed.
Lemma url_loop_within s l p old fa u b u' : url_loop s l p old fa u = Some (b, u') -> 0 <= p -> within p u -> within (p + zlen l) u'.
Proof.
  revert s p old fa u. induction l as [|c l IH]; intros s p old fa u; cbn [url_loop].
  - intros [= <- <-] _. by rewrite zlen_nil, Z.add_0_r.
  - rewrite zlen_cons, Z.add_assoc. destruct (is_dead _); [done|].
    assert (within p u -> within (p + 1) u) as Hmono by (intros Hw f o k Hu; specialize (Hw f o k Hu); lia).
    destruct (field_of _) as [f|] eqn:E; [|intros; eapply IH; eauto; lia].
    intros Hl Hp Hw. case_decide; (eapply IH; [exact Hl|lia|]).
    + assert (0 <= off f u /\ 0 <= len f u /\ off f u + len f u <= p) as (? & ? & ?).
      { unfold off, len. destruct (u !! f) as [[o k]|] eqn:Hu; cbn; [by eapply Hw|lia]. }
      pose proof (u16_le (len f u + 1) ltac:(lia)). apply within_set; [done|lia..].
    + pose proof (u16_le p Hp). apply within_set; [done|lia..].
Qed.

Lemma zsub_split (buf : str) o k : 0 <= o -> 0 <= k -> o + k <= zlen buf -> exists pre post, buf = pre ++ zsub o k buf ++ post /\ zlen pre = o.
Proof.
  intros. exists (ztake o buf), (zdrop k (zdrop o buf)). split; [|apply zlen_ztake; lia].
  unfold zsub, ztake, zdrop. by rewrite !take_drop.
Qed.

(** In a URL of less than 65536 bytes that is accepted, the port, when there is
    one, is a non-empty run of digits whose value fits 16 bits. *)
Lemma accepted_port buf u o k :
  zlen buf < 65536 -> http_parser_parse_url buf false = Some u -> u !! UF_PORT = Some (o, k) ->
  nonempty (zsub o k buf) = true /\ forallb IS_NUM (zsub o k buf) = true /\ is_Some (port_loop (zsub o k buf) 0).
Proof.
  intros Hb. unfold http_parser_parse_url. case_bool_decide; [done|]. cbn [andb].
  destruct (url_loop _ _ _ _ _ _) as [[fa u0]|] eqn:Hl; cbn [mbind option_bind]; [|done].
  pose proof (url_loop_port _ _ _ _ _ _ _ _ Hl ltac:(done)) as Hnone. apply url_loop_within in Hl; [|lia|intros f ? ?; by unfold url_init].
  rewrite Z.add_0_l in Hl. destruct (is_set UF_SCHEMA u0 && negb (is_set UF_HOST u0)); [done|].
  destruct (is_set UF_HOST u0) eqn:Eh; cbn [mbind option_bind].
  2: { destruct (is_set UF_PORT u0) eqn:Ep; [|intros [= <-]; congruence]. unfold is_set in Ep. rewrite Hnone in Ep. done. }
  destruct (http_parse_host buf u0 fa) as [u1|] eqn:Eph; cbn [mbind option_bind]; [|done].
  intros Hres Hu. assert (u1 = u) as -> by (destruct (is_set UF_PORT u1); [destruct (port_loop _ 0); cbn in Hres; congruence|congruence]).
  assert (is_set UF_PORT u = true) as Hset by (unfold is_set; rewrite Hu; by apply bool_decide_true).
  rewrite Hset in Hres. unfold off, len in Hres. rewrite Hu in Hres. cbn in Hres.
  destruct (port_loop (zsub o k buf) 0) eqn:Epl; [|done].
  unfold http_parse_host in Eph. set (s0 := if fa then _ else _) in *.
  assert (exists oh kh, u0 !! UF_HOST = Some (oh, kh)) as (oh & kh & Hhost).
  { unfold is_set in Eh. apply bool_decide_eq_true in Eh as [[oh kh] ?]. eauto. }
  destruct (Hl _ _ _ Hhost) as (? & ? & ?). unfold off, len in Eph. rewrite Hhost in Eph. cbn in Eph. unfold id in Eph.
  destruct (host_loop _ _ _ _) as [[s1 u1]|] eqn:Ehl; [|done]. destruct (host_end s1); [|done]. injection Eph as ->.
  destruct (zsub_split buf oh kh) as (pre & post & Hbuf & Hpre); [lia..|].
  eapply host_loop_port in Ehl; [|exact Hbuf|exact Hpre|rewrite zlen_zsub by lia; lia|].
  - unfold port_inv in Ehl. case_decide; [|congruence]. destruct Ehl as (o' & k' & Hu' & Hend & ? & ? & ?). rewrite Hu in Hu'. injection Hu' as <- <-.
    rewrite zlen_zsub in Hend by lia. split_and!; [|done|by eauto]. unfold nonempty. rewrite bool_decide_false; [done|].
    intros Hnil. pose proof (zlen_zsub o k buf ltac:(lia) ltac:(lia) ltac:(lia)) as Hz. rewrite Hnil, zlen_nil in Hz. lia.
  - unfold port_inv. rewrite decide_False by (by unfold s0; destruct fa). unfold set_field. by rewrite lookup_insert_ne.
Qed.

End UrlParser.
