(* ===== verification/Uri.v ===== *)
(** * URIs: [luwu/luwu/uri.cpp]

    [URI::Create] splits a URL with the bundled parser, [URI::toString] prints
    it back.  The resolver is a parameter of [createAddress]. *)
From S2P Require Import Prelude StdString Codec Address UrlParser.
Import StdString Codec UrlParser.
Local Open Scope Z_scope.

Module Uri.

Record URI := MkURI {
  m_scheme : str; m_userinfo : str; m_host : str; m_path : str; m_query : str; m_fragment : str; m_port : Z;
}.

(** [std::stoi]: [None] is an exception. *)
Definition stoi (s : str) : option Z :=
  let '(neg, s) := scan_sign (skip_space (c_str s)) in
  if match head s with Some c => isdigit c | None => false end
  then let v := fst (scan_digits s 0) in
       let v := if neg : bool then - v else v in
       if (- 2 ^ 31 <=? v) && (v <? 2 ^ 31) then Some v else None
  else None.

Definition is_http (scheme : str) : bool := bool_decide (scheme = bs "http") || bool_decide (scheme = bs "ws").
Definition is_https (scheme : str) : bool := bool_decide (scheme = bs "https") || bool_decide (scheme = bs "wss").
Definition default_port (scheme : str) : option Z :=
  if is_http scheme then Some 80 else if is_https scheme then Some 443 else None.

(** The string of a field whose bit is set, else what the member holds. *)
Definition get_field (url : str) (u : UrlParser.url) (f : field) : str := default [] (field_text url u f).

Inductive Created := Null | Throws | Made (u : URI).
Definition Create (url : str) : Created :=
  match http_parser_parse_url url false with
  | None => Null
  | Some parser =>
      let get := get_field url parser in
      let scheme := get UF_SCHEMA in
      match (if is_set UF_PORT parser then u16 <$> stoi (get UF_PORT) else Some (default 0 (default_port scheme))) with
      | None => Throws
      | Some port => Made (MkURI scheme (get UF_USERINFO) (get UF_HOST) (get UF_PATH) (get UF_QUERY) (get UF_FRAGMENT) port)
      end
  end.

Definition getPath (u : URI) : str := if bool_decide (m_path u = []) then bs "/" else m_path u.
Definition getPort (u : URI) : Z := if m_port u =? 0 then default (m_port u) (default_port (m_scheme u)) else m_port u.
Definition isDefaultPort (u : URI) : bool :=
  if is_http (m_scheme u) then m_port u =? 80 else if is_https (m_scheme u) then m_port u =? 443 else false.
Definition toString (u : URI) : str :=
  m_scheme u ++ bs "://" ++ m_userinfo u ++ (if bool_decide (m_userinfo u = []) then [] else bs "@")
  ++ m_host u ++ (if isDefaultPort u then [] else bs ":" ++ to_string (getPort u))
  ++ getPath u ++ (if bool_decide (m_query u = []) then [] else bs "?") ++ m_query u
  ++ (if bool_decide (m_fragment u = []) then [] else bs "#") ++ m_fragment u.

(** [LookupAnyIPAddress] with its default arguments. *)
Definition createAddress `{Platform} (getaddrinfo : str -> option str -> Z -> Z -> Z -> option (list Address.sockaddr)) (u : URI) : option Address.Address :=
  match Address.LookupAnyIPAddress getaddrinfo (m_host u) Address.AF_INET 0 0 with
  | Some addr => Some (Address.setPort (getPort u) addr)
  | None => None
  end.

(** ** Ports as text *)
Lemma num_is_digit c : IS_NUM c = isdigit c.
Proof. apply (bool_decide_eq_true _). revert c. apply byte_forall. vm_compute. reflexivity. Qed.

Lemma digit_bounds c : isdigit c = true -> 48 <= b2z c <= 57 /\ b2sz c = b2z c.
Proof. by destruct c; vm_compute. Qed.

Lemma scan_digits_ge l acc : 0 <= acc -> acc <= fst (scan_digits l acc).
Proof.
  revert acc. induction l as [|c l IH]; intros acc Ha; cbn [scan_digits]; [cbn; lia|]. destruct (isdigit c) eqn:E; [|cbn; lia].
  apply digit_bounds in E as [? _]. specialize (IH (10 * acc + (b2z c - 48))). lia.
Qed.
(** On digits, the two readers agree. *)
Lemma port_loop_scan l v :
  forallb IS_NUM l = true -> 0 <= v <= 0xffff ->
  port_loop l v = if fst (scan_digits l v) <=? 0xffff then Some (fst (scan_digits l v)) else None.
Proof.
  revert v. induction l as [|c l IH]; intros v Hl Hv; cbn [forallb scan_digits port_loop] in *.
  - cbn [fst]. by destruct (Z.leb_spec v 65535); [|lia].
  - apply andb_true_iff in Hl as [Hc Hl]. rewrite num_is_digit in Hc. rewrite Hc. apply digit_bounds in Hc as [? ->]. rewrite (Z.mul_comm v), uw_small by (unfold in_u; lia).
    pose proof (scan_digits_ge l (10 * v + (b2z c - 48)) ltac:(lia)). destruct (Z.ltb_spec 65535 (10 * v + (b2z c - 48))).
    + by destruct (Z.leb_spec (fst (scan_digits l (10 * v + (b2z c - 48)))) 65535); [lia|].
    + apply IH; [done|lia].
Qed.
(** [std::stoi] of digits. *)
Lemma stoi_digits l v :
  nonempty l = true -> forallb IS_NUM l = true -> port_loop l 0 = Some v -> stoi l = Some v /\ in_u 16 v.
Proof.
  intros Hne Hl Hp. rewrite port_loop_scan in Hp by (done || lia). pose proof (scan_digits_ge l 0 ltac:(lia)).
  destruct (Z.leb_spec (fst (scan_digits l 0)) 65535); [|done]. injection Hp as Hp.
  assert (Forall (fun c => isdigit c = true) l) as Hd.
  { rewrite Forall_forall. intros c Hc. rewrite <- num_is_digit. rewrite forallb_forall in Hl. apply Hl. by apply list_elem_of_In. }
  destruct l as [|c l]; [done|]. unfold stoi. rewrite c_str_id.
  2: { eapply Forall_impl; [done|]. intros x Hx. by apply isdigit_plain. }
  apply Forall_cons in Hd as [Hc _]. destruct (isdigit_plain c Hc) as (Hs & Hm & Hpl & _). cbn [skip_space]. rewrite Hs. cbn [scan_sign]. rewrite Hm, Hpl.
  cbn [head]. rewrite Hc, Hp. unfold in_u. destruct (Z.leb_spec (- 2 ^ 31) v); [|lia]. destruct (Z.ltb_spec v (2 ^ 31)); [|lia]. split; [done|lia].
Qed.
Lemma port_text p : in_u 16 p -> nonempty (to_string p) = true /\ forallb IS_NUM (to_string p) = true /\ port_loop (to_string p) 0 = Some p.
Proof.
  unfold in_u. intros Hp. unfold to_string. destruct (Z.ltb_spec p 0); [lia|].
  assert (forallb IS_NUM (dec p) = true) as Hd.
  { apply forallb_forall. intros c Hc. rewrite num_is_digit. pose proof (dec_digits p ltac:(lia)) as Hall. rewrite Forall_forall in Hall. apply Hall. by apply list_elem_of_In. }
  split_and!; [|done|].
  - unfold nonempty. by rewrite bool_decide_false by apply dec_nonempty.
  - rewrite port_loop_scan by (done || lia). destruct (scan_dec p [] 0 ltac:(lia) ltac:(done) ltac:(lia)) as (k & _ & E). rewrite app_nil_r in E.
    rewrite E. cbn [fst]. rewrite Z.mul_0_l, Z.add_0_l. by destruct (Z.leb_spec p 65535); [|lia].
Qed.

(** ** Creating a URI from a well-formed URL *)
Definition uri_of (t : parts) (port : Z) : URI :=
  MkURI (pt_scheme t) (pt_userinfo t) (pt_host t) (pt_path t) (pt_query t) (pt_fragment t) port.
Definition port_of (t : parts) : Z :=
  match pt_port t with Some d => default 0 (port_loop d 0) | None => default 0 (default_port (pt_scheme t)) end.

Lemma create_parts t : valid_parts t = true -> zlen (url_text t) < 65536 -> Create (url_text t) = Made (uri_of t (port_of t)).
Proof.
  intros Hv Hb. destruct (url_fields t Hv Hb) as (u & Hparse & Hf). unfold Create, get_field. rewrite Hparse.
  assert (forall f, is_set f u = bool_decide (is_Some (part t f))) as Hset.
  { intros f. unfold is_set. apply bool_decide_ext. rewrite <- Hf. unfold field_text. destruct (u !! f); cbn; split; intros []; by eauto. }
  rewrite Hset, !Hf. destruct (valid_parts_spec t Hv) as (_ & _ & _ & Hp & _). unfold part, uri_of, port_of.
  assert (forall x : str, default [] (if bool_decide (x = []) then None else Some x) = x) as Hpr by (intros x; by case_bool_decide).
  rewrite !Hpr. cbn [default from_option id]. destruct (pt_port t) as [d|]; [|done].
  rewrite bool_decide_true by eauto. cbn [default from_option id]. destruct Hp as (Hd & Hn & [v Hl]). destruct (stoi_digits d v Hd Hn Hl) as [-> Hi]. rewrite Hl. cbn. by rewrite uw_small.
Qed.

(** ** Printing and reading back *)

(** A URI whose components are well formed. *)
Definition text_parts (u : URI) : parts :=
  MkParts (m_scheme u) (m_userinfo u) (m_host u) (if isDefaultPort u then None else Some (to_string (getPort u))) (getPath u) (m_query u) (m_fragment u).
Definition valid (u : URI) : bool :=
  (0 <=? m_port u) && (m_port u <? 65536) && valid_parts (MkParts (m_scheme u) (m_userinfo u) (m_host u) None (getPath u) (m_query u) (m_fragment u)).
(** The same components, through the getters. *)
Definition same (u v : URI) : Prop :=
  m_scheme u = m_scheme v /\ m_userinfo u = m_userinfo v /\ m_host u = m_host v /\ getPort u = getPort v /\ getPath u = getPath v
  /\ m_query u = m_query v /\ m_fragment u = m_fragment v.

Lemma toString_parts u : toString u = url_text (text_parts u).
Proof.
  unfold toString, url_text, text_parts, authority, suffix. cbn. destruct (isDefaultPort u); repeat case_bool_decide;
    repeat match goal with Hx : _ = [] |- _ => rewrite Hx end; cbn [app]; rewrite <- ?app_assoc; cbn [app]; done.
Qed.
Lemma getPort_range u : in_u 16 (m_port u) -> in_u 16 (getPort u).
Proof. unfold getPort, default_port, in_u. intros. destruct (m_port u =? 0); [|done]. destruct (is_http _); [cbn; lia|]. destruct (is_https _); cbn; lia. Qed.

(** The port read back is the one the getter gives. *)
Lemma port_of_text u : in_u 16 (m_port u) -> port_of (text_parts u) = getPort u.
Proof.
  intros Hp. destruct (port_text _ (getPort_range u Hp)) as (_ & _ & Hl). unfold port_of, text_parts. cbn [pt_port pt_scheme].
  destruct (isDefaultPort u) eqn:E; [|by rewrite Hl]. unfold isDefaultPort, getPort, default_port in *.
  destruct (is_http _); [apply Z.eqb_eq in E; by rewrite E|]. destruct (is_https _); [apply Z.eqb_eq in E; by rewrite E|done].
Qed.
Lemma getPort_idem u p : p = getPort u -> getPort (uri_of (text_parts u) p) = p.
Proof.
  intros ->. unfold getPort at 1. cbn [m_port m_scheme uri_of text_parts pt_scheme]. destruct (getPort u =? 0) eqn:E; [|done].
  unfold getPort, default_port in *. destruct (m_port u =? 0) eqn:E0; [|by rewrite E in E0]. by destruct (is_http (m_scheme u)), (is_https (m_scheme u)).
Qed.
Lemma getPath_idem u : (if bool_decide (getPath u = []) then bs "/" else getPath u) = getPath u.
Proof. unfold getPath. by repeat case_bool_decide. Qed.

(** C37. A URI with well-formed components, printed by [toString] in less than
    65536 bytes, is read back by [Create] with the same scheme, user
    information, host, port, path, query and fragment. *)
Theorem uri_roundtrip (u : URI) :
  valid u = true -> zlen (toString u) < 65536 -> exists v, Create (toString u) = Made v /\ same u v.
Proof.
  intros Hv Hb. unfold valid in Hv. apply andb_true_iff in Hv as [[?%Z.leb_le ?%Z.ltb_lt]%andb_true_iff Hv].
  assert (in_u 16 (m_port u)) as Hp by (unfold in_u; lia). destruct (port_text _ (getPort_range u Hp)) as (Hn & Hd & Hl).
  rewrite toString_parts in *. eexists. split; [apply create_parts; [|done]|].
  - unfold valid_parts, text_parts in *. cbn [pt_scheme pt_userinfo pt_host pt_port pt_path pt_query pt_fragment] in *.
    destruct (isDefaultPort u); [done|]. rewrite Hn, Hd, Hl, bool_decide_true by done. done.
  - rewrite port_of_text by done. unfold same. rewrite getPort_idem by done. split_and!; try done. symmetry. apply getPath_idem.
Qed.

Definition sample : URI := MkURI (bs "https") (bs "user") (bs "example.com") (bs "/a/b") (bs "q=1&r=?") (bs "top") 8443.
Lemma uri_roundtrip_witness : exists v, Create (bs "https://user@example.com:8443/a/b?q=1&r=?#top") = Made v /\ same sample v.
Proof. change (bs "https://user@example.com:8443/a/b?q=1&r=?#top") with (toString sample). apply uri_roundtrip; vm_compute; reflexivity. Defined.

(** No URL of less than 65536 bytes makes [Create] throw: where the parser
    accepts a port, [std::stoi] reads it, and the port stored is its value. *)
Theorem create_returns (url : str) :
  zlen url < 65536 ->
  match Create url with
  | Null => http_parser_parse_url url false = None
  | Throws => False
  | Made u => exists p, http_parser_parse_url url false = Some p /\ in_u 16 (m_port u)
              /\ forall d, field_text url p UF_PORT = Some d -> port_loop d 0 = Some (m_port u)
  end.
Proof.
  intros Hb. unfold Create, get_field. destruct (http_parser_parse_url url false) as [p|] eqn:E; [|done].
  unfold is_set, field_text. destruct (p !! UF_PORT) as [[o k]|] eqn:Hp.
  - rewrite bool_decide_true by eauto. destruct (accepted_port url p o k Hb E Hp) as (Hn & Hd & [v Hv]).
    cbn [fmap option_fmap option_map default from_option fst snd id]. destruct (stoi_digits _ _ Hn Hd Hv) as [-> Hi]. cbn.
    rewrite uw_small by done. exists p. rewrite Hp. split_and!; try done. by intros d [= <-].
  - rewrite bool_decide_false by (by intros []). exists p. rewrite Hp. split_and!; try done. cbn [m_port]. unfold default_port, in_u.
    destruct (is_http _); [cbn; lia|]. destruct (is_https _); cbn; lia.
Qed.
Lemma create_returns_witness : exists u, Create (bs "ws://h:0080/") = Made u /\ in_u 16 (m_port u).
Proof.
  assert (zlen (bs "ws://h:0080/") < 65536) as Hb by (vm_compute; reflexivity). pose proof (create_returns _ Hb) as Hc.
  assert (exists u, Create (bs "ws://h:0080/") = Made u) as [u E] by (eexists; vm_compute; reflexivity).
  rewrite E in Hc. destruct Hc as (p & _ & Hp & _). exists u. split; [exact E|exact Hp].
Defined.

(** ** What is lost *)

(** The brackets of an IPv6 host are not kept, so that the URI printed is not a
    URL any more. *)
Theorem ipv6_host_loses_brackets :
  match Create (bs "http://[::1]:8080/") with
  | Made u => m_host u = bs "::1" /\ toString u = bs "http://::1:8080/" /\ Create (toString u) = Null
  | _ => False
  end.
Proof. vm_compute. done. Qed.
(** A fragment may not follow the host directly. *)
Theorem fragment_after_host_refused : Create (bs "http://h#top") = Null /\ Create (bs "http://h/#top") <> Null.
Proof. by vm_compute. Qed.
(** Lengths are kept in 16 bits: a host of 65537 bytes is read as its first byte. *)
Theorem long_host_wraps :
  match Create (bs "http://" ++ replicate (Z.to_nat 65537) (chr "a") ++ bs "/") with Made u => m_host u = bs "a" /\ m_path u <> bs "/" | _ => False end.
Proof. vm_compute. done. Qed.

(** A URI's address has the URI's port. *)
Theorem createAddress_port `{!Platform} resolver u a :
  in_u 16 (m_port u) -> createAddress resolver u = Some a -> Address.is_ip a = true /\ Address.getPort a = Some (getPort u).
Proof.
  intros Hp. unfold createAddress. destruct (Address.LookupAnyIPAddress _ _ _ _ _) as [b|] eqn:E; [|done]. intros [= <-].
  assert (Address.is_ip b = true) as Hb.
  { unfold Address.LookupAnyIPAddress in E. destruct (Address.Lookup _ _ _ _ _) as [l|]; [|done]. apply head_Some_elem_of in E. by apply list_elem_of_filter in E as [? _]. }
  pose proof (getPort_range u Hp) as Hr.
  split; [by destruct b|]. by apply Address.port_roundtrip.
Qed.

End Uri.
