(* ===== verification/Log.v ===== *)
(** * Logging: [luwu/luwu/log.cpp]

    Levels, the pattern language of [LogFormatter], the appenders with the
    console and the files they write, loggers and their manager.  [strftime] is
    a parameter; whether a file can be opened is decided by the file system,
    and opening one for writing empties it.  The YAML forms are in [LogConfig]. *)
From S2P Require Import Prelude StdString.
Import StdString.
Local Open Scope Z_scope.

Module Log.

(** ** Levels *)
Inductive Level := UNKNOWN | DEBUG | INFO | WARN | ERROR | FATAL.
#[export] Instance Level_eq_decision : EqDecision Level.
Proof. solve_decision. Defined.
Definition level_value (l : Level) : Z :=
  match l with UNKNOWN => 100 | DEBUG => 1 | INFO => 2 | WARN => 3 | ERROR => 4 | FATAL => 5 end.
Definition ToString (l : Level) : str :=
  match l with
  | DEBUG => bs "DEBUG" | INFO => bs "INFO" | WARN => bs "WARN" | ERROR => bs "ERROR" | FATAL => bs "FATAL" | UNKNOWN => bs "UNKNOWN"
  end.
Definition FromString (s : str) : Level :=
  if bool_decide (s = bs "DEBUG") then DEBUG else if bool_decide (s = bs "INFO") then INFO
  else if bool_decide (s = bs "WARN") then WARN else if bool_decide (s = bs "ERROR") then ERROR
  else if bool_decide (s = bs "FATAL") then FATAL else UNKNOWN.

(** ** Events: the members have the widths of the class. *)
Record LogEvent := MkEvent {
  m_loggerName : str; m_level : Level; m_ss : str; m_file : str; m_line : Z; m_elapse : Z; m_threadId : Z; m_fiberId : Z; m_time : Z;
  m_threadName : str;
}.
Definition new_event (loggerName : str) (level : Level) (file : str) (line elapse threadId fiberId time : Z) (threadName content : str) : LogEvent :=
  MkEvent loggerName level content file line (u32 elapse) (u32 threadId) (u32 fiberId) (u64 time) threadName.

(** ** Format items *)
Inductive FormatItem :=
| MessageFormatItem | LevelFormatItem | LoggerNameFormatItem | TimeFormatItem (m_format : str) | ElapseFormatItem | FileFormatItem
| LineFormatItem | ThreadIdFormatItem | FiberIdFormatItem | ThreadNameFormatItem | NewLineFormatItem | TabFormatItem
| StringFormatItem (m_string : str).

Definition new_time_item (format : str) : FormatItem :=
  TimeFormatItem (if bool_decide (format = []) then bs "%Y-%m-%d %H:%M:%S" else format).

Section format.
(** [strftime] of a time as local time. *)
Context (strftime : str -> Z -> str).
Definition format_item (it : FormatItem) (e : LogEvent) : str :=
  match it with
  | MessageFormatItem => m_ss e
  | LevelFormatItem => ToString (m_level e)
  | LoggerNameFormatItem => m_loggerName e
  | TimeFormatItem f => strftime f (m_time e)
  | ElapseFormatItem => to_string (m_elapse e)
  | FileFormatItem => m_file e
  | LineFormatItem => to_string (m_line e)
  | ThreadIdFormatItem => to_string (m_threadId e)
  | FiberIdFormatItem => to_string (m_fiberId e)
  | ThreadNameFormatItem => m_threadName e
  | NewLineFormatItem => [z2b 10]
  | TabFormatItem => [z2b 9]
  | StringFormatItem s => s
  end.
End format.

(** ** [LogFormatter::init] *)

(** The table [s_format_items]. *)
Definition s_format_items : list (byte * FormatItem) :=
  [(z2b 109, MessageFormatItem); (z2b 112, LevelFormatItem); (z2b 99, LoggerNameFormatItem); (z2b 100, new_time_item (bs "d"));
   (z2b 114, ElapseFormatItem); (z2b 102, FileFormatItem); (z2b 108, LineFormatItem); (z2b 116, ThreadIdFormatItem);
   (z2b 98, FiberIdFormatItem); (z2b 110, ThreadNameFormatItem); (z2b 78, NewLineFormatItem); (z2b 84, TabFormatItem)].
Definition find_item (c : byte) : option FormatItem := snd <$> List.find (fun x => bool_decide (fst x = c)) s_format_items.

(** A literal string, or the letter of a directive. *)
Inductive pattern := Plain (s : str) | Letter (c : byte).

Definition percent : byte := z2b 37.
Definition lbrace : byte := z2b 123.
Definition rbrace : byte := z2b 125.

(** Where the loop is: in literal text ([parsing_string]), behind a [%], behind
    the [d] of a date, or within its braces. *)
Inductive mode := InText | InDirective | AfterDate | InBraces.
Inductive scanned := Parsed (patterns : list pattern) (data_format : str) | BadPattern | OutOfRange.

Definition flush (tmp : str) (patterns : list pattern) : list pattern := if bool_decide (tmp = []) then patterns else patterns ++ [Plain tmp].
Fixpoint scan (m : mode) (l : str) (patterns : list pattern) (tmp data_format : str) : scanned :=
  match l with
  | [] =>
      match m with
      | InText | InDirective => Parsed (flush tmp patterns) data_format
      | AfterDate => OutOfRange  (* [m_pattern[size() + 1]] is read *)
      | InBraces => BadPattern
      end
  | c :: l =>
      let text (_ : unit) := if bool_decide (c = percent) then scan InDirective l (flush tmp patterns) [] data_format
                             else scan InText l patterns (tmp ++ [c]) data_format in
      match m with
      | InText => text tt
      | InDirective => scan (if bool_decide (c = z2b 100) then AfterDate else InText) l (patterns ++ [Letter c]) tmp data_format
      | AfterDate => if bool_decide (c = lbrace) then scan InBraces l patterns tmp data_format else text tt
      | InBraces => if bool_decide (c = rbrace) then scan InText l patterns tmp data_format else scan InBraces l patterns tmp (data_format ++ [c])
      end
  end.

(** The items of the patterns, up to the first unknown letter. *)
Fixpoint make_items (data_format : str) (l : list pattern) : bool * list FormatItem :=
  match l with
  | [] => (false, [])
  | Plain s :: l => let '(e, r) := make_items data_format l in (e, StringFormatItem s :: r)
  | Letter c :: l =>
      if bool_decide (c = z2b 100) then let '(e, r) := make_items data_format l in (e, new_time_item data_format :: r)
      else match find_item c with
           | None => (true, [])
           | Some it => let '(e, r) := make_items data_format l in (e, it :: r)
           end
  end.

Record LogFormatter := MkFormatter { m_error : bool; m_pattern : str; m_items : list FormatItem }.
Definition new_formatter (pattern : str) : outcome unit LogFormatter :=
  match scan InText pattern [] [] [] with
  | OutOfRange => UB
  | BadPattern => Ret (MkFormatter true pattern []) tt
  | Parsed l data_format => let '(e, items) := make_items data_format l in Ret (MkFormatter e pattern items) tt
  end.
Definition format (strftime : str -> Z -> str) (f : LogFormatter) (e : LogEvent) : str :=
  concat (map (fun it => format_item strftime it e) (m_items f)).

Definition default_pattern : str := bs "%d{%Y-%m-%d %H:%M:%S}%T[%rms]%T%t%T%n%T%b%T[%p]%T[%c]%T%f:%l%T%m%N".

(** ** Appenders, loggers and their manager *)
Abbreviation id := N.
Inductive LogAppender :=
| StdoutLogAppender (m_formatter : LogFormatter)
| FileLogAppender (m_formatter : LogFormatter) (m_reopenError : bool) (m_filename : str) (m_lastTime : Z).
Record Logger := MkLogger { m_name : str; l_level : Level; m_appenderList : list id }.

(** The appenders by name, the console and the files. *)
Record world := MkWorld {
  appenders : gmap id LogAppender;
  console : str;
  files : gmap str str;
  loggers : gmap str Logger;
}.
Definition with_appender (i : id) (a : LogAppender) (w : world) : world := MkWorld (<[i := a]> (appenders w)) (console w) (files w) (loggers w).
Definition with_console (c : str) (w : world) : world := MkWorld (appenders w) c (files w) (loggers w).
Definition with_files (f : gmap str str) (w : world) : world := MkWorld (appenders w) (console w) f (loggers w).
Definition with_loggers (l : gmap str Logger) (w : world) : world := MkWorld (appenders w) (console w) (files w) l.

Definition setFormatter (f : LogFormatter) (a : LogAppender) : LogAppender :=
  match a with StdoutLogAppender _ => StdoutLogAppender f | FileLogAppender _ e n t => FileLogAppender f e n t end.
Definition getFormatter (a : LogAppender) : LogFormatter := match a with StdoutLogAppender f => f | FileLogAppender f _ _ _ => f end.

Section logging.
Context (strftime : str -> Z -> str) (can_open : str -> bool).

(** [m_filestream.open(m_filename)]: [std::ofstream] empties the file. *)
Definition open_file (name : str) (w : world) : bool * world :=
  if can_open name then (true, with_files (<[name := []]> (files w)) w) else (false, w).

(** [FileLogAppender::reopen]; the result is whether the file is open. *)
Definition reopen (a : LogAppender) (w : world) : bool * LogAppender * world :=
  match a with
  | FileLogAppender f _ name t => let '(ok, w) := open_file name w in (ok, FileLogAppender f (negb ok) name t, w)
  | _ => (true, a, w)
  end.
Definition new_file_appender (f : LogFormatter) (name : str) (w : world) : LogAppender * world :=
  let '(_, a, w) := reopen (FileLogAppender f false name 0) w in (a, w).

Definition appender_log (e : LogEvent) (a : LogAppender) (w : world) : LogAppender * world :=
  match a with
  | StdoutLogAppender f => (a, with_console (console w ++ format strftime f e) w)
  | FileLogAppender f err name last =>
      let now := m_time e in
      let '(a, w) :=
        if u64 (last + 3) <=? now
        then let '(_, a, w) := reopen a w in
             (match a with FileLogAppender f err name _ => FileLogAppender f err name now | _ => a end, w)
        else (a, w) in
      match a with
      | FileLogAppender f false name _ => (a, with_files (<[name := default [] (files w !! name) ++ format strftime f e]> (files w)) w)
      | _ => (a, w)
      end
  end.

(** [Logger::log]: the appenders in the order of the list. *)
Fixpoint log_to (e : LogEvent) (l : list id) (w : world) : world :=
  match l with
  | [] => w
  | i :: l => log_to e l match appenders w !! i with Some a => let '(a, w) := appender_log e a w in with_appender i a w | None => w end
  end.
Definition log (lg : Logger) (e : LogEvent) (w : world) : world :=
  if level_value (l_level lg) <=? level_value (m_level e) then log_to e (m_appenderList lg) w else w.

Definition new_logger (name : str) : Logger := MkLogger name DEBUG [].
Definition setLevel (l : Level) (lg : Logger) : Logger := MkLogger (m_name lg) l (m_appenderList lg).
Definition addAppender (i : id) (lg : Logger) : Logger := MkLogger (m_name lg) (l_level lg) (m_appenderList lg ++ [i]).
(** [std::list::remove] removes every occurrence. *)
Definition delAppender (i : id) (lg : Logger) : Logger :=
  MkLogger (m_name lg) (l_level lg) (filter (fun j => j <> i) (m_appenderList lg)).
Definition clearAppenders (lg : Logger) : Logger := MkLogger (m_name lg) (l_level lg) [].

(** [LoggerManager]: the constructor and [getLogger]. *)
Definition new_manager (f : LogFormatter) (w : world) : world :=
  let w := with_appender 0%N (StdoutLogAppender f) w in
  with_loggers (<[bs "root" := addAppender 0%N (new_logger (bs "root"))]> (loggers w)) w.
Definition getLogger (name : str) (w : world) : Logger * world :=
  match loggers w !! name with
  | Some lg => (lg, w)
  | None => let lg := new_logger name in (lg, with_loggers (<[name := lg]> (loggers w)) w)
  end.
(** [LogEventWrap]: the event is logged when the wrapper goes. *)
Definition log_by_name (name : str) (e : LogEvent) (w : world) : world := let '(lg, w) := getLogger name w in log lg e w.
End logging.

(** ** What a pattern means *)

(** The pieces of a pattern, as its documentation lists them. *)
Inductive piece := Lit (s : str) | Dir (c : byte) | Date (fmt : option str).
Definition show_piece (p : piece) : str :=
  match p with
  | Lit s => s
  | Dir c => [percent; c]
  | Date None => [percent; z2b 100]
  | Date (Some f) => [percent; z2b 100; lbrace] ++ f ++ [rbrace]
  end.
Definition show (l : list piece) : str := concat (map show_piece l).

Definition no_char (c : byte) (s : str) : bool := forallb (fun x => negb (bool_decide (x = c))) s.
(** No empty or adjacent literals, none with a [%]; known letters; no closing
    brace in a format; a date without one is followed by something else than an
    opening brace. *)
Definition piece_ok (p : piece) : bool :=
  match p with
  | Lit s => negb (bool_decide (s = [])) && no_char percent s
  | Dir c => negb (bool_decide (c = z2b 100)) && bool_decide (is_Some (find_item c))
  | Date None => true
  | Date (Some f) => no_char rbrace f
  end.
Definition next_ok (p : piece) (rest : list piece) : bool :=
  match p, rest with
  | Lit _, Lit _ :: _ => false
  | Date None, [] => false
  | Date None, Lit s :: _ => negb (bool_decide (head s = Some lbrace))
  | _, _ => true
  end.
Fixpoint pattern_ok (l : list piece) : bool :=
  match l with [] => true | p :: l => piece_ok p && next_ok p l && pattern_ok l end.

(** All dates share the formats given to any of them. *)
Definition date_format (l : list piece) : str := flat_map (fun p => match p with Date (Some f) => f | _ => [] end) l.
Definition item_of (fmt : str) (p : piece) : FormatItem :=
  match p with
  | Lit s => StringFormatItem s
  | Dir c => default (StringFormatItem []) (find_item c)
  | Date _ => new_time_item fmt
  end.

Definition raw_of (p : piece) : pattern := match p with Lit s => Plain s | Dir c => Letter c | Date _ => Letter (z2b 100) end.

(** Scanning a literal collects it. *)
Lemma scan_lit s r pats tmp df :
  no_char percent s = true -> scan InText (s ++ r) pats tmp df = scan InText r pats (tmp ++ s) df.
Proof.
  revert tmp. induction s as [|c s IH]; intros tmp Hs; cbn [app scan]; [by rewrite app_nil_r|].
  cbn in Hs. apply andb_true_iff in Hs as [Hc Hs]. apply negb_true_iff in Hc. rewrite Hc, IH, <- app_assoc by done. done.
Qed.
Lemma scan_braces f r pats tmp df :
  no_char rbrace f = true -> scan InBraces (f ++ rbrace :: r) pats tmp df = scan InText r pats tmp (df ++ f).
Proof.
  revert df. induction f as [|c f IH]; intros df Hf; cbn [app scan].
  - rewrite bool_decide_true by done. by rewrite app_nil_r.
  - cbn in Hf. apply andb_true_iff in Hf as [Hc Hf]. apply negb_true_iff in Hc. rewrite Hc, IH, <- app_assoc by done. done.
Qed.

Lemma scan_after_date x pats tmp df :
  x <> [] -> head x <> Some lbrace -> scan AfterDate x pats tmp df = scan InText x pats tmp df.
Proof. destruct x as [|c x]; [done|]. intros _ Hh. cbn [scan]. rewrite bool_decide_false; [done|]. cbn in Hh. congruence. Qed.
Lemma show_after_date p l : next_ok (Date None) (p :: l) = true -> piece_ok p = true -> show (p :: l) <> [] /\ head (show (p :: l)) <> Some lbrace.
Proof.
  destruct p as [s|c|[f|]]; cbn; intros Hn Hp; try done. apply andb_true_iff in Hp as [Hs _]. destruct s as [|c s]; [done|]. cbn in *.
  split; [done|]. by apply negb_true_iff, bool_decide_eq_false in Hn.
Qed.

Definition starts_lit (l : list piece) : bool := match l with Lit _ :: _ => true | _ => false end.

Lemma scan_show l pats tmp df :
  pattern_ok l = true -> tmp = [] \/ starts_lit l = false ->
  scan InText (show l) pats tmp df = Parsed (flush tmp pats ++ map raw_of l) (df ++ date_format l).
Proof.
  revert pats tmp df. induction l as [|p l IH]; intros pats tmp df Hl Ht.
  { unfold show, date_format. cbn. by rewrite !app_nil_r. }
  cbn [pattern_ok] in Hl. apply andb_true_iff in Hl as [[Hp Hn]%andb_true_iff Hl].
  change (show (p :: l)) with (show_piece p ++ show l). unfold date_format in *. cbn [flat_map map].
  assert (forall pats df, scan InText (show l) pats [] df = Parsed (pats ++ map raw_of l) (df ++ flat_map (fun p => match p with Date (Some f) => f | _ => [] end) l)) as IH0.
  { intros. rewrite IH; [done|done|by left]. }
  destruct p as [s|c|[f|]]; cbn [show_piece raw_of].
  - cbn in Hp. apply andb_true_iff in Hp as [Hs Hc]. destruct Ht as [->|]; [|done]. rewrite scan_lit by done. cbn [app].
    rewrite IH; [|done|right; by destruct l as [|[]]]. unfold flush at 1. apply negb_true_iff in Hs. rewrite Hs, <- app_assoc. done.
  - cbn in Hp. apply andb_true_iff in Hp as [Hd _]. apply negb_true_iff in Hd. cbn [app scan]. rewrite bool_decide_true by done. rewrite Hd.
    rewrite IH0, <- app_assoc. done.
  - rewrite <- app_assoc. cbn [app scan]. rewrite !(bool_decide_true (_ = _)) by done. rewrite <- app_assoc. cbn [app]. rewrite scan_braces by done.
    rewrite IH0, <- !app_assoc. done.
  - cbn [app scan]. rewrite !(bool_decide_true (_ = _)) by done. destruct l as [|p l]; [done|].
    destruct (show_after_date p l Hn) as [H1 H2]; [by cbn in Hl; apply andb_true_iff in Hl as [[??]%andb_true_iff _]|].
    rewrite scan_after_date, IH0, <- app_assoc by done. done.
Qed.

Lemma make_items_show fmt l : pattern_ok l = true -> make_items fmt (map raw_of l) = (false, map (item_of fmt) l).
Proof.
  induction l as [|p l IH]; [done|]. cbn [pattern_ok]. intros [[Hp _]%andb_true_iff Hl]%andb_true_iff. specialize (IH Hl).
  destruct p as [s|c|f]; cbn [map raw_of make_items item_of]; [by rewrite IH| |by rewrite bool_decide_true, IH by done].
  cbn [piece_ok] in Hp. apply andb_true_iff in Hp as [Hd Hf]. apply negb_true_iff in Hd. apply bool_decide_eq_true in Hf as [it Hf]. by rewrite Hd, Hf, IH.
Qed.

(** A log line is what its pattern says: a pattern made of literal text,
    known directives and dates is accepted, and the line of an event is the
    concatenation of the texts of the pieces in order, every date in the format
    given (the default one if none is). *)
Theorem log_line (strftime : str -> Z -> str) (l : list piece) (e : LogEvent) :
  pattern_ok l = true ->
  exists f, new_formatter (show l) = Ret f tt /\ m_error f = false
    /\ format strftime f e = concat (map (fun p => format_item strftime (item_of (date_format l) p) e) l).
Proof.
  intros Hl. unfold new_formatter. rewrite scan_show by auto. change (flush [] []) with (@nil pattern). cbn [app]. rewrite make_items_show by done.
  eexists. split; [done|]. split; [done|]. unfold format. cbn [m_items]. by rewrite map_map.
Qed.

Definition default_pieces : list piece :=
  [Date (Some (bs "%Y-%m-%d %H:%M:%S")); Dir (z2b 84); Lit (bs "["); Dir (z2b 114); Lit (bs "ms]"); Dir (z2b 84); Dir (z2b 116); Dir (z2b 84);
   Dir (z2b 110); Dir (z2b 84); Dir (z2b 98); Dir (z2b 84); Lit (bs "["); Dir (z2b 112); Lit (bs "]"); Dir (z2b 84); Lit (bs "["); Dir (z2b 99);
   Lit (bs "]"); Dir (z2b 84); Dir (z2b 102); Lit (bs ":"); Dir (z2b 108); Dir (z2b 84); Dir (z2b 109); Dir (z2b 78)].
Definition some_event : LogEvent := new_event (bs "root") INFO (bs "main.cc") 7 1500 42 3 1660000000 (bs "main") (bs "hello").
Lemma log_line_witness :
  exists f, new_formatter default_pattern = Ret f tt /\ m_error f = false
    /\ format (fun _ _ => bs "now") f some_event
       = bs "now" ++ [z2b 9] ++ bs "[1500ms]" ++ [z2b 9] ++ bs "42" ++ [z2b 9] ++ bs "main" ++ [z2b 9] ++ bs "3" ++ [z2b 9] ++ bs "[INFO]" ++ [z2b 9]
         ++ bs "[root]" ++ [z2b 9] ++ bs "main.cc:7" ++ [z2b 9] ++ bs "hello" ++ [z2b 10].
Proof.
  destruct (log_line (fun _ _ => bs "now") default_pieces some_event) as (f & H1 & H2 & H3); [vm_compute; reflexivity|].
  exists f. split; [exact H1|]. split; [exact H2|]. rewrite H3. vm_compute. reflexivity.
Defined.

(** ** Loggers *)
Theorem level_roundtrip (l : Level) : FromString (ToString l) = l.
Proof. by destruct l. Qed.

(** A logger of level UNKNOWN writes nothing below it, as documented. *)
Theorem unknown_silences strftime can_open lg e w : l_level lg = UNKNOWN -> m_level e <> UNKNOWN -> log strftime can_open lg e w = w.
Proof. intros Hl He. unfold log. rewrite Hl. by destruct (m_level e). Qed.

(** A logger that only the manager made has no appender: its events go
    nowhere. *)
Theorem named_logger_is_silent strftime can_open name e w :
  loggers w !! name = None -> log_by_name strftime can_open name e w = snd (getLogger name w).
Proof. intros Hn. unfold log_by_name, getLogger, log, new_logger. rewrite Hn. by case_match. Qed.

(** The manager gives the same logger for the same name. *)
Theorem getLogger_stable name w : let '(lg, w1) := getLogger name w in getLogger name w1 = (lg, w1).
Proof. unfold getLogger at 1. destruct (loggers w !! name) eqn:E; unfold getLogger; [by rewrite E|]. cbn. by rewrite lookup_insert_eq. Qed.

(** *** What is wrong *)

(** The escape [%%] is refused: no item belongs to the letter [%]. *)
Theorem escaped_percent_refused : exists f, new_formatter (bs "100%% %m") = Ret f tt /\ m_error f = true.
Proof. eexists. split; [vm_compute; reflexivity|done]. Qed.
(** A pattern that ends in [%d] reads behind the string. *)
Theorem date_at_end_is_undefined : new_formatter (bs "%m %d") = UB.
Proof. vm_compute. reflexivity. Qed.
(** Two dates share their formats. *)
Theorem dates_share_formats :
  match new_formatter (bs "%d{%Y}-%d{%m}") with Ret f _ => m_items f = [TimeFormatItem (bs "%Y%m"); StringFormatItem (bs "-"); TimeFormatItem (bs "%Y%m")] | _ => False end.
Proof. vm_compute. reflexivity. Qed.

(** Every reopening empties the file: of two events three or more seconds apart
    only the second is left in it. *)
Theorem reopen_loses_the_log strftime can_open f err name last e1 e2 w :
  can_open name = true -> in_u 62 (m_time e1) -> last + 3 <= m_time e1 -> 0 <= last -> m_time e1 + 3 <= m_time e2 ->
  let '(a1, w1) := appender_log strftime can_open e1 (FileLogAppender f err name last) w in
  let '(_, w2) := appender_log strftime can_open e2 a1 w1 in
  files w2 !! name = Some (format strftime f e2).
Proof.
  intros Ho Hr H1 H0 H2. unfold in_u in Hr. unfold appender_log at 1, reopen, open_file.
  rewrite (uw_small 64) by (unfold in_u; lia). destruct (Z.leb_spec (last + 3) (m_time e1)); [|lia]. rewrite Ho. cbn.
  unfold appender_log, reopen, open_file. rewrite (uw_small 64) by (unfold in_u; lia). destruct (Z.leb_spec (m_time e1 + 3) (m_time e2)); [|lia]. rewrite Ho. cbn.
  by rewrite !lookup_insert_eq.
Qed.

End Log.
