(* ===== verification/Config.v ===== *)
(** * Configuration: [luwu/luwu/config.h] and [config.cpp]

    Typed variables with listeners, their registry, and the loading of a YAML
    tree and of a directory of files into them.  The conversions
    between strings and values are parameters here (those of containers are in
    [LexicalCast]), and so is the text of a YAML node; a failed conversion is an
    exception, which [fromString] catches.  Values of all types are in one type [V]; a variable keeps the name
    [ty] of its own. *)
From S2P Require Import Prelude StdString StdMap.
Import StdString.
Local Open Scope Z_scope.

Module Config.

(** ** YAML trees *)
Inductive Node := NNull | NScalar (s : str) | NMap (l : list (str * Node)) | NSeq (l : list Node).

Definition valid_chars : str := bs "qwertyuiopasdfghjklzxcvbnm._0123456789".
(** [find_first_not_of(valid_chars) == npos]. *)
Definition valid_name (s : str) : bool := forallb (one_of valid_chars) s.
Definition join (prefix key : str) : str := if bool_decide (prefix = []) then key else prefix ++ bs "." ++ key.

(** [listAllMember]: every node with its dotted name. *)
Fixpoint listAllMember (prefix : str) (node : Node) : list (str * Node) :=
  if valid_name prefix
  then (prefix, node) ::
    match node with
    | NMap l => flat_map (fun it => listAllMember (join prefix (fst it)) (snd it)) l
    | NSeq l =>
        flat_map (fun i => match i with NMap l => flat_map (fun it => listAllMember (join prefix (fst it)) (snd it)) l | _ => [] end) l
    | _ => []
    end
  else [].

Section config.
Context {ty V : Type} `{!EqDecision ty, !EqDecision V}.
Context (from_str : ty -> str -> option V) (to_str : ty -> V -> option str) (emit : Node -> str).

(** ** Variables *)
Record ConfigVar := MkVar {
  m_name : str;
  m_describe : str;
  m_type : ty;
  m_val : V;
  m_callbacks : list Z;  (* the keys of the listeners, ascending *)
}.
(** A call of a listener: its key, the old and the new value. *)
Definition call : Type := Z * V * V.

Definition new_var (name : str) (t : ty) (v : V) (describe : str) : ConfigVar := MkVar (map tolower name) describe t v [].
Definition toString (x : ConfigVar) : str := default [] (to_str (m_type x) (m_val x)).
(** [setValue]: the variable and the calls made, before the value changes. *)
Definition setValue (v : V) (x : ConfigVar) : ConfigVar * list call :=
  if decide (v = m_val x) then (x, [])
  else (MkVar (m_name x) (m_describe x) (m_type x) v (m_callbacks x), map (fun k => (k, m_val x, v)) (m_callbacks x)).
Definition fromString (s : str) (x : ConfigVar) : bool * (ConfigVar * list call) :=
  (false, match from_str (m_type x) s with Some v => setValue v x | None => (x, []) end).
(** [addListener]: [next_id] is the counter of the type. *)
Definition addListener (next_id : Z) (x : ConfigVar) : Z * (Z * ConfigVar) :=
  let id := u64 (next_id + 1) in
  (id, (id, MkVar (m_name x) (m_describe x) (m_type x) (m_val x) (m_callbacks x ++ [id]))).
Definition delListener (key : Z) (x : ConfigVar) : ConfigVar :=
  MkVar (m_name x) (m_describe x) (m_type x) (m_val x) (filter (fun k => k <> key) (m_callbacks x)).
(** [getListener]: whether there is one. *)
Definition getListener (key : Z) (x : ConfigVar) : option Z := List.find (fun k => k =? key) (m_callbacks x).
Definition clearListener (x : ConfigVar) : ConfigVar := MkVar (m_name x) (m_describe x) (m_type x) (m_val x) [].

(** ** The registry *)
Abbreviation ConfigVarMap := (gmap str ConfigVar).
Definition lookupBase (name : str) (d : ConfigVarMap) : option ConfigVar := d !! name.
(** [lookup<T>(name)]. *)
Definition lookup (t : ty) (name : str) (d : ConfigVarMap) : option ConfigVar :=
  match d !! name with Some x => if decide (m_type x = t) then Some x else None | None => None end.
(** [lookup<T>(name, default, description)]; [None] is the null pointer. *)
Definition lookup_or_create (t : ty) (name : str) (v : V) (describe : str) : M ConfigVarMap (option ConfigVar) := fun d =>
  match d !! name with
  | Some x => Ret (if decide (m_type x = t) then Some x else None) d
  | None =>
      if valid_name name then let x := new_var name t v describe in Ret (Some x) (<[name := x]> d)
      else Throw InvalidArgument d
  end.

(** [Config::loadFromYaml]: one member, then all of them. *)
Definition node_text (n : Node) : str := match n with NScalar s => s | _ => emit n end.
Definition load_one (st : ConfigVarMap * list call) (i : str * Node) : ConfigVarMap * list call :=
  let '(d, calls) := st in
  if bool_decide (fst i = []) then (d, calls)
  else
    let key := map tolower (fst i) in
    match lookupBase key d with
    | Some x => let '(_, (x, c)) := fromString (node_text (snd i)) x in (<[key := x]> d, calls ++ c)
    | None => (d, calls)
    end.
Definition loadFromYaml (root : Node) (d : ConfigVarMap) : ConfigVarMap * list call := fold_left load_one (listAllMember [] root) (d, []).

(** [Config::LoadFromConfDir]: a file of the directory has a name, a time of
    modification and, if it parses, a tree.  The times are kept; one that is
    not there is 0. *)
Record conf_file := MkFile { f_name : str; f_mtime : Z; f_tree : option Node }.
Record loaded := MkLoaded { l_data : ConfigVarMap; l_calls : list call; s_file2modifyTime : gmap str Z }.
Definition load_file (force : bool) (st : loaded) (f : conf_file) : loaded :=
  if negb force && (default 0 (s_file2modifyTime st !! f_name f) =? u64 (f_mtime f)) then st
  else
    let times := <[f_name f := u64 (f_mtime f)]> (s_file2modifyTime st) in
    match f_tree f with
    | Some root => let '(d, c) := loadFromYaml root (l_data st) in MkLoaded d (l_calls st ++ c) times
    | None => MkLoaded (l_data st) (l_calls st) times
    end.
Definition LoadFromConfDir (force : bool) (files : list conf_file) (st : loaded) : loaded := fold_left (load_file force) files st.
(** [visit]: the variables that the callback gets, in the order of their names. *)
Definition visit (d : ConfigVarMap) : list ConfigVar := omap (fun n => d !! n) (StdMap.sort_strings (fst <$> map_to_list d)).
End config.
Arguments ConfigVar : clear implicits.

(** ** Paths in a tree *)
Fixpoint at_path (n : Node) (p : list str) : option Node :=
  match p with
  | [] => Some n
  | k :: p => match n with NMap l => x ← snd <$> List.find (fun it => bool_decide (fst it = k)) l; at_path x p | _ => None end
  end.
Fixpoint dotted (prefix : str) (p : list str) : str := match p with [] => prefix | k :: p => dotted (join prefix k) p end.

Lemma valid_join prefix k : valid_name (join prefix k) = true -> valid_name prefix = true.
Proof. unfold join, valid_name. case_bool_decide as E; [by subst|]. rewrite forallb_app. by intros [? _]%andb_true_iff. Qed.
Lemma valid_dotted prefix p : valid_name (dotted prefix p) = true -> valid_name prefix = true.
Proof. revert prefix. induction p as [|k p IH]; intros prefix; cbn; [done|]. intros Hv%IH. by eapply valid_join. Qed.

(** Every node at a path of maps is listed under its dotted name. *)
Lemma member_at_path n p x prefix :
  at_path n p = Some x -> valid_name (dotted prefix p) = true -> (dotted prefix p, x) ∈ listAllMember prefix n.
Proof.
  revert n prefix. induction p as [|k p IH]; intros n prefix Hat Hv; cbn [at_path dotted] in *.
  - injection Hat as ->. destruct x; cbn [listAllMember]; rewrite Hv; by left.
  - destruct n as [| |l|]; try done. destruct (List.find _ l) as [[k' y]|] eqn:Hf; [|done]. cbn in Hat.
    apply List.find_some in Hf as [Hin Hk]. cbn in Hk. apply bool_decide_eq_true in Hk as ->.
    cbn [listAllMember]. rewrite (valid_join prefix k) by (by eapply valid_dotted). right. apply list_elem_of_In, in_flat_map. exists (k, y).
    split; [done|]. apply list_elem_of_In. by apply IH.
Qed.

Lemma members_valid n : forall prefix k x, (k, x) ∈ listAllMember prefix n -> valid_name k = true.
Proof.
  revert n. fix IH 1. intros n prefix k x.
  assert (forall l, (fix good (l : list (str * Node)) : Prop := match l with [] => True | it :: l => (forall prefix k x, (k, x) ∈ listAllMember prefix (snd it) -> valid_name k = true) /\ good l end) l ->
    (k, x) ∈ flat_map (fun it => listAllMember (join prefix (fst it)) (snd it)) l -> valid_name k = true) as Hmap.
  { induction l as [|it l IHl]; cbn; [set_solver|]. intros [H1 H2] [Hx|Hx]%elem_of_app; eauto. }
  destruct (valid_name prefix) eqn:Hv; [|clear -Hv; destruct n; cbn [listAllMember]; rewrite Hv; by intros ?%not_elem_of_nil].
  destruct n as [|s|l|l]; cbn [listAllMember]; rewrite Hv; (intros [Heq|Hx]%elem_of_cons; [by injection Heq as -> ->|]).
  - by apply not_elem_of_nil in Hx.
  - by apply not_elem_of_nil in Hx.
  - revert Hx. apply Hmap. clear Hmap Hv. induction l as [|[k' y] l IHl]; [done|]. split; [exact (IH y)|exact IHl].
  - revert Hx. clear Hv. induction l as [|i l IHl]; cbn; [by intros ?%not_elem_of_nil|].
    intros [Hx|Hx]%elem_of_app; [|by apply IHl]. destruct i as [| |l'|]; try (by apply not_elem_of_nil in Hx).
    revert Hx. apply Hmap. clear -IH. induction l' as [|[k' y] l' IHl]; [done|]. split; [exact (IH y)|exact IHl].
Qed.

Lemma tolower_valid s : valid_name s = true -> map tolower s = s.
Proof.
  unfold valid_name. induction s as [|c s IH]; [done|]. cbn [forallb map]. intros [Hc Hs]%andb_true_iff. rewrite (IH Hs). f_equal.
  revert c Hc. assert (forall c, implb (one_of valid_chars c) (bool_decide (tolower c = c)) = true) as H by (apply byte_forall; vm_compute; reflexivity).
  intros c Hc. specialize (H c). rewrite Hc in H. by apply bool_decide_eq_true in H.
Qed.

Section load.
Context {ty V : Type} `{!EqDecision ty, !EqDecision V}.
Context (from_str : ty -> str -> option V) (emit : Node -> str).
Abbreviation load_one := (load_one from_str emit).
Abbreviation var := (ConfigVar ty V).

(** The variable after it read the text of a node. *)
Definition read_node (n : Node) (x : var) : var := fst (snd (fromString from_str (node_text emit n) x)).

Lemma load_other (l : list (str * Node)) (key : str) (d : gmap str var) (c : list call) :
  (forall k n, (k, n) ∈ l -> valid_name k = true) -> key ∉ map fst l -> fst (fold_left load_one l (d, c)) !! key = d !! key.
Proof.
  revert d c. induction l as [|[k n] l IH]; intros d c Hv Hk; [done|]. cbn [fold_left].
  assert (exists d' c', load_one (d, c) (k, n) = (d', c') /\ d' !! key = d !! key) as (d' & c' & -> & <-); [|apply IH; set_solver].
  unfold Config.load_one. cbn [fst snd]. case_bool_decide; [by exists d, c|]. rewrite (tolower_valid k) by (apply (Hv k n); by left). unfold lookupBase.
  destruct (d !! k) as [x|]; [|by exists d, c]. destruct (fromString _ _ x) as [b [x' c']]. exists (<[k := x']> d), (c ++ c').
  split; [done|]. apply lookup_insert_ne. intros ->. cbn in Hk. set_solver.
Qed.
Lemma load_key (l : list (str * Node)) (key : str) (n : Node) (d : gmap str var) (c : list call) (x : var) :
  (forall k n, (k, n) ∈ l -> valid_name k = true) -> NoDup (map fst l) -> (key, n) ∈ l -> key <> [] -> d !! key = Some x ->
  fst (fold_left load_one l (d, c)) !! key = Some (read_node n x).
Proof.
  revert d c. induction l as [|[k m] l IH]; intros d c Hv Hn Hin Hk Hd; [set_solver|]. cbn [fold_left map fst] in *. apply NoDup_cons in Hn as [Hkn Hn].
  assert (forall k n, (k, n) ∈ l -> valid_name k = true) as Hv' by (intros k' n' Hkn'; apply (Hv k' n'); by right).
  apply elem_of_cons in Hin as [[= <- <-]|Hin].
  - unfold Config.load_one at 2. cbn [fst snd]. rewrite bool_decide_false by done. rewrite (tolower_valid key) by (apply (Hv key n); by left). unfold lookupBase. rewrite Hd.
    unfold read_node. destruct (fromString _ _ x) as [b [x' c']]. rewrite load_other by done. by rewrite lookup_insert_eq.
  - assert (key <> k) as Hne by (intros ->; apply Hkn, list_elem_of_fmap; by exists (k, n)).
    assert (exists d' c', load_one (d, c) (k, m) = (d', c') /\ d' !! key = d !! key) as (d' & c' & -> & He); [|apply IH; by rewrite ?He].
    change (load_one (d, c) (k, m)) with (fold_left load_one [(k, m)] (d, c)).
    destruct (fold_left load_one [(k, m)] (d, c)) as [d' c'] eqn:E. exists d', c'. split; [done|].
    pose proof (load_other [(k, m)] key d c) as Ho. rewrite E in Ho. apply Ho; [intros k' n' Hkn'; apply (Hv k' n'); apply list_elem_of_singleton in Hkn' as ->; by left|cbn; set_solver].
Qed.
End load.

(** Loading a tree sets exactly the variables it names: when no dotted name
    occurs twice, a registered variable whose dotted name is a path of the tree
    gets the value of the text found there (and keeps its old one when the text
    does not convert), and a variable whose name does not occur is unchanged. *)
Theorem load_sets_named `{!EqDecision ty, !EqDecision V} (from_str : ty -> str -> option V) (emit : Node -> str) (root : Node)
    (d : gmap str (ConfigVar ty V)) (name : str) (x : ConfigVar ty V) :
  NoDup (map fst (listAllMember [] root)) -> d !! name = Some x -> name <> [] ->
  let d' := fst (loadFromYaml from_str emit root d) in
  (forall p n, dotted [] p = name -> valid_name name = true -> at_path root p = Some n ->
     exists x', d' !! name = Some x' /\ m_name x' = m_name x /\ m_type x' = m_type x /\ m_callbacks x' = m_callbacks x
       /\ m_val x' = default (m_val x) (from_str (m_type x) (node_text emit n)))
  /\ (name ∉ map fst (listAllMember [] root) -> d' !! name = Some x).
Proof.
  intros Hn Hd Hne d'. split.
  - intros p n <- Hv Hat. apply member_at_path with (prefix := []) in Hat; [|done]. exists (read_node from_str emit n x).
    split; [by apply load_key; [apply members_valid|..]|]. unfold read_node, fromString. cbn [fst snd].
    destruct (from_str (m_type x) _) as [v|]; [|done]. unfold setValue. case_decide as Hv'; cbn; [|done]. by rewrite Hv'.
  - intros Hk. unfold d', loadFromYaml. rewrite load_other; [done|apply members_valid|done].
Qed.

(** The variables of the example have decimal numbers as values. *)
Definition num_of (_ : unit) (s : str) : option Z := if forallb isdigit s && negb (bool_decide (s = [])) then Some (fst (scan_digits s 0)) else None.
Definition c_tree : Node :=
  NMap [(bs "server", NMap [(bs "port", NScalar (bs "8020")); (bs "name", NScalar (bs "chat"))]); (bs "workers", NScalar (bs "4"))].
Definition c_vars : gmap str (ConfigVar unit Z) := <[bs "server.port" := new_var (bs "server.port") tt 80 []]> ∅.
Lemma load_sets_named_witness :
  exists x', fst (loadFromYaml num_of (fun _ => []) c_tree c_vars) !! bs "server.port" = Some x' /\ m_val x' = 8020.
Proof.
  assert (NoDup (map fst (listAllMember [] c_tree))) as Hn by (apply (bool_decide_unpack _); vm_compute; exact I).
  destruct (load_sets_named num_of (fun _ => []) c_tree c_vars (bs "server.port") (new_var (bs "server.port") tt 80 []) Hn) as [H _]; [reflexivity|discriminate|].
  destruct (H [bs "server"; bs "port"] (NScalar (bs "8020"))) as (x' & H1 & _ & _ & _ & H2); [reflexivity|reflexivity|reflexivity|].
  exists x'. split; [exact H1|]. rewrite H2. vm_compute. reflexivity.
Defined.

(** Listeners hear of a change once each, with the old and the new value, and of
    nothing else. *)
Theorem listeners_hear_changes `{!EqDecision V} {ty : Type} (v : V) (x : ConfigVar ty V) :
  snd (setValue v x) = (if decide (v = m_val x) then [] else map (fun k => (k, m_val x, v)) (m_callbacks x)) /\ m_val (fst (setValue v x)) = v.
Proof. unfold setValue. case_decide; by split. Qed.

(** A directory whose files did not change is loaded once: loading it again
    changes nothing. *)
Lemma load_file_time `{!EqDecision V} {ty : Type} (from_str : ty -> str -> option V) emit force st f :
  let st' := load_file from_str emit force st f in
  default 0 (s_file2modifyTime st' !! f_name f) = u64 (f_mtime f)
  /\ forall n, n <> f_name f -> s_file2modifyTime st' !! n = s_file2modifyTime st !! n.
Proof.
  unfold load_file. destruct (negb force && _) eqn:E; [apply andb_true_iff in E as [_ E%Z.eqb_eq]; by split|].
  destruct (f_tree f); [destruct (loadFromYaml _ _ _ _)|]; cbn; (split; [by rewrite lookup_insert_eq|intros; by rewrite lookup_insert_ne]).
Qed.
Lemma load_dir_times `{!EqDecision V} {ty : Type} (from_str : ty -> str -> option V) emit force files st :
  NoDup (map f_name files) ->
  let st' := LoadFromConfDir from_str emit force files st in
  (forall f, f ∈ files -> default 0 (s_file2modifyTime st' !! f_name f) = u64 (f_mtime f))
  /\ (forall n, n ∉ map f_name files -> s_file2modifyTime st' !! n = s_file2modifyTime st !! n).
Proof.
  revert st. unfold LoadFromConfDir. induction files as [|f files IH]; intros st Hn; cbn [fold_left map] in *; [split; [set_solver|done]|].
  apply NoDup_cons in Hn as [Hf Hn]. destruct (load_file_time from_str emit force st f) as [H1 H2]. destruct (IH (load_file from_str emit force st f) Hn) as [H3 H4].
  split.
  - intros g [->|Hg]%elem_of_cons; [by rewrite H4|by apply H3].
  - intros n Hnn. rewrite H4, H2 by set_solver. done.
Qed.
Theorem reload_is_idle `{!EqDecision V} {ty : Type} (from_str : ty -> str -> option V) (emit : Node -> str) (force : bool) (files : list conf_file) (st : loaded) :
  NoDup (map f_name files) ->
  let st' := LoadFromConfDir from_str emit force files st in LoadFromConfDir from_str emit false files st' = st'.
Proof.
  intros Hn st'. destruct (load_dir_times from_str emit force files st Hn) as [Ht _]. fold st' in Ht. clearbody st'.
  unfold LoadFromConfDir. clear Hn. induction files as [|f files IH]; [done|]. cbn [fold_left].
  assert (load_file from_str emit false st' f = st') as ->; [|apply IH; intros g Hg; apply Ht; by right].
  unfold load_file. rewrite Ht by by left. by rewrite Z.eqb_refl.
Qed.

(** [fromString] answers false even when it has set the value. *)
Theorem fromString_answers_false `{!EqDecision V} {ty : Type} (from_str : ty -> str -> option V) s x : fst (fromString from_str s x) = false.
Proof. done. Qed.
(** A name with a capital letter is refused before it is put in lower case. *)
Theorem capital_names_refused :
  fst (loadFromYaml num_of (fun _ => []) (NMap [(bs "Workers", NScalar (bs "4"))]) (<[bs "workers" := new_var (bs "workers") tt 1 []]> ∅)) !! bs "workers"
  = Some (new_var (bs "workers") tt 1 []).
Proof. vm_compute. reflexivity. Qed.

End Config.
