(* ===== verification/LexicalCast.v ===== *)
(** * Values of the configuration as text: the [LexicalCast] templates of
      [luwu/luwu/config.h]

    Containers go through YAML trees.  The tree is that of [Config]; reading
    and printing one, and reading a scalar, are yaml-cpp's and parameters
    ([Yaml]), with what its documentation says of them in [YamlLaws].  [None] is
    an exception. *)
From S2P Require Import Prelude StdString StdMap Config.
From Stdlib Require Import Sorting.Sorted.
Import StdString Config.
Local Open Scope Z_scope.

Module LexicalCast.

Class Yaml := {
  Load : str -> option Node;
  emit : Node -> str;                (* [ss << node] *)
  as_string : Node -> option str;    (* [node.as<std::string>()] *)
  as_int : Node -> option Z;
  not_a_node : str;                  (* what is printed of an entry of a map *)
}.
Class YamlLaws `{Y : Yaml} : Prop := {
  load_emit n : Load (emit n) = Some n;
  as_string_scalar s : as_string (NScalar s) = Some s;
  as_int_scalar n : in_s 32 n -> as_int (NScalar (to_string n)) = Some n;
}.

(** ** Trees *)

(** A null node that elements are pushed to, and one that keys are set in. *)
Definition node_seq (l : list Node) : Node := match l with [] => NNull | _ => NSeq l end.
Fixpoint put (k : str) (x : Node) (l : list (str * Node)) : list (str * Node) :=
  match l with [] => [(k, x)] | (k', y) :: l => if decide (k = k') then (k, x) :: l else (k', y) :: put k x l end.
Definition node_map (l : list (str * Node)) : Node :=
  match fold_left (fun m e => put (fst e) (snd e) m) l [] with [] => NNull | m => NMap m end.
(** [node[key]]: the outer [None] is [BadSubscript], of a scalar; the inner one a
    node that is not defined. *)
Definition field (k : str) (n : Node) : option (option Node) :=
  match n with
  | NNull | NSeq _ => Some None
  | NMap l => Some (snd <$> List.find (fun e => bool_decide (fst e = k)) l)
  | NScalar _ => None
  end.

(** ** Casts *)
Class LexicalCast (T : Type) := {
  of_str : str -> option T;
  to_str : T -> option str;
}.
#[export] Instance cast_string : LexicalCast str := {| of_str := Some; to_str := Some |}.

Section casts.
Context `{Y : Yaml}.

(** The texts of what a loop over a node finds. *)
Definition item_texts (n : Node) : list str :=
  match n with NSeq l => map emit l | NMap l => map (fun _ => not_a_node) l | _ => [] end.
(** Keys and texts of the values; a sequence has no keys. *)
Definition entry_texts (n : Node) : option (list (str * str)) :=
  match n with NMap l => Some (map (fun e => (fst e, emit (snd e))) l) | NSeq (_ :: _) => None | _ => Some [] end.
(** An element as a tree. *)
Definition tree_of {T} `{LexicalCast T} (x : T) : option Node := to_str x ≫= Load.

Definition vector_of_str {T} `{LexicalCast T} (v : str) : option (list T) :=
  node ← Load v; mapM of_str (item_texts node).
Definition vector_to_str {T} `{LexicalCast T} (v : list T) : option str :=
  l ← mapM tree_of v; Some (emit (node_seq l)).
#[export] Instance cast_vector {T} `{LexicalCast T} : LexicalCast (list T) := {| of_str := vector_of_str; to_str := vector_to_str |}.

(** A [std::set] is its elements in order. *)
Record set (T : Type) := Set_ { elements : list T }.
Arguments Set_ {T} elements.
Arguments elements {T}.
Definition set_of_str {T} `{LexicalCast T} (ltb : T -> T -> bool) (v : str) : option (set T) :=
  node ← Load v; l ← mapM of_str (item_texts node); Some (Set_ (fold_left (fun s x => StdMap.insert ltb id x s) l [])).
Definition set_to_str {T} `{LexicalCast T} (v : set T) : option str :=
  l ← mapM tree_of (elements v); Some (emit (node_seq l)).

Record smap (T : Type) := Map_ { pairs : list (str * T) }.
Arguments Map_ {T} pairs.
Arguments pairs {T}.
Definition map_of_str {T} `{LexicalCast T} (v : str) : option (smap T) :=
  node ← Load v; es ← entry_texts node;
  l ← mapM (fun e => x ← of_str (snd e); Some (fst e, x)) es;
  Some (Map_ (fold_left (fun m e => StdMap.insert ltb fst e m) l [])).
Definition map_to_str {T} `{LexicalCast T} (v : smap T) : option str :=
  l ← mapM (fun e => x ← tree_of (snd e); Some (fst e, x)) (pairs v); Some (emit (node_map l)).
#[export] Instance cast_map {T} `{LexicalCast T} : LexicalCast (smap T) := {| of_str := map_of_str; to_str := map_to_str |}.
End casts.
Arguments Set_ {T} elements.
Arguments elements {T}.
Arguments Map_ {T} pairs.
Arguments pairs {T}.
Abbreviation cast_set ltb := {| of_str := set_of_str ltb; to_str := set_to_str |}.

(** ** Round trips

    A value is stable if the tree of its text, printed, reads as the value. *)
Class Stable {T} `{Y : Yaml} `{C : LexicalCast T} (P : T -> Prop) : Prop :=
  stable x : P x -> exists n, tree_of x = Some n /\ of_str (emit n) = Some x.
(** So is one whose text is that of a tree. *)
Class Printed {T} `{Y : Yaml} `{C : LexicalCast T} (P : T -> Prop) : Prop :=
  printed x : P x -> exists n, to_str x = Some (emit n) /\ of_str (emit n) = Some x.
#[export] Instance printed_stable {T} `{YL : YamlLaws} `{C : LexicalCast T} (P : T -> Prop) : Printed P -> Stable P.
Proof. intros HP x (n & Ht & Ho)%HP. exists n. split; [|done]. unfold tree_of. rewrite Ht. apply load_emit. Qed.
(** A string that YAML reads as a scalar of its own spelling. *)
Definition plain `{Y : Yaml} (s : str) : Prop := exists n, Load s = Some n /\ emit n = s.
#[export] Instance stable_string `{YL : YamlLaws} : Stable plain.
Proof. intros s (n & Hl & He). exists n. split; [exact Hl|]. cbn. by rewrite He. Qed.

Lemma insert_last {K E} (ltb : K -> K -> bool) (key : E -> K) `{!StdMap.StrictWeakOrder ltb} (e : E) l :
  Forall (fun x => ltb (key x) (key e) = true) l -> StdMap.insert ltb key e l = l ++ [e].
Proof.
  induction 1 as [|x l Hx _ IH]; [done|]. cbn. rewrite (StdMap.ltb_asym ltb _ _ Hx), Hx, IH. done.
Qed.
Lemma insert_ascending {K E} (ltb : K -> K -> bool) (key : E -> K) `{!StdMap.StrictWeakOrder ltb} l acc :
  StdMap.sorted ltb key (acc ++ l) -> fold_left (fun s x => StdMap.insert ltb key x s) l acc = acc ++ l.
Proof.
  revert acc. induction l as [|x l IH]; intros acc Hs; cbn [fold_left]; [by rewrite app_nil_r|].
  rewrite insert_last; [rewrite IH; by rewrite <- app_assoc|done|].
  clear IH. induction acc as [|y acc IH]; [constructor|]. apply StronglySorted_inv in Hs as [Hs Hy]. constructor; [|by apply IH].
  apply Forall_app in Hy as [_ Hy]. by apply Forall_cons in Hy as [Hy _].
Qed.
Lemma put_last k x l : k ∉ fst <$> l -> put k x l = l ++ [(k, x)].
Proof. induction l as [|[k' y] l IH]; [done|]. cbn. intros Hk. rewrite decide_False by set_solver. rewrite IH; set_solver. Qed.
Lemma put_distinct l acc : NoDup (fst <$> acc ++ l) -> fold_left (fun m e => put (fst e) (snd e) m) l acc = acc ++ l.
Proof.
  revert acc. induction l as [|[k x] l IH]; intros acc Hn; cbn [fold_left fst snd]; [by rewrite app_nil_r|].
  rewrite put_last; [rewrite IH; by rewrite <- app_assoc|]. rewrite fmap_app in Hn. apply NoDup_app in Hn as (_ & Hn & _). intros Hk. apply (Hn k Hk). by left.
Qed.
Lemma node_map_distinct l : NoDup (fst <$> l) -> node_map l = match l with [] => NNull | _ => NMap l end.
Proof. intros Hn. unfold node_map. rewrite (put_distinct l []) by done. by destruct l. Qed.
Lemma find_field (k : str) (x : Node) l : NoDup (fst <$> l) -> (k, x) ∈ l -> snd <$> List.find (fun e => bool_decide (fst e = k)) l = Some x.
Proof.
  induction l as [|[k' y] l IH]; [set_solver|]. cbn. intros [Hk Hn]%NoDup_cons [Hin|Hin]%elem_of_cons; [simplify_eq; by rewrite bool_decide_true|].
  rewrite bool_decide_false; [by apply IH|]. intros ->. apply Hk. apply list_elem_of_fmap. by exists (k, x).
Qed.

Section roundtrip.
Context `{YL : YamlLaws} {T : Type} `{C : LexicalCast T} {P : T -> Prop} `{S : !Stable P}.
Lemma stable_items l : Forall P l -> exists ns, mapM tree_of l = Some ns /\ mapM of_str (map emit ns) = Some l.
Proof.
  induction 1 as [|x l Hx _ (ns & H1 & H2)]; [by exists []|]. destruct (stable x Hx) as (n & Hn & Ho). exists (n :: ns). cbn. by rewrite Hn, H1, Ho, H2.
Qed.
Lemma seq_items ns : item_texts (node_seq ns) = map emit ns.
Proof. by destruct ns. Qed.
(** The text of a container is that of a tree. *)
#[export] Instance printed_vector : Printed (Forall P).
Proof.
  intros v Hv. destruct (stable_items v Hv) as (ns & H1 & H2). exists (node_seq ns). cbn. unfold vector_to_str, vector_of_str. rewrite H1, load_emit. cbn. by rewrite seq_items.
Qed.
Lemma stable_pairs l :
  Forall (fun e => P (snd e)) l -> exists ns : list (str * Node), mapM (fun e => x ← tree_of (snd e); Some (fst e, x)) l = Some ns /\ fst <$> ns = fst <$> l
    /\ mapM (fun e => x ← of_str (snd e); Some (fst e, x)) (map (fun e => (fst e, emit (snd e))) ns) = Some l.
Proof.
  induction 1 as [|[k x] l Hx _ (ns & H1 & H2 & H3)]; [by exists []|]. destruct (stable x Hx) as (n & Hn & Ho). exists ((k, n) :: ns). cbn. rewrite Hn. cbn. rewrite H1. cbn.
  rewrite Ho. cbn. rewrite H3. cbn. by rewrite H2.
Qed.
Definition map_ok (m : smap T) : Prop := StdMap.map_sorted ltb (pairs m) /\ Forall (fun e => P (snd e)) (pairs m).
Lemma sorted_keys (l : list (str * T)) : StdMap.map_sorted ltb l -> NoDup (fst <$> l).
Proof.
  induction 1 as [|[k x] l Hs IH Hall]; [constructor|]. cbn. constructor; [|done]. intros ([k' y] & Hk & Hin)%list_elem_of_fmap. cbn in Hk. subst k'.
  rewrite Forall_forall in Hall. specialize (Hall _ Hin). unfold StdMap.lt in Hall. cbn in Hall. by rewrite StdMap.swo_irrefl in Hall.
Qed.
#[export] Instance printed_map : Printed map_ok.
Proof.
  intros [l] [Hs Hv]. cbn in Hs, Hv. destruct (stable_pairs l Hv) as (ns & H1 & H2 & H3). exists (node_map ns). cbn. unfold map_to_str, map_of_str. cbn [pairs]. rewrite H1, load_emit.
  split; [done|]. cbn. rewrite node_map_distinct by (rewrite H2; by apply sorted_keys).
  assert (entry_texts (match ns with [] => NNull | _ => NMap ns end) = Some (map (fun e => (fst e, emit (snd e))) ns)) as -> by by destruct ns. cbn. rewrite H3. cbn.
  by rewrite (insert_ascending ltb fst l []).
Qed.
Definition set_ok (ltb : T -> T -> bool) (s : set T) : Prop := StdMap.sorted ltb id (elements s) /\ Forall P (elements s).
Lemma printed_set (ltb : T -> T -> bool) `{!StdMap.StrictWeakOrder ltb} : Printed (C := cast_set ltb) (set_ok ltb).
Proof.
  intros [l] [Hs Hv]. cbn in Hs, Hv. destruct (stable_items l Hv) as (ns & H1 & H2). exists (node_seq ns). cbn. unfold set_to_str, set_of_str. cbn [elements]. rewrite H1, load_emit.
  split; [done|]. cbn. rewrite seq_items, H2. cbn. by rewrite (insert_ascending ltb id l []).
Qed.
End roundtrip.

(** *** Variables *)
Definition read_back {T} (C : LexicalCast T) `{!EqDecision T} (x y : ConfigVar unit T) : ConfigVar unit T :=
  fst (snd (fromString (fun _ => of_str) (Config.toString (fun _ => to_str) x) y)).
Lemma read_back_ok {T} `{Y : Yaml} (C : LexicalCast T) `{!EqDecision T} (P : T -> Prop) `{!Printed P} (x y : ConfigVar unit T) : P (m_val x) -> m_val (read_back C x y) = m_val x.
Proof.
  intros (n & Ht & Ho)%printed. unfold read_back, fromString, Config.toString. rewrite Ht. cbn. rewrite Ho. unfold setValue. case_decide as E; [by rewrite E|done].
Qed.
#[export] Instance set_eq_decision {T} `{!EqDecision T} : EqDecision (set T).
Proof. solve_decision. Defined.
#[export] Instance smap_eq_decision {T} `{!EqDecision T} : EqDecision (smap T).
Proof. solve_decision. Defined.

(** *** An instance

    Plain text stands for itself; every other tree is [0] and the digits of a
    number that encodes it. *)
Fixpoint to_tree (n : Node) : gen_tree str :=
  match n with
  | NNull => GenNode 0 []
  | NScalar s => GenLeaf s
  | NMap l => GenNode 1 (map (fun e => GenNode 3 [GenLeaf (fst e); to_tree (snd e)]) l)
  | NSeq l => GenNode 2 (map to_tree l)
  end.
Fixpoint of_tree (t : gen_tree str) : Node :=
  match t with
  | GenLeaf s => NScalar s
  | GenNode 1 l => NMap (map (fun t => match t with GenNode _ [GenLeaf k; t] => (k, of_tree t) | _ => ([], NNull) end) l)
  | GenNode 2 l => NSeq (map of_tree l)
  | GenNode _ _ => NNull
  end.
Fixpoint of_to_tree (n : Node) : of_tree (to_tree n) = n.
Proof.
  destruct n as [|s|l|l]; cbn; [done|done|..]; f_equal.
  - induction l as [|[k x] l IH]; [done|]. cbn. by rewrite of_to_tree, IH.
  - induction l as [|x l IH]; [done|]. cbn. by rewrite of_to_tree, IH.
Qed.
Fixpoint pos_str (p : positive) : str :=
  match p with xH => [] | xO p => z2b 48 :: pos_str p | xI p => z2b 49 :: pos_str p end.
Fixpoint str_pos (s : str) : positive :=
  match s with [] => xH | c :: s => if decide (c = z2b 49) then xI (str_pos s) else xO (str_pos s) end.
Lemma str_pos_str p : str_pos (pos_str p) = p.
Proof. induction p as [p IH|p IH|]; cbn; [| |done]; by rewrite IH. Qed.
Definition coded (n : Node) : str := z2b 48 :: pos_str (encode (to_tree n)).
#[export] Instance coded_yaml : Yaml := {|
  Load s := match s with [] => None | c :: r => if decide (c = z2b 48) then of_tree <$> decode (str_pos r) else Some (NScalar s) end;
  emit n := match n with NScalar (c :: r) => if decide (c = z2b 48) then coded n else c :: r | _ => coded n end;
  as_string n := match n with NScalar s => Some s | _ => None end;
  as_int n := match n with NScalar s => Some (s64 (strtoull s)) | _ => None end;
  not_a_node := [];
|}.
#[export] Instance coded_yaml_laws : YamlLaws (Y := coded_yaml).
Proof.
  split; cbn.
  - assert (forall n, match coded n with [] => None | c :: r => if decide (c = z2b 48) then of_tree <$> decode (str_pos r) else Some (NScalar (coded n)) end = Some n) as H.
    { intros n. cbn. rewrite str_pos_str, decode_encode. cbn. by rewrite of_to_tree. }
    intros [|[|c r]|l|l]; try apply H. case_decide as E; [apply H|]. by rewrite decide_False.
  - done.
  - intros n Hn. rewrite strtoull_to_string; [done|]. unfold in_s in *. lia.
Qed.

Section variables.
Context `{YL : YamlLaws} {T : Type} `{C : LexicalCast T} `{!EqDecision T} (P : T -> Prop) `{S : !Stable P}.
Lemma config_vectors_roundtrip (x y : ConfigVar unit (list T)) : Forall P (m_val x) -> m_val (read_back cast_vector x y) = m_val x.
Proof. apply (read_back_ok cast_vector (Forall P)). Qed.
Lemma config_sets_roundtrip (ltb : T -> T -> bool) `{!StdMap.StrictWeakOrder ltb} (x y : ConfigVar unit (set T)) :
  set_ok (P := P) ltb (m_val x) -> m_val (read_back (cast_set ltb) x y) = m_val x.
Proof. pose proof (printed_set (P := P) ltb). apply (read_back_ok (cast_set ltb) (set_ok (P := P) ltb)). Qed.
Lemma config_maps_roundtrip (x y : ConfigVar unit (smap T)) : map_ok (P := P) (m_val x) -> m_val (read_back cast_map x y) = m_val x.
Proof. apply (read_back_ok cast_map (map_ok (P := P))). Qed.
End variables.

(** The text of a configuration variable is its value: for elements that
    survive YAML, variables that hold vectors, sets and maps of them, and vectors
    of such maps, give through [toString] a text that [fromString] turns into the
    same value, whatever the other variable held. *)
Theorem config_values_roundtrip `{YL : YamlLaws} {T : Type} `{C : LexicalCast T} `{!EqDecision T} (P : T -> Prop) `{S : !Stable P}
    (ltb : T -> T -> bool) `{!StdMap.StrictWeakOrder ltb} :
  (forall x y : ConfigVar unit (list T), Forall P (m_val x) -> m_val (read_back cast_vector x y) = m_val x)
  /\ (forall x y : ConfigVar unit (set T), set_ok (P := P) ltb (m_val x) -> m_val (read_back (cast_set ltb) x y) = m_val x)
  /\ (forall x y : ConfigVar unit (smap T), map_ok (P := P) (m_val x) -> m_val (read_back cast_map x y) = m_val x)
  /\ (forall x y : ConfigVar unit (list (smap T)), Forall (map_ok (P := P)) (m_val x) -> m_val (read_back cast_vector x y) = m_val x).
Proof.
  split_and!.
  - apply (config_vectors_roundtrip P).
  - apply (config_sets_roundtrip P ltb).
  - apply (config_maps_roundtrip P).
  - apply (config_vectors_roundtrip (map_ok (P := P))).
Qed.

Definition two_names : set str := Set_ [bs "alice"; bs "bob"].
Definition var {T} (v : T) : ConfigVar unit T := new_var (bs "names") tt v [].
Lemma config_values_roundtrip_witness :
  set_to_str (Y := coded_yaml) two_names <> None
  /\ m_val (read_back (cast_set ltb) (var two_names) (var (Set_ []))) = two_names
  /\ m_val (read_back cast_vector (var [bs "bob"; bs "alice"]) (var [])) = [bs "bob"; bs "alice"].
Proof.
  assert (forall c s, c <> z2b 48 -> plain (c :: s)) as Hp.
  { intros c s Hc. exists (NScalar (c :: s)). unfold Load, emit. cbn. by rewrite !decide_False. }
  destruct (config_values_roundtrip (Y := coded_yaml) plain ltb) as (Hv & Hs & _).
  split_and!; [vm_compute; discriminate|apply Hs|apply Hv].
  - split; [repeat constructor|]. repeat constructor; by apply Hp.
  - repeat constructor; by apply Hp.
Defined.

(** *** What goes wrong *)

(** A string that YAML reads as something else comes back as something else:
    with a null node for a comment, the element of a vector is lost. *)
Lemma comment_is_lost `{YL : YamlLaws} (s : str) :
  Load s = Some NNull -> exists t, vector_to_str [s] = Some t /\ vector_of_str t = Some [emit NNull].
Proof.
  intros Hs. exists (emit (NSeq [NNull])). unfold vector_to_str, vector_of_str, tree_of. cbn. rewrite Hs, load_emit. done.
Qed.

End LexicalCast.
