(* ===== verification/LogConfig.v ===== *)
(** * Loggers from the configuration: [luwu/luwu/ready.h]

    The variable [logs] holds definitions of loggers, with their YAML form; when
    it changes, a listener brings the loggers of [Log] into the state that the
    new definitions ask for. *)
From S2P Require Import Prelude StdString StdMap Log Config LexicalCast.
From Stdlib Require Import Sorting.Sorted.
Import StdString Log LexicalCast.
Local Open Scope Z_scope.

Module LogConfig.

Record LogAppenderDefine := MkAppenderDef { ad_type : Z; ad_pattern : str; ad_file : str }.
#[export] Instance LogAppenderDefine_eq_decision : EqDecision LogAppenderDefine.
Proof. solve_decision. Defined.
Record LoggerDefine := MkDef { d_name : str; d_level : Level; d_appenders : list LogAppenderDefine }.
#[export] Instance LoggerDefine_eq_decision : EqDecision LoggerDefine.
Proof. solve_decision. Defined.
(** [operator<] *)
Definition def_ltb (a b : LoggerDefine) : bool := ltb (d_name a) (d_name b).

(** ** The YAML form *)
Section yaml.
Context `{Y : Yaml}.

(** [n[k].as<std::string>()] where [n[k]] is defined, and where it may not be. *)
Definition text_field (k : str) (n : Config.Node) : option (option str) :=
  f ← field k n; match f with None => Some None | Some x => s ← as_string x; Some (Some s) end.
(** The loop over the appenders: [None] is an exception. *)
Definition read_appender (n : Config.Node) : option (list LogAppenderDefine) :=
  type ← text_field (bs "type") n;
  match type with
  | None => Some []
  | Some type =>
      if bool_decide (type = bs "FileLogAppender") then
        file ← text_field (bs "file") n; file ← file;
        pattern ← text_field (bs "pattern") n; Some [MkAppenderDef 1 (default [] pattern) file]
      else if bool_decide (type = bs "StdoutLogAppender") then
        pattern ← text_field (bs "pattern") n; Some [MkAppenderDef 2 (default [] pattern) []]
      else Some [MkAppenderDef 0 [] []]
  end.
(** The elements of a loop over a node; an entry of a map is not a node to
    subscript. *)
Definition node_items (n : Config.Node) : option (list Config.Node) :=
  match n with Config.NSeq l => Some l | Config.NMap (_ :: _) => None | _ => Some [] end.
Definition define_of_str (v : str) : option LoggerDefine :=
  node ← Load v;
  name ← text_field (bs "name") node; name ← name;
  level ← text_field (bs "level") node;
  apps ← field (bs "appenders") node;
  l ← match apps with None => Some [] | Some a => items ← node_items a; ls ← mapM read_appender items; Some (concat ls) end;
  Some (MkDef name (FromString (default [] level)) l).
Definition appender_node (a : LogAppenderDefine) : Config.Node :=
  node_map ((if ad_type a =? 1 then [(bs "type", Config.NScalar (bs "FileLogAppender")); (bs "file", Config.NScalar (ad_file a))]
             else if ad_type a =? 2 then [(bs "type", Config.NScalar (bs "StdoutLogAppender"))] else [])
            ++ if bool_decide (ad_pattern a = []) then [] else [(bs "pattern", Config.NScalar (ad_pattern a))]).
Definition define_to_str (d : LoggerDefine) : option str :=
  Some (emit (node_map ([(bs "name", Config.NScalar (d_name d)); (bs "level", Config.NScalar (ToString (d_level d)))]
    ++ match d_appenders d with [] => [] | l => [(bs "appenders", node_seq (map appender_node l))] end))).

(** [toYamlString] of appenders, loggers and their manager, whose map is in the
    order of the names. *)
Definition appender_yaml (a : LogAppender) : str :=
  emit (node_map match a with
    | StdoutLogAppender f => [(bs "type", Config.NScalar (bs "StdoutLogAppender")); (bs "pattern", Config.NScalar (m_pattern f))]
    | FileLogAppender f _ name _ =>
        [(bs "type", Config.NScalar (bs "FileLogAppender")); (bs "file", Config.NScalar name); (bs "pattern", Config.NScalar (m_pattern f))]
    end).
Definition logger_yaml (w : world) (lg : Logger) : option str :=
  l ← mapM (fun i => a ← appenders w !! i; Load (appender_yaml a)) (m_appenderList lg);
  Some (emit (node_map ([(bs "name", Config.NScalar (m_name lg)); (bs "level", Config.NScalar (ToString (l_level lg)))]
    ++ match l with [] => [] | _ => [(bs "appenders", node_seq l)] end))).
Definition manager_yaml (w : world) : option str :=
  let names := StdMap.sort_strings (fst <$> map_to_list (loggers w)) in
  l ← mapM (fun n => lg ← loggers w !! n; t ← logger_yaml w lg; Load t) names; Some (emit (node_seq l)).
#[export] Instance cast_define : LexicalCast LoggerDefine := {| of_str := define_of_str; to_str := define_to_str |}.
End yaml.

(** ** The listener *)
Section listener.
Context (strftime : str -> Z -> str) (can_open : str -> bool).

Definition lift {A} (w : world) (o : outcome unit A) : outcome world A :=
  match o with Ret a _ => Ret a w | Throw e _ => Throw e w | UB => UB | NoFuel => NoFuel end.
(** [logAppender] stays null for another type, and [setFormatter] uses it. *)
Definition make_appender (a : LogAppenderDefine) (w : world) : outcome world LogAppender :=
  let* f0, w := lift w (new_formatter default_pattern) in
  let* ap, w := (if ad_type a =? 1 then let '(ap, w) := new_file_appender can_open f0 (ad_file a) w in Ret ap w
                 else if ad_type a =? 2 then Ret (StdoutLogAppender f0) w else UB) in
  let* f, w := lift w (new_formatter (if bool_decide (ad_pattern a = []) then default_pattern else ad_pattern a)) in
  Ret (setFormatter f ap) w.
Definition update (name : str) (f : Logger -> Logger) (w : world) : world :=
  let '(lg, w) := getLogger name w in with_loggers (<[name := f lg]> (loggers w)) w.
Fixpoint add_appenders (name : str) (l : list LogAppenderDefine) (w : world) : outcome world unit :=
  match l with
  | [] => Ret tt w
  | a :: l =>
      let* ap, w := make_appender a w in
      let i := fresh (dom (appenders w)) in
      add_appenders name l (update name (addAppender i) (with_appender i ap w))
  end.
Definition set_logger (d : LoggerDefine) (w : world) : outcome world unit :=
  add_appenders (d_name d) (d_appenders d) (update (d_name d) (fun lg => clearAppenders (setLevel (d_level d) lg)) w).
Definition find_def (d : LoggerDefine) (l : list LoggerDefine) : option LoggerDefine := StdMap.find def_ltb Datatypes.id d l.
Fixpoint apply_new (oldVal l : list LoggerDefine) (w : world) : outcome world unit :=
  match l with
  | [] => Ret tt w
  | val :: l =>
      let* _, w := match find_def val oldVal with
                   | Some d => if decide (val = d) then Ret tt w else set_logger val w
                   | None => set_logger val w
                   end in
      apply_new oldVal l w
  end.
Fixpoint drop_old (newVal l : list LoggerDefine) (w : world) : world :=
  match l with
  | [] => w
  | val :: l =>
      drop_old newVal l
        match find_def val newVal with
        | None => update (d_name val) (fun lg => clearAppenders (setLevel UNKNOWN lg)) w
        | Some _ => w
        end
  end.
(** [e] is the event that the listener logs. *)
Definition on_change (e : LogEvent) (oldVal newVal : list LoggerDefine) (w : world) : outcome world unit :=
  let w := log_by_name strftime can_open (bs "root") e w in
  let* _, w := apply_new oldVal newVal w in Ret tt (drop_old newVal oldVal w).
End listener.

(** ** What a logger should be *)
Definition pattern_of (a : LogAppenderDefine) : str := if bool_decide (ad_pattern a = []) then default_pattern else ad_pattern a.
Definition matches (a : LogAppenderDefine) (ap : LogAppender) : Prop :=
  new_formatter (pattern_of a) = Ret (getFormatter ap) tt
  /\ match ap with StdoutLogAppender _ => ad_type a = 2 | FileLogAppender _ _ name _ => ad_type a = 1 /\ name = ad_file a end.
Definition set_up (d : LoggerDefine) (w : world) : Prop :=
  exists lg, loggers w !! d_name d = Some lg /\ l_level lg = d_level d
    /\ Forall2 (fun i a => exists ap, appenders w !! i = Some ap /\ matches a ap) (m_appenderList lg) (d_appenders d).
Definition usable (a : LogAppenderDefine) : Prop := (ad_type a = 1 \/ ad_type a = 2) /\ returns (new_formatter (pattern_of a)) = true.

(** A step that leaves the loggers but those of [names] alone, and of every
    appender what it is. *)
Definition alike (a b : LogAppender) : Prop :=
  getFormatter a = getFormatter b
  /\ match a, b with StdoutLogAppender _, StdoutLogAppender _ => True | FileLogAppender _ _ n _, FileLogAppender _ _ n' _ => n = n' | _, _ => False end.
Record leaves (names : list str) (w w' : world) : Prop := {
  lv_loggers n : n ∉ names -> loggers w' !! n = loggers w !! n;
  lv_appenders i ap : appenders w !! i = Some ap -> exists ap', appenders w' !! i = Some ap' /\ alike ap ap';
}.
#[export] Instance alike_preorder : PreOrder alike.
Proof. split; [by intros []|]. intros [] [] [] [H1 H2] [H3 H4]; cbn in *; try done; split; cbn; congruence. Qed.
#[export] Instance leaves_preorder names : PreOrder (leaves names).
Proof.
  split; [split; [done|]; intros; eexists; split; [done|reflexivity]|]. intros w1 w2 w3 [H1 H2] [K1 K2]. split; [intros n Hn; by rewrite K1, H1|].
  intros i ap (ap' & Hi & Ha)%H2. destruct (K2 i ap' Hi) as (ap2 & Hi2 & Ha2). exists ap2. split; [done|by etransitivity].
Qed.
Lemma leaves_mono l k w w' : l ⊆ k -> leaves l w w' -> leaves k w w'.
Proof. intros Hk [H1 H2]. split; [|done]. intros n Hn. apply H1. set_solver. Qed.
Lemma matches_alike a ap ap' : alike ap ap' -> matches a ap -> matches a ap'.
Proof. intros [Hf Ht] [H1 H2]. split; [congruence|]. destruct ap, ap'; try done. by subst. Qed.
Lemma set_up_leaves names d w w' : leaves names w w' -> d_name d ∉ names -> set_up d w -> set_up d w'.
Proof.
  intros [H1 H2] Hn (lg & Hl & Hv & Ha). exists lg. rewrite H1 by done. split_and!; [done|done|]. eapply Forall2_impl; [exact Ha|].
  intros i a (ap & Hi & Hm). destruct (H2 i ap Hi) as (ap' & Hi' & Hal). exists ap'. split; [done|]. by eapply matches_alike.
Qed.

(** *** Sets of definitions *)
#[export] Instance def_swo : StdMap.StrictWeakOrder def_ltb.
Proof.
  split; unfold def_ltb; intros.
  - apply StdMap.swo_irrefl.
  - by eapply StdMap.swo_trans.
  - by eapply StdMap.swo_incomp.
Qed.
Abbreviation def_set := (StdMap.sorted def_ltb Datatypes.id).
Lemma def_equiv a b : StdMap.equivb def_ltb a b = bool_decide (d_name a = d_name b).
Proof. apply (StdMap.equivb_string (d_name a) (d_name b)). Qed.
Lemma find_def_some d l x : def_set l -> find_def d l = Some x -> x ∈ l /\ d_name x = d_name d.
Proof. intros Hs Hf. apply (StdMap.find_spec def_ltb Datatypes.id) in Hf as [Hin Hq]; [|done]. rewrite def_equiv in Hq. by apply bool_decide_eq_true in Hq. Qed.
Lemma find_def_none d l : def_set l -> find_def d l = None <-> d_name d ∉ d_name <$> l.
Proof.
  intros Hs. unfold find_def. rewrite (StdMap.find_none def_ltb Datatypes.id) by done. split.
  - intros H (x & Hx & Hin)%list_elem_of_fmap. specialize (H x Hin). rewrite def_equiv in H. apply bool_decide_eq_false in H. by apply H.
  - intros H x Hx. rewrite def_equiv. apply bool_decide_eq_false. intros Hn. apply H. apply list_elem_of_fmap. by exists x.
Qed.
Lemma def_names l : def_set l -> NoDup (d_name <$> l).
Proof.
  induction 1 as [|d l Hs IH Hall]; [constructor|]. cbn. constructor; [|done]. intros (x & Hx & Hin)%list_elem_of_fmap. rewrite Forall_forall in Hall. specialize (Hall x Hin).
  unfold StdMap.lt, def_ltb in Hall. cbn in Hall. rewrite Hx in Hall. by rewrite StdMap.swo_irrefl in Hall.
Qed.

(** *** Logging *)
Section steps.
Context (strftime : str -> Z -> str) (can_open : str -> bool).
Lemma appender_log_alike e a w : let '(a', w') := appender_log strftime can_open e a w in alike a a' /\ loggers w' = loggers w /\ appenders w' = appenders w.
Proof.
  destruct a as [f|f err name last]; cbn; [done|]. unfold open_file. destruct (u64 (last + 3) <=? m_time e); cbn.
  - destruct (can_open name); cbn; done.
  - by destruct err.
Qed.
Lemma log_to_leaves e l w : leaves [] w (log_to strftime can_open e l w).
Proof.
  revert w. induction l as [|i l IH]; intros w; cbn [log_to]; [reflexivity|]. etransitivity; [|apply IH]. destruct (appenders w !! i) as [a|] eqn:Ei; [|reflexivity].
  pose proof (appender_log_alike e a w) as Ha. destruct (appender_log strftime can_open e a w) as [a' w']. destruct Ha as (Ha & Hl & Hp). split; cbn.
  - intros n _. by rewrite Hl.
  - intros j ap Hj. rewrite Hp. destruct (decide (i = j)) as [<-|]; [rewrite lookup_insert_eq; eexists; split; [done|]; congruence|].
    rewrite lookup_insert_ne by done. exists ap. split; [done|reflexivity].
Qed.
Lemma log_root_leaves e w : is_Some (loggers w !! bs "root") -> leaves [] w (log_by_name strftime can_open (bs "root") e w).
Proof. intros [lg Hl]. unfold log_by_name, getLogger. rewrite Hl. unfold log. destruct (_ <=? _); [apply log_to_leaves|reflexivity]. Qed.
End steps.

(** *** The steps of the listener *)
Lemma update_leaves name f w : leaves [name] w (update name f w).
Proof.
  unfold update, getLogger. destruct (loggers w !! name) as [lg|] eqn:El; split; cbn.
  1,3: intros n Hn; rewrite ?lookup_insert_ne by set_solver; done.
  all: intros i ap Hi; exists ap; split; [done|reflexivity].
Qed.
Lemma update_lookup name f w : loggers (update name f w) !! name = Some (f (default (new_logger name) (loggers w !! name))).
Proof. unfold update, getLogger. destruct (loggers w !! name) as [lg|] eqn:El; cbn; by rewrite lookup_insert_eq. Qed.
Lemma default_formatter : exists f, new_formatter default_pattern = Ret f tt.
Proof.
  assert (returns (new_formatter default_pattern) = true) as H by (vm_compute; reflexivity). destruct (new_formatter default_pattern) as [f []| | |]; try discriminate. by exists f.
Qed.
Section creating.
Context (can_open : str -> bool).
Lemma make_appender_ok a w : usable a -> exists ap w', make_appender can_open a w = Ret ap w' /\ matches a ap /\ loggers w' = loggers w /\ appenders w' = appenders w.
Proof.
  intros [Ht Hr]. destruct default_formatter as [f0 H0]. unfold make_appender. rewrite H0. cbn [lift obind]. unfold matches.
  destruct (new_formatter (pattern_of a)) as [f []| | |] eqn:Ef; try done. unfold pattern_of in Ef.
  destruct Ht as [Ht|Ht]; rewrite Ht; cbn [Z.eqb Pos.eqb].
  - unfold new_file_appender, reopen, open_file. destruct (can_open (ad_file a)); cbn [obind]; rewrite Ef; cbn; eexists _, _; split_and!; done.
  - cbn [obind]. rewrite Ef. cbn. eexists _, _. split_and!; done.
Qed.
Lemma add_appenders_ok name l w lg done_ :
  Forall usable l -> loggers w !! name = Some lg -> Forall2 (fun i a => exists ap, appenders w !! i = Some ap /\ matches a ap) (m_appenderList lg) done_ ->
  exists w' lg', add_appenders can_open name l w = Ret tt w' /\ leaves [name] w w' /\ loggers w' !! name = Some lg' /\ l_level lg' = l_level lg
    /\ Forall2 (fun i a => exists ap, appenders w' !! i = Some ap /\ matches a ap) (m_appenderList lg') (done_ ++ l).
Proof.
  revert w lg done_. induction l as [|a l IH]; intros w lg done_ Hu Hl Hd; cbn [add_appenders].
  { exists w, lg. rewrite app_nil_r. split_and!; try done. }
  apply Forall_cons in Hu as [Ha Hu]. destruct (make_appender_ok a w Ha) as (ap & w1 & -> & Hm & Hl1 & Ha1). cbn [obind]. set (i := fresh (dom (appenders w1))).
  assert (appenders w !! i = None) as Hfresh by (rewrite <- Ha1; apply not_elem_of_dom, is_fresh).
  set (w2 := update name (addAppender i) (with_appender i ap w1)).
  assert (loggers w2 !! name = Some (addAppender i lg)) as Hl2 by (unfold w2; rewrite update_lookup; cbn; by rewrite Hl1, Hl).
  assert (leaves [name] w w2) as Hlv.
  { transitivity (with_appender i ap w1); [|apply update_leaves]. split; cbn; [intros; by rewrite Hl1|]. intros j aj Hj. exists aj. split; [|reflexivity].
    rewrite lookup_insert_ne; [by rewrite Ha1|]. intros <-. congruence. }
  assert (appenders w2 !! i = Some ap) as Hi2.
  { unfold w2, update, getLogger. cbn. destruct (loggers w1 !! name); cbn; apply lookup_insert_eq. }
  destruct (IH w2 (addAppender i lg) (done_ ++ [a]) Hu Hl2) as (w' & lg' & He & Hlv' & Hlg & Hv & Hf).
  { cbn. apply Forall2_app; [|constructor 2; [by exists ap|constructor 1]]. eapply Forall2_impl; [exact Hd|]. intros j aj (aw & Hj & Hmj). destruct (lv_appenders _ _ _ Hlv j aw Hj) as (aw' & Hj' & Hal).
    exists aw'. split; [done|by eapply matches_alike]. }
  exists w', lg'. rewrite <- app_assoc in Hf. split_and!; [done|by transitivity w2|done|done|done].
Qed.
Lemma set_logger_ok d w : Forall usable (d_appenders d) -> exists w', set_logger can_open d w = Ret tt w' /\ leaves [d_name d] w w' /\ set_up d w'.
Proof.
  intros Hu. unfold set_logger. set (w1 := update _ _ w).
  destruct (add_appenders_ok (d_name d) (d_appenders d) w1 _ [] Hu (update_lookup _ _ _)) as (w' & lg & He & Hlv & Hl & Hv & Hf); [constructor|].
  exists w'. split_and!; [done|transitivity w1; [apply update_leaves|done]|]. exists lg. by split_and!.
Qed.

(** *** All definitions *)
Lemma apply_new_ok old l w :
  def_set old -> Forall (fun d => Forall usable (d_appenders d)) l -> NoDup (d_name <$> l) -> (forall d, d ∈ l -> d ∈ old -> set_up d w) ->
  exists w', apply_new can_open old l w = Ret tt w' /\ leaves (d_name <$> l) w w' /\ Forall (fun d => set_up d w') l.
Proof.
  intros Hold. revert w. induction l as [|v l IH]; intros w Hu Hn Hup; cbn [apply_new]; [by exists w|].
  apply Forall_cons in Hu as [Hv Hu]. cbn in Hn. apply NoDup_cons in Hn as [Hnv Hn].
  assert (exists w1, match find_def v old with Some d => if decide (v = d) then Ret tt w else set_logger can_open v w | None => set_logger can_open v w end = Ret tt w1
    /\ leaves [d_name v] w w1 /\ set_up v w1) as (w1 & H1 & Hlv & Hs).
  { destruct (find_def v old) as [d|] eqn:Ef; [|by apply set_logger_ok]. case_decide as Ed; [|by apply set_logger_ok]. subst d. exists w. split_and!; [done|reflexivity|].
    apply Hup; [by left|]. by apply find_def_some in Ef as [? _]. }
  rewrite H1. cbn [obind]. destruct (IH w1 Hu Hn) as (w' & H2 & Hlv2 & Hall).
  { intros d Hd Ho. eapply set_up_leaves; [exact Hlv| |apply Hup; [by right|done]]. intros Hx%list_elem_of_singleton. apply Hnv. apply list_elem_of_fmap. by exists d. }
  exists w'. split_and!; [done| |].
  - cbn. transitivity w1; eapply leaves_mono; [|exact Hlv| |exact Hlv2]; set_solver.
  - constructor; [|done]. by eapply set_up_leaves.
Qed.
End creating.
Definition silent (n : str) (w : world) : Prop := exists lg, loggers w !! n = Some lg /\ l_level lg = UNKNOWN /\ m_appenderList lg = [].
Lemma drop_old_ok new l w :
  leaves (d_name <$> filter (fun d => find_def d new = None) l) w (drop_old new l w)
  /\ (forall n, silent n w -> silent n (drop_old new l w)) /\ (forall d, d ∈ l -> find_def d new = None -> silent (d_name d) (drop_old new l w)).
Proof.
  revert w. induction l as [|v l IH]; intros w; cbn [drop_old].
  { split_and!; [reflexivity|done|]. intros d Hd. by apply not_elem_of_nil in Hd. }
  rewrite filter_cons. destruct (find_def v new) as [x|] eqn:Ef.
  - rewrite decide_False by congruence. destruct (IH w) as (H1 & H2 & H3). split_and!; [done|done|]. intros d [->|Hd]%elem_of_cons Hf; [congruence|by apply H3].
  - rewrite decide_True by done. set (w1 := update _ _ w). destruct (IH w1) as (H1 & H2 & H3).
    assert (forall n, n = d_name v \/ silent n w -> silent n w1) as Hsil.
    { intros n Hn. destruct (decide (n = d_name v)) as [->|Hne]; [eexists; split; [apply update_lookup|done]|]. destruct Hn as [|(lg & Hl & Hs)]; [done|]. exists lg. split; [|done].
      unfold w1. rewrite (lv_loggers _ _ _ (update_leaves (d_name v) _ w)); [done|set_solver]. }
    split_and!.
    + cbn. transitivity w1; eapply leaves_mono; [|apply update_leaves| |exact H1]; set_solver.
    + intros n Hn. apply H2, Hsil. by right.
    + intros d [->|Hd]%elem_of_cons Hf; [apply H2, Hsil; by left|by apply H3].
Qed.

(** C32. The loggers follow the configuration: if the loggers are as the old
    definitions of [logs] say, the listener, given definitions of usable
    appenders, returns, and then every logger is as its new definition says,
    with its level and its appenders in their order; those that are defined no
    longer log nothing; all others are left alone. *)
Theorem loggers_follow_config (strftime : str -> Z -> str) (can_open : str -> bool) (e : LogEvent) (old new : list LoggerDefine) (w : world) :
  def_set old -> def_set new -> is_Some (loggers w !! bs "root") ->
  Forall (fun d => Forall usable (d_appenders d)) new -> Forall (fun d => set_up d w) old ->
  exists w', on_change strftime can_open e old new w = Ret tt w'
  /\ Forall (fun d => set_up d w') new
  /\ (forall d, d ∈ old -> d_name d ∉ d_name <$> new -> silent (d_name d) w')
  /\ (forall n, n ∉ d_name <$> old -> n ∉ d_name <$> new -> loggers w' !! n = loggers w !! n).
Proof.
  intros Ho Hn Hr Hu Hold. unfold on_change. pose proof (log_root_leaves strftime can_open e w Hr) as Hl. set (w0 := log_by_name _ _ _ e w) in *.
  destruct (apply_new_ok can_open old new w0 Ho Hu (def_names _ Hn)) as (w1 & H1 & Hlv1 & Hup).
  { intros d _ Hd. eapply set_up_leaves; [exact Hl|set_solver|]. rewrite Forall_forall in Hold. by apply Hold. }
  rewrite H1. cbn [obind]. destruct (drop_old_ok new old w1) as (Hlv2 & _ & Hs). eexists. split; [done|]. split_and!.
  - eapply Forall_impl; [apply Forall_and; split; [exact Hup|apply Forall_forall; intros d Hd; exact Hd]|]. cbn. intros d [Hd Hin]. eapply set_up_leaves; [exact Hlv2| |done].
    intros (x & Hx & [Hf _]%list_elem_of_filter)%list_elem_of_fmap. apply (find_def_none x new Hn) in Hf. apply Hf. rewrite <- Hx. apply list_elem_of_fmap. by exists d.
  - intros d Hd Hnew. apply Hs; [done|]. by apply find_def_none.
  - intros n Hno Hnn. rewrite (lv_loggers _ _ _ Hlv2); [|intros (x & -> & [_ Hx]%list_elem_of_filter)%list_elem_of_fmap; apply Hno; apply list_elem_of_fmap; by exists x].
    rewrite (lv_loggers _ _ _ Hlv1) by done. apply (lv_loggers _ _ _ Hl). set_solver.
Qed.

Definition plain_formatter : LogFormatter := MkFormatter false (bs "%m") [MessageFormatItem].
Definition http_def : LoggerDefine := MkDef (bs "http") DEBUG [].
Definition chat_def : LoggerDefine := MkDef (bs "chat") INFO [MkAppenderDef 2 [] []; MkAppenderDef 1 (bs "%m") (bs "chat.log")].
Definition http_world : world := snd (getLogger (bs "http") (new_manager plain_formatter (MkWorld ∅ [] ∅ ∅))).
Lemma loggers_follow_config_witness :
  exists w', on_change (fun _ _ => []) (fun _ => true) some_event [http_def] [chat_def] http_world = Ret tt w'
    /\ set_up chat_def w' /\ silent (bs "http") w' /\ console w' = bs "hello".
Proof.
  destruct (loggers_follow_config (fun _ _ => []) (fun _ => true) some_event [http_def] [chat_def] http_world) as (w' & Hw & Hup & Hs & _).
  - repeat constructor.
  - repeat constructor.
  - by eexists.
  - constructor; [|constructor]. constructor; [split; [by right|vm_compute; reflexivity]|]. constructor; [split; [by left|vm_compute; reflexivity]|constructor].
  - constructor; [|constructor]. exists (new_logger (bs "http")). split_and!; [reflexivity|reflexivity|constructor].
  - exists w'. split; [exact Hw|]. apply Forall_cons in Hup as [Hup _]. split; [exact Hup|]. split.
    + apply (Hs http_def); [by left|]. apply (bool_decide_unpack _). vm_compute. exact I.
    + vm_compute in Hw. injection Hw as <-. reflexivity.
Defined.

(** ** The YAML form comes back *)
Definition define_ok (d : LoggerDefine) : Prop := Forall (fun a => ad_type a = 1 \/ ad_type a = 2 /\ ad_file a = []) (d_appenders d).
Ltac keys := repeat first [rewrite bool_decide_true by reflexivity | rewrite bool_decide_false by (let H := fresh in intros H; vm_compute in H; discriminate H)].
Section form.
Context `{YL : YamlLaws}.
Lemma field_node_map k l : NoDup (fst <$> l) -> field k (node_map l) = Some (snd <$> List.find (fun e => bool_decide (fst e = k)) l).
Proof. intros Hn. rewrite node_map_distinct by done. by destruct l. Qed.
Lemma text_field_node_map k l : NoDup (fst <$> l) ->
  text_field k (node_map l) = match List.find (fun e => bool_decide (fst e = k)) l with None => Some None | Some e => s ← as_string (snd e); Some (Some s) end.
Proof. intros Hn. unfold text_field. rewrite field_node_map by done. cbn. by destruct (List.find _ l). Qed.
Lemma from_default_level l : FromString (default [] (Some (ToString l))) = l.
Proof. by destruct l. Qed.
Lemma read_appender_ok a : ad_type a = 1 \/ ad_type a = 2 /\ ad_file a = [] -> read_appender (appender_node a) = Some [a].
Proof.
  intros Ha. unfold read_appender, appender_node. destruct a as [t p f]. cbn [ad_type ad_pattern ad_file] in *.
  destruct Ha as [->|[-> ->]]; cbn [Z.eqb Pos.eqb]; destruct (bool_decide_reflect (p = [])) as [->|Hp]; cbn [app].
  all: rewrite !text_field_node_map by (cbn; apply (bool_decide_unpack _); vm_compute; exact I).
  all: cbn [List.find fst snd]; keys; cbn [snd]; rewrite ?as_string_scalar; cbn; keys; rewrite ?as_string_scalar; reflexivity.
Qed.
#[export] Instance printed_define : Printed define_ok.
Proof.
  intros d Hd. eexists. split; [reflexivity|]. cbn. unfold define_of_str. rewrite load_emit. cbn. destruct d as [name level l]. cbn [d_name d_level d_appenders] in *. unfold define_ok in Hd. cbn in Hd.
  assert (mapM read_appender (map appender_node l) = Some (map (fun a => [a]) l)) as Hm.
  { induction Hd as [|a l Ha _ IH]; [done|]. cbn. rewrite read_appender_ok by done. cbn. by rewrite IH. }
  assert (concat (map (fun a : LogAppenderDefine => [a]) l) = l) as Hc by (clear; induction l as [|a l IH]; [done|]; cbn; by rewrite IH).
  destruct l as [|a l]; rewrite !text_field_node_map, field_node_map by (cbn; apply (bool_decide_unpack _); vm_compute; exact I).
  - cbn [app List.find fst snd]. keys. cbn [snd]. rewrite !as_string_scalar. cbn [mbind option_bind fmap option_fmap option_map snd]. by rewrite from_default_level.
  - cbn [app List.find fst snd]. keys. cbn [snd]. rewrite !as_string_scalar. cbn [mbind option_bind fmap option_fmap option_map snd node_seq map node_items].
    change (appender_node a :: map appender_node l) with (map appender_node (a :: l)). rewrite Hm. cbn [mbind option_bind]. rewrite Hc, from_default_level. done.
Qed.

(** What a logger prints is the definition that it was made from, with the
    patterns filled in. *)
Definition filled (a : LogAppenderDefine) : LogAppenderDefine := MkAppenderDef (ad_type a) (pattern_of a) (ad_file a).
Lemma pattern_of_nonempty a : pattern_of a <> [].
Proof. unfold pattern_of. by case_bool_decide. Qed.
Lemma formatter_pattern p f : new_formatter p = Ret f tt -> m_pattern f = p.
Proof. unfold new_formatter. destruct (scan InText p [] [] []) as [l df| |]; [destruct (make_items df l)|..]; intros; simplify_eq; done. Qed.
Lemma appender_yaml_ok a ap : matches a ap -> appender_yaml ap = emit (appender_node (filled a)).
Proof.
  intros [Hf%formatter_pattern Ht]. unfold appender_yaml, appender_node. cbn [filled ad_type ad_pattern ad_file]. rewrite bool_decide_false by apply pattern_of_nonempty.
  destruct ap as [f|f err name last]; cbn [getFormatter] in Hf; rewrite Hf; [rewrite Ht|destruct Ht as [Ht ->]; rewrite Ht]; done.
Qed.
Lemma logger_yaml_is_definition d w lg :
  loggers w !! d_name d = Some lg -> m_name lg = d_name d -> set_up d w -> define_ok d ->
  exists t, logger_yaml w lg = Some t /\ define_of_str t = Some (MkDef (d_name d) (d_level d) (map filled (d_appenders d))).
Proof.
  intros Hl Hn (lg' & Hl' & Hv & Hf) Hok. rewrite Hl in Hl'. injection Hl' as <-.
  destruct (printed (MkDef (d_name d) (d_level d) (map filled (d_appenders d)))) as (n & Hp & Ho); [unfold define_ok; cbn; by apply Forall_map|]. exists (emit n). split; [|exact Ho].
  cbn in Hp. rewrite <- Hp. unfold logger_yaml, define_to_str. cbn [d_name d_level d_appenders].
  assert (mapM (fun i => a ← appenders w !! i; Load (appender_yaml a)) (m_appenderList lg) = Some (map appender_node (map filled (d_appenders d)))) as ->.
  { clear -Hf YL. induction Hf as [|i a l k (ap & Hi & Hm) _ IH]; [done|]. cbn. rewrite Hi. cbn. rewrite (appender_yaml_ok a ap Hm), load_emit. cbn. by rewrite IH. }
  cbn [mbind option_bind]. rewrite Hn, Hv. by destruct (d_appenders d).
Qed.
End form.

(** *** What goes wrong *)

(** An appender of another type is kept as a definition of none, and the listener
    uses the null pointer that it makes of it. *)
Lemma unknown_appender_is_undefined strftime can_open e name level r w `{YL : YamlLaws} :
  read_appender (node_map [(bs "type", Config.NScalar (bs "SyslogAppender"))]) = Some [MkAppenderDef 0 [] []]
  /\ on_change strftime can_open e [] [MkDef name level (MkAppenderDef 0 [] [] :: r)] w = UB.
Proof.
  split.
  - unfold read_appender. rewrite !text_field_node_map by (cbn; apply (bool_decide_unpack _); vm_compute; exact I). cbn [List.find fst snd]. keys. cbn [snd]. rewrite as_string_scalar.
    cbn [mbind option_bind]. by keys.
  - unfold on_change. cbn [apply_new find_def StdMap.find d_name d_appenders add_appenders]. unfold set_logger. cbn [d_name d_appenders add_appenders]. unfold make_appender.
    destruct default_formatter as [f ->]. reflexivity.
Qed.

End LogConfig.
