(* ===== verification/Env.v ===== *)
(** * The command line and the paths of a process: [luwu/luwu/env.cpp]

    The target of [/proc/<pid>/exe], the process environment and the value of
    [server.work_path] are arguments. *)
From S2P Require Import Prelude StdString.
Import StdString.
Local Open Scope Z_scope.

Module Env.

Record Env := MkEnv {
  m_args : gmap str str;
  m_helps : list (str * str);
  m_program : str;
  m_exe : str;
  m_cwd : str;
}.
Definition new_env : Env := MkEnv ∅ [] [] [] [].
Definition with_args (a : gmap str str) (e : Env) : Env := MkEnv a (m_helps e) (m_program e) (m_exe e) (m_cwd e).
Definition with_helps (h : list (str * str)) (e : Env) : Env := MkEnv (m_args e) h (m_program e) (m_exe e) (m_cwd e).

Definition add (key val : str) (e : Env) : Env := with_args (<[key := val]> (m_args e)) e.
Definition has (key : str) (e : Env) : bool := bool_decide (is_Some (m_args e !! key)).
Definition del (key : str) (e : Env) : Env := with_args (delete key (m_args e)) e.
Definition get (key default_val : str) (e : Env) : str := default default_val (m_args e !! key).

(** [delHelp] erases the first entry of a key. *)
Fixpoint erase_help (key : str) (l : list (str * str)) : list (str * str) :=
  match l with [] => [] | h :: l => if bool_decide (fst h = key) then l else h :: erase_help key l end.
Definition delHelp (key : str) (e : Env) : Env := with_helps (erase_help key (m_helps e)) e.
Definition addHelp (key desc : str) (e : Env) : Env := let e := delHelp key e in with_helps (m_helps e ++ [(key, desc)]) e.
Definition printHelp (e : Env) : str :=
  bs "Usage: " ++ m_program e ++ bs " [options]" ++ [z2b 10]
  ++ concat (map (fun h => bs "    -" ++ fst h ++ bs " : " ++ snd h ++ [z2b 10]) (m_helps e)).

(** The loop over the arguments: [now_key] is a key that waits for its value. *)
Definition dash : byte := z2b 45.
Fixpoint parse_args (args : list str) (now_key : option str) (e : Env) : bool * Env :=
  match args with
  | [] => (true, match now_key with Some k => add k [] e | None => e end)
  | a :: args =>
      if bool_decide (head a = Some dash) then
        match a with
        | _ :: _ :: _ => parse_args args (Some (zdrop 1 a)) match now_key with Some k => add k [] e | None => e end
        | _ => (false, e)
        end
      else
        match now_key with
        | Some k => parse_args args None (add k a e)
        | None => (false, e)
        end
  end.
(** [init]: [readlink] fills a buffer of 1024 zeros and does not terminate it. *)
Definition init (exe : str) (argv : list str) (e : Env) : outcome unit (bool * Env) :=
  if 1024 <=? zlen exe then UB
  else
    match argv with
    | [] => UB
    | program :: args =>
        let cwd := match rfind (z2b 47) exe with Some pos => ztake pos exe | None => exe end ++ bs "/" in
        Ret (parse_args args None (MkEnv (m_args e) (m_helps e) program exe cwd)) tt
    end.

Definition getEnv (getenv : str -> option str) (key default_val : str) : str := default default_val (getenv key).
Definition getAbsolutePath (path : str) (e : Env) : str :=
  if bool_decide (path = []) then bs "/" else if bool_decide (head path = Some (z2b 47)) then path else m_cwd e ++ path.
Definition getAbsoluteWorkPath (work_path path : str) : str :=
  if bool_decide (path = []) then bs "/" else if bool_decide (head path = Some (z2b 47)) then path else work_path ++ bs "/" ++ path.
Definition getConfigPath (e : Env) : str := getAbsolutePath (get (bs "c") (bs "conf") e) e.

(** ** Command lines *)

(** An option with or without a value. *)
Definition show_option (o : str * option str) : list str :=
  (dash :: fst o) :: match snd o with Some v => [v] | None => [] end.
Definition show_options (l : list (str * option str)) : list str := flat_map show_option l.
Definition option_ok (o : str * option str) : bool :=
  negb (bool_decide (fst o = [])) && match snd o with Some v => negb (bool_decide (head v = Some dash)) | None => true end.
Definition set_option (m : gmap str str) (o : str * option str) : gmap str str := <[fst o := default [] (snd o)]> m.

Lemma parse_options l key e :
  forallb option_ok l = true ->
  parse_args (show_options l) key e
  = (true, with_args (fold_left set_option l match key with Some k => <[k := []]> (m_args e) | None => m_args e end) e).
Proof.
  revert key e. induction l as [|[k v] l IH]; intros key e Hl; cbn [show_options flat_map fold_left forallb] in *.
  - cbn. destruct key; [done|]. by destruct e.
  - apply andb_true_iff in Hl as [Hok Hl]. unfold option_ok in Hok. cbn [fst snd] in Hok. apply andb_true_iff in Hok as [Hk Hv].
    destruct k as [|c k]; [done|]. unfold show_option. cbn [fst snd app parse_args head]. rewrite bool_decide_true by done.
    change (zdrop 1 (dash :: c :: k)) with (c :: k).
    destruct v as [v|]; cbn [app parse_args].
    + apply negb_true_iff in Hv. rewrite Hv. change (flat_map show_option l) with (show_options l). rewrite IH by done. unfold set_option. cbn. by destruct key.
    + change (flat_map show_option l) with (show_options l). rewrite IH by done. unfold set_option. cbn. by destruct key.
Qed.

(** The keys that are set. *)
Lemma set_options_some l m k : is_Some (fold_left set_option l m !! k) <-> is_Some (m !! k) \/ k ∈ map fst l.
Proof.
  revert m. induction l as [|[k' v] l IH]; intros m; cbn [fold_left map fst]; [set_solver|]. rewrite IH. unfold set_option. cbn.
  destruct (decide (k' = k)) as [->|]; [rewrite lookup_insert_eq; split; [intros _; right; by left|intros _; left; by eexists]|].
  rewrite lookup_insert_ne, elem_of_cons by done. naive_solver.
Qed.
Lemma init_options exe program l e :
  zlen exe < 1024 -> forallb option_ok l = true ->
  exists e', init exe (program :: show_options l) e = Ret (true, e') tt /\ m_program e' = program /\ m_args e' = fold_left set_option l (m_args e)
    /\ m_helps e' = m_helps e.
Proof.
  intros Hx Hl. unfold init. destruct (Z.leb_spec 1024 (zlen exe)); [lia|]. rewrite parse_options by done. eexists. split; [done|]. by split_and!.
Qed.

(** A command line of options, with or without values, is read as written:
    [init] answers true, every key has the value given last (the empty string
    when none was), and no other key is added. *)
Theorem command_line_read (exe program : str) (l : list (str * option str)) (e : Env) :
  zlen exe < 1024 -> forallb option_ok l = true ->
  exists e', init exe (program :: show_options l) e = Ret (true, e') tt /\ m_program e' = program
    /\ forall k, m_args e' !! k = (fold_left set_option l (m_args e)) !! k.
Proof.
  intros Hx Hl. destruct (init_options exe program l e Hx Hl) as (e' & H1 & H2 & H3 & _). exists e'. split_and!; [done|done|]. intros k. by rewrite H3.
Qed.

Definition e_options : list (str * option str) := [(bs "c", Some (bs "conf")); (bs "d", None); (bs "p", Some (bs "1")); (bs "p", Some (bs "2"))].
Lemma command_line_read_witness :
  exists e', init (bs "/opt/bin/chat") (bs "./chat" :: show_options e_options) new_env = Ret (true, e') tt
    /\ get (bs "p") [] e' = bs "2" /\ getConfigPath e' = bs "/opt/bin/conf".
Proof.
  destruct (command_line_read (bs "/opt/bin/chat") (bs "./chat") e_options new_env) as (e' & H1 & _ & _); [reflexivity|reflexivity|].
  exists e'. split; [exact H1|]. vm_compute in H1. injection H1 as <-. split; vm_compute; reflexivity.
Defined.

(** A help entry is printed once, under its last description. *)
Lemma erase_help_elem key l h : NoDup (map fst l) -> h ∈ erase_help key l <-> h ∈ l /\ fst h <> key.
Proof.
  induction l as [|g l IH]; cbn; [set_solver|]. intros [Hg Hn]%NoDup_cons. specialize (IH Hn). case_bool_decide as E.
  - split; [|set_solver]. intros Hh. split; [by right|]. intros Hk. apply Hg. rewrite E, <- Hk. apply list_elem_of_fmap. by exists h.
  - rewrite !elem_of_cons, IH. naive_solver.
Qed.
Lemma erase_help_nodup key l : NoDup (map fst l) -> NoDup (map fst (erase_help key l)).
Proof.
  induction l as [|g l IH]; cbn; [done|]. intros Hgn. pose proof Hgn as [Hg Hn]%NoDup_cons. case_bool_decide; [done|]. cbn. apply NoDup_cons. split; [|by apply IH].
  intros (h & Hk & Hh)%list_elem_of_fmap. apply erase_help_elem in Hh as [Hh _]; [|done]. apply Hg. rewrite Hk. apply list_elem_of_fmap. by exists h.
Qed.
Theorem help_entries (key desc : str) (e : Env) :
  NoDup (map fst (m_helps e)) ->
  NoDup (map fst (m_helps (addHelp key desc e)))
  /\ forall h, h ∈ m_helps (addHelp key desc e) <-> h = (key, desc) \/ (h ∈ m_helps e /\ fst h <> key).
Proof.
  intros Hn. unfold addHelp, delHelp, with_helps. cbn [m_helps]. split.
  - rewrite map_app. apply NoDup_app. split; [by apply erase_help_nodup|]. split; [|apply NoDup_singleton].
    intros k (h & -> & Hh)%list_elem_of_fmap Hk%list_elem_of_singleton. apply erase_help_elem in Hh as [_ ?]; done.
  - intros h. rewrite elem_of_app, list_elem_of_singleton, erase_help_elem by done. naive_solver.
Qed.

End Env.
