(* ===== verification/Modules.v ===== *)
(** * Loadable modules: [luwu/luwu/library.cpp], [module.cpp]

    [Library::GetModule] opens a shared object and makes a module, which closes
    the shared object when its last pointer goes; [ModuleManager] keeps the
    modules by id.  What a file holds is the parameter [dl]; what happens to
    modules is a log.  The shared pointers to a module are counted as
    [std::shared_ptr] does, so that the time of its end is that of the code.
    The virtual functions of a module are entries of the log; they do not call
    the manager back. *)
From S2P Require Import Prelude StdString StdMap.
From Stdlib Require Import Sorting.Sorted.
Import StdString.

Module Modules.

(** What [dlopen], [dlsym] and [CreateModule] give for a file; [Creates None] is
    a null pointer. *)
Inductive library := NoLibrary | NoCreate | NoDestory | Creates (m : option (str * str)).

Abbreviation ptr := nat.
Record Module := MkModule {
  m_name : str;
  m_version : str;
  m_filename : str;
  m_id : str;
  m_handle : str;  (* of its [ModuleCloser] *)
}.
Definition new_module (name version handle : str) : Module := MkModule name version [] (name ++ bs "/" ++ version) handle.
Definition setFilename (v : str) (m : Module) : Module := MkModule (m_name m) (m_version m) v (m_id m) (m_handle m).

Inductive event :=
| Opened (path : str) | Closed (path : str)
| Created (p : ptr) | Destroyed (p : ptr)
| ConfLoaded
| Added (p : ptr) | Unloaded (p : ptr)
| Connected (p : ptr) (stream : nat) | Disconnected (p : ptr) (stream : nat).
#[export] Instance event_eq_decision : EqDecision event.
Proof. solve_decision. Defined.

Record world := MkWorld {
  m_modules : list (str * ptr);
  objects : gmap ptr (Module * nat);  (* with its shared pointers *)
  fresh : ptr;
  log : list event;                   (* the last one first *)
}.
Definition empty : world := MkWorld [] ∅ 0 [].
Definition note (e : event) (w : world) : world := MkWorld (m_modules w) (objects w) (fresh w) (e :: log w).
Definition with_modules (l : list (str * ptr)) (w : world) : world := MkWorld l (objects w) (fresh w) (log w).
Definition with_objects (o : gmap ptr (Module * nat)) (w : world) : world := MkWorld (m_modules w) o (fresh w) (log w).

(** ** Shared pointers *)
Definition deref (p : ptr) (w : world) : outcome world Module :=
  match objects w !! p with Some (m, _) => Ret m w | None => UB end.
Definition retain (p : ptr) (w : world) : outcome world unit :=
  match objects w !! p with Some (m, n) => Ret tt (with_objects (<[p := (m, S n)]> (objects w)) w) | None => UB end.
(** [ModuleCloser::operator()] *)
Definition ModuleCloser (p : ptr) (m : Module) (w : world) : world :=
  note (Closed (m_handle m)) (note (Destroyed p) (with_objects (delete p (objects w)) w)).
Definition release (p : ptr) (w : world) : outcome world unit :=
  match objects w !! p with
  | Some (m, S (S n)) => Ret tt (with_objects (<[p := (m, S n)]> (objects w)) w)
  | Some (m, _) => Ret tt (ModuleCloser p m w)
  | None => UB
  end.
Fixpoint each {X} (f : X -> world -> outcome world unit) (l : list X) (w : world) : outcome world unit :=
  match l with [] => Ret tt w | x :: l => let* _, w := f x w in each f l w end.

(** ** [Library::GetModule] *)
Definition GetModule (dl : str -> library) (path : str) (w : world) : outcome world (option ptr) :=
  match dl path with
  | NoLibrary => Ret None w
  | NoCreate | NoDestory => Ret None (note (Closed path) (note (Opened path) w))
  | Creates None => UB
  | Creates (Some (name, version)) =>
      let p := fresh w in
      let m := setFilename path (new_module name version path) in
      Ret (Some p) (MkWorld (m_modules w) (<[p := (m, 1)]> (objects w)) (S p) (ConfLoaded :: Created p :: Opened path :: log w))
  end.

(** ** [ModuleManager] *)
Abbreviation lookup := (StdMap.lookup ltb).
Definition get (name : str) (w : world) : outcome world (option ptr) :=
  match lookup name (m_modules w) with
  | None => Ret None w
  | Some p => let* _, w := retain p w in Ret (Some p) w
  end.
Definition del (name : str) (w : world) : outcome world unit :=
  match lookup name (m_modules w) with
  | None => Ret tt w
  | Some p =>
      let* _, w := retain p w in
      let* _, w := release p (with_modules (StdMap.erase ltb fst name (m_modules w)) w) in
      release p (note (Unloaded p) w)
  end.
(** [add]: two critical sections; the second overwrites what is there. *)
Definition add_del (p : ptr) (w : world) : outcome world unit := let* m, w := deref p w in del (m_id m) w.
Definition add_put (p : ptr) (w : world) : outcome world unit :=
  let* m, w := deref p w in
  let* _, w := retain p w in
  let old := lookup (m_id m) (m_modules w) in
  let w := note (Added p) (with_modules (StdMap.assign ltb (m_id m) p (m_modules w)) w) in
  match old with None => Ret tt w | Some q => release q w end.
Definition add (p : ptr) (w : world) : outcome world unit := let* _, w := add_del p w in add_put p w.
Definition delAll (w : world) : outcome world unit :=
  let tmp := m_modules w in
  let* _, w := each retain (snd <$> tmp) w in
  let* _, w := each del (fst <$> tmp) w in
  each release (snd <$> tmp) w.
Definition listAll (w : world) : outcome world (list ptr) :=
  let ms := snd <$> m_modules w in let* _, w := each retain ms w in Ret ms w.
Definition tell (e : ptr -> event) (p : ptr) (w : world) : outcome world unit := let* _, w := deref p w in Ret tt (note (e p) w).
Definition onConnect (stream : nat) (w : world) : outcome world unit :=
  let* ms, w := listAll w in let* _, w := each (tell (fun p => Connected p stream)) ms w in each release ms w.
Definition onDisconnect (stream : nat) (w : world) : outcome world unit :=
  let* ms, w := listAll w in let* _, w := each (tell (fun p => Disconnected p stream)) ms w in each release ms w.

Section loading.
Context (dl : str -> library).
Definition initModule (path : str) (w : world) : outcome world unit :=
  let* m, w := GetModule dl path w in
  match m with Some p => let* _, w := add p w in release p w | None => Ret tt w end.
(** [init], with the files that [ListAllFile] found. *)
Definition init (files : list str) (w : world) : outcome world unit := each initModule (StdMap.sort_strings files) w.

(** *** A client

    It may hold pointers of its own, from [get] and [GetModule]. *)
Inductive op :=
| OInit (files : list str) | OLoad (path : str) | OAdd (i : nat) | ODel (name : str) | ODelAll
| OGet (name : str) | ORelease (i : nat) | OConnect (stream : nat) | ODisconnect (stream : nat).
Definition exec (o : op) (held : list ptr) (w : world) : outcome world (list ptr) :=
  match o with
  | OInit files => let* _, w := init files w in Ret held w
  | OLoad path => let* p, w := GetModule dl path w in Ret (option_list p ++ held) w
  | OAdd i => match held !! i with Some p => let* _, w := add p w in Ret held w | None => Ret held w end
  | ODel name => let* _, w := del name w in Ret held w
  | ODelAll => let* _, w := delAll w in Ret held w
  | OGet name => let* p, w := get name w in Ret (option_list p ++ held) w
  | ORelease i => match held !! i with Some p => let* _, w := release p w in Ret (delete i held) w | None => Ret held w end
  | OConnect s => let* _, w := onConnect s w in Ret held w
  | ODisconnect s => let* _, w := onDisconnect s w in Ret held w
  end.
Fixpoint run (os : list op) (held : list ptr) (w : world) : outcome world (list ptr) :=
  match os with [] => Ret held w | o :: os => let* held, w := exec o held w in run os held w end.
End loading.

(** ** Accounts *)
Definition occ {X} `{EqDecision X} (x : X) (l : list X) : nat := length (filter (eq x) l).
Arguments occ : simpl never.
Definition handle_of (path : str) (x : Module * nat) : nat := if decide (m_handle (fst x) = path) then 1 else 0.
(** Modules from a file that are there. *)
Definition live (path : str) (o : gmap ptr (Module * nat)) : nat := sum_list_with (handle_of path ∘ snd) (map_to_list o).
Definition there (p : ptr) (w : world) : nat := match objects w !! p with Some _ => 1 | None => 0 end.
Definition use_count (p : ptr) (w : world) : nat := match objects w !! p with Some (_, n) => n | None => 0 end.

Record accounted (held : list ptr) (w : world) : Prop := {
  acc_sorted : StdMap.map_sorted ltb (m_modules w);
  acc_keys k p : (k, p) ∈ m_modules w -> exists m n, objects w !! p = Some (m, n) /\ m_id m = k;
  acc_count p : use_count p w = occ p (snd <$> m_modules w) + occ p held;
  acc_live p m n : objects w !! p = Some (m, n) -> 0 < n /\ p < fresh w;
  acc_files path : occ (Opened path) (log w) = occ (Closed path) (log w) + live path (objects w);
  acc_once p : occ (Created p) (log w) = if decide (p < fresh w) then 1 else 0;
  acc_ends p : occ (Created p) (log w) = occ (Destroyed p) (log w) + there p w;
  acc_unloads p : occ (Added p) (log w) = occ (Unloaded p) (log w) + occ p (snd <$> m_modules w);
}.

Lemma occ_cons {X} `{EqDecision X} (x y : X) l : occ x (y :: l) = (if decide (x = y) then 1 else 0) + occ x l.
Proof. unfold occ. rewrite filter_cons. by case_decide. Qed.
#[export] Instance occ_proper {X} `{EqDecision X} (x : X) : Proper ((≡ₚ) ==> (=)) (occ x).
Proof. intros l k Hl. unfold occ. by rewrite Hl. Qed.
Lemma occ_pos {X} `{EqDecision X} (x : X) l : x ∈ l <-> 0 < occ x l.
Proof. induction l as [|y l IH]; [unfold occ; cbn; set_solver by lia|]. rewrite occ_cons, elem_of_cons, IH. case_decide; naive_solver lia. Qed.
Lemma live_insert path p x o : o !! p = None -> live path (<[p := x]> o) = handle_of path x + live path o.
Proof. intros Hp. unfold live. by rewrite map_to_list_insert by done. Qed.
Lemma live_delete path p x o : o !! p = Some x -> live path o = handle_of path x + live path (delete p o).
Proof. intros Hp. rewrite <- (live_insert path p) by by rewrite lookup_delete_eq. by rewrite insert_delete_id. Qed.
Lemma live_update path p m n n' o : o !! p = Some (m, n) -> live path (<[p := (m, n')]> o) = live path o.
Proof. intros Hp. rewrite (live_delete path p (m, n) o Hp), <- insert_delete_eq, live_insert; [done|]. by rewrite lookup_delete_eq. Qed.
#[export] Instance accounted_proper : Proper ((≡ₚ) ==> (=) ==> iff) accounted.
Proof.
  assert (forall l k w, l ≡ₚ k -> accounted l w -> accounted k w) as H; [|intros l k Hl w ? <-; split; by apply H].
  intros l k w Hl [H1 H2 H3 H4 H5 H6 H7 H8]. split; try done. intros p. by rewrite <- Hl.
Qed.

(** The modules that are left keep their identity. *)
Definition kept (w w' : world) : Prop := forall p m n, objects w' !! p = Some (m, n) -> exists n', objects w !! p = Some (m, n').
Lemma mod_kept_refl w : kept w w.
Proof. intros p m n. eauto. Qed.
Lemma held_there held w p : accounted held w -> p ∈ held -> exists m n, objects w !! p = Some (m, n).
Proof.
  intros Ha Hp%occ_pos. pose proof (acc_count _ _ Ha p) as Hc. unfold use_count in Hc. destruct (objects w !! p) as [[m n]|]; [by eauto|lia].
Qed.


(** *** Pointers *)
Ltac tally H := let Hx := fresh in pose proof H as Hx; rewrite ?occ_cons in *; repeat case_decide; simplify_eq; try done; lia.
(** Another count of pointers to one module. *)
Lemma recount_ok held held' w p m n n' :
  accounted held w -> objects w !! p = Some (m, n) -> 0 < n' ->
  (forall q, occ q (snd <$> m_modules w) + occ q held' = if decide (q = p) then n' else use_count q w) ->
  let w' := with_objects (<[p := (m, n')]> (objects w)) w in accounted held' w' /\ kept w w'.
Proof.
  intros [H1 H2 H3 H4 H5 H6 H7 H8] Hp Hn Hc w'.
  assert (forall q, objects w' !! q = if decide (q = p) then Some (m, n') else objects w !! q) as Hq.
  { intros q. cbn. case_decide; [subst; apply lookup_insert_eq|by apply lookup_insert_ne]. }
  subst w'. split; [split; cbn [m_modules log fresh]|].
  - done.
  - intros k q Hk. destruct (H2 k q Hk) as (mq & nq & Ho & Hid). rewrite Hq. case_decide; simplify_eq; eauto.
  - intros q. specialize (Hc q). unfold use_count in *. rewrite Hq. cbn. by destruct (decide (q = p)).
  - intros q mq nq. rewrite Hq. case_decide; [|apply H4]. intros [= <- <-]. subst. split; [done|]. by destruct (H4 p m n Hp).
  - intros path. cbn. rewrite (live_update path p m n) by done. apply H5.
  - done.
  - intros q. cbn [log with_objects]. rewrite H7. unfold there. rewrite Hq. case_decide; [by subst; rewrite Hp|done].
  - done.
  - intros q mq nq. rewrite Hq. case_decide; [|eauto]. intros [= <- <-]. subst. eauto.
Qed.
Lemma ptr_retain_ok held w p m n :
  accounted held w -> objects w !! p = Some (m, n) ->
  exists w', retain p w = Ret tt w' /\ accounted (p :: held) w' /\ m_modules w' = m_modules w /\ kept w w'.
Proof.
  intros Ha Hp. unfold retain. rewrite Hp. destruct (recount_ok held (p :: held) w p m n (S n) Ha Hp) as [H1 H2]; [lia|..|by eexists].
  intros q. rewrite occ_cons. pose proof (acc_count _ _ Ha q) as Hc. case_decide; [|lia]. subst. unfold use_count in Hc. rewrite Hp in Hc. lia.
Qed.
Lemma ptr_release_ok held w p :
  accounted (p :: held) w -> exists w', release p w = Ret tt w' /\ accounted held w' /\ m_modules w' = m_modules w /\ kept w w'.
Proof.
  intros Ha. destruct (held_there _ _ p Ha) as (m & n & Hp); [set_solver|]. pose proof (acc_count _ _ Ha p) as Hc. rewrite occ_cons, decide_True in Hc by done.
  unfold use_count in Hc. rewrite Hp in Hc. unfold release. rewrite Hp. destruct n as [|[|n]].
  - lia.
  - destruct Ha as [H1 H2 H3 H4 H5 H6 H7 H8].
    assert (forall q, delete p (objects w) !! q = if decide (q = p) then None else objects w !! q) as Hq.
    { intros q. case_decide; [subst; apply lookup_delete_eq|by apply lookup_delete_ne]. }
    eexists. split; [done|]. split_and!; cbn; [split; cbn|..].
    + done.
    + intros k q Hk. destruct (H2 k q Hk) as (mq & nq & Ho & Hid). rewrite Hq. case_decide; [|eauto]. subst.
      assert (p ∈ snd <$> m_modules w) as Hin%occ_pos by (apply list_elem_of_fmap; by eexists (_, p)). lia.
    + intros q. specialize (H3 q). unfold use_count in *. cbn. rewrite occ_cons in H3. rewrite Hq. destruct (decide (q = p)) as [->|]; [lia|done].
    + intros q mq nq. rewrite Hq. case_decide; [done|apply H4].
    + intros path. rewrite !occ_cons, H5, (live_delete path p (m, 1)) by done. unfold handle_of. cbn. repeat case_decide; simplify_eq; lia.
    + intros q. tally (H6 q).
    + intros q. rewrite !occ_cons, H7. unfold there. cbn. rewrite Hq. destruct (decide (q = p)) as [->|]; [rewrite Hp|]; repeat case_decide; simplify_eq; lia.
    + intros q. tally (H8 q).
    + done.
    + intros q mq nq. cbn. rewrite Hq. case_decide; [done|eauto].
  - destruct (recount_ok (p :: held) held w p m (S (S n)) (S n) Ha Hp) as [H1 H2]; [lia|..|by eexists].
    intros q. pose proof (acc_count _ _ Ha q) as Hc'. rewrite occ_cons in Hc'. destruct (decide (q = p)) as [->|]; lia.
Qed.

(** *** Operations *)
Lemma value_there held w p : accounted held w -> p ∈ snd <$> m_modules w -> exists m n, objects w !! p = Some (m, n).
Proof. intros Ha ([k q] & -> & Hq)%list_elem_of_fmap. destruct (acc_keys _ _ Ha k q Hq) as (m & n & Ho & _). eauto. Qed.
Lemma lookup_elem (k : str) (p : ptr) l : StdMap.map_sorted ltb l -> lookup k l = Some p -> (k, p) ∈ l /\ l ≡ₚ (k, p) :: StdMap.erase ltb fst k l.
Proof.
  intros Hs Hl. unfold StdMap.lookup in Hl. apply fmap_Some in Hl as ([k' p'] & Hf & ->). pose proof Hf as Hf'.
  apply (StdMap.find_spec ltb fst) in Hf' as [Hin Hk]; [|done]. rewrite StdMap.equivb_string in Hk. apply bool_decide_eq_true in Hk. cbn in Hk. subst k'.
  split; [done|]. by apply (StdMap.erase_Permutation ltb).
Qed.

Lemma mgr_del_ok held w k :
  accounted held w -> exists w', del k w = Ret tt w' /\ accounted held w' /\ m_modules w' = StdMap.erase ltb fst k (m_modules w) /\ kept w w'.
Proof.
  intros Ha. unfold del. destruct (lookup k (m_modules w)) as [p|] eqn:Ek.
  2:{ exists w. split_and!; [done|done|by rewrite (StdMap.erase_absent ltb)|apply mod_kept_refl]. }
  destruct (lookup_elem k p (m_modules w) (acc_sorted _ _ Ha) Ek) as [Hin Hperm]. destruct (acc_keys _ _ Ha k p Hin) as (m & n & Ho & Hid).
  destruct (acc_live _ _ Ha p m n Ho) as [Hn _]. destruct n as [|n]; [lia|].
  assert (accounted (p :: held) (note (Unloaded p) (with_modules (StdMap.erase ltb fst k (m_modules w)) w))) as Ha'.
  { destruct Ha as [H1 H2 H3 H4 H5 H6 H7 H8]. split; cbn.
    all: try done.
    - by apply (StdMap.erase_sorted ltb fst).
    - intros k' q Hq. apply H2. rewrite Hperm. by right.
    - intros q. pose proof (H3 q) as Hc. rewrite Hperm in Hc. cbn in Hc. rewrite occ_cons in *. unfold use_count in *. cbn in *. lia.
    - intros q. pose proof (H8 q) as Hc. rewrite Hperm in Hc. cbn in Hc. rewrite !occ_cons in *. repeat case_decide; simplify_eq; lia. }
  destruct (ptr_release_ok held _ p Ha') as (w' & Hr & Hw' & Hm & Hk). exists w'. unfold retain. rewrite Ho. cbn [obind].
  unfold release at 1. cbn [objects with_modules with_objects]. rewrite lookup_insert_eq. cbn [obind with_objects objects with_modules].
  rewrite insert_insert_eq, insert_id by done. split_and!; [|done|done|]; [|done]. rewrite <- Hr. done.
Qed.

Lemma add_ok held w p : accounted held w -> p ∈ held -> exists w', add p w = Ret tt w' /\ accounted held w'.
Proof.
  intros Ha Hp. destruct (held_there _ _ p Ha Hp) as (m & n & Ho). destruct (mgr_del_ok held w (m_id m) Ha) as (w1 & Hd & Ha1 & Hm1 & Hk1).
  destruct (held_there _ _ p Ha1 Hp) as (m' & n1 & Ho1). destruct (Hk1 p m' n1 Ho1) as [n' Ho']. rewrite Ho in Ho'. injection Ho' as <- <-.
  assert (lookup (m_id m) (m_modules w1) = None) as Hnone.
  { rewrite Hm1, (StdMap.lookup_erase ltb) by apply (acc_sorted _ _ Ha). rewrite StdMap.equivb_string, bool_decide_true by done. done. }
  destruct (ptr_retain_ok held w1 p m n1 Ha1 Ho1) as (w2 & Hr & Ha2 & Hm2 & Hk2). rewrite <- Hm2 in Hnone.
  destruct (held_there _ _ p Ha2) as (m2 & n2 & Ho2); [by left|]. destruct (Hk2 p m2 n2 Ho2) as [n1' Ho1']. rewrite Ho1 in Ho1'. injection Ho1' as <- <-.
  unfold add, add_del, add_put, deref. rewrite Ho. cbn [obind]. rewrite Hd. cbn [obind]. rewrite Ho1. cbn [obind]. rewrite Hr. cbn [obind]. rewrite Hnone.
  eexists. split; [done|]. pose proof (StdMap.assign_Permutation ltb (m_id m) p _ Hnone) as Hperm. destruct Ha2 as [H1 H2 H3 H4 H5 H6 H7 H8]. split; cbn.
  all: try done.
  - by apply (StdMap.assign_sorted ltb).
  - intros k q Hq. rewrite Hperm in Hq. apply elem_of_cons in Hq as [Hq|Hq]; [injection Hq as -> ->; eauto|by apply H2].
  - intros q. unfold use_count. cbn. rewrite Hperm. cbn. pose proof (H3 q) as Hc. unfold use_count in Hc. rewrite occ_cons in *. lia.
  - intros q. rewrite Hperm. cbn. tally (H8 q).
Qed.
Lemma GetModule_ok dl held w path :
  accounted held w -> dl path <> Creates None -> exists r w', GetModule dl path w = Ret r w' /\ accounted (option_list r ++ held) w'.
Proof.
  intros [H1 H2 H3 H4 H5 H6 H7 H8] Hd. unfold GetModule. destruct (dl path) as [| | |[[name version]|]]; [| | | |done].
  1: by exists None, w.
  1,2: exists None; eexists; split; [done|]; split; cbn; try done; intros q; first [tally (H5 q) | tally (H6 q) | tally (H7 q) | tally (H8 q)].
  assert (objects w !! fresh w = None) as Hf.
  { destruct (objects w !! fresh w) as [[m n]|] eqn:E; [|done]. destruct (H4 _ _ _ E). lia. }
  exists (Some (fresh w)). eexists. split; [done|]. split; cbn.
  - done.
  - intros k q Hq. destruct (H2 k q Hq) as (m & n & Ho & Hid). exists m, n. split; [|done]. rewrite lookup_insert_ne; [done|]. intros <-. congruence.
  - intros q. pose proof (H3 q) as Hc. unfold use_count in *. cbn. rewrite occ_cons. destruct (decide (q = fresh w)) as [->|]; [rewrite lookup_insert_eq, Hf in *; lia|].
    by rewrite lookup_insert_ne by done.
  - intros q m n. destruct (decide (q = fresh w)) as [->|]; [rewrite lookup_insert_eq; intros [= <- <-]; lia|]. rewrite lookup_insert_ne by done. intros Ho. destruct (H4 _ _ _ Ho). lia.
  - intros q. rewrite live_insert by done. unfold handle_of. cbn. tally (H5 q).
  - intros q. pose proof (H6 q) as Hc. rewrite !occ_cons. destruct (decide (q = fresh w)) as [->|]; repeat case_decide; simplify_eq; try lia; congruence.
  - intros q. pose proof (H6 q) as Hc. pose proof (H7 q) as Hc'. rewrite !occ_cons. unfold there in *. cbn.
    destruct (decide (q = fresh w)) as [->|]; [rewrite lookup_insert_eq; rewrite Hf in Hc'|rewrite lookup_insert_ne by done]; repeat case_decide; simplify_eq; try lia; congruence.
  - intros q. tally (H8 q).
Qed.

(** *** Loops *)
Lemma each_retain_ok ps held w :
  accounted held w -> (forall p, p ∈ ps -> p ∈ snd <$> m_modules w) ->
  exists w', each retain ps w = Ret tt w' /\ accounted (ps ++ held) w' /\ m_modules w' = m_modules w.
Proof.
  revert held w. induction ps as [|p ps IH]; intros held w Ha Hps; [by exists w|]. destruct (value_there held w p Ha) as (m & n & Ho); [apply Hps; by left|].
  destruct (ptr_retain_ok held w p m n Ha Ho) as (w1 & Hr & Ha1 & Hm1 & _). destruct (IH (p :: held) w1 Ha1) as (w2 & He & Ha2 & Hm2); [rewrite Hm1; intros; apply Hps; by right|].
  exists w2. cbn [each]. rewrite Hr. split_and!; [done| |congruence]. by rewrite <- Permutation_middle in Ha2.
Qed.
Lemma each_release_ok ps held w :
  accounted (ps ++ held) w -> exists w', each release ps w = Ret tt w' /\ accounted held w' /\ m_modules w' = m_modules w.
Proof.
  revert w. induction ps as [|p ps IH]; intros w Ha; [by exists w|]. destruct (ptr_release_ok (ps ++ held) w p Ha) as (w1 & Hr & Ha1 & Hm1 & _).
  destruct (IH w1 Ha1) as (w2 & He & Ha2 & Hm2). exists w2. cbn [each]. rewrite Hr. split_and!; [done|done|congruence].
Qed.
Lemma each_del_ok ks held w :
  accounted held w -> exists w', each del ks w = Ret tt w' /\ accounted held w' /\ m_modules w' = foldl (fun l k => StdMap.erase ltb fst k l) (m_modules w) ks.
Proof.
  revert w. induction ks as [|k ks IH]; intros w Ha; [by exists w|]. destruct (mgr_del_ok held w k Ha) as (w1 & Hr & Ha1 & Hm1 & _).
  destruct (IH w1 Ha1) as (w2 & He & Ha2 & Hm2). exists w2. cbn [each foldl]. rewrite Hr, <- Hm1. split_and!; done.
Qed.
Lemma erase_all (l : list (str * ptr)) : foldl (fun l k => StdMap.erase ltb fst k l) l (fst <$> l) = [].
Proof. induction l as [|[k p] l IH]; [done|]. cbn. by rewrite StdMap.swo_irrefl. Qed.
Lemma delAll_ok held w : accounted held w -> exists w', delAll w = Ret tt w' /\ accounted held w' /\ m_modules w' = [].
Proof.
  intros Ha. unfold delAll. destruct (each_retain_ok (snd <$> m_modules w) held w Ha) as (w1 & H1 & Ha1 & Hm1); [done|]. rewrite H1. cbn [obind].
  destruct (each_del_ok (fst <$> m_modules w) _ w1 Ha1) as (w2 & H2 & Ha2 & Hm2). rewrite H2. cbn [obind].
  destruct (each_release_ok _ _ w2 Ha2) as (w3 & H3 & Ha3 & Hm3). exists w3. split_and!; [done|done|]. by rewrite Hm3, Hm2, Hm1, erase_all.
Qed.
Lemma each_tell_ok e ps held w :
  (e = Connected \/ e = Disconnected) -> forall stream, accounted held w -> (forall p, p ∈ ps -> p ∈ held) ->
  exists w', each (tell (fun p => e p stream)) ps w = Ret tt w' /\ accounted held w'.
Proof.
  intros He stream. revert w. induction ps as [|p ps IH]; intros w Ha Hps; [by exists w|]. destruct (held_there _ _ p Ha) as (m & n & Ho); [apply Hps; by left|].
  assert (accounted held (note (e p stream) w)) as Ha1 by (destruct Ha; destruct He; subst e; split; done).
  destruct (IH _ Ha1) as (w' & Hw & Ha'); [intros; apply Hps; by right|]. exists w'. cbn [each]. unfold tell at 1, deref. rewrite Ho. by split.
Qed.
Lemma onConnect_ok held w e stream :
  (e = Connected \/ e = Disconnected) -> accounted held w ->
  exists w', (let* ms, w := listAll w in let* _, w := each (tell (fun p => e p stream)) ms w in each release ms w) = Ret tt w' /\ accounted held w'.
Proof.
  intros He Ha. unfold listAll. destruct (each_retain_ok (snd <$> m_modules w) held w Ha) as (w1 & H1 & Ha1 & Hm1); [done|]. rewrite H1. cbn [obind].
  destruct (each_tell_ok e (snd <$> m_modules w) _ w1 He stream Ha1) as (w2 & H2 & Ha2); [set_solver|]. rewrite H2. cbn [obind].
  destruct (each_release_ok _ _ w2 Ha2) as (w3 & H3 & Ha3 & _). by exists w3.
Qed.

(** *** Clients *)
Section client.
Context (dl : str -> library) (Hdl : forall path, dl path <> Creates None).
Lemma initModule_ok held w path : accounted held w -> exists w', initModule dl path w = Ret tt w' /\ accounted held w'.
Proof.
  intros Ha. unfold initModule. destruct (GetModule_ok dl held w path Ha (Hdl path)) as ([p|] & w1 & Hg & Ha1); rewrite Hg; cbn [obind]; [|by exists w1].
  destruct (add_ok _ w1 p Ha1) as (w2 & Hadd & Ha2); [by left|]. rewrite Hadd. cbn [obind]. destruct (ptr_release_ok _ w2 p Ha2) as (w3 & Hr & Ha3 & _). by exists w3.
Qed.
Lemma each_init_ok files held w : accounted held w -> exists w', each (initModule dl) files w = Ret tt w' /\ accounted held w'.
Proof.
  revert w. induction files as [|f files IH]; intros w Ha; [by exists w|]. destruct (initModule_ok held w f Ha) as (w1 & Hi & Ha1). cbn [each]. rewrite Hi. by apply IH.
Qed.
Lemma client_op_ok o held w : accounted held w -> exists held' w', exec dl o held w = Ret held' w' /\ accounted held' w'.
Proof.
  intros Ha. destruct o as [files|path|i|name| |name|i|s|s]; cbn [exec].
  - destruct (each_init_ok (StdMap.sort_strings files) held w Ha) as (w' & Hi & Ha'). unfold init. rewrite Hi. by exists held, w'.
  - destruct (GetModule_ok dl held w path Ha (Hdl path)) as (r & w' & Hg & Ha'). rewrite Hg. by eexists _, w'.
  - destruct (held !! i) as [p|] eqn:Ei; [|by exists held, w]. destruct (add_ok held w p Ha) as (w' & Hi & Ha'); [by eapply list_elem_of_lookup_2|]. rewrite Hi. by exists held, w'.
  - destruct (mgr_del_ok held w name Ha) as (w' & Hi & Ha' & _). rewrite Hi. by exists held, w'.
  - destruct (delAll_ok held w Ha) as (w' & Hi & Ha' & _). rewrite Hi. by exists held, w'.
  - unfold get. destruct (lookup name (m_modules w)) as [p|] eqn:Ek; [|by eexists _, w].
    destruct (lookup_elem name p (m_modules w) (acc_sorted _ _ Ha) Ek) as [Hin _]. destruct (acc_keys _ _ Ha name p Hin) as (m & n & Ho & _).
    destruct (ptr_retain_ok held w p m n Ha Ho) as (w' & Hr & Ha' & _). rewrite Hr. by eexists _, w'.
  - destruct (held !! i) as [p|] eqn:Ei; [|by exists held, w]. rewrite (delete_Permutation held i p Ei) in Ha.
    destruct (ptr_release_ok _ w p Ha) as (w' & Hr & Ha' & _). rewrite Hr. by eexists _, w'.
  - destruct (onConnect_ok held w Connected s ltac:(by left) Ha) as (w' & Hw & Ha'). unfold onConnect. rewrite Hw. by exists held, w'.
  - destruct (onConnect_ok held w Disconnected s ltac:(by right) Ha) as (w' & Hw & Ha'). unfold onDisconnect. rewrite Hw. by exists held, w'.
Qed.
Lemma run_ok os held w : accounted held w -> exists held' w', run dl os held w = Ret held' w' /\ accounted held' w'.
Proof.
  revert held w. induction os as [|o os IH]; intros held w Ha; [by exists held, w|]. destruct (client_op_ok o held w Ha) as (h1 & w1 & He & Ha1). cbn [run]. rewrite He. by apply IH.
Qed.
End client.
Lemma accounted_empty : accounted [] empty.
Proof.
  split; cbn; try done.
  - apply SSorted_nil.
  - set_solver.
Qed.
Lemma nothing_left w : accounted [] w -> m_modules w = [] -> objects w = ∅.
Proof.
  intros Ha Hm. apply map_eq. intros p. rewrite lookup_empty. destruct (objects w !! p) as [[m n]|] eqn:Ho; [|done].
  pose proof (acc_count _ _ Ha p) as Hc. destruct (acc_live _ _ Ha p m n Ho). unfold use_count in Hc. rewrite Ho, Hm in Hc. unfold occ in Hc. cbn in Hc. lia.
Qed.

(** C23. Modules are accounted for: whatever a client does with the manager and its
    pointers, in any order, no operation uses a module that is gone; the manager
    keeps each module under its id; a module is there as long as the manager or
    the client has a pointer to it, its file stays open as long, and it is
    destroyed once; it is told to unload as often as the manager gave it up; and
    when the client has no pointer left, [delAll] unloads and destroys every
    module and closes every file. *)
Theorem modules_accounted (dl : str -> library) (os : list op) :
  (forall path, dl path <> Creates None) ->
  exists held w, run dl os [] empty = Ret held w
  /\ (forall k p, lookup k (m_modules w) = Some p -> exists m n, objects w !! p = Some (m, n) /\ m_id m = k)
  /\ (forall p, is_Some (objects w !! p) <-> p ∈ held \/ p ∈ snd <$> m_modules w)
  /\ (forall path, occ (Opened path) (log w) = occ (Closed path) (log w) + live path (objects w))
  /\ (forall p, occ (Created p) (log w) = occ (Destroyed p) (log w) + there p w /\ occ (Created p) (log w) <= 1
        /\ occ (Added p) (log w) = occ (Unloaded p) (log w) + occ p (snd <$> m_modules w))
  /\ (held = [] -> exists w', delAll w = Ret tt w' /\ m_modules w' = [] /\ objects w' = ∅
        /\ (forall path, occ (Opened path) (log w') = occ (Closed path) (log w'))
        /\ (forall p, occ (Created p) (log w') = occ (Destroyed p) (log w') /\ occ (Added p) (log w') = occ (Unloaded p) (log w'))).
Proof.
  intros Hdl. destruct (run_ok dl Hdl os [] empty accounted_empty) as (held & w & Hr & Ha). exists held, w. split_and!.
  - done.
  - intros k p Hk. destruct (lookup_elem k p (m_modules w) (acc_sorted _ _ Ha) Hk) as [Hin _]. by apply (acc_keys _ _ Ha).
  - intros p. rewrite !occ_pos. pose proof (acc_count _ _ Ha p) as Hc. unfold use_count in Hc. split.
    + intros [[m n] Ho]. destruct (acc_live _ _ Ha p m n Ho). rewrite Ho in Hc. lia.
    + intros Hp. destruct (objects w !! p) as [[m n]|]; [done|lia].
  - apply (acc_files _ _ Ha).
  - intros p. split_and!; [apply (acc_ends _ _ Ha)| |apply (acc_unloads _ _ Ha)]. rewrite (acc_once _ _ Ha). case_decide; lia.
  - intros ->. destruct (delAll_ok [] w Ha) as (w' & Hd & Ha' & Hm). pose proof (nothing_left w' Ha' Hm) as Ho. exists w'. split_and!; try done.
    + intros path. rewrite (acc_files _ _ Ha'), Ho. unfold live. rewrite map_to_list_empty. cbn. lia.
    + intros p. rewrite (acc_ends _ _ Ha'), (acc_unloads _ _ Ha'). unfold there. rewrite Ho, Hm, lookup_empty. unfold occ. cbn. lia.
Qed.
(** Two files with one id, a third with another, and one that is no module. *)
Definition some_files (path : str) : library :=
  if decide (path = bs "a.so" \/ path = bs "b.so") then Creates (Some (bs "chat", bs "1.0")) else if decide (path = bs "c.so") then Creates (Some (bs "log", bs "1.0"))
  else if decide (path = bs "d.so") then NoCreate else NoLibrary.
Definition some_ops : list op := [OInit [bs "d.so"; bs "b.so"; bs "a.so"; bs "c.so"]; OConnect 3; OGet (bs "chat/1.0"); ODelAll; ORelease 0].
Lemma modules_accounted_witness :
  exists w, run some_files some_ops [] empty = Ret [] w /\ exists w', delAll w = Ret tt w' /\ objects w' = ∅ /\ occ (Unloaded 0) (log w') = 1.
Proof.
  destruct (modules_accounted some_files some_ops) as (held & w & Hr & _ & _ & _ & Hp & Hd).
  { intros path. unfold some_files. repeat case_decide; discriminate. }
  pose proof Hr as Hr'. vm_compute in Hr'. injection Hr' as <- Hw. destruct (Hd eq_refl) as (w' & Hw' & Hm & Ho & _ & Hp').
  exists w. split; [exact Hr|]. exists w'. split; [exact Hw'|]. split; [exact Ho|]. subst w. vm_compute in Hw'. injection Hw' as <-. reflexivity.
Defined.

(** *** What goes wrong *)

(** Two threads that add modules of one id at a time: both find none to delete,
    and the first is overwritten and destroyed without [onUnload]. *)
Lemma concurrent_adds_skip_unload :
  exists w, (let* p, w := GetModule some_files (bs "a.so") empty in let* q, w := GetModule some_files (bs "b.so") w in
             let* _, w := add_del 0 w in let* _, w := add_del 1 w in let* _, w := add_put 0 w in let* _, w := add_put 1 w in
             let* _, w := release 0 w in release 1 w) = Ret tt w
    /\ occ (Added 0) (log w) = 1 /\ occ (Destroyed 0) (log w) = 1 /\ occ (Unloaded 0) (log w) = 0.
Proof. eexists. split; [vm_compute; reflexivity|]. done. Qed.

End Modules.
