(* ===== verification/JsonUtil.v ===== *)
(** * JSON helpers: [luwu/luwu/util/json_util.cpp]

    Escaping, and the getters with defaults.  JsonCpp values are of a type with
    the operations the getters call; [isMember] throws on a value
    that is neither an object nor null.  [GetDouble] is left out. *)
From S2P Require Import Prelude StdString Ext.
Import StdString.
Local Open Scope Z_scope.

Module JsonUtil.

(** ** Escaping *)
(** The letter that stands for a character behind a backslash. *)
Definition backslash : byte := z2b 92.
Definition escape_table : list (byte * byte) :=
  [(z2b 12, z2b 102); (z2b 9, z2b 116); (z2b 13, z2b 114); (z2b 10, z2b 110); (z2b 8, z2b 98); (z2b 34, z2b 34); (z2b 92, z2b 92)].
Definition escape_letter (c : byte) : option byte := snd <$> List.find (fun p => bool_decide (fst p = c)) escape_table.
Definition NeedEscape (v : str) : bool := existsb (fun c => bool_decide (is_Some (escape_letter c))) v.
Definition escaped_size (v : str) : Z := fold_left (fun n c => n + match escape_letter c with Some _ => 2 | None => 1 end) v 0.
Definition escape_char (c : byte) : str := match escape_letter c with Some l => [backslash; l] | None => [c] end.
(** [rt.resize(size)] puts [size] NUL bytes into the result before the loop
    appends to it. *)
Definition Escape (v : str) : str :=
  let size := escaped_size v in
  if size =? zlen v then v else replicate (Z.to_nat size) (z2b 0) ++ flat_map escape_char v.

(** ** Getters *)
Class JsonCpp := {
  value : Type;
  find_member : value -> str -> outcome unit (option value);  (* [isMember] and [operator[]] *)
  as_string : value -> option str;                            (* [isString], [asString] *)
  as_int : value -> option Z;                                 (* [isInt], [asInt] *)
  as_uint : value -> option Z;
  as_int64 : value -> option Z;
  as_uint64 : value -> option Z;
}.
Section getters.
Context `{J : JsonCpp}.

Definition GetString (json : value) (name default_value : str) : outcome unit str :=
  let* v, s := find_member json name in
  match v with Some v => match as_string v with Some x => Ret x s | None => Ret default_value s end | None => Ret default_value s end.
(** The integer getters: a value of the type, a string through [Atoi] and the
    conversion of [int64_t] to the type, or the default. *)
Definition get_number (as_num : value -> option Z) (convert : Z -> Z) (json : value) (name : str) (default_value : Z) : outcome unit Z :=
  let* v, s := find_member json name in
  match v with
  | None => Ret default_value s
  | Some v =>
      match as_num v with
      | Some n => Ret n s
      | None => match as_string v with Some x => Ret (convert (Ext.Atoi x)) s | None => Ret default_value s end
      end
  end.
Definition GetInt32 : value -> str -> Z -> outcome unit Z := get_number as_int s32.
Definition GetUint32 : value -> str -> Z -> outcome unit Z := get_number as_uint u32.
Definition GetInt64 : value -> str -> Z -> outcome unit Z := get_number as_int64 s64.
Definition GetUint64 : value -> str -> Z -> outcome unit Z := get_number as_uint64 u64.
End getters.

(** ** What [Escape] writes *)
(** A reader of the escapes. *)
Fixpoint unescape (s : str) : str :=
  match s with
  | [] => []
  | c :: r =>
      if bool_decide (c = backslash)
      then match r with
           | [] => []
           | l :: r => default l (fst <$> List.find (fun p => bool_decide (snd p = l)) escape_table) :: unescape r
           end
      else c :: unescape r
  end.

Lemma unescape_char c r : unescape (escape_char c ++ r) = c :: unescape r.
Proof.
  assert (forall c, match escape_letter c with
    | Some l => bool_decide (fst <$> List.find (fun p => bool_decide (snd p = l)) escape_table = Some c)
    | None => negb (bool_decide (c = backslash)) end = true) as H by (apply byte_forall; vm_compute; reflexivity).
  specialize (H c). unfold escape_char. destruct (escape_letter c) as [l|].
  - apply bool_decide_eq_true in H. cbn [app unescape]. rewrite bool_decide_true by done. by rewrite H.
  - apply negb_true_iff in H. cbn [app unescape]. by rewrite H.
Qed.
Lemma escape_char_len c : zlen (escape_char c) = match escape_letter c with Some _ => 2 | None => 1 end.
Proof. unfold escape_char. by destruct (escape_letter c). Qed.
Lemma escaped_size_acc v n : fold_left (fun n c => n + match escape_letter c with Some _ => 2 | None => 1 end) v n = n + zlen (flat_map escape_char v).
Proof.
  revert n. induction v as [|c v IH]; intros n; cbn [fold_left flat_map]; [rewrite zlen_nil; lia|]. rewrite IH, zlen_app, escape_char_len. lia.
Qed.
Lemma escaped_size_plain v : escaped_size v = zlen v <-> NeedEscape v = false.
Proof.
  assert (forall w, zlen w <= zlen (flat_map escape_char w)) as Hle.
  { intros w. induction w as [|c w IH]; [done|]. cbn [flat_map]. rewrite zlen_app, zlen_cons, escape_char_len. destruct (escape_letter c); lia. }
  unfold escaped_size, NeedEscape. rewrite escaped_size_acc, Z.add_0_l. induction v as [|c v IH]; [done|]. specialize (Hle v).
  cbn [flat_map existsb]. rewrite zlen_app, zlen_cons, escape_char_len. destruct (escape_letter c) as [l|].
  - rewrite bool_decide_true by by eexists. cbn [orb]. split; [lia|done].
  - rewrite bool_decide_false by by intros [? ?]. cbn [orb]. rewrite <- IH. lia.
Qed.
Lemma unescape_body v : unescape (flat_map escape_char v) = v.
Proof. induction v as [|c v IH]; [done|]. cbn [flat_map]. by rewrite unescape_char, IH. Qed.

(** A text that needs no escape is returned as it is; of any other the result is
    a block of NUL bytes, as long as the escaped text, and then the escaped
    text, from which a reader recovers the original. *)
Theorem escape_result (v : str) :
  (NeedEscape v = false -> Escape v = v)
  /\ (NeedEscape v = true -> exists body, Escape v = replicate (Z.to_nat (escaped_size v)) (z2b 0) ++ body
        /\ zlen body = escaped_size v /\ unescape body = v /\ 0 < escaped_size v).
Proof.
  pose proof (escaped_size_plain v) as Hs. unfold Escape. split; intros Hn.
  - apply Hs in Hn as ->. by rewrite Z.eqb_refl.
  - exists (flat_map escape_char v). assert (escaped_size v = zlen (flat_map escape_char v)) as E by (unfold escaped_size; by rewrite escaped_size_acc).
    destruct (Z.eqb_spec (escaped_size v) (zlen v)) as [Heq|_]; [apply Hs in Heq; congruence|]. split_and!; [done|done|apply unescape_body|].
    rewrite E. destruct v as [|c v]; [done|]. cbn [flat_map]. rewrite zlen_app, escape_char_len. pose proof (zlen_nonneg (flat_map escape_char v)).
    destruct (escape_letter c); lia.
Qed.
Theorem escape_starts_with_nul : Escape (bs "a\b") = replicate 4 (z2b 0) ++ bs "a\\b".
Proof. vm_compute. reflexivity. Qed.

(** ** Numbers in strings *)
(** A number that is sent as a string is read back, if it is in the range of
    the getter; for [uint64_t] if it is in that of [int64_t], through which
    [Atoi] goes. *)
Theorem getters_read_strings `{J : JsonCpp} (json v : value) (name : str) (d n : Z) :
  find_member json name = Ret (Some v) tt -> as_string v = Some (to_string n) ->
  (as_int v = None -> in_s 32 n -> GetInt32 json name d = Ret n tt)
  /\ (as_uint v = None -> in_u 32 n -> GetUint32 json name d = Ret n tt)
  /\ (as_int64 v = None -> in_s 64 n -> GetInt64 json name d = Ret n tt)
  /\ (as_uint64 v = None -> in_u 63 n -> GetUint64 json name d = Ret n tt).
Proof.
  intros Hf Hs. unfold GetInt32, GetUint32, GetInt64, GetUint64, get_number. rewrite Hf. cbn [obind]. rewrite Hs.
  assert (in_s 64 n -> Ext.Atoi (to_string n) = n) as Ha.
  { intros Hn. unfold Ext.Atoi. rewrite bool_decide_false; [by apply strtoull_to_string|]. unfold to_string. destruct (n <? 0); [done|apply dec_nonempty]. }
  split_and!; intros -> Hn; (rewrite Ha; [|unfold in_s, in_u in *; lia]); f_equal.
  - by apply sw_small.
  - by apply uw_small.
  - by apply sw_small.
  - apply uw_small. unfold in_u in *. lia.
Qed.

End JsonUtil.
