(* ===== verification/FdManager.v ===== *)
(** * Descriptors behind the hooks: [luwu/luwu/fd_manager.cpp]

    [FdManager] keeps for each descriptor whether it is a socket, whether the
    framework made it non-blocking in the kernel, whether the user asked for
    that, and its timeouts.  The kernel's side is a map from open descriptors
    to their kind and status flags.  The pointers that [get] gives out are
    used before the table can change, so a context is its entry. *)
From S2P Require Import Prelude.
Local Open Scope Z_scope.

Module FdManager.

(** ** Status flags in the kernel *)
Definition O_RDWR : Z := 0x2.
Definition O_NONBLOCK : Z := 0x800.
(** The flags that [F_SETFL] can change: O_APPEND, O_NONBLOCK, O_ASYNC,
    O_DIRECT and O_NOATIME; it ignores the others. *)
Definition SETFL_MASK : Z := 0x46C00.

Record kfile := MkKfile { k_socket : bool; k_flags : Z }.
Abbreviation kernel := (gmap Z kfile).

Definition is_nonblock (f : Z) : bool := negb (Z.land f O_NONBLOCK =? 0).
Definition set_nonblock (b : bool) (f : Z) : Z :=
  if b then Z.lor f O_NONBLOCK else Z.land f (Z.lnot O_NONBLOCK).

(** [fcntl(fd, F_GETFL)] and [fcntl(fd, F_SETFL, arg)] of the kernel. *)
Definition sys_getfl (fd : Z) (k : kernel) : Z := match k !! fd with Some d => k_flags d | None => -1 end.
Definition merge_flags (old arg : Z) : Z := Z.lor (Z.land old (Z.lnot SETFL_MASK)) (Z.land arg SETFL_MASK).
Definition sys_setfl (fd arg : Z) (k : kernel) : Z * kernel :=
  match k !! fd with
  | Some d => (0, <[fd := MkKfile (k_socket d) (merge_flags (k_flags d) arg)]> k)
  | None => (-1, k)
  end.

(** ** [FdContext] *)
Record FdContext := MkFdContext {
  m_isInit : bool;
  m_isSocket : bool;
  m_isSysNonBlock : bool;
  m_isUserNonBlock : bool;
  m_isClosed : bool;
  m_fd : Z;
  m_recvTimeout : Z;
  m_sendTimeout : Z;
}.

Definition no_timeout : Z := 2 ^ 64 - 1.
Definition SO_RCVTIMEO : Z := 20.
Definition SO_SNDTIMEO : Z := 21.

Definition setUserNonBlock (v : bool) (c : FdContext) : FdContext :=
  MkFdContext (m_isInit c) (m_isSocket c) (m_isSysNonBlock c) v (m_isClosed c) (m_fd c) (m_recvTimeout c) (m_sendTimeout c).
Definition setTimeout (type v : Z) (c : FdContext) : FdContext :=
  if type =? SO_RCVTIMEO
  then MkFdContext (m_isInit c) (m_isSocket c) (m_isSysNonBlock c) (m_isUserNonBlock c) (m_isClosed c) (m_fd c) v (m_sendTimeout c)
  else MkFdContext (m_isInit c) (m_isSocket c) (m_isSysNonBlock c) (m_isUserNonBlock c) (m_isClosed c) (m_fd c) (m_recvTimeout c) v.
Definition getTimeout (type : Z) (c : FdContext) : Z := if type =? SO_RCVTIMEO then m_recvTimeout c else m_sendTimeout c.

(** [init]: a socket becomes non-blocking in the kernel. *)
Definition init (c : FdContext) (k : kernel) : FdContext * kernel :=
  if m_isInit c then (c, k) else
  let '(ok, sock) := match k !! m_fd c with Some d => (true, k_socket d) | None => (false, false) end in
  let k := if sock then
             let flags := sys_getfl (m_fd c) k in
             if negb (is_nonblock flags) then snd (sys_setfl (m_fd c) (Z.lor flags O_NONBLOCK) k) else k
           else k in
  (MkFdContext ok sock sock false false (m_fd c) no_timeout no_timeout, k).

(** The constructor. *)
Definition new_FdContext (fd : Z) (k : kernel) : FdContext * kernel :=
  init (MkFdContext false false false false false fd no_timeout no_timeout) k.

(** ** [FdManager] *)
Record table := MkTable { m_fds : list (option FdContext); kern : kernel }.

Definition create (k : kernel) : table := MkTable (replicate 64 None) k.

(** [m_fds[fd]]; the bounds are the caller's. *)
Definition entry (fd : Z) (t : table) : option FdContext := if fd <? 0 then None else mjoin (m_fds t !! Z.to_nat fd).
Definition store (fd : Z) (c : option FdContext) (t : table) : table := MkTable (<[Z.to_nat fd := c]> (m_fds t)) (kern t).
Definition with_kern (k : kernel) (t : table) : table := MkTable (m_fds t) k.

(** [m_fds.resize(n)] to a larger size. *)
Definition resize (n : Z) (t : table) : table :=
  MkTable (m_fds t ++ replicate (Z.to_nat (n - zlen (m_fds t))) None) (kern t).

(** [get]: only [-1] is tested; another negative number indexes outside the
    vector, and [fd * 2] must fit an [int]. *)
Definition get (fd : Z) (auto_create : bool) : M table (option FdContext) := fun t =>
  if fd =? -1 then Ret None t
  else if fd <? 0 then UB
  else
    let found := if zlen (m_fds t) <=? fd then (if auto_create then None else Some None)
                 else if bool_decide (is_Some (entry fd t)) || negb auto_create then Some (entry fd t) else None in
    match found with
    | Some r => Ret r t
    | None =>
        let '(c, k) := new_FdContext fd (kern t) in
        let t := with_kern k t in
        if zlen (m_fds t) <=? fd
        then if 2 ^ 31 <=? fd * 2 then UB else Ret (Some c) (store fd (Some c) (resize (fd * 2) t))
        else Ret (Some c) (store fd (Some c) t)
    end.

Definition del (fd : Z) : M table unit := fun t =>
  if zlen (m_fds t) <=? fd then Ret tt t
  else if fd <? 0 then UB
  else Ret tt (store fd None t).

(** ** Flags, bit by bit *)
Lemma nonblock_bit i : 0 <= i -> Z.testbit O_NONBLOCK i = (i =? 11).
Proof. intros. change O_NONBLOCK with (2 ^ 11). rewrite Z.pow2_bits_eqb by lia. apply Z.eqb_sym. Qed.
Lemma is_nonblock_bit f : is_nonblock f = Z.testbit f 11.
Proof.
  unfold is_nonblock. destruct (Z.testbit f 11) eqn:E.
  - apply negb_true_iff, Z.eqb_neq. intros H. assert (Z.testbit (Z.land f O_NONBLOCK) 11 = false) as Hb by by rewrite H, Z.bits_0.
    by rewrite Z.land_spec, E in Hb.
  - apply negb_false_iff, Z.eqb_eq, Z.bits_inj'. intros i Hi. rewrite Z.land_spec, nonblock_bit, Z.bits_0 by done.
    destruct (Z.eqb_spec i 11) as [->|]; [by rewrite E|apply andb_false_r].
Qed.
Lemma set_nonblock_bit b f i : 0 <= i -> Z.testbit (set_nonblock b f) i = if i =? 11 then b else Z.testbit f i.
Proof.
  intros Hi. destruct b; simpl; rewrite ?Z.lor_spec, ?Z.land_spec, ?Z.lnot_spec, nonblock_bit by done;
    destruct (i =? 11); simpl; by rewrite ?orb_true_r, ?orb_false_r, ?andb_false_r, ?andb_true_r.
Qed.
Lemma mask_bit : Z.testbit SETFL_MASK 11 = true.
Proof. reflexivity. Qed.
Lemma merge_bit old arg i : 0 <= i -> Z.testbit (merge_flags old arg) i = if Z.testbit SETFL_MASK i then Z.testbit arg i else Z.testbit old i.
Proof.
  intros Hi. unfold merge_flags. rewrite Z.lor_spec, !Z.land_spec, Z.lnot_spec by done.
  destruct (Z.testbit SETFL_MASK i); simpl; by rewrite ?andb_false_r, ?andb_true_r, ?orb_false_r.
Qed.

Ltac flag_bits :=
  apply Z.bits_inj'; let i := fresh "i" in let Hi := fresh "Hi" in intros i Hi;
  rewrite ?set_nonblock_bit, ?merge_bit, ?set_nonblock_bit by done;
  destruct (Z.eqb_spec i 11) as [->|]; rewrite ?mask_bit, ?Z.eqb_refl; try done.

Lemma is_nonblock_set b f : is_nonblock (set_nonblock b f) = b.
Proof. by rewrite is_nonblock_bit, set_nonblock_bit. Qed.
Lemma set_nonblock_id f : set_nonblock (is_nonblock f) f = f.
Proof. rewrite is_nonblock_bit. flag_bits. Qed.
Lemma set_nonblock_twice b b' f : set_nonblock b (set_nonblock b' f) = set_nonblock b f.
Proof. flag_bits. Qed.
Lemma is_nonblock_merge old arg : is_nonblock (merge_flags old arg) = is_nonblock arg.
Proof. by rewrite !is_nonblock_bit, merge_bit. Qed.
(** The user's flags do not depend on what the kernel's O_NONBLOCK is. *)
Lemma set_nonblock_merge b b' u old arg :
  set_nonblock b (merge_flags old (set_nonblock b' arg)) = merge_flags (set_nonblock u old) (set_nonblock b arg).
Proof. flag_bits. Qed.

(** Making an open socket non-blocking. *)
Lemma merge_nonblock f : merge_flags f (Z.lor f O_NONBLOCK) = set_nonblock true f.
Proof. change (Z.lor f O_NONBLOCK) with (set_nonblock true f). flag_bits. by destruct (Z.testbit SETFL_MASK i). Qed.

(** A new context for an open descriptor. *)
Lemma new_FdContext_open fd d k :
  k !! fd = Some d ->
  new_FdContext fd k =
    (MkFdContext true (k_socket d) (k_socket d) false false fd no_timeout no_timeout,
     if k_socket d then <[fd := MkKfile true (set_nonblock true (k_flags d))]> k else k).
Proof.
  intros E. unfold new_FdContext, init. cbn [m_isInit m_fd]. rewrite E. destruct (k_socket d) eqn:Es; [|done].
  unfold sys_getfl, sys_setfl. rewrite E. destruct (is_nonblock (k_flags d)) eqn:Ef; cbn [negb].
  - pose proof (set_nonblock_id (k_flags d)) as Hid. rewrite Ef in Hid. rewrite Hid, insert_id; [done|].
    destruct d; simpl in *; congruence.
  - cbn [snd]. by rewrite Es, merge_nonblock.
Qed.

(** ** The table as a map *)
Lemma entry_store fd i c t : 0 <= fd < zlen (m_fds t) -> entry i (store fd c t) = if i =? fd then c else entry i t.
Proof.
  intros Hfd. unfold entry, store. cbn [m_fds]. destruct (Z.ltb_spec i 0), (Z.eqb_spec i fd); try done; try lia.
  - subst. rewrite list_lookup_insert_eq; [done|]. unfold zlen in Hfd. lia.
  - rewrite list_lookup_insert_ne by lia. done.
Qed.
Lemma entry_resize n i t : entry i (resize n t) = entry i t.
Proof.
  unfold entry, resize. cbn [m_fds]. destruct (i <? 0); [done|].
  destruct (m_fds t !! Z.to_nat i) as [c|] eqn:E; [by rewrite (lookup_app_l_Some _ _ _ _ E)|].
  apply lookup_ge_None in E. rewrite lookup_app_r by done.
  destruct (replicate _ None !! _) as [c|] eqn:E'; [|done]. apply lookup_replicate in E' as [-> _]. done.
Qed.
Lemma entry_outside fd t : zlen (m_fds t) <= fd -> entry fd t = None.
Proof. intros. unfold entry. destruct (fd <? 0); [done|]. rewrite lookup_ge_None_2; [done|]. unfold zlen in *. lia. Qed.
Lemma zlen_store fd c t : zlen (m_fds (store fd c t)) = zlen (m_fds t).
Proof. unfold zlen, store. cbn [m_fds]. by rewrite length_insert. Qed.
Lemma zlen_fds_resize n t : zlen (m_fds t) <= n -> zlen (m_fds (resize n t)) = n.
Proof. unfold resize, zlen. cbn [m_fds]. rewrite length_app, length_replicate. lia. Qed.

(** [get] without creation is a lookup. *)
Lemma get_lookup fd t : -1 <= fd -> get fd false t = Ret (entry fd t) t.
Proof.
  intros H. unfold get. destruct (Z.eqb_spec fd (-1)) as [->|]; [done|]. destruct (Z.ltb_spec fd 0); [lia|].
  destruct (Z.leb_spec (zlen (m_fds t)) fd) as [Hz|]; [by rewrite entry_outside|by rewrite orb_true_r].
Qed.

(** [get] with creation gives the context that is there, or makes one. *)
Lemma get_create fd t :
  0 <= fd < 2 ^ 30 -> 64 <= zlen (m_fds t) ->
  exists c t', get fd true t = Ret (Some c) t' /\ 64 <= zlen (m_fds t')
    /\ (forall i, entry i t' = if i =? fd then Some c else entry i t)
    /\ match entry fd t with
       | Some c0 => c = c0 /\ t' = t
       | None => (c, kern t') = new_FdContext fd (kern t)
       end.
Proof.
  intros Hfd Hz. unfold get. destruct (Z.eqb_spec fd (-1)); [lia|]. destruct (Z.ltb_spec fd 0); [lia|].
  destruct (Z.leb_spec (zlen (m_fds t)) fd) as [Hout|Hin].
  - destruct (new_FdContext fd (kern t)) as [c k]. change (m_fds (with_kern k t)) with (m_fds t).
    destruct (Z.leb_spec (zlen (m_fds t)) fd); [|lia]. destruct (Z.leb_spec (2 ^ 31) (fd * 2)); [lia|].
    assert (zlen (m_fds (resize (fd * 2) (with_kern k t))) = fd * 2) as Hr by (apply zlen_fds_resize; cbn [with_kern m_fds]; lia).
    exists c, (store fd (Some c) (resize (fd * 2) (with_kern k t))). split; [done|]. split; [rewrite zlen_store; lia|]. split.
    + intros i. rewrite entry_store by lia. rewrite entry_resize. done.
    + by rewrite entry_outside.
  - destruct (entry fd t) as [c0|] eqn:E; simpl.
    + exists c0, t. split_and!; try done. intros i. destruct (Z.eqb_spec i fd) as [->|]; done.
    + destruct (new_FdContext fd (kern t)) as [c k]. change (m_fds (with_kern k t)) with (m_fds t).
      destruct (Z.leb_spec (zlen (m_fds t)) fd); [lia|]. exists c, (store fd (Some c) (with_kern k t)).
      split; [done|]. split; [by rewrite zlen_store|]. split; [|done]. intros i. by rewrite entry_store by done.
Qed.

(** [del] empties the entry. *)
Lemma del_ok fd t :
  0 <= fd -> exists t', del fd t = Ret tt t' /\ kern t' = kern t /\ zlen (m_fds t') = zlen (m_fds t)
    /\ forall i, entry i t' = if i =? fd then None else entry i t.
Proof.
  intros Hfd. unfold del. destruct (Z.leb_spec (zlen (m_fds t)) fd) as [Hout|Hin].
  - exists t. split_and!; try done. intros i. destruct (Z.eqb_spec i fd) as [->|]; [by apply entry_outside|done].
  - destruct (Z.ltb_spec fd 0); [lia|]. exists (store fd None t). split_and!; try done; [by rewrite zlen_store|].
    intros i. by rewrite entry_store by lia.
Qed.

End FdManager.
