(* ===== verification/Hook.v ===== *)
(** * Hooks of the descriptor calls: [luwu/luwu/hook.cpp]

    The replacements of [socket], [close], [fcntl], [ioctl] and
    [setsockopt], and what [accept] does with a new descriptor.  They keep
    every socket non-blocking in the kernel and show the user the flags he
    set.  The hooks that wait ([do_io], [connect]) are in [HookIo].  The
    answers of the kernel that do not concern the flags are arguments. *)
From S2P Require Import Prelude IOManager FdManager.
Import FdManager.
Local Open Scope Z_scope.

Module Hook.

Definition F_DUPFD : Z := 0.
Definition F_GETFD : Z := 1.
Definition F_SETFD : Z := 2.
Definition F_GETFL : Z := 3.
Definition F_SETFL : Z := 4.
Definition F_GETLK : Z := 5.
Definition F_SETLK : Z := 6.
Definition F_SETLKW : Z := 7.
Definition F_SETOWN : Z := 8.
Definition F_GETOWN : Z := 9.
Definition F_SETSIG : Z := 10.
Definition F_GETSIG : Z := 11.
Definition F_SETOWN_EX : Z := 15.
Definition F_GETOWN_EX : Z := 16.
Definition F_SETLEASE : Z := 1024.
Definition F_GETLEASE : Z := 1025.
Definition F_NOTIFY : Z := 1026.
Definition F_DUPFD_CLOEXEC : Z := 1030.
Definition F_SETPIPE_SZ : Z := 1031.
Definition F_GETPIPE_SZ : Z := 1032.
Definition F_ADD_SEALS : Z := 1033.
Definition FIONBIO : Z := 0x5421.
Definition SOL_SOCKET : Z := 1.

(** The table of descriptors with the kernel, and the [IOManager] of the
    thread if it has one. *)
Record proc := MkProc { tab : table; iom : option IOManager.io }.
Definition start (k : kernel) (io : option IOManager.io) : proc := MkProc (create k) io.

Definition on_tab {A} (f : M table A) : M proc A := fun p =>
  match f (tab p) with
  | Ret a t => Ret a (MkProc t (iom p))
  | Throw e t => Throw e (MkProc t (iom p))
  | UB => UB
  | NoFuel => NoFuel
  end.
Definition on_kern {A} (f : kernel -> A * kernel) : M proc A := fun p =>
  let '(a, k) := f (kern (tab p)) in Ret a (MkProc (with_kern k (tab p)) (iom p)).
Definition save (fd : Z) (c : FdContext) (p : proc) : proc := MkProc (store fd (Some c) (tab p)) (iom p).
Definition cancel_events (up : bool) (fd : Z) : M proc unit := fun p =>
  match iom p with
  | None => Ret tt p
  | Some s =>
      match IOManager.cancelAll up fd s with
      | Ret _ s => Ret tt (MkProc (tab p) (Some s))
      | Throw e s => Throw e (MkProc (tab p) (Some s))
      | UB => UB
      | NoFuel => NoFuel
      end
  end.

(** ** The kernel *)

(** [socket] and [accept] give the descriptor [r], or fail with [r < 0]. *)
Definition sys_new (nonblock : bool) (r : Z) (k : kernel) : Z * kernel :=
  (r, if r <? 0 then k else <[r := MkKfile true (set_nonblock nonblock O_RDWR)]> k).
Definition sys_close (fd : Z) (k : kernel) : Z * kernel :=
  match k !! fd with Some _ => (0, delete fd k) | None => (-1, k) end.
Definition sys_fionbio (fd : Z) (b : bool) (k : kernel) : Z * kernel :=
  match k !! fd with
  | Some d => (0, <[fd := MkKfile (k_socket d) (set_nonblock b (k_flags d))]> k)
  | None => (-1, k)
  end.

(** ** The hooks *)
Definition socket (hook : bool) (type r : Z) : M proc Z := fun p =>
  if negb hook then on_kern (sys_new (is_nonblock type) r) p else
  let* fd, p := on_kern (sys_new (is_nonblock type) r) p in
  let* _, p := (if 0 <=? fd then on_tab (get fd true) p else Ret None p) in
  Ret fd p.

(** What [accept] does with the descriptor that [do_io] returned. *)
Definition accepted (fd : Z) : M proc Z := fun p =>
  let* _, p := (if 0 <=? fd then on_tab (get fd true) p else Ret None p) in
  Ret fd p.

Definition close (hook up : bool) (fd : Z) : M proc Z := fun p =>
  if negb hook then on_kern (sys_close fd) p else
  let* ctx, p := on_tab (get fd false) p in
  match ctx with
  | Some _ =>
      let* _, p := cancel_events up fd p in
      let* _, p := on_tab (del fd) p in
      on_kern (sys_close fd) p
  | None => on_kern (sys_close fd) p
  end.

(** The context, when [ctx && !ctx->isClose() && ctx->isSocket()]. *)
Definition hooked (ctx : option FdContext) : option FdContext :=
  match ctx with Some c => if m_isClosed c || negb (m_isSocket c) then None else Some c | None => None end.

(** Commands that are passed on with their argument; the [default] case and
    the commands without one pass none. *)
Definition with_argument (cmd : Z) : bool :=
  bool_decide (cmd ∈ [F_DUPFD; F_DUPFD_CLOEXEC; F_SETFD; F_SETOWN; F_SETSIG; F_SETLEASE; F_NOTIFY; F_SETPIPE_SZ;
                      F_SETLK; F_SETLKW; F_GETLK; F_GETOWN_EX; F_SETOWN_EX]).

(** [sys] is the kernel's [fcntl] for the other commands. *)
Definition fcntl (sys : Z -> Z -> option Z -> kernel -> Z * kernel) (fd cmd arg : Z) : M proc Z := fun p =>
  if cmd =? F_SETFL then
    let* ctx, p := on_tab (get fd false) p in
    match hooked ctx with
    | None => on_kern (sys_setfl fd arg) p
    | Some c =>
        let c := setUserNonBlock (is_nonblock arg) c in
        on_kern (sys_setfl fd (set_nonblock (m_isSysNonBlock c) arg)) (save fd c p)
    end
  else if cmd =? F_GETFL then
    let flags := sys_getfl fd (kern (tab p)) in
    let* ctx, p := on_tab (get fd false) p in
    match hooked ctx with
    | None => Ret flags p
    | Some c => Ret (set_nonblock (m_isUserNonBlock c) flags) p
    end
  else on_kern (sys fd cmd (if with_argument cmd then Some arg else None)) p.

(** [ioctl]; [v] is the integer [arg] points to. *)
Definition ioctl (sys : Z -> Z -> kernel -> Z * kernel) (fd request v : Z) : M proc Z := fun p =>
  if request =? FIONBIO then
    let user_nonblock := negb (v =? 0) in
    let* ctx, p := on_tab (get fd false) p in
    match hooked ctx with
    | None => on_kern (sys_fionbio fd user_nonblock) p
    | Some c => on_kern (sys_fionbio fd user_nonblock) (save fd (setUserNonBlock user_nonblock c) p)
    end
  else on_kern (sys fd request) p.

(** [setsockopt]; [r] is the answer of the kernel, [sec] and [usec] the
    [timeval] that [optval] points to. *)
Definition setsockopt (hook : bool) (fd level optname sec usec r : Z) : M proc Z := fun p =>
  if hook then Ret r p
  else if (level =? SOL_SOCKET) && ((optname =? SO_RCVTIMEO) || (optname =? SO_SNDTIMEO)) then
    let* ctx, p := on_tab (get fd false) p in
    match ctx with
    | Some c => Ret r (save fd (setTimeout optname (u64 (sec * 1000 + Z.quot usec 1000)) c) p)
    | None => Ret r p
    end
  else Ret r p.

(** ** What a user sees

    A call with the answers of the kernel, run through the hooks ([hooked_step])
    and by the kernel alone ([plain_step]). *)
Inductive call :=
| Socket (type r : Z)
| Accept (r : Z)
| Close (up : bool) (fd : Z)
| GetFl (fd : Z)
| SetFl (fd arg : Z)
| Fionbio (fd v : Z)
| SetTimeo (hook : bool) (fd optname sec usec r : Z).

Definition no_fcntl (_ _ : Z) (_ : option Z) (k : kernel) : Z * kernel := (-1, k).
Definition no_ioctl (_ _ : Z) (k : kernel) : Z * kernel := (-1, k).

Definition hooked_step (c : call) : M proc Z :=
  match c with
  | Socket type r => socket true type r
  | Accept r => fun p => let* fd, p := on_kern (sys_new false r) p in accepted fd p
  | Close up fd => close true up fd
  | GetFl fd => fcntl no_fcntl fd F_GETFL 0
  | SetFl fd arg => fcntl no_fcntl fd F_SETFL arg
  | Fionbio fd v => ioctl no_ioctl fd FIONBIO v
  | SetTimeo hook fd optname sec usec r => setsockopt hook fd SOL_SOCKET optname sec usec r
  end.

Definition plain_step (c : call) (k : kernel) : Z * kernel :=
  match c with
  | Socket type r => sys_new (is_nonblock type) r k
  | Accept r => sys_new false r k
  | Close _ fd => sys_close fd k
  | GetFl fd => (sys_getfl fd k, k)
  | SetFl fd arg => sys_setfl fd arg k
  | Fionbio fd v => sys_fionbio fd (negb (v =? 0)) k
  | SetTimeo _ _ _ _ _ r => (r, k)
  end.

Fixpoint hooked_run (cs : list call) : M proc (list Z) := fun p =>
  match cs with
  | [] => Ret [] p
  | c :: cs => let* r, p := hooked_step c p in let* rs, p := hooked_run cs p in Ret (r :: rs) p
  end.
Fixpoint plain_run (cs : list call) (k : kernel) : list Z * kernel :=
  match cs with
  | [] => ([], k)
  | c :: cs => let '(r, k) := plain_step c k in let '(rs, k) := plain_run cs k in (r :: rs, k)
  end.

(** The answers a kernel can give: a new descriptor is one that is not open.
    A socket is asked for without SOCK_NONBLOCK, and no descriptor is below
    [-1]. *)
Definition new_ok (r : Z) (k : kernel) : bool := (r =? -1) || (bool_decide (0 <= r < 2 ^ 30) && bool_decide (k !! r = None)).
Definition valid (c : call) (k : kernel) : bool :=
  match c with
  | Socket type r => negb (is_nonblock type) && new_ok r k
  | Accept r => new_ok r k
  | Close _ fd | GetFl fd | SetFl fd _ | Fionbio fd _ | SetTimeo _ fd _ _ _ _ => -1 <=? fd
  end.
Fixpoint all_valid (cs : list call) (k : kernel) : bool :=
  match cs with [] => true | c :: cs => valid c k && all_valid cs (snd (plain_step c k)) end.

(** ** The simulation *)
Definition shown (c : option FdContext) (d : kfile) : kfile :=
  match hooked c with
  | Some c => MkKfile (k_socket d) (set_nonblock (m_isUserNonBlock c) (k_flags d))
  | None => d
  end.

(** Every socket is in the table and does not block. *)
Definition Watched (c : option FdContext) (d : kfile) : Prop :=
  k_socket d = true -> is_Some (hooked c) /\ is_nonblock (k_flags d) = true.

(** [strict] asks for that of all sockets. *)
Record Sim (strict : bool) (p : proc) (k : kernel) : Prop := {
  sim_size : 64 <= zlen (m_fds (tab p));
  sim_view fd : k !! fd = shown (entry fd (tab p)) <$> kern (tab p) !! fd;
  sim_entry fd c : entry fd (tab p) = Some c -> exists d, kern (tab p) !! fd = Some d
    /\ m_isSocket c = k_socket d /\ m_isSysNonBlock c = k_socket d /\ m_isClosed c = false;
  sim_io s : iom p = Some s -> IOManager.Inv s;
  sim_watched fd d : strict = true -> kern (tab p) !! fd = Some d -> Watched (entry fd (tab p)) d;
}.

Lemma entry_nonneg fd t c : entry fd t = Some c -> 0 <= fd < zlen (m_fds t).
Proof.
  unfold entry. destruct (Z.ltb_spec fd 0); [done|]. intros Hc.
  destruct (m_fds t !! Z.to_nat fd) as [o|] eqn:E; [|done]. apply lookup_lt_Some in E. unfold zlen. lia.
Qed.

Lemma hooked_some c c' : hooked c = Some c' -> c = Some c' /\ m_isClosed c' = false /\ m_isSocket c' = true.
Proof.
  destruct c as [c|]; [|done]. simpl. destruct (m_isClosed c) eqn:E1, (m_isSocket c) eqn:E2; simpl; try done.
  by intros [= <-].
Qed.

(** Updating one descriptor on both sides keeps the simulation. *)
Lemma Sim_update b p k p' fd k' :
  Sim b p k -> 64 <= zlen (m_fds (tab p')) -> iom p' = iom p ->
  (forall i, i <> fd -> k' !! i = k !! i /\ entry i (tab p') = entry i (tab p) /\ kern (tab p') !! i = kern (tab p) !! i) ->
  k' !! fd = shown (entry fd (tab p')) <$> kern (tab p') !! fd ->
  (forall c, entry fd (tab p') = Some c -> exists d, kern (tab p') !! fd = Some d
    /\ m_isSocket c = k_socket d /\ m_isSysNonBlock c = k_socket d /\ m_isClosed c = false) ->
  (forall d, b = true -> kern (tab p') !! fd = Some d -> Watched (entry fd (tab p')) d) ->
  Sim b p' k'.
Proof.
  intros [H1 H2 H3 H4 H5] Hz Hio Hne Hfd Hc Hw. split; [done| | |by rewrite Hio|].
  - intros i. destruct (decide (i = fd)) as [->|Hi]; [done|]. destruct (Hne i Hi) as (-> & -> & ->). apply H2.
  - intros i c. destruct (decide (i = fd)) as [->|Hi]; [apply Hc|]. destruct (Hne i Hi) as (_ & -> & ->). apply H3.
  - intros i d. destruct (decide (i = fd)) as [->|Hi]; [apply Hw|]. destruct (Hne i Hi) as (_ & -> & ->). apply H5.
Qed.

Lemma Sim_start b k io :
  (forall s, io = Some s -> IOManager.Inv s) -> (b = true -> forall fd d, k !! fd = Some d -> k_socket d = false) ->
  Sim b (start k io) k.
Proof.
  intros Hio Hk. assert (forall fd, entry fd (create k) = None) as He.
  { intros fd. unfold entry, create. cbn [m_fds]. destruct (fd <? 0); [done|].
    destruct (replicate 64 None !! Z.to_nat fd) as [o|] eqn:E; [|done]. by apply lookup_replicate in E as [-> _]. }
  split; [done| | |done|intros fd d Hb Hd Hs; cbn in Hd; by rewrite (Hk Hb fd d Hd) in Hs].
  - intros fd. cbn [start tab]. rewrite He. cbn [create kern shown hooked]. by destruct (k !! fd).
  - intros fd c. cbn [start tab]. by rewrite He.
Qed.

(** A new descriptor: the socket that the table then has is new. *)
Lemma register_socket_ok b p k r :
  Sim b p k -> new_ok r k = true ->
  exists p', (let* fd, p := on_kern (sys_new false r) p in accepted fd p) = Ret r p' /\ Sim b p' (snd (sys_new false r k)).
Proof.
  intros Hs Hok. pose proof Hs as [H1 H2 H3 H4 _]. unfold new_ok in Hok.
  assert (r = -1 \/ (0 <= r < 2 ^ 30 /\ k !! r = None)) as [->|[Hr Hk]].
  { apply orb_true_iff in Hok as [?%Z.eqb_eq|[??]%andb_true_iff]; [by left|right]. split; by eapply bool_decide_eq_true. }
  { exists p. split; [by destruct p as [[] ?]|done]. }
  assert (kern (tab p) !! r = None) as Hkr by (specialize (H2 r); rewrite Hk in H2; by destruct (kern (tab p) !! r)).
  assert (entry r (tab p) = None) as Her.
  { destruct (entry r (tab p)) as [c|] eqn:E; [|done]. destruct (H3 r c E) as (d & ? & _). congruence. }
  unfold on_kern, sys_new. destruct (Z.ltb_spec r 0); [lia|]. cbn [obind fst snd].
  set (k1 := <[r := _]> (kern (tab p))). unfold accepted. destruct (Z.leb_spec 0 r); [|lia].
  destruct (get_create r (with_kern k1 (tab p))) as (c & t' & Hg & Hz & Hent & Hc); [done|done|].
  unfold on_tab. cbn [tab]. rewrite Hg. cbn [obind]. exists (MkProc t' (iom p)). split; [done|].
  change (entry r (with_kern k1 (tab p))) with (entry r (tab p)) in Hc. rewrite Her in Hc.
  cbn [with_kern kern] in Hc. rewrite (new_FdContext_open r (MkKfile true (set_nonblock false O_RDWR))) in Hc by apply lookup_insert_eq.
  injection Hc as -> Hk1. cbn [k_socket k_flags] in Hk1. unfold k1 in Hk1. rewrite insert_insert_eq in Hk1.
  apply (Sim_update b p k _ r); cbn [tab iom]; [done|done|done|..].
  - intros i Hi. rewrite !Hk1, !lookup_insert_ne, Hent by done. destruct (Z.eqb_spec i r); [done|]. done.
  - rewrite Hent, Z.eqb_refl, Hk1, !lookup_insert_eq. cbn. done.
  - intros c. rewrite Hent, Z.eqb_refl. intros [= <-]. rewrite Hk1, lookup_insert_eq. eexists. by split_and!.
  - intros d _. rewrite Hent, Z.eqb_refl, Hk1, lookup_insert_eq. intros [= <-] _. cbn. split; [eauto|]. by rewrite is_nonblock_bit.
Qed.

(** A change of the flags, on the context and in the kernel. *)
Lemma flags_ok b p k fd c d (u : bool) flags' plain' :
  Sim b p k -> entry fd (tab p) = Some c -> hooked (Some c) = Some c -> kern (tab p) !! fd = Some d ->
  plain' = set_nonblock u flags' -> (b = true -> is_nonblock (k_flags d) = true -> is_nonblock flags' = true) ->
  Sim b (MkProc (with_kern (<[fd := MkKfile (k_socket d) flags']> (kern (tab p))) (store fd (Some (setUserNonBlock u c)) (tab p))) (iom p))
      (<[fd := MkKfile (k_socket d) plain']> k).
Proof.
  intros Hs He Hh Hk -> Hnb. destruct (sim_entry _ _ _ Hs fd c He) as (d' & Hd & Hc1 & Hc2 & Hc3).
  rewrite Hk in Hd. injection Hd as <-. destruct (entry_nonneg _ _ _ He).
  assert (forall i, entry i (with_kern (<[fd := MkKfile (k_socket d) flags']> (kern (tab p))) (store fd (Some (setUserNonBlock u c)) (tab p)))
    = if i =? fd then Some (setUserNonBlock u c) else entry i (tab p)) as Hent by (intros i; by apply entry_store).
  apply (Sim_update b p k _ fd); cbn [tab iom]; [done|cbn [with_kern m_fds]; rewrite zlen_store; exact (sim_size _ _ _ Hs)|done|..].
  - intros i Hi. rewrite Hent. cbn [with_kern kern]. rewrite !lookup_insert_ne by done. by destruct (Z.eqb_spec i fd).
  - rewrite Hent, Z.eqb_refl. cbn [with_kern kern]. rewrite !lookup_insert_eq. simpl. unfold shown.
    apply hooked_some in Hh as (_ & H1 & H2). unfold hooked. cbn [setUserNonBlock m_isClosed m_isSocket]. by rewrite H1, H2.
  - intros c'. rewrite Hent, Z.eqb_refl. cbn [with_kern kern]. rewrite lookup_insert_eq. intros [= <-]. eexists. by split_and!.
  - intros d' Hb. rewrite Hent, Z.eqb_refl. cbn [with_kern kern]. rewrite lookup_insert_eq. intros [= <-] Hsock.
    split; [|apply Hnb; [done|]; by apply (sim_watched _ _ _ Hs fd d)].
    unfold hooked in *. cbn [setUserNonBlock m_isClosed m_isSocket]. destruct (m_isClosed c || negb (m_isSocket c)); [done|eauto].
Qed.

(** A change of a descriptor that the hooks leave alone. *)
Lemma untouched_ok b p k fd d flags' :
  Sim b p k -> hooked (entry fd (tab p)) = None -> kern (tab p) !! fd = Some d ->
  Sim b (MkProc (with_kern (<[fd := MkKfile (k_socket d) flags']> (kern (tab p))) (tab p)) (iom p))
      (<[fd := MkKfile (k_socket d) flags']> k).
Proof.
  intros Hs Hh Hk. apply (Sim_update b p k _ fd); [done|exact (sim_size _ _ _ Hs)|done|..]; cbn [tab iom with_kern kern].
  - intros i Hi. by rewrite !lookup_insert_ne.
  - rewrite !lookup_insert_eq. unfold shown. change (entry fd (with_kern _ (tab p))) with (entry fd (tab p)). by rewrite Hh.
  - intros c Hc. change (entry fd (tab p) = Some c) in Hc. rewrite lookup_insert_eq.
    destruct (sim_entry _ _ _ Hs fd c Hc) as (d' & Hd & ?). rewrite Hk in Hd. injection Hd as <-. eexists. by split.
  - intros d' Hb. rewrite lookup_insert_eq. intros [= <-] Hsock. change (entry fd (with_kern _ (tab p))) with (entry fd (tab p)).
    destruct (sim_watched _ _ _ Hs fd d Hb Hk Hsock) as [Hw _]. rewrite Hh in Hw. by destruct Hw.
Qed.

Lemma proc_eta p : MkProc (with_kern (kern (tab p)) (tab p)) (iom p) = p.
Proof. by destruct p as [[] ?]. Qed.
Lemma on_tab_get fd p : -1 <= fd -> on_tab (get fd false) p = Ret (entry fd (tab p)) p.
Proof. intros. unfold on_tab. rewrite get_lookup by done. by destruct p. Qed.

(** The three cases of a descriptor: not open, open and seen as it is, or a
    socket of the table. *)
Lemma fd_cases b p k fd :
  Sim b p k ->
  (kern (tab p) !! fd = None /\ k !! fd = None /\ entry fd (tab p) = None)
  \/ exists d, kern (tab p) !! fd = Some d /\
     ((hooked (entry fd (tab p)) = None /\ k !! fd = Some d)
      \/ exists c, entry fd (tab p) = Some c /\ hooked (Some c) = Some c /\ m_isSysNonBlock c = true
         /\ k !! fd = Some (MkKfile (k_socket d) (set_nonblock (m_isUserNonBlock c) (k_flags d)))).
Proof.
  intros Hs. pose proof (sim_view _ _ _ Hs fd) as Hv. destruct (kern (tab p) !! fd) as [d|] eqn:Ek.
  - right. exists d. split; [done|]. simpl in Hv. unfold shown in Hv.
    destruct (hooked (entry fd (tab p))) as [c|] eqn:Eh; [right|by left].
    pose proof (hooked_some _ _ Eh) as (He & Hc1 & Hc2). exists c. rewrite He in Eh. split_and!; try done.
    destruct (sim_entry _ _ _ Hs fd c He) as (d' & _ & Hq & Hq' & _). congruence.
  - left. split_and!; try done. destruct (entry fd (tab p)) as [c|] eqn:E; [|done].
    destruct (sim_entry _ _ _ Hs fd c E) as (d & Hd & _). congruence.
Qed.

Lemma setfl_ok b p k fd arg :
  Sim b p k -> -1 <= fd -> exists p', fcntl no_fcntl fd F_SETFL arg p = Ret (fst (sys_setfl fd arg k)) p' /\ Sim b p' (snd (sys_setfl fd arg k)).
Proof.
  intros Hs Hfd. unfold fcntl. change (F_SETFL =? F_SETFL) with true. cbv iota. rewrite on_tab_get by done. cbn [obind].
  unfold on_kern, sys_setfl.
  destruct (fd_cases b p k fd Hs) as [(-> & -> & ->)|(d & Hd & [[Hh Hk]|(c & He & Hh & Hn & Hk)])].
  - cbn [hooked]. exists p. by rewrite proc_eta.
  - rewrite Hh, Hd, Hk. eexists. split; [done|]. by apply untouched_ok.
  - rewrite He, Hh, Hk. cbn [save tab store kern fst snd]. rewrite Hd. eexists. split; [done|]. cbn [k_socket k_flags snd iom].
    eapply (flags_ok b p k fd c d (is_nonblock arg)); [done|done|done|done|..]; cbn [setUserNonBlock m_isSysNonBlock]; rewrite Hn.
    + by rewrite (set_nonblock_merge (is_nonblock arg) true (m_isUserNonBlock c)), set_nonblock_id.
    + intros _ _. by rewrite is_nonblock_merge, is_nonblock_set.
Qed.

Lemma fionbio_ok b p k fd v :
  Sim b p k -> -1 <= fd -> (b = true -> v <> 0) ->
  exists p', ioctl no_ioctl fd FIONBIO v p = Ret (fst (sys_fionbio fd (negb (v =? 0)) k)) p' /\ Sim b p' (snd (sys_fionbio fd (negb (v =? 0)) k)).
Proof.
  intros Hs Hfd Hv. unfold ioctl. change (FIONBIO =? FIONBIO) with true. cbv iota. rewrite on_tab_get by done. cbn [obind].
  unfold on_kern, sys_fionbio.
  destruct (fd_cases b p k fd Hs) as [(-> & -> & ->)|(d & Hd & [[Hh Hk]|(c & He & Hh & Hn & Hk)])].
  - cbn [hooked]. exists p. by rewrite proc_eta.
  - rewrite Hh, Hd, Hk. eexists. split; [done|]. by apply untouched_ok.
  - rewrite He, Hh, Hk. cbn [save tab store kern fst snd]. rewrite Hd. eexists. split; [done|]. cbn [k_socket k_flags snd iom].
    eapply (flags_ok b p k fd c d (negb (v =? 0))); [done|done|done|done|by rewrite !set_nonblock_twice|].
    intros Hb _. rewrite is_nonblock_set. destruct (Z.eqb_spec v 0); [|done]. by destruct (Hv Hb).
Qed.

Lemma getfl_ok b p k fd : Sim b p k -> -1 <= fd -> fcntl no_fcntl fd F_GETFL 0 p = Ret (sys_getfl fd k) p.
Proof.
  intros Hs Hfd. unfold fcntl. change (F_GETFL =? F_SETFL) with false. change (F_GETFL =? F_GETFL) with true. cbv iota zeta.
  rewrite on_tab_get by done. cbn [obind]. unfold sys_getfl.
  destruct (fd_cases b p k fd Hs) as [(-> & -> & ->)|(d & -> & [[-> ->]|(c & -> & -> & _ & ->)])]; done.
Qed.

(** [cancel_events] only touches the [IOManager], whose invariant it keeps. *)
Lemma cancel_events_ok b p k up fd :
  Sim b p k -> 0 <= fd -> exists p', cancel_events up fd p = Ret tt p' /\ tab p' = tab p /\ Sim b p' k.
Proof.
  intros Hs Hfd. unfold cancel_events. destruct (iom p) as [s|] eqn:E; [|by exists p].
  destruct (IOManager.cancelAll_ok up fd s) as (b' & s' & -> & Hef); [by eapply sim_io|done|].
  eexists. split; [done|]. split; [done|]. destruct Hs as [H1 H2 H3 H4 H5]. split; try done.
  intros s0 [= <-]. apply Hef.
Qed.

Lemma close_ok b p k up fd :
  Sim b p k -> -1 <= fd -> exists p', close true up fd p = Ret (fst (sys_close fd k)) p' /\ Sim b p' (snd (sys_close fd k)).
Proof.
  intros Hs Hfd. unfold close. cbn [negb]. rewrite on_tab_get by done. cbn [obind].
  destruct (entry fd (tab p)) as [c|] eqn:E.
  - destruct (entry_nonneg _ _ _ E) as [H0 _]. destruct (cancel_events_ok b p k up fd Hs H0) as (p1 & -> & Ht & Hs1). cbn [obind].
    destruct (del_ok fd (tab p1) H0) as (t2 & Hdel & Hk2 & Hz2 & He2). unfold on_tab. rewrite Hdel. cbn [obind].
    destruct (sim_entry _ _ _ Hs fd c E) as (d & Hd & _). pose proof (sim_view _ _ _ Hs fd) as Hv. rewrite Hd in Hv. simpl in Hv.
    unfold on_kern, sys_close. cbn [tab iom]. rewrite Hk2, Ht, Hd, Hv. eexists. split; [done|]. cbn [snd].
    apply (Sim_update b p1 k _ fd); [done|cbn [tab with_kern m_fds]; rewrite Hz2; exact (sim_size _ _ _ Hs1)|done|..]; cbn [tab with_kern kern].
    + intros i Hi. rewrite Ht, !lookup_delete_ne by done. change (entry i (with_kern _ t2)) with (entry i t2). rewrite He2, Ht.
      by destruct (Z.eqb_spec i fd).
    + rewrite !lookup_delete_eq. done.
    + intros c'. change (entry fd (with_kern _ t2)) with (entry fd t2). by rewrite He2, Z.eqb_refl.
    + intros d' _. by rewrite lookup_delete_eq.
  - pose proof (sim_view _ _ _ Hs fd) as Hv. rewrite E in Hv. unfold on_kern, sys_close.
    destruct (kern (tab p) !! fd) as [d|] eqn:Ek; simpl in Hv; rewrite Hv; eexists; (split; [done|]); [|by rewrite <- Ek, proc_eta || by destruct p as [[] ?]].
    apply (Sim_update b p k _ fd); [done|exact (sim_size _ _ _ Hs)|done|..]; cbn [tab with_kern kern snd].
    + intros i Hi. by rewrite !lookup_delete_ne.
    + by rewrite !lookup_delete_eq.
    + intros c Hc. change (entry fd (tab p) = Some c) in Hc. congruence.
    + intros d' _. by rewrite lookup_delete_eq.
Qed.

Lemma setsockopt_ok b p k hook fd opt sec usec r :
  Sim b p k -> -1 <= fd -> exists p', setsockopt hook fd SOL_SOCKET opt sec usec r p = Ret r p' /\ Sim b p' k.
Proof.
  intros Hs Hfd. unfold setsockopt. destruct hook; [by exists p|]. destruct (_ && _); [|by exists p].
  rewrite on_tab_get by done. cbn [obind]. destruct (entry fd (tab p)) as [c|] eqn:E; [|by exists p].
  eexists. split; [done|]. set (c' := setTimeout _ _ c). assert (entry fd (tab p) = Some c) as E0 by done.
  destruct (entry_nonneg _ _ _ E). destruct (sim_entry _ _ _ Hs fd c E0) as (d & Hd & Hc).
  assert (hooked (Some c') = (c0 ← hooked (Some c); Some c') /\ m_isUserNonBlock c' = m_isUserNonBlock c /\ m_isSocket c' = m_isSocket c
    /\ m_isSysNonBlock c' = m_isSysNonBlock c /\ m_isClosed c' = m_isClosed c) as (Hh & Hu & H1 & H2 & H3).
  { unfold c', setTimeout, hooked. destruct (opt =? SO_RCVTIMEO); cbn; by destruct (m_isClosed c), (m_isSocket c). }
  apply (Sim_update b p k _ fd); unfold save; cbn [tab iom]; [done|rewrite zlen_store; exact (sim_size _ _ _ Hs)|done|..].
  - intros i Hi. rewrite entry_store by done. by destruct (Z.eqb_spec i fd).
  - rewrite entry_store, Z.eqb_refl by done. rewrite (sim_view _ _ _ Hs fd), E0. cbn [store kern]. rewrite Hd. simpl. f_equal. unfold shown.
    rewrite Hh. destruct (hooked (Some c)) as [c0|] eqn:Eq; simpl; [|done]. apply hooked_some in Eq as ([= ->] & _). by rewrite Hu.
  - intros c1. rewrite entry_store, Z.eqb_refl by done. intros [= <-]. exists d. rewrite H1, H2, H3. done.
  - intros d' Hb. rewrite entry_store, Z.eqb_refl by done. intros Hd' Hsock. destruct (sim_watched _ _ _ Hs fd d' Hb Hd' Hsock) as [Hw Hn].
    rewrite E0 in Hw. destruct Hw as [c0 Hw]. split; [|done]. rewrite Hh, Hw. eauto.
Qed.

(** FIONBIO with 0 is the one call that is passed to the kernel as it is. *)
Definition keeps_nonblock (c : call) : bool := match c with Fionbio _ v => negb (v =? 0) | _ => true end.

Lemma step_sim b c p k :
  Sim b p k -> valid c k = true -> (b = true -> keeps_nonblock c = true) ->
  exists p', hooked_step c p = Ret (fst (plain_step c k)) p' /\ Sim b p' (snd (plain_step c k)).
Proof.
  intros Hs Hv Hkeep. destruct c as [type r|r|up fd|fd|fd arg|fd v|hook fd opt sec usec r]; cbn [valid hooked_step plain_step] in *.
  - apply andb_true_iff in Hv as [E%negb_true_iff Hv]. destruct (register_socket_ok b p k r Hs Hv) as (p' & Hp & Hs').
    exists p'. unfold socket. rewrite E. split; [exact Hp|done].
  - destruct (register_socket_ok b p k r Hs Hv) as (p' & Hp & Hs'). by exists p'.
  - apply Z.leb_le in Hv. by apply close_ok.
  - apply Z.leb_le in Hv. exists p. split; [by eapply getfl_ok|done].
  - apply Z.leb_le in Hv. by apply setfl_ok.
  - apply Z.leb_le in Hv. apply fionbio_ok; [done|done|]. intros Hb ->. by specialize (Hkeep Hb).
  - apply Z.leb_le in Hv. by apply setsockopt_ok.
Qed.

Lemma run_sim b cs p k :
  Sim b p k -> all_valid cs k = true -> (b = true -> forallb keeps_nonblock cs = true) ->
  exists p', hooked_run cs p = Ret (fst (plain_run cs k)) p' /\ Sim b p' (snd (plain_run cs k)).
Proof.
  revert p k. induction cs as [|c cs IH]; intros p k Hs Hv Hk; [by exists p|].
  cbn [all_valid hooked_run plain_run forallb] in *. apply andb_true_iff in Hv as [Hc Hv].
  destruct (step_sim b c p k Hs Hc) as (p1 & -> & Hs1); [by intros [? _]%Hk%andb_true_iff|].
  destruct (plain_step c k) as [r k1]. cbn [fst snd obind] in *.
  destruct (IH p1 k1 Hs1 Hv) as (p2 & -> & Hs2); [by intros [_ ?]%Hk%andb_true_iff|].
  destruct (plain_run cs k1) as [rs k2]. by exists p2.
Qed.

(** C18. The hooks are transparent where they are enabled: a program that opens
    sockets without [SOCK_NONBLOCK], accepts and closes them, and reads and sets
    the status flags of any descriptors from -1 up ([valid]), all in threads
    with hooks, gets from these calls the same answers as from the kernel
    alone, in whichever order, although its sockets are non-blocking
    underneath; calls of [setsockopt] for timeouts, with or without hooks, may
    come in between.  (What is left out differs: [sock_nonblock_ignored],
    [stale_context_blocks], [negative_descriptor_undefined].) *)
Theorem hooks_are_transparent (cs : list call) (k : kernel) (io : option IOManager.io) :
  (forall s, io = Some s -> IOManager.Inv s) ->
  all_valid cs k = true ->
  exists p, hooked_run cs (start k io) = Ret (fst (plain_run cs k)) p
    /\ forall fd, -1 <= fd -> fcntl no_fcntl fd F_GETFL 0 p = Ret (sys_getfl fd (snd (plain_run cs k))) p.
Proof.
  intros Hio Hv. destruct (run_sim false cs (start k io) k) as (p & Hp & Hs); [by apply Sim_start|done|done|].
  exists p. split; [done|]. intros. by eapply getfl_ok.
Qed.

Definition transparent_calls : list call :=
  [Socket 1 70; SetFl 70 O_NONBLOCK; GetFl 70; Accept 5; GetFl 5; Fionbio 5 1; GetFl 5; SetFl 70 0; GetFl 70;
   SetFl 0 O_NONBLOCK; GetFl 0; Close true 70; GetFl 70; Socket 2 70; GetFl 70].
Lemma hooks_are_transparent_witness :
  exists p, hooked_run transparent_calls (start {[0 := MkKfile false 1]} (Some IOManager.create))
    = Ret [70; 0; 2050; 5; 2; 0; 2050; 0; 2; 0; 2049; 0; -1; 70; 2] p.
Proof.
  destruct (hooks_are_transparent transparent_calls {[0 := MkKfile false 1]} (Some IOManager.create)) as (p & Hp & _).
  - intros s [= <-]. apply IOManager.io_Inv_create.
  - vm_compute. reflexivity.
  - exists p. exact Hp.
Defined.

(** No socket of the program can block its thread: after any calls that
    do not clear FIONBIO, every open socket is non-blocking in the kernel and
    has an entry in the table, which records what the user asked for. *)
Theorem sockets_never_block (cs : list call) (k : kernel) (io : option IOManager.io) :
  (forall s, io = Some s -> IOManager.Inv s) ->
  (forall fd d, k !! fd = Some d -> k_socket d = false) ->
  all_valid cs k = true -> forallb keeps_nonblock cs = true ->
  exists rs p, hooked_run cs (start k io) = Ret rs p
    /\ forall fd d, kern (tab p) !! fd = Some d -> k_socket d = true ->
         is_nonblock (k_flags d) = true
         /\ exists c, hooked (entry fd (tab p)) = Some c
              /\ m_isUserNonBlock c = is_nonblock (sys_getfl fd (snd (plain_run cs k))).
Proof.
  intros Hio Hno Hv Hk. destruct (run_sim true cs (start k io) k) as (p & Hp & Hs); [by apply Sim_start|done|done|].
  eexists _, p. split; [done|]. intros fd d Hd Hsock. destruct (sim_watched _ _ _ Hs fd d eq_refl Hd Hsock) as [[c Hc] Hn].
  split; [done|]. exists c. split; [done|]. unfold sys_getfl. rewrite (sim_view _ _ _ Hs fd), Hd. cbn [fmap option_fmap option_map k_flags]. unfold shown. rewrite Hc. cbn [k_flags].
  by rewrite is_nonblock_set.
Qed.

Definition watched_calls : list call := [Socket 1 70; SetFl 70 0; Accept 5; Fionbio 5 1; Close true 70; Socket 1 6].
Lemma sockets_never_block_witness :
  exists rs p, hooked_run watched_calls (start ∅ None) = Ret rs p
    /\ forall fd d, kern (tab p) !! fd = Some d -> k_socket d = true -> is_nonblock (k_flags d) = true.
Proof.
  destruct (sockets_never_block watched_calls ∅ None) as (rs & p & Hr & Hp); [done|done|vm_compute; reflexivity|reflexivity|].
  exists rs, p. split; [exact Hr|]. intros fd d Hd Hs. exact (proj1 (Hp fd d Hd Hs)).
Defined.

(** ** Where the hooks are not transparent *)

(** FIONBIO with 0 makes a watched socket block. *)
Theorem fionbio_zero_blocks :
  exists p, hooked_run [Socket 1 5; Fionbio 5 0] (start ∅ None) = Ret [5; 0] p
    /\ is_Some (hooked (entry 5 (tab p))) /\ is_nonblock (sys_getfl 5 (kern (tab p))) = false.
Proof. eexists. split; [vm_compute; reflexivity|]. split; [eauto|reflexivity]. Qed.

(** A socket that is asked for with SOCK_NONBLOCK looks like one that blocks. *)
Theorem sock_nonblock_ignored (type r : Z) (io : option IOManager.io) :
  is_nonblock type = true -> 0 <= r < 64 ->
  exists p, socket true type r (start ∅ io) = Ret r p /\ fcntl no_fcntl r F_GETFL 0 p = Ret O_RDWR p.
Proof.
  intros Ht Hr. unfold socket, on_kern, sys_new. rewrite Ht. destruct (Z.ltb_spec r 0); [lia|]. cbn [negb obind fst snd].
  destruct (Z.leb_spec 0 r); [|lia].
  destruct (get_create r (with_kern (<[r := MkKfile true (set_nonblock true O_RDWR)]> ∅) (create ∅))) as (c & t & Hg & Hz & He & Hc);
    [lia|done|].
  unfold on_tab at 1. cbn [start tab]. change (with_kern _ (create ∅)) with (with_kern (<[r := MkKfile true (set_nonblock true O_RDWR)]> ∅) (create ∅)). rewrite Hg. cbn [obind].
  assert (entry r (with_kern (<[r := MkKfile true (set_nonblock true O_RDWR)]> ∅) (create ∅)) = None) as E.
  { unfold entry. cbn [m_fds with_kern create]. destruct (r <? 0); [done|]. rewrite lookup_replicate_2 by lia. done. }
  rewrite E in Hc. cbn [kern with_kern] in Hc. rewrite (new_FdContext_open r (MkKfile true (set_nonblock true O_RDWR))) in Hc by apply lookup_insert_eq.
  cbn [k_socket k_flags] in Hc. injection Hc as -> Hk. eexists. split; [done|]. unfold fcntl.
  change (F_GETFL =? F_SETFL) with false. change (F_GETFL =? F_GETFL) with true. cbv iota zeta. rewrite on_tab_get by lia.
  cbn [obind tab]. rewrite He, Z.eqb_refl, Hk. unfold sys_getfl. by rewrite lookup_insert_eq.
Qed.

(** A context outlives its descriptor when the descriptor is closed with the
    hooks disabled; the next socket with the number then blocks. *)
Theorem stale_context_blocks :
  exists p1 p2 p3, socket true 1 5 (start ∅ None) = Ret 5 p1 /\ close false true 5 p1 = Ret 0 p2
    /\ socket true 1 5 p2 = Ret 5 p3
    /\ is_Some (hooked (entry 5 (tab p3))) /\ is_nonblock (sys_getfl 5 (kern (tab p3))) = false.
Proof. do 3 eexists. split_and!; try (vm_compute; reflexivity). eauto. Qed.

(** [accept] fills the table even when hooks are disabled, so the socket does
    not block for a thread whose [read] is the kernel's. *)
Theorem accept_without_hooks_is_nonblocking :
  exists p, (let* fd, p := on_kern (sys_new false 7) (start ∅ None) in accepted fd p) = Ret 7 p
    /\ is_nonblock (sys_getfl 7 (kern (tab p))) = true.
Proof. eexists. split; vm_compute; reflexivity. Qed.

(** With hooks enabled the timeouts of a socket are not recorded. *)
Theorem timeouts_not_recorded (fd optname sec usec r : Z) (p : proc) :
  setsockopt true fd SOL_SOCKET optname sec usec r p = Ret r p.
Proof. reflexivity. Qed.

(** Only [-1] is refused among the negative descriptors. *)
Theorem negative_descriptor_undefined (fd arg : Z) (p : proc) :
  fd < -1 -> fcntl no_fcntl fd F_SETFL arg p = UB /\ close true true fd p = UB.
Proof.
  intros Hfd. assert (on_tab (get fd false) p = UB) as Hg.
  { unfold on_tab, get. destruct (Z.eqb_spec fd (-1)); [lia|]. by destruct (Z.ltb_spec fd 0); [|lia]. }
  split; [unfold fcntl; change (F_SETFL =? F_SETFL) with true; cbv iota|unfold close; cbn [negb]]; by rewrite Hg.
Qed.

(** A command of the default case loses its argument. *)
Theorem fcntl_drops_argument (sys : Z -> Z -> option Z -> kernel -> Z * kernel) (fd seals : Z) (p : proc) :
  fcntl sys fd F_ADD_SEALS seals p = on_kern (sys fd F_ADD_SEALS None) p.
Proof. reflexivity. Qed.

End Hook.
