(* ===== verification/HookIo.v ===== *)
(** * Hooks that wait: [do_io] and [connect_with_timeout] of [luwu/luwu/hook.cpp]

    A hooked call that would block registers the descriptor with the
    [IOManager], starts a timer if the socket has a timeout, and suspends its
    fiber.  What the kernel answers to each call, and what the event loop and
    the other fibers do while the fiber is suspended, is a script.  The
    [timer_info] objects and the closures of the timers are in the state: a
    closure only holds a weak pointer, so an object that is gone is kept as
    [None]. *)
From S2P Require Import Prelude Timer IOManager FdManager.
Import FdManager.
Local Open Scope Z_scope.

Module HookIo.

Definition EINTR : Z := 4.
Definition EBADF : Z := 9.
Definition EAGAIN : Z := 11.
Definition ETIMEDOUT : Z := 110.
Definition EINPROGRESS : Z := 115.

#[local] Existing Instance IOManager.task_eq_decision.
Abbreviation io := IOManager.io.
Abbreviation READ := IOManager.READ.
Abbreviation WRITE := IOManager.WRITE.

(** What the callback of a timer does: the lambda of a hook, which captured a
    [timer_info], a descriptor and an event; the one of [sleep], which captured
    a scheduler and a fiber; or something else. *)
Inductive closure := Hooked (i : N) (fd e : Z) | Wake (sc f : N) | Foreign.

Record world := MkWorld {
  fds : table;
  iom : io;
  timers : Timer.manager;
  infos : gmap N (option Z);
  closures : gmap Timer.callback closure;
  queue : list Timer.callback;
  errno : Z;
}.
Definition with_iom (s : io) (w : world) : world := MkWorld (fds w) s (timers w) (infos w) (closures w) (queue w) (errno w).
Definition with_timers (m : Timer.manager) (w : world) : world := MkWorld (fds w) (iom w) m (infos w) (closures w) (queue w) (errno w).
Definition with_infos (x : gmap N (option Z)) (w : world) : world := MkWorld (fds w) (iom w) (timers w) x (closures w) (queue w) (errno w).
Definition with_closures (x : gmap Timer.callback closure) (w : world) : world :=
  MkWorld (fds w) (iom w) (timers w) (infos w) x (queue w) (errno w).
Definition with_queue (q : list Timer.callback) (w : world) : world := MkWorld (fds w) (iom w) (timers w) (infos w) (closures w) q (errno w).
Definition with_errno (e : Z) (w : world) : world := MkWorld (fds w) (iom w) (timers w) (infos w) (closures w) (queue w) e.

Definition on_iom {A} (f : M io A) : M world A := fun w =>
  match f (iom w) with
  | Ret a s => Ret a (with_iom s w)
  | Throw e s => Throw e (with_iom s w)
  | UB => UB
  | NoFuel => NoFuel
  end.
Definition on_timers {A} (f : M Timer.manager A) : M world A := fun w =>
  match f (timers w) with
  | Ret a m => Ret a (with_timers m w)
  | Throw e m => Throw e (with_timers m w)
  | UB => UB
  | NoFuel => NoFuel
  end.

(** Addresses and identities of new objects. *)
Definition new_addr (w : world) : Timer.addr := fresh (dom (Timer.heap (timers w))).
Definition new_closure (w : world) : Timer.callback := fresh (dom (closures w)).
Definition new_info (w : world) : N := fresh (dom (infos w)).

(** The lambda that [do_io] and [connect_with_timeout] give to their timer. *)
Definition timed_out (up : bool) (i : N) (fd e : Z) : M world unit := fun w =>
  match mjoin (infos w !! i) with
  | None => Ret tt w
  | Some cancelled =>
      if negb (cancelled =? 0) then Ret tt w
      else let* _, w := on_iom (IOManager.cancelEvent up fd e) (with_infos (<[i := Some ETIMEDOUT]> (infos w)) w) in
           Ret tt w
  end.
(** The callback of a condition timer, whose condition is the same object. *)
Definition run_callback (up : bool) (k : Timer.callback) : M world unit := fun w =>
  match closures w !! k with
  | Some (Hooked i fd e) =>
      match Timer.OnTimer (bool_decide (is_Some (mjoin (infos w !! i)))) k with
      | Some _ => timed_out up i fd e w
      | None => Ret tt w
      end
  | Some (Wake sc f) => Ret tt (with_iom (IOManager.schedule [IOManager.RunFiber sc f] (iom w)) w)
  | _ => Ret tt w
  end.

(** The timer (when [timeout != (uint64_t)-1]) and the event of a call that
    has to wait. *)
Definition add_timer (now timeout : Z) (i : N) (fd e : Z) (w : world) : option Timer.addr * world :=
  if timeout =? no_timeout then (None, w)
  else
    let a := new_addr w in
    let k := new_closure w in
    (Some a, with_closures (<[k := Hooked i fd e]> (closures w))
               (with_timers (Timer.addConditionTimer id a now timeout k false (timers w)) w)).
Definition register (up : bool) (sc self : N) (now timeout : Z) (i : N) (fd e : Z) : M world (option Timer.addr * bool) := fun w =>
  let '(timer, w) := add_timer now timeout i fd e w in
  let* rt, w := on_iom (IOManager.addEvent up (Some sc) self fd e None) w in
  Ret (timer, rt) w.
(** [if (timer) timer->cancel();] *)
Definition cancel_timer (timer : option Timer.addr) : M world unit := fun w =>
  match timer with
  | Some a => let* _, w := on_timers (Timer.cancel a) w in Ret tt w
  | None => Ret tt w
  end.

(** ** While a fiber is suspended *)
Inductive happening :=
| Report (up : bool) (fd events : Z)       (* epoll reports events of a descriptor *)
| Expire (now : Z)                         (* the loop collects the timers that are due *)
| RunNext (up : bool)                      (* the first collected callback runs *)
| Begin (up : bool) (sc self : N) (now timeout : Z) (fd e : Z).  (* another fiber starts to wait *)

Definition is_eventb (e : Z) : bool := (e =? READ) || (e =? WRITE).

(** A report names what the kernel was asked for.  Another fiber starts to
    wait only where nobody waits: otherwise its [addEvent] ends the process. *)
Definition happen (h : happening) : M world unit := fun w =>
  match h with
  | Report up fd events =>
      match IOManager.kernel_report fd events (iom w) with
      | Some ev => on_iom (IOManager.handle_ready up fd ev) w
      | None => Ret tt w
      end
  | Expire now =>
      let '(cbs, m) := Timer.listExpiredCb now (new_addr w) [] (timers w) in
      Ret tt (with_queue (queue w ++ omap id cbs) (with_timers m w))
  | RunNext up =>
      match queue w with
      | [] => Ret tt w
      | k :: q => run_callback up k (with_queue q w)
      end
  | Begin up sc self now timeout fd e =>
      if bool_decide (0 <= fd < 2 ^ 30) && is_eventb e && bool_decide (IOManager.slot_task fd e (iom w) = []) then
        let i := new_info w in
        let* _, w := register up sc self now timeout i fd e (with_infos (<[i := Some 0]> (infos w)) w) in Ret tt w
      else Ret tt w
  end.
Fixpoint happens (l : list happening) : M world unit := fun w =>
  match l with
  | [] => Ret tt w
  | h :: l => let* _, w := happen h w in happens l w
  end.

(** [yield()]: the fiber goes on once its task has been scheduled; a script
    that does not get that far is not a whole execution. *)
Definition suspend (sc self : N) (l : list happening) : M world unit := fun w =>
  let n := length (IOManager.scheduled (iom w)) in
  let* _, w := happens l w in
  if bool_decide (IOManager.RunFiber sc self ∈ drop n (IOManager.scheduled (iom w))) then Ret tt w else NoFuel.

(** ** [do_io] *)

(** One call of the original function: its result and [errno]; and, in case it
    would block: the time, whether [epoll_ctl] works, and the suspension. *)
Record attempt := MkAttempt { a_ret : Z; a_errno : Z; a_now : Z; a_up : bool; a_wait : list happening }.

Definition call (a : attempt) (w : world) : world := if a_ret a =? -1 then with_errno (a_errno a) w else w.
Definition fails_with (a : attempt) (e : Z) : bool := (a_ret a =? -1) && (a_errno a =? e).

(** From the label [retry]; [this] is [IOManager::GetThis()]. *)
Fixpoint retry (this : option N) (self : N) (fd event timeout : Z) (i : N) (script : list attempt) : M world Z := fun w =>
  match script with
  | [] => NoFuel
  | a :: script =>
      let w := call a w in
      if fails_with a EINTR then retry this self fd event timeout i script w
      else if fails_with a EAGAIN then
        match this with
        | None => UB
        | Some sc =>
            let* r, w := register (a_up a) sc self (a_now a) timeout i fd event w in
            if snd r then
              let* _, w := suspend sc self (a_wait a) w in
              let* _, w := cancel_timer (fst r) w in
              match mjoin (infos w !! i) with
              | None => UB
              | Some cancelled =>
                  if negb (cancelled =? 0) then Ret (-1) (with_errno cancelled w)
                  else retry this self fd event timeout i script w
              end
            else let* _, w := cancel_timer (fst r) w in Ret (-1) w
        end
      else Ret (a_ret a) w
  end.

(** The original function, called directly. *)
Definition direct (script : list attempt) : M world Z := fun w =>
  match script with [] => NoFuel | a :: _ => Ret (a_ret a) (call a w) end.

Definition do_io (hook : bool) (this : option N) (self : N) (fd event timeout_so : Z) (script : list attempt) : M world Z := fun w =>
  if negb hook then direct script w else
  match get fd false (fds w) with
  | Ret None _ => direct script w
  | Ret (Some ctx) _ =>
      if m_isClosed ctx then Ret (-1) (with_errno EBADF w)
      else if negb (m_isSocket ctx) || m_isUserNonBlock ctx then direct script w
      else
        let timeout := getTimeout timeout_so ctx in
        let i := new_info w in
        let* n, w := retry this self fd event timeout i script (with_infos (<[i := Some 0]> (infos w)) w) in
        Ret n (with_infos (<[i := None]> (infos w)) w)
  | _ => UB
  end.

(** The hooks built on [do_io]. *)
Definition read := fun hook this self fd => do_io hook this self fd READ SO_RCVTIMEO.
Definition recv := fun hook this self fd => do_io hook this self fd READ SO_RCVTIMEO.
Definition readv := fun hook this self fd => do_io hook this self fd READ SO_RCVTIMEO.
Definition recvfrom := fun hook this self fd => do_io hook this self fd READ SO_RCVTIMEO.
Definition recvmsg := fun hook this self fd => do_io hook this self fd READ SO_RCVTIMEO.
Definition write := fun hook this self fd => do_io hook this self fd WRITE SO_SNDTIMEO.
Definition send := fun hook this self fd => do_io hook this self fd WRITE SO_SNDTIMEO.
Definition writev := fun hook this self fd => do_io hook this self fd WRITE SO_SNDTIMEO.
Definition sendto := fun hook this self fd => do_io hook this self fd WRITE SO_SNDTIMEO.
Definition sendmsg := fun hook this self fd => do_io hook this self fd WRITE SO_SNDTIMEO.

(** [sleep] and [usleep]: a timer that schedules the fiber; [r] is the answer
    of the original function.  The product is one of [unsigned int]. *)
Definition sleep_ms (ms : Z) (this : option N) (self : N) (now : Z) (l : list happening) : M world Z := fun w =>
  match this with
  | None => UB
  | Some sc =>
      let a := new_addr w in
      let k := new_closure w in
      let* _, w := suspend sc self l (with_closures (<[k := Wake sc self]> (closures w))
                                       (with_timers (Timer.addTimer a now ms k false (timers w)) w)) in
      Ret 0 w
  end.
Definition sleep (hook : bool) (r : Z) (this : option N) (self : N) (seconds now : Z) (l : list happening) : M world Z := fun w =>
  if negb hook then Ret r w else sleep_ms (u32 (seconds * 1000)) this self now l w.
Definition usleep (hook : bool) (r : Z) (this : option N) (self : N) (usec now : Z) (l : list happening) : M world Z := fun w =>
  if negb hook then Ret r w else sleep_ms (usec / 1000) this self now l w.

(** [connect_with_timeout]; [a] is the call of [connect_f], [so] the answer of
    [getsockopt(SO_ERROR)]: its result and, by
    that, the error of the socket or [errno]. *)
Definition so_error (so : Z * Z) : M world Z := fun w =>
  if fst so =? -1 then Ret (-1) (with_errno (snd so) w)
  else if snd so =? 0 then Ret 0 w
  else Ret (-1) (with_errno (snd so) w).
Definition connect_with_timeout (hook : bool) (this : option N) (self : N) (sockfd timeout : Z) (a : attempt) (so : Z * Z)
    : M world Z := fun w =>
  if negb hook then direct [a] w else
  match get sockfd false (fds w) with
  | Ret None _ => Ret (-1) (with_errno EBADF w)
  | Ret (Some ctx) _ =>
      if m_isClosed ctx then Ret (-1) (with_errno EBADF w)
      else if negb (m_isSocket ctx) || m_isUserNonBlock ctx then direct [a] w
      else
        let w := call a w in
        if a_ret a =? 0 then Ret 0 w
        else if negb (fails_with a EINPROGRESS) then Ret (a_ret a) w
        else
          match this with
          | None => UB
          | Some sc =>
              let i := new_info w in
              let* r, w := register (a_up a) sc self (a_now a) timeout i sockfd WRITE (with_infos (<[i := Some 0]> (infos w)) w) in
              let* n, w :=
                (if snd r then
                   let* _, w := suspend sc self (a_wait a) w in
                   let* _, w := cancel_timer (fst r) w in
                   match mjoin (infos w !! i) with
                   | None => UB
                   | Some cancelled => if negb (cancelled =? 0) then Ret (-1) (with_errno cancelled w) else so_error so w
                   end
                 else let* _, w := cancel_timer (fst r) w in so_error so w) in
              Ret n (with_infos (<[i := None]> (infos w)) w)
          end
  | _ => UB
  end.

(** ** Invariants *)
Record WInv (w : world) : Prop := {
  wi_io : IOManager.Inv (iom w);
  wi_timers : Timer.Inv (timers w);
  wi_cb a t k : Timer.heap (timers w) !! a = Some t -> Timer.m_cb t = Some k -> is_Some (closures w !! k);
  wi_queue k : k ∈ queue w -> is_Some (closures w !! k);
  wi_hooked k i fd e : closures w !! k = Some (Hooked i fd e) -> is_Some (infos w !! i) /\ 0 <= fd /\ IOManager.is_event e;
}.

(** A call in progress on [fd] and [e] whose [timer_info] is [i]: nobody else
    waits for that event, the call has not timed out, and its pending timer is
    [ta], which is due at the time given with it. *)
Record Mine (i : N) (fd e : Z) (ta : option (Timer.addr * Z)) (w : world) : Prop := {
  mi_inv : WInv w;
  mi_info : infos w !! i = Some (Some 0);
  mi_queue k fd' e' : k ∈ queue w -> closures w !! k <> Some (Hooked i fd' e');
  mi_timer a t k fd' e' : a ∈ Timer.m_timers (timers w) -> Timer.heap (timers w) !! a = Some t -> Timer.m_cb t = Some k ->
    closures w !! k = Some (Hooked i fd' e') -> fst <$> ta = Some a;
  mi_alone k i' : closures w !! k = Some (Hooked i' fd e) -> i' = i \/ mjoin (infos w !! i') = None;
  mi_pending a d : ta = Some (a, d) -> a ∈ Timer.m_timers (timers w) /\ Timer.next_of (Timer.heap (timers w)) a = d;
}.

Definition slot (fd e : Z) (w : world) : list IOManager.task := IOManager.slot_task fd e (iom w).

Lemma new_addr_fresh w : Timer.heap (timers w) !! new_addr w = None.
Proof. apply not_elem_of_dom. exact (is_fresh (dom (Timer.heap (timers w)))). Qed.
Lemma new_closure_fresh w : closures w !! new_closure w = None.
Proof. apply not_elem_of_dom. exact (is_fresh (dom (closures w))). Qed.
Lemma new_info_fresh w : infos w !! new_info w = None.
Proof. apply not_elem_of_dom. exact (is_fresh (dom (infos w))). Qed.

Lemma WInv_iom s w : IOManager.Inv s -> WInv w -> WInv (with_iom s w).
Proof. by intros ? []. Qed.
Lemma Mine_iom s i fd e ta w : IOManager.Inv s -> Mine i fd e ta w -> Mine i fd e ta (with_iom s w).
Proof. intros Hs []. split; try done. by apply WInv_iom. Qed.
Lemma Mine_errno x i fd e ta w : Mine i fd e ta w -> Mine i fd e ta (with_errno x w).
Proof. intros [Hw]. split; try done. by destruct Hw. Qed.

(** Starting a timer. *)
Lemma add_timer_inv now timeout i fd e w :
  WInv w -> is_Some (infos w !! i) -> 0 <= fd -> IOManager.is_event e -> WInv (snd (add_timer now timeout i fd e w)).
Proof.
  intros Hw Hi Hfd He. unfold add_timer. destruct (timeout =? no_timeout); [done|]. cbn [snd].
  destruct Hw as [H1 H2 H3 H4 H5]. unfold Timer.addConditionTimer, id.
  destruct (Timer.addTimer_spec (new_addr w) now timeout (new_closure w) false (timers w) H2 (new_addr_fresh w)) as (Hinv & Hh & Hm).
  split; cbn [with_closures with_timers iom timers infos closures queue]; try done.
  - intros a t k. rewrite Hh. intros Ha Hk. destruct (decide (k = new_closure w)) as [->|Hne]; [rewrite lookup_insert_eq; eauto|].
    rewrite lookup_insert_ne by done. destruct (decide (a = new_addr w)) as [->|Hna].
    + rewrite lookup_insert_eq in Ha. injection Ha as <-. by injection Hk as <-.
    + rewrite lookup_insert_ne in Ha by done. eauto.
  - intros k Hk. destruct (decide (k = new_closure w)) as [->|Hne]; [rewrite lookup_insert_eq; eauto|]. rewrite lookup_insert_ne by done. auto.
  - intros k i' fd' e'. destruct (decide (k = new_closure w)) as [->|Hne].
    + rewrite lookup_insert_eq. by intros [= <- <- <-].
    + rewrite lookup_insert_ne by done. apply H5.
Qed.

(** What a new timer changes: nothing that was there, as all is new. *)
Lemma add_timer_frame now timeout i fd e w :
  WInv w ->
  let w' := snd (add_timer now timeout i fd e w) in
  iom w' = iom w /\ infos w' = infos w /\ queue w' = queue w
  /\ (forall k, is_Some (closures w !! k) -> closures w' !! k = closures w !! k)
  /\ (forall k c, closures w' !! k = Some c -> closures w !! k = Some c \/ c = Hooked i fd e)
  /\ (forall a t, a ∈ Timer.m_timers (timers w') -> Timer.heap (timers w') !! a = Some t ->
        (a ∈ Timer.m_timers (timers w) /\ Timer.heap (timers w) !! a = Some t)
        \/ (fst (add_timer now timeout i fd e w) = Some a
            /\ Timer.next_of (Timer.heap (timers w')) a = u64 (now + timeout) /\ closures w' !! new_closure w = Some (Hooked i fd e) /\ Timer.m_cb t = Some (new_closure w)))
  /\ (forall a, a ∈ Timer.m_timers (timers w) -> a ∈ Timer.m_timers (timers w')
        /\ Timer.heap (timers w') !! a = Timer.heap (timers w) !! a)
  /\ (forall a, fst (add_timer now timeout i fd e w) = Some a ->
        a ∈ Timer.m_timers (timers w') /\ Timer.next_of (Timer.heap (timers w')) a = u64 (now + timeout)).
Proof.
  intros Hw. unfold add_timer. destruct (timeout =? no_timeout); cbn [fst snd].
  { split_and!; try done; eauto. }
  unfold Timer.addConditionTimer, id. destruct Hw as [_ H2 H3 _ _].
  destruct (Timer.addTimer_spec (new_addr w) now timeout (new_closure w) false (timers w) H2 (new_addr_fresh w)) as (_ & Hh & Hm).
  pose proof (Timer.not_pending _ _ H2 (new_addr_fresh w)) as Hnot.
  cbn [with_closures with_timers iom timers infos closures queue]. rewrite Hh. split_and!; try done.
  - intros k [c Hk]. apply lookup_insert_ne. intros <-. by rewrite new_closure_fresh in Hk.
  - intros k c. destruct (decide (k = new_closure w)) as [->|Hne]; [rewrite lookup_insert_eq; intros [= <-]; by right|].
    rewrite lookup_insert_ne by done. by left.
  - intros a t Ha Ht. destruct (decide (a = new_addr w)) as [->|Hna].
    + right. rewrite lookup_insert_eq in Ht. injection Ht as <-. by rewrite Timer.next_of_insert, lookup_insert_eq.
    + left. rewrite lookup_insert_ne in Ht by done. apply Hm in Ha as [->|Ha]; done.
  - intros a Ha. rewrite Hm. split; [by right|]. apply lookup_insert_ne. by intros <-.
  - intros a [= <-]. rewrite Hm, Timer.next_of_insert. auto.
Qed.

Lemma next_of_same h h' a : h !! a = h' !! a -> Timer.next_of h a = Timer.next_of h' a.
Proof. unfold Timer.next_of. by intros ->. Qed.

(** A timer of somebody else. *)
Lemma add_timer_other now timeout i fd e ta i' fd' e' w :
  Mine i fd e ta w -> i' <> i -> is_Some (infos w !! i') -> 0 <= fd' -> IOManager.is_event e' -> (fd', e') <> (fd, e) ->
  Mine i fd e ta (snd (add_timer now timeout i' fd' e' w)).
Proof.
  intros [Hw H1 H2 H3 H4 H5] Hi Hs Hfd He Hne.
  destruct (add_timer_frame now timeout i' fd' e' w Hw) as (_ & E2 & E3 & Hc & Hc' & Ht & Ht' & _).
  split; [by apply add_timer_inv|by rewrite E2|..].
  - intros k f x. rewrite E3. intros Hk Hc0. rewrite Hc in Hc0 by (by apply Hw). by eapply H2.
  - intros a t k f x Ha Hh Hk Hc0. destruct (Ht a t Ha Hh) as [[Ha' Hh']|(_ & _ & Hnew & Hk')].
    + rewrite Hc in Hc0 by (by eapply wi_cb). by eapply H3.
    + rewrite Hk in Hk'. injection Hk' as ->. rewrite Hnew in Hc0. congruence.
  - intros k i0 Hc0. rewrite E2. destruct (Hc' _ _ Hc0) as [|[= -> -> ->]]; [by eapply H4|done].
  - intros a d Ed. destruct (H5 a d Ed) as [Ha Hd]. destruct (Ht' a Ha) as [? Hs']. split; [done|]. by rewrite (next_of_same _ _ _ Hs').
Qed.

(** A timer of the call itself. *)
Lemma add_timer_own now timeout i fd e w :
  Mine i fd e None w -> 0 <= fd -> IOManager.is_event e ->
  Mine i fd e ((fun a => (a, u64 (now + timeout))) <$> fst (add_timer now timeout i fd e w)) (snd (add_timer now timeout i fd e w)).
Proof.
  intros [Hw H1 H2 H3 H4 H5] Hfd He.
  destruct (add_timer_frame now timeout i fd e w Hw) as (_ & E2 & E3 & Hc & Hc' & Ht & Ht' & Hnew).
  split; [by apply add_timer_inv; eauto|by rewrite E2|..].
  - intros k f x. rewrite E3. intros Hk Hc0. rewrite Hc in Hc0 by (by apply Hw). by eapply H2.
  - intros a t k f x Ha Hh Hk Hc0. destruct (Ht a t Ha Hh) as [[Ha' Hh']|(-> & _)]; [|done].
    rewrite Hc in Hc0 by (by eapply wi_cb). specialize (H3 a t k f x Ha' Hh' Hk Hc0). done.
  - intros k i0 Hc0. rewrite E2. destruct (Hc' _ _ Hc0) as [|[= ->]]; [by eapply H4|by left].
  - intros a d Ed. destruct (fst (add_timer now timeout i fd e w)) as [a0|] eqn:E0; [|done]. injection Ed as -> <-. by apply Hnew.
Qed.

(** [cancel_timer] of the pending timer. *)
Lemma cancel_timer_own i fd e ta w :
  Mine i fd e ta w -> exists w', cancel_timer (fst <$> ta) w = Ret tt w' /\ Mine i fd e None w' /\ iom w' = iom w.
Proof.
  intros HM. pose proof HM as [Hw H1 H2 H3 H4 H5]. destruct ta as [[a d]|]; cbn [fmap option_fmap option_map fst cancel_timer].
  2:{ exists w. split; [done|]. split; [done|done]. }
  destruct (H5 a d eq_refl) as [Ha _]. pose proof Hw as [W1 W2 W3 W4 W5]. destruct (Timer.inv_cb _ W2 a Ha) as (t & Et & _).
  destruct (Timer.cancel_pending a t (timers w) W2 Ha Et) as (m' & Hc & Hi & Hh & Hm).
  unfold on_timers. rewrite Hc. cbn [obind]. eexists. split; [done|]. split; [|done].
  split; cbn [with_timers infos closures queue timers]; try done.
  - split; cbn [with_timers infos closures queue timers iom]; try done. intros b u k. rewrite Hh.
    destruct (decide (b = a)) as [->|Hb]; [rewrite lookup_insert_eq; by intros [= <-]|rewrite lookup_insert_ne by done; apply W3].
  - intros b u k f x Hb Hu Hk Hc0. apply Hm in Hb as [Hb Hne]. rewrite Hh, lookup_insert_ne in Hu by done.
    specialize (H3 b u k f x Hb Hu Hk Hc0). simpl in H3. congruence.
Qed.

(** ** The suspension *)

(** What may happen while the call is suspended: the loop does not collect the
    timer of the call before its time, and nobody else turns to its event. *)
Definition calm (fd e : Z) (deadline : option Z) (h : happening) : bool :=
  match h with
  | Expire now => match deadline with Some d => now <? d | None => true end
  | Begin _ _ _ _ _ fd' e' => negb ((fd' =? fd) && (e' =? e))
  | _ => true
  end.
(** The report that the call waits for. *)
Definition wakes (fd e : Z) (h : happening) : bool :=
  match h with Report up fd' events => up && (fd' =? fd) && IOManager.has events e | _ => false end.

(** How the event of the call and the scheduled tasks develop. *)
Record Progress (fd e : Z) (woken : bool) (w w' : world) (ran : list IOManager.task) : Prop := {
  pr_scheduled : IOManager.scheduled (iom w') = IOManager.scheduled (iom w) ++ ran;
  pr_slot : slot fd e w' = slot fd e w \/ (slot fd e w' = [] /\ slot fd e w ⊆ ran);
  pr_woken : woken = true -> slot fd e w' = [] /\ slot fd e w ⊆ ran;
}.

Lemma Progress_same fd e w w' : iom w' = iom w -> Progress fd e false w w' [].
Proof. intros E. unfold slot. split; [by rewrite E, app_nil_r|left; unfold slot; by rewrite E|done]. Qed.

Lemma Progress_trans fd e b1 b2 w w1 w2 r1 r2 :
  Progress fd e b1 w w1 r1 -> Progress fd e b2 w1 w2 r2 -> Progress fd e (b1 || b2) w w2 (r1 ++ r2).
Proof.
  intros [A1 A2 A3] [B1 B2 B3]. split.
  - by rewrite B1, A1, app_assoc.
  - destruct A2 as [A2|[A2 A2']], B2 as [B2|[B2 B2']]; [left; congruence|right; split; [done|rewrite <- A2; set_solver]| |];
      (right; split; [congruence|set_solver]).
  - intros [-> | ->]%orb_true_iff.
    + destruct A3 as [A3 A4]; [done|]. rewrite A3 in B2. split; [by destruct B2 as [|[]]|set_solver].
    + destruct B3 as [B3 B4]; [done|]. split; [done|]. destruct A2 as [A2|[_ ?]]; [rewrite <- A2; set_solver|set_solver].
Qed.

(** An operation of the [IOManager] that schedules what it removes. *)
Lemma Progress_effect fd e b w s' gone :
  IOManager.is_event e -> IOManager.effect (iom w) s' [] gone gone ->
  (b = true -> slot fd e (with_iom s' w) = [] /\ slot fd e w ⊆ gone) -> Progress fd e b w (with_iom s' w) gone.
Proof.
  intros He [_ _ H3 H4] Hb. split; [done| |done]. destruct (H4 fd e He) as [?|[?|[Hn Hs]]]; [by left|by right|left].
  change (IOManager.slot_task fd e s' = IOManager.slot_task fd e (iom w)). rewrite Hn. by destruct (IOManager.slot_task fd e s'); [|set_solver].
Qed.

Section Happenings.
Context (i : N) (fd e : Z).
Hypothesis fd_ok : IOManager.is_fd fd.
Hypothesis e_ok : IOManager.is_event e.

Lemma report_ok up fd' events ta w :
  Mine i fd e ta w ->
  exists w' ran, happen (Report up fd' events) w = Ret tt w' /\ Mine i fd e ta w' /\ Progress fd e (wakes fd e (Report up fd' events)) w w' ran.
Proof.
  intros HM. pose proof (wi_io _ (mi_inv _ _ _ _ _ HM)) as Hio. cbn [happen wakes].
  destruct (IOManager.kernel_report fd' events (iom w)) as [ev|] eqn:Ek.
  - destruct (IOManager.handle_report up fd' events ev (iom w) Hio Ek) as (gone & s' & Hh & Hef & Hw).
    unfold on_iom. rewrite Hh. exists (with_iom s' w), gone. split; [done|]. split; [apply Mine_iom; [apply Hef|done]|].
    apply Progress_effect; [done|done|]. intros [[-> ->%Z.eqb_eq]%andb_true_iff Hb]%andb_true_iff.
    by destruct (Hw eq_refl e e_ok Hb).
  - exists w, []. split; [done|]. split; [done|]. destruct (Progress_same fd e w w eq_refl) as [P1 P2 _]. split; [done|done|].
    intros [[_ ->%Z.eqb_eq]%andb_true_iff _]%andb_true_iff. unfold slot. by rewrite (IOManager.kernel_report_none fd events e).
Qed.

Lemma expire_ok now ta w :
  Mine i fd e ta w -> calm fd e (snd <$> ta) (Expire now) = true ->
  exists w', happen (Expire now) w = Ret tt w' /\ Mine i fd e ta w' /\ iom w' = iom w.
Proof.
  intros [Hw H1 H2 H3 H4 H5] Hcalm. cbn [happen calm] in *. pose proof Hw as [W1 W2 W3 W4 W5].
  destruct (Timer.listExpired_spec now (new_addr w) [] (timers w) W2) as (exp & m' & -> & Hi & _ & _ & _ & He & Hh & Hm);
    [apply Timer.not_pending; [done|apply new_addr_fresh]|].
  eexists. split; [done|]. split; [|done]. cbn [app]. set (cbs := omap id _).
  assert (forall k, k ∈ cbs -> exists a t, a ∈ exp /\ Timer.heap (timers w) !! a = Some t /\ Timer.m_cb t = Some k) as Hcbs.
  { intros k Hk. unfold cbs in Hk. apply list_elem_of_omap in Hk as (o & Ho & Hk). unfold id in Hk. subst o.
    apply list_elem_of_In, in_map_iff in Ho as (a & Ha & Hin%list_elem_of_In). destruct (Timer.heap (timers w) !! a) as [t|] eqn:E; [|done].
    by exists a, t. }
  assert (forall a, fst <$> ta = Some a -> a ∉ exp) as Hmine.
  { intros a Ea Hin. destruct ta as [[a0 d]|]; [|done]. injection Ea as ->. destruct (H5 a d eq_refl) as [_ Hd].
    apply He in Hin as [_ Hdue]. unfold Timer.due in Hdue. rewrite Hd in Hdue. apply Z.ltb_lt in Hcalm. simpl in Hcalm. lia. }
  assert (forall a t, Timer.heap m' !! a = Some t -> exists t0, Timer.heap (timers w) !! a = Some t0 /\ Timer.m_cb t0 = Timer.m_cb t) as Hheap.
  { intros a t. rewrite Hh. case_bool_decide; [|eauto]. intros (t0 & Ht0 & ->)%fmap_Some. exists t0. split; [done|].
    unfold Timer.fired. by destruct (Timer.m_recurring t0). }
  split; cbn [with_queue with_timers infos closures queue timers]; try done.
  - split; cbn [with_queue with_timers infos closures queue timers iom]; try done.
    + intros a t k Ha Hk. destruct (Hheap a t Ha) as (t0 & Ht0 & E). rewrite <- E in Hk. by eapply W3.
    + intros k [Hk|Hk]%elem_of_app; [auto|]. destruct (Hcbs k Hk) as (a & t & _ & Ht & Hc). by eapply W3.
  - intros k f x [Hk|Hk]%elem_of_app Hc; [by eapply H2|]. destruct (Hcbs k Hk) as (a & t & Hin & Ht & Hcb).
    pose proof Hin as [Ha _]%He. exact (Hmine a (H3 a t k f x Ha Ht Hcb Hc) Hin).
  - intros a t k f x Ha Ht Hk Hc. apply Hm in Ha as [Ha _]. destruct (Hheap a t Ht) as (t0 & Ht0 & E). rewrite <- E in Hk. by eapply H3.
  - intros a d Ed. destruct (H5 a d Ed) as [Ha Hd]. assert (a ∉ exp) as Hn by (apply Hmine; by rewrite Ed).
    split; [apply Hm; by split|]. rewrite <- Hd. apply next_of_same. rewrite Hh. by rewrite bool_decide_false.
Qed.

Lemma run_next_ok up ta w :
  Mine i fd e ta w ->
  exists w' ran, happen (RunNext up) w = Ret tt w' /\ Mine i fd e ta w' /\ Progress fd e false w w' ran.
Proof.
  intros HM. pose proof HM as [Hw H1 H2 H3 H4 H5]. cbn [happen]. destruct (queue w) as [|k q] eqn:Eq.
  { exists w, []. split; [done|]. split; [done|by apply Progress_same]. }
  assert (Mine i fd e ta (with_queue q w)) as HM1.
  { split; cbn [with_queue infos closures queue timers]; try done.
    - destruct Hw as [W1 W2 W3 W4 W5]. split; cbn [with_queue infos closures queue timers iom]; try done.
      intros k' Hk'. apply W4. rewrite Eq. by right.
    - intros k' f x Hk'. apply H2. by right. }
  assert (exists w' ran, Ret tt (with_queue q w) = Ret (A := unit) tt w' /\ Mine i fd e ta w' /\ Progress fd e false w w' ran) as Hskip.
  { exists (with_queue q w), []. split; [done|]. split; [done|by apply Progress_same]. }
  unfold run_callback. change (closures (with_queue q w)) with (closures w). destruct (closures w !! k) as [[i' fd' e'|sc f|]|] eqn:Ec; [| |done|done].
  2:{ exists (with_iom (IOManager.schedule [IOManager.RunFiber sc f] (iom w)) (with_queue q w)), [IOManager.RunFiber sc f].
      split; [done|]. split; [|by split; [|left|]]. apply Mine_iom; [|done]. by destruct (wi_io _ Hw). }
  change (infos (with_queue q w)) with (infos w). unfold Timer.OnTimer. case_bool_decide as Ha; [|done].
  unfold timed_out. change (infos (with_queue q w)) with (infos w). destruct Ha as [x Hx]. rewrite Hx. destruct (x =? 0); cbn [negb]; [|done].
  assert (i' <> i) as Hi by (intros ->; refine (H2 k fd' e' _ Ec); by left).
  destruct (wi_hooked _ Hw k i' fd' e' Ec) as (Hs & Hfd' & He').
  set (w1 := with_infos (<[i' := Some ETIMEDOUT]> (infos w)) (with_queue q w)).
  assert (Mine i fd e ta w1) as HM2.
  { destruct HM1 as [[W1 W2 W3 W4 W5] M1 M2 M3 M4 M5]. split; cbn [w1 with_infos infos closures queue timers]; try done.
    - split; cbn [w1 with_infos infos closures queue timers iom]; try done. intros k' i0 f x0 Hk'. destruct (W5 k' i0 f x0 Hk') as [? ?].
      split; [|done]. destruct (decide (i0 = i')) as [->|]; [rewrite lookup_insert_eq; eauto|by rewrite lookup_insert_ne].
    - by rewrite lookup_insert_ne.
    - intros k' i0 Hk'. destruct (M4 k' i0 Hk') as [|Hd]; [by left|right]. cbn in Hd. destruct (decide (i0 = i')) as [->|]; [congruence|].
      by rewrite lookup_insert_ne. }
  destruct (IOManager.cancelEvent_ok up fd' e' (iom w) (wi_io _ Hw) Hfd' He') as (b & s' & Hc & Hef).
  unfold on_iom. change (iom w1) with (iom w). rewrite Hc. cbn [obind].
  exists (with_iom s' w1), (if b then IOManager.slot_task fd' e' (iom w) else []). split; [done|]. split; [apply Mine_iom; [apply Hef|done]|].
  destruct (Progress_effect fd e false w1 s' _ e_ok Hef) as [P1 P2 _]; [done|]. by split.
Qed.

Lemma register_ok up sc self now timeout i' fd' e' w :
  IOManager.Inv (iom w) -> WInv w -> IOManager.is_fd fd' -> IOManager.is_event e' -> slot fd' e' w = [] ->
  exists s', register up sc self now timeout i' fd' e' w
      = Ret (fst (add_timer now timeout i' fd' e' w), up) (with_iom s' (snd (add_timer now timeout i' fd' e' w)))
    /\ IOManager.Inv s' /\ IOManager.scheduled s' = IOManager.scheduled (iom w)
    /\ forall f x, IOManager.is_event x -> IOManager.slot_task f x s'
         = if up && (f =? fd') && (x =? e') then [IOManager.RunFiber sc self] else IOManager.slot_task f x (iom w).
Proof.
  intros Hio Hw Hfd' He' Hfree. unfold register. destruct (add_timer_frame now timeout i' fd' e' w Hw) as (Ei & _).
  destruct (add_timer now timeout i' fd' e' w) as [tm w1]. cbn [fst snd] in *.
  destruct (IOManager.addEvent_free up sc self fd' e' None (iom w) Hio Hfd' He' Hfree) as (s' & Ha & Hef).
  unfold on_iom. rewrite Ei, Ha. cbn [obind]. exists s'. split; [done|]. split; [apply Hef|]. split; [rewrite (IOManager.ef_scheduled _ _ _ _ _ Hef); apply app_nil_r|].
  exact (IOManager.addEvent_slots up sc self fd' e' None (iom w) up s' Hio Hfd' He' Ha).
Qed.

Lemma begin_ok up sc self now timeout fd' e' ta w :
  Mine i fd e ta w -> calm fd e (snd <$> ta) (Begin up sc self now timeout fd' e') = true ->
  exists w', happen (Begin up sc self now timeout fd' e') w = Ret tt w' /\ Mine i fd e ta w' /\ Progress fd e false w w' [].
Proof.
  intros HM Hcalm. cbn [happen calm] in *. destruct (_ && bool_decide (IOManager.slot_task _ _ _ = [])) eqn:Eg.
  2:{ exists w. split; [done|]. split; [done|by apply Progress_same]. }
  apply andb_true_iff in Eg as [[Hfd'%bool_decide_eq_true He']%andb_true_iff Hfree%bool_decide_eq_true].
  assert (IOManager.is_event e') as He2 by (unfold is_eventb in He'; apply orb_true_iff in He' as [?%Z.eqb_eq|?%Z.eqb_eq]; [by left|by right]).
  assert ((fd', e') <> (fd, e)) as Hne by (intros [= -> ->]; by rewrite !Z.eqb_refl in Hcalm).
  pose proof (new_info_fresh w) as Hfresh. set (j := new_info w) in *. set (w0 := with_infos (<[j := Some 0]> (infos w)) w).
  assert (j <> i) as Hj by (intros ->; by rewrite (mi_info _ _ _ _ _ HM) in Hfresh).
  assert (Mine i fd e ta w0) as HM0.
  { destruct HM as [[W1 W2 W3 W4 W5] M1 M2 M3 M4 M5]. split; cbn [w0 with_infos infos closures queue timers]; try done.
    - split; cbn [w0 with_infos infos closures queue timers iom]; try done. intros k' i0 f x Hk'. destruct (W5 k' i0 f x Hk') as [[y Hy] ?].
      split; [|done]. rewrite lookup_insert_ne; [eauto|]. intros <-. congruence.
    - by rewrite lookup_insert_ne.
    - intros k' i0 Hk'. destruct (M4 k' i0 Hk') as [|Hd]; [by left|right]. rewrite lookup_insert_ne; [done|]. intros <-.
      destruct (W5 k' _ _ _ Hk') as [[y Hy] _]. congruence. }
  pose proof (mi_inv _ _ _ _ _ HM0) as HW0.
  destruct (register_ok up sc self now timeout j fd' e' w0 (wi_io _ HW0) HW0 Hfd' He2 Hfree) as (s' & Hr & Hs' & Hsch & Hslot).
  rewrite Hr. cbn [obind]. eexists. split; [done|]. split.
  - apply Mine_iom; [done|]. apply add_timer_other; try done; [unfold w0; cbn [with_infos infos]; rewrite lookup_insert_eq; eauto|exact (proj1 Hfd')].
  - split; [by rewrite app_nil_r| |done]. left. unfold slot. cbn [with_iom iom]. rewrite Hslot by done.
    destruct (Z.eqb_spec fd fd'), (Z.eqb_spec e e'); rewrite ?andb_false_r; subst; done.
Qed.

Lemma happen_ok h ta w :
  Mine i fd e ta w -> calm fd e (snd <$> ta) h = true ->
  exists w' ran, happen h w = Ret tt w' /\ Mine i fd e ta w' /\ Progress fd e (wakes fd e h) w w' ran.
Proof.
  intros HM Hc. destruct h as [up fd' ev|now|up|up sc self now tmo fd' e'].
  - by apply report_ok.
  - destruct (expire_ok now ta w HM Hc) as (w' & H1 & H2 & H3). exists w', []. split; [done|]. split; [done|by apply Progress_same].
  - by apply run_next_ok.
  - destruct (begin_ok up sc self now tmo fd' e' ta w HM Hc) as (w' & H1 & H2 & H3). by exists w', [].
Qed.

Lemma happens_ok l ta w :
  Mine i fd e ta w -> forallb (calm fd e (snd <$> ta)) l = true ->
  exists w' ran, happens l w = Ret tt w' /\ Mine i fd e ta w' /\ Progress fd e (existsb (wakes fd e) l) w w' ran.
Proof.
  revert w. induction l as [|h l IH]; intros w HM Hc; cbn [happens forallb existsb] in *.
  { exists w, []. split; [done|]. split; [done|by apply Progress_same]. }
  apply andb_true_iff in Hc as [Hh Hc]. destruct (happen_ok h ta w HM Hh) as (w1 & r1 & -> & HM1 & P1). cbn [obind].
  destruct (IH w1 HM1 Hc) as (w2 & r2 & -> & HM2 & P2). exists w2, (r1 ++ r2). split; [done|]. split; [done|]. by eapply Progress_trans.
Qed.

(** The whole wait: registration, suspension and the end of the timer. *)
Definition deadline (now timeout : Z) : option Z := if timeout =? no_timeout then None else Some (u64 (now + timeout)).

Lemma wait_ok sc self now timeout l w :
  Mine i fd e None w -> slot fd e w = [] ->
  forallb (calm fd e (deadline now timeout)) l = true -> existsb (wakes fd e) l = true ->
  exists tm w1 w2 w3, register true sc self now timeout i fd e w = Ret (tm, true) w1
    /\ suspend sc self l w1 = Ret tt w2 /\ cancel_timer tm w2 = Ret tt w3
    /\ Mine i fd e None w3 /\ slot fd e w3 = [].
Proof.
  intros HM Hfree Hcalm Hwake. pose proof (mi_inv _ _ _ _ _ HM) as HW.
  destruct (register_ok true sc self now timeout i fd e w (wi_io _ HW) HW fd_ok e_ok Hfree) as (s' & Hr & Hs' & Hsch & Hslot).
  pose proof (add_timer_own now timeout i fd e w HM (proj1 fd_ok) e_ok) as HM1. apply (Mine_iom s') in HM1; [|done].
  set (w1 := with_iom s' (snd (add_timer now timeout i fd e w))) in *.
  set (ta := (fun a => (a, u64 (now + timeout))) <$> fst (add_timer now timeout i fd e w)) in *.
  assert (snd <$> ta = deadline now timeout) as Hd by (unfold ta, add_timer, deadline; by destruct (timeout =? no_timeout)).
  assert (fst <$> ta = fst (add_timer now timeout i fd e w)) as Hta by (unfold ta; by destruct (fst _)).
  rewrite <- Hd in Hcalm. destruct (happens_ok l ta w1 HM1 Hcalm) as (w2 & ran & Hl & HM2 & [P1 _ P3]).
  destruct (P3 Hwake) as [P4 P5]. destruct (cancel_timer_own i fd e ta w2 HM2) as (w3 & Hc & HM3 & E3).
  exists (fst (add_timer now timeout i fd e w)), w1, w2, w3. split; [done|]. split; [|split; [by rewrite <- Hta|split; [done|]]].
  - unfold suspend. rewrite Hl. cbn [obind]. rewrite bool_decide_true; [done|]. rewrite P1, drop_app_length. apply P5.
    unfold slot. cbn [w1 with_iom iom]. rewrite Hslot, !Z.eqb_refl by done. set_solver.
  - unfold slot in *. by rewrite E3.
Qed.

(** An attempt after which the call goes on: it was interrupted, or it would
    have blocked and was woken in time. *)
Definition patient (timeout : Z) (a : attempt) : bool :=
  fails_with a EINTR
  || (fails_with a EAGAIN && a_up a && forallb (calm fd e (deadline (a_now a) timeout)) (a_wait a)
      && existsb (wakes fd e) (a_wait a)).
Definition definitive (a : attempt) : bool := negb (fails_with a EINTR) && negb (fails_with a EAGAIN).

Lemma Mine_call a ta w : Mine i fd e ta w -> Mine i fd e ta (call a w).
Proof. intros. unfold call. destruct (a_ret a =? -1); [by apply Mine_errno|done]. Qed.
Lemma slot_call f x a w : slot f x (call a w) = slot f x w.
Proof. unfold call. by destruct (a_ret a =? -1). Qed.

Lemma retry_ok sc self timeout pre last_ post w :
  Mine i fd e None w -> slot fd e w = [] -> forallb (patient timeout) pre = true -> definitive last_ = true ->
  exists w', retry (Some sc) self fd e timeout i (pre ++ last_ :: post) w = Ret (a_ret last_) w'
    /\ Mine i fd e None w' /\ slot fd e w' = [] /\ (a_ret last_ = -1 -> errno w' = a_errno last_).
Proof.
  revert w. induction pre as [|a pre IH]; intros w HM Hfree Hpre Hlast; cbn [app retry forallb] in *.
  - unfold definitive in Hlast. apply andb_true_iff in Hlast as [->%negb_true_iff ->%negb_true_iff].
    exists (call last_ w). split; [done|]. split; [by apply Mine_call|]. split; [by rewrite slot_call|].
    intros E. unfold call. by rewrite E.
  - apply andb_true_iff in Hpre as [Ha Hpre]. pose proof (Mine_call a None w HM) as HMa.
    assert (slot fd e (call a w) = []) as Hfa by by rewrite slot_call. unfold patient in Ha.
    destruct (fails_with a EINTR); [by apply IH|]. cbn [orb] in Ha.
    apply andb_true_iff in Ha as [[[-> Hup]%andb_true_iff Hcalm]%andb_true_iff Hwake]. rewrite Hup.
    destruct (wait_ok sc self (a_now a) timeout (a_wait a) (call a w) HMa Hfa Hcalm Hwake) as (tm & w1 & w2 & w3 & -> & Hs & Hc & HM3 & Hf3).
    cbn [obind fst snd]. rewrite Hs. cbn [obind]. rewrite Hc. cbn [obind]. rewrite (mi_info _ _ _ _ _ HM3). by apply IH.
Qed.

(** Nobody waits for the event, and no call on it is in progress. *)
Record Idle (w : world) : Prop := {
  id_inv : WInv w;
  id_slot : slot fd e w = [];
  id_alone k i' : closures w !! k = Some (Hooked i' fd e) -> mjoin (infos w !! i') = None;
}.

(** Nothing that can still run belongs to the call with [timer_info] [j]. *)
Definition Released (j : N) (w : world) : Prop :=
  (forall k f x, k ∈ queue w -> closures w !! k <> Some (Hooked j f x))
  /\ (forall a t k f x, a ∈ Timer.m_timers (timers w) -> Timer.heap (timers w) !! a = Some t -> Timer.m_cb t = Some k ->
        closures w !! k <> Some (Hooked j f x)).

End Happenings.

(** Beginning and end of a call. *)
Lemma Mine_start fd e w : Idle fd e w -> Mine (new_info w) fd e None (with_infos (<[new_info w := Some 0]> (infos w)) w).
Proof.
  intros [[W1 W2 W3 W4 W5] H2 H3]. pose proof (new_info_fresh w) as Hf. set (j := new_info w) in *.
  assert (forall k f x, closures w !! k <> Some (Hooked j f x)) as Hn.
  { intros k f x Hk. destruct (W5 k j f x Hk) as [[y Hy] _]. congruence. }
  split; cbn [with_infos infos closures queue timers]; try done.
  - split; cbn [with_infos infos closures queue timers iom]; try done. intros k i' f x Hk. destruct (W5 k i' f x Hk) as [Hs ?].
    split; [|done]. destruct (decide (i' = j)) as [->|]; [rewrite lookup_insert_eq; eauto|by rewrite lookup_insert_ne].
  - apply lookup_insert_eq.
  - intros a t k f x _ _ _ Hc. by apply Hn in Hc.
  - intros k i' Hk. right. rewrite lookup_insert_ne; [by eapply H3|]. intros <-. by apply Hn in Hk.
Qed.

Lemma Mine_finish i fd e w :
  Mine i fd e None w -> slot fd e w = [] ->
  Idle fd e (with_infos (<[i := None]> (infos w)) w) /\ Released i (with_infos (<[i := None]> (infos w)) w).
Proof.
  intros [[W1 W2 W3 W4 W5] M1 M2 M3 M4 M5] Hfree. split; [split; [split|done|]|split].
  all: cbn [with_infos infos closures queue timers iom]; try done.
  - intros k i' f x Hk. destruct (W5 k i' f x Hk) as [Hs ?]. split; [|done].
    destruct (decide (i' = i)) as [->|]; [rewrite lookup_insert_eq; eauto|by rewrite lookup_insert_ne].
  - intros k i' Hk. destruct (decide (i' = i)) as [->|Hne]; [by rewrite lookup_insert_eq|]. rewrite lookup_insert_ne by done.
    by destruct (M4 k i' Hk).
  - intros a t k f x Ha Ht Hk Hc. by specialize (M3 a t k f x Ha Ht Hk Hc).
Qed.

(** A socket whose calls the hooks take over; twice its descriptor is an
    [int], which [addEvent] may compute. *)
Definition hooked_socket (fd : Z) (ctx : FdContext) (w : world) : Prop :=
  IOManager.is_fd fd /\ entry fd (fds w) = Some ctx /\ m_isClosed ctx = false /\ m_isSocket ctx = true /\ m_isUserNonBlock ctx = false.

(** C17. To its fiber a hooked call is the blocking call: after any number of
    interruptions and of waits that end before the timeout of the socket,
    whatever the loop and other fibers do meanwhile, it returns the first
    answer of the kernel that is neither EINTR nor EAGAIN, with its [errno],
    and leaves neither an event nor a timer behind. *)
Theorem do_io_is_the_blocking_call (sc self : N) (fd event timeout_so : Z) (ctx : FdContext)
    (pre post : list attempt) (last_ : attempt) (w : world) :
  hooked_socket fd ctx w -> IOManager.is_event event -> Idle fd event w ->
  forallb (patient fd event (getTimeout timeout_so ctx)) pre = true -> definitive last_ = true ->
  exists w', do_io true (Some sc) self fd event timeout_so (pre ++ last_ :: post) w = Ret (a_ret last_) w'
    /\ (a_ret last_ = -1 -> errno w' = a_errno last_)
    /\ Idle fd event w' /\ Released (new_info w) w'.
Proof.
  intros (Hfd & He & Hc1 & Hc2 & Hc3) Hev Hid Hpre Hlast. unfold do_io. cbn [negb]. rewrite get_lookup, He by (destruct Hfd; lia). rewrite Hc1, Hc2, Hc3. cbn [negb orb].
  destruct (retry_ok (new_info w) fd event Hfd Hev sc self (getTimeout timeout_so ctx) pre last_ post
    (with_infos (<[new_info w := Some 0]> (infos w)) w)) as (w1 & -> & HM & Hs & Herr); [by apply Mine_start|apply Hid|done|done|].
  cbn [obind]. eexists. split; [done|]. split; [done|]. by apply Mine_finish.
Qed.

(** A socket with a timeout of one second, in a process that does nothing. *)
Definition timed_socket : FdContext := MkFdContext true true true false false 5 1000 no_timeout.
Definition quiet_world : world :=
  MkWorld (MkTable (<[5%nat := Some timed_socket]> (replicate 64 None)) {[5 := MkKfile true (Z.lor O_RDWR O_NONBLOCK)]})
    IOManager.create Timer.empty_manager ∅ ∅ [] 0.
Lemma quiet_world_idle fd e : IOManager.is_event e -> 0 <= fd < 32 -> Idle fd e quiet_world.
Proof.
  intros He Hfd. split; [split|..].
  - apply IOManager.io_Inv_create.
  - apply Timer.Inv_empty.
  - intros a t k Ha. by change (None = Some t) in Ha.
  - intros k Hk. by apply not_elem_of_nil in Hk.
  - intros k i f x Hk. by change (None = Some (Hooked i f x)) in Hk.
  - unfold slot, IOManager.slot_task, IOManager.ctx. destruct (Z.ltb_spec fd 0); [lia|].
    change (IOManager.m_fdContexts (iom quiet_world)) with (replicate 32 IOManager.new_FdContext).
    rewrite lookup_replicate_2 by lia. by destruct He as [-> | ->].
  - intros k i Hk. by change (None = Some (Hooked i fd e)) in Hk.
Qed.
Lemma timed_socket_hooked : hooked_socket 5 timed_socket quiet_world.
Proof. repeat split; discriminate. Qed.

(** Interrupted once, then suspended while another fiber waits for another
    socket and the loop looks at the timers before the time. *)
Definition slow_read : list attempt :=
  [MkAttempt (-1) EINTR 0 true [];
   MkAttempt (-1) EAGAIN 100 true [Begin true 1 8 150 20 6 READ; Expire 700; RunNext true; Report true 5 READ]].
Lemma do_io_is_the_blocking_call_witness :
  exists w', read true (Some 1%N) 7%N 5 (slow_read ++ [MkAttempt 42 0 0 true []]) quiet_world = Ret 42 w'
    /\ Idle 5 READ w' /\ Released (new_info quiet_world) w'.
Proof.
  destruct (do_io_is_the_blocking_call 1 7 5 READ SO_RCVTIMEO timed_socket slow_read [] (MkAttempt 42 0 0 true []) quiet_world)
    as (w' & H1 & _ & H2 & H3).
  - apply timed_socket_hooked.
  - by left.
  - apply quiet_world_idle; [by left|lia].
  - vm_compute. reflexivity.
  - reflexivity.
  - exists w'. split; [exact H1|]. split; [exact H2|exact H3].
Defined.

(** C30. A hooked [connect] that has to wait returns what the kernel says of the
    connection once the socket is writable, and leaves nothing behind. *)
Theorem connect_waits_for_completion (sc self : N) (fd timeout : Z) (ctx : FdContext) (a : attempt) (err : Z) (w : world) :
  hooked_socket fd ctx w -> Idle fd WRITE w -> fails_with a EINPROGRESS = true -> a_up a = true ->
  forallb (calm fd WRITE (deadline (a_now a) timeout)) (a_wait a) = true -> existsb (wakes fd WRITE) (a_wait a) = true ->
  exists w', connect_with_timeout true (Some sc) self fd timeout a (0, err) w = Ret (if err =? 0 then 0 else -1) w'
    /\ (err <> 0 -> errno w' = err) /\ Idle fd WRITE w' /\ Released (new_info w) w'.
Proof.
  intros (Hfd & He & Hc1 & Hc2 & Hc3) Hid Hfail Hup Hcalm Hwake. unfold connect_with_timeout. cbn [negb]. rewrite get_lookup, He by (destruct Hfd; lia).
  rewrite Hc1, Hc2, Hc3, Hfail, Hup. cbn [negb orb].
  assert (a_ret a = -1) as Hret by (apply andb_true_iff in Hfail as [?%Z.eqb_eq _]; done). rewrite Hret. cbn [Z.eqb].
  pose proof (Mine_start fd WRITE w Hid) as HM0. unfold call. rewrite Hret. cbn [Z.eqb Pos.eqb].
  apply (Mine_errno (a_errno a)) in HM0. change (new_info (with_errno (a_errno a) w)) with (new_info w).
  destruct (wait_ok (new_info w) fd WRITE Hfd (or_intror eq_refl) sc self (a_now a) timeout (a_wait a)
    (with_errno (a_errno a) (with_infos (<[new_info w := Some 0]> (infos w)) w)) HM0 (id_slot _ _ _ Hid) Hcalm Hwake)
    as (tm & w1 & w2 & w3 & Hr & Hs & Hc & HM3 & Hf3).
  change (with_infos _ (with_errno (a_errno a) w)) with (with_errno (a_errno a) (with_infos (<[new_info w := Some 0]> (infos w)) w)).
  rewrite Hr. cbn [obind fst snd]. rewrite Hs. cbn [obind]. rewrite Hc. cbn [obind]. rewrite (mi_info _ _ _ _ _ HM3). cbn [mjoin option_join Z.eqb negb].
  unfold so_error. cbn [fst snd Z.eqb]. destruct (Z.eqb_spec err 0) as [->|Hne]; cbn [obind]; eexists; (split; [done|]).
  - split; [done|]. by apply Mine_finish.
  - split; [done|]. apply (Mine_errno err) in HM3. by apply (Mine_finish _ _ _ (with_errno err w3)).
Qed.

Lemma connect_waits_for_completion_witness :
  exists w', connect_with_timeout true (Some 1%N) 7%N 5 5000 (MkAttempt (-1) EINPROGRESS 100 true [Expire 5000; Report true 5 WRITE]) (0, 111) quiet_world
      = Ret (-1) w' /\ errno w' = 111 /\ Released (new_info quiet_world) w'.
Proof.
  destruct (connect_waits_for_completion 1 7 5 5000 timed_socket
    (MkAttempt (-1) EINPROGRESS 100 true [Expire 5000; Report true 5 WRITE]) 111 quiet_world) as (w' & H1 & H2 & _ & H3).
  - apply timed_socket_hooked.
  - apply quiet_world_idle; [by right|lia].
  - reflexivity.
  - reflexivity.
  - vm_compute. reflexivity.
  - reflexivity.
  - exists w'. split; [exact H1|]. split; [apply H2; discriminate|exact H3].
Defined.

(** ** When the timeout passes *)

(** The loop collects the timer and runs its callback, which schedules the
    fiber; [timer->cancel()] then erases [end()], as the collected timer kept
    its callback.  The branch that reports ETIMEDOUT is not reached. *)
Theorem io_timeout_is_undefined :
  read true (Some 1%N) 7%N 5 [MkAttempt (-1) EAGAIN 100 true [Expire 1200; RunNext true]] quiet_world = UB
  /\ connect_with_timeout true (Some 1%N) 7%N 5 5000 (MkAttempt (-1) EINPROGRESS 100 true [Expire 5200; RunNext true]) (0, 0) quiet_world = UB.
Proof. split; vm_compute; reflexivity. Qed.

(** Even a report in time is no help when the loop collects the timer before
    the fiber runs again. *)
Theorem late_resume_is_undefined :
  read true (Some 1%N) 7%N 5 [MkAttempt (-1) EAGAIN 100 true [Report true 5 READ; Expire 1200]] quiet_world = UB.
Proof. vm_compute. reflexivity. Qed.

(** Two fibers that read one socket end the process. *)
Theorem two_readers_abort :
  exists w, register true 1 7 0 no_timeout 0 5 READ quiet_world = Ret (None, true) w
    /\ exists w', read true (Some 1%N) 8%N 5 [MkAttempt (-1) EAGAIN 100 true []] w = Throw AssertFailed w'.
Proof. eexists. split; [vm_compute; reflexivity|]. eexists. vm_compute. reflexivity. Qed.

(** A fiber that sleeps for more than 49 days is woken too early. *)
Theorem sleep_wraps :
  exists w, sleep true 0 (Some 1%N) 7%N 4294968 0 [Expire 705; RunNext true] quiet_world = Ret 0 w.
Proof. eexists. vm_compute. reflexivity. Qed.

End HookIo.
