(* ===== verification/ConnectTimeout.v ===== *)
(** * The connect timeout: [HookInit] and [connect] of [luwu/luwu/hook.cpp]

    [s_connect_timeout] is the copy that the hook keeps of the variable
    [tcp.connect.timeout] of the configuration.  A listener of the variable
    updates it, and [connect] waits with it.  The conversion of the text of a
    variable to [int] ([boost::lexical_cast]) is a parameter. *)
From S2P Require Import Prelude Timer IOManager FdManager Config HookIo.
Local Open Scope Z_scope.

Module ConnectTimeout.
Import Config.

Section hook.
Context (from_str : unit -> str -> option Z).

(** The static variables: [hook_key] is the key that the listener of the hook got. *)
Record statics := MkStatics {
  g_tcp_connect_timeout : ConfigVar unit Z;
  s_callbackId : Z;
  s_connect_timeout : Z;
  hook_key : Z;
}.

(** [HookInit::HookInit], after the variable is created; [id] is the number of
    listeners of [int] variables so far. *)
Definition HookInit (id : Z) : statics :=
  let x := new_var (bs "tcp.connect.timeout") tt 5000 (bs "tcp connect timeout") in
  let '(key, (id, y)) := addListener id x in
  MkStatics y id (u64 (m_val x)) key.

(** The listener of the hook, and the calls of a change in their order; the
    other listeners do not know the copy. *)
Definition on_change (key copy : Z) (c : call) : Z := if fst (fst c) =? key then u64 (snd c) else copy.
Definition notify (r : ConfigVar unit Z * list call) (g : statics) : statics :=
  MkStatics (fst r) (s_callbackId g) (fold_left (on_change (hook_key g)) (snd r) (s_connect_timeout g)) (hook_key g).

(** What the program does with the variable. *)
Inductive change :=
  | SetValue (v : Z)
  | FromString (s : str)
  | AddListener
  | DelListener (key : Z)
  | ClearListener.
Definition with_var (x : ConfigVar unit Z) (id : Z) (g : statics) : statics := MkStatics x id (s_connect_timeout g) (hook_key g).
Definition apply (g : statics) (c : change) : statics :=
  let x := g_tcp_connect_timeout g in
  match c with
  | SetValue v => notify (setValue v x) g
  | FromString s => notify (snd (fromString from_str s x)) g
  | AddListener => let '(_, (id, x)) := addListener (s_callbackId g) x in with_var x id g
  | DelListener key => with_var (delListener key x) (s_callbackId g) g
  | ClearListener => with_var (clearListener x) (s_callbackId g) g
  end.

(** [connect]. *)
Definition connect (g : statics) (hook : bool) (this : option N) (self : N) (sockfd : Z) (a : HookIo.attempt) (so : Z * Z)
    : M HookIo.world Z :=
  HookIo.connect_with_timeout hook this self sockfd (s_connect_timeout g) a so.

(** ** The copy follows the variable *)
Record Inv (g : statics) : Prop := {
  inv_listens : hook_key g ∈ m_callbacks (g_tcp_connect_timeout g);
  inv_copy : s_connect_timeout g = u64 (m_val (g_tcp_connect_timeout g));
}.

(** The changes that leave the listener of the hook in place. *)
Definition keeps (key : Z) (c : change) : bool :=
  match c with DelListener k => negb (k =? key) | ClearListener => false | _ => true end.

Lemma HookInit_inv id : Inv (HookInit id).
Proof. split; [by left|done]. Qed.

Lemma fold_calls key old v ks copy :
  fold_left (on_change key) (map (fun k => (k, old, v)) ks) copy = if decide (key ∈ ks) then u64 v else copy.
Proof.
  revert copy. induction ks as [|k ks IH]; intros copy; cbn [map fold_left]; [by rewrite decide_False by apply not_elem_of_nil|].
  rewrite IH. unfold on_change. cbn [fst snd]. destruct (Z.eqb_spec k key) as [->|Hne].
  - rewrite (decide_True (P := key ∈ key :: ks)) by (by left). by destruct (decide _).
  - by rewrite (decide_ext (key ∈ ks) (key ∈ k :: ks)) by set_solver.
Qed.

Lemma setValue_inv v g : Inv g -> Inv (notify (setValue v (g_tcp_connect_timeout g)) g).
Proof.
  intros [Hk Hc]. unfold setValue. destruct (decide _) as [->|Hne]; [by split|]. split; [exact Hk|]. cbn -[fold_left map].
  by rewrite fold_calls, decide_True.
Qed.

Lemma apply_key g c : hook_key (apply g c) = hook_key g.
Proof. by destruct c. Qed.

Lemma apply_inv g c : keeps (hook_key g) c = true -> Inv g -> Inv (apply g c).
Proof.
  intros Hkeep HI. destruct c as [v|s| |k|]; cbn -[setValue notify] in *; [by apply setValue_inv| | | |done].
  - destruct (from_str _ s); [by apply setValue_inv|]. by destruct HI.
  - destruct HI as [Hk Hc]. split; cbn; [set_solver|done].
  - destruct HI as [Hk Hc]. apply negb_true_iff, Z.eqb_neq in Hkeep. split; cbn; [|done]. by apply list_elem_of_filter.
Qed.

Lemma run_inv cs g : forallb (keeps (hook_key g)) cs = true -> Inv g -> Inv (fold_left apply cs g).
Proof.
  revert g. induction cs as [|c cs IH]; intros g Hk HI; [done|]. cbn in *. apply andb_true_iff in Hk as [H1 H2].
  apply IH; [by rewrite apply_key|by apply apply_inv].
Qed.

(** Whatever happened to the configuration before, [connect] waits as long as
    the variable says, and for ever when it is -1. *)
Theorem connect_uses_the_configured_timeout (id : Z) (cs : list change) (hook : bool) (this : option N) (self : N) (fd : Z)
    (a : HookIo.attempt) (so : Z * Z) (w : HookIo.world) :
  let g := fold_left apply cs (HookInit id) in
  forallb (keeps (hook_key (HookInit id))) cs = true ->
  connect g hook this self fd a so w
    = HookIo.connect_with_timeout hook this self fd (u64 (m_val (g_tcp_connect_timeout g))) a so w
  /\ (m_val (g_tcp_connect_timeout g) = -1 -> s_connect_timeout g = FdManager.no_timeout).
Proof.
  intros g Hk. destruct (run_inv cs (HookInit id) Hk (HookInit_inv id)) as [_ Hc]. unfold connect, g. rewrite Hc.
  split; [done|]. by intros ->.
Qed.

(** Once the listeners of the variable are cleared, the copy is frozen. *)
Theorem cleared_listener_freezes_the_timeout (id v : Z) :
  v <> 5000 ->
  let g := fold_left apply [ClearListener; SetValue v] (HookInit id) in
  m_val (g_tcp_connect_timeout g) = v /\ s_connect_timeout g = 5000.
Proof. intros Hv g. subst g. cbn. unfold setValue. cbn. by rewrite decide_False. Qed.
End hook.

(** A negative timeout other than -1 is a time in the past: the loop collects
    the timer at once and the connection ends as one that timed out. *)
Theorem negative_timeout_is_in_the_past :
  let g := fold_left (apply (fun _ _ => None)) [SetValue (-2)] (HookInit 0) in
  connect g true (Some 1%N) 7%N 5 (HookIo.MkAttempt (-1) HookIo.EINPROGRESS 100 true [HookIo.Expire 100; HookIo.RunNext true]) (0, 0)
    HookIo.quiet_world = UB.
Proof. vm_compute. reflexivity. Qed.

End ConnectTimeout.
