(* ===== verification/Socket.v ===== *)
(** * Sockets: [luwu/luwu/socket.cpp]

    A [Socket] wraps a descriptor.  The kernel, behind the hooks, is an
    interface: its calls, the table of descriptor contexts that [init] asks and
    the cancelling of events, with the set of open descriptors as what its laws
    speak of.  An operation maps the socket and the kernel to its result and to
    both of them afterwards. *)
From S2P Require Import Prelude StdString Codec Address FdManager Hook.
Import StdString.
Local Open Scope Z_scope.

Module Socket.

Definition SOCK_STREAM : Z := 1.
Definition SOCK_DGRAM : Z := 2.
Definition SO_ERROR : Z := 4.
Definition SO_REUSEADDR : Z := 2.
Definition IPPROTO_TCP : Z := 6.
Definition TCP_NODELAY : Z := 1.
Definition SOMAXCONN : Z := 4096.
Definition READ : Z := 1.
Definition WRITE : Z := 4.

(** The transfers: their sizes, flags and the other end that is named. *)
Inductive transfer :=
| CSend (buffer : str) (flags : Z)
| CSendMsg (buffer : list str) (flags : Z) (to : option Address.Address)
| CSendTo (buffer : str) (flags : Z) (to : Address.Address)
| CRecv (length flags : Z)
| CRecvMsg (lengths : list Z) (flags : Z) (from : option Address.Address)
| CRecvFrom (length flags : Z) (from : Address.Address).

Class Kernel := {
  kst : Type;
  sys_socket : Z -> Z -> Z -> kst -> Z * kst;
  sys_close : Z -> kst -> Z * kst;
  sys_bind : Z -> Address.Address -> kst -> Z * kst;
  sys_connect : Z -> Address.Address -> kst -> Z * kst;
  sys_connect_with_timeout : Z -> Address.Address -> Z -> kst -> Z * kst;
  sys_listen : Z -> Z -> kst -> Z * kst;
  sys_accept : Z -> kst -> Z * kst;
  sys_transfer : Z -> transfer -> kst -> Z * kst;
  (** descriptor, level, option and the integers of the value *)
  sys_setsockopt : Z -> Z -> Z -> list Z -> kst -> Z * kst;
  sys_getsockopt : Z -> Z -> Z -> kst -> option Z;
  sys_getpeername : Z -> kst -> option Address.Address;
  sys_getsockname : Z -> kst -> option Address.Address;
  fd_context : Z -> kst -> option FdManager.FdContext;
  (** [IOManager::cancelEvent] and [cancelAll] *)
  io_cancel : Z -> option Z -> kst -> bool * kst;
}.

Class KernelLaws (K : Kernel) := {
  open : kst -> gset Z;
  (** [-1], or a descriptor that was not open *)
  opens (fd : Z) (k k' : kst) : Prop := (fd = -1 /\ open k' = open k) \/ ((fd <> -1) /\ (fd ∉ open k) /\ open k' = ({[fd]} ∪ open k));
  socket_opens f t p k : let '(fd, k') := sys_socket f t p k in opens fd k k';
  accept_opens s k : let '(fd, k') := sys_accept s k in opens fd k k';
  close_closes fd k : open (snd (sys_close fd k)) = open k ∖ {[fd]};
  bind_open fd a k : open (snd (sys_bind fd a k)) = open k;
  connect_open fd a k : open (snd (sys_connect fd a k)) = open k;
  connect_timeout_open fd a t k : open (snd (sys_connect_with_timeout fd a t k)) = open k;
  connect_bad a k : fst (sys_connect (-1) a k) <> 0;
  connect_timeout_bad a t k : fst (sys_connect_with_timeout (-1) a t k) <> 0;
  listen_open fd n k : open (snd (sys_listen fd n k)) = open k;
  transfer_open fd x k : open (snd (sys_transfer fd x k)) = open k;
  setsockopt_open fd l o v k : open (snd (sys_setsockopt fd l o v k)) = open k;
  cancel_open fd e k : open (snd (io_cancel fd e k)) = open k;
}.

(** Which address each descriptor was bound to, and which descriptors accept
    connections; a call is about its own descriptor. *)
Class ListenLaws (K : Kernel) := {
  bound : kst -> gmap Z Address.Address;
  accepting : kst -> gset Z;
  same_net (fd : Z) (k k' : kst) : Prop := forall i, i <> fd -> bound k' !! i = bound k !! i /\ (i ∈ accepting k' <-> i ∈ accepting k);
  net_socket f t p k : let '(fd, k') := sys_socket f t p k in same_net fd k k';
  net_close fd k : same_net fd k (snd (sys_close fd k));
  net_bind fd a k : let '(rt, k') := sys_bind fd a k in same_net fd k k' /\ (rt = 0 -> bound k' !! fd = Some a);
  net_listen fd n k :
    let '(rt, k') := sys_listen fd n k in same_net fd k k' /\ bound k' !! fd = bound k !! fd /\ (rt = 0 -> fd ∈ accepting k');
  net_setsockopt fd l o v k : same_net fd k (snd (sys_setsockopt fd l o v k));
}.

Record Socket := MkSocket {
  m_sock : Z;
  m_family : Z;
  m_type : Z;
  m_protocol : Z;
  m_isConnected : bool;
  m_localAddress : option Address.Address;
  m_remoteAddress : option Address.Address;
}.
Definition new_socket (family type protocol : Z) : Socket := MkSocket (-1) family type protocol false None None.
Definition with_sock (fd : Z) (s : Socket) : Socket :=
  MkSocket fd (m_family s) (m_type s) (m_protocol s) (m_isConnected s) (m_localAddress s) (m_remoteAddress s).
Definition with_connected (b : bool) (s : Socket) : Socket :=
  MkSocket (m_sock s) (m_family s) (m_type s) (m_protocol s) b (m_localAddress s) (m_remoteAddress s).
Definition with_local (a : option Address.Address) (s : Socket) : Socket :=
  MkSocket (m_sock s) (m_family s) (m_type s) (m_protocol s) (m_isConnected s) a (m_remoteAddress s).
Definition with_remote (a : option Address.Address) (s : Socket) : Socket :=
  MkSocket (m_sock s) (m_family s) (m_type s) (m_protocol s) (m_isConnected s) (m_localAddress s) a.

Definition CreateTCP (addr : Address.Address) : Socket := new_socket (Address.getFamily addr) SOCK_STREAM 0.
Definition CreateUDP (addr : Address.Address) : Socket := new_socket (Address.getFamily addr) SOCK_DGRAM 0.
Definition CreateTCP4 : Socket := new_socket Address.AF_INET SOCK_STREAM 0.
Definition CreateUDP4 : Socket := new_socket Address.AF_INET SOCK_DGRAM 0.
Definition CreateTCP6 : Socket := new_socket Address.AF_INET6 SOCK_STREAM 0.
Definition CreateUDP6 : Socket := new_socket Address.AF_INET6 SOCK_DGRAM 0.
Definition CreateUnixTCP : Socket := new_socket Address.AF_UNIX SOCK_STREAM 0.
Definition CreateUnixUDP : Socket := new_socket Address.AF_UNIX SOCK_DGRAM 0.

Definition isValid (s : Socket) : bool := negb (m_sock s =? -1).

Section socket.
Context `{K : Kernel}.
Definition St : Type := Socket * kst.

(** ** Options *)
Definition setOption (level name : Z) (value : list Z) (st : St) : bool * St :=
  let '(s, k) := st in
  let '(rt, k) := sys_setsockopt (m_sock s) level name value k in (rt =? 0, (s, k)).
Definition getOption (level name : Z) (st : St) : option Z := sys_getsockopt (m_sock (fst st)) level name (snd st).
(** [struct timeval]: the members are converted to [int]. *)
Definition timeval (timeout : Z) : list Z := [s32 (timeout / 1000); s32 (timeout mod 1000 * 1000)].
Definition setSendTimeout (timeout : Z) (st : St) : St := snd (setOption Hook.SOL_SOCKET FdManager.SO_SNDTIMEO (timeval timeout) st).
Definition setRecvTimeout (timeout : Z) (st : St) : St := snd (setOption Hook.SOL_SOCKET FdManager.SO_RCVTIMEO (timeval timeout) st).
Definition get_timeout (type : Z) (st : St) : Z :=
  match fd_context (m_sock (fst st)) (snd st) with Some ctx => FdManager.getTimeout type ctx | None => u64 (-1) end.
Definition getSendTimeout : St -> Z := get_timeout FdManager.SO_SNDTIMEO.
Definition getRecvTimeout : St -> Z := get_timeout FdManager.SO_RCVTIMEO.
Definition getError (st : St) : Z := default (-1) (getOption Hook.SOL_SOCKET SO_ERROR st).

(** ** Addresses: an answer is kept, a failure is not. *)
Definition unknown (s : Socket) : Address.Address := Address.UnknownAddress (m_family s) (replicate 14 Byte.x00).
Definition getRemoteAddress (st : St) : Address.Address * St :=
  let '(s, k) := st in
  match m_remoteAddress s with
  | Some a => (a, (s, k))
  | None => match sys_getpeername (m_sock s) k with Some a => (a, (with_remote (Some a) s, k)) | None => (unknown s, (s, k)) end
  end.
Definition getLocalAddress (st : St) : Address.Address * St :=
  let '(s, k) := st in
  match m_localAddress s with
  | Some a => (a, (s, k))
  | None => match sys_getsockname (m_sock s) k with Some a => (a, (with_local (Some a) s, k)) | None => (unknown s, (s, k)) end
  end.

(** ** The descriptor *)
Definition initSock (st : St) : St :=
  let '(_, st) := setOption Hook.SOL_SOCKET SO_REUSEADDR [1] st in
  if m_type (fst st) =? SOCK_STREAM then snd (setOption IPPROTO_TCP TCP_NODELAY [1] st) else st.
Definition newSock (st : St) : St :=
  let '(s, k) := st in
  let '(fd, k) := sys_socket (m_family s) (m_type s) (m_protocol s) k in
  let s := with_sock fd s in
  if fd =? -1 then (s, k) else initSock (s, k).
Definition ensure (st : St) : St := if isValid (fst st) then st else newSock st.

Definition close (st : St) : bool * St :=
  let '(s, k) := st in
  if negb (m_isConnected s) && (m_sock s =? -1) then (true, (s, k))
  else
    let s := with_connected false s in
    if m_sock s =? -1 then (false, (s, k))
    else let '(_, k) := sys_close (m_sock s) k in (false, (with_sock (-1) s, k)).

Definition bind (addr : Address.Address) (st : St) : bool * St :=
  let '(s, k) := ensure st in
  if negb (Address.getFamily addr =? m_family s) then (false, (s, k))
  else
    let '(rt, k) := sys_bind (m_sock s) addr k in
    if negb (rt =? 0) then (false, (s, k)) else let '(_, st) := getLocalAddress (s, k) in (true, st).

(** [timeout] is [(uint64_t) -1] when none is given. *)
Definition connect (addr : Address.Address) (timeout : Z) (st : St) : bool * St :=
  let '(s, k) := st in
  let '(s, k) := ensure (with_remote (Some addr) s, k) in
  if negb (Address.getFamily addr =? m_family s) then (false, (s, k))
  else
    let '(rt, k) := if timeout =? u64 (-1) then sys_connect (m_sock s) addr k else sys_connect_with_timeout (m_sock s) addr timeout k in
    if negb (rt =? 0) then let '(_, st) := close (s, k) in (false, st)
    else
      let '(_, st) := getRemoteAddress (with_connected true s, k) in
      let '(_, st) := getLocalAddress st in (true, st).
Definition reconnect (timeout : Z) (st : St) : bool * St :=
  let '(s, k) := st in
  match m_remoteAddress s with
  | None => (false, (s, k))
  | Some a => connect a timeout (with_local None s, k)
  end.
Definition listen (backlog : Z) (st : St) : bool * St :=
  let '(s, k) := st in
  if isValid s then let '(rt, k) := sys_listen (m_sock s) backlog k in (rt =? 0, (s, k)) else (false, (s, k)).

Definition init (fd : Z) (st : St) : bool * St :=
  let '(s, k) := st in
  match fd_context fd k with
  | Some ctx =>
      if FdManager.m_isSocket ctx && negb (FdManager.m_isClosed ctx)
      then
        let st := initSock (with_connected true (with_sock fd s), k) in
        let '(_, st) := getRemoteAddress st in
        let '(_, st) := getLocalAddress st in (true, st)
      else (false, (s, k))
  | None => (false, (s, k))
  end.
(** The new socket, or null. *)
Definition accept (s : Socket) (k : kst) : option Socket * kst :=
  let '(newFd, k) := sys_accept (m_sock s) k in
  if newFd =? -1 then (None, k)
  else
    let '(ok, (sock, k)) := init newFd (new_socket (m_family s) (m_type s) (m_protocol s), k) in
    if ok : bool then (Some sock, k) else (None, snd (snd (close (sock, k)))).
(** The destructor. *)
Definition destroy (st : St) : kst := snd (snd (close st)).

(** ** Transfers: the result is a [size_t]. *)
Definition transfer_on (x : transfer) (st : St) : Z * St :=
  let '(s, k) := st in
  if m_isConnected s then let '(rt, k) := sys_transfer (m_sock s) x k in (u64 rt, (s, k)) else (u64 (-1), (s, k)).
Definition send (buffer : str) (flags : Z) := transfer_on (CSend buffer flags).
Definition send_iov (buffer : list str) (flags : Z) := transfer_on (CSendMsg buffer flags None).
Definition sendTo (buffer : str) (to : Address.Address) (flags : Z) := transfer_on (CSendTo buffer flags to).
Definition sendTo_iov (buffer : list str) (to : Address.Address) (flags : Z) := transfer_on (CSendMsg buffer flags (Some to)).
Definition recv (length flags : Z) := transfer_on (CRecv length flags).
Definition recv_iov (lengths : list Z) (flags : Z) := transfer_on (CRecvMsg lengths flags None).
Definition recvFrom (length : Z) (from : Address.Address) (flags : Z) := transfer_on (CRecvFrom length flags from).
Definition recvFrom_iov (lengths : list Z) (from : Address.Address) (flags : Z) := transfer_on (CRecvMsg lengths flags (Some from)).

(** ** Waiting fibers *)
Definition cancel (event : option Z) (st : St) : bool * St :=
  let '(s, k) := st in let '(b, k) := io_cancel (m_sock s) event k in (b, (s, k)).
Definition cancelRead := cancel (Some READ).
Definition cancelWrite := cancel (Some WRITE).
Definition cancelAccept := cancel (Some READ).
Definition cancelAll := cancel None.

Definition bit (b : bool) : str := if b then bs "1" else bs "0".
Definition dump `{!Platform} (s : Socket) : str :=
  bs "[Socket sock=" ++ to_string (m_sock s) ++ bs " is_connected=" ++ bit (m_isConnected s) ++ bs " family=" ++ to_string (m_family s)
  ++ bs " type=" ++ to_string (m_type s) ++ bs " protocol=" ++ to_string (m_protocol s)
  ++ match m_localAddress s with Some a => bs " local_address=" ++ Address.dump a | None => [] end
  ++ match m_remoteAddress s with Some a => bs " remote_address=" ++ Address.dump a | None => [] end
  ++ bs "]".
End socket.

(** ** Who owns which descriptor *)
Inductive op :=
| Bind (a : Address.Address) | Connect (a : Address.Address) (timeout : Z) | Reconnect (timeout : Z) | Listen (backlog : Z) | Close
| SetOption (level name : Z) (value : list Z) | Transfer (x : transfer) | Remote | Local | Cancel (event : option Z).

Section owners.
Context `{K : Kernel, L : !KernelLaws K}.

Definition run_op (o : op) (st : St) : St :=
  match o with
  | Bind a => snd (bind a st)
  | Connect a t => snd (connect a t st)
  | Reconnect t => snd (reconnect t st)
  | Listen n => snd (listen n st)
  | Close => snd (close st)
  | SetOption l n v => snd (setOption l n v st)
  | Transfer x => snd (transfer_on x st)
  | Remote => snd (getRemoteAddress st)
  | Local => snd (getLocalAddress st)
  | Cancel e => snd (cancel e st)
  end.

(** The open descriptors are those of others, [B], and the socket's own. *)
Definition own (s : Socket) : gset Z := if m_sock s =? -1 then ∅ else {[m_sock s]}.
Record owns (B : gset Z) (st : St) : Prop := {
  ow_open : open (snd st) = B ∪ own (fst st);
  ow_fresh : m_sock (fst st) <> -1 -> m_sock (fst st) ∉ B;
  ow_valid : m_isConnected (fst st) = true -> m_sock (fst st) <> -1;
}.

(** Most operations leave the descriptor and the open ones alone. *)
Definition neutral (st st' : St) : Prop :=
  open (snd st') = open (snd st) /\ m_sock (fst st') = m_sock (fst st) /\ m_isConnected (fst st') = m_isConnected (fst st).
#[export] Instance neutral_refl : Reflexive neutral.
Proof. done. Qed.
#[export] Instance neutral_trans : Transitive neutral.
Proof. intros x y z (? & ? & ?) (? & ? & ?). unfold neutral. split_and!; congruence. Qed.
Lemma neutral_owns B st st' : neutral st st' -> owns B st -> owns B st'.
Proof. intros (Ho & Hs & Hc) [H1 H2 H3]. unfold own in *. split; rewrite ?Ho, ?Hs, ?Hc; try done. unfold own. by rewrite Hs. Qed.

Lemma setOption_neutral l n v st : neutral st (snd (setOption l n v st)).
Proof. destruct st as [s k]. unfold setOption. pose proof (setsockopt_open (m_sock s) l n v k). by destruct (sys_setsockopt _ _ _ _ _). Qed.
Lemma initSock_neutral st : neutral st (initSock st).
Proof.
  unfold initSock. pose proof (setOption_neutral Hook.SOL_SOCKET SO_REUSEADDR [1] st) as H1. destruct (setOption _ _ _ _) as [b st1]. cbn in H1.
  destruct (_ =? _); [|done]. etrans; [exact H1|]. apply setOption_neutral.
Qed.
Lemma remote_neutral st : neutral st (snd (getRemoteAddress st)).
Proof. destruct st as [s k]. unfold getRemoteAddress. destruct (m_remoteAddress s); [done|]. by destruct (sys_getpeername _ _). Qed.
Lemma local_neutral st : neutral st (snd (getLocalAddress st)).
Proof. destruct st as [s k]. unfold getLocalAddress. destruct (m_localAddress s); [done|]. by destruct (sys_getsockname _ _). Qed.
Lemma listen_neutral n st : neutral st (snd (listen n st)).
Proof. destruct st as [s k]. unfold listen. pose proof (listen_open (m_sock s) n k). destruct (isValid s); [|done]. by destruct (sys_listen _ _ _). Qed.
Lemma transfer_neutral x st : neutral st (snd (transfer_on x st)).
Proof. destruct st as [s k]. unfold transfer_on. pose proof (transfer_open (m_sock s) x k). destruct (m_isConnected s); [|done]. by destruct (sys_transfer _ _ _). Qed.
Lemma cancel_neutral e st : neutral st (snd (cancel e st)).
Proof. destruct st as [s k]. unfold cancel. pose proof (cancel_open (m_sock s) e k). by destruct (io_cancel _ _ _). Qed.
(** The kernel may change with the same descriptors. *)
Lemma kernel_owns B s k k' : open k' = open k -> owns B (s, k) -> owns B (s, k').
Proof. intros H. by apply neutral_owns. Qed.

Lemma newSock_owns B s k : m_sock s = -1 -> owns B (s, k) -> owns B (newSock (s, k)).
Proof.
  intros Hs [Ho _ Hv]. cbn in *. unfold own in Ho. rewrite Hs in Ho. cbn in Ho. rewrite (right_id_L ∅ (∪)) in Ho. unfold newSock.
  pose proof (socket_opens (m_family s) (m_type s) (m_protocol s) k) as Hop. destruct (sys_socket _ _ _ _) as [fd k'].
  destruct Hop as [[-> Hk]|(Hfd & Hn & Hk)].
  - cbn. split; cbn; [rewrite Hk, Ho; unfold own; cbn; set_solver|done|]. intros Hc. specialize (Hv Hc). congruence.
  - destruct (Z.eqb_spec fd (-1)); [done|]. eapply neutral_owns; [apply initSock_neutral|].
    split; cbn; [|by rewrite <- Ho|done]. rewrite Hk, Ho. unfold own. cbn. rewrite (proj2 (Z.eqb_neq _ _)) by done. set_solver.
Qed.
Lemma ensure_owns B st : owns B st -> owns B (ensure st).
Proof.
  intros Hw. unfold ensure, isValid. destruct (Z.eqb_spec (m_sock (fst st)) (-1)) as [E|E]; cbn [negb]; [|done].
  destruct st as [s k]. by apply newSock_owns.
Qed.
Lemma close_owns B st : owns B st -> owns B (snd (close st)) /\ m_sock (fst (snd (close st))) = -1.
Proof.
  intros [Ho Hf Hv]. destruct st as [s k]. cbn [fst snd] in *. unfold close. unfold own in Ho.
  destruct (m_sock s =? -1) eqn:E; cbn [with_connected m_sock]; rewrite ?E, ?andb_true_r, ?andb_false_r.
  - apply Z.eqb_eq in E. destruct (m_isConnected s) eqn:Ec; cbn [negb]; [by specialize (Hv eq_refl)|].
    split; [|done]. split; cbn [fst snd]; [unfold own; by rewrite E|by rewrite E|congruence].
  - apply Z.eqb_neq in E. pose proof (close_closes (m_sock s) k) as Hc. destruct (sys_close _ _) as [rt k']. cbn [fst snd with_sock m_sock m_isConnected] in *.
    split; [|done]. split; [|done|done]. cbn [snd]. rewrite Hc, Ho. specialize (Hf E). change (own _) with (∅ : gset Z). set_solver.
Qed.

Lemma bind_owns B a st : owns B st -> owns B (snd (bind a st)).
Proof.
  intros Hw%ensure_owns. unfold bind. destruct (ensure st) as [s k]. destruct (_ =? _); [|done]. cbn [negb].
  pose proof (bind_open (m_sock s) a k) as Ho. destruct (sys_bind _ _ _) as [rt k']. cbn in Ho.
  assert (owns B (s, k')) as Hw' by by eapply kernel_owns. destruct (rt =? 0); [|done]. cbn [negb].
  pose proof (local_neutral (s, k')) as Hn. destruct (getLocalAddress _) as [x st']. by eapply neutral_owns.
Qed.

Lemma connect_owns B a t st : owns B st -> owns B (snd (connect a t st)).
Proof.
  intros Hw. unfold connect. destruct st as [s k].
  assert (owns B (ensure (with_remote (Some a) s, k))) as Hw1 by (apply ensure_owns; by destruct Hw).
  destruct (ensure _) as [s1 k1]. destruct (_ =? _); [|done]. cbn [negb].
  set (call := if _ =? _ then sys_connect (m_sock s1) a k1 else _).
  assert (open (snd call) = open k1 /\ (m_sock s1 = -1 -> fst call <> 0)) as [Ho Hbad].
  { unfold call. destruct (t =? u64 (-1)); split; try apply connect_open; try apply connect_timeout_open; intros ->;
      [apply connect_bad|apply connect_timeout_bad]. }
  destruct call as [rt k2]. cbn in Ho, Hbad. assert (owns B (s1, k2)) as Hw2 by by eapply kernel_owns.
  destruct (Z.eqb_spec rt 0) as [->|]; cbn [negb].
  - assert (owns B (with_connected true s1, k2)) as Hw3 by (destruct Hw2; split; [done..|]; intros _ Hs; by apply (Hbad Hs)).
    pose proof (remote_neutral (with_connected true s1, k2)) as Hr. destruct (getRemoteAddress _) as [x st3]. cbn in Hr.
    pose proof (local_neutral st3) as Hl. destruct (getLocalAddress _) as [y st4]. cbn in *. eapply neutral_owns; [|exact Hw3]. by etrans.
  - pose proof (close_owns B _ Hw2) as [Hw3 _]. by destruct (close _).
Qed.

Lemma run_op_owns B o st : owns B st -> owns B (run_op o st).
Proof.
  intros Hw. destruct o; cbn [run_op];
    [by apply bind_owns|by apply connect_owns| |by eapply neutral_owns; [apply listen_neutral|]|by apply close_owns
    |by eapply neutral_owns; [apply setOption_neutral|]|by eapply neutral_owns; [apply transfer_neutral|]
    |by eapply neutral_owns; [apply remote_neutral|]|by eapply neutral_owns; [apply local_neutral|]|by eapply neutral_owns; [apply cancel_neutral|]].
  unfold reconnect. destruct st as [s k]. destruct (m_remoteAddress s); [|done]. apply connect_owns. by destruct Hw.
Qed.

Lemma run_owns B ops st : owns B st -> owns B (fold_left (fun st o => run_op o st) ops st).
Proof. revert st. induction ops as [|o ops IH]; intros st Hw; [done|]. cbn. by apply IH, run_op_owns. Qed.

Lemma new_owns f t p k : owns (open k) (new_socket f t p, k).
Proof. split; cbn; [|done|done]. unfold own. cbn. set_solver. Qed.

Lemma destroy_returns B st : owns B st -> open (destroy st) = B.
Proof.
  intros Hw. destruct (close_owns B st Hw) as [[Ho _ _] Hs]. unfold destroy. rewrite Ho. unfold own. rewrite Hs. cbn. set_solver.
Qed.
End owners.

(** C25. A socket owns at most one descriptor and gives it back: after any
    sequence of operations on a new socket the process has the descriptors it
    had before and at most the socket's, a connected socket has one, and when
    the socket is destroyed exactly those from before are open. *)
Theorem socket_owns_descriptor `{K : Kernel, L : !KernelLaws K} (family type protocol : Z) (ops : list op) (k : kst) :
  let st := fold_left (fun st o => run_op o st) ops (new_socket family type protocol, k) in
  open (snd st) = open k ∪ own (fst st)
  /\ (m_sock (fst st) <> -1 -> m_sock (fst st) ∉ open k)
  /\ (m_isConnected (fst st) = true -> m_sock (fst st) <> -1)
  /\ open (destroy st) = open k.
Proof.
  intros st. assert (owns (open k) st) as Hw by apply run_owns, new_owns. pose proof Hw as [H1 H2 H3]. split_and!; try done. by apply destroy_returns.
Qed.

(** *** Behaviour to know of *)

(** [close] answers whether there was nothing to close. *)
Theorem close_answers_false `{K : Kernel} (st : St) : isValid (fst st) = true -> fst (close st) = false.
Proof.
  destruct st as [s k]. unfold isValid, close. cbn [fst]. intros Hv. apply negb_true_iff in Hv. rewrite Hv, andb_false_r. cbn [with_connected m_sock].
  rewrite Hv. by destruct (sys_close _ _).
Qed.

(** A datagram socket that was only bound refuses every transfer: the methods
    ask for a connection that [bind] does not make. *)
Theorem bound_socket_refuses `{K : Kernel, L : !KernelLaws K} (a : Address.Address) (x : transfer) (k : kst) :
  transfer_on x (snd (bind a (CreateUDP a, k))) = (2 ^ 64 - 1, snd (bind a (CreateUDP a, k))).
Proof.
  assert (m_isConnected (fst (snd (bind a (CreateUDP a, k)))) = false) as Hc.
  { unfold bind. assert (m_isConnected (fst (ensure (CreateUDP a, k))) = false) as He.
    { unfold ensure, newSock. cbn. destruct (sys_socket _ _ _ _) as [fd k']. destruct (fd =? -1); [done|]. by destruct (initSock_neutral (with_sock fd (CreateUDP a), k')) as (_ & _ & ->). }
    destruct (ensure _) as [s k']. cbn in He. destruct (_ =? _); [|done]. cbn [negb]. destruct (sys_bind _ _ _) as [rt k2]. destruct (rt =? 0); [|done]. cbn [negb].
    destruct (local_neutral (s, k2)) as (_ & _ & Hl). destruct (getLocalAddress _) as [y st]. cbn in *. congruence. }
  unfold transfer_on. destruct (snd (bind _ _)) as [s k']. cbn in Hc. by rewrite Hc.
Qed.

(** An accepted descriptor without a context (a thread without hooks) is
    neither given out nor closed. *)
Theorem accepted_descriptor_leaks `{K : Kernel, L : !KernelLaws K} (s : Socket) (k k' : kst) (fd : Z) :
  sys_accept (m_sock s) k = (fd, k') -> fd <> -1 -> fd_context fd k' = None -> accept s k = (None, k') /\ fd ∈ open k'.
Proof.
  intros E Hfd Hc. pose proof (accept_opens (m_sock s) k) as Ho. rewrite E in Ho. destruct Ho as [[? _]|(_ & _ & Ho)]; [done|].
  split; [|set_solver]. unfold accept, init. rewrite E, Hc. by rewrite (proj2 (Z.eqb_neq _ _)).
Qed.

(** After [close] and a new [connect] the local address is still the old one. *)
Lemma setOption_same `{K : Kernel} l n v st : fst (snd (setOption l n v st)) = fst st.
Proof. destruct st as [s k]. unfold setOption. by destruct (sys_setsockopt _ _ _ _ _). Qed.
Lemma initSock_same `{K : Kernel} st : fst (initSock st) = fst st.
Proof.
  unfold initSock. pose proof (setOption_same Hook.SOL_SOCKET SO_REUSEADDR [1] st) as H1. destruct (setOption _ _ _ _) as [b st1]. cbn in H1.
  destruct (_ =? _); [by rewrite setOption_same|done].
Qed.
Lemma ensure_local `{K : Kernel} st : m_localAddress (fst (ensure st)) = m_localAddress (fst st).
Proof.
  unfold ensure, newSock. destruct st as [s k]. cbn. destruct (isValid s); [done|]. destruct (sys_socket _ _ _ _) as [fd k']. destruct (fd =? -1); [done|]. by rewrite initSock_same.
Qed.
Lemma close_local `{K : Kernel} st : m_localAddress (fst (snd (close st))) = m_localAddress (fst st).
Proof. destruct st as [s k]. unfold close. repeat (case_match; simplify_eq/=; try done). Qed.
Theorem stale_local_address `{K : Kernel} (b old : Address.Address) (st : St) :
  m_localAddress (fst st) = Some old ->
  m_localAddress (fst (snd (connect b (u64 (-1)) (snd (close st))))) = Some old.
Proof.
  intros Hl. rewrite <- close_local in Hl. destruct (snd (close st)) as [s k]. unfold connect.
  pose proof (ensure_local (with_remote (Some b) s, k)) as He. destruct (ensure _) as [s1 k1]. cbn in He, Hl. rewrite Hl in He.
  destruct (_ =? _); [|done]. cbn [negb]. destruct (if _ : bool then _ else _) as [rt k2]. destruct (rt =? 0); cbn [negb].
  - unfold getRemoteAddress. cbn. destruct (m_remoteAddress s1); cbn; [by rewrite He|]. destruct (sys_getpeername _ _); cbn; by rewrite He.
  - pose proof (close_local (s1, k2)) as Hc. destruct (close _) as [x st']. cbn in *. congruence.
Qed.

(** ** A kernel for the examples: descriptors are numbered from 3 on. *)
Definition toy_kernel : Kernel := {|
  kst := gset Z;
  sys_socket _ _ _ k := let fd := 3 + Z.of_nat (length (elements k)) in if decide (fd ∈ k) then (-1, k) else (fd, {[fd]} ∪ k);
  sys_close fd k := (0, k ∖ {[fd]});
  sys_bind _ _ k := (0, k);
  sys_connect fd _ k := (if fd =? -1 then -1 else 0, k);
  sys_connect_with_timeout _ _ _ k := (-1, k);
  sys_listen _ _ k := (0, k);
  sys_accept _ k := let fd := 3 + Z.of_nat (length (elements k)) in if decide (fd ∈ k) then (-1, k) else (fd, {[fd]} ∪ k);
  sys_transfer _ _ k := (0, k);
  sys_setsockopt _ _ _ _ k := (0, k);
  sys_getsockopt _ _ _ _ := Some 0;
  sys_getpeername _ _ := None;
  sys_getsockname _ _ := None;
  fd_context fd k := Some (FdManager.MkFdContext true true true false false fd 0 0);
  io_cancel _ _ k := (true, k);
|}.
#[export] Instance toy_kernel_laws : KernelLaws toy_kernel.
Proof.
  apply (Build_KernelLaws toy_kernel (fun k => k)); try done; intros.
  1, 2: cbn; case_decide; [by left|right; split_and!; [lia|done|done]].
Defined.

Definition some_address : Address.Address := Address.IPv4Address (Address.MkIn 0x5000 0x0100007f (replicate 8 Byte.x00)).
Lemma socket_owns_descriptor_witness :
  let st := fold_left (fun st o => run_op (K := toy_kernel) o st) [Connect some_address (u64 (-1)); Close; Connect some_address (u64 (-1))]
              (CreateTCP some_address, ({[3]} : gset Z)) in
  m_sock (fst st) = 4 /\ open (destroy (K := toy_kernel) st) = ({[3]} : gset Z).
Proof.
  destruct (socket_owns_descriptor (K := toy_kernel) Address.AF_INET SOCK_STREAM 0 [Connect some_address (u64 (-1)); Close; Connect some_address (u64 (-1))] ({[3]} : gset Z))
    as (_ & _ & _ & H). split; [vm_compute; reflexivity|exact H].
Defined.

End Socket.
