(* ===== verification/TcpServer.v ===== *)
(** * The TCP server: [luwu/luwu/tcp_server.cpp]

    The listening sockets are shared: [m_socks] and the accepting tasks refer to
    them by name, and a socket is destroyed when neither does.  What a server
    hands to its schedulers is a list of tasks; [handleClient] of the subclasses
    is in [Server]. *)
From S2P Require Import Prelude StdString Codec Address FdManager Hook Socket.
Import Socket.
Local Open Scope Z_scope.

Module TcpServer.

Abbreviation name := N.
Inductive task := StartAccept (sock : name) | StopTask | HandleClient (client : Socket).

Section server.
Context `{K : Kernel}.

Record TCPServer := MkServer {
  m_socks : list name;
  m_recvTimeout : Z;
  m_name : str;
  m_stop : bool;
  heap : gmap name Socket;
  next : name;
  accept_tasks : list task;
  worker_tasks : list task;
  kernel : kst;
}.
Definition with_socks (l : list name) (v : TCPServer) : TCPServer :=
  MkServer l (m_recvTimeout v) (m_name v) (m_stop v) (heap v) (next v) (accept_tasks v) (worker_tasks v) (kernel v).
Definition with_stop (b : bool) (v : TCPServer) : TCPServer :=
  MkServer (m_socks v) (m_recvTimeout v) (m_name v) b (heap v) (next v) (accept_tasks v) (worker_tasks v) (kernel v).
Definition with_heap (h : gmap name Socket) (k : kst) (v : TCPServer) : TCPServer :=
  MkServer (m_socks v) (m_recvTimeout v) (m_name v) (m_stop v) h (next v) (accept_tasks v) (worker_tasks v) k.
Definition with_tasks (l : list task) (v : TCPServer) : TCPServer :=
  MkServer (m_socks v) (m_recvTimeout v) (m_name v) (m_stop v) (heap v) (next v) l (worker_tasks v) (kernel v).
Definition with_workers (l : list task) (v : TCPServer) : TCPServer :=
  MkServer (m_socks v) (m_recvTimeout v) (m_name v) (m_stop v) (heap v) (next v) (accept_tasks v) l (kernel v).
Definition setRecvTimeout (t : Z) (v : TCPServer) : TCPServer :=
  MkServer (m_socks v) t (m_name v) (m_stop v) (heap v) (next v) (accept_tasks v) (worker_tasks v) (kernel v).
Definition setName (n : str) (v : TCPServer) : TCPServer :=
  MkServer (m_socks v) (m_recvTimeout v) n (m_stop v) (heap v) (next v) (accept_tasks v) (worker_tasks v) (kernel v).

Definition new_server (k : kst) : TCPServer := MkServer [] (60 * 1000 * 2) (bs "luwu/1.0.0") true ∅ 0%N [] [] k.

(** ** [bind] *)
Definition bind (address : Address.Address) (v : TCPServer) : bool * TCPServer :=
  let '(bound, st) := Socket.bind address (CreateTCP address, kernel v) in
  let '(listening, (sock, k)) := if bound : bool then listen SOMAXCONN st else (false, st) in
  if listening : bool
  then (true, MkServer (m_socks v ++ [next v]) (m_recvTimeout v) (m_name v) (m_stop v) (<[next v := sock]> (heap v)) (N.succ (next v))
                (accept_tasks v) (worker_tasks v) k)
  else (false, with_heap (heap v) (destroy (sock, k)) v).

(** Whether a task refers to a socket. *)
Definition refers (i : name) (t : task) : bool := match t with StartAccept j => bool_decide (i = j) | _ => false end.
(** A reference goes away; the last one takes the socket with it. *)
Definition release (v : TCPServer) (i : name) : TCPServer :=
  if existsb (refers i) (accept_tasks v) then v
  else match heap v !! i with Some s => with_heap (delete i (heap v)) (destroy (s, kernel v)) v | None => v end.
(** [m_socks.clear()]. *)
Definition clear (v : TCPServer) : TCPServer := with_socks [] (fold_left release (m_socks v) v).

Fixpoint bind_all (addresses : list Address.Address) (v : TCPServer) : bool * TCPServer :=
  match addresses with
  | [] => (true, v)
  | a :: l => let '(ok, v) := bind a v in if ok : bool then bind_all l v else (false, clear v)
  end.

(** ** Starting, accepting, stopping *)
Definition start (v : TCPServer) : bool * TCPServer :=
  if negb (m_stop v) then (true, v)
  else let v := with_stop false v in (true, with_tasks (accept_tasks v ++ map StartAccept (m_socks v)) v).

(** One round of the loop of [startAccept]: whether it goes on.  The call of
    [accept] is one step, at the time it answers; one that waits while [stop]
    runs is a round after the [cancelAll] and [close] of [stop_task]. *)
Definition accept_round (i : name) (v : TCPServer) : bool * TCPServer :=
  if m_stop v then (false, v)
  else
    match heap v !! i with
    | None => (false, v)
    | Some sock =>
        let '(client, k) := accept sock (kernel v) in
        let v := with_heap (heap v) k v in
        match client with
        | Some client =>
            let '(client, k) := Socket.setRecvTimeout (m_recvTimeout v) (client, k) in
            (true, with_workers (worker_tasks v ++ [HandleClient client]) (with_heap (heap v) k v))
        | None => (true, v)
        end
    end.

Definition stop (v : TCPServer) : TCPServer := let v := with_stop true v in with_tasks (accept_tasks v ++ [StopTask]) v.
(** The task of [stop]: the sockets are closed, then forgotten. *)
Definition close_sock (v : TCPServer) (i : name) : TCPServer :=
  match heap v !! i with
  | None => v
  | Some s =>
      let '(_, st) := cancelAll (s, kernel v) in
      let '(_, (s, k)) := Socket.close st in with_heap (<[i := s]> (heap v)) k v
  end.
Definition stop_task (v : TCPServer) : TCPServer := clear (fold_left close_sock (m_socks v) v).
(** A task of the accepting scheduler that has ended. *)
Definition end_task (t : nat) (v : TCPServer) : TCPServer :=
  match accept_tasks v !! t with
  | Some (StartAccept i) =>
      let v := with_tasks (delete t (accept_tasks v)) v in if bool_decide (i ∈ m_socks v) then v else release v i
  | _ => with_tasks (delete t (accept_tasks v)) v
  end.
(** The destructor. *)
Definition destroy_server (v : TCPServer) : TCPServer :=
  clear (fold_left (fun v i => match heap v !! i with
                               | None => v
                               | Some s => let '(_, (s, k)) := Socket.close (s, kernel v) in with_heap (<[i := s]> (heap v)) k v
                               end) (m_socks v) v).

Definition endl : str := [z2b 10].
Definition toString `{!Platform} (worker_name : str) (v : TCPServer) : str :=
  bs "[name = " ++ m_name v ++ bs " worker = " ++ worker_name ++ bs " recv_timeout = " ++ StdString.to_string (m_recvTimeout v) ++ bs "]" ++ endl
  ++ concat (map (fun i => match heap v !! i with Some s => bs "sock " ++ Socket.dump s ++ endl | None => [] end) (m_socks v)).
End server.

(** ** The descriptors of several sockets *)
Section descriptors.
Context `{K : Kernel, L : !KernelLaws K}.

Definition fds (h : gmap name Socket) : gset Z := ⋃ (map (fun x => own (snd x)) (map_to_list h)).
Lemma elem_of_fds x h : x ∈ fds h <-> exists i s, h !! i = Some s /\ x ∈ own s.
Proof.
  unfold fds. rewrite elem_of_union_list. setoid_rewrite list_elem_of_fmap. split.
  - intros (X & ([i s] & -> & Hi%elem_of_map_to_list) & Hx). eauto.
  - intros (i & s & Hi%elem_of_map_to_list & Hx). eexists. split; [|done]. by exists (i, s).
Qed.
Lemma fds_split i s h : h !! i = Some s -> fds h = own s ∪ fds (delete i h).
Proof.
  intros Hi. apply set_eq. intros x. rewrite elem_of_union, !elem_of_fds. split.
  - intros (j & t & Hj & Hx). destruct (decide (j = i)) as [->|]; [left; congruence|]. right. exists j, t. by rewrite lookup_delete_ne.
  - intros [Hx|(j & t & Hj & Hx)]; [by eauto|]. exists j, t. by apply lookup_delete_Some in Hj as [_ ?].
Qed.
Lemma fds_insert i s h : fds (<[i := s]> h) = own s ∪ fds (delete i h).
Proof. rewrite (fds_split i s) by apply lookup_insert_eq. by rewrite delete_insert_eq. Qed.
Lemma own_elem s x : x ∈ own s <-> x = m_sock s /\ m_sock s <> -1.
Proof. unfold own. destruct (Z.eqb_spec (m_sock s) (-1)); set_solver. Qed.

(** The open descriptors are those of others, [B], and those of the sockets in
    [h], no two of which share one. *)
Record holds (B : gset Z) (h : gmap name Socket) (k : kst) : Prop := {
  ho_open : open k = B ∪ fds h;
  ho_each i s : h !! i = Some s -> owns (B ∪ fds (delete i h)) (s, k);
}.
Lemma holds_empty k : holds (open k) ∅ k.
Proof. split; [|done]. unfold fds. rewrite map_to_list_empty. cbn. set_solver. Qed.

(** A socket is put in: a new one, or one that was there before. *)
Lemma holds_put B h k i s k' : holds B h k -> owns (B ∪ fds (delete i h)) (s, k') -> holds B (<[i := s]> h) k'.
Proof.
  intros [Ho He] [Hso Hsf Hsv]. cbn in *. split; [rewrite Hso, fds_insert; set_solver|].
  intros j t. destruct (decide (i = j)) as [<-|Hij].
  - rewrite lookup_insert_eq. intros [= <-]. rewrite delete_insert_eq. by split.
  - rewrite lookup_insert_ne by done. intros Hj. destruct (He j t Hj) as [_ Hf Hv]. cbn in *.
    assert (fds (delete i h) = own t ∪ fds (delete i (delete j h))) as E.
    { rewrite (delete_delete h). apply fds_split. by rewrite lookup_delete_ne. }
    rewrite delete_insert_ne, fds_insert by done. split; cbn; [rewrite Hso, E; set_solver| |done].
    intros Ht. specialize (Hf Ht). assert (fds (delete i (delete j h)) ⊆ fds (delete j h)) as Hsub.
    { intros x. rewrite !elem_of_fds. intros (n & r & Hn & Hx). apply lookup_delete_Some in Hn as [_ Hn]. eauto. }
    rewrite !not_elem_of_union. split; [set_solver|]. split; [|set_solver].
    rewrite own_elem. intros [Heq Hs]. apply (Hsf Hs). rewrite <- Heq, E. rewrite elem_of_union. right. rewrite elem_of_union. left. by apply own_elem.
Qed.
Lemma holds_others B h k i s : holds B h k -> h !! i = Some s -> owns (B ∪ fds (delete i h)) (s, k).
Proof. intros [_ He]. apply He. Qed.
Lemma holds_new B h k i s k' : holds B h k -> h !! i = None -> owns (open k) (s, k') -> holds B (<[i := s]> h) k'.
Proof. intros Hh Hi Hs. apply (holds_put B h k); [done|]. rewrite delete_id by done. by rewrite <- (ho_open _ _ _ Hh). Qed.
(** A socket is destroyed. *)
Lemma holds_delete B h k i s : holds B h k -> h !! i = Some s -> holds B (delete i h) (destroy (s, k)).
Proof.
  intros Hh Hi. pose proof (holds_others _ _ _ _ _ Hh Hi) as Hs. apply destroy_returns in Hs as Ho. split; [by rewrite Ho|].
  intros j t [Hij Hj]%lookup_delete_Some. destruct (holds_others _ _ _ _ _ Hh Hj) as [_ Hf Hv]. cbn in *.
  assert (fds (delete i h) = own t ∪ fds (delete j (delete i h))) as E by (apply fds_split; by rewrite lookup_delete_ne).
  split; cbn; [rewrite Ho, E; set_solver| |done]. intros Ht. specialize (Hf Ht).
  assert (fds (delete j (delete i h)) ⊆ fds (delete j h)) as Hsub; [|set_solver].
  intros x. rewrite !elem_of_fds. intros (n & r & Hn & Hx). apply lookup_delete_Some in Hn as [? Hn]. apply lookup_delete_Some in Hn as [_ Hn].
  exists n, r. by rewrite lookup_delete_ne.
Qed.

Lemma holds_kernel B h k k' : open k' = open k -> holds B h k -> holds B h k'.
Proof. intros Ho [H1 H2]. split; [congruence|]. intros i s Hi. eapply kernel_owns; [exact Ho|by apply H2]. Qed.

(** ** The server's books *)
Record good (B : gset Z) (v : TCPServer) : Prop := {
  gd_holds : holds B (heap v) (kernel v);
  gd_dom i : is_Some (heap v !! i) <-> i ∈ m_socks v;
  gd_nodup : NoDup (m_socks v);
  gd_fresh i : i ∈ m_socks v -> (i < next v)%N;
}.
Lemma new_good k : good (open k) (new_server k).
Proof. split; cbn; [apply holds_empty|intros i; rewrite lookup_empty; split; [by intros []|set_solver]|constructor|set_solver]. Qed.

Definition opened (v : TCPServer) (i : name) : Prop := exists s, heap v !! i = Some s /\ m_sock s <> -1.

Lemma bind_good B a v :
  good B v ->
  match bind a v with
  | (true, v') => good B v' /\ m_socks v' = m_socks v ++ [next v] /\ opened v' (next v)
                  /\ (forall i, i ∈ m_socks v -> heap v' !! i = heap v !! i) /\ accept_tasks v' = accept_tasks v /\ m_stop v' = m_stop v
  | (false, v') => good B v' /\ m_socks v' = m_socks v /\ accept_tasks v' = accept_tasks v /\ m_stop v' = m_stop v
  end.
Proof.
  intros [Hh Hd Hn Hf]. unfold bind, CreateTCP.
  pose proof (bind_owns (open (kernel v)) a _ (new_owns (Address.getFamily a) SOCK_STREAM 0 (kernel v))) as Hb.
  destruct (Socket.bind a _) as [bound st]. cbn in Hb.
  set (r := if bound then listen SOMAXCONN st else (false, st)).
  assert (owns (open (kernel v)) (snd r) /\ (fst r = true -> m_sock (fst (snd r)) <> -1)) as [Ho Hv].
  { unfold r. destruct bound; [|done]. split; [eapply neutral_owns; [apply listen_neutral|done]|].
    unfold listen, isValid. destruct st as [s k]. destruct (Z.eqb_spec (m_sock s) (-1)); [done|]. cbn. by destruct (sys_listen _ _ _). }
  destruct r as [listening [sock k]]. cbn in Ho, Hv.
  assert (heap v !! next v = None) as Hnew by (apply eq_None_not_Some; intros Hs; apply Hd, Hf in Hs; lia).
  destruct listening; cbn.
  - split_and!; try done.
    + split; cbn; [by eapply holds_new| | |].
      * intros i. rewrite elem_of_app, list_elem_of_singleton. destruct (decide (i = next v)) as [->|]; [rewrite lookup_insert_eq; split; eauto|].
        rewrite lookup_insert_ne, Hd by done. naive_solver.
      * apply NoDup_app. split_and!; [done| |apply NoDup_singleton]. intros i Hi ->%list_elem_of_singleton. apply Hf in Hi. lia.
      * intros i [Hi| ->%list_elem_of_singleton]%elem_of_app; [apply Hf in Hi|]; lia.
    + exists sock. cbn. rewrite lookup_insert_eq. split; [done|by apply Hv].
    + intros i Hi. rewrite lookup_insert_ne; [done|]. intros <-. apply Hf in Hi. lia.
  - split; [|done]. split; cbn; try done. eapply holds_kernel; [|exact Hh]. by apply destroy_returns.
Qed.

(** [clear] gives every descriptor back when no task holds a socket. *)
Lemma release_all B l v :
  holds B (heap v) (kernel v) -> accept_tasks v = [] -> NoDup l -> (forall i, i ∈ l -> is_Some (heap v !! i)) ->
  let v' := fold_left release l v in
  holds B (heap v') (kernel v') /\ accept_tasks v' = [] /\ m_stop v' = m_stop v
  /\ (forall i, is_Some (heap v' !! i) <-> is_Some (heap v !! i) /\ i ∉ l).
Proof.
  revert v. induction l as [|i l IH]; intros v Hh Ht Hn Hl; cbn [fold_left]; [split_and!; try done; intros i; set_solver|].
  apply NoDup_cons in Hn as [Hi Hn]. destruct (Hl i ltac:(set_solver)) as [s Hs].
  assert (release v i = with_heap (delete i (heap v)) (destroy (s, kernel v)) v) as -> by (unfold release; by rewrite Ht, Hs).
  destruct (IH (with_heap (delete i (heap v)) (destroy (s, kernel v)) v)) as (H1 & H2 & H3 & H4); cbn; try done.
  - by apply holds_delete.
  - intros j Hj. rewrite lookup_delete_ne by set_solver. apply Hl. set_solver.
  - split_and!; try done. intros j. rewrite H4. cbn. rewrite not_elem_of_cons. destruct (decide (j = i)) as [->|].
    + rewrite lookup_delete_eq. split; [by intros [[] _]|naive_solver].
    + rewrite lookup_delete_ne by done. naive_solver.
Qed.
Lemma clear_empty B v : good B v -> accept_tasks v = [] -> m_socks (clear v) = [] /\ heap (clear v) = ∅ /\ open (kernel (clear v)) = B.
Proof.
  intros [Hh Hd Hn Hf] Ht. destruct (release_all B (m_socks v) v Hh Ht Hn) as (H1 & _ & _ & H4); [by intros i Hi; apply Hd|].
  assert (heap (clear v) = ∅) as He.
  { apply map_empty. intros i. apply eq_None_not_Some. intros Hi. apply H4 in Hi as [Hi%Hd Hni]. done. }
  split_and!; [done|done|]. unfold clear in *. cbn in *. rewrite (ho_open _ _ _ H1), He. unfold fds. rewrite map_to_list_empty. cbn. set_solver.
Qed.

Lemma bind_all_good B l v :
  good B v -> accept_tasks v = [] ->
  match bind_all l v with
  | (true, v') => good B v' /\ accept_tasks v' = [] /\ m_stop v' = m_stop v
      /\ exists new, m_socks v' = m_socks v ++ new /\ length new = length l /\ (forall i, i ∈ new -> opened v' i)
                     /\ (forall i, i ∈ m_socks v -> heap v' !! i = heap v !! i)
  | (false, v') => m_socks v' = [] /\ heap v' = ∅ /\ open (kernel v') = B
  end.
Proof.
  revert v. induction l as [|a l IH]; intros v Hg Ht; cbn [bind_all].
  - split_and!; try done. exists []. rewrite app_nil_r. split_and!; set_solver.
  - pose proof (bind_good B a v Hg) as Hb. destruct (bind a v) as [[|] v1].
    + destruct Hb as (Hg1 & Hs1 & Hl1 & Hk1 & Ht1 & Hst1). rewrite Ht in Ht1. specialize (IH v1 Hg1 Ht1). destruct (bind_all l v1) as [[|] v2]; [|done].
      destruct IH as (Hg2 & Ht2 & Hst2 & new & Hs2 & Hlen & Hlis & Hk2). split_and!; try done; [congruence|].
      exists (next v :: new). rewrite Hs2, Hs1, <- app_assoc. split_and!; [done|cbn; lia| |].
      * intros i [->|Hi]%elem_of_cons; [|by apply Hlis]. destruct Hl1 as (s & Hs & Hv). exists s. rewrite Hk2; [done|]. rewrite Hs1. set_solver.
      * intros i Hi. rewrite Hk2 by (rewrite Hs1; set_solver). by apply Hk1.
    + destruct Hb as (Hg1 & _ & Ht1 & _). apply clear_empty; [done|congruence].
Qed.
End descriptors.

(** ** Which addresses are served *)
Section net.
Context `{K : Kernel, L : !KernelLaws K, N : !ListenLaws K}.

(** The calls of one socket are about its descriptor. *)
Definition touches (fd : Z) (k k' : kst) : Prop := same_net fd k k' /\ open k' ∖ {[fd]} = open k ∖ {[fd]}.
#[local] Instance touches_refl fd : Reflexive (touches fd).
Proof. done. Qed.
#[local] Instance touches_trans fd : Transitive (touches fd).
Proof.
  intros k1 k2 k3 [H1 O1] [H2 O2]. split; [|congruence]. intros i Hi. destruct (H1 i Hi) as [<- <-]. by apply H2.
Qed.
(** Nothing changes for the descriptors that were open. *)
Definition kept (k k' : kst) : Prop := forall fd, fd <> -1 -> fd ∈ open k ->
  fd ∈ open k' /\ bound k' !! fd = bound k !! fd /\ (fd ∈ accepting k' <-> fd ∈ accepting k).
#[export] Instance kept_refl : Reflexive kept.
Proof. done. Qed.
#[export] Instance kept_trans : Transitive kept.
Proof.
  intros k1 k2 k3 H1 H2 fd Hfd Ho. destruct (H1 fd Hfd Ho) as (Ho2 & <- & <-). by apply H2.
Qed.
Lemma touches_kept fd k k' : touches fd k k' -> fd = -1 \/ fd ∉ open k -> kept k k'.
Proof.
  intros [Hs Ho] Hfd i Hi Hio. assert (i <> fd) as Hne by (destruct Hfd; congruence).
  split; [set_solver|]. by apply Hs.
Qed.

Lemma setOption_touches l n v s k : touches (m_sock s) k (snd (snd (setOption l n v (s, k)))) /\ fst (snd (setOption l n v (s, k))) = s.
Proof.
  unfold setOption. pose proof (net_setsockopt (m_sock s) l n v k) as Hn. pose proof (setsockopt_open (m_sock s) l n v k) as Ho.
  destruct (sys_setsockopt _ _ _ _ _) as [rt k']. cbn in *. split; [|done]. split; [done|]. by rewrite Ho.
Qed.
Lemma initSock_touches s k : touches (m_sock s) k (snd (initSock (s, k))) /\ fst (initSock (s, k)) = s.
Proof.
  unfold initSock. destruct (setOption_touches Hook.SOL_SOCKET SO_REUSEADDR [1] s k) as [H1 E1].
  destruct (setOption _ _ _ (s, k)) as [b [s1 k1]]. cbn in H1, E1. subst s1. cbn [fst snd].
  destruct (_ =? _); [|done]. destruct (setOption_touches IPPROTO_TCP TCP_NODELAY [1] s k1) as [H2 E2].
  split; [by etrans|done].
Qed.
Lemma close_touches s k : touches (m_sock s) k (destroy (s, k)).
Proof.
  unfold destroy, close. destruct (_ && _); [done|]. cbn [with_connected m_sock]. destruct (m_sock s =? -1); [done|].
  pose proof (net_close (m_sock s) k) as Hn. pose proof (close_closes (m_sock s) k) as Ho. destruct (sys_close _ _) as [rt k']. cbn in *.
  split; [done|]. rewrite Ho. set_solver.
Qed.
(** A new socket that is bound and listens. *)
Lemma bind_touches a v :
  exists fd, (fd = -1 \/ fd ∉ open (kernel v)) /\ touches fd (kernel v) (kernel (snd (bind a v)))
    /\ (fst (bind a v) = true -> bound (kernel (snd (bind a v))) !! fd = Some a /\ fd ∈ accepting (kernel (snd (bind a v)))
         /\ exists s, heap (snd (bind a v)) = <[next v := s]> (heap v) /\ m_sock s = fd).
Proof.
  unfold bind, Socket.bind, ensure, CreateTCP. cbn [fst new_socket isValid m_sock Z.eqb Pos.eqb negb]. unfold newSock. cbn [m_family m_type m_protocol].
  pose proof (socket_opens (Address.getFamily a) SOCK_STREAM 0 (kernel v)) as Hop. pose proof (net_socket (Address.getFamily a) SOCK_STREAM 0 (kernel v)) as Hnet.
  destruct (sys_socket _ _ _ _) as [fd k1]. exists fd. split; [destruct Hop as [[? _]|(_ & ? & _)]; auto|].
  assert (touches fd (kernel v) k1) as T1 by (split; [done|]; destruct Hop as [[_ ->]|(_ & _ & ->)]; set_solver).
  set (s0 := with_sock fd _). set (st := if fd =? -1 return St then (s0, k1) else initSock (s0, k1)).
  assert (touches fd (kernel v) (snd st) /\ m_sock (fst st) = fd /\ m_family (fst st) = Address.getFamily a) as (T2 & Hs & Hf).
  { unfold st. destruct (fd =? -1); [done|]. destruct (initSock_touches s0 k1) as [T2 E2]. rewrite E2. split; [by etrans|done]. }
  clearbody st. destruct st as [s k2]. cbn [fst snd] in *. rewrite Hf, Z.eqb_refl. cbn [negb]. subst fd.
  pose proof (net_bind (m_sock s) a k2) as Hb. pose proof (bind_open (m_sock s) a k2) as Hbo. destruct (sys_bind _ _ _) as [rt k3]. cbn in Hbo.
  destruct Hb as [Hb1 Hb2]. assert (touches (m_sock s) (kernel v) k3) as T3 by (etrans; [exact T2|]; split; [done|by rewrite Hbo]).
  destruct (Z.eqb_spec rt 0) as [->|_]; cbn [negb]; [|split; [|done]; etrans; [exact T3|]; apply close_touches].
  specialize (Hb2 eq_refl). pose proof (local_neutral (s, k3)) as (_ & Hls & _).
  assert (snd (snd (getLocalAddress (s, k3))) = k3) as Hlk by (unfold getLocalAddress; destruct (m_localAddress s); [done|by destruct (sys_getsockname _ _)]).
  destruct (getLocalAddress (s, k3)) as [x [s2 k4]]. cbn [fst snd] in *. subst k4. unfold listen. destruct (isValid s2); [|split; [|done]; etrans; [exact T3|]; rewrite <- Hls; apply close_touches].
  pose proof (net_listen (m_sock s2) SOMAXCONN k3) as Hl. pose proof (listen_open (m_sock s2) SOMAXCONN k3) as Hlo.
  destruct (sys_listen _ _ _) as [rt k4]. cbn in Hlo. rewrite Hls in Hl. destruct Hl as (Hl1 & Hl2 & Hl3).
  assert (touches (m_sock s) (kernel v) k4) as T4 by (etrans; [exact T3|]; split; [done|by rewrite Hlo]).
  destruct (Z.eqb_spec rt 0) as [->|_]; cbn; [|split; [|done]; etrans; [exact T4|]; rewrite <- Hls; apply close_touches].
  split; [done|]. intros _. rewrite Hl2. split; [done|]. split; [by apply Hl3|]. eauto.
Qed.

(** A socket of a server that is bound to an address and listens. *)
Definition serves (k : kst) (v : TCPServer) (i : name) (a : Address.Address) : Prop :=
  exists s, heap v !! i = Some s /\ m_sock s <> -1 /\ m_sock s ∈ open k /\ bound k !! m_sock s = Some a /\ m_sock s ∈ accepting k.
Lemma serves_kept k k' v v' i a : kept k k' -> heap v' !! i = heap v !! i -> serves k v i a -> serves k' v' i a.
Proof.
  intros Hk Hh (s & Hs & Hv & Ho & Hb & Ha). destruct (Hk _ Hv Ho) as (H1 & H2 & H3). exists s. rewrite Hh, H2, H3. done.
Qed.
Lemma bind_serves B a v :
  good B v -> kept (kernel v) (kernel (snd (bind a v))) /\ (fst (bind a v) = true -> serves (kernel (snd (bind a v))) (snd (bind a v)) (next v) a).
Proof.
  intros Hg. destruct (bind_touches a v) as (fd & Hfd & Ht & Hok). split; [by eapply touches_kept|]. intros Htrue.
  destruct (Hok Htrue) as (Hb & Ha & s & Hs & Hm). pose proof (bind_good B a v Hg) as Hbg. destruct (bind a v) as [[|] v']; [|done]. cbn [fst snd] in *.
  destruct Hbg as (Hg' & _ & (s' & Hs' & Hv') & _). exists s'. assert (s' = s) as -> by (rewrite Hs, lookup_insert_eq in Hs'; congruence).
  rewrite Hm in *. split_and!; try done. rewrite (ho_open _ _ _ (gd_holds _ _ Hg')). apply elem_of_union_r, elem_of_fds.
  exists (next v), s. split; [done|]. apply own_elem. by rewrite Hm.
Qed.

(** The descriptors of others, while sockets are destroyed. *)
Definition spared (B : gset Z) (k k' : kst) : Prop := forall fd, fd <> -1 -> fd ∈ B ->
  bound k' !! fd = bound k !! fd /\ (fd ∈ accepting k' <-> fd ∈ accepting k).
#[local] Instance spared_trans B : Transitive (spared B).
Proof. intros k1 k2 k3 H1 H2 fd Hfd Ho. destruct (H1 fd Hfd Ho) as (<- & <-). by apply H2. Qed.
Lemma kept_spared B k k' : B ⊆ open k -> kept k k' -> spared B k k'.
Proof. intros HB Hk fd Hfd Ho. by destruct (Hk fd Hfd (HB _ Ho)) as (_ & ? & ?). Qed.

Lemma release_spared B l v :
  holds B (heap v) (kernel v) -> accept_tasks v = [] -> NoDup l -> (forall i, i ∈ l -> is_Some (heap v !! i)) ->
  spared B (kernel v) (kernel (fold_left release l v)).
Proof.
  revert v. induction l as [|i l IH]; intros v Hh Ht Hn Hl; cbn [fold_left]; [done|].
  apply NoDup_cons in Hn as [Hi Hn]. destruct (Hl i ltac:(set_solver)) as [s Hs].
  assert (release v i = with_heap (delete i (heap v)) (destroy (s, kernel v)) v) as -> by (unfold release; by rewrite Ht, Hs).
  etrans; [|apply (IH (with_heap (delete i (heap v)) (destroy (s, kernel v)) v)); cbn; try done; [by apply holds_delete|]].
  - cbn. destruct (close_touches s (kernel v)) as [Hs' _]. intros fd Hfd Ho. apply Hs'. intros ->.
    destruct (holds_others _ _ _ _ _ Hh Hs) as [_ Hf _]. cbn in Hf. specialize (Hf Hfd). set_solver.
  - intros j Hj. rewrite lookup_delete_ne by set_solver. apply Hl. set_solver.
Qed.

Lemma bind_all_net B l v :
  good B v -> accept_tasks v = [] ->
  match bind_all l v with
  | (true, v') => kept (kernel v) (kernel v') /\ exists new, m_socks v' = m_socks v ++ new /\ Forall2 (serves (kernel v') v') new l
                    /\ (forall i, i ∈ m_socks v -> heap v' !! i = heap v !! i)
  | (false, v') => spared B (kernel v) (kernel v')
  end.
Proof.
  revert v. induction l as [|a l IH]; intros v Hg Ht; cbn [bind_all].
  - split; [done|]. exists []. by rewrite app_nil_r.
  - assert (B ⊆ open (kernel v)) as HB by (rewrite (ho_open _ _ _ (gd_holds _ _ Hg)); set_solver).
    destruct (bind_serves B a v Hg) as [Hk Hok]. pose proof (bind_good B a v Hg) as Hb. destruct (bind a v) as [[|] v1]; cbn [fst snd] in *.
    + destruct Hb as (Hg1 & Hs1 & _ & Hk1 & Ht1 & _). specialize (Hok eq_refl). specialize (IH v1 Hg1 ltac:(congruence)).
      destruct (bind_all l v1) as [[|] v2]; [|etrans; [by apply kept_spared|done]].
      destruct IH as (Hk2 & new & Hs2 & Hf & Hh). split; [by etrans|]. exists (next v :: new). rewrite Hs2, Hs1, <- app_assoc. split; [done|]. split.
      * constructor; [|done]. eapply serves_kept; [exact Hk2| |exact Hok]. apply Hh. rewrite Hs1. set_solver.
      * intros i Hi. rewrite Hh by (rewrite Hs1; set_solver). by apply Hk1.
    + destruct Hb as (Hg1 & _ & Ht1 & _). etrans; [by apply kept_spared|]. unfold clear. cbn.
      apply release_spared; [apply Hg1|congruence|apply Hg1|intros i Hi; by apply Hg1].
Qed.
End net.

(** C26. A server binds all its addresses or none: [bind] of a list on a new
    server either answers true with one socket per address, in order, each open,
    bound to its address and listening, or answers false, keeps no socket and
    leaves open exactly the descriptors that were open before; either way
    nothing changes for the descriptors that were open before. *)
Theorem bind_all_or_nothing `{K : Kernel, L : !KernelLaws K, N : !ListenLaws K} (addresses : list Address.Address) (k : kst) :
  match bind_all addresses (new_server k) with
  | (true, v) => Forall2 (serves (kernel v) v) (m_socks v) addresses /\ NoDup (m_socks v) /\ open (kernel v) = open k ∪ fds (heap v)
                 /\ kept k (kernel v)
  | (false, v) => m_socks v = [] /\ heap v = ∅ /\ open (kernel v) = open k /\ kept k (kernel v)
  end.
Proof.
  pose proof (bind_all_good (open k) addresses (new_server k) (new_good k) eq_refl) as Hb.
  pose proof (bind_all_net (open k) addresses (new_server k) (new_good k) eq_refl) as Hn. destruct (bind_all addresses _) as [[|] v].
  - destruct Hb as ([Hh _ Hnd _] & _). destruct Hn as (Hk & new & Hs & Hf & _). cbn in Hs. rewrite Hs in *. split_and!; try done. apply (ho_open _ _ _ Hh).
  - destruct Hb as (Hs & Hh & Ho). split_and!; try done. intros fd Hfd Hin. rewrite Ho. split; [done|]. by apply Hn.
Qed.

(** A kernel that knows what is bound: an address can be bound once. *)
#[export] Instance sockaddr_in_eq_decision : EqDecision Address.sockaddr_in.
Proof. solve_decision. Defined.
#[export] Instance sockaddr_in6_eq_decision : EqDecision Address.sockaddr_in6.
Proof. solve_decision. Defined.
#[export] Instance Address_eq_decision : EqDecision Address.Address.
Proof. solve_decision. Defined.
Record net := MkNet { n_open : gset Z; n_bound : gmap Z Address.Address; n_accepting : gset Z }.
Definition net_kernel : Kernel := {|
  kst := net;
  sys_socket _ _ _ k := let fd := 3 + Z.of_nat (length (elements (n_open k))) in
    if decide (fd ∈ n_open k) then (-1, k) else (fd, MkNet ({[fd]} ∪ n_open k) (n_bound k) (n_accepting k));
  sys_close fd k := (0, MkNet (n_open k ∖ {[fd]}) (delete fd (n_bound k)) (n_accepting k ∖ {[fd]}));
  sys_bind fd a k := if existsb (fun x => bool_decide (snd x = a)) (map_to_list (n_bound k)) then (-1, k)
                     else (0, MkNet (n_open k) (<[fd := a]> (n_bound k)) (n_accepting k));
  sys_connect _ _ k := (-1, k);
  sys_connect_with_timeout _ _ _ k := (-1, k);
  sys_listen fd _ k := (0, MkNet (n_open k) (n_bound k) ({[fd]} ∪ n_accepting k));
  sys_accept _ k := (-1, k);
  sys_transfer _ _ k := (0, k);
  sys_setsockopt _ _ _ _ k := (0, k);
  sys_getsockopt _ _ _ _ := Some 0;
  sys_getpeername _ _ := None;
  sys_getsockname fd k := n_bound k !! fd;
  fd_context fd k := Some (FdManager.MkFdContext true true true false false fd 0 0);
  io_cancel _ _ k := (true, k);
|}.
#[export] Instance net_kernel_laws : KernelLaws net_kernel.
Proof.
  apply (Build_KernelLaws net_kernel n_open); try done; intros; cbn.
  - case_decide; [by left|right; split_and!; [lia|done|done]].
  - by left.
  - by destruct (existsb _ _).
Defined.
#[export] Instance net_listen_laws : ListenLaws net_kernel.
Proof.
  refine (Build_ListenLaws net_kernel n_bound n_accepting _ _ _ _ _); cbn.
  - intros _ _ _ k. by case_decide.
  - intros fd k i Hi. cbn. rewrite lookup_delete_ne by done. set_solver.
  - intros fd a k. destruct (existsb _ _); [done|]. split; [intros i Hi; cbn; by rewrite lookup_insert_ne|intros _; cbn; by rewrite lookup_insert_eq].
  - intros fd n k. split; [intros i Hi; cbn; set_solver|]. cbn. set_solver.
  - done.
Defined.

Definition other_address : Address.Address := Address.IPv4Address (Address.MkIn 0x5100 0x0100007f (replicate 8 Byte.x00)).
Lemma bind_all_or_nothing_witness :
  (exists v, bind_all (K := net_kernel) [some_address; other_address] (new_server (K := net_kernel) (MkNet {[0]} ∅ ∅)) = (true, v)
    /\ Forall2 (serves (kernel v) v) (m_socks v) [some_address; other_address])
  /\ exists v, bind_all (K := net_kernel) [some_address; some_address] (new_server (K := net_kernel) (MkNet {[0]} ∅ ∅)) = (false, v)
    /\ m_socks v = [] /\ open (kernel v) = ({[0]} : gset Z).
Proof.
  pose proof (bind_all_or_nothing (K := net_kernel) [some_address; other_address] (MkNet {[0]} ∅ ∅)) as H1.
  pose proof (bind_all_or_nothing (K := net_kernel) [some_address; some_address] (MkNet {[0]} ∅ ∅)) as H2.
  destruct (bind_all (K := net_kernel) [some_address; other_address] _) as [b1 v1] eqn:E1.
  destruct (bind_all (K := net_kernel) [some_address; some_address] _) as [b2 v2] eqn:E2.
  assert (b1 = true) as -> by (apply (f_equal fst) in E1; vm_compute in E1; by subst).
  assert (b2 = false) as -> by (apply (f_equal fst) in E2; vm_compute in E2; by subst).
  split; [exists v1; split; [done|apply H1]|]. exists v2. split; [done|]. split; apply H2.
Defined.

(** ** The life of a server *)
Section life.
Context `{K : Kernel, L : !KernelLaws K}.

(** What the hook of [accept] does: a new descriptor has its context. *)
Definition accept_registers : Prop := forall s k fd k',
  sys_accept s k = (fd, k') -> fd <> -1 ->
  exists ctx, fd_context fd k' = Some ctx /\ FdManager.m_isSocket ctx = true /\ FdManager.m_isClosed ctx = false.
Context (Hreg : accept_registers).

Lemma accept_spec s k :
  match accept s k with
  | (Some c, k') => owns (open k) (c, k') /\ m_isConnected c = true
  | (None, k') => open k' = open k
  end.
Proof.
  unfold accept. pose proof (accept_opens (m_sock s) k) as Ho. destruct (sys_accept (m_sock s) k) as [fd k1] eqn:E.
  destruct Ho as [[-> Ho]|(Hfd & Hn & Ho)]; [done|]. rewrite (proj2 (Z.eqb_neq _ _)) by done.
  destruct (Hreg _ _ _ _ E Hfd) as (ctx & Hc & H1 & H2). unfold init. rewrite Hc, H1, H2. cbn [negb andb].
  set (c0 := with_connected true (with_sock fd (new_socket (m_family s) (m_type s) (m_protocol s)))).
  assert (owns (open k) (c0, k1)) as Hw.
  { split; cbn; [|done|done]. rewrite Ho. unfold own. cbn. rewrite (proj2 (Z.eqb_neq _ _)) by done. set_solver. }
  pose proof (initSock_neutral (c0, k1)) as N1. set (st1 := initSock (c0, k1)) in *.
  pose proof (remote_neutral st1) as N2. destruct (getRemoteAddress st1) as [x st2]. cbn in N2.
  pose proof (local_neutral st2) as N3. destruct (getLocalAddress st2) as [y [c k3]]. cbn in N3.
  assert (neutral (c0, k1) (c, k3)) as Hn3 by (etrans; [exact N1|]; etrans; [exact N2|exact N3]).
  split; [by eapply neutral_owns|]. by destruct Hn3 as (_ & _ & Hcon).
Qed.

(** The descriptors of clients handed to the workers. *)
Definition client_fds (l : list task) : list Z := flat_map (fun t => match t with HandleClient c => [m_sock c] | _ => [] end) l.
Lemma client_fds_app a b : client_fds (a ++ b) = client_fds a ++ client_fds b.
Proof. apply flat_map_app. Qed.

(** Another owner of a new descriptor appears. *)
Lemma holds_client B h k c k' : holds B h k -> owns (open k) (c, k') -> holds (own c ∪ B) h k'.
Proof.
  intros [Ho He] [Hc Hf _]. cbn in *. split; [rewrite Hc, Ho; set_solver|]. intros i s Hi. pose proof (fds_split i s h Hi) as Es.
  destruct (He i s Hi) as [H1 H2 H3]. cbn in *. split; cbn; [rewrite Hc, Ho, Es; set_solver| |done].
  intros Hs. specialize (H2 Hs). rewrite !not_elem_of_union. split_and!; [|set_solver|set_solver].
  rewrite own_elem. intros [Heq Hv]. apply (Hf Hv). rewrite <- Heq, H1, elem_of_union. right. by apply own_elem.
Qed.

(** The server with the descriptors of its clients. *)
Record running (B : gset Z) (v : TCPServer) : Prop := {
  rn_good : good (list_to_set (client_fds (worker_tasks v)) ∪ B) v;
  rn_nodup : NoDup (client_fds (worker_tasks v));
  rn_new x : x ∈ client_fds (worker_tasks v) -> x ∉ B;
}.

Lemma accept_round_running B i v : running B v -> running B (snd (accept_round i v)).
Proof.
  intros [Hg Hn Hx]. unfold accept_round. destruct (m_stop v); [done|]. destruct (heap v !! i) as [sock|]; [|done].
  pose proof (accept_spec sock (kernel v)) as Ha. destruct (accept sock (kernel v)) as [[c|] k].
  - destruct Ha as [Hw Hc]. cbn. pose proof (setOption_neutral Hook.SOL_SOCKET FdManager.SO_RCVTIMEO (timeval (m_recvTimeout v)) (c, k)) as Hne.
    unfold Socket.setRecvTimeout. destruct (setOption _ _ _ _) as [b [c' k']]. cbn in *. apply (neutral_owns _ _ _ Hne) in Hw.
    assert (m_sock c' <> -1) as Hv.
    { apply (ow_valid _ _ Hw). cbn. destruct Hne as (_ & _ & Hcon). cbn in Hcon. congruence. }
    destruct Hg as [Hh Hd Hnd Hf]. pose proof (ho_open _ _ _ Hh) as Ho. pose proof (ow_fresh _ _ Hw Hv) as Hfresh. cbn in Hfresh.
    assert (own c' = {[m_sock c']}) as Eo by (unfold own; by rewrite (proj2 (Z.eqb_neq _ _))).
    split; cbn.
    + rewrite client_fds_app. cbn. split; cbn; try done. rewrite list_to_set_app_L. cbn.
      replace (list_to_set (client_fds (worker_tasks v)) ∪ ({[m_sock c']} ∪ ∅) ∪ B) with (own c' ∪ (list_to_set (client_fds (worker_tasks v)) ∪ B)) by set_solver.
      by eapply holds_client.
    + rewrite client_fds_app. cbn. apply NoDup_app. split_and!; [done| |apply NoDup_singleton].
      intros x Hx1 ->%list_elem_of_singleton. apply Hfresh. rewrite Ho. set_solver.
    + intros x. rewrite client_fds_app, elem_of_app. cbn. intros [Hx1| ->%list_elem_of_singleton]; [by apply Hx|].
      intros Hb. apply Hfresh. rewrite Ho. set_solver.
  - split; cbn; try done. destruct Hg as [Hh Hd Hnd Hf]. split; cbn; try done. by eapply holds_kernel.
Qed.

Lemma accept_round_same i v :
  let v' := snd (accept_round i v) in m_socks v' = m_socks v /\ accept_tasks v' = accept_tasks v.
Proof.
  unfold accept_round. destruct (m_stop v); [done|]. destruct (heap v !! i) as [sock|]; [|done]. destruct (accept _ _) as [[c|] k]; [|done].
  cbn. by destruct (Socket.setRecvTimeout _ _).
Qed.
Definition rounds (l : list name) (v : TCPServer) : TCPServer := fold_left (fun v i => snd (accept_round i v)) l v.
Lemma rounds_running B l v :
  running B v -> running B (rounds l v) /\ m_socks (rounds l v) = m_socks v /\ accept_tasks (rounds l v) = accept_tasks v.
Proof.
  revert v. unfold rounds. induction l as [|i l IH]; intros v Hr; cbn; [done|]. destruct (accept_round_same i v) as [H1 H2].
  rewrite <- H1, <- H2. by apply IH, accept_round_running.
Qed.

End life.

Section stopping.
Context `{K : Kernel, L : !KernelLaws K}.

(** Closing a socket keeps the books. *)
Lemma close_sock_good B i v :
  good B v -> good B (close_sock v i) /\ m_socks (close_sock v i) = m_socks v /\ accept_tasks (close_sock v i) = accept_tasks v
    /\ worker_tasks (close_sock v i) = worker_tasks v /\ m_stop (close_sock v i) = m_stop v
    /\ (forall j s, heap (close_sock v i) !! j = Some s -> heap v !! j = Some s \/ m_sock s = -1)
    /\ (forall s, heap (close_sock v i) !! i = Some s -> m_sock s = -1).
Proof.
  intros [Hh Hd Hn Hf]. unfold close_sock. destruct (heap v !! i) as [s|] eqn:Hi; [|split_and!; try done; [intros; by left|congruence]].
  pose proof (holds_others _ _ _ _ _ Hh Hi) as Hw. pose proof (cancel_neutral None (s, kernel v)) as Hc. unfold cancelAll.
  destruct (cancel None _) as [b st]. cbn in Hc. apply (neutral_owns _ _ _ Hc) in Hw. apply close_owns in Hw as [Hw Hs].
  destruct (Socket.close st) as [b' [s' k']]. cbn in *. split_and!; try done.
  - split; cbn; try done; [by eapply holds_put|]. intros j. rewrite <- Hd. destruct (decide (i = j)) as [<-|]; [rewrite lookup_insert_eq, Hi; split; eauto|by rewrite lookup_insert_ne].
  - intros j t. destruct (decide (i = j)) as [<-|]; [rewrite lookup_insert_eq; intros [= <-]; by right|rewrite lookup_insert_ne by done; by left].
  - intros t. rewrite lookup_insert_eq. by intros [= <-].
Qed.

Lemma close_all_good B l v :
  good B v ->
  let v' := fold_left close_sock l v in
  good B v' /\ m_socks v' = m_socks v /\ accept_tasks v' = accept_tasks v /\ worker_tasks v' = worker_tasks v /\ m_stop v' = m_stop v
  /\ (forall j s, heap v' !! j = Some s -> heap v !! j = Some s \/ m_sock s = -1)
  /\ (forall j s, j ∈ l -> heap v' !! j = Some s -> m_sock s = -1).
Proof.
  revert v. induction l as [|i l IH]; intros v Hg; cbn; [split_and!; try done; [by left|set_solver]|].
  destruct (close_sock_good B i v Hg) as (Hg1 & E1 & E2 & E3 & E4 & Ho & Hi). destruct (IH _ Hg1) as (Hg2 & F1 & F2 & F3 & F4 & Fo & Fl).
  split_and!; try congruence.
  - intros j s Hj. destruct (Fo j s Hj) as [Hj1|]; [by apply Ho|by right].
  - intros j s [->|Hjl]%elem_of_cons Hj; [|by eapply Fl]. destruct (Fo _ _ Hj) as [Hj1|]; [by apply Hi|done].
Qed.

(** With every socket held by its task, [clear] only forgets the names. *)
Lemma clear_referred v :
  (forall i, i ∈ m_socks v -> StartAccept i ∈ accept_tasks v) -> clear v = with_socks [] v.
Proof.
  intros Hr. unfold clear. f_equal. assert (forall l, (forall i, i ∈ l -> StartAccept i ∈ accept_tasks v) -> fold_left release l v = v) as Hf.
  { induction l as [|i l IH]; intros Hl; cbn; [done|]. assert (release v i = v) as ->; [|apply IH; set_solver].
    unfold release. rewrite (proj2 (existsb_exists _ _)); [done|]. exists (StartAccept i). split; [apply list_elem_of_In, Hl; set_solver|by apply bool_decide_eq_true]. }
  by apply Hf.
Qed.

Lemma stop_spec B v :
  running B v -> (forall i, i ∈ m_socks v -> StartAccept i ∈ accept_tasks v) ->
  let v' := stop_task (stop v) in
  m_socks v' = [] /\ worker_tasks v' = worker_tasks v /\ m_stop v' = true /\ open (kernel v') = B ∪ list_to_set (client_fds (worker_tasks v)).
Proof.
  intros [Hg _ _] Hr. unfold stop_task, stop. cbn [m_socks with_stop with_tasks accept_tasks].
  set (v1 := with_tasks (accept_tasks v ++ [StopTask]) (with_stop true v)).
  assert (good (list_to_set (client_fds (worker_tasks v)) ∪ B) v1) as Hg1 by by destruct Hg.
  destruct (close_all_good _ (m_socks v) v1 Hg1) as (Hg2 & E1 & E2 & E3 & E4 & _ & Hc). set (v2 := fold_left close_sock (m_socks v) v1) in *.
  rewrite clear_referred; cbn [with_socks m_socks worker_tasks kernel m_stop].
  - split_and!; try done. rewrite (ho_open _ _ _ (gd_holds _ _ Hg2)). assert (fds (heap v2) = ∅) as ->; [|set_solver].
    apply set_eq. intros x. rewrite elem_of_fds. split; [|set_solver]. intros (j & s & Hj & Hx). apply own_elem in Hx as [_ Hx]. exfalso. apply Hx.
    apply (Hc j s); [|done]. change (m_socks v) with (m_socks v1). rewrite <- E1. apply (gd_dom _ _ Hg2). eauto.
  - intros i. rewrite E1, E2. cbn. intros Hi. apply elem_of_app. left. by apply Hr.
Qed.
End stopping.


Lemma toy_registers : accept_registers (K := toy_kernel).
Proof. intros s k fd k' _ _. eexists. by split_and!. Qed.
Definition c_server : TCPServer (K := toy_kernel) := snd (bind_all (K := toy_kernel) [some_address; some_address] (new_server (K := toy_kernel) (∅ : gset Z))).

(** *** Behaviour to know of *)

(** A server started again before the task of [stop] has run loses its sockets
    and keeps accepting: each loop goes on for ever on a closed socket. *)
Theorem restart_spins `{K : Kernel, L : !KernelLaws K} (B : gset Z) (v : TCPServer) :
  good B v -> (forall i, i ∈ m_socks v -> StartAccept i ∈ accept_tasks v) -> (forall k, sys_accept (-1) k = (-1, k)) ->
  let v' := stop_task (snd (start (stop v))) in
  m_stop v' = false /\ m_socks v' = [] /\ forall i, i ∈ m_socks v -> accept_round i v' = (true, v').
Proof.
  intros Hg Hr Hk. unfold stop_task, start, stop. cbn [m_stop with_tasks with_stop negb snd m_socks accept_tasks].
  match goal with |- context [fold_left close_sock _ ?u] => set (v1 := u) end.
  assert (good B v1) as Hg1 by by destruct Hg. destruct (close_all_good B (m_socks v) v1 Hg1) as (Hg2 & E1 & E2 & E3 & E4 & _ & Hc).
  set (v2 := fold_left close_sock (m_socks v) v1) in *. rewrite clear_referred.
  - cbn [m_stop with_socks m_socks]. split_and!; [by rewrite E4|done|]. intros i Hi. unfold accept_round. cbn [m_stop with_socks heap]. rewrite E4. cbn [m_stop].
    destruct (proj2 (gd_dom _ _ Hg2 i) ltac:(by rewrite E1)) as [s Hs]. rewrite Hs. unfold accept. rewrite (Hc i s Hi Hs), Hk. cbn. by destruct v2.
  - intros i. rewrite E1, E2. cbn. intros Hi. apply elem_of_app. left. apply elem_of_app. left. by apply Hr.
Qed.

End TcpServer.
