(* ===== verification/Http.v ===== *)
(** * HTTP messages: [luwu/luwu/http/http.h] and [http.cpp]

    Requests and responses with their case-insensitive header maps, the lazy
    parsing of query, body and cookie parameters, and the serialisation of
    both message kinds.  The method and status tables are those of the
    bundled [http_parser.h]. *)
From S2P Require Import Prelude StdString StdMap Ext.
Import StdString.
Local Open Scope Z_scope.

Module Http.

(** ** Methods and status codes *)

(** The strings of [HTTP_METHOD_MAP], in the order of their numbers. *)
Definition s_method : list str :=
  [ bs "DELETE"; bs "GET"; bs "HEAD"; bs "POST"; bs "PUT"; bs "CONNECT"; bs "OPTIONS"; bs
   "TRACE"; bs "COPY"; bs "LOCK"; bs "MKCOL"; bs "MOVE"; bs "PROPFIND"; bs "PROPPATCH"; bs
   "SEARCH"; bs "UNLOCK"; bs "BIND"; bs "REBIND"; bs "UNBIND"; bs "ACL"; bs "REPORT"; bs
   "MKACTIVITY"; bs "CHECKOUT"; bs "MERGE"; bs "M-SEARCH"; bs "NOTIFY"; bs "SUBSCRIBE"; bs
   "UNSUBSCRIBE"; bs "PATCH"; bs "PURGE"; bs "MKCALENDAR"; bs "LINK"; bs "UNLINK"; bs "SOURCE"].

(** [HttpMethod]: the number of the method. *)
Definition INVALID_METHOD : Z := zlen s_method.
Definition GET : Z := 1.

(** The chain of comparisons of [StringToHttpMethod] and [CharsToHttpMethod]. *)
Fixpoint method_chain (test : str -> bool) (i : Z) (l : list str) : Z :=
  match l with [] => INVALID_METHOD | s :: l => if test s then i else method_chain test (i + 1) l end.
Definition StringToHttpMethod (m : str) : Z :=
  method_chain (fun s => bool_decide (s = c_str m)) 0 s_method.
Definition CharsToHttpMethod (m : str) : Z := method_chain (fun s => starts_with s m) 0 s_method.

(** [s_method->size()] is the length of the first string of the array. *)
Definition HttpMethodToString (m : Z) : str :=
  if zlen (default [] (s_method !! 0%nat)) <=? u32 m then bs "<unknown>"
  else default [] (s_method !! Z.to_nat (u32 m)).

(** [HTTP_STATUS_MAP]. *)
Definition status_map : list (Z * str) :=
  [(100, bs "Continue");
   (101, bs "Switching Protocols");
   (102, bs "Processing");
   (200, bs "OK");
   (201, bs "Created");
   (202, bs "Accepted");
   (203, bs "Non-Authoritative Information");
   (204, bs "No Content");
   (205, bs "Reset Content");
   (206, bs "Partial Content");
   (207, bs "Multi-Status");
   (208, bs "Already Reported");
   (226, bs "IM Used");
   (300, bs "Multiple Choices");
   (301, bs "Moved Permanently");
   (302, bs "Found");
   (303, bs "See Other");
   (304, bs "Not Modified");
   (305, bs "Use Proxy");
   (307, bs "Temporary Redirect");
   (308, bs "Permanent Redirect");
   (400, bs "Bad Request");
   (401, bs "Unauthorized");
   (402, bs "Payment Required");
   (403, bs "Forbidden");
   (404, bs "Not Found");
   (405, bs "Method Not Allowed");
   (406, bs "Not Acceptable");
   (407, bs "Proxy Authentication Required");
   (408, bs "Request Timeout");
   (409, bs "Conflict");
   (410, bs "Gone");
   (411, bs "Length Required");
   (412, bs "Precondition Failed");
   (413, bs "Payload Too Large");
   (414, bs "URI Too Long");
   (415, bs "Unsupported Media Type");
   (416, bs "Range Not Satisfiable");
   (417, bs "Expectation Failed");
   (421, bs "Misdirected Request");
   (422, bs "Unprocessable Entity");
   (423, bs "Locked");
   (424, bs "Failed Dependency");
   (426, bs "Upgrade Required");
   (428, bs "Precondition Required");
   (429, bs "Too Many Requests");
   (431, bs "Request Header Fields Too Large");
   (451, bs "Unavailable For Legal Reasons");
   (500, bs "Internal Server Error");
   (501, bs "Not Implemented");
   (502, bs "Bad Gateway");
   (503, bs "Service Unavailable");
   (504, bs "Gateway Timeout");
   (505, bs "HTTP Version Not Supported");
   (506, bs "Variant Also Negotiates");
   (507, bs "Insufficient Storage");
   (508, bs "Loop Detected");
   (510, bs "Not Extended");
   (511, bs "Network Authentication Required")].
Definition HttpStatusToString (s : Z) : str :=
  default (bs "<unknown>") (snd <$> List.find (fun p => fst p =? s) status_map).
Definition OK : Z := 200.
Definition FOUND : Z := 302.

(** ** Header maps *)
Definition CaseInsensitiveLess (lhs rhs : str) : bool :=
  match strcasecmp lhs rhs with Lt => true | _ => false end.

Abbreviation MapType := (list (str * str)).
Definition mfind (k : str) (m : MapType) : option str := StdMap.lookup CaseInsensitiveLess k m.
(** [m[k] = v], [m.insert({k, v})] and [m.erase(k)]. *)
Definition massign (k v : str) (m : MapType) : MapType := StdMap.assign CaseInsensitiveLess k v m.
Definition minsert (k v : str) (m : MapType) : MapType := StdMap.insert CaseInsensitiveLess fst (k, v) m.
Definition merase (k : str) (m : MapType) : MapType := StdMap.erase CaseInsensitiveLess fst k m.

(** [checkGetAs] and [getAs]; [cast] is [boost::lexical_cast<T>]. *)
Definition checkGetAs {T} (cast : str -> option T) (m : MapType) (key : str) (def : T) : bool * T :=
  match mfind key m with
  | None => (false, def)
  | Some s => match cast s with Some v => (true, v) | None => (false, def) end
  end.
Definition getAs {T} (cast : str -> option T) (m : MapType) (key : str) (def : T) : T :=
  match mfind key m with None => def | Some s => default def (cast s) end.

(** ** Requests *)
Record HttpRequest := MkRequest {
  q_close : bool;
  q_webSocket : bool;
  q_status : Z;
  q_method : Z;
  q_version : Z;
  q_path : str;
  q_query : str;
  q_fragment : str;
  q_body : str;
  q_headers : MapType;
  q_params : MapType;
  q_cookies : MapType;
}.

Definition new_request (version : Z) (close : bool) : HttpRequest :=
  MkRequest close false 0 GET version (bs "/") [] [] [] [] [] [].

Definition q_with_headers (h : MapType) (r : HttpRequest) : HttpRequest :=
  MkRequest (q_close r) (q_webSocket r) (q_status r) (q_method r) (q_version r) (q_path r) (q_query r)
    (q_fragment r) (q_body r) h (q_params r) (q_cookies r).
Definition q_with_params (p : MapType) (status : Z) (r : HttpRequest) : HttpRequest :=
  MkRequest (q_close r) (q_webSocket r) status (q_method r) (q_version r) (q_path r) (q_query r)
    (q_fragment r) (q_body r) (q_headers r) p (q_cookies r).
Definition q_with_cookies (c : MapType) (status : Z) (r : HttpRequest) : HttpRequest :=
  MkRequest (q_close r) (q_webSocket r) status (q_method r) (q_version r) (q_path r) (q_query r)
    (q_fragment r) (q_body r) (q_headers r) (q_params r) c.
Definition setClose (c : bool) (r : HttpRequest) : HttpRequest :=
  MkRequest c (q_webSocket r) (q_status r) (q_method r) (q_version r) (q_path r) (q_query r)
    (q_fragment r) (q_body r) (q_headers r) (q_params r) (q_cookies r).
Definition setBody (b : str) (r : HttpRequest) : HttpRequest :=
  MkRequest (q_close r) (q_webSocket r) (q_status r) (q_method r) (q_version r) (q_path r) (q_query r)
    (q_fragment r) b (q_headers r) (q_params r) (q_cookies r).
Definition setQuery (q : str) (r : HttpRequest) : HttpRequest :=
  MkRequest (q_close r) (q_webSocket r) (q_status r) (q_method r) (q_version r) (q_path r) q
    (q_fragment r) (q_body r) (q_headers r) (q_params r) (q_cookies r).

Definition setWebSocket (w : bool) (r : HttpRequest) : HttpRequest :=
  MkRequest (q_close r) w (q_status r) (q_method r) (q_version r) (q_path r) (q_query r)
    (q_fragment r) (q_body r) (q_headers r) (q_params r) (q_cookies r).

Definition setMethod (m : Z) (r : HttpRequest) : HttpRequest :=
  MkRequest (q_close r) (q_webSocket r) (q_status r) m (q_version r) (q_path r) (q_query r)
    (q_fragment r) (q_body r) (q_headers r) (q_params r) (q_cookies r).
Definition setVersion (v : Z) (r : HttpRequest) : HttpRequest :=
  MkRequest (q_close r) (q_webSocket r) (q_status r) (q_method r) (u8 v) (q_path r) (q_query r)
    (q_fragment r) (q_body r) (q_headers r) (q_params r) (q_cookies r).
Definition setPath (p : str) (r : HttpRequest) : HttpRequest :=
  MkRequest (q_close r) (q_webSocket r) (q_status r) (q_method r) (q_version r) p (q_query r)
    (q_fragment r) (q_body r) (q_headers r) (q_params r) (q_cookies r).
Definition setFragment (f : str) (r : HttpRequest) : HttpRequest :=
  MkRequest (q_close r) (q_webSocket r) (q_status r) (q_method r) (q_version r) (q_path r) (q_query r)
    f (q_body r) (q_headers r) (q_params r) (q_cookies r).
Definition appendBody (b : str) (r : HttpRequest) : HttpRequest := setBody (q_body r ++ b) r.

Definition setHeader (key val : str) (r : HttpRequest) : HttpRequest :=
  q_with_headers (massign key val (q_headers r)) r.
Definition delHeader (key : str) (r : HttpRequest) : HttpRequest :=
  q_with_headers (merase key (q_headers r)) r.
Definition setParam (key val : str) (r : HttpRequest) : HttpRequest :=
  q_with_params (massign key val (q_params r)) (q_status r) r.
Definition delParam (key : str) (r : HttpRequest) : HttpRequest :=
  q_with_params (merase key (q_params r)) (q_status r) r.
Definition setCookie (key val : str) (r : HttpRequest) : HttpRequest :=
  q_with_cookies (massign key val (q_cookies r)) (q_status r) r.
Definition delCookie (key : str) (r : HttpRequest) : HttpRequest :=
  q_with_cookies (merase key (q_cookies r)) (q_status r) r.

Definition setHeaders (h : MapType) (r : HttpRequest) : HttpRequest := q_with_headers h r.
Definition setParams (p : MapType) (r : HttpRequest) : HttpRequest := q_with_params p (q_status r) r.
Definition setCookies (c : MapType) (r : HttpRequest) : HttpRequest := q_with_cookies c (q_status r) r.

Definition getHeader (r : HttpRequest) (key def : str) : str := default def (mfind key (q_headers r)).
Definition hasHeader (r : HttpRequest) (key : str) : option str := mfind key (q_headers r).

(** The macro [PARSE_PARAM]: [trim] is applied to the key. *)
Fixpoint parse_param_loop (fuel : nat) (s : str) (m : MapType) (flag : byte) (trim : str -> str) (pos : Z)
    : outcome unit MapType :=
  match fuel with
  | O => NoFuel
  | S fuel =>
      match find (z2b 61) s pos with
      | None => Ret m tt
      | Some key =>
          let k := Ext.UrlDecode (trim (substr s pos (key - pos))) true in
          match find flag s key with
          | None => Ret (minsert k (Ext.UrlDecode (substr_to_end s (key + 1)) true) m) tt
          | Some pos' =>
              let m := minsert k (Ext.UrlDecode (substr s (key + 1) (pos' - key - 1)) true) m in
              parse_param_loop fuel s m flag trim (pos' + 1)
          end
      end
  end.
Definition PARSE_PARAM (s : str) (m : MapType) (flag : byte) (trim : str -> str) : outcome unit MapType :=
  parse_param_loop (S (length s)) s m flag trim 0.

Definition initQueryParam (r : HttpRequest) : outcome unit HttpRequest :=
  if negb (Z.land (q_status r) 0x1 =? 0) then Ret r tt
  else let* m, _ := PARSE_PARAM (q_query r) (q_params r) (z2b 38) id in
       Ret (q_with_params m (Z.lor (q_status r) 0x1) r) tt.

(** [strcasestr(hay, needle) != nullptr]. *)
Definition strcasestr (hay needle : str) : bool :=
  bool_decide (is_Some (find_str (map tolower needle) (map tolower (c_str hay)))).

Definition initBodyParam (r : HttpRequest) : outcome unit HttpRequest :=
  if negb (Z.land (q_status r) 0x2 =? 0) then Ret r tt
  else if negb (strcasestr (getHeader r (bs "content-type") []) (bs "application/x-www-form-urlencoded"))
  then Ret (q_with_params (q_params r) (Z.lor (q_status r) 0x2) r) tt
  else let* m, _ := PARSE_PARAM (q_body r) (q_params r) (z2b 38) id in
       Ret (q_with_params m (Z.lor (q_status r) 0x2) r) tt.

(** The default delimiters of [StringUtil::Trim]. *)
Definition spaces : str := [z2b 32; z2b 9; z2b 13; z2b 10].

Definition initCookies (r : HttpRequest) : outcome unit HttpRequest :=
  if negb (Z.land (q_status r) 0x4 =? 0) then Ret r tt
  else let cookie := getHeader r (bs "cookie") [] in
  if bool_decide (cookie = []) then Ret (q_with_cookies (q_cookies r) (Z.lor (q_status r) 0x4) r) tt
  else let* m, _ := PARSE_PARAM cookie (q_cookies r) (z2b 59) (fun s => Ext.Trim s spaces) in
       Ret (q_with_cookies m (Z.lor (q_status r) 0x4) r) tt.

Definition getParam (key def : str) (r : HttpRequest) : outcome unit (str * HttpRequest) :=
  let* r, _ := initQueryParam r in
  let* r, _ := initBodyParam r in
  Ret (default def (mfind key (q_params r)), r) tt.
Definition hasParam (key : str) (r : HttpRequest) : outcome unit (option str * HttpRequest) :=
  let* r, _ := initQueryParam r in
  let* r, _ := initBodyParam r in
  Ret (mfind key (q_params r), r) tt.
Definition getCookie (key def : str) (r : HttpRequest) : outcome unit (str * HttpRequest) :=
  let* r, _ := initCookies r in Ret (default def (mfind key (q_cookies r)), r) tt.
Definition hasCookie (key : str) (r : HttpRequest) : outcome unit (option str * HttpRequest) :=
  let* r, _ := initCookies r in Ret (mfind key (q_cookies r), r) tt.

(** The getters that convert the value; [cast] is [boost::lexical_cast<T>].
    [getCookieAs] does not call [initCookies]. *)
Section typed.
Context {T : Type} (cast : str -> option T).
Definition checkGetHeaderAs (r : HttpRequest) (key : str) (def : T) : bool * T := checkGetAs cast (q_headers r) key def.
Definition getHeaderAs (r : HttpRequest) (key : str) (def : T) : T := getAs cast (q_headers r) key def.
Definition checkGetParamAs (key : str) (def : T) (r : HttpRequest) : outcome unit ((bool * T) * HttpRequest) :=
  let* r, _ := initQueryParam r in
  let* r, _ := initBodyParam r in
  Ret (checkGetAs cast (q_params r) key def, r) tt.
Definition getParamAs (key : str) (def : T) (r : HttpRequest) : outcome unit (T * HttpRequest) :=
  let* r, _ := initQueryParam r in
  let* r, _ := initBodyParam r in
  Ret (getAs cast (q_params r) key def, r) tt.
Definition checkGetCookieAs (key : str) (def : T) (r : HttpRequest) : outcome unit ((bool * T) * HttpRequest) :=
  let* r, _ := initCookies r in Ret (checkGetAs cast (q_cookies r) key def, r) tt.
Definition getCookieAs (r : HttpRequest) (key : str) (def : T) : T := getAs cast (q_cookies r) key def.
End typed.

(** [init]: the connection header decides [m_close]. *)
Definition init (r : HttpRequest) : HttpRequest :=
  let conn := getHeader r (bs "connection") [] in
  if bool_decide (conn = []) then r
  else setClose (negb (bool_decide (strcasecmp conn (bs "keep-alive") = Eq))) r.

(** *** Serialisation *)
Definition CRLF : str := [z2b 13; z2b 10].
Definition is_header (name key : str) : bool := bool_decide (strcasecmp key name = Eq).
Definition version_string (v : Z) : str := dec (Z.shiftr v 4) ++ bs "." ++ dec (Z.land v 0x0f).
Definition header_line (h : str * str) : str := fst h ++ bs ": " ++ snd h ++ CRLF.

Definition dump (r : HttpRequest) : str :=
  HttpMethodToString (q_method r) ++ bs " " ++ q_path r
  ++ (if bool_decide (q_query r = []) then [] else bs "?") ++ q_query r
  ++ (if bool_decide (q_fragment r = []) then [] else bs "#") ++ q_fragment r
  ++ bs " HTTP/" ++ version_string (q_version r) ++ CRLF
  ++ (if q_webSocket r then [] else bs "Connection: " ++ (if q_close r then bs "close" else bs "keep-alive") ++ CRLF)
  ++ concat (map header_line (List.filter (fun h =>
       negb (negb (q_webSocket r) && is_header (bs "Connection") (fst h))
       && negb (negb (bool_decide (q_body r = [])) && is_header (bs "content-length") (fst h))) (q_headers r)))
  ++ (if bool_decide (q_body r = []) then CRLF
      else bs "content-length: " ++ dec (zlen (q_body r)) ++ CRLF ++ CRLF ++ q_body r).

(** ** Responses *)
Record HttpResponse := MkResponse {
  p_status : Z;
  p_version : Z;
  p_close : bool;
  p_webSocket : bool;
  p_body : str;
  p_reason : str;
  p_headers : MapType;
  p_cookies : list str;
}.
Definition new_response (version : Z) (close : bool) : HttpResponse :=
  MkResponse OK version close false [] [] [] [].
Definition createResponse (r : HttpRequest) : HttpResponse := new_response (q_version r) (q_close r).

Definition p_getHeader (r : HttpResponse) (key def : str) : str := default def (mfind key (p_headers r)).
Definition p_setHeader (key val : str) (r : HttpResponse) : HttpResponse :=
  MkResponse (p_status r) (p_version r) (p_close r) (p_webSocket r) (p_body r) (p_reason r)
    (massign key val (p_headers r)) (p_cookies r).
Definition p_delHeader (key : str) (r : HttpResponse) : HttpResponse :=
  MkResponse (p_status r) (p_version r) (p_close r) (p_webSocket r) (p_body r) (p_reason r)
    (merase key (p_headers r)) (p_cookies r).
Definition setStatus (s : Z) (r : HttpResponse) : HttpResponse :=
  MkResponse s (p_version r) (p_close r) (p_webSocket r) (p_body r) (p_reason r) (p_headers r) (p_cookies r).
Definition p_setBody (b : str) (r : HttpResponse) : HttpResponse :=
  MkResponse (p_status r) (p_version r) (p_close r) (p_webSocket r) b (p_reason r) (p_headers r) (p_cookies r).
Definition p_setWebSocket (w : bool) (r : HttpResponse) : HttpResponse :=
  MkResponse (p_status r) (p_version r) (p_close r) w (p_body r) (p_reason r) (p_headers r) (p_cookies r).
Definition setReason (reason : str) (r : HttpResponse) : HttpResponse :=
  MkResponse (p_status r) (p_version r) (p_close r) (p_webSocket r) (p_body r) reason (p_headers r) (p_cookies r).
Definition p_setVersion (v : Z) (r : HttpResponse) : HttpResponse :=
  MkResponse (p_status r) (u8 v) (p_close r) (p_webSocket r) (p_body r) (p_reason r) (p_headers r) (p_cookies r).
Definition p_appendBody (b : str) (r : HttpResponse) : HttpResponse := p_setBody (p_body r ++ b) r.
Definition p_setHeaders (h : MapType) (r : HttpResponse) : HttpResponse :=
  MkResponse (p_status r) (p_version r) (p_close r) (p_webSocket r) (p_body r) (p_reason r) h (p_cookies r).
Definition p_setClose (c : bool) (r : HttpResponse) : HttpResponse :=
  MkResponse (p_status r) (p_version r) c (p_webSocket r) (p_body r) (p_reason r) (p_headers r) (p_cookies r).
Definition p_checkGetHeaderAs {T} (cast : str -> option T) (r : HttpResponse) (key : str) (def : T) : bool * T :=
  checkGetAs cast (p_headers r) key def.
Definition p_getHeaderAs {T} (cast : str -> option T) (r : HttpResponse) (key : str) (def : T) : T :=
  getAs cast (p_headers r) key def.
Definition setRedirect (uri : str) (r : HttpResponse) : HttpResponse :=
  p_setHeader (bs "Location") uri (setStatus FOUND r).

(** [setCookie]; [time2str] formats the expiry date. *)
Definition p_setCookie (time2str : Z -> str) (key val : str) (expired : Z) (path domain : str) (secure : bool)
    (r : HttpResponse) : HttpResponse :=
  let c := key ++ bs "=" ++ val
    ++ (if 0 <? expired then bs ";expires=" ++ time2str expired ++ bs " GMT" else [])
    ++ (if bool_decide (domain = []) then [] else bs ";domain=" ++ domain)
    ++ (if bool_decide (path = []) then [] else bs ";path=" ++ path)
    ++ (if secure then bs ";secure" else []) in
  MkResponse (p_status r) (p_version r) (p_close r) (p_webSocket r) (p_body r) (p_reason r) (p_headers r)
    (p_cookies r ++ [c]).

Definition p_dump (r : HttpResponse) : str :=
  bs "HTTP/" ++ version_string (p_version r) ++ bs " " ++ dec (u32 (p_status r)) ++ bs " "
  ++ (if bool_decide (p_reason r = []) then HttpStatusToString (p_status r) else p_reason r) ++ CRLF
  ++ (if p_webSocket r then [] else bs "connection: " ++ (if p_close r then bs "close" else bs "keep-alive") ++ CRLF)
  ++ concat (map header_line (List.filter (fun h =>
       negb (negb (p_webSocket r) && is_header (bs "connection") (fst h))) (p_headers r)))
  ++ (if bool_decide (p_body r = []) then CRLF
      else bs "content-length: " ++ dec (zlen (p_body r)) ++ CRLF ++ CRLF ++ p_body r).

(** ** The maps *)

(** Keys are equal when they are the same C string up to case. *)
Definition lower (k : str) : str := map tolower (c_str k).

#[export] Instance case_insensitive_swo : StdMap.StrictWeakOrder CaseInsensitiveLess.
Proof.
  assert (forall a b, CaseInsensitiveLess a b = true <-> compare (lower a) (lower b) = Lt) as H.
  { intros a b. unfold CaseInsensitiveLess, strcasecmp, lower. by destruct (compare _ _). }
  split.
  - intros a. apply not_true_iff_false. rewrite H. by rewrite compare_refl.
  - intros a b c. rewrite !H. apply compare_trans.
  - intros a b c. rewrite <- !not_true_iff_false, !H. apply compare_ge_trans.
Qed.

Lemma equiv_lower a b : StdMap.equivb CaseInsensitiveLess a b = bool_decide (lower a = lower b).
Proof.
  apply eq_true_iff_eq. rewrite StdMap.equivb_spec, bool_decide_eq_true. unfold CaseInsensitiveLess, strcasecmp.
  fold (lower a). fold (lower b). rewrite (compare_antisym (lower a)).
  destruct (compare (lower a) (lower b)) eqn:E; simpl; try (by split; [intros []|intros E'; rewrite E', compare_refl in E]).
  apply compare_eq in E. by split.
Qed.

Lemma is_header_lower name key : is_header name key = bool_decide (lower key = lower name).
Proof. unfold is_header, strcasecmp. apply bool_decide_ext. apply compare_eq. Qed.

Abbreviation msorted := (StdMap.map_sorted CaseInsensitiveLess).

Lemma mfind_insert k k' v m :
  msorted m ->
  mfind k' (minsert k v m)
  = match mfind k' m with Some w => Some w | None => if bool_decide (lower k = lower k') then Some v else None end.
Proof. intros. unfold mfind, minsert. rewrite (StdMap.lookup_insert CaseInsensitiveLess) by done. by rewrite equiv_lower. Qed.

(** Inserting pairs in order: the first pair with a key wins. *)
Definition insert_all (m : MapType) (ps : list (str * str)) : MapType :=
  foldl (fun m p => minsert (fst p) (snd p) m) m ps.

Lemma insert_all_sorted ps m : msorted m -> msorted (insert_all m ps).
Proof.
  revert m. induction ps as [|p ps IH]; intros m Hm; [done|]. apply IH.
  by apply (StdMap.insert_sorted CaseInsensitiveLess fst).
Qed.

Lemma mfind_insert_all ps m k :
  msorted m ->
  mfind k (insert_all m ps)
  = match mfind k m with
    | Some w => Some w
    | None => snd <$> List.find (fun p => bool_decide (lower (fst p) = lower k)) ps
    end.
Proof.
  revert m. induction ps as [|[x v] ps IH]; intros m Hm; simpl; [by destruct (mfind k m)|].
  rewrite IH by by apply (StdMap.insert_sorted CaseInsensitiveLess fst). rewrite mfind_insert by done.
  destruct (mfind k m); [done|]. by destruct (bool_decide _).
Qed.

(** ** Query strings *)

(** How a client encodes parameters. *)
Definition render_pair (p : str * str) : str := Ext.UrlEncode (fst p) true ++ z2b 61 :: Ext.UrlEncode (snd p) true.
Fixpoint render (ps : list (str * str)) : str :=
  match ps with
  | [] => []
  | [p] => render_pair p
  | p :: ps => render_pair p ++ z2b 38 :: render ps
  end.

Lemma UrlEncode_no_amp s : Forall (fun c => c <> z2b 38) (Ext.UrlEncode s true).
Proof.
  rewrite Ext.UrlEncode_eq. apply Forall_concat, Forall_map, Forall_true. intros c.
  assert (forallb (fun c => forallb (fun x => negb (bool_decide (x = z2b 38))) (Ext.enc1 true c)) all_bytes = true)
    as H by (vm_compute; reflexivity).
  pose proof (byte_forall _ H c) as Hc. simpl in Hc. rewrite forallb_forall in Hc. apply List.Forall_forall.
  intros x Hx. specialize (Hc x Hx). by apply negb_true_iff, bool_decide_eq_false in Hc.
Qed.

Lemma UrlEncode_no_eq s :
  Forall (fun c => c <> z2b 61) s -> Forall (fun c => c <> z2b 61) (Ext.UrlEncode s true).
Proof.
  intros Hs. rewrite Ext.UrlEncode_eq. apply Forall_concat, Forall_map. eapply Forall_impl; [exact Hs|]. intros c Hne.
  assert (forallb (fun c => bool_decide (c = z2b 61) ||
    forallb (fun x => negb (bool_decide (x = z2b 61))) (Ext.enc1 true c)) all_bytes = true) as H by (vm_compute; reflexivity).
  pose proof (byte_forall _ H c) as Hc. simpl in Hc. rewrite bool_decide_false in Hc by done. simpl in Hc.
  rewrite forallb_forall in Hc. apply List.Forall_forall.
  intros x Hx. specialize (Hc x Hx). by apply negb_true_iff, bool_decide_eq_false in Hc.
Qed.

Lemma url_decode_encode s : Ext.UrlDecode (Ext.UrlEncode s true) true = s.
Proof.
  rewrite Ext.UrlDecode_eq, Ext.UrlEncode_eq. induction s as [|c s IH]; [done|].
  cbn [map concat]. rewrite Ext.url_decode_enc1 by done. by rewrite IH.
Qed.

Lemma parse_render ps fuel pre m :
  ps <> [] -> (length ps <= fuel)%nat -> Forall (fun p => Forall (fun c => c <> z2b 61) (fst p)) ps ->
  parse_param_loop fuel (pre ++ render ps) m (z2b 38) id (zlen pre) = Ret (insert_all m ps) tt.
Proof.
  revert fuel pre m. induction ps as [|[k v] ps IH]; intros fuel pre m Hne Hf Hps; [done|].
  apply Forall_cons in Hps as [Hk Hps]. simpl in Hk. destruct fuel as [|fuel]; [simpl in Hf; lia|].
  set (ek := Ext.UrlEncode k true). set (ev := Ext.UrlEncode v true).
  assert (exists tl, render ((k, v) :: ps) = ek ++ z2b 61 :: ev ++ tl
    /\ tl = match ps with [] => [] | _ => z2b 38 :: render ps end) as (tl & -> & Htl).
  { eexists. split; [|reflexivity]. unfold ek, ev. destruct ps; simpl; unfold render_pair; simpl;
      [by rewrite app_nil_r|by rewrite <- app_assoc]. }
  pose proof (UrlEncode_no_eq k Hk) as Hek. fold ek in Hek. pose proof (UrlEncode_no_amp v) as Hev. fold ev in Hev.
  pose proof (zlen_nonneg pre). pose proof (zlen_nonneg ek). pose proof (zlen_nonneg ev).
  cbn [parse_param_loop]. rewrite find_app by done.
  assert (substr (pre ++ ek ++ z2b 61 :: ev ++ tl) (zlen pre) (zlen pre + zlen ek - zlen pre) = ek) as ->.
  { unfold substr. rewrite zsub_app_r by lia. rewrite Z.sub_diag, zsub_app_l by lia. apply zsub_all. lia. }
  change (id ek) with ek. rewrite (url_decode_encode k : Ext.UrlDecode ek true = k).
  set (pre' := pre ++ ek). replace (pre ++ ek ++ z2b 61 :: ev ++ tl) with (pre' ++ (z2b 61 :: ev) ++ tl)
    by (unfold pre'; by rewrite <- !app_assoc).
  replace (zlen pre + zlen ek) with (zlen pre') by (unfold pre'; by rewrite zlen_app).
  assert (Forall (fun c => c <> z2b 38) (z2b 61 :: ev)) as Hev' by by constructor.
  destruct ps as [|p ps].
  - subst tl. rewrite app_nil_r. rewrite find_app_none by done.
    assert (substr_to_end (pre' ++ z2b 61 :: ev) (zlen pre' + 1) = ev) as ->.
    { unfold substr_to_end. rewrite zdrop_app_ge by lia. by replace (zlen pre' + 1 - zlen pre') with 1 by lia. }
    by rewrite (url_decode_encode v : Ext.UrlDecode ev true = v).
  - subst tl. rewrite find_app by done. rewrite zlen_cons.
    assert (substr (pre' ++ (z2b 61 :: ev) ++ z2b 38 :: render (p :: ps)) (zlen pre' + 1)
      (zlen pre' + (1 + zlen ev) - zlen pre' - 1) = ev) as ->.
    { unfold substr. rewrite zsub_app_r by lia. replace (zlen pre' + 1 - zlen pre') with 1 by lia.
      rewrite zsub_app_l by (rewrite ?zlen_cons; lia). unfold zsub. apply ztake_all. unfold zdrop, zlen. simpl. lia. }
    rewrite (url_decode_encode v : Ext.UrlDecode ev true = v).
    replace (pre' ++ (z2b 61 :: ev) ++ z2b 38 :: render (p :: ps))
      with ((pre' ++ (z2b 61 :: ev) ++ [z2b 38]) ++ render (p :: ps)) by by rewrite <- !app_assoc.
    replace (zlen pre' + (1 + zlen ev) + 1) with (zlen (pre' ++ (z2b 61 :: ev) ++ [z2b 38]))
      by (rewrite !zlen_app, zlen_cons; change (zlen [z2b 38]) with 1; lia).
    rewrite IH; [done|done|simpl in *; lia|done].
Qed.

(** ** Framing *)

Definition clean (s : str) : Prop := Forall (fun c => c <> z2b 13 /\ c <> z2b 10) s.
Definition good_line (s : str) : Prop := clean s /\ s <> [].
Definition lines (ls : list str) : str := concat (map (fun l => l ++ CRLF) ls).

Lemma clean_no_cr s : clean s -> Forall (fun c => c <> z2b 13) s.
Proof. intros H. eapply Forall_impl; [exact H|]. by intros c []. Qed.

(** The first empty line is the one behind the header lines. *)
Lemma find_blank_line ls body :
  ls <> [] -> Forall good_line ls ->
  find_str (CRLF ++ CRLF) (lines ls ++ CRLF ++ body) = Some (zlen (lines ls) - 2).
Proof.
  intros Hne Hg. induction Hg as [|l ls [Hc Hl] Hg IH]; [done|]. unfold lines. cbn [map concat]. fold (lines ls).
  rewrite <- !app_assoc. change (CRLF ++ CRLF) with (z2b 13 :: [z2b 10; z2b 13; z2b 10]).
  rewrite find_str_skip by by apply clean_no_cr. rewrite !zlen_app. change (zlen CRLF) with 2.
  destruct ls as [|l2 ls].
  - change (find_str [z2b 13; z2b 10; z2b 13; z2b 10] (CRLF ++ lines [] ++ CRLF ++ body)) with (Some 0).
    change (zlen (lines [])) with 0. cbn. f_equal. lia.
  - specialize (IH ltac:(done)). apply Forall_cons in Hg as [[Hc2 Hl2] _]. destruct l2 as [|c l2]; [done|].
    apply Forall_cons in Hc2 as [[Hcr _] _].
    assert (exists s, lines ((c :: l2) :: ls) ++ CRLF ++ body = c :: s) as [s Es]
      by (eexists; unfold lines; simpl; reflexivity).
    rewrite Es in IH |- *. change (CRLF ++ c :: s) with (z2b 13 :: z2b 10 :: c :: s).
    cbn [find_str]. assert (starts_with [z2b 13; z2b 10; z2b 13; z2b 10] (z2b 13 :: z2b 10 :: c :: s) = false) as ->.
    { simpl. rewrite (bool_decide_false (z2b 13 = c)) by congruence. done. }
    change (starts_with [z2b 13; z2b 10; z2b 13; z2b 10] (z2b 10 :: c :: s)) with false. cbv iota.
    change (if starts_with [z2b 13; z2b 10; z2b 13; z2b 10] (c :: s) then Some 0
      else Z.succ <$> find_str [z2b 13; z2b 10; z2b 13; z2b 10] s)
      with (find_str (CRLF ++ CRLF) (c :: s)). rewrite IH. simpl. f_equal. lia.
Qed.

(** The header lines of the two messages, without their line ends. *)
Definition header_text (h : str * str) : str := fst h ++ bs ": " ++ snd h.
Definition length_line (body : str) : list str :=
  if bool_decide (body = []) then [] else [bs "content-length: " ++ dec (zlen body)].
Definition q_lines (r : HttpRequest) : list str :=
  [HttpMethodToString (q_method r) ++ bs " " ++ q_path r
   ++ (if bool_decide (q_query r = []) then [] else bs "?") ++ q_query r
   ++ (if bool_decide (q_fragment r = []) then [] else bs "#") ++ q_fragment r
   ++ bs " HTTP/" ++ version_string (q_version r)]
  ++ (if q_webSocket r then [] else [bs "Connection: " ++ (if q_close r then bs "close" else bs "keep-alive")])
  ++ map header_text (List.filter (fun h =>
       negb (negb (q_webSocket r) && is_header (bs "Connection") (fst h))
       && negb (negb (bool_decide (q_body r = [])) && is_header (bs "content-length") (fst h))) (q_headers r))
  ++ length_line (q_body r).
Definition p_lines (r : HttpResponse) : list str :=
  [bs "HTTP/" ++ version_string (p_version r) ++ bs " " ++ dec (u32 (p_status r)) ++ bs " "
   ++ (if bool_decide (p_reason r = []) then HttpStatusToString (p_status r) else p_reason r)]
  ++ (if p_webSocket r then [] else [bs "connection: " ++ (if p_close r then bs "close" else bs "keep-alive")])
  ++ map header_text (List.filter (fun h =>
       negb (negb (p_webSocket r) && is_header (bs "connection") (fst h))) (p_headers r))
  ++ length_line (p_body r).

Lemma lines_app a b : lines (a ++ b) = lines a ++ lines b.
Proof. unfold lines. by rewrite map_app, concat_app. Qed.
Lemma lines_cons l ls : lines (l :: ls) = l ++ CRLF ++ lines ls.
Proof. unfold lines. simpl. by rewrite <- app_assoc. Qed.
Lemma lines_headers hs : lines (map header_text hs) = concat (map header_line hs).
Proof.
  unfold lines. rewrite map_map. f_equal. apply map_ext. intros [k v]. unfold header_text, header_line.
  by rewrite <- !app_assoc.
Qed.

(** The end shared by the two serialisations. *)
Lemma lines_length body :
  lines (length_line body) ++ CRLF ++ body
  = if bool_decide (body = []) then CRLF else bs "content-length: " ++ dec (zlen body) ++ CRLF ++ CRLF ++ body.
Proof.
  unfold length_line. case_bool_decide as E; [by subst|]. rewrite lines_cons. unfold lines. simpl concat.
  by rewrite <- !app_assoc.
Qed.

Lemma dump_lines r : dump r = lines (q_lines r) ++ CRLF ++ q_body r.
Proof.
  unfold dump, q_lines. rewrite !lines_app, <- !app_assoc, lines_length, lines_headers, lines_cons.
  rewrite <- !app_assoc. do 10 f_equal. destruct (q_webSocket r); [done|].
  rewrite lines_cons. unfold lines at 1. simpl concat. by rewrite <- !app_assoc.
Qed.
Lemma p_dump_lines r : p_dump r = lines (p_lines r) ++ CRLF ++ p_body r.
Proof.
  unfold p_dump, p_lines. rewrite !lines_app, <- !app_assoc, lines_length, lines_headers, lines_cons.
  rewrite <- !app_assoc. do 7 f_equal. destruct (p_webSocket r); [done|].
  rewrite lines_cons. unfold lines at 1. simpl concat. by rewrite <- !app_assoc.
Qed.

(** *** All lines are clean *)
Definition cleanb (s : str) : bool := forallb (fun c => negb (bool_decide (c = z2b 13)) && negb (bool_decide (c = z2b 10))) s.
Lemma cleanb_spec s : cleanb s = true -> clean s.
Proof.
  unfold cleanb. rewrite forallb_forall. intros H. apply List.Forall_forall. intros c Hc.
  specialize (H c Hc). apply andb_true_iff in H as [H1 H2].
  by apply negb_true_iff, bool_decide_eq_false in H1, H2.
Qed.
Lemma clean_app a b : clean (a ++ b) <-> clean a /\ clean b.
Proof. apply Forall_app. Qed.
Lemma clean_dec n : 0 <= n -> clean (dec n).
Proof.
  intros Hn. eapply Forall_impl; [by apply dec_digits|]. intros c Hc.
  split; intros ->; vm_compute in Hc; discriminate.
Qed.
Lemma clean_version v : 0 <= v -> clean (version_string v).
Proof.
  intros. unfold version_string. rewrite !clean_app. split_and!;
    [apply clean_dec, Z.shiftr_nonneg; lia|by apply cleanb_spec|apply clean_dec, Z.land_nonneg; lia].
Qed.
Lemma clean_method m : clean (HttpMethodToString m).
Proof.
  unfold HttpMethodToString. destruct (_ <=? _); [by apply cleanb_spec|].
  assert (Forall clean s_method) as H by (repeat constructor; try done; by vm_compute).
  destruct (s_method !! _) eqn:E; [|constructor]. eapply Forall_lookup_1 in H; [|exact E]. done.
Qed.
Lemma clean_status s : clean (HttpStatusToString s).
Proof.
  unfold HttpStatusToString. destruct (List.find _ status_map) as [[c d]|] eqn:E; [|by apply cleanb_spec].
  apply find_some in E as [Hin _].
  assert (forallb (fun p => cleanb (snd p)) status_map = true) as H by (vm_compute; reflexivity).
  rewrite forallb_forall in H. apply cleanb_spec, (H _ Hin).
Qed.
Lemma good_headers P hs :
  Forall (fun h => clean (fst h) /\ clean (snd h)) hs -> Forall good_line (map header_text (List.filter P hs)).
Proof.
  intros H. apply Forall_map. rewrite Forall_forall in *. intros h Hh.
  apply list_elem_of_In, filter_In in Hh as [Hh%list_elem_of_In _]. destruct (H h Hh).
  unfold header_text. split; [|by destruct (fst h)]. rewrite !clean_app. split_and!; [done|by apply cleanb_spec|done].
Qed.
Lemma length_line_some body : body <> [] -> length_line body = [bs "content-length: " ++ dec (zlen body)].
Proof. intros. unfold length_line. by rewrite bool_decide_false. Qed.
Lemma good_length body : Forall good_line (length_line body).
Proof.
  unfold length_line. case_bool_decide; [constructor|]. constructor; [|constructor]. split; [|done].
  rewrite clean_app. split; [by apply cleanb_spec|apply clean_dec, zlen_nonneg].
Qed.

(** ** Properties *)

(** Headers are a map keyed by case-insensitive names: after setting or
    deleting a header, every name equal to it up to case sees the change and
    every other name keeps its value; the ordered representation stays
    sorted, so this holds along any sequence of updates. *)
Theorem headers_case_insensitive (r : HttpRequest) (k k' v d : str) :
  msorted (q_headers r) ->
  getHeader (setHeader k v r) k' d = (if decide (lower k = lower k') then v else getHeader r k' d)
  /\ getHeader (delHeader k r) k' d = (if decide (lower k = lower k') then d else getHeader r k' d)
  /\ msorted (q_headers (setHeader k v r)) /\ msorted (q_headers (delHeader k r)).
Proof.
  intros Hs. unfold getHeader, setHeader, delHeader, massign, merase, mfind. simpl.
  rewrite (StdMap.lookup_assign CaseInsensitiveLess), (StdMap.lookup_erase CaseInsensitiveLess), equiv_lower by done.
  split_and!.
  - case_bool_decide; case_decide; done.
  - case_bool_decide; case_decide; done.
  - by apply (StdMap.assign_sorted CaseInsensitiveLess).
  - by apply (StdMap.erase_sorted CaseInsensitiveLess fst).
Qed.

Lemma headers_case_insensitive_witness :
  getHeader (setHeader (bs "Content-Type") (bs "text/html") (new_request 0x11 true)) (bs "content-type") [] = bs "text/html"
  /\ msorted (q_headers (setHeader (bs "Content-Type") (bs "text/html") (new_request 0x11 true))).
Proof.
  destruct (headers_case_insensitive (new_request 0x11 true) (bs "Content-Type") (bs "content-type") (bs "text/html") [])
    as (H1 & _ & H3 & _); [constructor|]. split; [exact H1|exact H3].
Defined.

(** C36. Query parameters round trip: for any list of key/value byte strings
    whose keys have no [=], [getParam] on a request with the query
    [k1=v1&k2=v2...], each part URL encoded, terminates and returns for a key
    the value of the first pair with that key up to case, and the default
    when there is none. *)
Theorem query_params_roundtrip (ps : list (str * str)) (key def : str) :
  Forall (fun p => Forall (fun c => c <> z2b 61) (fst p)) ps ->
  exists r, getParam key def (setQuery (render ps) (new_request 0x11 true))
  = Ret (default def (snd <$> List.find (fun p => bool_decide (lower (fst p) = lower key)) ps), r) tt.
Proof.
  intros Hps.
  assert (PARSE_PARAM (render ps) [] (z2b 38) id = Ret (insert_all [] ps) tt) as E.
  { destruct ps as [|p ps]; [done|]. apply (parse_render (p :: ps) _ [] []); [done| |done].
    assert (forall l, (length l <= S (length (render l)))%nat) as Hl; [|apply Hl].
    intros l. induction l as [|q l IH]; simpl; [lia|]. destruct l as [|q' l]; [simpl; lia|].
    rewrite length_app. simpl in *. lia. }
  set (r0 := setQuery (render ps) (new_request 17 true)).
  assert (initQueryParam r0 = Ret (q_with_params (insert_all [] ps) 1 r0) tt) as E1.
  { unfold initQueryParam. change (PARSE_PARAM (q_query r0) (q_params r0)) with (PARSE_PARAM (render ps) []). by rewrite E. }
  assert (initBodyParam (q_with_params (insert_all [] ps) 1 r0) = Ret (q_with_params (insert_all [] ps) 3 r0) tt)
    as E2 by reflexivity.
  eexists. unfold getParam. rewrite E1. cbn [obind]. rewrite E2. cbn [obind q_params q_with_params].
  rewrite mfind_insert_all by constructor. reflexivity.
Qed.

Lemma query_params_roundtrip_witness :
  exists r, getParam (bs "NAME") [] (setQuery (render [(bs "id", bs "a&b=c"); (bs "name", bs "x y")]) (new_request 0x11 true))
  = Ret (bs "x y", r) tt.
Proof.
  apply (query_params_roundtrip [(bs "id", bs "a&b=c"); (bs "name", bs "x y")] (bs "NAME") []).
  repeat constructor; vm_compute; discriminate.
Defined.

(** Framing: when the parts of a message contain no line breaks, the
    first empty line of what [dump] writes is the end of the headers and
    exactly the body follows it; a non-empty body is announced by a final
    [content-length] line with its size.  A receiver that reads up to the
    empty line and then that many bytes gets the body, for requests and
    responses. *)
Theorem dump_framing (q : HttpRequest) (p : HttpResponse) :
  0 <= q_version q -> 0 <= p_version p -> clean (q_path q ++ q_query q ++ q_fragment q) -> clean (p_reason p) ->
  Forall (fun h => clean (fst h) /\ clean (snd h)) (q_headers q ++ p_headers p) ->
  (exists n, find_str (CRLF ++ CRLF) (dump q) = Some n /\ ztake (n + 2) (dump q) = lines (q_lines q)
     /\ zdrop (n + 4) (dump q) = q_body q)
  /\ (exists n, find_str (CRLF ++ CRLF) (p_dump p) = Some n /\ ztake (n + 2) (p_dump p) = lines (p_lines p)
     /\ zdrop (n + 4) (p_dump p) = p_body p)
  /\ (q_body q <> [] -> last (q_lines q) = Some (bs "content-length: " ++ dec (zlen (q_body q))))
  /\ (p_body p <> [] -> last (p_lines p) = Some (bs "content-length: " ++ dec (zlen (p_body p)))).
Proof.
  intros Hvq Hvp Hc Hr Hh. rewrite !clean_app in Hc. destruct Hc as (Hc1 & Hc2 & Hc3). apply Forall_app in Hh as [Hq Hp].
  assert (Forall good_line (q_lines q)) as Gq.
  { unfold q_lines. rewrite !Forall_app. split_and!; [|destruct (q_webSocket q); [constructor|]|by apply good_headers|apply good_length].
    - constructor; [|constructor]. split; [|intros E; apply app_eq_nil in E as [_ E]; done].
      rewrite !clean_app. split_and!; try done; try (by apply cleanb_spec); [apply clean_method|..|by apply clean_version];
        case_bool_decide; by apply cleanb_spec.
    - constructor; [|constructor]. split; [|done]. destruct (q_close q); by apply cleanb_spec. }
  assert (Forall good_line (p_lines p)) as Gp.
  { unfold p_lines. rewrite !Forall_app. split_and!; [|destruct (p_webSocket p); [constructor|]|by apply good_headers|apply good_length].
    - constructor; [|constructor]. split; [|done]. rewrite !clean_app. split_and!; try (by apply cleanb_spec);
        [by apply clean_version|apply clean_dec, uw_range; lia|]. case_bool_decide; [apply clean_status|done].
    - constructor; [|constructor]. split; [|done]. destruct (p_close p); by apply cleanb_spec. }
  assert (forall ls body, ls <> [] -> Forall good_line ls -> let s := lines ls ++ CRLF ++ body in
    exists n, find_str (CRLF ++ CRLF) s = Some n /\ ztake (n + 2) s = lines ls /\ zdrop (n + 4) s = body) as Hs.
  { intros ls body Hne Hg s. exists (zlen (lines ls) - 2). split; [by apply find_blank_line|]. unfold s. split.
    - rewrite ztake_app_le by lia. apply ztake_all. lia.
    - rewrite zdrop_app_ge by lia. by replace (zlen (lines ls) - 2 + 4 - zlen (lines ls)) with 2 by lia. }
  rewrite dump_lines, p_dump_lines. split_and!; [by apply Hs|by apply Hs|..]; intros Hb; unfold q_lines, p_lines;
    rewrite length_line_some by done; by rewrite !app_assoc, last_snoc.
Qed.

Lemma dump_framing_witness :
  (exists n, find_str (CRLF ++ CRLF) (dump (setBody (bs "a") (new_request 0x11 true))) = Some n
     /\ ztake (n + 2) (dump (setBody (bs "a") (new_request 0x11 true))) = lines (q_lines (setBody (bs "a") (new_request 0x11 true)))
     /\ zdrop (n + 4) (dump (setBody (bs "a") (new_request 0x11 true))) = bs "a").
Proof.
  destruct (dump_framing (setBody (bs "a") (new_request 0x11 true)) (new_response 0x11 true)) as [H _];
    try (vm_compute; congruence); try constructor; try apply H.
  - split; vm_compute; discriminate.
  - constructor.
Defined.

(** The two forms of a typed getter agree, and refine the getter of strings: a
    value that converts is the converted string, any other is the default. *)
Lemma checkGetAs_getAs {T} (cast : str -> option T) m key def :
  checkGetAs cast m key def
  = (bool_decide (is_Some (mfind key m ≫= cast)), getAs cast m key def)
  /\ getAs cast m key def = default def (mfind key m ≫= cast).
Proof. unfold checkGetAs, getAs. destruct (mfind key m) as [s|]; cbn; [|done]. by destruct (cast s). Qed.

Theorem typed_params_refine {T} (cast : str -> option T) (key s d : str) (def : T) (r r' : HttpRequest) :
  getParam key d r = Ret (s, r') tt -> is_Some (mfind key (q_params r')) ->
  getParamAs cast key def r = Ret (default def (cast s), r') tt
  /\ checkGetParamAs cast key def r = Ret ((bool_decide (is_Some (cast s)), default def (cast s)), r') tt.
Proof.
  unfold getParam, getParamAs, checkGetParamAs. destruct (initQueryParam r) as [q []| | |]; cbn; try done.
  destruct (initBodyParam q) as [b []| | |]; cbn; try done. intros [= <- <-] [x Hx].
  pose proof (checkGetAs_getAs cast (q_params b) key def) as [-> ->]. by rewrite Hx.
Qed.

(** *** Behaviour outside those conditions *)

(** [getCookieAs] does not look at the cookie header: it answers the default
    for a cookie that [checkGetCookieAs] and [getCookie] find. *)
Theorem getCookieAs_misses_the_header :
  let r := setHeader (bs "Cookie") (bs "id=7") (new_request 0x11 true) in
  getCookieAs Some r (bs "id") [] = []
  /\ (exists r', checkGetCookieAs Some (bs "id") [] r = Ret ((true, bs "7"), r') tt /\ getCookieAs Some r' (bs "id") [] = bs "7")
  /\ (exists r', getCookie (bs "id") [] r = Ret (bs "7", r') tt).
Proof. split; [vm_compute; reflexivity|]. split; eexists; [split|]; vm_compute; reflexivity. Qed.

(** [HttpMethodToString] compares with the length of the first method name:
    it knows the first six methods only. *)
Theorem HttpMethodToString_unknown_from_six (m : Z) :
  0 <= m < 34 -> HttpMethodToString m = if m <? 6 then default [] (s_method !! Z.to_nat m) else bs "<unknown>".
Proof.
  intros Hm. unfold HttpMethodToString. rewrite uw_small by fits.
  change (zlen (default [] (s_method !! 0%nat))) with 6.
  destruct (Z.leb_spec 6 m), (Z.ltb_spec m 6); (done || lia).
Qed.

(** The cookies of a response are never written. *)
Theorem response_cookies_not_dumped (time2str : Z -> str) (k v path domain : str) (e : Z) (secure : bool) (r : HttpResponse) :
  p_dump (p_setCookie time2str k v e path domain secure r) = p_dump r.
Proof. done. Qed.

End Http.
