(* ===== verification/Stream.v ===== *)
(** * Byte streams: [luwu/luwu/streams/stream.cpp] and [socket_stream.cpp]

    The peer and the kernel are a script of what each [recv] and [send]
    returns: some bytes, the end of the stream, or an error.  [size_t] results
    are kept at their width, so the error value [-1] is [2^64 - 1]. *)
From S2P Require Import Prelude.
Local Open Scope Z_scope.

Module Stream.

(** What a [recv] finds, and how much a [send] takes. *)
Inductive chunk := Data (d : str) | Eof | Err.
Inductive accept := Accept (n : Z) | Full | SendErr.

Record stream := MkStream {
  s_in : list chunk;
  s_wr : list accept;  (* empty: every further [send] takes everything *)
  s_out : str;
  s_connected : bool;
}.

Definition minus_one : Z := 2 ^ 64 - 1.

(** [SocketStream::read(buffer, length)]: the result and the bytes. *)
Definition read (len : Z) : M stream (Z * str) := fun s =>
  if negb (s_connected s) then Ret (minus_one, []) s else
  match s_in s with
  | [] => Ret (0, []) s
  | Eof :: r => Ret (0, []) (MkStream r (s_wr s) (s_out s) true)
  | Err :: r => Ret (minus_one, []) (MkStream r (s_wr s) (s_out s) true)
  | Data d :: r =>
      if zlen d <=? len then Ret (zlen d, d) (MkStream r (s_wr s) (s_out s) true)
      else Ret (len, ztake len d) (MkStream (Data (zdrop len d) :: r) (s_wr s) (s_out s) true)
  end.

(** [SocketStream::write(buffer, length)] of the bytes [d]. *)
Definition write (d : str) : M stream Z := fun s =>
  if negb (s_connected s) then Ret minus_one s else
  match s_wr s with
  | [] => Ret (zlen d) (MkStream (s_in s) [] (s_out s ++ d) true)
  | Full :: r => Ret 0 (MkStream (s_in s) r (s_out s) true)
  | SendErr :: r => Ret minus_one (MkStream (s_in s) r (s_out s) true)
  | Accept n :: r =>
      let n := n `min` zlen d in
      Ret n (MkStream (s_in s) r (s_out s ++ ztake n d) true)
  end.

Definition close (s : stream) : stream := MkStream (s_in s) (s_wr s) (s_out s) false.

(** The loop of [readFixSize(buffer, length)].  [mem] is the memory that the
    buffer lies in, [base] where it starts; a store outside is undefined.  On a
    stream that is not connected each round takes -1 for a length, so that the
    C++ goes round until [left] has come back to 0 through [2^64] values; this is
    [NoFuel] here. *)
Fixpoint readFix_loop (fuel : nat) (length : Z) (mem : str) (base offset left_ : Z) : M stream (Z * str) := fun s =>
  if left_ =? 0 then Ret (length, mem) s else
  match fuel with
  | O => NoFuel
  | S fuel =>
      let* r, s := read left_ s in
      let '(len, d) := r in
      if len =? 0 then Ret (0, mem) s
      else if negb (bool_decide (d = [])) && (zlen mem <? base + offset + zlen d) then UB
      else readFix_loop fuel length (if bool_decide (d = []) then mem else splice (base + offset) d mem)
             base (u64 (offset + len)) (u64 (left_ - len)) s
  end.
(** Every round takes a chunk of the script or is the last but one. *)
Definition readFixSize (length : Z) (mem : str) (base : Z) : M stream (Z * str) := fun s =>
  readFix_loop (2 + List.length (s_in s)) length mem base 0 length s.

(** The loop of [writeFixSize(buffer, length)]. *)
Fixpoint writeFix_loop (fuel : nat) (length : Z) (buf : str) (offset left_ : Z) : M stream Z := fun s =>
  if left_ =? 0 then Ret length s else
  match fuel with
  | O => NoFuel
  | S fuel =>
      if zlen buf <? offset + left_ then UB
      else let* len, s := write (zsub offset left_ buf) s in
      if len =? 0 then Ret 0 s
      else writeFix_loop fuel length buf (u64 (offset + len)) (u64 (left_ - len)) s
  end.
Definition writeFixSize (buf : str) : M stream Z := fun s =>
  writeFix_loop (2 + List.length (s_wr s)) (zlen buf) buf 0 (zlen buf) s.

(** ** A healthy stream: only data, in chunks of any size *)
Definition is_data (c : chunk) : Prop := match c with Data d => d <> [] | _ => False end.
Definition chunk_bytes (c : chunk) : str := match c with Data d => d | _ => [] end.
Definition incoming (s : stream) : str := concat (map chunk_bytes (s_in s)).
Definition is_accept (a : accept) : Prop := match a with Accept n => 0 < n | _ => False end.

Record healthy (s : stream) : Prop := {
  h_in : Forall is_data (s_in s);
  h_wr : Forall is_accept (s_wr s);
  h_conn : s_connected s = true;
}.

(** The stream after [n] bytes were taken from it. *)
Record took (n : Z) (s s' : stream) : Prop := {
  tk_healthy : healthy s';
  tk_in : incoming s' = zdrop n (incoming s);
  tk_out : s_out s' = s_out s;
  tk_wr : s_wr s' = s_wr s;
}.

Lemma took_0 s : healthy s -> took 0 s s.
Proof. by split. Qed.

Lemma took_trans a b s s1 s2 : 0 <= a -> 0 <= b -> took a s s1 -> took b s1 s2 -> took (a + b) s s2.
Proof. intros Ha Hb [] []. split; try done; try congruence. rewrite tk_in1, tk_in0, zdrop_zdrop by lia. done. Qed.

Lemma read_some len s :
  healthy s -> 0 < len -> 0 < zlen (incoming s) ->
  exists n d s', read len s = Ret (n, d) s' /\ 0 < n <= len /\ n <= zlen (incoming s)
    /\ d = ztake n (incoming s) /\ took n s s'
    /\ (n = len \/ (List.length (s_in s') < List.length (s_in s))%nat).
Proof.
  intros [Hin Hwr Hc] Hlen Hne. unfold read. rewrite Hc. simpl negb. cbv iota. unfold incoming in *.
  destruct (s_in s) as [|[d| |] r] eqn:E; [by vm_compute in Hne| |by inversion Hin..].
  apply Forall_cons in Hin as [Hd Hr]. simpl in Hd. simpl map. simpl concat. rewrite zlen_app.
  pose proof (zlen_nonneg (concat (map chunk_bytes r))).
  assert (0 < zlen d) by (destruct d; [done|zlen_lia]).
  destruct (Z.leb_spec (zlen d) len).
  - exists (zlen d), d, (MkStream r (s_wr s) (s_out s) true). split_and!; try done; try lia.
    + rewrite ztake_app_le, ztake_all by lia. done.
    + split; simpl; try done. unfold incoming. rewrite E. simpl. by rewrite zdrop_app_ge, Z.sub_diag by lia.
    + right. simpl. lia.
  - exists len, (ztake len d), (MkStream (Data (zdrop len d) :: r) (s_wr s) (s_out s) true). split_and!; try done; try lia.
    + by rewrite ztake_app_le by lia.
    + split; simpl; try done.
      * split; simpl; try done. constructor; [|done]. simpl. intros Hz. apply (f_equal zlen) in Hz.
        rewrite zlen_zdrop, zlen_nil in Hz by lia. lia.
      * unfold incoming. rewrite E. simpl. by rewrite zdrop_app_le by lia.
Qed.

Lemma readFix_loop_ok fuel length mem base offset left_ s :
  healthy s -> 0 <= base -> 0 <= offset -> 0 <= left_ -> offset + left_ < 2 ^ 64 ->
  base + offset + left_ <= zlen mem -> left_ <= zlen (incoming s) ->
  (left_ = 0 \/ (1 + List.length (s_in s) <= fuel)%nat) ->
  exists s', readFix_loop fuel length mem base offset left_ s
    = Ret (length, splice (base + offset) (ztake left_ (incoming s)) mem) s' /\ took left_ s s'.
Proof.
  revert mem offset left_ s. induction fuel as [|fuel IH]; intros mem offset left_ s Hh Hb Ho Hl H64 Hm Hin Hf; cbn [readFix_loop];
    destruct (Z.eqb_spec left_ 0) as [->|Hne].
  1, 3: exists s; split; [by rewrite ztake_0, splice_nil by lia|by apply took_0].
  { lia. }
  destruct (read_some left_ s Hh ltac:(lia) ltac:(lia)) as (n & d & s1 & -> & Hn & Hni & Hd & Ht & Hprog). cbn [obind].
  destruct (Z.eqb_spec n 0); [lia|]. assert (zlen d = n) as Hzd by (rewrite Hd, zlen_ztake; lia).
  assert (d <> []) as Hdne by (intros ->; rewrite zlen_nil in Hzd; lia). rewrite bool_decide_false by done. cbn [negb andb].
  destruct (Z.ltb_spec (zlen mem) (base + offset + zlen d)); [lia|].
  rewrite !uw_small by fits.
  assert (zlen (incoming s1) = zlen (incoming s) - n) as Hi1.
  { rewrite (tk_in _ _ _ Ht), zlen_zdrop; lia. }
  destruct (IH (splice (base + offset) d mem) (offset + n) (left_ - n) s1) as (s2 & -> & Ht2); try lia.
  - apply Ht.
  - rewrite zlen_splice by lia. lia.
  - pose proof (took_trans n (left_ - n) s s1 s2 ltac:(lia) ltac:(lia) Ht Ht2) as Ht3.
    replace (n + (left_ - n)) with left_ in Ht3 by lia. exists s2. split; [|done].
    do 2 f_equal. rewrite <- Hzd at 1. rewrite Z.add_assoc.
    replace (ztake left_ (incoming s)) with (d ++ ztake (left_ - n) (incoming s1)).
    + rewrite splice_splice; [done|lia|]. rewrite zlen_ztake by lia. lia.
    + rewrite Hd, (tk_in _ _ _ Ht). rewrite <- (ztake_zdrop n (ztake left_ (incoming s))).
      rewrite ztake_ztake, ztake_zdrop_comm by lia. f_equal; f_equal; [lia|f_equal; lia].
Qed.

Lemma readFixSize_ok length mem base s :
  healthy s -> 0 <= base -> 0 <= length < 2 ^ 64 -> base + length <= zlen mem -> length <= zlen (incoming s) ->
  exists s', readFixSize length mem base s = Ret (length, splice base (ztake length (incoming s)) mem) s' /\ took length s s'.
Proof.
  intros Hh Hb Hl Hm Hin. destruct (readFix_loop_ok (2 + List.length (s_in s)) length mem base 0 length s) as (s' & H1 & H2);
    try done; try lia. exists s'. split; [|done]. unfold readFixSize. rewrite H1. by rewrite Z.add_0_r.
Qed.

(** Reading into a fresh object of [n] bytes. *)
Lemma readFixSize_fresh n mem s :
  healthy s -> zlen mem = n -> 0 <= n < 2 ^ 64 -> n <= zlen (incoming s) ->
  exists s', readFixSize n mem 0 s = Ret (n, ztake n (incoming s)) s' /\ took n s s'.
Proof.
  intros Hh Hm Hn Hin. destruct (readFixSize_ok n mem 0 s) as (s' & H1 & H2); try done; try lia.
  exists s'. split; [|done]. rewrite H1. do 2 f_equal. unfold splice. rewrite ztake_0, zlen_ztake by lia. simpl.
  rewrite Z.add_0_l. unfold zdrop. rewrite drop_ge by (unfold zlen in *; lia). apply app_nil_r.
Qed.

(** The same, when the bytes in front are known. *)
Lemma read_prefix a rest mem s :
  healthy s -> incoming s = a ++ rest -> zlen mem = zlen a -> zlen a < 2 ^ 64 ->
  exists s', readFixSize (zlen a) mem 0 s = Ret (zlen a, a) s' /\ healthy s' /\ incoming s' = rest
    /\ s_out s' = s_out s /\ s_wr s' = s_wr s.
Proof.
  intros Hh Hi Hm H64. pose proof (zlen_nonneg a). pose proof (zlen_nonneg rest).
  destruct (readFixSize_fresh (zlen a) mem s) as (s' & H1 & [Ht1 Ht2 Ht3 Ht4]); try done; try lia.
  { rewrite Hi, zlen_app. lia. }
  exists s'. rewrite H1, Hi. rewrite Hi in Ht2. split_and!; try done.
  - do 2 f_equal. rewrite ztake_app_le, ztake_all by lia. done.
  - by rewrite Ht2, zdrop_app_ge, Z.sub_diag by lia.
Qed.

(** The stream after [d] was sent. *)
Record sent (d : str) (s s' : stream) : Prop := {
  sn_healthy : healthy s';
  sn_in : s_in s' = s_in s;
  sn_out : s_out s' = s_out s ++ d;
}.

Lemma sent_trans a b s s1 s2 : sent a s s1 -> sent b s1 s2 -> sent (a ++ b) s s2.
Proof. intros [] []. split; [done|congruence|]. by rewrite sn_out1, sn_out0, app_assoc. Qed.

Lemma writeFix_loop_ok fuel length buf offset left_ s :
  healthy s -> 0 <= offset -> 0 <= left_ -> offset + left_ = zlen buf -> zlen buf < 2 ^ 64 ->
  (left_ = 0 \/ (1 + List.length (s_wr s) <= fuel)%nat) ->
  exists s', writeFix_loop fuel length buf offset left_ s = Ret length s' /\ sent (zdrop offset buf) s s'.
Proof.
  revert offset left_ s. induction fuel as [|fuel IH]; intros offset left_ s Hh Ho Hl Hb H64 Hf; cbn [writeFix_loop];
    destruct (Z.eqb_spec left_ 0) as [->|Hne].
  1, 3: exists s; split; [done|]; split; [done|done|];
    unfold zdrop; rewrite drop_ge by (unfold zlen in *; lia); by rewrite app_nil_r.
  { lia. }
  destruct (Z.ltb_spec (zlen buf) (offset + left_)); [lia|]. pose proof Hh as [Hin Hwr Hc].
  assert (zsub offset left_ buf = zdrop offset buf) as Hz.
  { replace left_ with (zlen buf - offset) by lia. by apply zsub_drop. }
  assert (zlen (zdrop offset buf) = left_) as Hzl by (rewrite zlen_zdrop; lia).
  unfold write. rewrite Hc, Hz. simpl negb. cbv iota. destruct (s_wr s) as [|[n| |] r] eqn:E; [| |by inversion Hwr..].
  - cbn [obind]. rewrite Hzl. destruct (Z.eqb_spec left_ 0); [lia|]. rewrite Z.sub_diag.
    assert (forall f o x, writeFix_loop f length buf o (u64 0) x = Ret length x) as Hz0 by (by intros []).
    rewrite Hz0. eexists. split; [done|]. split; [split; simpl; (done || by rewrite E)|done|done].
  - apply Forall_cons in Hwr as [Hn Hr]. simpl in Hn. cbn [obind]. cbv zeta. rewrite Hzl.
    destruct (Z.eqb_spec (n `min` left_) 0); [lia|]. rewrite !uw_small by fits.
    destruct (IH (offset + n `min` left_) (left_ - n `min` left_)
      (MkStream (s_in s) r (s_out s ++ ztake (n `min` left_) (zdrop offset buf)) true)) as (s' & -> & [H1 H2 H3]);
      simpl in *; try lia; [by split|]. exists s'. split; [done|]. split; [done|done|]. simpl in H3.
    rewrite H3, <- app_assoc. f_equal. rewrite <- (zdrop_zdrop (n `min` left_) offset) by lia. apply ztake_zdrop.
Qed.

Lemma writeFixSize_ok buf s :
  healthy s -> zlen buf < 2 ^ 64 -> exists s', writeFixSize buf s = Ret (zlen buf) s' /\ sent buf s s'.
Proof.
  intros Hh H64. pose proof (zlen_nonneg buf).
  destruct (writeFix_loop_ok (2 + List.length (s_wr s)) (zlen buf) buf 0 (zlen buf) s) as (s' & H1 & H2);
    try done; try lia. by exists s'.
Qed.

(** Writing does not look at the input. *)
Definition with_in (inp : list chunk) (s : stream) : stream := MkStream inp (s_wr s) (s_out s) (s_connected s).

Lemma writeFix_loop_frame fuel length buf offset left_ inp s :
  writeFix_loop fuel length buf offset left_ (with_in inp s)
    = match writeFix_loop fuel length buf offset left_ s with
      | Ret x s' => Ret x (with_in inp s')
      | Throw e s' => Throw e (with_in inp s')
      | UB => UB
      | NoFuel => NoFuel
      end.
Proof.
  revert offset left_ s. induction fuel as [|fuel IH]; intros offset left_ s; cbn [writeFix_loop];
    (destruct (left_ =? 0); [done|]); [done|].
  destruct (zlen buf <? offset + left_); [done|]. destruct s as [i wr out [|]]; unfold with_in, write; cbn [s_connected s_wr s_in s_out negb].
  - destruct wr as [|[n| |] r]; cbn [obind]; cbv zeta.
    + destruct (zlen _ =? 0); [done|]. apply (IH _ _ (MkStream i [] _ true)).
    + destruct (_ `min` _ =? 0); [done|]. apply (IH _ _ (MkStream i r _ true)).
    + done.
    + apply (IH _ _ (MkStream i r out true)).
  - apply (IH _ _ (MkStream i wr out false)).
Qed.

(** So it succeeds whatever the input is, when the output accepts. *)
Lemma writeFixSize_sends buf inp wr out :
  Forall is_accept wr -> zlen buf < 2 ^ 64 ->
  exists wr', writeFixSize buf (MkStream inp wr out true) = Ret (zlen buf) (MkStream inp wr' (out ++ buf) true)
    /\ Forall is_accept wr'.
Proof.
  intros Hwr H64. destruct (writeFixSize_ok buf (MkStream [] wr out true)) as (s' & E & [[H1 H2 H3] H4 H5]); [by split|done|].
  exists (s_wr s'). split; [|done]. unfold writeFixSize in *. cbn [s_wr] in *.
  change (MkStream inp wr out true) with (with_in inp (MkStream [] wr out true)).
  rewrite writeFix_loop_frame, E. unfold with_in. by rewrite H3, H5.
Qed.

(** On any stream, the memory keeps its size. *)
Lemma readFix_loop_length fuel length mem base offset left_ s r s' :
  0 <= base -> 0 <= offset -> readFix_loop fuel length mem base offset left_ s = Ret r s' -> zlen (snd r) = zlen mem.
Proof.
  revert mem offset left_ s. induction fuel as [|fuel IH]; intros mem offset left_ s Hb Ho; cbn [readFix_loop];
    (destruct (left_ =? 0); [by intros [= <- <-]|]); [done|].
  intros ([len d] & s1 & _ & H)%obind_inv. cbv iota in H. destruct (len =? 0); [by injection H as <- <-|].
  destruct (bool_decide (d = [])) eqn:Ed; cbn [negb andb] in H.
  - apply IH in H; [done|done|apply uw_range; lia].
  - destruct (Z.ltb_spec (zlen mem) (base + offset + zlen d)); [done|].
    apply IH in H; [|done|apply uw_range; lia]. rewrite H, zlen_splice; lia.
Qed.

Lemma readFixSize_length length mem base s r s' :
  0 <= base -> readFixSize length mem base s = Ret r s' -> zlen (snd r) = zlen mem.
Proof. intros Hb. by apply readFix_loop_length. Qed.

(** ** Properties *)

(** [readFixSize] and [writeFixSize] hide the segmentation of the
    transport: on a stream that delivers data in chunks of any size, reading
    [n] bytes terminates, stores exactly the next [n] bytes into the buffer
    and nothing else, and leaves the rest; writing a buffer sends exactly its
    bytes, whatever portions [send] accepts. *)
Theorem fix_size_hides_segmentation (s : stream) (n base : Z) (mem buf : str) :
  healthy s -> 0 <= base -> 0 <= n < 2 ^ 64 -> base + n <= zlen mem -> n <= zlen (incoming s) ->
  zlen buf < 2 ^ 64 ->
  (exists s', readFixSize n mem base s = Ret (n, splice base (ztake n (incoming s)) mem) s'
     /\ incoming s' = zdrop n (incoming s) /\ s_out s' = s_out s)
  /\ (exists s', writeFixSize buf s = Ret (zlen buf) s' /\ s_out s' = s_out s ++ buf /\ s_in s' = s_in s).
Proof.
  intros Hh Hb Hn Hm Hi H64. split.
  - destruct (readFixSize_ok n mem base s Hh Hb Hn Hm Hi) as (s' & H1 & [? ? ? ?]). by exists s'.
  - destruct (writeFixSize_ok buf s Hh H64) as (s' & H1 & [? ? ?]). by exists s'.
Qed.

Definition c24_stream : stream :=
  MkStream [Data (bs "he"); Data (bs "llo w"); Data (bs "orld")] [Accept 1; Accept 3] [] true.

Lemma fix_size_hides_segmentation_witness :
  (exists s', readFixSize 5 (bs "xxxxxx") 1 c24_stream = Ret (5, bs "xhello") s'
     /\ incoming s' = bs " world" /\ s_out s' = [])
  /\ (exists s', writeFixSize (bs "answer") c24_stream = Ret 6 s' /\ s_out s' = bs "answer" /\ s_in s' = s_in c24_stream).
Proof.
  apply (fix_size_hides_segmentation c24_stream 5 1 (bs "xxxxxx") (bs "answer")); try lia; try (vm_compute; congruence).
  - split; [repeat constructor; done|repeat constructor; done|done].
Defined.

(** *** Behaviour outside those conditions *)

(** [-1] is not [<= 0] as a [size_t]: after a failed [recv] the next bytes are
    stored before the buffer. *)
Theorem readFixSize_error_then_data_is_undefined (d : str) (n : Z) (mem : str) (r : list chunk) :
  d <> [] -> 0 < n < 2 ^ 63 -> zlen d <= n -> zlen mem < 2 ^ 63 ->
  readFixSize n mem 0 (MkStream (Err :: Data d :: r) [] [] true) = UB.
Proof.
  intros Hd Hn Hl Hm. unfold readFixSize. cbn [s_in List.length Nat.add readFix_loop].
  destruct (Z.eqb_spec n 0); [lia|]. cbn [read s_connected s_in obind negb].
  change (minus_one =? 0) with false. cbv iota. cbn [bool_decide andb negb].
  rewrite bool_decide_true by done. cbn [negb andb].
  rewrite (uw_small 64 (0 + minus_one)) by (vm_compute; split; congruence).
  assert (u64 (n - minus_one) = n + 1) as ->.
  { unfold uw, minus_one. replace (n - (2 ^ 64 - 1)) with (n + 1 + (-1) * 2 ^ 64) by lia.
    rewrite Z.mod_add by lia. apply Z.mod_small. lia. }
  destruct (Z.eqb_spec (n + 1) 0); [lia|]. cbn [read s_connected s_in negb].
  destruct (Z.leb_spec (zlen d) (n + 1)); [|lia]. cbn [obind].
  assert (0 < zlen d) by (destruct d; [done|zlen_lia]).
  destruct (Z.eqb_spec (zlen d) 0); [lia|]. rewrite bool_decide_false by done. cbn [negb andb].
  destruct (Z.ltb_spec (zlen mem) (0 + (0 + minus_one) + zlen d)); [done|]. unfold minus_one in *. lia.
Qed.

End Stream.
