(* ===== verification/StreamBuffer.v ===== *)
(** * Streams and byte arrays: the [ByteArray] overloads of
      [luwu/luwu/streams/stream.cpp] and [socket_stream.cpp]

    A transfer goes straight to or from the blocks of a byte array, through the
    [iovec]s that it gives out.  The state is the stream and the byte array. *)
From S2P Require Import Prelude ByteArray Stream.
Import ByteArray Stream.
Local Open Scope Z_scope.

Module StreamBuffer.
Section with_platform.
Context `{!Platform}.

(** [recvmsg] fills the buffers in order; a store outside a block is [None]. *)
Fixpoint scatter (ios : list iovec) (d : str) (ns : list str) : option (list str) :=
  match d, ios with
  | [], _ => Some ns
  | _, [] => None
  | _, v :: ios =>
      let n := iov_len v `min` zlen d in
      match ns !! iov_node v with
      | None => None
      | Some blk => if iov_off v + n <=? zlen blk then scatter ios (zdrop n d) (<[iov_node v := splice (iov_off v) (ztake n d) blk]> ns) else None
      end
  end.
Definition iov_total (ios : list iovec) : Z := foldr (fun v n => iov_len v + n) 0 ios.

Abbreviation conn := (stream * t)%type.
Definition with_stream {A} (s : stream) (o : outcome t A) : outcome conn A :=
  match o with Ret a ba => Ret a (s, ba) | Throw e ba => Throw e (s, ba) | UB => UB | NoFuel => NoFuel end.
Definition with_array {A} (ba : t) (o : outcome stream A) : outcome conn A :=
  match o with Ret a s => Ret a (s, ba) | Throw e s => Throw e (s, ba) | UB => UB | NoFuel => NoFuel end.
(** [if (rt > 0) ba->setPosition(ba->getPosition() + rt); return rt;] *)
Definition move_on (rt : Z) : M conn Z := fun c =>
  if 0 <? rt then let* _, c := with_stream (fst c) (setPosition (u64 (m_position (snd c) + rt)) (snd c)) in Ret rt c else Ret rt c.

(** [SocketStream::read(ba, length)]; [&ios[0]] needs an element. *)
Definition read_ba (length : Z) : M conn Z := fun c =>
  if negb (s_connected (fst c)) then Ret minus_one c else
  let* r, c := with_stream (fst c) (getWriteBuffers length (snd c)) in
  let ios := snd r in
  if bool_decide (ios = []) then UB else
  let* rd, c := with_array (snd c) (read (iov_total ios) (fst c)) in
  match scatter ios (snd rd) (m_nodes (snd c)) with
  | None => UB
  | Some ns => move_on (fst rd) (fst c, with_nodes ns (snd c))
  end.
(** [SocketStream::write(ba, length)]: [send] gets [length] as the number of
    buffers, and reads as many. *)
Definition write_ba (length : Z) : M conn Z := fun c =>
  if negb (s_connected (fst c)) then Ret minus_one c else
  let* r, c := with_stream (fst c) (getReadBuffers length (snd c)) in
  let ios := snd r in
  if bool_decide (ios = []) || (zlen ios <? length) then UB else
  match mapM (iov_bytes (m_nodes (snd c))) (ztake length ios) with
  | None => UB
  | Some parts => let* rt, c := with_array (snd c) (Stream.write (concat parts) (fst c)) in move_on rt c
  end.

(** [Stream::readFixSize(ba, length)] and [writeFixSize(ba, length)]. *)
Fixpoint fix_loop (one : Z -> M conn Z) (fuel : nat) (length left_ : Z) : M conn Z := fun c =>
  if left_ =? 0 then Ret length c else
  match fuel with
  | O => NoFuel
  | S fuel => let* len, c := one left_ c in if len =? 0 then Ret 0 c else fix_loop one fuel length (u64 (left_ - len)) c
  end.
Definition readFixSize_ba (length : Z) : M conn Z := fun c => fix_loop read_ba (2 + List.length (s_in (fst c))) length length c.
Definition writeFixSize_ba (length : Z) : M conn Z := fun c => fix_loop write_ba (2 + List.length (s_wr (fst c))) length length c.

(** ** Reading *)
Lemma scatter_nil ios ns : scatter ios [] ns = Some ns.
Proof. by destruct ios. Qed.

(** The [iovec]s of consecutive blocks are filled as the blocks joined. *)
Lemma iov_loop_scatter fuel b (ns : list str) bufs npos len i :
  0 < b -> blocks b ns -> 0 <= npos < b -> 0 < len ->
  b * Z.of_nat i + npos + len <= b * zlen ns -> (length ns - i < fuel)%nat ->
  exists out, iov_loop fuel ns (Some i) npos (b - npos) len bufs = Ret (bufs ++ out) tt
    /\ out <> [] /\ iov_total out = len
    /\ forall d ms, zlen d <= len -> blocks b ms -> length ms = length ns ->
         exists ms', scatter out d ms = Some ms' /\ blocks b ms' /\ length ms' = length ns
           /\ concat ms' = splice (b * Z.of_nat i + npos) d (concat ms).
Proof.
  intros Hb Hbl. revert bufs npos len i. induction fuel as [|fuel IH]; intros bufs npos len i ? ? Hend Hf; [lia|].
  assert (Z.of_nat i < zlen ns) by nia.
  assert (forall n d ms rest, 0 < n <= b - npos -> d <> [] -> blocks b ms -> length ms = length ns ->
    exists blk, ms !! i = Some blk /\ blocks b (<[i := splice npos (ztake (n `min` zlen d) d) blk]> ms)
      /\ concat (<[i := splice npos (ztake (n `min` zlen d) d) blk]> ms) = splice (b * Z.of_nat i + npos) (ztake (n `min` zlen d) d) (concat ms)
      /\ scatter (Iov i npos n :: rest) d ms = scatter rest (zdrop (n `min` zlen d) d) (<[i := splice npos (ztake (n `min` zlen d) d) blk]> ms)) as Hone.
  { intros n d ms rest Hn Hd Hms Hl. destruct (lookup_lt_is_Some_2 ms i) as [blk Hblk]; [unfold zlen in *; lia|]. exists blk. split; [done|].
    pose proof (blocks_lookup _ _ _ _ Hms Hblk) as Hbk. pose proof (zlen_nonneg d). assert (zlen (ztake (n `min` zlen d) d) = n `min` zlen d) as Hz by (rewrite zlen_ztake; lia).
    split_and!; [apply blocks_splice; (done || lia)|apply concat_splice; (done || lia)|]. destruct d as [|x d]; [done|]. cbn [scatter iov_node iov_off iov_len]. rewrite Hblk.
    destruct (Z.leb_spec (npos + n `min` zlen (x :: d)) (zlen blk)); [done|lia]. }
  cbn [iov_loop]. destruct (Z.leb_spec len 0); [lia|]. destruct (Z.leb_spec len (b - npos)).
  - exists [Iov i npos len]. split_and!; [by destruct fuel|done|cbn; lia|]. intros d ms Hd Hms Hl. destruct (decide (d = [])) as [->|Hne].
    { exists ms. split_and!; try done. by rewrite splice_nil by lia. }
    destruct (Hone len d ms [] ltac:(lia) Hne Hms Hl) as (blk & Hblk & Hb1 & Hc1 & Hs1). rewrite Hs1.
    replace (len `min` zlen d) with (zlen d) in * by lia. rewrite ztake_all in * by lia. unfold zdrop. rewrite drop_ge by (unfold zlen; lia). rewrite scatter_nil.
    eexists. split_and!; [done|done|by rewrite length_insert|done].
  - assert (Z.of_nat (S i) < zlen ns) by nia. destruct (lookup_lt_is_Some_2 ns (S i)) as [blk2 Hblk2]; [unfold zlen in *; lia|].
    unfold next. destruct (Nat.ltb_spec (S i) (length ns)); [|unfold zlen in *; lia]. cbn [deref]. rewrite Hblk2, (blocks_lookup _ _ _ _ Hbl Hblk2).
    destruct (IH (bufs ++ [Iov i npos (b - npos)]) 0 (len - (b - npos)) (S i)) as (out & Ho & _ & Ht & Hsc); try lia.
    rewrite Z.sub_0_r in Ho. rewrite Ho. exists (Iov i npos (b - npos) :: out). split_and!; [by rewrite <- app_assoc|done|change (b - npos + iov_total out = len); lia|].
    intros d ms Hd Hms Hl. destruct (decide (d = [])) as [->|Hne]; [exists ms; split_and!; try done; by rewrite splice_nil by lia|].
    destruct (Hone (b - npos) d ms out ltac:(lia) Hne Hms Hl) as (blk & Hblk & Hb1 & Hc1 & Hs1). rewrite Hs1. pose proof (zlen_nonneg d). set (n := (b - npos) `min` zlen d) in *.
    destruct (Hsc (zdrop n d) (<[i := splice npos (ztake n d) blk]> ms)) as (ms' & Hs2 & Hb2 & Hl2 & Hc2); [rewrite zlen_zdrop; lia|done|by rewrite length_insert|].
    exists ms'. split_and!; [done..|]. rewrite Hc2, Hc1. assert (zlen (ztake n d) = n) as Hz by (rewrite zlen_ztake; lia).
    destruct (Z.le_gt_cases (zlen d) (b - npos)) as [Hle|Hgt].
    + replace n with (zlen d) by lia. rewrite ztake_all by lia. unfold zdrop at 1. rewrite drop_ge by (unfold zlen; lia). by rewrite splice_nil by lia.
    + replace (b * Z.of_nat (S i) + 0) with (b * Z.of_nat i + npos + zlen (ztake n d)) by lia. rewrite splice_splice; [by rewrite ztake_zdrop|lia|].
      rewrite (zlen_concat b) by done. rewrite Hz, zlen_zdrop by lia. unfold zlen in *. nia.
Qed.

(** The byte array after [d] was stored at its position, as [write] stores it. *)
Record stored (d : str) (ba ba' : t) : Prop := {
  sto_inv : Inv ba';
  sto_abs : abs ba' = flat_write d (abs ba);
  sto_base : m_baseSize ba' = m_baseSize ba;
  sto_endian : m_endian ba' = m_endian ba;
}.
Lemma stored_nil ba : Inv ba -> stored [] ba ba.
Proof.
  intros Hi. split; try done. rewrite flat_write_nil; [done|]. rewrite zlen_abs by done. pose proof (inv_size _ Hi). pose proof (st_pos _ (inv_store _ Hi)). cbn. lia.
Qed.
Lemma stored_pos d ba ba' : stored d ba ba' -> m_position ba' = m_position ba + zlen d.
Proof. intros [_ Ha _ _]. by injection Ha. Qed.
Lemma stored_trans a b ba ba1 ba2 : Inv ba -> stored a ba ba1 -> stored b ba1 ba2 -> stored (a ++ b) ba ba2.
Proof.
  intros Hi [H1 H2 H3 H4] [K1 K2 K3 K4]. split; [done| |congruence|congruence]. rewrite K2, H2, flat_write_app; [done|].
  rewrite zlen_abs by done. pose proof (inv_size _ Hi). pose proof (st_pos _ (inv_store _ Hi)). cbn. lia.
Qed.

(** Bytes that were put into the blocks of a grown byte array, and the position
    behind them. *)
Lemma move_on_ok d len ba b1 ns s :
  Inv ba -> grown len ba b1 -> 0 < zlen d <= len ->
  blocks (m_baseSize b1) ns -> length ns = length (m_nodes b1) -> concat ns = splice (m_position ba) d (contents b1) ->
  exists ba', move_on (zlen d) (s, with_nodes ns b1) = Ret (zlen d) (s, ba') /\ stored d ba ba'.
Proof.
  intros [Hs Hsz] [Hs1 Hb1 Hp1 Hz1 He1 Hc1 Hr1 [ext Hx1]] Hd Hbl Hl Hcc. pose proof Hs1 as []. pose proof (st_pos _ Hs).
  assert (Inv (with_nodes ns b1)) as Hi2 by (split; [split; cbn; (done || unfold zlen in *; congruence || lia)|cbn; lia]).
  destruct (setPosition_ok (m_position ba + zlen d) (with_nodes ns b1) Hi2) as [Hset Hi3]; [cbn; lia|].
  exists (seeked (m_position ba + zlen d) (with_nodes ns b1)). split.
  - unfold move_on. destruct (Z.ltb_spec 0 (zlen d)); [|lia]. cbn [fst snd]. change (m_position (with_nodes ns b1)) with (m_position b1). rewrite Hp1, uw_small by fits. by rewrite Hset.
  - split; [done| |done|done]. unfold abs, flat_write, seeked. simpl. unfold contents at 1. simpl. rewrite Hcc, Hz1.
    pose proof (zlen_contents _ Hs). rewrite <- (ztake_app_le (m_size ba) (contents ba) ext) by lia. rewrite <- Hx1. f_equal. apply ztake_splice_max; rewrite ?(zlen_contents _ Hs1); lia.
Qed.
Lemma read_ba_some len s ba :
  healthy s -> Inv ba -> 0 < len -> 0 < zlen (incoming s) -> m_position ba + len + m_baseSize ba <= 2 ^ 64 ->
  exists n s' ba', read_ba len (s, ba) = Ret n (s', ba') /\ 0 < n <= len /\ n <= zlen (incoming s)
    /\ took n s s' /\ (n = len \/ (List.length (s_in s') < List.length (s_in s))%nat) /\ stored (ztake n (incoming s)) ba ba'.
Proof.
  intros Hh Hi Hlen Hin H64. destruct (getWriteBuffers_eq len ba Hi Hlen H64) as (b1 & i & Hg & Hpos & Hlt & Hn & Hget).
  pose proof (gr_store _ _ _ Hg) as Hs1. pose proof (st_cap _ Hs1). pose proof (gr_room _ _ _ Hg).
  destruct (iov_loop_scatter (S (length (m_nodes b1))) (m_baseSize b1) (m_nodes b1) [] (m_position ba mod m_baseSize b1) len i) as (ios & Ho & Hne & Ht & Hsc);
    try (apply Hs1 || lia || (unfold zlen in *; lia)).
  rewrite Ho in Hget. cbn [run_iov app] in Hget. destruct (read_some len s Hh Hlen Hin) as (n & d & s' & Hr & Hn1 & Hn2 & Hd & Htk & Hpr).
  assert (zlen d = n) as Hzd by (rewrite Hd, zlen_ztake; lia). destruct (Hsc d (m_nodes b1)) as (ns & Hs2 & Hb2 & Hl2 & Hc2); [lia|apply Hs1|done|]. rewrite Hpos in Hc2.
  destruct (move_on_ok d len ba b1 ns s' Hi Hg) as (ba' & Hm & Hst); try done; [lia|]. exists n, s', ba'. split_and!; try done; try lia; [|by rewrite <- Hd].
  unfold read_ba. cbn [fst snd]. rewrite (h_conn _ Hh), Hget. cbn [negb with_stream obind fst snd]. rewrite bool_decide_false by done. rewrite Ht, Hr. cbn [with_array obind fst snd].
  rewrite Hs2, <- Hzd. done.
Qed.
Lemma fix_loop_read_ok fuel length left_ s ba :
  healthy s -> Inv ba -> 0 <= left_ -> left_ <= zlen (incoming s) -> m_position ba + left_ + m_baseSize ba <= 2 ^ 64 ->
  (left_ = 0 \/ (1 + List.length (s_in s) <= fuel)%nat) ->
  exists s' ba', fix_loop read_ba fuel length left_ (s, ba) = Ret length (s', ba') /\ took left_ s s' /\ stored (ztake left_ (incoming s)) ba ba'.
Proof.
  revert left_ s ba. induction fuel as [|fuel IH]; intros left_ s ba Hh Hi Hl Hin H64 Hf; cbn [fix_loop]; destruct (Z.eqb_spec left_ 0) as [->|Hne].
  1, 3: exists s, ba; split_and!; [done|by apply took_0|rewrite ztake_0; by apply stored_nil].
  { lia. }
  destruct (read_ba_some left_ s ba Hh Hi ltac:(lia) ltac:(lia) H64) as (n & s1 & b1 & -> & Hn1 & Hn2 & Htk & Hpr & Hst). cbn [obind]. destruct (Z.eqb_spec n 0); [lia|].
  pose proof (st_pos _ (inv_store _ Hi)). pose proof (st_base _ (inv_store _ Hi)). rewrite uw_small by fits. pose proof (stored_pos _ _ _ Hst) as Hp. rewrite zlen_ztake in Hp by lia.
  assert (zlen (incoming s1) = zlen (incoming s) - n) as Hi1 by (rewrite (tk_in _ _ _ Htk), zlen_zdrop; lia).
  destruct (IH (left_ - n) s1 b1) as (s2 & b2 & -> & Htk2 & Hst2); try lia; [apply Htk|apply Hst|rewrite (sto_base _ _ _ Hst); lia|].
  exists s2, b2. split_and!; [done| |].
  - replace left_ with (n + (left_ - n)) by lia. apply (took_trans n (left_ - n) s s1 s2); (done || lia).
  - replace (ztake left_ (incoming s)) with (ztake n (incoming s) ++ ztake (left_ - n) (incoming s1)); [by eapply stored_trans|].
    rewrite (tk_in _ _ _ Htk), <- (ztake_zdrop n (ztake left_ (incoming s))), ztake_ztake, ztake_zdrop_comm by lia. f_equal; f_equal; [lia|f_equal; lia].
Qed.
End with_platform.

(** C31. Reading from a stream into a byte array is writing what comes: on a stream
    that delivers data in chunks of any size, [readFixSize(ba, n)] returns [n],
    takes exactly the next [n] bytes of the stream, and leaves the byte array as
    [ByteArray::write] of these bytes would: the same content and position, in
    blocks that it may have added. *)
Theorem read_into_array_is_write `{!Platform} (s : stream) (ba : t) (n : Z) :
  healthy s -> Inv ba -> 0 <= n <= zlen (incoming s) -> m_position ba + n + m_baseSize ba <= 2 ^ 64 ->
  exists s' ba' bw, readFixSize_ba n (s, ba) = Ret n (s', ba')
    /\ incoming s' = zdrop n (incoming s) /\ s_out s' = s_out s /\ Inv ba'
    /\ ByteArray.write (ztake n (incoming s)) ba = Ret tt bw /\ abs ba' = abs bw
    /\ m_baseSize ba' = m_baseSize bw /\ m_endian ba' = m_endian bw.
Proof.
  intros Hh Hi Hn H64. destruct (fix_loop_read_ok (2 + List.length (s_in s)) n n s ba) as (s' & ba' & Hr & [H1 H2 H3 H4] & [K1 K2 K3 K4]); try done; try lia.
  destruct (write_ok (ztake n (incoming s)) ba Hi) as (bw & Hw & _ & Ha & Hb & He & _); [by rewrite zlen_ztake by lia|]. exists s', ba', bw. split_and!; congruence || done.
Qed.
Definition three_chunks : stream := MkStream [Data (bs "he"); Data (bs "llo w"); Data (bs "orld")] [] [] true.
Lemma read_into_array_is_write_witness :
  let P := x86_64 in
  exists s' ba', readFixSize_ba 8 (three_chunks, ByteArray.create 4) = Ret 8 (s', ba') /\ incoming s' = bs "rld" /\ abs ba' = Flat (bs "hello wo") 8.
Proof.
  intros P. destruct (read_into_array_is_write three_chunks (ByteArray.create 4) 8) as (s' & ba' & bw & H1 & H2 & _ & _ & H3 & H4 & _).
  - split; repeat constructor; done.
  - apply Inv_create. lia.
  - vm_compute. split; discriminate.
  - vm_compute. discriminate.
  - exists s', ba'. split_and!; [exact H1|exact H2|]. rewrite H4. vm_compute in H3. injection H3 as <-. reflexivity.
Defined.

(** ** What goes wrong *)

(** [-1] is positive as a [size_t]: a failed [recv] moves the position back by
    one, so that the byte in front is overwritten by what comes next. *)
Theorem failed_read_moves_back `{!Platform} (r : list chunk) (wr : list accept) (out : str) (ba : t) (len : Z) :
  Inv ba -> 0 < m_position ba -> 0 < len -> m_position ba + len + m_baseSize ba <= 2 ^ 64 ->
  exists ba', read_ba len (MkStream (Err :: r) wr out true, ba) = Ret minus_one (MkStream r wr out true, ba') /\ m_position ba' = m_position ba - 1.
Proof.
  intros Hi Hp Hlen H64. destruct (getWriteBuffers_eq len ba Hi Hlen H64) as (b1 & i & Hg & Hpos & Hlt & Hn & Hget).
  pose proof (gr_store _ _ _ Hg) as Hs1. pose proof (st_cap _ Hs1). pose proof (gr_room _ _ _ Hg).
  destruct (iov_loop_scatter (S (length (m_nodes b1))) (m_baseSize b1) (m_nodes b1) [] (m_position ba mod m_baseSize b1) len i) as (ios & Ho & Hne & Ht & Hsc);
    try (apply Hs1 || lia || (unfold zlen in *; lia)).
  rewrite Ho in Hget. cbn [run_iov app] in Hget. unfold read_ba. cbn [fst snd s_connected negb]. rewrite Hget. cbn [with_stream obind fst snd].
  rewrite bool_decide_false by done. cbn [read s_connected s_in s_wr s_out negb with_array obind fst snd]. rewrite scatter_nil. unfold move_on. change (0 <? minus_one) with true. cbv iota. cbn [fst snd].
  assert (Inv (with_nodes (m_nodes b1) b1)) as Hi1.
  { destruct b1. cbn in *. split; [exact Hs1|]. cbn. pose proof (inv_size _ Hi). pose proof (gr_size _ _ _ Hg). pose proof (gr_pos _ _ _ Hg). pose proof (gr_cap _ _ _ Hg). cbn in *. lia. }
  assert (u64 (m_position (with_nodes (m_nodes b1) b1) + minus_one) = m_position ba - 1) as ->.
  { cbn. rewrite (gr_pos _ _ _ Hg). unfold uw, minus_one. replace (m_position ba + (2 ^ 64 - 1)) with (m_position ba - 1 + 1 * 2 ^ 64) by lia.
    rewrite Z.mod_add by lia. pose proof (st_base _ (inv_store _ Hi)). apply Z.mod_small. lia. }
  destruct (setPosition_ok (m_position ba - 1) _ Hi1) as [-> _]; [cbn; lia|]. by eexists.
Qed.
(** [send] gets the number of bytes as the number of buffers: a write of at least
    two bytes that lie in one block reads behind the only buffer. *)
Theorem write_in_one_block_is_undefined `{!Platform} (s : stream) (ba : t) (len : Z) :
  s_connected s = true -> Inv ba -> 2 <= len <= m_size ba - m_position ba -> m_position ba mod m_baseSize ba + len <= m_baseSize ba -> write_ba len (s, ba) = UB.
Proof.
  intros Hc Hi Hlen Hin. pose proof Hi as [Hs ?]. pose proof (st_base _ Hs). unfold write_ba. cbn [fst snd]. rewrite Hc. cbn [negb]. unfold getReadBuffers. rewrite getReadSize_eq by done.
  destruct (Z.ltb_spec (m_size ba - m_position ba) len); [lia|]. destruct (Z.eqb_spec len 0); [lia|]. destruct (Z.eqb_spec (m_baseSize ba) 0); [lia|].
  destruct (store_cur ba Hs ltac:(lia)) as (i & blk & Hci & Hblk & Hlen' & Hpos & Hlt). unfold cur_node. rewrite Hci. cbn [deref]. rewrite Hblk, Hlen'. cbv zeta.
  pose proof (pos_split ba Hs) as [_ ?]. rewrite uw_small by (apply (in_block_u64 ba); (done || lia)). cbn [iov_loop]. destruct (Z.leb_spec len 0); [lia|].
  destruct (Z.leb_spec len (m_baseSize ba - m_position ba mod m_baseSize ba)); [|lia].
  assert (forall f, iov_loop f (m_nodes ba) (Some i) (m_position ba mod m_baseSize ba) (m_baseSize ba - m_position ba mod m_baseSize ba) 0
    ([] ++ [Iov i (m_position ba mod m_baseSize ba) len]) = Ret [Iov i (m_position ba mod m_baseSize ba) len] tt) as -> by (by intros []).
  cbn [run_iov with_stream obind fst snd]. change (zlen [_]) with 1. destruct (Z.ltb_spec 1 len); [|lia]. by rewrite orb_true_r.
Qed.

End StreamBuffer.
