(* ===== verification/WebSocket.v ===== *)
(** * WebSocket: [luwu/luwu/http/ws_session.cpp]

    The frame head as its two bytes, sending and receiving messages over a
    [Stream], and the server side of the opening handshake. *)
From S2P Require Import Prelude ByteArray Codec StdString StdMap HashUtil Ext Http Stream.
Import Stream.
Local Open Scope Z_scope.

Module WebSocket.

(** ** Frame heads *)
Record WSFrameHead := MkHead {
  opcode : Z; rsv3 : bool; rsv2 : bool; rsv1 : bool; fin : bool;
  payload : Z; mask : bool;
}.
Definition CONTINUE : Z := 0.
Definition TEXT_FRAME : Z := 1.
Definition BIN_FRAME : Z := 2.
Definition CLOSE : Z := 8.
Definition PING : Z := 9.
Definition PONG : Z := 10.

Definition bit (b : bool) : Z := if b then 1 else 0.

(** The packed bit fields, lowest bit first; they are cut to their widths. *)
Definition head_bytes (h : WSFrameHead) : str :=
  [z2b (opcode h mod 16 + 16 * bit (rsv3 h) + 32 * bit (rsv2 h) + 64 * bit (rsv1 h) + 128 * bit (fin h));
   z2b (payload h mod 128 + 128 * bit (mask h))].
Definition head_of (d : str) : WSFrameHead :=
  match d with
  | c0 :: c1 :: _ =>
      let b0 := b2z c0 in
      let b1 := b2z c1 in
      MkHead (b0 mod 16) (Z.testbit b0 4) (Z.testbit b0 5) (Z.testbit b0 6) (Z.testbit b0 7) (b1 mod 128) (Z.testbit b1 7)
  | _ => MkHead 0 false false false false 0 false
  end.

Record WSFrameMessage := MkMessage { m_opcode : Z; m_data : str }.

Section with_platform.
Context `{PF : !Platform}.

(** ** Masking *)
Fixpoint mask_from (mk : str) (i : Z) (d : str) : str :=
  match d with
  | [] => []
  | c :: d => z2b (Z.lxor (b2z c) (default 0 (b2z <$> mk !! Z.to_nat (i mod 4)))) :: mask_from mk (i + 1) d
  end.

(** [data[cur_len + i] ^= mask[i % 4]] for [i] below [n]. *)
Definition unmask (data : str) (cur_len n : Z) (mk : str) : str :=
  ztake cur_len data ++ mask_from mk 0 (zsub cur_len n data) ++ zdrop (cur_len + n) data.

(** ** Control frames *)
Definition control_frame (op : Z) : M stream Z := fun s =>
  let* v, s := writeFixSize (head_bytes (MkHead op false false false true 0 false)) s in
  let v := s32 v in
  if v <=? 0 then Ret v (close s) else Ret v s.
Definition WSPing : M stream Z := control_frame PING.
Definition WSPong : M stream Z := control_frame PONG.

(** ** Receiving *)

(** One round of the loop of [WSRecvMessage]. *)
Inductive round := Break | Next (op : Z) (data : str) (cur_len : Z) | Finished (msg : WSFrameMessage).

Definition zeros (n : nat) : str := replicate n Byte.x00.

(** The extended payload length. *)
Definition recv_length (h : WSFrameHead) : M stream (option Z) := fun s =>
  if payload h =? 126 then
    let* r, s := readFixSize 2 (zeros 2) 0 s in
    Ret (if fst r =? 0 then None else Some (Codec.byteSwapOnLittleEndian 2 (host_val (snd r)))) s
  else if payload h =? 127 then
    let* r, s := readFixSize 8 (zeros 8) 0 s in
    Ret (if fst r =? 0 then None else Some (Codec.byteSwapOnLittleEndian 8 (host_val (snd r)))) s
  else Ret (Some (payload h)) s.

(** [data.resize(n)]. *)
Definition resize (data : str) (n : Z) : str := ztake n data ++ zeros (Z.to_nat (n - zlen data)).

Definition recv_data (client : bool) (max_size : Z) (h : WSFrameHead) (op : Z) (data : str) (cur_len : Z)
    : M stream round := fun s =>
  if negb client && negb (mask h) then Ret Break s else
  let* length, s := recv_length h s in
  match length with
  | None => Ret Break s
  | Some length =>
      if max_size <=? u64 (u64 cur_len + length) then Ret Break s else
      let* mk, s := (if mask h then readFixSize 4 (zeros 4) 0 s else Ret (4, zeros 4) s) in
      if fst mk =? 0 then Ret Break s else
      let data := resize data (u64 (u64 cur_len + length)) in
      if zlen data <? cur_len then UB else
      let* r, s := readFixSize length data cur_len s in
      if fst r =? 0 then Ret Break s else
      let data := if mask h then unmask (snd r) cur_len (0 `max` s32 length) (snd mk) else snd r in
      let cur_len := s32 (cur_len + length) in
      let op := if (op =? 0) && negb (opcode h =? CONTINUE) then opcode h else op in
      if fin h then Ret (Finished (MkMessage op data)) s else Ret (Next op data cur_len) s
  end.

Definition recv_round (client : bool) (max_size : Z) (op : Z) (data : str) (cur_len : Z) : M stream round := fun s =>
  let* r, s := readFixSize 2 (zeros 2) 0 s in
  if fst r =? 0 then Ret Break s else
  let h := head_of (snd r) in
  if opcode h =? PING then
    let* v, s := WSPong s in
    if v <=? 0 then Ret Break s else Ret (Next op data cur_len) s
  else if opcode h =? PONG then Ret (Next op data cur_len) s
  else if (opcode h =? CONTINUE) || (opcode h =? TEXT_FRAME) || (opcode h =? BIN_FRAME)
  then recv_data client max_size h op data cur_len s
  else Ret (Next op data cur_len) s.

Fixpoint recv_loop (fuel : nat) (client : bool) (max_size : Z) (op : Z) (data : str) (cur_len : Z)
    : M stream (option WSFrameMessage) := fun s =>
  match fuel with
  | O => NoFuel
  | S fuel =>
      let* r, s := recv_round client max_size op data cur_len s in
      match r with
      | Break => Ret None (close s)
      | Finished msg => Ret (Some msg) s
      | Next op data cur_len => recv_loop fuel client max_size op data cur_len s
      end
  end.

(** [max_size] is the configured [websocket.message.max_size]. *)
Definition WSRecvMessage (fuel : nat) (client : bool) (max_size : Z) : M stream (option WSFrameMessage) :=
  recv_loop fuel client max_size 0 [] 0.

(** ** Sending *)
Definition payload_code (size : Z) : Z := if size <? 126 then size else if size <? 65536 then 126 else 127.

(** The steps of [WSSendMessage]; [false] is a [break]. *)
Definition send_part (d : str) : M stream bool := fun s =>
  let* v, s := writeFixSize d s in Ret (negb (v =? 0)) s.

Definition send_length (size : Z) : M stream bool := fun s =>
  if payload_code size =? 126 then send_part (host_bytes 2 (Codec.byteSwapOnLittleEndian 2 (u16 size))) s
  else if payload_code size =? 127 then send_part (host_bytes 8 (Codec.byteSwapOnLittleEndian 8 size)) s
  else Ret true s.

(** [rand_value] is the value of [rand()]; the message is masked in place. *)
Definition WSSendMessage (msg : WSFrameMessage) (client fin : bool) (rand_value : Z) : M stream (Z * WSFrameMessage) := fun s =>
  let size := zlen (m_data msg) in
  let h := MkHead (m_opcode msg) false false false fin (payload_code size) client in
  let* ok, s := send_part (head_bytes h) s in
  if negb ok then Ret (-1, msg) (close s) else
  let* ok, s := send_length size s in
  if negb ok then Ret (-1, msg) (close s) else
  let mk := host_bytes 4 (u32 rand_value) in
  let msg := if client then MkMessage (m_opcode msg) (mask_from mk 0 (m_data msg)) else msg in
  let* ok, s := (if client then send_part mk s else Ret true s) in
  if negb ok then Ret (-1, msg) (close s) else
  let* ok, s := send_part (m_data msg) s in
  if negb ok then Ret (-1, msg) (close s) else
  Ret (s32 (size + 2), msg) s.

(** [WSSession]: the server side. *)
Definition recvMessage (fuel : nat) (max_size : Z) : M stream (option WSFrameMessage) := WSRecvMessage fuel false max_size.
Definition sendMessage (msg : WSFrameMessage) (fin : bool) (rand_value : Z) := WSSendMessage msg false fin rand_value.

(** ** The opening handshake *)
Section handshake.
Context (SHA1 : HashUtil.Digest) (cast_int : str -> option Z).

Definition GUID : str := bs "258EAFA5-E914-47DA-95CA-C5AB0DC85B11".
Definition SWITCHING_PROTOCOLS : Z := 101.

(** [handleShake] behind [recvRequest]: what it makes of a request, that is
    null, or the request and the response that is sent.  The whole function is
    [Server.handleShake]. *)
Definition shake_response (req : Http.HttpRequest) : option (Http.HttpRequest * Http.HttpResponse) :=
  if negb (bool_decide (StdString.strcasecmp (Http.getHeader req (bs "Upgrade") []) (bs "websocket") = Eq)) then None
  else if negb (bool_decide (StdString.strcasecmp (Http.getHeader req (bs "Connection") []) (bs "Upgrade") = Eq)) then None
  else if negb (Http.getAs cast_int (Http.q_headers req) (bs "Sec-webSocket-Version") 0 =? 13) then None
  else
    let key := Http.getHeader req (bs "Sec-WebSocket-Key") [] in
    if bool_decide (key = []) then None
    else match HashUtil.base64encode (HashUtil.sha1sum SHA1 (key ++ GUID)) with
         | Ret v _ =>
             let req := Http.setWebSocket true req in
             let rsp := Http.createResponse req in
             let rsp := Http.setStatus SWITCHING_PROTOCOLS rsp in
             let rsp := Http.p_setWebSocket true rsp in
             let rsp := Http.setReason (bs "Web Socket Protocol Handshake") rsp in
             let rsp := Http.p_setHeader (bs "Upgrade") (bs "websocket") rsp in
             let rsp := Http.p_setHeader (bs "Connection") (bs "Upgrade") rsp in
             let rsp := Http.p_setHeader (bs "Sec-WebSocket-Accept") v rsp in
             Some (req, rsp)
         | _ => None
         end.
End handshake.

(** ** The frame format *)
Lemma head_roundtrip h :
  0 <= opcode h < 16 -> 0 <= payload h < 128 -> head_of (head_bytes h) = h.
Proof.
  intros Ho Hp. destruct h as [op r3 r2 r1 f p m]. cbn [opcode payload] in *.
  unfold head_of, head_bytes. cbn [opcode rsv3 rsv2 rsv1 fin payload mask]. cbv zeta.
  rewrite !b2z_z2b, (Z.mod_small op), (Z.mod_small p) by lia.
  set (x := _ mod 256). set (y := (p + 128 * bit m) mod 256).
  assert (x = op + 16 * bit r3 + 32 * bit r2 + 64 * bit r1 + 128 * bit f) as Hx.
  { unfold x. apply Z.mod_small. unfold bit. destruct r3, r2, r1, f; lia. }
  assert (y = p + 128 * bit m) as Hy by (unfold y; apply Z.mod_small; unfold bit; destruct m; lia).
  assert (forall v i, 0 <= i -> Z.testbit v i = (v / 2 ^ i mod 2 =? 1)) as Hbit.
  { intros v i Hi. rewrite Z.testbit_eqb by done. done. }
  rewrite !Hbit by lia. f_equal.
  all: rewrite ?Hx, ?Hy; unfold bit; destruct r3, r2, r1, f, m; cbn [Z.mul Z.add Z.pow Z.pow_pos Pos.iter];
    first [ apply Z.eqb_eq | apply Z.eqb_neq | idtac ]; Z.to_euclidean_division_equations; lia.
Qed.

Lemma zlen_head_bytes h : zlen (head_bytes h) = 2.
Proof. done. Qed.

Lemma zlen_mask_from mk i d : zlen (mask_from mk i d) = zlen d.
Proof. revert i. induction d as [|c d IH]; intros i; [done|]. cbn [mask_from]. by rewrite !zlen_cons, IH. Qed.

(** Masking twice with the same key is the identity. *)
Lemma mask_involutive mk i d : mask_from mk i (mask_from mk i d) = d.
Proof.
  revert i. induction d as [|c d IH]; intros i; [done|]. cbn [mask_from]. rewrite IH. f_equal.
  set (k := default 0 _). assert (0 <= k < 256) as Hk.
  { unfold k. destruct (mk !! _) as [b|]; simpl; [apply b2z_range|lia]. }
  pose proof (b2z_range c) as Hc. rewrite z2b_small.
  - rewrite Z.lxor_assoc, Z.lxor_nilpotent, Z.lxor_0_r. apply z2b_b2z.
  - apply (HashUtil.in_u_lxor 8); [lia|done|done].
Qed.

(** The bytes of the extended length are in network order on either host. *)
Definition length_bytes (size : Z) : str :=
  if payload_code size =? 126 then be_bytes 2 size else if payload_code size =? 127 then be_bytes 8 size else [].

Lemma host_bytes_swap n v : (0 < n)%nat -> host_bytes n (Codec.byteSwapOnLittleEndian n v) = be_bytes n v.
Proof.
  intros Hn. unfold Codec.byteSwapOnLittleEndian, host_bytes, be_bytes. destruct BYTE_ORDER; [|done].
  by rewrite Codec.le_bytes_byteSwap.
Qed.

Lemma host_val_swap n v :
  (0 < n)%nat -> in_u (8 * Z.of_nat n) v -> Codec.byteSwapOnLittleEndian n (host_val (be_bytes n v)) = v.
Proof.
  intros Hn Hv. pose proof (Codec.load_wire BIG_ENDIAN false n v Hn) as H. unfold Codec.load in H.
  change (Codec.wire BIG_ENDIAN n v) with (be_bytes n v) in H.
  rewrite Codec.norm_small in H by done. unfold Codec.byteSwapOnLittleEndian. cbv zeta in H.
  destruct BYTE_ORDER; [by rewrite decide_False in H|by rewrite decide_True in H].
Qed.

(** A whole frame, with the mask key when masked. *)
Definition frame (op : Z) (f : bool) (mk : option str) (d : str) : str :=
  head_bytes (MkHead op false false false f (payload_code (zlen d)) (bool_decide (is_Some mk)))
  ++ length_bytes (zlen d) ++ default [] mk ++ match mk with Some mk => mask_from mk 0 d | None => d end.

(** ** Receiving a frame *)

(** The stream after it delivered what was in front of [rest]. *)
Record got (rest : str) (s s' : stream) : Prop := {
  got_healthy : healthy s';
  got_in : incoming s' = rest;
  got_out : s_out s' = s_out s;
  got_wr : s_wr s' = s_wr s;
}.

Lemma get_prefix a rest mem s :
  healthy s -> incoming s = a ++ rest -> zlen mem = zlen a -> zlen a < 2 ^ 64 ->
  exists s', readFixSize (zlen a) mem 0 s = Ret (zlen a, a) s' /\ got rest s s'.
Proof. intros. destruct (read_prefix a rest mem s) as (s' & ? & ? & ? & ? & ?); try done. by exists s'. Qed.

Lemma got_trans r1 r2 s s1 s2 : got r1 s s1 -> got r2 s1 s2 -> got r2 s s2.
Proof. intros [] []. split; try done; congruence. Qed.

Lemma zlen_be_bytes n v : zlen (be_bytes n v) = Z.of_nat n.
Proof. unfold zlen, be_bytes. by rewrite length_rev, length_le_bytes. Qed.

Lemma recv_length_ok h size rest s :
  healthy s -> payload h = payload_code size -> in_u 64 size -> incoming s = length_bytes size ++ rest ->
  exists s', recv_length h s = Ret (Some size) s' /\ got rest s s'.
Proof.
  intros Hh Hp Hs Hi. unfold recv_length, length_bytes in *. rewrite Hp. unfold payload_code in *. unfold in_u in Hs.
  destruct (Z.ltb_spec size 126).
  - destruct (Z.eqb_spec size 126); [lia|]. destruct (Z.eqb_spec size 127); [lia|]. by exists s.
  - destruct (Z.ltb_spec size 65536); simpl in Hi.
    + destruct (get_prefix (be_bytes 2 size) rest (zeros 2) s) as (s' & E & Hg); try done.
      change (zlen (be_bytes 2 size)) with 2 in E. simpl. rewrite E. cbn [obind fst snd]. exists s'. split; [|done].
      rewrite host_val_swap; [done|lia|unfold in_u; simpl; lia].
    + destruct (get_prefix (be_bytes 8 size) rest (zeros 8) s) as (s' & E & Hg); try done.
      change (zlen (be_bytes 8 size)) with 8 in E. simpl. rewrite E. cbn [obind fst snd]. exists s'. split; [|done].
      rewrite host_val_swap; [done|lia|unfold in_u; simpl; lia].
Qed.

Lemma recv_mask_ok (m : bool) (mk : option str) rest s :
  healthy s -> m = bool_decide (is_Some mk) -> (forall k, mk = Some k -> zlen k = 4) ->
  incoming s = default [] mk ++ rest ->
  exists k s', (if m then readFixSize 4 (zeros 4) 0 s else Ret (4, zeros 4) s) = Ret (4, k) s'
    /\ (forall k', mk = Some k' -> k = k') /\ got rest s s'.
Proof.
  intros Hh -> Hk Hi. destruct mk as [k|]; simpl in Hi |- *.
  - specialize (Hk k eq_refl). destruct (get_prefix k rest (zeros 4) s) as (s' & E & Hg); try done; [lia|].
    rewrite Hk in E. exists k, s'. split_and!; [done|congruence|done].
  - exists (zeros 4), s. split_and!; [done|done|by split].
Qed.

(** Reading the payload behind what was received before. *)
Lemma recv_payload_ok data x rest s :
  healthy s -> incoming s = x ++ rest -> zlen data + zlen x < 2 ^ 63 ->
  exists s', readFixSize (zlen x) (resize data (zlen data + zlen x)) (zlen data) s = Ret (zlen x, data ++ x) s' /\ got rest s s'.
Proof.
  intros Hh Hi H63. pose proof (zlen_nonneg x). pose proof (zlen_nonneg data). pose proof (zlen_nonneg rest).
  assert (resize data (zlen data + zlen x) = data ++ zeros (Z.to_nat (zlen x))) as ->.
  { unfold resize. rewrite ztake_all by lia. do 3 f_equal. lia. }
  assert (zlen (zeros (Z.to_nat (zlen x))) = zlen x) as Hz.
  { unfold zlen, zeros. rewrite length_replicate. lia. }
  destruct (readFixSize_ok (zlen x) (data ++ zeros (Z.to_nat (zlen x))) (zlen data) s) as (s' & E & [T1 T2 T3 T4]);
    try done; try lia; rewrite ?zlen_app, ?Hi, ?zlen_app; try lia.
  exists s'. rewrite E. split.
  - do 2 f_equal. rewrite Hi, ztake_app_le, (ztake_all (zlen x) x) by lia. rewrite splice_app_r, Z.sub_diag by lia. f_equal.
    unfold splice. rewrite ztake_0, Z.add_0_l. simpl. unfold zdrop. rewrite drop_ge by (unfold zlen in *; lia). apply app_nil_r.
  - split; try done. by rewrite T2, Hi, zdrop_app_ge, Z.sub_diag by lia.
Qed.

Definition masked (mk : option str) (d : str) : str := match mk with Some mk => mask_from mk 0 d | None => d end.
Lemma zlen_masked mk d : zlen (masked mk d) = zlen d.
Proof. destruct mk; [apply zlen_mask_from|done]. Qed.

Lemma unmask_ok data x mk : unmask (data ++ x) (zlen data) (zlen x) mk = data ++ mask_from mk 0 x.
Proof.
  unfold unmask. rewrite ztake_app_le, ztake_all, zsub_app_r, Z.sub_diag, zsub_all by lia.
  unfold zdrop. rewrite drop_ge by (rewrite length_app; unfold zlen; lia). by rewrite app_nil_r.
Qed.

(** What the loop does with a data frame. *)
Definition after_frame (h : WSFrameHead) (op : Z) (data d : str) : round :=
  let op := if (op =? 0) && negb (opcode h =? CONTINUE) then opcode h else op in
  if fin h then Finished (MkMessage op (data ++ d)) else Next op (data ++ d) (zlen data + zlen d).

Lemma recv_data_ok client max_size h op data d mk rest s :
  healthy s -> payload h = payload_code (zlen d) -> mask h = bool_decide (is_Some mk) ->
  (client = true \/ is_Some mk) -> (forall k, mk = Some k -> zlen k = 4) -> d <> [] ->
  zlen data + zlen d < max_size -> max_size <= 2 ^ 31 ->
  incoming s = length_bytes (zlen d) ++ default [] mk ++ masked mk d ++ rest ->
  exists s', recv_data client max_size h op data (zlen data) s = Ret (after_frame h op data d) s' /\ got rest s s'.
Proof.
  intros Hh Hp Hm Hcl Hk Hd Hmax H31 Hi. pose proof (zlen_nonneg data). pose proof (zlen_nonneg d).
  assert (0 < zlen d) by (destruct d; [done|rewrite zlen_cons in *; pose proof (zlen_nonneg d); lia]).
  unfold recv_data. replace (negb client && negb (mask h)) with false.
  2: { rewrite Hm. destruct Hcl as [->|[k ->]]; [done|]. by rewrite bool_decide_true, andb_false_r by eauto. }
  destruct (recv_length_ok h (zlen d) _ s Hh Hp ltac:(unfold in_u; lia) Hi) as (s1 & -> & G1). cbn [obind].
  rewrite (uw_small 64 (zlen data)), (uw_small 64) by fits.
  destruct (Z.leb_spec max_size (zlen data + zlen d)); [lia|].
  destruct (recv_mask_ok (mask h) mk _ s1 (got_healthy _ _ _ G1) Hm Hk (got_in _ _ _ G1)) as (k & s2 & E2 & Hkk & G2).
  rewrite E2. cbn [obind fst snd Z.eqb].
  destruct (recv_payload_ok data (masked mk d) rest s2 (got_healthy _ _ _ G2) (got_in _ _ _ G2)) as (s3 & E3 & G3);
    [rewrite zlen_masked; lia|]. rewrite zlen_masked in E3.
  assert (zlen (resize data (zlen data + zlen d)) = zlen data + zlen d) as Hrs.
  { unfold resize. rewrite ztake_all by lia. rewrite zlen_app. unfold zeros, zlen at 2. rewrite length_replicate. lia. }
  rewrite Hrs. destruct (Z.ltb_spec (zlen data + zlen d) (zlen data)); [lia|]. rewrite E3. cbn [obind fst snd].
  destruct (Z.eqb_spec (zlen d) 0); [lia|].
  rewrite !(sw_small 32) by (lia || unfold in_s; lia). rewrite Z.max_r by lia.
  assert ((if mask h then unmask (data ++ masked mk d) (zlen data) (zlen d) k else data ++ masked mk d) = data ++ d) as ->.
  { rewrite Hm. destruct mk as [k'|]; simpl; [|done]. rewrite (Hkk k' eq_refl).
    pose proof (unmask_ok data (mask_from k' 0 d) k') as Hu. by rewrite zlen_mask_from, mask_involutive in Hu. }
  exists s3. split; [|eapply got_trans; [exact G1|eapply got_trans; [exact G2|exact G3]]].
  unfold after_frame. by destruct (fin h).
Qed.

Definition is_data_opcode (op : Z) : Prop := op = CONTINUE \/ op = TEXT_FRAME \/ op = BIN_FRAME.

Lemma recv_round_ok client max_size op data fop ffin d mk rest s :
  healthy s -> is_data_opcode fop -> (client = true \/ is_Some mk) -> (forall k, mk = Some k -> zlen k = 4) -> d <> [] ->
  zlen data + zlen d < max_size -> max_size <= 2 ^ 31 ->
  incoming s = frame fop ffin mk d ++ rest ->
  exists s', recv_round client max_size op data (zlen data) s
    = Ret (after_frame (MkHead fop false false false ffin (payload_code (zlen d)) (bool_decide (is_Some mk))) op data d) s'
    /\ got rest s s'.
Proof.
  intros Hh Hop Hcl Hk Hd Hmax H31 Hi. pose proof (zlen_nonneg data). pose proof (zlen_nonneg d).
  unfold frame in Hi. rewrite <- !app_assoc in Hi.
  set (h := MkHead fop false false false ffin (payload_code (zlen d)) (bool_decide (is_Some mk))) in *.
  destruct (get_prefix (head_bytes h) _ (zeros 2) s Hh Hi) as (s1 & E1 & G1); [done|done|].
  change (zlen (head_bytes h)) with 2 in E1. unfold recv_round. rewrite E1. cbn [obind fst snd Z.eqb].
  assert (head_of (head_bytes h) = h) as ->.
  { apply head_roundtrip; unfold h; simpl; [unfold is_data_opcode, CONTINUE, TEXT_FRAME, BIN_FRAME in Hop; lia|].
    unfold payload_code. destruct (Z.ltb_spec (zlen d) 126); [lia|]. destruct (_ <? _); lia. }
  assert ((opcode h =? PING) = false /\ (opcode h =? PONG) = false
    /\ (opcode h =? CONTINUE) || (opcode h =? TEXT_FRAME) || (opcode h =? BIN_FRAME) = true) as (-> & -> & ->).
  { unfold h. simpl. destruct Hop as [->|[->| ->]]; done. }
  destruct (recv_data_ok client max_size h op data d mk rest s1) as (s2 & E2 & G2); try done; try apply G1.
  exists s2. split; [done|by eapply got_trans].
Qed.

(** ** Fragmented messages *)

(** One message as frames: the first carries the opcode, the others
    [CONTINUE], and only the last has [fin]; each may have its own mask. *)
Fixpoint frames (op : Z) (parts : list (option str * str)) : str :=
  match parts with
  | [] => []
  | [(mk, d)] => frame op true mk d
  | (mk, d) :: parts => frame op false mk d ++ frames CONTINUE parts
  end.
Definition whole (parts : list (option str * str)) : str := concat (map snd parts).
Definition good_part (client : bool) (p : option str * str) : Prop :=
  (client = true \/ is_Some (fst p)) /\ (forall k, fst p = Some k -> zlen k = 4) /\ snd p <> [].

Lemma recv_frames_ok client max_size op0 fop data parts rest fuel s :
  parts <> [] -> Forall (good_part client) parts -> (length parts <= fuel)%nat -> healthy s ->
  is_data_opcode fop -> op0 <> 0 \/ fop <> 0 ->
  zlen data + zlen (whole parts) < max_size -> max_size <= 2 ^ 31 ->
  incoming s = frames fop parts ++ rest ->
  exists s', recv_loop fuel client max_size op0 data (zlen data) s
    = Ret (Some (MkMessage (if op0 =? 0 then fop else op0) (data ++ whole parts))) s' /\ got rest s s'.
Proof.
  intros Hne Hgood. revert fuel s op0 fop data Hne. induction Hgood as [|[mk d] parts (Hcl & Hk & Hd) Hgood IH];
    intros fuel s op0 fop data Hne Hf Hh Hop Hz Hmax H31 Hi; [done|].
  destruct fuel as [|fuel]; [simpl in Hf; lia|]. cbn [recv_loop].
  unfold whole in *. cbn [map concat snd fst] in *. rewrite zlen_app in Hmax. pose proof (zlen_nonneg (concat (map snd parts))).
  assert ((if (op0 =? 0) && negb (fop =? CONTINUE) then fop else op0) = if op0 =? 0 then fop else op0) as Hopeq.
  { unfold CONTINUE. destruct (Z.eqb_spec op0 0), (Z.eqb_spec fop 0); simpl; lia. }
  destruct parts as [|p parts].
  - destruct (recv_round_ok client max_size op0 data fop true d mk rest s) as (s1 & -> & G1); try done; [lia|].
    cbn [obind]. unfold after_frame. cbn [opcode fin]. exists s1. rewrite Hopeq, app_nil_r. done.
  - change (frames fop ((mk, d) :: p :: parts)) with (frame fop false mk d ++ frames CONTINUE (p :: parts)) in Hi.
    rewrite <- app_assoc in Hi.
    destruct (recv_round_ok client max_size op0 data fop false d mk _ s Hh Hop Hcl Hk Hd ltac:(lia) H31 Hi) as (s1 & -> & G1).
    cbn [obind]. unfold after_frame. cbn [opcode fin]. rewrite Hopeq.
    rewrite <- zlen_app. destruct (IH fuel s1 (if op0 =? 0 then fop else op0) CONTINUE (data ++ d)) as (s2 & -> & G2);
      try done; try apply G1; [simpl in *; lia|by left|destruct (Z.eqb_spec op0 0); left; lia|rewrite zlen_app; lia|].
    exists s2. rewrite <- app_assoc. split; [|by eapply got_trans].
    destruct (Z.eqb_spec op0 0) as [E|E].
    + by destruct (Z.eqb_spec fop 0); [lia|].
    + by destruct (Z.eqb_spec op0 0); [lia|].
Qed.

(** ** Sending *)
Lemma send_part_ok d s :
  healthy s -> zlen d < 2 ^ 64 -> d <> [] -> exists s', send_part d s = Ret true s' /\ sent d s s'.
Proof.
  intros Hh H64 Hd. unfold send_part. destruct (writeFixSize_ok d s Hh H64) as (s' & -> & Hs). cbn [obind].
  exists s'. split; [|done]. destruct (Z.eqb_spec (zlen d) 0) as [E|]; [|done].
  destruct d; [done|]. rewrite zlen_cons in E. pose proof (zlen_nonneg d). lia.
Qed.

Lemma send_length_ok size s :
  healthy s -> in_u 64 size -> exists s', send_length size s = Ret true s' /\ sent (length_bytes size) s s'.
Proof.
  intros Hh Hs. unfold send_length, length_bytes. rewrite !host_bytes_swap by lia.
  assert (sent [] s s) as Hnil by (split; [done|done|by rewrite app_nil_r]).
  destruct (payload_code size =? 126) eqn:E.
  - assert (be_bytes 2 (u16 size) = be_bytes 2 size) as ->.
    { unfold be_bytes. f_equal. exact (Codec.le_bytes_uw 2 size). }
    apply send_part_ok; [done|done|]. intros E'. apply (f_equal zlen) in E'. done.
  - destruct (payload_code size =? 127); [|by exists s].
    apply send_part_ok; [done|done|]. intros E'. apply (f_equal zlen) in E'. done.
Qed.

Definition key_of (client : bool) (rand_value : Z) : option str :=
  if client then Some (host_bytes 4 (u32 rand_value)) else None.

Lemma WSSendMessage_ok msg client f rand_value s :
  healthy s -> m_data msg <> [] -> zlen (m_data msg) < 2 ^ 31 - 2 ->
  exists msg' s', WSSendMessage msg client f rand_value s = Ret (zlen (m_data msg) + 2, msg') s'
    /\ sent (frame (m_opcode msg) f (key_of client rand_value) (m_data msg)) s s'.
Proof.
  intros Hh Hne Hsz. pose proof (zlen_nonneg (m_data msg)). destruct msg as [op d]. cbn [m_opcode m_data] in *.
  unfold WSSendMessage. cbn [m_opcode m_data].
  set (h := MkHead op false false false f (payload_code (zlen d)) client).
  destruct (send_part_ok (head_bytes h) s Hh) as (s1 & -> & S1); [done|done|]. cbn [obind negb].
  destruct (send_length_ok (zlen d) s1 (sn_healthy _ _ _ S1)) as (s2 & -> & S2); [fits|]. cbn [obind negb].
  set (mk := host_bytes 4 (u32 rand_value)).
  assert (exists s3, (if client then send_part mk s2 else Ret true s2) = Ret true s3
    /\ sent (default [] (key_of client rand_value)) s2 s3) as (s3 & -> & S3).
  { destruct client; simpl.
    - apply send_part_ok; [apply S2|unfold zlen, mk; rewrite length_host_bytes; lia|].
      intros E. apply (f_equal length) in E. unfold mk in E. by rewrite length_host_bytes in E.
    - exists s2. split; [done|]. split; [apply S2|done|by rewrite app_nil_r]. }
  cbn [obind negb].
  set (msg' := if client then MkMessage op (mask_from mk 0 d) else MkMessage op d).
  assert (m_data msg' = masked (key_of client rand_value) d) as Hmd by (unfold msg'; by destruct client).
  destruct (send_part_ok (m_data msg') s3 (sn_healthy _ _ _ S3)) as (s4 & -> & S4).
  { rewrite Hmd, zlen_masked. lia. }
  { rewrite Hmd. intros E. apply (f_equal zlen) in E. rewrite zlen_masked, zlen_nil in E.
    destruct d; [done|]. rewrite zlen_cons in E. pose proof (zlen_nonneg d). lia. }
  cbn [obind negb]. exists msg', s4. rewrite sw_small by (lia || unfold in_s; lia). split; [done|].
  unfold frame. rewrite Hmd in S4.
  assert (bool_decide (is_Some (key_of client rand_value)) = client) as -> by by destruct client.
  eapply sent_trans; [exact S1|]. eapply sent_trans; [exact S2|]. eapply sent_trans; [exact S3|exact S4].
Qed.

(** Sending one message in parts, each with the value [rand()] returns. *)
Fixpoint send_parts (client : bool) (op : Z) (parts : list (Z * str)) : M stream unit := fun s =>
  match parts with
  | [] => Ret tt s
  | [(rv, d)] => let* _, s := WSSendMessage (MkMessage op d) client true rv s in Ret tt s
  | (rv, d) :: parts => let* _, s := WSSendMessage (MkMessage op d) client false rv s in send_parts client CONTINUE parts s
  end.
Definition keyed (client : bool) (parts : list (Z * str)) : list (option str * str) :=
  map (fun p => (key_of client (fst p), snd p)) parts.

Lemma send_parts_ok client op parts s :
  healthy s -> Forall (fun p => snd p <> [] /\ zlen (snd p) < 2 ^ 31 - 2) parts ->
  exists s', send_parts client op parts s = Ret tt s' /\ sent (frames op (keyed client parts)) s s'.
Proof.
  intros Hh Hp. revert op s Hh. induction Hp as [|[rv d] parts [Hd Hl] Hp IH]; intros op s Hh.
  - exists s. split; [done|]. split; [done|done|by rewrite app_nil_r].
  - cbn [snd] in *. destruct parts as [|p parts].
    + destruct (WSSendMessage_ok (MkMessage op d) client true rv s Hh) as (m & s1 & E & S1); [done|done|].
      exists s1. cbn [send_parts]. rewrite E. done.
    + destruct (WSSendMessage_ok (MkMessage op d) client false rv s Hh) as (m & s1 & E & S1); [done|done|].
      destruct (IH CONTINUE s1 (sn_healthy _ _ _ S1)) as (s2 & E2 & S2).
      exists s2. split; [cbn [send_parts] in *; rewrite E; exact E2|]. exact (sent_trans _ _ _ _ _ S1 S2).
Qed.

Lemma keyed_good client parts :
  Forall (fun p => snd p <> [] /\ zlen (snd p) < 2 ^ 31 - 2) parts -> Forall (good_part (negb client)) (keyed client parts).
Proof.
  intros H. apply Forall_map. eapply Forall_impl; [exact H|]. intros [rv d] [Hd _]. simpl in *. split_and!; [|..|done].
  - destruct client; [right; simpl; eauto|by left].
  - intros k. unfold key_of. destruct client; [|done]. intros [= <-]. unfold zlen. by rewrite length_host_bytes.
Qed.

(** ** The size of what is received *)
Lemma zlen_resize data n : 0 <= n -> zlen (resize data n) = n.
Proof.
  intros. unfold resize. rewrite zlen_app. unfold zeros, zlen, ztake. rewrite length_take, length_replicate. lia.
Qed.

Lemma zlen_unmask data cur n mk :
  0 <= cur -> 0 <= n -> cur + n <= zlen data -> zlen (unmask data cur n mk) = zlen data.
Proof. intros. unfold unmask. rewrite !zlen_app, zlen_mask_from, zlen_ztake, zlen_zsub, zlen_zdrop by lia. lia. Qed.

(** The state of the loop: the counter is the size, below the limit. *)
Definition within (max_size : Z) (r : round) : Prop :=
  match r with
  | Break => True
  | Next _ data cur_len => cur_len = zlen data /\ zlen data < max_size
  | Finished msg => zlen (m_data msg) < max_size
  end.

Lemma recv_length_range h s r s' : 0 <= payload h < 128 -> recv_length h s = Ret r s' -> match r with Some n => in_u 64 n | None => True end.
Proof.
  intros Hp. unfold recv_length.
  assert (forall n v, (n = 2 \/ n = 8)%nat -> length v = n -> in_u 64 (Codec.byteSwapOnLittleEndian n (host_val v))) as Hr.
  { intros n v Hn Hv. assert (forall x, in_u (8 * Z.of_nat n) x -> in_u 64 x) as Hin.
    { intros x. unfold in_u. destruct Hn as [-> | ->]; simpl; lia. }
    unfold Codec.byteSwapOnLittleEndian. destruct BYTE_ORDER eqn:E; apply Hin.
    - unfold Codec.byteSwap. apply Codec.bswap_range.
    - rewrite <- Hv. apply HashUtil.host_val_range. }
  destruct (payload h =? 126).
  - intros (x & s1 & E & H)%obind_inv. injection H as <- <-. apply readFixSize_length in E; [|lia].
    destruct (fst x =? 0); [done|]. apply Hr; [by left|]. unfold zlen in E. simpl in E. lia.
  - destruct (payload h =? 127).
    + intros (x & s1 & E & H)%obind_inv. injection H as <- <-. apply readFixSize_length in E; [|lia].
      destruct (fst x =? 0); [done|]. apply Hr; [by right|]. unfold zlen in E. simpl in E. lia.
    + intros [= <- <-]. unfold in_u. lia.
Qed.

Lemma recv_data_within client max_size h op data s r s' :
  max_size <= 2 ^ 31 -> 0 <= payload h < 128 -> zlen data < max_size ->
  recv_data client max_size h op data (zlen data) s = Ret r s' -> within max_size r.
Proof.
  intros Hm Hp Hd. pose proof (zlen_nonneg data). unfold recv_data.
  destruct (_ && _); [by intros [= <- <-]|].
  intros (len & s1 & El & H1)%obind_inv. apply recv_length_range in El; [|done].
  destruct len as [len|]; [|by injection H1 as <- <-]. unfold in_u in El. rewrite (uw_small 64 (zlen data)) in H1 by fits.
  destruct (Z.leb_spec max_size (u64 (zlen data + len))); [by injection H1 as <- <-|].
  apply obind_inv in H1 as (mk & s2 & _ & H2). destruct (fst mk =? 0); [by injection H2 as <- <-|].
  pose proof (uw_range 64 (zlen data + len) ltac:(lia)) as [Hu _].
  rewrite zlen_resize in H2 by done. destruct (Z.ltb_spec (u64 (zlen data + len)) (zlen data)) as [|Hge]; [done|].
  assert (u64 (zlen data + len) = zlen data + len) as Hlen.
  { destruct (Z.lt_ge_cases (zlen data + len) (2 ^ 64)); [apply uw_small; unfold in_u; lia|]. exfalso. revert Hge.
    unfold uw. replace (zlen data + len) with (zlen data + len - 2 ^ 64 + 1 * 2 ^ 64) by lia.
    rewrite Z.mod_add, Z.mod_small by lia. lia. }
  apply obind_inv in H2 as (x & s3 & Ex & H3). apply readFixSize_length in Ex; [|lia]. rewrite zlen_resize in Ex by done.
  destruct (fst x =? 0); [by injection H3 as <- <-|]. rewrite Hlen in *. rewrite !(sw_small 32) in H3 by (lia || unfold in_s; lia).
  assert (zlen (if mask h then unmask (snd x) (zlen data) (0 `max` len) (snd mk) else snd x) = zlen data + len) as Hz.
  { destruct (mask h); [rewrite zlen_unmask by lia|]; lia. }
  destruct (fin h); injection H3 as <- <-; simpl; lia.
Qed.

Lemma recv_round_within client max_size op data s r s' :
  max_size <= 2 ^ 31 -> zlen data < max_size ->
  recv_round client max_size op data (zlen data) s = Ret r s' -> within max_size r.
Proof.
  intros Hm Hd. unfold recv_round. intros (x & s1 & Ex & H1)%obind_inv.
  destruct (fst x =? 0); [by injection H1 as <- <-|].
  destruct (_ =? PING).
  { apply obind_inv in H1 as (v & s2 & _ & H2). destruct (v <=? 0); injection H2 as <- <-; done. }
  destruct (_ =? PONG); [by injection H1 as <- <-|]. destruct (_ || _); [|by injection H1 as <- <-].
  eapply recv_data_within; [done| |done|exact H1]. unfold head_of. destruct (snd x) as [|c0 [|c1 ?]]; simpl; try lia.
  apply Z.mod_pos_bound. lia.
Qed.

Lemma recv_loop_within fuel client max_size op data s msg s' :
  max_size <= 2 ^ 31 -> zlen data < max_size ->
  recv_loop fuel client max_size op data (zlen data) s = Ret (Some msg) s' -> zlen (m_data msg) < max_size.
Proof.
  intros Hm. revert op data s. induction fuel as [|fuel IH]; intros op data s Hd; cbn [recv_loop]; [done|].
  intros (r & s1 & Er & H1)%obind_inv. apply recv_round_within in Er; [|done|done].
  destruct r as [|op' data' cur|m]; [done| |by injection H1 as <- <-]. destruct Er as [-> Hlt]. by eapply IH.
Qed.

End with_platform.

(** ** Properties *)

(** C4. Message round trip across the wire: a text or binary message, sent by
    either side in any number of non-empty parts (masked by the client with
    whatever [rand()] returns) over a stream that takes the bytes in any
    portions, is received by the other side, on a stream that delivers the
    bytes in any chunks, as one message with the same opcode and data, and
    exactly the bytes of the message are consumed; on hosts of either byte
    order, for sizes below the configured limit. *)
Theorem ws_message_roundtrip `{PF : !Platform} (client : bool) (op max_size : Z) (parts : list (Z * str)) (s r : stream) (rest : str) :
  (op = TEXT_FRAME \/ op = BIN_FRAME) -> parts <> [] -> Forall (fun p => snd p <> []) parts ->
  zlen (concat (map snd parts)) < max_size -> max_size <= 2 ^ 31 - 2 ->
  healthy s -> healthy r ->
  exists s', send_parts client op parts s = Ret tt s' /\
  exists sent_bytes, s_out s' = s_out s ++ sent_bytes /\
  (incoming r = sent_bytes ++ rest ->
   exists r', WSRecvMessage (length parts) (negb client) max_size r = Ret (Some (MkMessage op (concat (map snd parts)))) r'
     /\ incoming r' = rest).
Proof.
  intros Hop Hne Hparts Hmax H31 Hs Hr.
  assert (Forall (fun p => snd p <> [] /\ zlen (snd p) < 2 ^ 31 - 2) parts) as Hgood.
  { clear Hne. revert Hmax. induction Hparts as [|p parts Hd Hparts IH]; [constructor|]. cbn [map concat]. rewrite zlen_app.
    pose proof (zlen_nonneg (snd p)). pose proof (zlen_nonneg (concat (map snd parts))). intros.
    constructor; [split; [done|lia]|apply IH; lia]. }
  destruct (send_parts_ok client op parts s Hs Hgood) as (s' & E & S). exists s'. split; [done|].
  exists (frames op (keyed client parts)). split; [apply S|]. intros Hi.
  assert (whole (keyed client parts) = concat (map snd parts)) as Hw by (unfold whole, keyed; by rewrite map_map).
  destruct (recv_frames_ok (negb client) max_size 0 op [] (keyed client parts) rest (length parts) r) as (r' & Er & G);
    try done; try lia.
  - by destruct parts.
  - by apply keyed_good.
  - unfold keyed. by rewrite length_map.
  - unfold is_data_opcode. tauto.
  - right. unfold TEXT_FRAME, BIN_FRAME in Hop. lia.
  - rewrite zlen_nil, Hw. lia.
  - exists r'. unfold WSRecvMessage. change 0 with (zlen (@nil byte)) at 2. rewrite Er, Hw. split; [done|apply G].
Qed.

Definition c25_sender : stream := MkStream [] [Accept 3; Accept 1] [] true.
Definition c25_parts : list (Z * str) := [(77, bs "hello "); (1234567, bs "world")].
Definition c25_bytes : str :=
  match @send_parts x86_64 true TEXT_FRAME c25_parts c25_sender with Ret _ s => s_out s | _ => [] end.
Definition c25_receiver : stream := MkStream [Data (ztake 5 c25_bytes); Data (zdrop 5 c25_bytes); Data (bs "!")] [] [] true.

Lemma ws_message_roundtrip_witness :
  exists r', @WSRecvMessage x86_64 2 false 1000 c25_receiver = Ret (Some (MkMessage TEXT_FRAME (bs "hello world"))) r'
    /\ incoming r' = bs "!".
Proof.
  destruct (@ws_message_roundtrip x86_64 true TEXT_FRAME 1000 c25_parts c25_sender c25_receiver (bs "!"))
    as (s' & E & b & Hb & H).
  - by left.
  - done.
  - repeat constructor; done.
  - vm_compute. reflexivity.
  - lia.
  - split; [constructor|repeat constructor|done].
  - split; [repeat constructor; vm_compute; discriminate|constructor|done].
  - apply H. vm_compute in E. injection E as <-. cbn [s_out c25_sender app] in Hb. rewrite <- Hb. vm_compute. reflexivity.
Defined.

(** C35. Whatever the peer sends, and however the transport fails, a message
    that [WSRecvMessage] returns is smaller than the configured maximum: the
    fragments together, not only each of them. *)
Theorem ws_received_size_bounded `{PF : !Platform} (fuel : nat) (client : bool) (max_size : Z) (s s' : stream) (msg : WSFrameMessage) :
  0 < max_size <= 2 ^ 31 -> WSRecvMessage fuel client max_size s = Ret (Some msg) s' -> zlen (m_data msg) < max_size.
Proof. intros Hm H. eapply (recv_loop_within fuel client max_size 0 []); [lia|rewrite zlen_nil; lia|exact H]. Qed.

Lemma ws_received_size_bounded_witness :
  exists msg s', @WSRecvMessage x86_64 2 false 1000 c25_receiver = Ret (Some msg) s' /\ zlen (m_data msg) < 1000.
Proof.
  eexists (MkMessage TEXT_FRAME (bs "hello world")), _.
  assert (@WSRecvMessage x86_64 2 false 1000 c25_receiver
    = Ret (Some (MkMessage TEXT_FRAME (bs "hello world"))) (MkStream [Data (bs "!")] [] [] true)) as E by (vm_compute; reflexivity).
  split; [exact E|]. exact (@ws_received_size_bounded x86_64 2 false 1000 _ _ _ ltac:(lia) E).
Defined.

(** What an accepted request is answered. *)
Lemma shake_accepts (SHA1 : HashUtil.Digest) (cast_int : str -> option Z) (req : Http.HttpRequest) :
  let key := Http.getHeader req (bs "Sec-WebSocket-Key") [] in
  Http.lower (Http.getHeader req (bs "Upgrade") []) = bs "websocket" ->
  Http.lower (Http.getHeader req (bs "Connection") []) = bs "upgrade" ->
  Http.getAs cast_int (Http.q_headers req) (bs "Sec-webSocket-Version") 0 = 13 -> key <> [] ->
  exists rsp, shake_response SHA1 cast_int req = Some (Http.setWebSocket true req, rsp)
       /\ Http.p_status rsp = 101 /\ Http.p_webSocket rsp = true
       /\ Http.p_getHeader rsp (bs "Upgrade") [] = bs "websocket"
       /\ Http.p_getHeader rsp (bs "Connection") [] = bs "Upgrade"
       /\ Http.p_getHeader rsp (bs "Sec-WebSocket-Accept") [] = HashUtil.b64 (HashUtil.sha1sum SHA1 (key ++ GUID)).
Proof.
  intros key O1 O2 O3 O4. unfold shake_response. fold key.
  assert (forall a b, StdString.strcasecmp a b = Eq <-> Http.lower a = Http.lower b) as Hc.
  { intros. unfold StdString.strcasecmp, Http.lower. apply StdString.compare_eq. }
  assert (HashUtil.base64encode (HashUtil.sha1sum SHA1 (key ++ GUID))
    = Ret (HashUtil.b64 (HashUtil.sha1sum SHA1 (key ++ GUID))) tt) as Eb by by apply HashUtil.encode_loop_ok.
  rewrite (bool_decide_true (_ = Eq)) by (by apply Hc). cbn [negb].
  rewrite (bool_decide_true (_ = Eq)) by (by apply Hc). rewrite O3. cbn [negb Z.eqb Pos.eqb].
  rewrite bool_decide_false by done. rewrite Eb. eexists. split; [done|]. split_and!; reflexivity.
Qed.

(** The opening handshake is RFC 6455: a request is accepted exactly when
    it asks for the upgrade, with version 13 and a key, and the answer then is
    [101] with the headers [Upgrade], [Connection] and
    [Sec-WebSocket-Accept], the last being the base64 form of the SHA-1 of
    the key followed by the fixed GUID. *)
Theorem handshake_is_rfc6455 (SHA1 : HashUtil.Digest) (cast_int : str -> option Z) (req : Http.HttpRequest) :
  let key := Http.getHeader req (bs "Sec-WebSocket-Key") [] in
  let ok := Http.lower (Http.getHeader req (bs "Upgrade") []) = bs "websocket"
    /\ Http.lower (Http.getHeader req (bs "Connection") []) = bs "upgrade"
    /\ Http.getAs cast_int (Http.q_headers req) (bs "Sec-webSocket-Version") 0 = 13 /\ key <> [] in
  (~ ok -> shake_response SHA1 cast_int req = None)
  /\ (ok -> exists rsp, shake_response SHA1 cast_int req = Some (Http.setWebSocket true req, rsp)
       /\ Http.p_status rsp = 101 /\ Http.p_webSocket rsp = true
       /\ Http.p_getHeader rsp (bs "Upgrade") [] = bs "websocket"
       /\ Http.p_getHeader rsp (bs "Connection") [] = bs "Upgrade"
       /\ Http.p_getHeader rsp (bs "Sec-WebSocket-Accept") [] = HashUtil.b64 (HashUtil.sha1sum SHA1 (key ++ GUID))).
Proof.
  intros key ok. unfold shake_response. fold key.
  assert (forall a b, StdString.strcasecmp a b = Eq <-> Http.lower a = Http.lower b) as Hc.
  { intros. unfold StdString.strcasecmp, Http.lower. apply StdString.compare_eq. }
  pose proof (Hc (Http.getHeader req (bs "Upgrade") []) (bs "websocket")) as H1.
  pose proof (Hc (Http.getHeader req (bs "Connection") []) (bs "Upgrade")) as H2.
  change (Http.lower (bs "websocket")) with (bs "websocket") in H1. change (Http.lower (bs "Upgrade")) with (bs "upgrade") in H2.
  split.
  - intros Hn. case_bool_decide as E1; cbn [negb]; [|done]. case_bool_decide as E2; cbn [negb]; [|done].
    destruct (Z.eqb_spec (Http.getAs cast_int (Http.q_headers req) (bs "Sec-webSocket-Version") 0) 13) as [E3|]; cbn [negb]; [|done].
    case_bool_decide as E4; [done|]. exfalso. apply Hn. unfold ok. tauto.
  - intros (O1 & O2 & O3 & O4). by apply shake_accepts.
Qed.

Definition c27_request : Http.HttpRequest :=
  Http.setHeader (bs "upgrade") (bs "WebSocket") (Http.setHeader (bs "connection") (bs "Upgrade")
    (Http.setHeader (bs "Sec-WebSocket-Version") (bs "13") (Http.setHeader (bs "Sec-WebSocket-Key") (bs "x3JJHMbDL1EzLkh9GBhXDw==")
      (Http.new_request 0x11 true)))).

Lemma handshake_accepts_example :
  exists rsp, shake_response HashUtil.toy_digest (fun s => Some (Ext.Atoi s)) c27_request
    = Some (Http.setWebSocket true c27_request, rsp) /\ Http.p_status rsp = 101.
Proof.
  destruct (handshake_is_rfc6455 HashUtil.toy_digest (fun s => Some (Ext.Atoi s)) c27_request) as [_ H].
  destruct H as (rsp & H1 & H2 & _); [|by exists rsp]. split_and!; try (vm_compute; reflexivity). vm_compute. discriminate.
Defined.

(** *** Behaviour outside those conditions *)

(** The sum [cur_len + length] wraps: after a first fragment, a second one
    that announces [2^64 - 1] bytes passes the size check and the payload is
    stored outside the string. *)
Definition overflow_attack : str :=
  frame TEXT_FRAME false (Some (zeros 4)) (bs "A")
  ++ head_bytes (MkHead CONTINUE false false false true 127 true) ++ be_bytes 8 (2 ^ 64 - 1) ++ zeros 4 ++ bs "payload".
Theorem ws_length_wraps_to_undefined :
  @WSRecvMessage x86_64 2 false (32 * 1024 * 1024) (MkStream [Data overflow_attack] [] [] true) = UB.
Proof. vm_compute. reflexivity. Qed.

(** An empty message cannot be sent: the connection is closed. *)
Theorem ws_empty_message_closes :
  value_of (@WSSendMessage x86_64 (MkMessage TEXT_FRAME []) false true 0 (MkStream [] [] [] true)) = Some (-1, MkMessage TEXT_FRAME []).
Proof. vm_compute. reflexivity. Qed.

(** The payload of a PING is not consumed but read as frames: here it carries
    a whole text message. *)
Theorem ws_ping_payload_is_parsed :
  value_of (@WSRecvMessage x86_64 5 true 1000
    (MkStream [Data (head_bytes (MkHead PING false false false true 4 false) ++ frame TEXT_FRAME true None (bs "hi"))] [] [] true))
  = Some (Some (MkMessage TEXT_FRAME (bs "hi"))).
Proof. vm_compute. reflexivity. Qed.

End WebSocket.
