(* ===== verification/Servlet.v ===== *)
(** * Servlets and their dispatch: [luwu/luwu/http/servlet.cpp] and [ws_servlet.cpp]

    A servlet works on the world of the program, which is a parameter, and on
    the request and response it shares with the server.  [fnmatch] belongs to
    the C library and is an argument of the dispatch. *)
From S2P Require Import Prelude StdString StdMap Http WebSocket.
Import Http WebSocket.
Local Open Scope Z_scope.

Module Servlet.

Section servlets.
(** The state that servlets change, and the session they talk to. *)
Context {W Session : Type}.

Definition callback : Type := HttpRequest -> HttpResponse -> Session -> M W (Z * (HttpRequest * HttpResponse)).

(** [WSServlet]: its three virtual functions. *)
Record WSServlet := MkWSServlet {
  onConnect : HttpRequest -> Session -> M W (Z * HttpRequest);
  onClose : HttpRequest -> Session -> M W (Z * HttpRequest);
  ws_handle : HttpRequest -> WSFrameMessage -> Session -> M W (Z * HttpRequest);
}.

(** An object of a class derived from [Servlet]. *)
Inductive servlet := Plain (name : str) (h : callback) | WS (name : str) (s : WSServlet).

Definition getName (s : servlet) : str := match s with Plain n _ => n | WS n _ => n end.

(** [Servlet::handle]; a [WSServlet] answers 0 to plain HTTP. *)
Definition handle (s : servlet) : callback :=
  match s with
  | Plain _ h => h
  | WS _ _ => fun request response _ => mret (0, (request, response))
  end.

Definition FunctionServlet (cb : callback) : servlet := Plain (bs "FunctionServlet") cb.

(** [FunctionWSServlet]: a missing callback answers 0. *)
Definition FunctionWSServlet (cb : option (HttpRequest -> WSFrameMessage -> Session -> M W (Z * HttpRequest)))
    (connect_cb close_cb : option (HttpRequest -> Session -> M W (Z * HttpRequest))) : servlet :=
  WS (bs "FunctionWSServlet") {|
    onConnect header session := match connect_cb with Some f => f header session | None => mret (0, header) end;
    onClose header session := match close_cb with Some f => f header session | None => mret (0, header) end;
    ws_handle header msg session := match cb with Some f => f header msg session | None => mret (0, header) end;
  |}.

(** ** [ServletNotFound] *)
Definition NOT_FOUND : Z := 404.
Definition not_found_content (page : str) : str :=
  bs "<html><head><title>404 Not Found</title></head><body><center><h1>404 Not Found</h1></center><hr><center>"
  ++ page ++ bs "</center></body></html>".
Definition not_found_handle (page : str) : callback := fun request response _ =>
  let response := setStatus NOT_FOUND response in
  let response := p_setHeader (bs "Server") (bs "luwu/1.0.0") response in
  let response := p_setHeader (bs "Content-Type") (bs "text/html") response in
  let response := p_setBody (not_found_content page) response in
  mret (0, (request, response)).
Definition ServletNotFound (page : str) : servlet := Plain (bs "ServletNotFound") (not_found_handle page).

(** ** [ServletDispatch]

    A [shared_ptr<Servlet>] is an [option servlet]. *)
Record dispatch := MkDispatch {
  m_data : gmap str (option servlet);
  m_glob : list (str * option servlet);
  m_default : option servlet;
}.

Definition ServletDispatch : dispatch := MkDispatch ∅ [] (Some (ServletNotFound (bs "luwu/1.0.0"))).

Context (fnmatch : str -> str -> bool).

Definition getServlet (d : dispatch) (uri : str) : option servlet :=
  match m_data d !! uri with Some s => s | None => None end.

Fixpoint find_glob (test : str -> bool) (l : list (str * option servlet)) : option (option servlet) :=
  match l with [] => None | (u, s) :: l => if test u then Some s else find_glob test l end.

Definition getGlobServlet (d : dispatch) (uri : str) : option servlet :=
  match find_glob (fun u => bool_decide (u = uri)) (m_glob d) with Some s => s | None => None end.

Definition getMatchedServlet (d : dispatch) (uri : str) : option servlet :=
  match m_data d !! uri with
  | Some s => s
  | None => match find_glob (fun u => fnmatch (StdString.c_str u) (StdString.c_str uri)) (m_glob d) with
            | Some s => s
            | None => m_default d
            end
  end.

(** The first entry of [uri] is erased. *)
Fixpoint erase_glob (uri : str) (l : list (str * option servlet)) : list (str * option servlet) :=
  match l with
  | [] => []
  | (u, s) :: l => if bool_decide (u = uri) then l else (u, s) :: erase_glob uri l
  end.

Definition addServlet (uri : str) (s : option servlet) (d : dispatch) : dispatch :=
  MkDispatch (<[uri := s]> (m_data d)) (m_glob d) (m_default d).
Definition addServlet_fn (uri : str) (cb : callback) (d : dispatch) : dispatch :=
  addServlet uri (Some (FunctionServlet cb)) d.
Definition addGlobServlet (uri : str) (s : option servlet) (d : dispatch) : dispatch :=
  MkDispatch (m_data d) (erase_glob uri (m_glob d) ++ [(uri, s)]) (m_default d).
Definition addGlobServlet_fn (uri : str) (cb : callback) (d : dispatch) : dispatch :=
  addGlobServlet uri (Some (FunctionServlet cb)) d.
Definition delServlet (uri : str) (d : dispatch) : dispatch :=
  MkDispatch (delete uri (m_data d)) (m_glob d) (m_default d).
Definition delGlobServlet (uri : str) (d : dispatch) : dispatch :=
  MkDispatch (m_data d) (erase_glob uri (m_glob d)) (m_default d).
Definition setDefault (s : option servlet) (d : dispatch) : dispatch := MkDispatch (m_data d) (m_glob d) s.

(** [ServletDispatch::handle]. *)
Definition dispatch_handle (d : dispatch) : callback := fun request response session =>
  match getMatchedServlet d (q_path request) with
  | Some s => handle s request response session
  | None => mret (-1, (request, response))
  end.

(** [WSServletDispatch]: the servlet if it is a [WSServlet]. *)
Definition getWSServlet (d : dispatch) (uri : str) : option WSServlet :=
  match getMatchedServlet d uri with Some (WS _ s) => Some s | _ => None end.

(** ** The registrations as a history *)
Inductive op :=
| AddServlet (uri : str) (s : option servlet)
| AddGlob (uri : str) (s : option servlet)
| DelServlet (uri : str)
| DelGlob (uri : str)
| SetDefault (s : option servlet).

Definition apply_op (d : dispatch) (o : op) : dispatch :=
  match o with
  | AddServlet u s => addServlet u s d
  | AddGlob u s => addGlobServlet u s d
  | DelServlet u => delServlet u d
  | DelGlob u => delGlobServlet u d
  | SetDefault s => setDefault s d
  end.
Definition replay (h : list op) : dispatch := fold_left apply_op h ServletDispatch.

(** The specification reads the history only: an exact registration is live
    when it is the last operation on its URI; a glob registration likewise,
    and live globs are tried in the order in which they were registered. *)
Definition touches_glob (u : str) (o : op) : bool :=
  match o with AddGlob u' _ => bool_decide (u' = u) | DelGlob u' => bool_decide (u' = u) | _ => false end.
Fixpoint live_exact (u : str) (h : list op) : option (option servlet) :=
  match h with
  | [] => None
  | o :: h =>
      match live_exact u h with
      | Some s => Some s
      | None =>
          match o with
          | AddServlet u' s =>
              if bool_decide (u' = u) && negb (existsb (fun o => match o with DelServlet u'' => bool_decide (u'' = u) | _ => false end) h)
              then Some s else None
          | _ => None
          end
      end
  end.
Fixpoint live_globs (h : list op) : list (str * option servlet) :=
  match h with
  | [] => []
  | AddGlob u s :: h => if existsb (touches_glob u) h then live_globs h else (u, s) :: live_globs h
  | _ :: h => live_globs h
  end.
Fixpoint live_default (dflt : option servlet) (h : list op) : option servlet :=
  match h with [] => dflt | SetDefault s :: h => live_default s h | _ :: h => live_default dflt h end.

Definition resolve (uri : str) (h : list op) : option servlet :=
  match live_exact uri h with
  | Some s => s
  | None => match List.find (fun g => fnmatch (StdString.c_str (fst g)) (StdString.c_str uri)) (live_globs h) with
            | Some g => snd g
            | None => live_default (Some (ServletNotFound (bs "luwu/1.0.0"))) h
            end
  end.

(** *** Lemmas *)
Lemma erase_glob_id u l : (forall s, (u, s) ∉ l) -> erase_glob u l = l.
Proof.
  induction l as [|[u' s] l IH]; intros H; [done|]. simpl. case_bool_decide as E.
  - subst. exfalso. apply (H s). by left.
  - f_equal. apply IH. intros s' Hs. apply (H s'). by right.
Qed.

Lemma elem_of_erase_glob u l x : x ∈ erase_glob u l -> x ∈ l.
Proof.
  induction l as [|[u' s] l IH]; simpl; [done|]. case_bool_decide; rewrite elem_of_cons; [auto|].
  rewrite elem_of_cons. naive_solver.
Qed.

Lemma existsb_snoc {A} (f : A -> bool) l x : existsb f (l ++ [x]) = existsb f l || f x.
Proof. rewrite existsb_app. simpl. by rewrite orb_false_r. Qed.

(** A live glob entry has its URI in the history. *)
Lemma live_globs_touched h u s : (u, s) ∈ live_globs h -> existsb (touches_glob u) h = true.
Proof.
  induction h as [|o h IH]; simpl; [intros H; by apply not_elem_of_nil in H|].
  intros H. apply orb_true_iff.
  destruct o as [u' s'|u' s'|u'|u'|s']; simpl; auto.
  destruct (existsb (touches_glob u') h) eqn:E; [auto|].
  apply elem_of_cons in H as [[= <- <-]|H]; [left; by rewrite bool_decide_true|auto].
Qed.

Lemma live_globs_NoDup h : NoDup (live_globs h).*1.
Proof.
  induction h as [|o h IH]; [constructor|].
  destruct o as [u s|u s|u|u|s]; simpl; try done.
  destruct (existsb (touches_glob u) h) eqn:E; [done|].
  simpl. constructor; [|done]. intros ([u' s'] & -> & Hin)%list_elem_of_fmap.
  apply live_globs_touched in Hin. simpl in *. congruence.
Qed.

Lemma live_globs_snoc_glob u os h o :
  (forall u', touches_glob u' o = bool_decide (u = u')) ->
  live_globs [o] = os ->
  live_globs (h ++ [o]) = erase_glob u (live_globs h) ++ os.
Proof.
  intros Ht <-. induction h as [|o' h IH]; [done|].
  assert (forall u', existsb (touches_glob u') (h ++ [o]) = existsb (touches_glob u') h || bool_decide (u = u')) as Hex.
  { intros u'. by rewrite existsb_snoc, Ht. }
  destruct o' as [u' s'|u' s'|u'|u'|s']; cbn [app live_globs]; rewrite ?IH; try done.
  rewrite Hex. destruct (existsb (touches_glob u') h) eqn:E; [done|]. simpl.
  case_bool_decide as Eu.
  - subst u'. rewrite bool_decide_true by done. f_equal. apply erase_glob_id. intros s Hs.
    apply live_globs_touched in Hs. congruence.
  - by rewrite bool_decide_false by congruence.
Qed.

Lemma live_globs_snoc_other h o :
  (forall u', touches_glob u' o = false) -> live_globs (h ++ [o]) = live_globs h.
Proof.
  intros Ht. induction h as [|o' h IH].
  - destruct o as [| u s | | |]; try done. specialize (Ht u). simpl in Ht. by rewrite bool_decide_true in Ht.
  - destruct o' as [u s|u s|u|u|s]; cbn [app live_globs]; rewrite ?IH; try done.
    by rewrite existsb_snoc, Ht, orb_false_r.
Qed.

Lemma live_default_snoc dflt h o :
  live_default dflt (h ++ [o]) = match o with SetDefault s => s | _ => live_default dflt h end.
Proof. revert dflt. induction h as [|o' h IH]; intros dflt; [by destruct o|]. destruct o'; simpl; apply IH. Qed.

Lemma live_exact_snoc u h o :
  live_exact u (h ++ [o]) =
    match o with
    | AddServlet u' s => if bool_decide (u' = u) then Some s else live_exact u h
    | DelServlet u' => if bool_decide (u' = u) then None else live_exact u h
    | _ => live_exact u h
    end.
Proof.
  induction h as [|o' h IH]; simpl.
  - destruct o; simpl; try done; case_bool_decide; done.
  - rewrite IH, existsb_snoc. destruct o as [u1 s1|u1 s1|u1|u1|s1]; simpl; rewrite ?orb_false_r; try done;
      case_bool_decide as E; rewrite ?orb_true_r, ?orb_false_r; try done.
    destruct o'; try done. by rewrite andb_false_r.
Qed.

(** The fields of the dispatch are those of the specification. *)
Lemma replay_live h :
  (forall u, m_data (replay h) !! u = live_exact u h) /\ m_glob (replay h) = live_globs h
  /\ m_default (replay h) = live_default (m_default ServletDispatch) h.
Proof.
  unfold replay. induction h as [|o h IH] using rev_ind; [done|].
  rewrite fold_left_app. simpl. destruct IH as (H1 & H2 & H3).
  destruct o as [u s|u s|u|u|s]; cbn [apply_op addServlet addGlobServlet delServlet delGlobServlet setDefault m_data m_glob m_default];
    rewrite ?H2, ?H3, live_default_snoc; (split_and!; [intros u'; rewrite live_exact_snoc, <- ?H1|..]); try done.
  - case_bool_decide as E; [subst; apply lookup_insert_eq|by rewrite lookup_insert_ne].
  - by rewrite live_globs_snoc_other.
  - symmetry. by apply (live_globs_snoc_glob u).
  - case_bool_decide as E; [subst; apply lookup_delete_eq|by rewrite lookup_delete_ne].
  - by rewrite live_globs_snoc_other.
  - symmetry. rewrite <- (app_nil_r (erase_glob u _)). by apply (live_globs_snoc_glob u).
  - by rewrite live_globs_snoc_other.
Qed.
End servlets.

(** C34. However servlets are registered, replaced and removed, a request
    goes to the live exact registration of its path; failing that, to the
    first live glob (in order of registration, a re-registered one counting
    as new) whose pattern matches; failing that, to the default.  Each glob
    has one registration at most, and the dispatch runs the servlet found or
    answers -1 if it is null. *)
Theorem dispatch_resolution {W Session : Type} (fnmatch : str -> str -> bool) (h : list (@op W Session))
    (request : HttpRequest) (response : HttpResponse) (session : Session) :
  getMatchedServlet fnmatch (replay h) (q_path request) = resolve fnmatch (q_path request) h
  /\ NoDup (m_glob (replay h)).*1
  /\ dispatch_handle fnmatch (replay h) request response session
       = match resolve fnmatch (q_path request) h with
         | Some s => handle s request response session
         | None => mret (-1, (request, response))
         end.
Proof.
  destruct (replay_live h) as (H1 & H2 & H3).
  assert (getMatchedServlet fnmatch (replay h) (q_path request) = resolve fnmatch (q_path request) h) as E.
  { unfold getMatchedServlet, resolve. rewrite H1, H2, H3. destruct (live_exact _ h); [done|].
    generalize (live_globs h) as l. induction l as [|[u s] l IH]; simpl; [done|]. by destruct (fnmatch _ _). }
  split_and!; [done|rewrite H2; apply live_globs_NoDup|]. unfold dispatch_handle. by rewrite E.
Qed.

Definition c28_history : list (@op unit unit) :=
  [AddGlob (bs "/a/*") (Some (ServletNotFound (bs "first"))); AddGlob (bs "/*") (Some (ServletNotFound (bs "second")));
   AddServlet (bs "/a/x") None; AddGlob (bs "/a/*") (Some (ServletNotFound (bs "third"))); DelServlet (bs "/a/x")].

(** Registering a glob again moves it behind the others: with both patterns
    matching, the request goes to the second registration. *)
Theorem reregistered_glob_is_last :
  getMatchedServlet (fun _ _ => true) (replay c28_history) (bs "/a/x") = Some (ServletNotFound (bs "second")).
Proof. reflexivity. Qed.

(** A matching glob that is not a WebSocket servlet hides the later ones, and
    the default servlet is no WebSocket servlet: the lookup answers null. *)
Theorem default_is_not_ws uri : getWSServlet (W := unit) (Session := unit) (fun _ _ => false) (replay []) uri = None.
Proof. reflexivity. Qed.

End Servlet.
