(* ===== verification/HttpParser.v ===== *)
(** * Parsing HTTP messages: [luwu/luwu/http/http_parser.cpp],
      [HttpSession] and [HttpConnection::recvResponse]

    [http_parser_execute] of the bundled C parser is the interface [CParser]: it
    is fed a buffer and reports callbacks; [HttpMachineSafety.c_parser] is the
    parser itself.  Its [http_parser_parse_url] is the one of [UrlParser].  The
    callbacks, the two parser objects that collect a message from them, and the
    loops that fill the buffer from a stream are modelled here. *)
From S2P Require Import Prelude StdString StdMap UrlParser Http Stream.
Import Http Stream.
Local Open Scope Z_scope.

Module HttpParser.

(** ** The C parser *)

(** A callback with its data and the fields of [http_parser] it reads. *)
Inductive event :=
| MessageBegin
| Url (buf : str)
| Status (status_code : Z) (buf : str)
| HeaderField (buf : str)
| HeaderValue (buf : str)
| HeadersComplete (http_major http_minor method status_code : Z)
| Body (buf : str)
| MessageComplete
| ChunkHeader
| ChunkComplete.

Class CParser := {
  hp_state : Type;
  hp_init_request : hp_state;
  hp_init_response : hp_state;
  (** The callbacks of a buffer, the state behind it and the number of bytes
      consumed, when every callback returns 0. *)
  hp_run : hp_state -> str -> list event * hp_state * Z;
  (** The same when the [n]-th callback returned something else. *)
  hp_stopped : hp_state -> str -> nat -> hp_state * Z;
  hp_upgrade : hp_state -> bool;
  hp_errno : hp_state -> Z;
}.

(** What the parser promises of the number of bytes it consumed; on an empty
    buffer it may report 1. *)
Class CParserLaws (H : CParser) : Prop := {
  hp_run_bound st d : d <> [] -> let '(_, _, n) := hp_run st d in 0 <= n <= zlen d;
  hp_stopped_bound st d i : d <> [] -> 0 <= snd (hp_stopped st d i) <= zlen d;
}.

(** The last entry of [HTTP_ERRNO_MAP]. *)
Definition HPE_UNKNOWN : Z := 32.

Section parser.
Context `{CP : CParser}.

(** ** Requests *)
Record HttpRequestParser := MkRequestParser {
  rq_parser : hp_state;
  rq_data : HttpRequest;
  rq_error : Z;
  rq_finished : bool;
  rq_filed : str;
}.
Definition new_request_parser : HttpRequestParser :=
  MkRequestParser hp_init_request (new_request 0x11 true) 0 false [].

Definition rq_with_data (f : HttpRequest -> HttpRequest) (p : HttpRequestParser) : HttpRequestParser :=
  MkRequestParser (rq_parser p) (f (rq_data p)) (rq_error p) (rq_finished p) (rq_filed p).
Definition rq_setFiled (s : str) (p : HttpRequestParser) : HttpRequestParser :=
  MkRequestParser (rq_parser p) (rq_data p) (rq_error p) (rq_finished p) s.
Definition rq_setFinished (p : HttpRequestParser) : HttpRequestParser :=
  MkRequestParser (rq_parser p) (rq_data p) (rq_error p) true (rq_filed p).
Definition rq_setError (e : Z) (p : HttpRequestParser) : HttpRequestParser :=
  MkRequestParser (rq_parser p) (rq_data p) e (rq_finished p) (rq_filed p).

(** [std::string(buf + off, len)] for a field that is set. *)
Definition field (buf : str) (f : option (Z * Z)) (set : str -> HttpRequest -> HttpRequest) (r : HttpRequest) : HttpRequest :=
  match f with Some (off, len) => set (zsub off len buf) r | None => r end.

Definition on_request_url_cb (buf : str) (p : HttpRequestParser) : Z * HttpRequestParser :=
  match UrlParser.http_parser_parse_url buf false with
  | None => (1, p)
  | Some u =>
      (0, rq_with_data (fun r =>
            field buf (u !! UrlParser.UF_FRAGMENT) setFragment
              (field buf (u !! UrlParser.UF_QUERY) setQuery (field buf (u !! UrlParser.UF_PATH) setPath r))) p)
  end.

(** The callbacks of [httpParserSettings1]: the result and the parser. *)
Definition on_request (e : event) (p : HttpRequestParser) : Z * HttpRequestParser :=
  match e with
  | MessageBegin | Status _ _ | ChunkHeader | ChunkComplete => (0, p)
  | Url buf => on_request_url_cb buf p
  | HeaderField buf => (0, rq_setFiled buf p)
  | HeaderValue buf => (0, rq_with_data (setHeader (rq_filed p) buf) p)
  | HeadersComplete major minor method _ =>
      (0, rq_with_data (fun r => setMethod method (setVersion (Z.lor (Z.shiftl major 4) minor) r)) p)
  | Body buf => (0, rq_with_data (appendBody buf) p)
  | MessageComplete => (0, rq_setFinished p)
  end.

(** Callbacks run in order until one does not return 0; its number is given. *)
Fixpoint run_events {P} (cb : event -> P -> Z * P) (i : nat) (es : list event) (p : P) : option nat * P :=
  match es with
  | [] => (None, p)
  | e :: es => let '(rt, p) := cb e p in if rt =? 0 then run_events cb (S i) es p else (Some i, p)
  end.

(** [http_parser_execute] with the callbacks of a parser object. *)
Definition c_execute {P} (cb : event -> P -> Z * P) (st : hp_state) (data : str) (p : P) : hp_state * Z * P :=
  let '(es, st', n) := hp_run st data in
  match run_events cb 0 es p with
  | (None, p) => (st', n, p)
  | (Some i, p) => let '(st', n) := hp_stopped st data i in (st', n, p)
  end.

(** [HttpRequestParser::execute]: the number of parsed bytes, the parser and
    the buffer, with the rest moved to its front. *)
Definition rq_execute (data : str) (p : HttpRequestParser) : Z * HttpRequestParser * str :=
  let '(st, parsed, p) := c_execute on_request (rq_parser p) data p in
  let p := MkRequestParser st (rq_data p) (rq_error p) (rq_finished p) (rq_filed p) in
  if hp_upgrade st then (parsed, rq_setError HPE_UNKNOWN p, data)
  else if negb (hp_errno st =? 0) then (parsed, rq_setError (hp_errno st) p, data)
  else (parsed, p, if parsed <? zlen data then zdrop parsed data else data).

(** ** Responses *)
Record HttpResponseParser := MkResponseParser {
  rs_parser : hp_state;
  rs_data : HttpResponse;
  rs_error : Z;
  rs_finished : bool;
  rs_filed : str;
}.
Definition new_response_parser : HttpResponseParser :=
  MkResponseParser hp_init_response (new_response 0x11 true) 0 false [].
Definition rs_with_data (f : HttpResponse -> HttpResponse) (p : HttpResponseParser) : HttpResponseParser :=
  MkResponseParser (rs_parser p) (f (rs_data p)) (rs_error p) (rs_finished p) (rs_filed p).

(** The callbacks of [httpParserSettings2]. *)
Definition on_response (e : event) (p : HttpResponseParser) : Z * HttpResponseParser :=
  match e with
  | MessageBegin | Url _ | ChunkHeader | ChunkComplete => (0, p)
  | Status code _ => (0, rs_with_data (setStatus code) p)
  | HeaderField buf => (0, MkResponseParser (rs_parser p) (rs_data p) (rs_error p) (rs_finished p) buf)
  | HeaderValue buf => (0, rs_with_data (p_setHeader (rs_filed p) buf) p)
  | HeadersComplete major minor _ code =>
      (0, rs_with_data (fun r => setStatus code (p_setVersion (Z.lor (Z.shiftl major 4) minor) r)) p)
  | Body buf => (0, rs_with_data (p_appendBody buf) p)
  | MessageComplete => (0, MkResponseParser (rs_parser p) (rs_data p) (rs_error p) true (rs_filed p))
  end.

Definition rs_execute (data : str) (p : HttpResponseParser) : Z * HttpResponseParser * str :=
  let '(st, parsed, p) := c_execute on_response (rs_parser p) data p in
  let p := MkResponseParser st (rs_data p) (rs_error p) (rs_finished p) (rs_filed p) in
  if negb (hp_errno st =? 0)
  then (parsed, MkResponseParser st (rs_data p) (hp_errno st) (rs_finished p) (rs_filed p), data)
  else (parsed, p, if parsed <? zlen data then zdrop parsed data else data).
End parser.

(** ** The receiving loops

    [recvRequest] and [recvResponse] run the same loop over the interface of
    their parser. *)
Class MessageParser (P : Type) := {
  mp_execute : str -> P -> Z * P * str;
  mp_error : P -> Z;
  mp_finished : P -> bool;
}.
#[export] Instance request_message_parser `{CParser} : MessageParser HttpRequestParser :=
  {| mp_execute := rq_execute; mp_error := rq_error; mp_finished := rq_finished |}.
#[export] Instance response_message_parser `{CParser} : MessageParser HttpResponseParser :=
  {| mp_execute := rs_execute; mp_error := rs_error; mp_finished := rs_finished |}.

Section receive.
Context {P : Type} `{MP : !MessageParser P}.

(** [buf] holds the first [offset] bytes of the buffer of [bufferSize] bytes.
    Parsing more bytes than the buffer has is undefined. *)
Fixpoint receive_loop (fuel : nat) (bufferSize : Z) (p : P) (buf : str) (offset : Z) : M stream (option P) := fun s =>
  match fuel with
  | O => NoFuel
  | S fuel =>
      let* r, s := read (u64 (bufferSize - offset)) s in
      let '(len, d) := r in
      if len =? 0 then Ret None (close s) else
      let len := u64 (len + offset) in
      if bufferSize <? len then UB else
      let '(nparse, p, buf) := mp_execute (ztake len (buf ++ d)) p in
      if negb (mp_error p =? 0) then Ret None (close s) else
      let offset := u64 (len - nparse) in
      if offset =? bufferSize then Ret None (close s)
      else if mp_finished p then Ret (Some p) s
      else if bufferSize <? offset then UB
      else receive_loop fuel bufferSize p (ztake offset buf) offset s
  end.

(** What is left to receive bounds the number of rounds. *)
Definition pending (s : stream) : nat := sum_list_with (fun c => S (length (chunk_bytes c))) (s_in s).
Definition receive (bufferSize : Z) (p : P) : M stream (option P) := fun s =>
  receive_loop (S (pending s)) bufferSize p [] 0 s.
End receive.

Section sessions.
Context `{CP : CParser}.

(** [HttpSession::recvRequest] and [sendResponse]. *)
Definition recvRequest (bufferSize : Z) : M stream (option HttpRequest) := fun s =>
  let* p, s := receive bufferSize new_request_parser s in
  Ret (match p with Some p => Some (Http.init (rq_data p)) | None => None end) s.
Definition sendResponse (rsp : HttpResponse) : M stream Z := writeFixSize (p_dump rsp).

(** [HttpConnection::recvResponse] and [sendRequest]. *)
Definition recvResponse (bufferSize : Z) : M stream (option HttpResponse) := fun s =>
  let* p, s := receive bufferSize new_response_parser s in
  Ret (match p with Some p => Some (rs_data p) | None => None end) s.
Definition sendRequest (req : HttpRequest) : M stream Z := writeFixSize (dump req).
End sessions.

(** ** The messages that the callbacks build *)

(** The value of the last header with the name [k]. *)
Fixpoint last_value (k d : str) (hs : list (str * str)) : str :=
  match hs with [] => d | (f, v) :: hs => last_value k (if decide (lower f = lower k) then v else d) hs end.

Definition header_events (hs : list (str * str)) : list event :=
  flat_map (fun h => [HeaderField (fst h); HeaderValue (snd h)]) hs.

(** The text of a URL field, or its default. *)
Definition field_or (d buf : str) (f : option (Z * Z)) : str :=
  match f with Some (off, len) => zsub off len buf | None => d end.

(** The events of a body, whole or in chunks, and its bytes. *)
Definition is_body_event (e : event) : bool :=
  match e with Body _ | ChunkHeader | ChunkComplete => true | _ => false end.
Definition body_of (es : list event) : str := flat_map (fun e => match e with Body b => b | _ => [] end) es.

Lemma run_events_app {P} (cb : event -> P -> Z * P) i es es' p p' :
  run_events cb i es p = (None, p') -> run_events cb i (es ++ es') p = run_events cb (i + length es) es' p'.
Proof.
  revert i p. induction es as [|e es IH]; intros i p; simpl.
  - intros [= ->]. by rewrite Nat.add_0_r.
  - destruct (cb e p) as [rt q]. destruct (rt =? 0); [|done]. intros H. rewrite (IH _ _ H). f_equal. lia.
Qed.

Section assembled.
Context `{CP : CParser}.

Lemma run_request_headers i hs p :
  run_events on_request i (header_events hs) p
    = (None, MkRequestParser (rq_parser p) (fold_left (fun r h => setHeader (fst h) (snd h) r) hs (rq_data p))
               (rq_error p) (rq_finished p) (default (rq_filed p) (fst <$> last hs))).
Proof.
  revert i p. induction hs as [|[f v] hs IH]; intros i p; [by destruct p|]. cbn [header_events flat_map app run_events on_request on_response fst snd]. simpl (0 =? 0). cbv iota. fold (header_events hs). rewrite IH. cbn [rq_with_data rq_setFiled rs_with_data rq_parser rq_data rq_error rq_finished rq_filed rs_parser rs_data rs_error rs_finished rs_filed fold_left fst snd]. do 2 f_equal.
  rewrite last_cons. by destruct (last hs).
Qed.

Lemma run_request_body i es p :
  Forall (fun e => is_body_event e = true) es ->
  run_events on_request i es p
    = (None, MkRequestParser (rq_parser p) (appendBody (body_of es) (rq_data p)) (rq_error p) (rq_finished p) (rq_filed p)).
Proof.
  intros Hes. revert i p. induction Hes as [|e es He _ IH]; intros i p.
  - destruct p as [? [] ? ? ?]. simpl. unfold appendBody, setBody. simpl. by rewrite app_nil_r.
  - destruct e; try done; simpl; rewrite IH; simpl; [|done..].
    unfold appendBody, setBody. simpl. by rewrite app_assoc.
Qed.

Lemma run_response_headers i hs p :
  run_events on_response i (header_events hs) p
    = (None, MkResponseParser (rs_parser p) (fold_left (fun r h => p_setHeader (fst h) (snd h) r) hs (rs_data p))
               (rs_error p) (rs_finished p) (default (rs_filed p) (fst <$> last hs))).
Proof.
  revert i p. induction hs as [|[f v] hs IH]; intros i p; [by destruct p|]. cbn [header_events flat_map app run_events on_request on_response fst snd]. simpl (0 =? 0). cbv iota. fold (header_events hs). rewrite IH. cbn [rq_with_data rq_setFiled rs_with_data rq_parser rq_data rq_error rq_finished rq_filed rs_parser rs_data rs_error rs_finished rs_filed fold_left fst snd]. do 2 f_equal.
  rewrite last_cons. by destruct (last hs).
Qed.

Lemma run_response_body i es p :
  Forall (fun e => is_body_event e = true) es ->
  run_events on_response i es p
    = (None, MkResponseParser (rs_parser p) (p_appendBody (body_of es) (rs_data p)) (rs_error p) (rs_finished p) (rs_filed p)).
Proof.
  intros Hes. revert i p. induction Hes as [|e es He _ IH]; intros i p.
  - destruct p as [? [] ? ? ?]. simpl. unfold p_appendBody, p_setBody. simpl. by rewrite app_nil_r.
  - destruct e; try done; simpl; rewrite IH; simpl; [|done..].
    unfold p_appendBody, p_setBody. simpl. by rewrite app_assoc.
Qed.
End assembled.

(** The header maps after a list of headers. *)
Definition set_all (hs : list (str * str)) (m : MapType) : MapType :=
  fold_left (fun m h => massign (fst h) (snd h) m) hs m.

Lemma mfind_set_all hs m k d :
  msorted m -> default d (mfind k (set_all hs m)) = last_value k (default d (mfind k m)) hs.
Proof.
  revert m. induction hs as [|[f v] hs IH]; intros m Hm; [done|]. simpl. rewrite IH.
  - f_equal. unfold mfind, massign. rewrite (StdMap.lookup_assign CaseInsensitiveLess), equiv_lower by done.
    case_bool_decide; case_decide; done.
  - by apply (StdMap.assign_sorted CaseInsensitiveLess).
Qed.

(** *** The value of a header *)
Lemma last_value_app k d a b : last_value k d (a ++ b) = last_value k (last_value k d a) b.
Proof. revert d. induction a as [|[f v] a IH]; intros d; [done|apply IH]. Qed.
Lemma last_value_other k d hs : Forall (fun h => lower (fst h) <> lower k) hs -> last_value k d hs = d.
Proof. intros Hh. revert d. induction Hh as [|[f v] hs Hf _ IH]; intros d; [done|]. cbn [last_value]. rewrite decide_False by done. apply IH. Qed.
Lemma last_value_filter k d P hs :
  (forall h, lower (fst h) = lower k -> P h = true) -> last_value k d (List.filter P hs) = last_value k d hs.
Proof.
  intros HP. revert d. induction hs as [|[f v] hs IH]; intros d; [done|]. cbn [List.filter]. destruct (P (f, v)) eqn:E; cbn [last_value]; [apply IH|].
  rewrite decide_False by (intros Hl; by rewrite (HP (f, v) Hl) in E). apply IH.
Qed.
Lemma last_value_sorted k d m : msorted m -> last_value k d m = default d (mfind k m).
Proof.
  intros Hm. assert (forall hs, (forall f v, (f, v) ∈ hs -> lower f = lower k -> mfind k m = Some v) ->
    forall d, last_value k d hs = d \/ mfind k m = Some (last_value k d hs)) as Hall.
  { intros hs. induction hs as [|[f v] hs IH]; intros Hh d'; [by left|]. cbn [last_value]. case_decide as Hf.
    - right. destruct (IH ltac:(set_solver) v) as [->|]; [|done]. apply (Hh f); [set_solver|done].
    - apply IH. set_solver. }
  assert (forall f v, (f, v) ∈ m -> lower f = lower k -> mfind k m = Some v) as Hin.
  { intros f v Hv Hf. unfold mfind, StdMap.lookup. rewrite (proj2 (StdMap.find_spec CaseInsensitiveLess fst k m (f, v) Hm)); [done|].
    split; [done|]. rewrite equiv_lower. by apply bool_decide_eq_true. }
  destruct (mfind k m) as [w|] eqn:E.
  - unfold mfind, StdMap.lookup in E. apply fmap_Some in E as ([f v] & Ef & ->). apply (StdMap.find_spec CaseInsensitiveLess fst) in Ef as [He Hq]; [|done].
    rewrite equiv_lower in Hq. apply bool_decide_eq_true in Hq. apply list_elem_of_split in He as (a & b & ->). rewrite last_value_app. cbn [last_value fst snd] in *.
    rewrite decide_True by done. cbn. destruct (Hall b) with v as [->|Hb]; [intros f' v' Hv'; apply Hin; set_solver|done|]. congruence.
  - cbn. apply last_value_other. apply Forall_forall. intros [f v] Hv Hl. pose proof (Hin f v Hv Hl). congruence.
Qed.

Lemma set_all_request hs r :
  fold_left (fun r h => setHeader (fst h) (snd h) r) hs r = q_with_headers (set_all hs (q_headers r)) r.
Proof. revert r. induction hs as [|h hs IH]; intros r; [by destruct r|]. simpl. by rewrite IH. Qed.

Definition p_with_headers (m : MapType) (r : HttpResponse) : HttpResponse :=
  MkResponse (p_status r) (p_version r) (p_close r) (p_webSocket r) (p_body r) (p_reason r) m (p_cookies r).
Lemma set_all_response hs r :
  fold_left (fun r h => p_setHeader (fst h) (snd h) r) hs r = p_with_headers (set_all hs (p_headers r)) r.
Proof. revert r. induction hs as [|h hs IH]; intros r; [by destruct r|]. simpl. by rewrite IH. Qed.

(** ** What the receiving loop parses *)

(** What the loop relies on: the count is within the buffer, and without an
    error the unparsed rest is at its front. *)
Class MessageParserLaws (P : Type) `{MP : !MessageParser P} : Prop := {
  mp_bound d p : d <> [] -> let '(n, p', buf) := mp_execute d p in
    0 <= n <= zlen d /\ (mp_error p' = 0 -> ztake (zlen d - n) buf = zdrop n d);
}.

Lemma c_execute_bound `{CP : CParser, !CParserLaws CP} {P} (cb : event -> P -> Z * P) st d p :
  d <> [] -> let '(_, n, _) := c_execute cb st d p in 0 <= n <= zlen d.
Proof.
  intros Hd. unfold c_execute. pose proof (hp_run_bound st d Hd) as H1.
  destruct (hp_run st d) as [[es st'] n]. destruct (run_events cb 0 es p) as [[i|] q]; [|done].
  pose proof (hp_stopped_bound st d i Hd) as H2. by destruct (hp_stopped st d i).
Qed.

Lemma moved_rest n (d : str) : 0 <= n <= zlen d -> ztake (zlen d - n) (if n <? zlen d then zdrop n d else d) = zdrop n d.
Proof.
  intros Hn. destruct (Z.ltb_spec n (zlen d)).
  - apply ztake_all. rewrite zlen_zdrop; lia.
  - assert (n = zlen d) as -> by lia. rewrite Z.sub_diag, ztake_0. unfold zdrop. rewrite drop_ge; [done|unfold zlen; lia].
Qed.

#[export] Instance request_parser_laws `{CP : CParser, !CParserLaws CP} : MessageParserLaws HttpRequestParser.
Proof.
  constructor. intros d p Hd. unfold mp_execute, request_message_parser, rq_execute.
  pose proof (c_execute_bound on_request (rq_parser p) d p Hd) as Hb. destruct (c_execute _ _ _ _) as [[st n] q].
  destruct (hp_upgrade st); [by split|].
  destruct (Z.eqb_spec (hp_errno st) 0); simpl; split; try done. intros _. by apply moved_rest.
Qed.
#[export] Instance response_parser_laws `{CP : CParser, !CParserLaws CP} : MessageParserLaws HttpResponseParser.
Proof.
  constructor. intros d p Hd. unfold mp_execute, response_message_parser, rs_execute.
  pose proof (c_execute_bound on_response (rs_parser p) d p Hd) as Hb. destruct (c_execute _ _ _ _) as [[st n] q].
  destruct (Z.eqb_spec (hp_errno st) 0); simpl; split; try done. intros _. by apply moved_rest.
Qed.

Section received.
Context {P : Type} `{ML : !MessageParser P, !MessageParserLaws P}.

(** [fed p0 p c]: [p] is [p0] after it was run on some buffers without an
    error, and [c] is the sequence of all bytes it consumed. *)
Inductive fed (p0 : P) : P -> str -> Prop :=
| fed_nil : fed p0 p0 []
| fed_step p c d n p' buf :
    fed p0 p c -> mp_execute d p = (n, p', buf) -> mp_error p' = 0 -> fed p0 p' (c ++ ztake n d).

Definition no_error (s : stream) : Prop := Forall (fun c => c <> Err) (s_in s).

(** A read on such a stream ends it or takes some of its bytes. *)
Lemma read_no_error len s :
  no_error s -> s_connected s = true -> 0 < len ->
  exists n d s', read len s = Ret (n, d) s' /\ no_error s' /\ s_connected s' = true /\ 0 <= n <= len
    /\ n = zlen d /\ s_out s' = s_out s
    /\ (n <> 0 -> incoming s = d ++ incoming s' /\ (pending s' < pending s)%nat).
Proof.
  intros He Hc Hl. unfold read, no_error, incoming, pending in *. rewrite Hc. simpl negb. cbv iota.
  destruct (s_in s) as [|[d| |] r] eqn:E.
  - exists 0, [], s. rewrite E. split_and!; try done; lia.
  - apply Forall_cons in He as [_ He]. pose proof (zlen_nonneg d). destruct (Z.leb_spec (zlen d) len).
    + eexists _, _, _. split; [done|]. simpl. split_and!; try done; try lia. intros _. split; [done|]. lia.
    + eexists _, _, _. split; [done|]. simpl. split_and!; try done; try lia.
      * constructor; done.
      * rewrite zlen_ztake; lia.
      * intros _. split; [by rewrite app_assoc, ztake_zdrop|].
        assert (length (zdrop len d) < length d)%nat; [|lia].
        unfold zdrop. rewrite length_drop. unfold zlen in *. lia.
  - apply Forall_cons in He as [_ He]. eexists _, _, _. split; [done|]. simpl. split_and!; try done; lia.
  - apply Forall_cons in He as [? _]. done.
Qed.

Lemma receive_loop_ok fuel size p0 p buf offset c s :
  no_error s -> s_connected s = true -> 0 < size < 2 ^ 62 -> zlen buf = offset -> offset < size ->
  fed p0 p c -> (pending s < fuel)%nat ->
  exists r s', receive_loop fuel size p buf offset s = Ret r s' /\ s_out s' = s_out s
    /\ match r with
       | None => s_connected s' = false
       | Some p' => s_connected s' = true /\ mp_finished p' = true /\
           exists c' rest, fed p0 p' (c ++ c') /\ buf ++ incoming s = c' ++ rest ++ incoming s'
       end.
Proof.
  revert p buf offset c s. induction fuel as [|fuel IH]; intros p buf offset c s He Hc Hsz Hb Ho Hf Hp; [lia|].
  cbn [receive_loop]. pose proof (zlen_nonneg buf). rewrite uw_small by fits.
  destruct (read_no_error (size - offset) s) as (n & d & s1 & -> & He1 & Hc1 & Hn & -> & Ho1 & Hin); [done|done|lia|].
  cbn [obind]. cbv iota. destruct (Z.eqb_spec (zlen d) 0) as [|Hd]; [by exists None, (close s1)|].
  destruct (Hin Hd) as [Hinc Hpend]. clear Hin. rewrite uw_small by fits.
  destruct (Z.ltb_spec size (zlen d + offset)); [lia|].
  assert (ztake (zlen d + offset) (buf ++ d) = buf ++ d) as -> by (apply ztake_all; rewrite zlen_app; lia).
  assert (buf ++ d <> []) as Hne by (intros [_ ->]%app_nil; done).
  pose proof (mp_bound (buf ++ d) p Hne) as Hmb. destruct (mp_execute (buf ++ d) p) as [[np p'] buf'] eqn:Ex.
  destruct Hmb as [Hnp Hrest]. rewrite zlen_app in Hnp, Hrest.
  destruct (Z.eqb_spec (mp_error p') 0) as [Herr|]; cbn [negb]; [|by exists None, (close s1)].
  specialize (Hrest Herr). rewrite (uw_small 64) by fits.
  destruct (Z.eqb_spec (zlen d + offset - np) size); [by exists None, (close s1)|].
  pose proof (fed_step p0 p c (buf ++ d) np p' buf' Hf Ex Herr) as Hf'.
  replace (zlen d + offset - np) with (zlen buf + zlen d - np) by lia. rewrite Hrest.
  destruct (mp_finished p') eqn:Hfin.
  - exists (Some p'), s1. split_and!; try done. exists (ztake np (buf ++ d)), (zdrop np (buf ++ d)).
    split; [done|]. by rewrite (app_assoc (ztake _ _)), ztake_zdrop, Hinc, app_assoc.
  - destruct (Z.ltb_spec size (zlen buf + zlen d - np)); [lia|].
    destruct (IH p' (zdrop np (buf ++ d)) (zlen buf + zlen d - np) (c ++ ztake np (buf ++ d)) s1)
      as (r & s' & -> & Ho' & Hr); try done; try lia; [rewrite zlen_zdrop, zlen_app by (rewrite ?zlen_app; lia); lia|].
    exists r, s'. split; [done|]. split; [congruence|]. destruct r as [p''|]; [|done].
    destruct Hr as (? & ? & c' & rest & Hfed & Heq). split_and!; try done.
    exists (ztake np (buf ++ d) ++ c'), rest. split; [by rewrite app_assoc|].
    by rewrite <- app_assoc, <- Heq, app_assoc, ztake_zdrop, Hinc, app_assoc.
Qed.
End received.

(** ** Properties *)

(** The callbacks assemble the message they are given: from the events
    of a request line, headers and a body (whole or chunked) the request
    parser builds a finished request with that method, version, path, query
    and fragment, in which every header name has the value it was given last
    (names compared without case) and the body is the concatenation of its
    pieces; the response parser likewise, with the status of the head. *)
Theorem callbacks_assemble_message `{CP : CParser} (u : str) (fields : UrlParser.url)
    (hs : list (str * str)) (bs_ : list event) (major minor method code : Z) (reason : str) :
  UrlParser.http_parser_parse_url u false = Some fields ->
  Forall (fun e => is_body_event e = true) bs_ ->
  (exists p, run_events on_request 0 ([MessageBegin; Url u] ++ header_events hs
       ++ [HeadersComplete major minor method 0] ++ bs_ ++ [MessageComplete]) new_request_parser = (None, p)
    /\ rq_finished p = true /\ rq_error p = 0 /\ q_method (rq_data p) = method
    /\ q_version (rq_data p) = u8 (Z.lor (Z.shiftl major 4) minor)
    /\ (q_path (rq_data p), q_query (rq_data p), q_fragment (rq_data p)) 
        = (field_or (bs "/") u (fields !! UrlParser.UF_PATH), field_or [] u (fields !! UrlParser.UF_QUERY),
           field_or [] u (fields !! UrlParser.UF_FRAGMENT))
    /\ (forall k d, getHeader (rq_data p) k d = last_value k d hs)
    /\ q_body (rq_data p) = body_of bs_)
  /\ (exists p, run_events on_response 0 ([MessageBegin; Status code reason] ++ header_events hs
       ++ [HeadersComplete major minor 0 code] ++ bs_ ++ [MessageComplete]) new_response_parser = (None, p)
    /\ rs_finished p = true /\ rs_error p = 0 /\ p_status (rs_data p) = code
    /\ p_version (rs_data p) = u8 (Z.lor (Z.shiftl major 4) minor)
    /\ (forall k d, p_getHeader (rs_data p) k d = last_value k d hs)
    /\ p_body (rs_data p) = body_of bs_).
Proof.
  intros Hu Hb. split.
  - eexists. split.
    + cbn [app run_events on_request]. unfold on_request_url_cb. rewrite Hu. simpl (0 =? 0). cbv iota.
      rewrite (run_events_app _ _ _ _ _ _ (run_request_headers _ _ _)). cbn [app run_events on_request]. simpl (0 =? 0). cbv iota.
      rewrite (run_events_app _ _ _ _ _ _ (run_request_body _ _ _ Hb)). reflexivity.
    + cbn [rq_setFinished rq_with_data rq_data rq_finished rq_error new_request_parser]. rewrite set_all_request.
      destruct (fields !! UrlParser.UF_PATH) as [[]|], (fields !! UrlParser.UF_QUERY) as [[]|], (fields !! UrlParser.UF_FRAGMENT) as [[]|]; split_and!; try done; intros k d; apply (mfind_set_all hs [] k d); constructor.
  - eexists. split.
    + cbn [app run_events on_response]. simpl (0 =? 0). cbv iota.
      rewrite (run_events_app _ _ _ _ _ _ (run_response_headers _ _ _)). cbn [app run_events on_response]. simpl (0 =? 0). cbv iota.
      rewrite (run_events_app _ _ _ _ _ _ (run_response_body _ _ _ Hb)). reflexivity.
    + cbn [rs_with_data rs_data rs_finished rs_error new_response_parser]. rewrite set_all_response.
      split_and!; try done. intros k d. apply (mfind_set_all hs [] k d). constructor.
Qed.

(** A parser for the examples: a message is one line, which is its URL. *)
Definition line_run (st : unit) (d : str) : list event * unit * Z :=
  match StdString.find (z2b 10) d 0 with
  | Some i => ([MessageBegin; Url (ztake i d); MessageComplete], tt, i + 1)
  | None => ([], tt, 0)
  end.
Definition line_parser : CParser := {|
  hp_state := unit; hp_init_request := tt; hp_init_response := tt;
  hp_run := line_run;
  hp_stopped st d _ := (st, 0);
  hp_upgrade _ := false; hp_errno _ := 0;
|}.
#[export] Instance line_parser_laws : CParserLaws line_parser.
Proof.
  split; [|intros; simpl; pose proof (zlen_nonneg d); lia].
  intros st d. simpl. unfold line_run, StdString.find. pose proof (zlen_nonneg d).
  destruct (StdString.find_if_from _ d 0) as [i|] eqn:E; [|lia].
  apply StdString.find_if_from_some in E; [|lia]. lia.
Qed.

Definition c29_headers : list (str * str) := [(bs "Host", bs "a"); (bs "X-Id", bs "1"); (bs "HOST", bs "b")].
Lemma callbacks_assemble_message_witness :
  exists p, run_events (on_request (CP := line_parser)) 0
      ([MessageBegin; Url (bs "/chat")] ++ header_events c29_headers ++ [HeadersComplete 1 1 3 0]
       ++ [ChunkHeader; Body (bs "he"); ChunkComplete; Body (bs "y")] ++ [MessageComplete]) new_request_parser = (None, p)
    /\ q_path (rq_data p) = bs "/chat" /\ q_version (rq_data p) = 0x11
    /\ getHeader (rq_data p) (bs "host") [] = bs "b" /\ q_body (rq_data p) = bs "hey".
Proof.
  destruct (callbacks_assemble_message (CP := line_parser) (bs "/chat") {[UrlParser.UF_PATH := (0, 5)]}
    c29_headers [ChunkHeader; Body (bs "he"); ChunkComplete; Body (bs "y")] 1 1 3 200 [])
    as [(p & Hp & _ & _ & _ & Hv & Hpath & Hh & Hb) _]; [reflexivity|repeat constructor|].
  exists p. split; [exact Hp|]. injection Hpath as Hpath _ _. rewrite Hpath, Hv, Hh, Hb. by vm_compute.
Defined.

(** C27. [recvRequest] is safe and loses nothing in front of the message: on
    a connection that does not fail with an error, whatever its segmentation,
    the loop ends without overrunning its buffer, it closes the stream when
    it answers null, and otherwise the bytes that the parser consumed are,
    in order and without gap, the front of what the connection delivered. *)
Theorem recvRequest_safe `{CP : CParser, !CParserLaws CP} (bufferSize : Z) (s : stream) :
  no_error s -> s_connected s = true -> 0 < bufferSize < 2 ^ 62 ->
  exists r s', recvRequest bufferSize s = Ret r s' /\ s_out s' = s_out s
    /\ match r with
       | None => s_connected s' = false
       | Some q => exists p consumed rest, fed new_request_parser p consumed /\ rq_finished p = true
           /\ q = Http.init (rq_data p) /\ incoming s = consumed ++ rest ++ incoming s'
       end.
Proof.
  intros He Hc Hs.
  destruct (receive_loop_ok (S (pending s)) bufferSize new_request_parser new_request_parser [] 0 [] s)
    as (r & s' & E & Ho & Hr); try done; try lia; [apply fed_nil|].
  unfold recvRequest, receive. rewrite E. cbn [obind]. eexists _, _. split; [done|]. split; [done|].
  destruct r as [p|]; [|done]. destruct Hr as (_ & Hfin & c & rest & Hfed & Heq).
  exists p, c, rest. by split_and!.
Qed.

Definition c30_stream : stream := MkStream [Data (bs "/ch"); Data (bs "at" ++ [z2b 10] ++ bs "rest")] [] [] true.
Lemma recvRequest_safe_witness :
  exists r s', recvRequest (CP := line_parser) 64 c30_stream = Ret r s' /\ s_connected s' = true
    /\ (q_path <$> r) = Some (bs "/chat") /\ incoming s' = [].
Proof.
  destruct (@recvRequest_safe line_parser line_parser_laws 64 c30_stream) as (r & s' & E & _ & Hr);
    [repeat constructor; done|reflexivity|lia|].
  exists r, s'. vm_compute in E. injection E as <- <-. by vm_compute.
Defined.

(** *** Behaviour outside those conditions *)

(** A name that arrives in two pieces is reported in two callbacks, and only
    the second piece is kept; the same holds for values. *)
Theorem split_header_is_cut :
  exists p, run_events (on_request (CP := line_parser)) 0
      [HeaderField (bs "Content-"); HeaderField (bs "Type"); HeaderValue (bs "text/"); HeaderValue (bs "html")] new_request_parser
    = (None, p) /\ getHeader (rq_data p) (bs "Content-Type") (bs "missing") = bs "missing"
    /\ getHeader (rq_data p) (bs "Type") (bs "missing") = bs "html".
Proof. eexists. split; [reflexivity|]. by vm_compute. Qed.

(** A request that asks for an upgrade is an error for [execute]: the stream
    is closed and the handshake of a WebSocket gets no request. *)
Theorem upgrade_request_is_refused `{CP : CParser} (bufferSize : Z) (d : str) (r : list chunk) (wr : list accept) (out : str) :
  0 < zlen d <= bufferSize -> bufferSize < 2 ^ 62 ->
  (let '(st, _, _) := c_execute on_request hp_init_request d new_request_parser in hp_upgrade st = true) ->
  recvRequest bufferSize (MkStream (Data d :: r) wr out true) = Ret None (MkStream r wr out false).
Proof.
  intros Hd Hs Hu. unfold recvRequest, receive. cbn [receive_loop]. rewrite (uw_small 64 (bufferSize - 0)) by fits.
  cbn [read s_connected s_in negb]. destruct (Z.leb_spec (zlen d) (bufferSize - 0)); [|lia]. cbn [obind].
  destruct (Z.eqb_spec (zlen d) 0); [lia|]. rewrite (uw_small 64) by fits.
  destruct (Z.ltb_spec bufferSize (zlen d + 0)); [lia|]. rewrite Z.add_0_r, app_nil_l, ztake_all by lia.
  unfold mp_execute, request_message_parser, rq_execute.
  change (rq_parser new_request_parser) with hp_init_request. destruct (c_execute _ _ _ _) as [[st parsed] q].
  rewrite Hu. reflexivity.
Qed.

(** Bytes behind the message that were read with it are dropped with the
    buffer: a pipelined second request is lost. *)
Theorem pipelined_request_is_lost :
  exists q s', recvRequest (CP := line_parser) 64 (MkStream [Data (bs "/a" ++ [z2b 10] ++ bs "/b" ++ [z2b 10])] [] [] true) = Ret (Some q) s'
    /\ q_path q = bs "/a" /\ incoming s' = [].
Proof. eexists _, _. split; [vm_compute; reflexivity|]. done. Qed.

End HttpParser.
