(* ===== verification/HttpMachine.v ===== *)
(** * The bundled C parser: [http_parser_execute] of
      [luwu/luwu/http/http-parser/http_parser.c]

    The state machine over the bytes of a buffer, with [HTTP_PARSER_STRICT] and
    the default [max_header_size].  [p_state] and [nread], which the C function
    keeps in local variables and stores on every return, are the fields of the
    parser; positions are offsets into the buffer, a mark that is not set is
    [None].  The function is a program that emits events and goes on with the
    answers; [interp] runs it with callbacks on a state of their own.  A failed
    assertion and an access behind the end of a word are results of their own,
    which [execute_safe] shows are never reached. *)
From S2P Require Import Prelude StdString UrlParser Http Stream HttpParser.
Import StdString HttpParser.
Local Open Scope Z_scope.

Module HttpMachine.
#[local] Existing Instance UrlParser.state_eq_decision.

(** ** States *)
Inductive state :=
| s_start_req_or_res | s_res_or_resp_H
| s_start_res | s_res_H | s_res_HT | s_res_HTT | s_res_HTTP | s_res_http_major | s_res_http_dot | s_res_http_minor | s_res_http_end
| s_res_first_status_code | s_res_status_code | s_res_status_start | s_res_status | s_res_line_almost_done
| s_start_req | s_req_method
| s_url (u : UrlParser.state)  (* [s_dead], and [s_req_spaces_before_url] to [s_req_fragment] *)
| s_req_http_start | s_req_http_H | s_req_http_HT | s_req_http_HTT | s_req_http_HTTP | s_req_http_I | s_req_http_IC
| s_req_http_major | s_req_http_dot | s_req_http_minor | s_req_http_end | s_req_line_almost_done
| s_header_field_start | s_header_field | s_header_value_discard_ws | s_header_value_discard_ws_almost_done | s_header_value_discard_lws
| s_header_value_start | s_header_value | s_header_value_lws | s_header_almost_done
| s_chunk_size_start | s_chunk_size | s_chunk_parameters | s_chunk_size_almost_done
| s_headers_almost_done | s_headers_done
| s_chunk_data | s_chunk_data_almost_done | s_chunk_data_done | s_body_identity | s_body_identity_eof | s_message_done.
#[export] Instance state_eq_decision : EqDecision state.
Proof. solve_decision. Defined.

(** [state <= s_headers_done]. *)
Definition PARSING_HEADER (s : state) : bool :=
  match s with
  | s_chunk_data | s_chunk_data_almost_done | s_chunk_data_done | s_body_identity | s_body_identity_eof | s_message_done => false
  | _ => true
  end.

Inductive header_states :=
| h_general | h_C | h_CO | h_CON
| h_matching_connection | h_matching_proxy_connection | h_matching_content_length | h_matching_transfer_encoding | h_matching_upgrade
| h_connection | h_content_length | h_content_length_num | h_content_length_ws | h_transfer_encoding | h_upgrade
| h_matching_transfer_encoding_chunked | h_matching_connection_token_start | h_matching_connection_keep_alive
| h_matching_connection_close | h_matching_connection_upgrade | h_matching_connection_token
| h_transfer_encoding_chunked | h_connection_keep_alive | h_connection_close | h_connection_upgrade.
#[export] Instance header_states_eq_decision : EqDecision header_states.
Proof. solve_decision. Defined.

Inductive parser_type := HTTP_REQUEST | HTTP_RESPONSE | HTTP_BOTH.
#[export] Instance parser_type_eq_decision : EqDecision parser_type.
Proof. solve_decision. Defined.

(** The bits of [flags]. *)
Definition F_CHUNKED : Z := 0.
Definition F_CONNECTION_KEEP_ALIVE : Z := 1.
Definition F_CONNECTION_CLOSE : Z := 2.
Definition F_CONNECTION_UPGRADE : Z := 3.
Definition F_TRAILING : Z := 4.
Definition F_UPGRADE : Z := 5.
Definition F_SKIPBODY : Z := 6.
Definition F_CONTENTLENGTH : Z := 7.

(** [enum http_errno]. *)
Definition HPE_OK : Z := 0.
Definition HPE_CB (e : event) : Z :=
  match e with
  | MessageBegin => 1 | Url _ => 2 | HeaderField _ => 3 | HeaderValue _ => 4 | HeadersComplete _ _ _ _ => 5 | Body _ => 6
  | MessageComplete => 7 | Status _ _ => 8 | ChunkHeader => 9 | ChunkComplete => 10
  end.
Definition HPE_INVALID_EOF_STATE : Z := 11.
Definition HPE_HEADER_OVERFLOW : Z := 12.
Definition HPE_CLOSED_CONNECTION : Z := 13.
Definition HPE_INVALID_VERSION : Z := 14.
Definition HPE_INVALID_STATUS : Z := 15.
Definition HPE_INVALID_METHOD : Z := 16.
Definition HPE_INVALID_URL : Z := 17.
Definition HPE_LF_EXPECTED : Z := 23.
Definition HPE_INVALID_HEADER_TOKEN : Z := 24.
Definition HPE_INVALID_CONTENT_LENGTH : Z := 25.
Definition HPE_UNEXPECTED_CONTENT_LENGTH : Z := 26.
Definition HPE_INVALID_CHUNK_SIZE : Z := 27.
Definition HPE_INVALID_CONSTANT : Z := 28.
Definition HPE_STRICT : Z := 30.
Definition HPE_PAUSED : Z := 31.

(** ** Characters *)
Definition CR : byte := z2b 13.
Definition LF : byte := z2b 10.
Definition SP : byte := z2b 32.
Definition TAB : byte := z2b 9.
Definition eqc (a b : byte) : bool := bool_decide (a = b).
(** [TOKEN]: the lower case of a token character, or 0. *)
Definition is_token (c : byte) : bool := UrlParser.IS_ALPHANUM c || one_of (bs "!#$%&'*+-.^_`|~") c.
Definition TOKEN (c : byte) : Z := if is_token c then (if between 65 90 c then b2z c + 32 else b2z c) else 0.
Definition IS_HEADER_CHAR (c : byte) : bool :=
  eqc c CR || eqc c LF || (b2z c =? 9) || ((31 <? b2z c) && negb (b2z c =? 127)).
(** [unhex]; [None] is -1. *)
Definition unhex (c : byte) : option Z :=
  if between 48 57 c then Some (b2z c - 48)
  else if between 65 70 c then Some (b2z c - 55)
  else if between 97 102 c then Some (b2z c - 87)
  else None.
Definition lit (s : String.string) : Z := b2z (UrlParser.chr s).

Definition method_strings : list str :=
  map bs ["DELETE"; "GET"; "HEAD"; "POST"; "PUT"; "CONNECT"; "OPTIONS"; "TRACE"; "COPY"; "LOCK"; "MKCOL"; "MOVE"; "PROPFIND"; "PROPPATCH";
    "SEARCH"; "UNLOCK"; "BIND"; "REBIND"; "UNBIND"; "ACL"; "REPORT"; "MKACTIVITY"; "CHECKOUT"; "MERGE"; "M-SEARCH"; "NOTIFY"; "SUBSCRIBE";
    "UNSUBSCRIBE"; "PATCH"; "PURGE"; "MKCALENDAR"; "LINK"; "UNLINK"; "SOURCE"]%string.
Definition HTTP_CONNECT : Z := 5.
Definition HTTP_HEAD : Z := 2.
Definition HTTP_SOURCE : Z := 33.

(** The character of a C string at an index: NUL at its end, [None] behind it. *)
Definition c_at (w : str) (i : Z) : option Z :=
  if i <? 0 then None else match w !! Z.to_nat i with Some c => Some (b2z c) | None => if i =? zlen w then Some 0 else None end.

(** The method that the first letter of a request stands for. *)
Definition first_method (c : byte) : option Z :=
  snd <$> List.find (fun x => UrlParser.is_char (fst x) c)
    [("A", 19); ("B", 16); ("C", 5); ("D", 0); ("G", 1); ("H", 2); ("L", 9); ("M", 10); ("N", 25); ("O", 6); ("P", 3); ("R", 20); ("S", 26);
     ("T", 7); ("U", 15)]%string.
(** The methods that a later letter turns a method into. *)
Definition method_switch : list (Z * Z * String.string * Z) :=
  [(3, 1, "U", 4); (3, 1, "A", 28); (3, 1, "R", 12); (4, 2, "R", 29); (5, 1, "H", 22); (5, 2, "P", 8); (10, 1, "O", 11); (10, 1, "E", 23);
   (10, 1, "-", 24); (10, 2, "A", 21); (10, 3, "A", 30); (26, 1, "E", 14); (26, 1, "O", 33); (20, 2, "B", 17); (12, 4, "P", 13); (9, 1, "I", 31);
   (15, 2, "S", 27); (15, 2, "B", 18); (15, 3, "I", 32)]%string.
Definition next_method (m i : Z) (c : byte) : option Z :=
  snd <$> List.find (fun x => let '(m', i', s, _) := x in (m =? m') && (i =? i') && UrlParser.is_char s c) method_switch.

(** ** [struct http_parser] *)
Record http_parser := MkParser {
  type : parser_type;
  flags : Z;
  st : state;
  header_state : header_states;
  index : Z;
  nread : Z;
  content_length : Z;
  http_major : Z;
  http_minor : Z;
  status_code : Z;
  method : Z;
  http_errno : Z;
  upgrade : bool;
}.
Definition ULLONG_MAX : Z := 2 ^ 64 - 1.
Definition max_header_size : Z := 80 * 1024.

Definition set_type v x := MkParser v (flags x) (st x) (header_state x) (index x) (nread x) (content_length x) (http_major x) (http_minor x) (status_code x) (method x) (http_errno x) (upgrade x).
Definition set_flags v x := MkParser (type x) v (st x) (header_state x) (index x) (nread x) (content_length x) (http_major x) (http_minor x) (status_code x) (method x) (http_errno x) (upgrade x).
Definition set_st v x := MkParser (type x) (flags x) v (header_state x) (index x) (nread x) (content_length x) (http_major x) (http_minor x) (status_code x) (method x) (http_errno x) (upgrade x).
Definition set_header_state v x := MkParser (type x) (flags x) (st x) v (index x) (nread x) (content_length x) (http_major x) (http_minor x) (status_code x) (method x) (http_errno x) (upgrade x).
Definition set_index v x := MkParser (type x) (flags x) (st x) (header_state x) v (nread x) (content_length x) (http_major x) (http_minor x) (status_code x) (method x) (http_errno x) (upgrade x).
Definition set_nread v x := MkParser (type x) (flags x) (st x) (header_state x) (index x) v (content_length x) (http_major x) (http_minor x) (status_code x) (method x) (http_errno x) (upgrade x).
Definition set_content_length v x := MkParser (type x) (flags x) (st x) (header_state x) (index x) (nread x) v (http_major x) (http_minor x) (status_code x) (method x) (http_errno x) (upgrade x).
Definition set_major v x := MkParser (type x) (flags x) (st x) (header_state x) (index x) (nread x) (content_length x) v (http_minor x) (status_code x) (method x) (http_errno x) (upgrade x).
Definition set_minor v x := MkParser (type x) (flags x) (st x) (header_state x) (index x) (nread x) (content_length x) (http_major x) v (status_code x) (method x) (http_errno x) (upgrade x).
Definition set_status_code v x := MkParser (type x) (flags x) (st x) (header_state x) (index x) (nread x) (content_length x) (http_major x) (http_minor x) v (method x) (http_errno x) (upgrade x).
Definition set_method v x := MkParser (type x) (flags x) (st x) (header_state x) (index x) (nread x) (content_length x) (http_major x) (http_minor x) (status_code x) v (http_errno x) (upgrade x).
Definition set_errno v x := MkParser (type x) (flags x) (st x) (header_state x) (index x) (nread x) (content_length x) (http_major x) (http_minor x) (status_code x) (method x) v (upgrade x).
Definition set_upgrade v x := MkParser (type x) (flags x) (st x) (header_state x) (index x) (nread x) (content_length x) (http_major x) (http_minor x) (status_code x) (method x) (http_errno x) v.
Definition set_flag (f : Z) (x : http_parser) : http_parser := set_flags (Z.setbit (flags x) f) x.
Definition has (f : Z) (x : http_parser) : bool := Z.testbit (flags x) f.
Definition set_states (s : state) (h : header_states) (x : http_parser) : http_parser := set_st s (set_header_state h x).

Definition http_parser_init (t : parser_type) : http_parser :=
  MkParser t 0 match t with HTTP_REQUEST => s_start_req | HTTP_RESPONSE => s_start_res | HTTP_BOTH => s_start_req_or_res end
    h_general 0 0 0 0 0 0 0 HPE_OK false.

Definition http_message_needs_eof (x : http_parser) : bool :=
  match type x with
  | HTTP_REQUEST => false
  | _ =>
      if (status_code x / 100 =? 1) || (status_code x =? 204) || (status_code x =? 304) || has F_SKIPBODY x then false
      else if has F_CHUNKED x || negb (content_length x =? ULLONG_MAX) then false
      else true
  end.
Definition http_should_keep_alive (x : http_parser) : bool :=
  if (0 <? http_major x) && (0 <? http_minor x)
  then if has F_CONNECTION_CLOSE x then false else negb (http_message_needs_eof x)
  else if negb (has F_CONNECTION_KEEP_ALIVE x) then false else negb (http_message_needs_eof x).
Definition start_state (x : http_parser) : state := match type x with HTTP_REQUEST => s_start_req | _ => s_start_res end.
Definition s_dead : state := s_url UrlParser.s_dead.
Definition NEW_MESSAGE (x : http_parser) : state := if http_should_keep_alive x then start_state x else s_dead.

(** [None] is the failed assertion on a parser that is in error. *)
Definition http_parser_pause (paused : bool) (x : http_parser) : option http_parser :=
  if (http_errno x =? HPE_OK) || (http_errno x =? HPE_PAUSED) then Some (set_errno (if paused then HPE_PAUSED else HPE_OK) x) else None.
Definition http_body_is_final (x : http_parser) : bool := bool_decide (st x = s_message_done).

(** ** Matching the names and values that the parser knows *)
Definition CONNECTION : str := bs "connection".
Definition PROXY_CONNECTION : str := bs "proxy-connection".
Definition CONTENT_LENGTH : str := bs "content-length".
Definition TRANSFER_ENCODING : str := bs "transfer-encoding".
Definition UPGRADE : str := bs "upgrade".
Definition CHUNKED : str := bs "chunked".
Definition KEEP_ALIVE : str := bs "keep-alive".
Definition CLOSE : str := bs "close".

(** [index] is advanced; the word goes on, is complete, or does not match. *)
Definition incr_index (x : http_parser) : http_parser := set_index ((index x + 1) mod 128) x.
Definition match_word (w : str) (c : Z) (x : http_parser) (on full off : header_states) : header_states :=
  if (zlen w <? index x) || negb (bool_decide (c_at w (index x) = Some c)) then off
  else if index x =? zlen w - 1 then full else on.

(** A character of the name of a header. *)
Definition field_char (ch : byte) (x : http_parser) : option http_parser :=
  let c := TOKEN ch in
  let y := incr_index x in
  match header_state x with
  | h_general => Some x
  | h_C => Some (set_header_state (if c =? lit "o" then h_CO else h_general) y)
  | h_CO => Some (set_header_state (if c =? lit "n" then h_CON else h_general) y)
  | h_CON =>
      Some (set_header_state (if c =? lit "n" then h_matching_connection else if c =? lit "t" then h_matching_content_length else h_general) y)
  | h_matching_connection => Some (set_header_state (match_word CONNECTION c y h_matching_connection h_connection h_general) y)
  | h_matching_proxy_connection => Some (set_header_state (match_word PROXY_CONNECTION c y h_matching_proxy_connection h_connection h_general) y)
  | h_matching_content_length => Some (set_header_state (match_word CONTENT_LENGTH c y h_matching_content_length h_content_length h_general) y)
  | h_matching_transfer_encoding =>
      Some (set_header_state (match_word TRANSFER_ENCODING c y h_matching_transfer_encoding h_transfer_encoding h_general) y)
  | h_matching_upgrade => Some (set_header_state (match_word UPGRADE c y h_matching_upgrade h_upgrade h_general) y)
  | h_connection | h_content_length | h_transfer_encoding | h_upgrade => Some (if eqc ch SP then x else set_header_state h_general x)
  | _ => None
  end.

(** A character of the value of a header, outside [h_general]; on the right how
    the loop ends. *)
Inductive value_end := VEnd | VCR | VLF | VError (e : Z) | VAssert.
Definition content_length_char (ch : byte) (x : http_parser) : header_states * http_parser + value_end * http_parser :=
  if eqc ch SP then inl (h_content_length_ws, x)
  else if negb (UrlParser.IS_NUM ch) then inr (VError HPE_INVALID_CONTENT_LENGTH, set_header_state h_content_length_num x)
  else if (ULLONG_MAX - 10) / 10 <? content_length x then inr (VError HPE_INVALID_CONTENT_LENGTH, set_header_state h_content_length_num x)
  else inl (h_content_length_num, set_content_length (u64 (content_length x * 10 + (b2z ch - 48))) x).
(** A comma ends a token of [Connection]. *)
Definition token_done (f : http_parser -> http_parser) (ch : byte) (h : header_states) (x : http_parser) : header_states * http_parser :=
  if UrlParser.is_char "," ch then (h_matching_connection_token_start, set_index 0 (f x))
  else if eqc ch SP then (h, x) else (h_matching_connection_token, x).
Definition value_char (ch : byte) (h : header_states) (x : http_parser) : header_states * http_parser + value_end * http_parser :=
  let c := UrlParser.LOWER ch in
  let y := incr_index x in
  match h with
  | h_connection | h_transfer_encoding => inr (VAssert, x)
  | h_content_length => if eqc ch SP then inl (h, x) else content_length_char ch x
  | h_content_length_num => content_length_char ch x
  | h_content_length_ws => if eqc ch SP then inl (h, x) else inr (VError HPE_INVALID_CONTENT_LENGTH, set_header_state h x)
  | h_matching_transfer_encoding_chunked => inl (match_word CHUNKED c y h h_transfer_encoding_chunked h_general, y)
  | h_matching_connection_token_start =>
      inl (if c =? lit "k" then h_matching_connection_keep_alive else if c =? lit "c" then h_matching_connection_close
           else if c =? lit "u" then h_matching_connection_upgrade else if is_token (z2b c) then h_matching_connection_token
           else if (c =? 32) || (c =? 9) then h else h_general, x)
  | h_matching_connection_keep_alive => inl (match_word KEEP_ALIVE c y h h_connection_keep_alive h_matching_connection_token, y)
  | h_matching_connection_close => inl (match_word CLOSE c y h h_connection_close h_matching_connection_token, y)
  | h_matching_connection_upgrade => inl (match_word UPGRADE c y h h_connection_upgrade h_matching_connection_token, y)
  | h_matching_connection_token => inl (if UrlParser.is_char "," ch then (h_matching_connection_token_start, set_index 0 x) else (h, x))
  | h_transfer_encoding_chunked => inl (if eqc ch SP then h else h_general, x)
  | h_connection_keep_alive => inl (token_done (set_flag F_CONNECTION_KEEP_ALIVE) ch h x)
  | h_connection_close => inl (token_done (set_flag F_CONNECTION_CLOSE) ch h x)
  | h_connection_upgrade => inl (token_done (set_flag F_CONNECTION_UPGRADE) ch h x)
  | _ => inl (h_general, set_st s_header_value x)
  end.

(** ** Running the machine *)
Inductive mark := MField | MValue | MUrl | MBody | MStatus.
Record marks := MkMarks { field_mark : option Z; value_mark : option Z; url_mark : option Z; body_mark : option Z; status_mark : option Z }.
Definition no_marks : marks := MkMarks None None None None None.
Definition get_mark (k : mark) (m : marks) : option Z :=
  match k with MField => field_mark m | MValue => value_mark m | MUrl => url_mark m | MBody => body_mark m | MStatus => status_mark m end.
Definition set_mark (k : mark) (v : option Z) (m : marks) : marks :=
  match k with
  | MField => MkMarks v (value_mark m) (url_mark m) (body_mark m) (status_mark m)
  | MValue => MkMarks (field_mark m) v (url_mark m) (body_mark m) (status_mark m)
  | MUrl => MkMarks (field_mark m) (value_mark m) v (body_mark m) (status_mark m)
  | MBody => MkMarks (field_mark m) (value_mark m) (url_mark m) v (status_mark m)
  | MStatus => MkMarks (field_mark m) (value_mark m) (url_mark m) (body_mark m) v
  end.

(** How the function ends. *)
Inductive exit := Returned (n : Z) | Asserted | OutOfBounds | OutOfFuel.
(** How the [switch] ends: with [break] or [REEXECUTE]. *)
Inductive flow := Next | Again.

(** A program that calls back with events and goes on with the answers. *)
Inductive prog (X : Type) := Done (x : X) | Emit (e : event) (k : Z -> prog X).
Arguments Done {X} x.
Arguments Emit {X} e k.
Fixpoint pbind {X Y} (p : prog X) (f : X -> prog Y) : prog Y :=
  match p with Done x => f x | Emit e k => Emit e (fun rt => pbind (k rt) f) end.
Fixpoint interp {U X} (cb : event -> U -> Z * U) (p : prog X) (u : U) : X * U :=
  match p with Done x => (x, u) | Emit e k => let '(rt, u) := cb e u in interp cb (k rt) u end.

Section machine.
Context (data : str).

Record exec := MkExec { ps : http_parser; ms : marks; pos : Z }.
Definition C (A : Type) : Type := exec -> prog ((A + exit) * exec).
#[local] Instance C_ret : MRet C := fun A a x => Done (inl a, x).
#[local] Instance C_bind : MBind C := fun A B f m x =>
  pbind (m x) (fun r => match r with (inl a, x) => f a x | (inr e, x) => Done (inr e, x) end).

Definition stop {A} (e : exit) : C A := fun x => Done (inr e, x).
Definition get : C http_parser := fun x => Done (inl (ps x), x).
Definition get_marks : C marks := fun x => Done (inl (ms x), x).
Definition get_pos : C Z := fun x => Done (inl (pos x), x).
Definition upd (f : http_parser -> http_parser) : C unit := fun x => Done (inl tt, MkExec (f (ps x)) (ms x) (pos x)).
Definition set_pos (p : Z) : C unit := fun x => Done (inl tt, MkExec (ps x) (ms x) p).
(** [SET_ERRNO(e); goto error]. *)
Definition error {A} (e : Z) : C A := fun x => Done (inr (Returned (pos x)), MkExec (set_errno e (ps x)) (ms x) (pos x)).
Definition assert (b : bool) : C unit := if b then mret tt else stop Asserted.
Definition STRICT_CHECK (b : bool) : C unit := if b then error HPE_STRICT else mret tt.
Definition COUNT_HEADER_SIZE (v : Z) : C unit :=
  upd (fun x => set_nread (u32 (nread x + u32 v)) x);; x ← get; if max_header_size <? nread x then error HPE_HEADER_OVERFLOW else mret tt.
Definition MARK (k : mark) : C unit := fun x =>
  Done (inl tt, MkExec (ps x) match get_mark k (ms x) with Some _ => ms x | None => set_mark k (Some (pos x)) (ms x) end (pos x)).
Definition clear_mark (k : mark) : C unit := fun x => Done (inl tt, MkExec (ps x) (set_mark k None (ms x)) (pos x)).

(** A callback; the function returns [er] if it does not answer 0. *)
Definition notify (e : event) (er : Z) : C unit := fun x =>
  Emit e (fun rt =>
    if rt =? 0 then Done (inl tt, x) else Done (inr (Returned er), MkExec (set_errno (HPE_CB e) (ps x)) (ms x) (pos x))).
Definition CALLBACK_NOTIFY (e : event) : C unit := p ← get_pos; notify e (p + 1).
Definition CALLBACK_NOTIFY_NOADVANCE (e : event) : C unit := p ← get_pos; notify e p.
Definition data_event (k : mark) (x : http_parser) (buf : str) : event :=
  match k with MField => HeaderField buf | MValue => HeaderValue buf | MUrl => Url buf | MBody => Body buf | MStatus => Status (status_code x) buf end.
(** [CALLBACK_DATA_] with the bytes up to [last]. *)
Definition CALLBACK_DATA_ (k : mark) (last er : Z) : C unit :=
  x ← get; ms ← get_marks;
  match get_mark k ms with
  | None => mret tt
  | Some m => notify (data_event k x (zsub m (last - m) data)) er;; clear_mark k
  end.
Definition CALLBACK_DATA (k : mark) : C unit := p ← get_pos; CALLBACK_DATA_ k p (p + 1).
Definition CALLBACK_DATA_NOADVANCE (k : mark) : C unit := p ← get_pos; CALLBACK_DATA_ k p p.

(** A state that is left with one character for another, and [break]. *)
Definition goto (s : state) : C flow := upd (set_st s);; mret Next.
Definition again (s : state) : C flow := upd (set_st s);; mret Again.
Definition expect (s : String.string) (next : state) (ch : byte) : C flow := STRICT_CHECK (negb (UrlParser.is_char s ch));; goto next.

(** *** The status line *)
Definition step_res (s : state) (ch : byte) : C flow :=
  match s with
  | s_start_req_or_res =>
      if eqc ch CR || eqc ch LF then mret Next else
      upd (fun x => set_content_length ULLONG_MAX (set_flags 0 x));;
      if UrlParser.is_char "H" ch then upd (set_st s_res_or_resp_H);; CALLBACK_NOTIFY MessageBegin;; mret Next
      else upd (set_type HTTP_REQUEST);; again s_start_req
  | s_res_or_resp_H =>
      if UrlParser.is_char "T" ch then upd (set_type HTTP_RESPONSE);; goto s_res_HT
      else if negb (UrlParser.is_char "E" ch) then error HPE_INVALID_CONSTANT
      else upd (fun x => set_index 2 (set_method HTTP_HEAD (set_type HTTP_REQUEST x)));; goto s_req_method
  | s_start_res =>
      if eqc ch CR || eqc ch LF then mret Next else
      upd (fun x => set_content_length ULLONG_MAX (set_flags 0 x));;
      if UrlParser.is_char "H" ch then upd (set_st s_res_H);; CALLBACK_NOTIFY MessageBegin;; mret Next
      else error HPE_INVALID_CONSTANT
  | s_res_H => expect "T" s_res_HT ch
  | s_res_HT => expect "T" s_res_HTT ch
  | s_res_HTT => expect "P" s_res_HTTP ch
  | s_res_HTTP => expect "/" s_res_http_major ch
  | s_res_http_major => if UrlParser.IS_NUM ch then upd (set_major (b2z ch - 48));; goto s_res_http_dot else error HPE_INVALID_VERSION
  | s_res_http_dot => if UrlParser.is_char "." ch then goto s_res_http_minor else error HPE_INVALID_VERSION
  | s_res_http_minor => if UrlParser.IS_NUM ch then upd (set_minor (b2z ch - 48));; goto s_res_http_end else error HPE_INVALID_VERSION
  | s_res_http_end => if eqc ch SP then goto s_res_first_status_code else error HPE_INVALID_VERSION
  | s_res_first_status_code =>
      if UrlParser.IS_NUM ch then upd (set_status_code (b2z ch - 48));; goto s_res_status_code
      else if eqc ch SP then mret Next else error HPE_INVALID_STATUS
  | s_res_status_code =>
      if negb (UrlParser.IS_NUM ch) then
        if eqc ch SP then goto s_res_status_start
        else if eqc ch CR || eqc ch LF then again s_res_status_start
        else error HPE_INVALID_STATUS
      else
        upd (fun x => set_status_code (u16 (u16 (status_code x * 10) + (b2z ch - 48))) x);;
        x ← get; if 999 <? status_code x then error HPE_INVALID_STATUS else mret Next
  | s_res_status_start =>
      MARK MStatus;; upd (fun x => set_index 0 (set_st s_res_status x));;
      if eqc ch CR || eqc ch LF then mret Again else mret Next
  | s_res_status =>
      if eqc ch CR then upd (set_st s_res_line_almost_done);; CALLBACK_DATA MStatus;; mret Next
      else if eqc ch LF then upd (set_st s_header_field_start);; CALLBACK_DATA MStatus;; mret Next
      else mret Next
  | s_res_line_almost_done => STRICT_CHECK (negb (eqc ch LF));; goto s_header_field_start
  | _ => stop Asserted
  end.

(** *** The request line *)
Definition step_method (ch : byte) : C flow :=
  if b2z ch =? 0 then error HPE_INVALID_METHOD else
  x ← get;
  match method_strings !! Z.to_nat (method x) with
  | None => stop OutOfBounds
  | Some matcher =>
      match c_at matcher (index x) with
      | None => stop OutOfBounds
      | Some m =>
          if eqc ch SP && (m =? 0) then upd (fun x => set_index ((index x + 1) mod 128) (set_st (s_url UrlParser.s_req_spaces_before_url) x));; mret Next
          else if b2z ch =? m then upd (fun x => set_index ((index x + 1) mod 128) x);; mret Next
          else if between 65 90 ch || UrlParser.is_char "-" ch then
            match next_method (method x) (index x) ch with
            | Some m => upd (fun x => set_index ((index x + 1) mod 128) (set_method m x));; mret Next
            | None => error HPE_INVALID_METHOD
            end
          else error HPE_INVALID_METHOD
      end
  end.
Definition parse_url (u : UrlParser.state) (ch : byte) : C flow :=
  let u := UrlParser.parse_url_char u ch in
  upd (set_st (s_url u));; if decide (u = UrlParser.s_dead) then error HPE_INVALID_URL else mret Next.
Definition step_url (u : UrlParser.state) (ch : byte) : C flow :=
  match u with
  | UrlParser.s_dead => if eqc ch CR || eqc ch LF then mret Next else error HPE_CLOSED_CONNECTION
  | UrlParser.s_req_spaces_before_url =>
      if eqc ch SP then mret Next else
      MARK MUrl;; x ← get;
      parse_url (if method x =? HTTP_CONNECT then UrlParser.s_req_server_start else u) ch
  | UrlParser.s_req_schema | UrlParser.s_req_schema_slash | UrlParser.s_req_schema_slash_slash | UrlParser.s_req_server_start =>
      if eqc ch SP || eqc ch CR || eqc ch LF then error HPE_INVALID_URL else parse_url u ch
  | _ =>
      if eqc ch SP then upd (set_st s_req_http_start);; CALLBACK_DATA MUrl;; mret Next
      else if eqc ch CR || eqc ch LF then
        upd (fun x => set_st (if eqc ch CR then s_req_line_almost_done else s_header_field_start) (set_minor 9 (set_major 0 x)));;
        CALLBACK_DATA MUrl;; mret Next
      else parse_url u ch
  end.
Definition step_req (s : state) (ch : byte) : C flow :=
  match s with
  | s_start_req =>
      if eqc ch CR || eqc ch LF then mret Next else
      upd (fun x => set_content_length ULLONG_MAX (set_flags 0 x));;
      if negb (UrlParser.IS_ALPHA ch) then error HPE_INVALID_METHOD else
      upd (fun x => set_index 1 (set_method 0 x));;
      match first_method ch with
      | None => error HPE_INVALID_METHOD
      | Some m => upd (fun x => set_st s_req_method (set_method m x));; CALLBACK_NOTIFY MessageBegin;; mret Next
      end
  | s_req_method => step_method ch
  | s_url u => step_url u ch
  | s_req_http_start =>
      if eqc ch SP then mret Next
      else if UrlParser.is_char "H" ch then goto s_req_http_H
      else x ← get; if UrlParser.is_char "I" ch && (method x =? HTTP_SOURCE) then goto s_req_http_I else error HPE_INVALID_CONSTANT
  | s_req_http_H => expect "T" s_req_http_HT ch
  | s_req_http_HT => expect "T" s_req_http_HTT ch
  | s_req_http_HTT => expect "P" s_req_http_HTTP ch
  | s_req_http_I => expect "C" s_req_http_IC ch
  | s_req_http_IC => expect "E" s_req_http_HTTP ch
  | s_req_http_HTTP => expect "/" s_req_http_major ch
  | s_req_http_major => if UrlParser.IS_NUM ch then upd (set_major (b2z ch - 48));; goto s_req_http_dot else error HPE_INVALID_VERSION
  | s_req_http_dot => if UrlParser.is_char "." ch then goto s_req_http_minor else error HPE_INVALID_VERSION
  | s_req_http_minor => if UrlParser.IS_NUM ch then upd (set_minor (b2z ch - 48));; goto s_req_http_end else error HPE_INVALID_VERSION
  | s_req_http_end =>
      if eqc ch CR then goto s_req_line_almost_done else if eqc ch LF then goto s_header_field_start else error HPE_INVALID_VERSION
  | s_req_line_almost_done => if eqc ch LF then goto s_header_field_start else error HPE_LF_EXPECTED
  | _ => stop Asserted
  end.

(** *** Names of headers *)
Definition start_field (c : Z) : header_states :=
  if c =? lit "c" then h_C else if c =? lit "p" then h_matching_proxy_connection else if c =? lit "t" then h_matching_transfer_encoding
  else if c =? lit "u" then h_matching_upgrade else h_general.
Definition step_field_start (ch : byte) : C flow :=
  if eqc ch CR then goto s_headers_almost_done
  else if eqc ch LF then again s_headers_almost_done
  else
    let c := TOKEN ch in
    if c =? 0 then error HPE_INVALID_HEADER_TOKEN
    else MARK MField;; upd (fun x => set_states s_header_field (start_field c) (set_index 0 x));; mret Next.

(** The loop over the name; in [h_general] its inner loop skips what it would
    skip itself.  [None] is a failed assertion; the character is that which
    ended the loop, if the buffer did not. *)
Fixpoint field_loop (rest : str) (p : Z) (x : http_parser) : option (Z * http_parser * option byte) :=
  match rest with
  | [] => Some (p, x, None)
  | ch :: rest =>
      if TOKEN ch =? 0 then Some (p, x, Some ch)
      else match field_char ch x with None => None | Some x => field_loop rest (p + 1) x end
  end.
Definition step_field : C flow :=
  start ← get_pos; x ← get;
  match field_loop (zdrop start data) start x with
  | None => stop Asserted
  | Some (p, x, None) => upd (fun _ => x);; set_pos (p - 1);; COUNT_HEADER_SIZE (p - 1 - start);; mret Next
  | Some (p, x, Some ch) =>
      upd (fun _ => x);; set_pos p;; COUNT_HEADER_SIZE (p - start);;
      if UrlParser.is_char ":" ch then upd (set_st s_header_value_discard_ws);; CALLBACK_DATA MField;; mret Next
      else error HPE_INVALID_HEADER_TOKEN
  end.

(** *** Values of headers *)
Definition step_value_start (ch : byte) : C flow :=
  MARK MValue;; upd (fun x => set_index 0 (set_st s_header_value x));;
  let c := UrlParser.LOWER ch in
  x ← get;
  match header_state x with
  | h_upgrade => upd (fun x => set_header_state h_general (set_flag F_UPGRADE x));; mret Next
  | h_transfer_encoding => upd (set_header_state (if c =? lit "c" then h_matching_transfer_encoding_chunked else h_general));; mret Next
  | h_content_length =>
      if negb (UrlParser.IS_NUM ch) then error HPE_INVALID_CONTENT_LENGTH
      else if has F_CONTENTLENGTH x then error HPE_UNEXPECTED_CONTENT_LENGTH
      else upd (fun x => set_header_state h_content_length_num (set_content_length (b2z ch - 48) (set_flag F_CONTENTLENGTH x)));; mret Next
  | h_content_length_ws => mret Next
  | h_connection =>
      upd (set_header_state (if c =? lit "k" then h_matching_connection_keep_alive else if c =? lit "c" then h_matching_connection_close
             else if c =? lit "u" then h_matching_connection_upgrade else h_matching_connection_token));; mret Next
  | h_matching_connection_token_start => mret Next
  | _ => upd (set_header_state h_general);; mret Next
  end.

(** The loop over the value.  [fast] is the number of bytes that the inner loop
    of [h_general] may still look at, while it runs. *)
Fixpoint value_loop (rest : str) (p : Z) (fast : option Z) (h : header_states) (x : http_parser) : value_end * Z * header_states * http_parser :=
  match rest with
  | [] => (VEnd, p, h, x)
  | ch :: rest' =>
      if bool_decide (fast = Some 0) then value_loop rest' (p + 1) None h x
      else if eqc ch CR then (VCR, p, h, x)
      else if eqc ch LF then (VLF, p, h, x)
      else if negb (IS_HEADER_CHAR ch) then (VError HPE_INVALID_HEADER_TOKEN, p, h, x)
      else
        match fast with
        | Some k => value_loop rest' (p + 1) (Some (k - 1)) h x
        | None =>
            match h with
            | h_general => value_loop rest' (p + 1) (Some (zlen rest `min` max_header_size - 1)) h x
            | _ =>
                match value_char ch h x with
                | inl (h, x) => value_loop rest' (p + 1) None h x
                | inr (e, x) => (e, p, h, x)
                end
            end
        end
  end.
Definition step_value : C flow :=
  start ← get_pos; x ← get;
  match value_loop (zdrop start data) start None (header_state x) x with
  | (VAssert, _, _, _) => stop Asserted
  | (VError e, p, _, x) => upd (fun _ => x);; set_pos p;; error e
  | (VCR, p, h, x) =>
      upd (fun _ => set_states s_header_almost_done h x);; set_pos p;; CALLBACK_DATA MValue;; COUNT_HEADER_SIZE (p - start);; mret Next
  | (VLF, p, h, x) =>
      upd (fun _ => set_st s_header_almost_done x);; set_pos p;; COUNT_HEADER_SIZE (p - start);;
      upd (set_header_state h);; CALLBACK_DATA_NOADVANCE MValue;; mret Again
  | (VEnd, p, h, x) => upd (fun _ => set_header_state h x);; set_pos (p - 1);; COUNT_HEADER_SIZE (p - 1 - start);; mret Next
  end.

(** The flags that a finished header sets. *)
Definition finish_header (x : http_parser) : http_parser :=
  match header_state x with
  | h_connection_keep_alive => set_flag F_CONNECTION_KEEP_ALIVE x
  | h_connection_close => set_flag F_CONNECTION_CLOSE x
  | h_transfer_encoding_chunked => set_flag F_CHUNKED x
  | h_connection_upgrade => set_flag F_CONNECTION_UPGRADE x
  | _ => x
  end.
Definition blank (ch : byte) : bool := eqc ch SP || eqc ch TAB.
Definition step_header (s : state) (ch : byte) : C flow :=
  match s with
  | s_header_field_start => step_field_start ch
  | s_header_field => step_field
  | s_header_value_discard_ws =>
      if blank ch then mret Next
      else if eqc ch CR then goto s_header_value_discard_ws_almost_done
      else if eqc ch LF then goto s_header_value_discard_lws
      else step_value_start ch
  | s_header_value_start => step_value_start ch
  | s_header_value => step_value
  | s_header_almost_done => if eqc ch LF then goto s_header_value_lws else error HPE_LF_EXPECTED
  | s_header_value_lws =>
      if blank ch then
        upd (fun x => match header_state x with h_content_length_num => set_header_state h_content_length_ws x | _ => x end);; again s_header_value_start
      else upd finish_header;; again s_header_field_start
  | s_header_value_discard_ws_almost_done => STRICT_CHECK (negb (eqc ch LF));; goto s_header_value_discard_lws
  | s_header_value_discard_lws =>
      if blank ch then goto s_header_value_discard_ws
      else
        x ← get;
        if decide (header_state x = h_content_length) then error HPE_INVALID_CONTENT_LENGTH
        else upd finish_header;; MARK MValue;; upd (set_st s_header_field_start);; CALLBACK_DATA_NOADVANCE MValue;; mret Again
  | _ => stop Asserted
  end.

(** *** The end of the headers *)
Definition upgrades (x : http_parser) : bool :=
  if has F_UPGRADE x && has F_CONNECTION_UPGRADE x
  then match type x with HTTP_REQUEST => true | _ => status_code x =? 101 end
  else method x =? HTTP_CONNECT.
(** [on_headers_complete]: 1 and 2 mean that there is no body. *)
Definition headers_complete : C unit := fun x =>
  let q := ps x in
  let e := HeadersComplete (http_major q) (http_minor q) (method q) (status_code q) in
  Emit e (fun rt =>
    if rt =? 0 then Done (inl tt, x)
    else if rt =? 2 then upd (fun q => set_flag F_SKIPBODY (set_upgrade true q)) x
    else if rt =? 1 then upd (set_flag F_SKIPBODY) x
    else error (HPE_CB e) x).
Definition step_headers_almost_done (ch : byte) : C flow :=
  STRICT_CHECK (negb (eqc ch LF));;
  x ← get;
  if has F_TRAILING x then upd (set_st s_message_done);; CALLBACK_NOTIFY_NOADVANCE ChunkComplete;; mret Again
  else if has F_CHUNKED x && has F_CONTENTLENGTH x then error HPE_UNEXPECTED_CONTENT_LENGTH
  else upd (fun x => set_upgrade (upgrades x) (set_st s_headers_done x));; headers_complete;; mret Again.
(** [UPDATE_STATE(NEW_MESSAGE()); CALLBACK_NOTIFY(message_complete)]. *)
Definition message_complete : C unit := upd (fun x => set_st (NEW_MESSAGE x) x);; CALLBACK_NOTIFY MessageComplete.
Definition step_headers_done (ch : byte) : C flow :=
  STRICT_CHECK (negb (eqc ch LF));;
  upd (set_nread 0);;
  x ← get; p ← get_pos;
  let hasBody := has F_CHUNKED x || ((0 <? content_length x) && negb (content_length x =? ULLONG_MAX)) in
  if upgrade x && ((method x =? HTTP_CONNECT) || has F_SKIPBODY x || negb hasBody) then message_complete;; stop (Returned (p + 1))
  else if has F_SKIPBODY x then message_complete;; mret Next
  else if has F_CHUNKED x then goto s_chunk_size_start
  else if content_length x =? 0 then message_complete;; mret Next
  else if negb (content_length x =? ULLONG_MAX) then goto s_body_identity
  else if negb (http_message_needs_eof x) then message_complete;; mret Next
  else goto s_body_identity_eof.

(** *** Bodies *)
Definition to_read : C Z := x ← get; p ← get_pos; mret (content_length x `min` (zlen data - p)).
Definition take_body (n : Z) : C unit :=
  MARK MBody;; upd (fun x => set_content_length (content_length x - n) x);; p ← get_pos; set_pos (p + (n - 1)).
Definition assert_length : C unit := x ← get; assert (negb (content_length x =? 0) && negb (content_length x =? ULLONG_MAX)).
Definition assert_chunked : C unit := x ← get; assert (has F_CHUNKED x).
Definition step_body (s : state) (ch : byte) : C flow :=
  match s with
  | s_headers_almost_done => step_headers_almost_done ch
  | s_headers_done => step_headers_done ch
  | s_body_identity =>
      n ← to_read; assert_length;; take_body n;; x ← get;
      if content_length x =? 0 then upd (set_st s_message_done);; p ← get_pos; CALLBACK_DATA_ MBody (p + 1) p;; mret Again
      else mret Next
  | s_body_identity_eof => MARK MBody;; set_pos (zlen data - 1);; mret Next
  | s_message_done =>
      message_complete;; x ← get; p ← get_pos; if upgrade x then stop (Returned (p + 1)) else mret Next
  | s_chunk_size_start =>
      x ← get; assert (nread x =? 1);; assert_chunked;;
      match unhex ch with None => error HPE_INVALID_CHUNK_SIZE | Some v => upd (set_content_length v);; goto s_chunk_size end
  | s_chunk_size =>
      assert_chunked;;
      if eqc ch CR then goto s_chunk_size_almost_done else
      match unhex ch with
      | None => if UrlParser.is_char ";" ch || eqc ch SP then goto s_chunk_parameters else error HPE_INVALID_CHUNK_SIZE
      | Some v =>
          x ← get;
          if (ULLONG_MAX - 16) / 16 <? content_length x then error HPE_INVALID_CONTENT_LENGTH
          else upd (set_content_length (u64 (content_length x * 16 + v)));; mret Next
      end
  | s_chunk_parameters => assert_chunked;; if eqc ch CR then goto s_chunk_size_almost_done else mret Next
  | s_chunk_size_almost_done =>
      assert_chunked;; STRICT_CHECK (negb (eqc ch LF));; upd (set_nread 0);; x ← get;
      (if content_length x =? 0 then upd (fun x => set_st s_header_field_start (set_flag F_TRAILING x)) else upd (set_st s_chunk_data));;
      CALLBACK_NOTIFY ChunkHeader;; mret Next
  | s_chunk_data =>
      n ← to_read; assert_chunked;; assert_length;; take_body n;; x ← get;
      if content_length x =? 0 then goto s_chunk_data_almost_done else mret Next
  | s_chunk_data_almost_done =>
      assert_chunked;; x ← get; assert (content_length x =? 0);; STRICT_CHECK (negb (eqc ch CR));;
      upd (set_st s_chunk_data_done);; CALLBACK_DATA MBody;; mret Next
  | s_chunk_data_done =>
      assert_chunked;; STRICT_CHECK (negb (eqc ch LF));; upd (set_nread 0);; upd (set_st s_chunk_size_start);; CALLBACK_NOTIFY ChunkComplete;; mret Next
  | _ => stop Asserted
  end.

(** ** The function *)
Inductive part := PRes | PReq | PHeader | PBody.
Definition part_of (s : state) : part :=
  match s with
  | s_start_req_or_res | s_res_or_resp_H | s_start_res | s_res_H | s_res_HT | s_res_HTT | s_res_HTTP | s_res_http_major | s_res_http_dot
  | s_res_http_minor | s_res_http_end | s_res_first_status_code | s_res_status_code | s_res_status_start | s_res_status
  | s_res_line_almost_done => PRes
  | s_header_field_start | s_header_field | s_header_value_discard_ws | s_header_value_discard_ws_almost_done | s_header_value_discard_lws
  | s_header_value_start | s_header_value | s_header_value_lws | s_header_almost_done => PHeader
  | s_chunk_size_start | s_chunk_size | s_chunk_parameters | s_chunk_size_almost_done | s_headers_almost_done | s_headers_done
  | s_chunk_data | s_chunk_data_almost_done | s_chunk_data_done | s_body_identity | s_body_identity_eof | s_message_done => PBody
  | _ => PReq
  end.
Definition step (ch : byte) : C flow :=
  x ← get;
  match part_of (st x) with
  | PRes => step_res (st x) ch
  | PReq => step_req (st x) ch
  | PHeader => step_header (st x) ch
  | PBody => step_body (st x) ch
  end.

(** The marks that are left when the buffer is used up. *)
Definition marked (m : option Z) : Z := match m with Some _ => 1 | None => 0 end.
Definition leftover : C unit :=
  m ← get_marks;
  assert (marked (field_mark m) + marked (value_mark m) + marked (url_mark m) + marked (body_mark m) + marked (status_mark m) <=? 1);;
  CALLBACK_DATA_NOADVANCE MField;; CALLBACK_DATA_NOADVANCE MValue;; CALLBACK_DATA_NOADVANCE MUrl;; CALLBACK_DATA_NOADVANCE MBody;;
  CALLBACK_DATA_NOADVANCE MStatus.

(** The loop; [fresh] says that a byte is looked at for the first time. *)
Fixpoint loop (fuel : nat) (fresh : bool) : C Z := fun x =>
  match fuel with
  | O => Done (inr OutOfFuel, x)
  | S fuel =>
      match data !! Z.to_nat (pos x) with
      | None => (leftover;; mret (zlen data)) x
      | Some ch =>
          (f ← ((if fresh && PARSING_HEADER (st (ps x)) then COUNT_HEADER_SIZE 1 else mret tt);; step ch);
           match f with
           | Next => p ← get_pos; set_pos (p + 1);; loop fuel true
           | Again => loop fuel false
           end) x
      end
  end.

(** The mark of a field that was begun in an earlier buffer. *)
Definition first_marks (s : state) : marks :=
  match s with
  | s_header_field => set_mark MField (Some 0) no_marks
  | s_header_value => set_mark MValue (Some 0) no_marks
  | s_url UrlParser.s_dead | s_url UrlParser.s_req_spaces_before_url => no_marks
  | s_url _ => set_mark MUrl (Some 0) no_marks
  | s_res_status => set_mark MStatus (Some 0) no_marks
  | _ => no_marks
  end.
Definition loop_fuel : nat := 5 * length data + 6.
Definition execute (q : http_parser) : prog (exit * http_parser) :=
  let finish {A} (ret : A -> Z) (r : (A + exit) * exec) :=
    Done match r with (inl a, x) => (Returned (ret a), ps x) | (inr e, x) => (e, ps x) end in
  if negb (http_errno q =? HPE_OK) then Done (Returned 0, q)
  else if bool_decide (data = []) then
    match st q with
    | s_body_identity_eof => pbind (notify MessageComplete 0 (MkExec q no_marks 0)) (finish (fun _ => 0))
    | s_url UrlParser.s_dead | s_start_req_or_res | s_start_res | s_start_req => Done (Returned 0, q)
    | _ => Done (Returned 1, set_errno HPE_INVALID_EOF_STATE q)
    end
  else pbind (loop loop_fuel true (MkExec q (first_marks (st q)) 0)) (finish (fun n => n)).
End machine.

(** The function with its callbacks. *)
Definition http_parser_execute {U : Type} (cb : event -> U -> Z * U) (data : str) (q : http_parser) (u : U) : exit * http_parser * U :=
  interp cb (execute data q) u.

End HttpMachine.
