(* ===== verification/HttpMachineSafety.v ===== *)
(** * Safety of the bundled C parser

    No call of [http_parser_execute] on a parser that the library made fails an
    assertion or reads behind a word, every call returns, and it reports a
    number of bytes that lies in the buffer. *)
From S2P Require Import Prelude StdString UrlParser Http Stream HttpParser HttpMachine.
Import StdString HttpParser HttpMachine.
Local Open Scope Z_scope.

Module HttpMachineSafety.

(** ** Safety

    What holds of a parser between two calls, and of the machine between two
    bytes; [fresh] is false when a byte is looked at again. *)
Definition field_state (h : header_states) : bool :=
  match h with
  | h_general | h_C | h_CO | h_CON | h_matching_connection | h_matching_proxy_connection | h_matching_content_length
  | h_matching_transfer_encoding | h_matching_upgrade | h_connection | h_content_length | h_transfer_encoding | h_upgrade => true
  | _ => false
  end.
Definition value_state (h : header_states) : bool := match h with h_connection | h_transfer_encoding => false | _ => true end.
Definition matches (m i : Z) : bool := match method_strings !! Z.to_nat m with Some w => (0 <=? i) && (i <=? zlen w) | None => false end.
Definition some_length (n : Z) : bool := negb (n =? 0) && negb (n =? ULLONG_MAX).
Definition good_in (s : state) (counted : Z) (q : http_parser) : bool :=
  match s with
  | s_req_method => matches (method q) (index q)
  | s_header_field => field_state (header_state q)
  | s_header_value => value_state (header_state q)
  | s_chunk_size_start => has F_CHUNKED q && (nread q =? counted)
  | s_chunk_size | s_chunk_parameters | s_chunk_size_almost_done => has F_CHUNKED q && (content_length q <? ULLONG_MAX)
  | s_chunk_data => has F_CHUNKED q && some_length (content_length q)
  | s_chunk_data_almost_done => has F_CHUNKED q && (content_length q =? 0)
  | s_chunk_data_done => has F_CHUNKED q
  | s_body_identity => some_length (content_length q)
  | _ => true
  end.
Definition good (counted : Z) (q : http_parser) : bool :=
  (0 <=? content_length q) && (content_length q <=? ULLONG_MAX) && good_in (st q) counted q.
Definition valid (q : http_parser) : bool := negb (http_errno q =? 0) || good 0 q.

(** The mark that may be set in a state. *)
Definition mark_of (s : state) : option mark :=
  match s with
  | s_header_field => Some MField
  | s_header_value => Some MValue
  | s_url UrlParser.s_dead | s_url UrlParser.s_req_spaces_before_url => None
  | s_url _ => Some MUrl
  | s_res_status => Some MStatus
  | s_chunk_data | s_chunk_data_almost_done | s_body_identity | s_body_identity_eof => Some MBody
  | _ => None
  end.
Definition marks_ok (s : state) (p : Z) (m : marks) : Prop :=
  match mark_of s with
  | None => m = no_marks
  | Some k => exists v, m = set_mark k v no_marks /\ forall i, v = Some i -> 0 <= i <= p
  end.

(** States that are left without reading a byte come later in this order. *)
Definition rank (s : state) : Z :=
  match s with
  | s_header_value_lws | s_header_value_discard_lws => 4
  | s_header_field_start => 3
  | s_headers_almost_done | s_res_status_code => 2
  | s_headers_done | s_body_identity | s_header_value | s_start_req_or_res | s_res_status_start => 1
  | _ => 0
  end.

Lemma good_spec counted q : good counted q = true <-> 0 <= content_length q <= ULLONG_MAX /\ good_in (st q) counted q = true.
Proof. unfold good. rewrite !andb_true_iff, !Z.leb_le. tauto. Qed.
Lemma some_length_spec n : some_length n = true <-> n <> 0 /\ n <> ULLONG_MAX.
Proof. unfold some_length. rewrite andb_true_iff, !negb_true_iff, !Z.eqb_neq. tauto. Qed.

Section safety.
Context (data : str).
#[local] Existing Instances C_ret C_bind.

(** Whatever the callbacks answer. *)
Fixpoint all {X} (P : X -> Prop) (p : prog X) : Prop :=
  match p with Done x => P x | Emit e k => forall rt, all P (k rt) end.
Lemma all_bind {X Y} (P : Y -> Prop) (p : prog X) (f : X -> prog Y) : all (fun x => all P (f x)) p -> all P (pbind p f).
Proof. induction p; cbn; auto. Qed.
Lemma all_impl {X} (P Q : X -> Prop) (p : prog X) : (forall x, P x -> Q x) -> all P p -> all Q p.
Proof. intros H. induction p; cbn; auto. Qed.

Definition returns (n : Z) (x : exec) : Prop := 0 <= n <= zlen data /\ valid (ps x) = true.
(** [Q] holds if the computation goes on; if it returns from the function, it
    returns a number of bytes of the buffer and leaves a valid parser. *)
Definition wp {A} (m : C A) (x : exec) (Q : A -> exec -> Prop) : Prop :=
  all (fun r => match r with
    | (inl a, x) => Q a x
    | (inr (Returned n), x) => returns n x
    | (inr _, _) => False
    end) (m x).
#[global] Arguments wp {_} _ _ _ : simpl never.

Lemma wp_bind {A B} (m : C A) (f : A -> C B) x Q : wp m x (fun a x => wp (f a) x Q) -> wp (m ≫= f) x Q.
Proof. intros H. apply all_bind. eapply all_impl; [|exact H]. by intros [[a|[]] y]. Qed.
Lemma wp_mono {A} (m : C A) x (Q Q' : A -> exec -> Prop) : (forall a y, Q a y -> Q' a y) -> wp m x Q -> wp m x Q'.
Proof. intros H. apply all_impl. intros [[a|[]] y]; auto. Qed.
Lemma wp_ret {A} (a : A) x (Q : A -> exec -> Prop) : Q a x -> wp (mret a) x Q.
Proof. done. Qed.
Lemma wp_get x Q : Q (ps x) x -> wp get x Q.
Proof. done. Qed.
Lemma wp_get_marks x Q : Q (ms x) x -> wp get_marks x Q.
Proof. done. Qed.
Lemma wp_get_pos x Q : Q (pos x) x -> wp get_pos x Q.
Proof. done. Qed.
Lemma wp_upd f x Q : Q tt (MkExec (f (ps x)) (ms x) (pos x)) -> wp (upd f) x Q.
Proof. done. Qed.
Lemma wp_set_pos p x Q : Q tt (MkExec (ps x) (ms x) p) -> wp (set_pos p) x Q.
Proof. done. Qed.
Lemma wp_stop {A} n x (Q : A -> exec -> Prop) : returns n x -> wp (stop (Returned n)) x Q.
Proof. done. Qed.
Lemma wp_error {A} e x (Q : A -> exec -> Prop) : e <> 0 -> 0 <= pos x <= zlen data -> wp (error e) x Q.
Proof. intros He Hp. split; [done|]. unfold valid. cbn. by destruct (Z.eqb_spec e 0). Qed.
Lemma wp_assert b x Q : b = true -> Q tt x -> wp (assert b) x Q.
Proof. by intros ->. Qed.
Lemma wp_strict b x Q : 0 <= pos x <= zlen data -> (b = false -> Q tt x) -> wp (STRICT_CHECK b) x Q.
Proof. intros Hp HQ. destruct b; [by apply wp_error|by apply HQ]. Qed.
Lemma wp_if {A} (b : bool) (m n : C A) x Q : (b = true -> wp m x Q) -> (b = false -> wp n x Q) -> wp (if b then m else n) x Q.
Proof. destruct b; auto. Qed.
Lemma wp_count v x Q :
  0 <= pos x <= zlen data -> Q tt (MkExec (set_nread (u32 (nread (ps x) + u32 v)) (ps x)) (ms x) (pos x)) -> wp (COUNT_HEADER_SIZE v) x Q.
Proof. intros Hp HQ. unfold COUNT_HEADER_SIZE. apply wp_bind, wp_upd, wp_bind, wp_get, wp_if; intros _; [by apply wp_error|done]. Qed.
Lemma wp_mark k x Q :
  Q tt (MkExec (ps x) match get_mark k (ms x) with Some _ => ms x | None => set_mark k (Some (pos x)) (ms x) end (pos x)) -> wp (MARK k) x Q.
Proof. done. Qed.
Lemma wp_notify e er x Q :
  0 <= er <= zlen data -> Q tt x -> wp (notify e er) x Q.
Proof. intros He HQ rt. destruct (rt =? 0); [done|]. split; [done|]. unfold valid. by destruct e. Qed.
Lemma set_mark_none k m : get_mark k m = None -> set_mark k None m = m.
Proof. destruct k, m; cbn; by intros ->. Qed.
Lemma wp_data k last er x Q :
  0 <= er <= zlen data -> Q tt (MkExec (ps x) (set_mark k None (ms x)) (pos x)) -> wp (CALLBACK_DATA_ data k last er) x Q.
Proof.
  intros He HQ. unfold CALLBACK_DATA_. apply wp_bind, wp_get, wp_bind, wp_get_marks. destruct (get_mark k (ms x)) as [m|] eqn:Em.
  - by apply wp_bind, wp_notify.
  - rewrite set_mark_none in HQ by done. by destruct x.
Qed.

(** The machine between two bytes. *)
Record inv (counted : Z) (x : exec) : Prop := {
  inv_errno : http_errno (ps x) = 0;
  inv_good : good counted (ps x) = true;
  inv_marks : marks_ok (st (ps x)) (pos x) (ms x);
}.
(** [nread] counts the byte that is looked at again. *)
Definition counted_in (f : flow) : Z := match f with Next => 0 | Again => 1 end.
(** After a step from a state: the position is that of a byte, and a byte is
    looked at again only in a state of lower rank. *)
Definition stepped (s : state) (p : Z) (f : flow) (x : exec) : Prop :=
  inv (counted_in f) x /\ p <= pos x < zlen data /\ (f = Again -> 0 <= rank (st (ps x)) < rank s).

End safety.

(** Symbolic execution of the steps. *)
Ltac wp_step :=
  lazymatch goal with
  | |- wp _ (mbind _ _) _ _ => apply wp_bind
  | |- wp _ (mret _) _ _ => apply wp_ret
  | |- wp _ get _ _ => apply wp_get
  | |- wp _ get_marks _ _ => apply wp_get_marks
  | |- wp _ get_pos _ _ => apply wp_get_pos
  | |- wp _ (upd _) _ _ => apply wp_upd
  | |- wp _ (set_pos _) _ _ => apply wp_set_pos
  | |- wp _ (error _) _ _ => apply wp_error; [discriminate|]
  | |- wp _ (STRICT_CHECK _) _ _ => apply wp_strict; [|intros ?]
  | |- wp _ (assert _) _ _ => apply wp_assert
  | |- wp _ (MARK _) _ _ => apply wp_mark
  | |- wp _ (notify _ _) _ _ => apply wp_notify
  | |- wp _ (CALLBACK_DATA_ _ _ _ _) _ _ => apply wp_data
  | |- wp _ (COUNT_HEADER_SIZE _) _ _ => apply wp_count
  | |- wp _ (stop _) _ _ => apply wp_stop
  | |- wp _ (if _ then _ else _) _ _ => apply wp_if; intros ?
  end; cbv beta iota.
Ltac wp_unfold :=
  unfold expect; unfold goto, again, CALLBACK_NOTIFY, CALLBACK_NOTIFY_NOADVANCE, CALLBACK_DATA, CALLBACK_DATA_NOADVANCE, message_complete, assert_length, assert_chunked,
    to_read, take_body, parse_url.
Ltac red_fields :=
  cbn [ps ms pos type flags st header_state index nread content_length http_major http_minor status_code method http_errno upgrade set_type set_flags set_st
    set_header_state set_index set_nread set_content_length set_major set_minor set_status_code set_method set_errno set_upgrade set_flag set_states good_in rank] in *.
Ltac wp_go := repeat (wp_step; cbn [ps ms pos]).
(** The goals that are left: bounds, and the invariant in the next state. *)
Ltac marks_done := first [done | eexists; split; [reflexivity|]; first [done | intros ? [= <-]; lia | by eauto]].
Ltac step_done :=
  cbn [ps ms pos] in *;
  lazymatch goal with
  | |- _ <= _ <= _ => lia
  | |- stepped _ _ _ _ _ =>
      split; [split; [done | apply good_spec; split; [cbn; unfold ULLONG_MAX in *; lia | try done] | cbn; try marks_done] | split; [cbn; lia | try done]]
  | |- _ => idtac
  end.
Ltac open_state :=
  match goal with
  | |- forall x : exec, _ => intros [[] m p]
  end; intros [He [Hc Hg]%good_spec Hm] Hs Hpart Hpos; cbn [ps ms pos st http_errno content_length] in *; subst.

Section steps.
Context (data : str).
#[local] Existing Instances C_ret C_bind.

Lemma step_res_safe s ch : forall x : exec,
  inv 1 x -> st (ps x) = s -> part_of s = PRes -> 0 <= pos x < zlen data -> wp data (step_res data s ch) x (stepped data s (pos x)).
Proof.
  open_state.
  destruct s; try done; unfold marks_ok in Hm; cbn [step_res mark_of] in *;
    try (destruct Hm as (v & -> & Hv)); try subst m; wp_unfold; wp_go; step_done.
Qed.

(** *** The request line *)
Lemma first_method_matches ch m : first_method ch = Some m -> matches m 1 = true.
Proof.
  assert (forall c, match first_method c with Some m => matches m 1 | None => true end = true) as H by (apply byte_forall; vm_compute; reflexivity).
  intros E. specialize (H ch). by rewrite E in H.
Qed.
Lemma next_method_matches m i ch m' : next_method m i ch = Some m' -> matches m' (i + 1) = true /\ 0 <= i < 127.
Proof.
  unfold next_method. intros E. apply fmap_Some in E as ([[[m0 i0] s0] m1] & Hf & ->). apply List.find_some in Hf as [Hin Hc].
  apply andb_true_iff in Hc as [[_ ->%Z.eqb_eq]%andb_true_iff _]. cbn.
  assert (forallb (fun x => let '(_, i, _, m) := x in matches m (i + 1) && (0 <=? i) && (i <? 127)) method_switch = true) as H by (vm_compute; reflexivity).
  rewrite List.forallb_forall in H. specialize (H _ Hin). cbn in H. rewrite !andb_true_iff, Z.leb_le, Z.ltb_lt in H. naive_solver.
Qed.
Lemma matches_spec m i : matches m i = true -> exists w c, method_strings !! Z.to_nat m = Some w /\ c_at w i = Some c /\ 0 <= i <= zlen w /\ zlen w < 127 /\ (c <> 0 -> i < zlen w).
Proof.
  unfold matches. destruct (method_strings !! Z.to_nat m) as [w|] eqn:Ew; [|done]. rewrite andb_true_iff, !Z.leb_le. intros Hi.
  assert (zlen w < 127) as Hw.
  { assert (forallb (fun w => zlen w <? 127) method_strings = true) as H by (vm_compute; reflexivity). rewrite List.forallb_forall in H.
    apply Z.ltb_lt, H, list_elem_of_In. by eapply list_elem_of_lookup_2. }
  exists w. unfold c_at. destruct (Z.ltb_spec i 0); [lia|]. destruct (w !! Z.to_nat i) as [c|] eqn:Ec.
  - exists (b2z c). apply lookup_lt_Some in Ec. unfold zlen in *. split_and!; first [done|lia].
  - apply lookup_ge_None_1 in Ec. assert (i = zlen w) as -> by (unfold zlen in *; lia). rewrite Z.eqb_refl. exists 0. split_and!; first [done|lia].
Qed.
Lemma step_method_safe ch : forall x : exec,
  inv 1 x -> st (ps x) = s_req_method -> True -> 0 <= pos x < zlen data -> wp data (step_method ch) x (stepped data s_req_method (pos x)).
Proof.
  open_state. unfold marks_ok in Hm. cbn [mark_of good_in method index] in *. subst m. unfold step_method. destruct (matches_spec _ _ Hg) as (w & c & Hw & Hc' & Hi & Hl & Hc0).
  wp_go; [step_done|]. cbn [method index]. rewrite Hw, Hc'. wp_go; try step_done.
  - cbn [ps set_index good_in st method index]. unfold matches. rewrite Hw. destruct (Z.eqb_spec (b2z ch) c) as [<-|]; [|done].
    destruct (Z.eqb_spec (b2z ch) 0); [done|]. assert (index0 < zlen w) by (apply Hc0; done). rewrite Z.mod_small by lia. apply andb_true_iff. rewrite !Z.leb_le. lia.
  - destruct (next_method method0 index0 ch) as [m|] eqn:Em; wp_go; step_done. apply next_method_matches in Em as [Em Hi'].
    cbn. by rewrite Z.mod_small by lia.
Qed.

Lemma parse_url_never_back u ch : UrlParser.parse_url_char u ch <> UrlParser.s_req_spaces_before_url.
Proof.
  unfold UrlParser.parse_url_char, UrlParser.in_server. destruct u; repeat case_match; try done; by subst.
Qed.
Lemma url_mark_of u : u <> UrlParser.s_dead -> u <> UrlParser.s_req_spaces_before_url -> mark_of (s_url u) = Some MUrl.
Proof. by destruct u. Qed.
Lemma parse_url_safe s u ch (x : exec) v :
  http_errno (ps x) = 0 -> 0 <= content_length (ps x) <= ULLONG_MAX -> ms x = set_mark MUrl v no_marks -> (forall i, v = Some i -> 0 <= i <= pos x) ->
  0 <= pos x < zlen data -> wp data (parse_url u ch) x (stepped data s (pos x)).
Proof.
  destruct x as [[] m p]. cbn. intros -> Hc -> Hv Hp. unfold parse_url. wp_go. case_decide as Hd; wp_go; [cbn; lia|].
  split; [split; cbn; [done|by apply good_spec|]|by cbn; split; [lia|]]. unfold marks_ok. rewrite url_mark_of by (done || apply parse_url_never_back). by exists v.
Qed.
Lemma step_url_safe us ch : forall x : exec,
  inv 1 x -> st (ps x) = s_url us -> True -> 0 <= pos x < zlen data -> wp data (step_url data us ch) x (stepped data (s_url us) (pos x)).
Proof.
  open_state. unfold marks_ok in Hm. destruct us; cbn [step_url mark_of] in *; try (destruct Hm as (v & -> & Hv)); try subst m; unfold CALLBACK_DATA; destruct (eqc ch CR); wp_go; try step_done.
  all: eapply parse_url_safe; cbn; try reflexivity; try done; intros i [= <-]; lia.
Qed.
Lemma step_req_safe s ch : forall x : exec,
  inv 1 x -> st (ps x) = s -> part_of s = PReq -> 0 <= pos x < zlen data -> wp data (step_req data s ch) x (stepped data s (pos x)).
Proof.
  intros x Hinv Hs Hp Hpos. destruct (decide (s = s_req_method)) as [->|Hm']; [by apply step_method_safe|].
  destruct s as [| | | | | | | | | | | | | | | | | |us| | | | | | | | | | | | | | | | | | | | | | | | | | | | | | | | |]; try done; [|by apply step_url_safe|..]; revert x Hinv Hs Hp Hpos;
    open_state; unfold marks_ok in Hm; cbn [step_req mark_of] in *; try subst m; wp_unfold; wp_go; try step_done.
  destruct (first_method ch) as [m|] eqn:Em; wp_go; step_done. cbn. by eapply first_method_matches.
Qed.

(** *** Headers *)
(** The fields that the loops over names and values do not touch. *)
Record kept (q q' : http_parser) : Prop := {
  kp_errno : http_errno q' = http_errno q;
  kp_st : st q' = st q;
  kp_length : 0 <= content_length q <= ULLONG_MAX -> 0 <= content_length q' <= ULLONG_MAX;
}.
Lemma kept_refl q : kept q q.
Proof. by split. Qed.
Lemma kept_trans a b c : kept a b -> kept b c -> kept a c.
Proof. intros [H1 H2 H3] [H4 H5 H6]. split; [congruence|congruence|auto]. Qed.

Lemma match_word_cases w c x (P : header_states -> Prop) on full off : P on -> P full -> P off -> P (match_word w c x on full off).
Proof. intros. unfold match_word. by repeat case_match. Qed.
Lemma field_char_safe ch x : field_state (header_state x) = true -> exists y, field_char ch x = Some y /\ kept x y /\ field_state (header_state y) = true.
Proof.
  intros Hf. unfold field_char. destruct (header_state x) eqn:Eh; try done; (eexists; split; [reflexivity|]; split; [by repeat case_match|]); cbn;
    try (by repeat case_match); try (by apply (match_word_cases _ _ _ (fun h => field_state h = true))); try (by rewrite Eh).
  all: case_match; cbn; by rewrite ?Eh.
Qed.
Lemma field_loop_safe rest p x :
  field_state (header_state x) = true ->
  exists p' y c, field_loop rest p x = Some (p', y, c) /\ kept x y /\ field_state (header_state y) = true
    /\ p <= p' <= p + zlen rest /\ (c <> None -> p' < p + zlen rest) /\ (c = None -> p' = p + zlen rest).
Proof.
  revert p x. induction rest as [|ch rest IH]; intros p x Hf; cbn [field_loop].
  - exists p, x, None. rewrite zlen_nil. split_and!; first [done|lia|apply kept_refl].
  - rewrite zlen_cons. pose proof (zlen_nonneg rest). destruct (TOKEN ch =? 0).
    + exists p, x, (Some ch). split_and!; first [done|lia|apply kept_refl].
    + destruct (field_char_safe ch x Hf) as (y & -> & Hk & Hy). destruct (IH (p + 1) y Hy) as (p' & z & c & E & Hz & Hfz & Hb & Hc1 & Hc2).
      exists p', z, c. split_and!; try done; try lia; [by eapply kept_trans|intros Hc; specialize (Hc1 Hc); lia|intros Hc; specialize (Hc2 Hc); lia].
Qed.

Lemma content_length_char_safe ch x :
  0 <= content_length x <= ULLONG_MAX ->
  match content_length_char ch x with inl (h, y) => kept x y /\ value_state h = true | inr (e, y) => kept x y /\ exists n, e = VError n /\ n <> 0 end.
Proof.
  intros Hc. unfold content_length_char. repeat case_match; simplify_eq; split; try done; try (by eexists); split; cbn; try done; intros _.
  pose proof (uw_range 64 (content_length x * 10 + (b2z ch - 48)) ltac:(lia)) as Hu. unfold in_u in Hu. unfold ULLONG_MAX. lia.
Qed.
Lemma value_char_safe ch h x :
  0 <= content_length x <= ULLONG_MAX -> value_state h = true -> st x = s_header_value ->
  match value_char ch h x with inl (h, y) => kept x y /\ value_state h = true | inr (e, y) => kept x y /\ exists n, e = VError n /\ n <> 0 end.
Proof.
  intros Hc Hv Hs. pose proof (content_length_char_safe ch x Hc) as Hcl. unfold value_char, token_done.
  destruct h; try done; repeat case_match; simplify_eq; try done; (split; [split; cbn; by try rewrite Hs|]); try done; try (by eexists);
    apply (match_word_cases _ _ _ (fun h => value_state h = true)); done.
Qed.
Lemma value_loop_safe rest p fast h x :
  0 <= content_length x <= ULLONG_MAX -> value_state h = true -> st x = s_header_value ->
  match value_loop rest p fast h x with
  | (e, p', h', y) => kept x y /\ value_state h' = true /\ p <= p' <= p + zlen rest
      /\ match e with VEnd => p' = p + zlen rest | VCR | VLF => p' < p + zlen rest | VError n => n <> 0 /\ p' < p + zlen rest | VAssert => False end
  end.
Proof.
  revert p fast h x. induction rest as [|ch rest IH]; intros p fast h x Hc Hv Hs; cbn [value_loop].
  - rewrite zlen_nil. split_and!; first [done|lia|apply kept_refl].
  - rewrite zlen_cons. pose proof (zlen_nonneg rest).
    assert (forall fast h y, kept x y -> value_state h = true ->
      match value_loop rest (p + 1) fast h y with
      | (e, p', h', z) => kept x z /\ value_state h' = true /\ p <= p' <= p + (1 + zlen rest)
          /\ match e with VEnd => p' = p + (1 + zlen rest) | VCR | VLF => p' < p + (1 + zlen rest) | VError n => n <> 0 /\ p' < p + (1 + zlen rest) | VAssert => False end
      end) as Hrec.
    { intros f h' y Hk Hv'. pose proof (IH (p + 1) f h' y (kp_length _ _ Hk Hc) Hv' ltac:(by rewrite (kp_st _ _ Hk))) as Hr.
      destruct (value_loop rest (p + 1) f h' y) as [[[e p'] h''] z]. destruct Hr as (H1 & H2 & H3 & H4). split_and!; try done; try lia; [by eapply kept_trans|].
      destruct e; try done; [lia..|]. destruct H4. split; [done|lia]. }
    case_bool_decide; [apply Hrec; [apply kept_refl|done]|].
    destruct (eqc ch CR); [split_and!; first [done|lia|apply kept_refl]|]. destruct (eqc ch LF); [split_and!; first [done|lia|apply kept_refl]|].
    destruct (negb (IS_HEADER_CHAR ch)); [split_and!; first [done|lia|apply kept_refl]|].
    destruct fast; [apply Hrec; [apply kept_refl|done]|].
    pose proof (value_char_safe ch h x Hc Hv Hs) as Hvc.
    destruct (decide (h = h_general)) as [->|Hh]; [apply Hrec; [apply kept_refl|done]|].
    assert (match value_char ch h x with inl (h, y) => value_loop rest (p + 1) None h y | inr (e, y) => (e, p, h, y) end
      = match h with h_general => value_loop rest (p + 1) (Some ((1 + zlen rest) `min` max_header_size - 1)) h x
        | _ => match value_char ch h x with inl (h, y) => value_loop rest (p + 1) None h y | inr (e, y) => (e, p, h, y) end end) as <- by by destruct h.
    destruct (value_char ch h x) as [[h' y]|[e y]]; destruct Hvc as [Hk Hvc]; [by apply Hrec|]. destruct Hvc as (n & -> & Hn). split_and!; first [done|lia].
Qed.

Lemma rest_length p : 0 <= p <= zlen data -> p + zlen (zdrop p data) = zlen data.
Proof. intros Hp. rewrite zlen_zdrop by lia. lia. Qed.
(** What [stepped] asks for, from the parts of the next machine. *)
Lemma stepped_intro s p f q m p' :
  http_errno q = 0 -> 0 <= content_length q <= ULLONG_MAX -> good_in (st q) (counted_in f) q = true -> marks_ok (st q) p' m -> p <= p' < zlen data ->
  (f = Again -> 0 <= rank (st q) < rank s) -> stepped data s p f (MkExec q m p').
Proof. intros. split; [split; [done|by apply good_spec|done]|done]. Qed.

Lemma step_field_safe : forall x : exec,
  inv 1 x -> st (ps x) = s_header_field -> True -> 0 <= pos x < zlen data -> wp data (step_field data) x (stepped data s_header_field (pos x)).
Proof.
  intros [q m p] [He [Hc Hg]%good_spec Hm] Hs _ Hp. cbn [ps ms pos] in *. rewrite Hs in *. unfold marks_ok in Hm. cbn [mark_of good_in] in *. destruct Hm as (v & -> & Hv).
  unfold step_field. wp_go. cbn [ps]. destruct (field_loop_safe (zdrop p data) p q Hg) as (p' & y & c & -> & [K1 K2 K3] & Hf & Hb & Hc1 & Hc2).
  rewrite rest_length in * by lia. destruct c as [ch|]; unfold CALLBACK_DATA; wp_go; try lia.
  - specialize (Hc1 ltac:(done)). lia.
  - apply stepped_intro; cbn; try done; [by rewrite K1|by apply K3|]. specialize (Hc1 ltac:(done)). lia.
  - specialize (Hc2 eq_refl). lia.
  - specialize (Hc2 eq_refl). subst p'. apply stepped_intro; cbn; rewrite ?K2, ?Hs; try done; [by rewrite K1|by apply K3| |lia]. exists v. split; [done|]. intros i Hi. specialize (Hv i Hi). lia.
Qed.
Lemma step_value_safe : forall x : exec,
  inv 1 x -> st (ps x) = s_header_value -> True -> 0 <= pos x < zlen data -> wp data (step_value data) x (stepped data s_header_value (pos x)).
Proof.
  intros [q m p] [He [Hc Hg]%good_spec Hm] Hs _ Hp. cbn [ps ms pos] in *. rewrite Hs in *. unfold marks_ok in Hm. cbn [mark_of good_in] in *. destruct Hm as (v & -> & Hv).
  unfold step_value. wp_go. cbn [ps]. pose proof (value_loop_safe (zdrop p data) p None (header_state q) q Hc Hg Hs) as Hl.
  destruct (value_loop _ _ _ _ _) as [[[e p'] h'] y]. rewrite rest_length in Hl by lia. destruct Hl as ([K1 K2 K3] & Hv' & Hb & Hend).
  destruct e as [| | |n|]; try done; unfold CALLBACK_DATA, CALLBACK_DATA_NOADVANCE; wp_go; try lia.
  - subst p'. apply stepped_intro; cbn; rewrite ?K2, ?Hs; try done; [by rewrite K1|by apply K3| |lia]. exists v. split; [done|]. intros i Hi. specialize (Hv i Hi). lia.
  - apply stepped_intro; cbn; try done; [by rewrite K1|by apply K3|lia].
  - apply stepped_intro; cbn; try done; [by rewrite K1|by apply K3|lia].
  - apply wp_error; [apply Hend|cbn; lia].
Qed.
Lemma num_range c : UrlParser.IS_NUM c = true -> 48 <= b2z c <= 57.
Proof.
  assert (forall c, implb (UrlParser.IS_NUM c) ((48 <=? b2z c) && (b2z c <=? 57)) = true) as H by (apply byte_forall; vm_compute; reflexivity).
  intros E. specialize (H c). rewrite E in H. cbn in H. rewrite andb_true_iff, !Z.leb_le in H. lia.
Qed.
Lemma step_value_start_safe s ch (x : exec) :
  http_errno (ps x) = 0 -> 0 <= content_length (ps x) <= ULLONG_MAX -> ms x = no_marks -> 0 <= pos x < zlen data ->
  wp data (step_value_start ch) x (stepped data s (pos x)).
Proof.
  destruct x as [q m p]. cbn. intros He Hc -> Hp. unfold step_value_start.
  assert (marks_ok s_header_value p (set_mark MValue (Some p) no_marks)) as Hmk by (exists (Some p); split; [done|]; intros i [= <-]; lia).
  wp_go. cbn. destruct (header_state q) eqn:Eh; wp_go; try (cbn; lia); apply stepped_intro; cbn; rewrite ?Eh; try done; try lia; repeat case_match; try done.
  all: apply negb_false_iff, num_range in H; unfold ULLONG_MAX; lia.
Qed.
Lemma finish_header_kept x : http_errno (finish_header x) = http_errno x /\ content_length (finish_header x) = content_length x.
Proof. unfold finish_header. by destruct (header_state x). Qed.
Lemma step_header_safe s ch : forall x : exec,
  inv 1 x -> st (ps x) = s -> part_of s = PHeader -> 0 <= pos x < zlen data -> wp data (step_header data s ch) x (stepped data s (pos x)).
Proof.
  intros x Hinv Hs Hp Hpos. destruct (decide (s = s_header_field)) as [->|]; [by apply step_field_safe|].
  destruct (decide (s = s_header_value)) as [->|]; [by apply step_value_safe|].
  destruct x as [q m p]. destruct Hinv as [He [Hc Hg]%good_spec Hm]. cbn [ps ms pos] in *. rewrite Hs in *.
  destruct (finish_header_kept q) as [Fe Fc].
  destruct s; try done; unfold marks_ok in Hm; cbn [step_header mark_of] in *; subst m; wp_unfold; unfold step_field_start;
    repeat first [apply step_value_start_safe; [done|done|done|done] | wp_step; cbn [ps ms pos]]; try (cbn; lia).
  all: try (apply stepped_intro; cbn; rewrite ?Fe, ?Fc, ?Hs; try done; try lia; unfold start_field; repeat case_match; done).
  - apply stepped_intro; cbn; try done; [unfold start_field; by repeat case_match| |lia]. exists (Some p). split; [done|]. intros i [= <-]. lia.
  - case_decide; wp_go; try (cbn; lia). apply stepped_intro; cbn; rewrite ?Fe, ?Fc; try done; lia.
Qed.

(** *** Bodies *)
Lemma wp_headers_complete (x : exec) Q :
  0 <= pos x <= zlen data -> (forall f b, Q tt (MkExec (set_flags f (set_upgrade b (ps x))) (ms x) (pos x))) -> wp data headers_complete x Q.
Proof.
  destruct x as [[] m p]. cbn. intros Hp HQ rt.
  destruct (rt =? 0); [apply HQ|]. destruct (rt =? 2); [apply HQ|]. destruct (rt =? 1); [apply HQ|]. by split.
Qed.
Lemma new_message_cases q : NEW_MESSAGE q = s_dead \/ NEW_MESSAGE q = s_start_req \/ NEW_MESSAGE q = s_start_res.
Proof. unfold NEW_MESSAGE, start_state. repeat case_match; auto. Qed.
Lemma new_message_good s p f q m p' :
  http_errno q = 0 -> 0 <= content_length q <= ULLONG_MAX -> m = no_marks -> p <= p' < zlen data -> f = Next ->
  stepped data s p f (MkExec (set_st (NEW_MESSAGE q) q) m p').
Proof. intros He Hc -> Hp ->. apply stepped_intro; cbn; try done; by destruct (new_message_cases q) as [-> | [-> | ->]]. Qed.
Lemma new_message_valid q : http_errno q = 0 -> 0 <= content_length q <= ULLONG_MAX -> valid (set_st (NEW_MESSAGE q) q) = true.
Proof. intros He Hc. unfold valid. apply orb_true_iff. right. apply good_spec. split; [done|]. cbn. by destruct (new_message_cases q) as [-> | [-> | ->]]. Qed.
Lemma unhex_range c v : unhex c = Some v -> 0 <= v < 16.
Proof.
  assert (forall c, match unhex c with Some v => (0 <=? v) && (v <? 16) | None => true end = true) as H by (apply byte_forall; vm_compute; reflexivity).
  intros E. specialize (H c). rewrite E, andb_true_iff, Z.leb_le, Z.ltb_lt in H. lia.
Qed.
Lemma step_headers_almost_done_safe ch : forall x : exec,
  inv 1 x -> st (ps x) = s_headers_almost_done -> 0 <= pos x < zlen data ->
  wp data (step_headers_almost_done ch) x (stepped data s_headers_almost_done (pos x)).
Proof.
  intros [q m p] [He [Hc _]%good_spec Hm] Hs Hpos. cbn [ps ms pos] in *. rewrite Hs in *. unfold marks_ok in Hm. cbn in Hm. subst m.
  unfold step_headers_almost_done, CALLBACK_NOTIFY_NOADVANCE. wp_go; try (cbn; lia); [by apply stepped_intro; cbn; first [done|lia]|].
  apply wp_headers_complete; [cbn; lia|]. intros f b. wp_go. by apply stepped_intro; cbn; first [done|lia].
Qed.
Lemma step_headers_done_safe ch : forall x : exec,
  inv 1 x -> st (ps x) = s_headers_done -> 0 <= pos x < zlen data -> wp data (step_headers_done ch) x (stepped data s_headers_done (pos x)).
Proof.
  intros [q m p] [He [Hc _]%good_spec Hm] Hs Hpos. cbn [ps ms pos] in *. rewrite Hs in *. unfold marks_ok in Hm. cbn in Hm. subst m.
  unfold step_headers_done, message_complete, CALLBACK_NOTIFY, goto. wp_go; try lia; try (by apply new_message_good; cbn; first [done|lia]).
  all: try (split; [lia|by apply new_message_valid]).
  - apply stepped_intro; cbn; try done; try lia. by apply andb_true_iff.
  - apply stepped_intro; cbn; try done; try lia; [|by exists None]. apply some_length_spec. cbn in *. rewrite Z.eqb_neq in *. rewrite negb_true_iff, Z.eqb_neq in *. lia.
  - apply stepped_intro; cbn; try done; try lia. by exists None.
Qed.

(** Part of a body is marked; [p] moves to its last byte. *)
Lemma body_marks v p p' s :
  mark_of s = Some MBody -> (forall i, v = Some i -> 0 <= i <= p) -> 0 <= p <= p' ->
  marks_ok s p' match get_mark MBody (set_mark MBody v no_marks) with Some _ => set_mark MBody v no_marks | None => set_mark MBody (Some p) (set_mark MBody v no_marks) end.
Proof.
  intros Hs Hv Hp. unfold marks_ok. rewrite Hs. destruct v as [i|]; cbn; [exists (Some i)|exists (Some p)]; (split; [done|]); intros j [= <-]; [specialize (Hv i eq_refl)|]; lia.
Qed.
Lemma no_marks_after v p : set_mark MBody None match get_mark MBody (set_mark MBody v no_marks) with Some _ => set_mark MBody v no_marks | None => set_mark MBody (Some p) (set_mark MBody v no_marks) end = no_marks.
Proof. by destruct v. Qed.
Lemma step_data_safe s ch : forall x : exec,
  inv 1 x -> st (ps x) = s -> s = s_chunk_data \/ s = s_body_identity \/ s = s_body_identity_eof -> 0 <= pos x < zlen data ->
  wp data (step_body data s ch) x (stepped data s (pos x)).
Proof.
  intros [q m p] [He [Hc Hg]%good_spec Hm] Hs Hcase Hpos. cbn [ps ms pos] in *. rewrite Hs in *.
  destruct Hcase as [-> | [-> | ->]]; unfold marks_ok in Hm; cbn [mark_of good_in] in *; destruct Hm as (v & -> & Hv); cbn [step_body]; wp_unfold; wp_go; red_fields.
  all: try (apply andb_true_iff in Hg as [Hch Hg]); try (apply some_length_spec in Hg as [Hg0 Hg1]).
  all: try done; try lia.
  all: try (rewrite andb_true_iff, !negb_true_iff, !Z.eqb_neq; lia).
  all: apply stepped_intro; red_fields; rewrite ?Hs; red_fields; try done; try lia; try (by apply body_marks; first [done|lia]); try (by rewrite no_marks_after).
  - apply andb_true_iff. by rewrite Z.eqb_eq in *.
  - apply andb_true_iff. split; [done|]. rewrite Z.eqb_neq in *. apply some_length_spec. lia.
  - rewrite Z.eqb_neq in *. apply some_length_spec. lia.
Qed.
Lemma step_body_safe s ch : forall x : exec,
  inv 1 x -> st (ps x) = s -> part_of s = PBody -> 0 <= pos x < zlen data -> wp data (step_body data s ch) x (stepped data s (pos x)).
Proof.
  intros x Hinv Hs Hp Hpos. destruct (decide (s = s_chunk_data \/ s = s_body_identity \/ s = s_body_identity_eof)) as [|Hno]; [by apply step_data_safe|].
  destruct (decide (s = s_headers_almost_done)) as [->|]; [by apply step_headers_almost_done_safe|].
  destruct (decide (s = s_headers_done)) as [->|]; [by apply step_headers_done_safe|].
  destruct x as [q m p]. destruct Hinv as [He [Hc Hg]%good_spec Hm]. cbn [ps ms pos] in *. rewrite Hs in *.
  destruct s; try done; try (by destruct Hno; auto); unfold marks_ok in Hm; cbn [step_body mark_of good_in] in *; try (destruct Hm as (v & -> & Hv)); try subst m;
    try (apply andb_true_iff in Hg as [Hch Hg]); unfold message_complete; wp_unfold; wp_go; red_fields; try done; try lia; rewrite ?Z.eqb_eq, ?Z.ltb_lt in Hg.
  - destruct (unhex ch) as [w|] eqn:Ew; wp_go; try lia. apply unhex_range in Ew. apply stepped_intro; red_fields; try done; try lia; try (unfold ULLONG_MAX; lia).
    apply andb_true_iff. split; [exact Hch|]. apply Z.ltb_lt. unfold ULLONG_MAX. lia.
  - apply stepped_intro; red_fields; try done; try lia. apply andb_true_iff. split; [exact Hch|]. by apply Z.ltb_lt.
  - destruct (unhex ch) as [w|] eqn:Ew; wp_go; try lia; red_fields.
    + apply unhex_range in Ew. change ((ULLONG_MAX - 16) / 16) with 1152921504606846974 in *. rewrite Z.ltb_ge in *. assert (content_length q * 16 + w < ULLONG_MAX) as Hlt by (unfold ULLONG_MAX in *; lia).
      apply stepped_intro; red_fields; rewrite ?Hs; red_fields; try done; try lia; try rewrite uw_small by (unfold in_u, ULLONG_MAX in *; lia); try lia.
      apply andb_true_iff. split; [exact Hch|]. by apply Z.ltb_lt.
    + apply stepped_intro; red_fields; try done; try lia. apply andb_true_iff. split; [exact Hch|]. by apply Z.ltb_lt.
  - apply stepped_intro; red_fields; try done; try lia. apply andb_true_iff. split; [exact Hch|]. by apply Z.ltb_lt.
  - apply stepped_intro; red_fields; rewrite ?Hs; red_fields; try done; try lia. apply andb_true_iff. split; [exact Hch|]. by apply Z.ltb_lt.
  - apply stepped_intro; red_fields; first [done|lia].
  - apply stepped_intro; red_fields; try done; try lia; [|by exists None]. apply andb_true_iff. split; [exact Hch|]. apply some_length_spec. rewrite Z.eqb_neq in *. lia.
  - apply stepped_intro; red_fields; first [done|lia].
  - apply stepped_intro; red_fields; try done; try lia. apply andb_true_iff. split; [exact Hg|done].
  - split; [lia|by apply new_message_valid].
  - apply new_message_good; first [done|lia].
Qed.

Lemma step_safe ch (x : exec) : inv 1 x -> 0 <= pos x < zlen data -> wp data (step data ch) x (stepped data (st (ps x)) (pos x)).
Proof.
  intros Hinv Hpos. unfold step. wp_go. destruct (part_of (st (ps x))) eqn:E; [apply step_res_safe|apply step_req_safe|apply step_header_safe|apply step_body_safe]; done.
Qed.

(** ** The loop *)
Lemma leftover_safe (x : exec) :
  inv 0 x -> pos x = zlen data -> wp data (leftover data) x (fun _ y => ps y = ps x).
Proof.
  intros [_ _ Hm] Hp. pose proof (zlen_nonneg data). unfold leftover, CALLBACK_DATA_NOADVANCE.
  assert (marked (field_mark (ms x)) + marked (value_mark (ms x)) + marked (url_mark (ms x)) + marked (body_mark (ms x)) + marked (status_mark (ms x)) <= 1) as Hle.
  { unfold marks_ok in Hm. destruct (mark_of (st (ps x))) as [[]|]; [destruct Hm as ([] & -> & _); cbn; lia..|]. rewrite Hm. cbn. lia. }
  apply Z.leb_le in Hle.
  wp_go; try done; lia.
Qed.
Lemma marks_ok_mono s p p' m : marks_ok s p m -> p <= p' -> marks_ok s p' m.
Proof. unfold marks_ok. destruct (mark_of s); [|done]. intros (v & -> & Hv) Hp. exists v. split; [done|]. intros i Hi. specialize (Hv i Hi). lia. Qed.
Lemma loop_safe (fuel : nat) (fresh : bool) (x : exec) :
  inv (if fresh then 0 else 1) x -> 0 <= pos x <= zlen data -> (fresh = false -> pos x < zlen data) ->
  5 * (zlen data - pos x) + rank (st (ps x)) < Z.of_nat fuel -> wp data (loop data fuel fresh) x (fun n y => returns data n y).
Proof.
  revert fresh x. induction fuel as [|fuel IH]; intros fresh x Hinv Hpos Hfresh Hfuel.
  { assert (0 <= rank (st (ps x))) by by destruct (st (ps x)). lia. }
  pose proof (zlen_nonneg data). unfold wp. cbn [loop]. destruct (data !! Z.to_nat (pos x)) as [ch|] eqn:Ech.
  - apply lookup_lt_Some in Ech. assert (pos x < zlen data) as Hlt by (unfold zlen; lia).
    match goal with |- all _ (?m x) => change (wp data m x (fun n y => returns data n y)) end.
    apply wp_bind, wp_bind.
    assert (forall y, inv 1 y -> st (ps y) = st (ps x) -> pos y = pos x -> wp data (step data ch) y
      (fun f y => wp data match f with Next => p ← get_pos; set_pos (p + 1);; loop data fuel true | Again => loop data fuel false end y (fun n y => returns data n y))) as Hstep.
    { intros y Hy Hst Hp. eapply wp_mono; [|apply step_safe; [done|lia]]. intros f z (Hz & Hpz & Hr). rewrite Hst, Hp in *. destruct f; wp_go.
      - apply IH; cbn; try lia; try done; [|assert (0 <= rank (st (ps x)) /\ rank (st (ps z)) <= 4) by (split; [by destruct (st (ps x))|by destruct (st (ps z))]); lia].
        destruct Hz as [H1 H2 H3]. split; [done|done|]. by eapply marks_ok_mono; [exact H3|cbn; lia].
      - specialize (Hr eq_refl). apply IH; cbn; try lia; try done. }
    destruct fresh; cbn [andb]; [|wp_go; by apply Hstep].
    destruct (PARSING_HEADER (st (ps x))) eqn:Eph; wp_go; try lia; (apply Hstep; try done); destruct Hinv as [H1 [H2 H3]%good_spec H4];
      (split; [done| |done]); apply good_spec; (split; [done|]); red_fields; [|by destruct (st (ps x))].
    destruct (st (ps x)) eqn:Es; try done. cbn in H3 |- *. apply andb_true_iff in H3 as [H3 H5%Z.eqb_eq]. rewrite H5. apply andb_true_iff. by split.
  - apply lookup_ge_None_1 in Ech. assert (pos x = zlen data) as Hp by (unfold zlen in *; lia). destruct fresh; [|specialize (Hfresh eq_refl); lia].
    match goal with |- all _ (?m x) => change (wp data m x (fun n y => returns data n y)) end.
    apply wp_bind. eapply wp_mono; [|by apply leftover_safe]. intros [] y Hy. wp_go. split; [lia|]. rewrite Hy. unfold valid. apply orb_true_iff. right. apply Hinv.
Qed.
End steps.

(** ** The function *)
Lemma first_marks_ok s : marks_ok s 0 (first_marks s).
Proof.
  unfold marks_ok, first_marks. destruct s; cbn; try done; try (by eexists None; split; [done|]); try (by eexists (Some 0); split; [done|]; intros i [= <-]).
  destruct u; cbn; try done; by eexists (Some 0); split; [done|]; intros i [= <-].
Qed.
Lemma init_valid t : valid (http_parser_init t) = true.
Proof. by destruct t. Qed.

(** A property of the result whatever the callbacks answer holds with given
    callbacks. *)
Lemma all_interp {U X} (cb : event -> U -> Z * U) (P : X -> Prop) (p : prog X) (u : U) : all P p -> P (fst (interp cb p u)).
Proof. revert u. induction p as [x|e k IH]; intros u H; cbn; [done|]. destruct (cb e u) as [rt u']. by apply IH. Qed.

Lemma execute_all (data : str) (q : http_parser) :
  valid q = true -> all (fun r => exists n, fst r = Returned n /\ 0 <= n <= 1 `max` zlen data /\ (data <> [] -> n <= zlen data) /\ valid (snd r) = true) (execute data q).
Proof.
  intros Hq. unfold execute. pose proof (zlen_nonneg data). destruct (Z.eqb_spec (http_errno q) HPE_OK) as [He|He]; cbn [negb].
  2: { exists 0. split_and!; first [done|lia]. }
  case_bool_decide as Hd.
  - destruct (st q) as [| | | | | | | | | | | | | | | | | |us| | | | | | | | | | | | | | | | | | | | | | | | | | | | | | | | |] eqn:Es;
      try (by exists 1; split_and!; first [done|lia]); try (by exists 0; split_and!; first [done|lia]).
    + destruct us; first [exists 0; split_and!; first [done|lia] | exists 1; split_and!; first [done|lia]].
    + cbn. intros rt. destruct (rt =? 0); cbn; exists 0; split_and!; first [done|lia].
  - unfold valid in Hq. rewrite He in Hq. cbn in Hq.
    assert (wp data (loop data (loop_fuel data) true) (MkExec q (first_marks (st q)) 0) (fun n y => returns data n y)) as Hl.
    { apply loop_safe; [split; [done|done|apply first_marks_ok]|cbn; lia|done|]. cbn [ps pos]. unfold loop_fuel, zlen in *.
      assert (rank (st q) <= 4) by by destruct (st q). lia. }
    apply all_bind. eapply all_impl; [|exact Hl].
    intros [[n|[n| | |]] x] Hr; try done; destruct Hr as [Hn Hv]; exists n; cbn; split_and!; first [done|lia].
Qed.

(** C28. A call of the parser returns: on a buffer that is not empty, whatever
    its bytes and whatever the callbacks answer, [http_parser_execute] ends
    without failing an assertion or reading behind a word, it reports a number
    of bytes of the buffer, and it leaves a parser on which the same holds of the
    next call; so it does from [http_parser_init] on. *)
Theorem execute_safe {U : Type} (cb : event -> U -> Z * U) (data : str) (q : http_parser) (u : U) :
  valid q = true -> data <> [] ->
  exists n q' u', http_parser_execute cb data q u = (Returned n, q', u') /\ 0 <= n <= zlen data /\ valid q' = true.
Proof.
  intros Hq Hd. pose proof (all_interp cb _ _ u (execute_all data q Hq)) as (n & Hn & Hb & Hl & Hv). specialize (Hl Hd).
  unfold http_parser_execute. destruct (interp cb (execute data q) u) as [[e q'] u']. cbn in *. subst e. exists n, q', u'. split_and!; first [done|lia].
Qed.
Definition m_request : str := bs "GET /chat?x=1 HTTP/1.1" ++ [CR; LF] ++ bs "Host: a" ++ [CR; LF; CR; LF].
Definition record (e : event) (l : list event) : Z * list event := (0, l ++ [e]).
Lemma execute_safe_witness :
  exists n q u, http_parser_execute record m_request (http_parser_init HTTP_REQUEST) [] = (Returned n, q, u) /\ n = 35 /\ length u = 6%nat.
Proof.
  destruct (execute_safe record m_request (http_parser_init HTTP_REQUEST) []) as (n & q & u & H & _ & _); [reflexivity|discriminate|].
  exists n, q, u. split; [exact H|]. vm_compute in H. injection H as <- <- <-. split; reflexivity.
Defined.

(** ** The parser behind the interface

    The states are the valid parsers.  [hp_run] records the events with
    callbacks that answer 0; [hp_stopped] is the run in which the callback with
    a given number answers 1. *)
Definition vparser : Type := { q : http_parser | valid q = true }.
Definition count_down (e : event) (n : nat) : Z * nat := match n with O => (1, O) | S n => (0, n) end.
Definition bytes_of (e : exit) : Z := match e with Returned n => n | _ => 0 end.

Lemma execute_valid {U} (cb : event -> U -> Z * U) data (q : vparser) u : valid (snd (fst (http_parser_execute cb data (`q) u))) = true.
Proof. destruct q as [q Hq]. by destruct (all_interp cb _ _ u (execute_all data q Hq)) as (n & _ & _ & _ & Hv). Qed.
Definition run_parser {U} (cb : event -> U -> Z * U) (q : vparser) (data : str) (u : U) : vparser * Z * U :=
  let r := http_parser_execute cb data (`q) u in
  ((exist _ (snd (fst r)) (execute_valid cb data q u) : vparser), bytes_of (fst (fst r)), snd r).
Definition c_parser : CParser := {|
  hp_state := vparser;
  hp_init_request := exist _ (http_parser_init HTTP_REQUEST) (init_valid HTTP_REQUEST);
  hp_init_response := exist _ (http_parser_init HTTP_RESPONSE) (init_valid HTTP_RESPONSE);
  hp_run q data := let '(q, n, es) := run_parser record q data [] in (es, q, n);
  hp_stopped q data i := fst (run_parser count_down q data i);
  hp_upgrade q := upgrade (`q);
  hp_errno q := http_errno (`q);
|}.
Lemma run_parser_bound {U} (cb : event -> U -> Z * U) q data u : data <> [] -> 0 <= snd (fst (run_parser cb q data u)) <= zlen data.
Proof.
  intros Hd. destruct q as [q Hq]. unfold run_parser. cbn.
  destruct (all_interp cb _ _ u (execute_all data q Hq)) as (n & Hn & Hb & Hl & _). specialize (Hl Hd). unfold http_parser_execute. cbn. rewrite Hn. cbn. lia.
Qed.
#[export] Instance c_parser_laws : CParserLaws c_parser.
Proof.
  split; intros st d; [intros Hd|intros i Hd]; cbn.
  - exact (run_parser_bound record st d [] Hd).
  - exact (run_parser_bound count_down st d i Hd).
Qed.

(** *** The interface loses nothing

    Running a program with callbacks is recording its events, running the
    callbacks on them, and, when the [i]-th answers something else than 0,
    running it with that answer. *)
Lemma interp_record {X} (p : prog X) (l : list event) :
  interp record p l = (fst (interp record p []), l ++ snd (interp record p [])).
Proof.
  revert l. induction p as [x|e k IH]; intros l; cbn; [by rewrite app_nil_r|]. rewrite (IH 0 (l ++ [e])), (IH 0 [e]). cbn. by rewrite <- app_assoc.
Qed.
(** What a program does after an answer that is not 0 does not depend on it,
    but for [on_headers_complete], which the callbacks answer with 0. *)
Fixpoint uniform {X} (p : prog X) : Prop :=
  match p with
  | Done _ => True
  | Emit e k => (match e with HeadersComplete _ _ _ _ => True | _ => exists x, forall rt, rt <> 0 -> k rt = Done x end) /\ uniform (k 0)
  end.
Definition no_veto {U} (cb : event -> U -> Z * U) : Prop := forall a b c d u, fst (cb (HeadersComplete a b c d) u) = 0.

Lemma run_events_from {P} (cb : event -> P -> Z * P) i es p :
  run_events cb i es p = (match fst (run_events cb 0 es p) with Some j => Some (i + j)%nat | None => None end, snd (run_events cb 0 es p)).
Proof.
  revert i p. induction es as [|e es IH]; intros i p; cbn; [done|]. destruct (cb e p) as [rt p']. destruct (rt =? 0); [|cbn; by rewrite Nat.add_comm].
  rewrite (IH (S i)), (IH 1%nat). cbn. destruct (fst (run_events cb 0 es p')); [|done]. f_equal. f_equal. lia.
Qed.
Lemma interp_events {U X} (cb : event -> U -> Z * U) (p : prog X) (u : U) :
  uniform p -> no_veto cb ->
  interp cb p u =
  match run_events cb 0 (snd (interp record p [])) u with
  | (None, u') => (fst (interp record p []), u')
  | (Some i, u') => (fst (interp count_down p i), u')
  end.
Proof.
  intros Hu Hv. revert u. induction p as [x|e k IH]; intros u; cbn; [done|]. destruct Hu as [He Hk]. rewrite (interp_record (k 0) [e]). cbn.
  destruct (cb e u) as [rt u'] eqn:Ecb. destruct (Z.eqb_spec rt 0) as [->|Hrt].
  - rewrite (IH 0 Hk u'), (run_events_from cb 1). destruct (run_events cb 0 _ u') as [[j|] u'']; done.
  - destruct e as [| | | | |a b c d| | | |]; try (destruct He as (x & Hx); cbn; by rewrite (Hx rt Hrt), (Hx 1 ltac:(done))).
    exfalso. apply Hrt. pose proof (Hv a b c d u) as H0. by rewrite Ecb in H0.
Qed.
(** The machine is such a program. *)
Section uniform.
Context (data : str).
#[local] Existing Instances C_ret C_bind.

Fixpoint halts {A} (p : prog ((A + exit) * exec)) : Prop :=
  match p with
  | Done _ => True
  | Emit e k => (match e with HeadersComplete _ _ _ _ => True | _ => exists n y, forall rt, rt <> 0 -> k rt = Done (inr n, y) end) /\ halts (k 0)
  end.
Definition halting {A} (m : C A) : Prop := forall x, halts (m x).

Lemma halting_bind {A B} (m : C A) (f : A -> C B) : halting m -> (forall a, halting (f a)) -> halting (m ≫= f).
Proof.
  intros Hm Hf x. unfold mbind, C_bind. specialize (Hm x). induction (m x) as [[[a|e] y]|e k IH]; cbn; [apply Hf|done|]. destruct Hm as [He Hk].
  split; [|by apply IH]. destruct e; try done; destruct He as (n & y & Hy); exists n, y; intros rt Hrt; by rewrite Hy.
Qed.
Lemma halting_done {A} (r : exec -> (A + exit) * exec) : halting (fun x => Done (r x)).
Proof. done. Qed.
Lemma halting_notify e er : (match e with HeadersComplete _ _ _ _ => False | _ => True end) -> halting (notify e er).
Proof.
  intros He x. cbn. split; [|done]. destruct e; try done; eexists _, _; intros rt Hrt; destruct (Z.eqb_spec rt 0); done.
Qed.
Lemma halting_headers_complete : halting headers_complete.
Proof. by intros x. Qed.
End uniform.

Ltac halting_step :=
  lazymatch goal with
  | |- halting (mbind _ _) => apply halting_bind; [|intros ?]
  | |- halting (mret _) => apply halting_done
  | |- halting (notify _ _) => apply halting_notify
  | |- halting headers_complete => apply halting_headers_complete
  | |- halting (match ?v with _ => _ end) => destruct v
  | |- halting get => apply halting_done
  | |- halting get_pos => apply halting_done
  | |- halting get_marks => apply halting_done
  | |- halting (upd _) => apply halting_done
  | |- halting (set_pos _) => apply halting_done
  | |- halting (error _) => apply halting_done
  | |- halting (stop _) => apply halting_done
  | |- halting (MARK _) => apply halting_done
  | |- halting (clear_mark _) => apply halting_done
  | |- halting (?f _ _ _ _) => unfold f
  | |- halting (?f _ _ _) => unfold f
  | |- halting (?f _ _) => unfold f
  | |- halting (?f _) => unfold f
  | |- halting ?f => unfold f
  end; cbv beta iota.

Section uniform_steps.
Context (data : str).
#[local] Existing Instances C_ret C_bind.
Lemma halting_step_res s ch : halting (step_res data s ch).
Proof. destruct s; cbn [step_res]; repeat halting_step; done. Qed.
Lemma halting_step_req s ch : halting (step_req data s ch).
Proof. destruct s as [| | | | | | | | | | | | | | | | | |[]| | | | | | | | | | | | | | | | | | | | | | | | | | | | | | | | |]; cbn [step_req]; repeat halting_step; done. Qed.
Lemma halting_step_header s ch : halting (step_header data s ch).
Proof. destruct s; cbn [step_header]; repeat halting_step; done. Qed.
Lemma halting_step_body s ch : halting (step_body data s ch).
Proof. destruct s; cbn [step_body]; repeat halting_step; done. Qed.
Lemma halting_step ch : halting (step data ch).
Proof.
  unfold step. apply halting_bind; [apply halting_done|]. intros x.
  destruct (part_of (st x)); [apply halting_step_res|apply halting_step_req|apply halting_step_header|apply halting_step_body].
Qed.
Lemma halting_loop fuel fresh : halting (loop data fuel fresh).
Proof.
  revert fresh. induction fuel as [|fuel IH]; intros fresh x; [done|]. cbn [loop]. destruct (data !! _) as [ch|].
  - apply halting_bind; [apply halting_bind; [repeat halting_step; done|intros _; apply halting_step]|].
    intros []; [|apply IH]. repeat (halting_step || apply IH).
  - apply halting_bind; [repeat halting_step; done|]. intros ?. apply halting_done.
Qed.
Lemma halts_uniform {A X} (p : prog ((A + exit) * exec)) (f : (A + exit) * exec -> X) : halts p -> uniform (pbind p (fun r => Done (f r))).
Proof.
  induction p as [r|e k IH]; cbn; [done|]. intros [He Hk]. split; [|by apply IH].
  destruct e; try done; destruct He as (n & y & Hy); eexists; intros rt Hrt; by rewrite Hy.
Qed.
Lemma execute_uniform q : uniform (execute data q).
Proof.
  unfold execute. destruct (negb _); [done|]. case_bool_decide; [|apply halts_uniform, halting_loop].
  destruct (st q) as [| | | | | | | | | | | | | | | | | |[]| | | | | | | | | | | | | | | | | | | | | | | | | | | | | | | | |]; try done.
  apply halts_uniform. by apply halting_notify.
Qed.
End uniform_steps.

(** The parser objects run the C function: recording the callbacks of
    [http_parser_execute], running the callbacks of a parser object on the
    record, and stopping where one does not answer 0, gives the parser, the
    number of bytes and the object that [http_parser_execute] gives when it
    calls back; [on_headers_complete] has to answer 0, as it does. *)
Theorem callbacks_are_called_back {P : Type} (cb : event -> P -> Z * P) (q : vparser) (data : str) (p : P) :
  no_veto cb ->
  let '(q', n, p') := c_execute (CP := c_parser) cb q data p in
  let '(e, q'', p'') := http_parser_execute cb data (`q) p in
  `q' = q'' /\ n = bytes_of e /\ p' = p''.
Proof.
  intros Hv. pose proof (interp_events cb (execute data (`q)) p (execute_uniform data (`q)) Hv) as H. unfold c_execute. cbn. unfold run_parser, http_parser_execute.
  cbn. rewrite H. destruct (run_events cb 0 _ p) as [[i|] p']; cbn; [destruct (interp count_down _ i) as [[e q'] n]|destruct (interp record _ []) as [[e q'] es]]; done.
Qed.
Lemma request_no_veto `{CP : CParser} : no_veto on_request.
Proof. done. Qed.
Lemma response_no_veto `{CP : CParser} : no_veto on_response.
Proof. done. Qed.
Lemma callbacks_are_called_back_witness :
  let '(q', n, p') := c_execute (CP := c_parser) (on_request (CP := c_parser)) (exist _ (http_parser_init HTTP_REQUEST) eq_refl) m_request (new_request_parser (CP := c_parser)) in
  n = 35 /\ Http.q_path (rq_data p') = bs "/chat" /\ http_errno (`q') = 0.
Proof.
  pose proof (callbacks_are_called_back (on_request (CP := c_parser)) (exist _ (http_parser_init HTTP_REQUEST) eq_refl) m_request (new_request_parser (CP := c_parser))
    (request_no_veto (CP := c_parser))) as H.
  assert (let r := http_parser_execute (on_request (CP := c_parser)) m_request (http_parser_init HTTP_REQUEST) (new_request_parser (CP := c_parser)) in
    bytes_of (fst (fst r)) = 35 /\ Http.q_path (rq_data (snd r)) = bs "/chat" /\ http_errno (snd (fst r)) = 0) as Hr by (vm_compute; split_and!; reflexivity).
  destruct (c_execute _ _ _ _) as [[q' n] p']. cbn [proj1_sig] in H. destruct (http_parser_execute _ _ _ _) as [[e q''] p'']. destruct H as (H1 & H2 & H3).
  rewrite H1, H2, H3. exact Hr.
Defined.

End HttpMachineSafety.
