(* ===== verification/HttpRuns.v ===== *)
(** * Runs of the bundled parser

    What [http_parser_execute] emits on the text of a message in one buffer,
    when every callback answers 0: the parts of a head ([reads]), its headers up
    to what belongs to a line ([reads_head]), its end and the body, and the whole
    call ([execute_message]). *)
From S2P Require Import Prelude StdString StdMap UrlParser Uri Http Stream HttpParser HttpMachine HttpMachineSafety.
Import StdString HttpParser HttpMachine HttpMachineSafety.
Local Open Scope Z_scope.

Module HttpRuns.

(** ** Runs in which every callback answers 0 *)
Definition zero {X} (p : prog X) : X * list event := interp record p [].
Lemma zero_emit {X} e (k : Z -> prog X) : zero (Emit e k) = (fst (zero (k 0)), e :: snd (zero (k 0))).
Proof. unfold zero. cbn. by rewrite interp_record. Qed.
Lemma zero_bind {X Y} (p : prog X) (f : X -> prog Y) : zero (pbind p f) = (fst (zero (f (fst (zero p)))), snd (zero p) ++ snd (zero (f (fst (zero p))))).
Proof.
  induction p as [x|e k IH]; cbn [pbind]; [change (fst (zero (Done x))) with x; by destruct (zero (f x))|]. rewrite !zero_emit, IH. done.
Qed.

Section runs.
Context (data : str).
#[local] Existing Instances C_ret C_bind.

Definition move (f : flow) (x : exec) : exec := match f with Next => MkExec (ps x) (ms x) (pos x + 1) | Again => x end.
Definition is_next (f : flow) : bool := match f with Next => true | Again => false end.
Inductive runs : nat -> bool -> exec -> list event -> bool -> exec -> Prop :=
| runs_refl b x : runs 0 b x [] b x
| runs_step n b x ch f y es es' b' z :
    data !! Z.to_nat (pos x) = Some ch ->
    zero (((if b && PARSING_HEADER (st (ps x)) then COUNT_HEADER_SIZE 1 else mret tt);; step data ch) x) = ((inl f, y), es) ->
    runs n (is_next f) (move f y) es' b' z ->
    runs (S n) b x (es ++ es') b' z.

Lemma runs_trans n m b b' b'' x y z es es' : runs n b x es b' y -> runs m b' y es' b'' z -> runs (n + m) b x (es ++ es') b'' z.
Proof. induction 1 as [|n b x ch f y0 es0 es1 b1 y Hch Hs _ IH]; [done|]. intros Hr. rewrite <- app_assoc. cbn. eapply runs_step; [done|done|by apply IH]. Qed.
Lemma runs_app n m b b' b'' x y z es es' l : runs n b x es b' y -> runs m b' y es' b'' z -> l = es ++ es' -> runs (n + m) b x l b'' z.
Proof. intros H1 H2 ->. by eapply runs_trans. Qed.

Lemma bind_zero {A B} (m : C A) (f : A -> C B) x a y es r es' :
  zero (m x) = ((inl a, y), es) -> zero (f a y) = (r, es') -> zero ((m ≫= f) x) = (r, es ++ es').
Proof. intros H1 H2. unfold mbind, C_bind. rewrite zero_bind, H1. cbn [fst snd]. by rewrite H2. Qed.

Lemma runs_loop n fuel b b' x y es :
  runs n b x es b' y -> zero (loop data (n + fuel) b x) = (fst (zero (loop data fuel b' y)), es ++ snd (zero (loop data fuel b' y))).
Proof.
  induction 1 as [b x|n b x ch f y0 es0 es1 b1 y Hch Hs _ IH]; [by destruct (zero _)|].
  cbn [Nat.add loop]. rewrite Hch.
  rewrite (bind_zero _ _ _ _ _ _ (fst (zero (loop data (n + fuel) (is_next f) (move f y0)))) (snd (zero (loop data (n + fuel) (is_next f) (move f y0)))) Hs).
  - rewrite IH. cbn [fst snd]. by rewrite app_assoc.
  - destruct f; apply surjective_pairing.
Qed.

(** The loop ends at the end of the buffer. *)
Lemma runs_end n x y es :
  runs n true x es true y -> pos y = zlen data -> ms y = no_marks ->
  zero (loop data (S n) true x) = ((inl (zlen data), y), es).
Proof.
  intros Hr Hp Hm. replace (S n) with (n + 1)%nat by lia. rewrite (runs_loop _ _ _ _ _ _ _ Hr). cbn [loop].
  rewrite lookup_ge_None_2 by (rewrite Hp; unfold zlen; lia). destruct y as [q m p]. cbn in *. subst. cbn. by rewrite app_nil_r.
Qed.
Lemma runs_more n m x y es : runs n true x es true y -> pos y = zlen data -> ms y = no_marks -> (n < m)%nat -> zero (loop data m true x) = ((inl (zlen data), y), es).
Proof.
  intros Hr Hp Hm Hlt. replace m with (n + (m - n))%nat by lia. rewrite (runs_loop _ _ _ _ _ _ _ Hr).
  pose proof (runs_end 0 y y [] (runs_refl true y) Hp Hm) as He. destruct (m - n)%nat as [|k] eqn:Ek; [lia|].
  assert (zero (loop data (S k) true y) = zero (loop data 1 true y)) as ->; [|rewrite He; cbn; by rewrite app_nil_r].
  cbn [loop]. by rewrite lookup_ge_None_2 by (rewrite Hp; unfold zlen; lia).
Qed.

(** *** Bytes of the head of a message *)
Lemma count_bytes v x :
  0 <= nread (ps x) -> 0 <= v -> nread (ps x) + v <= max_header_size ->
  COUNT_HEADER_SIZE v x = Done (inl tt, MkExec (set_nread (nread (ps x) + v) (ps x)) (ms x) (pos x)).
Proof.
  intros Hk Hv Hm. assert (u32 (nread (ps x) + u32 v) = nread (ps x) + v) as E.
  { unfold max_header_size in Hm. rewrite (uw_small 32 v), uw_small by (unfold in_u; lia). done. }
  unfold COUNT_HEADER_SIZE, upd, get, mbind, C_bind. cbn [pbind ps ms pos nread set_nread]. rewrite E. by destruct (Z.ltb_spec max_header_size (nread (ps x) + v)); [lia|].
Qed.
Lemma runs_byte n k q m p ch f y es es' b z :
  data !! Z.to_nat p = Some ch -> PARSING_HEADER (st q) = true -> 0 <= k -> k + 1 <= max_header_size ->
  zero (step data ch (MkExec (set_nread (k + 1) q) m p)) = ((inl f, y), es) ->
  runs n (is_next f) (move f y) es' b z -> runs (S n) true (MkExec (set_nread k q) m p) (es ++ es') b z.
Proof.
  intros Hch Hq Hk Hm Hs Hr. eapply runs_step; [exact Hch| |exact Hr]. cbn [andb ps st set_nread]. change (st (set_nread k q)) with (st q). rewrite Hq.
  change es with ([] ++ es). eapply bind_zero; [|exact Hs]. rewrite count_bytes by (cbn; lia). reflexivity.
Qed.
Lemma at_byte p ch rest : 0 <= p -> zdrop p data = ch :: rest -> data !! Z.to_nat p = Some ch /\ zdrop (p + 1) data = rest.
Proof.
  intros Hp Hd. split.
  - rewrite <- (Nat.add_0_r (Z.to_nat p)), <- lookup_drop. unfold zdrop in Hd. by rewrite Hd.
  - rewrite <- zdrop_zdrop by lia. by rewrite Hd.
Qed.
Lemma at_app p seg rest : 0 <= p -> zdrop p data = seg ++ rest -> zdrop (p + zlen seg) data = rest.
Proof. intros Hp Hd. pose proof (zlen_nonneg seg). rewrite <- zdrop_zdrop by lia. rewrite Hd. unfold zdrop, zlen. by rewrite Nat2Z.id, drop_app_length. Qed.

(** From a parser in a state, reading the bytes [seg] of a head emits events and
    leads to another, wherever they are in the buffer; [nread] counts them. *)
Definition reads (q : http_parser) (seg : str) (es : list event) (q' : http_parser) : Prop :=
  forall k p post, 0 <= k -> k + zlen seg <= max_header_size -> 0 <= p -> zdrop p data = seg ++ post ->
  exists n, runs n true (MkExec (set_nread k q) no_marks p) es true (MkExec (set_nread (k + zlen seg) q') no_marks (p + zlen seg)).
Lemma reads_nil q : reads q [] [] q.
Proof. intros k p post _ _ _ _. exists 0%nat. rewrite zlen_nil, !Z.add_0_r. constructor. Qed.
Lemma reads_app q q1 q2 a b ea eb : reads q a ea q1 -> reads q1 b eb q2 -> reads q (a ++ b) (ea ++ eb) q2.
Proof.
  intros Ha Hb k p post Hk Hm Hp Hd. rewrite zlen_app in *. pose proof (zlen_nonneg a). pose proof (zlen_nonneg b). rewrite <- app_assoc in Hd.
  destruct (Ha k p (b ++ post)) as [n Hn]; [lia..|done|]. destruct (Hb (k + zlen a) (p + zlen a) post) as [n' Hn']; [lia..|by apply at_app|].
  exists (n + n')%nat. rewrite !Z.add_assoc. by eapply runs_trans.
Qed.
Lemma reads_byte q ch es q' :
  PARSING_HEADER (st q) = true ->
  (forall k p, zero (step data ch (MkExec (set_nread k q) no_marks p)) = ((inl Next, MkExec (set_nread k q') no_marks p), es)) -> reads q [ch] es q'.
Proof.
  intros Hq Hs k p post Hk Hm Hp Hd. change (zlen [ch]) with 1 in *. destruct (at_byte p ch post Hp Hd) as [Hch _]. exists 1%nat.
  rewrite <- (app_nil_r es). eapply runs_byte; [done|done|lia|lia|apply Hs|]. cbn. constructor.
Qed.
Lemma reads_cons q ch es q' seg es' q'' :
  PARSING_HEADER (st q) = true ->
  (forall k p, zero (step data ch (MkExec (set_nread k q) no_marks p)) = ((inl Next, MkExec (set_nread k q') no_marks p), es)) ->
  reads q' seg es' q'' -> reads q (ch :: seg) (es ++ es') q''.
Proof. intros Hq Hs Hr. apply (reads_app _ q' _ [ch]); [by apply reads_byte|done]. Qed.

(** *** The request line *)
Definition after_method (m : Z) : http_parser :=
  MkParser HTTP_REQUEST 0 (s_url UrlParser.s_req_spaces_before_url) h_general (zlen (Http.HttpMethodToString m) + 1) 0 ULLONG_MAX 0 0 0 m 0 false.
Definition next_of (q : http_parser) (ch : byte) : http_parser := set_nread 0 (ps (snd (fst (zero (step [] ch (MkExec q no_marks 0)))))).
Lemma reads_as q seg es q' seg2 es2 q2 : reads q seg es q' -> seg = seg2 -> es = es2 -> q' = q2 -> reads q seg2 es2 q2.
Proof. by intros H <- <- <-. Qed.
(** Known bytes read by a known parser. *)
Ltac reads_closed :=
  repeat lazymatch goal with
  | |- reads ?q (?c :: ?s) _ _ =>
      let q' := eval vm_compute in (next_of q c) in
      let es := eval vm_compute in (snd (zero (step [] c (MkExec q no_marks 0)))) in
      apply (reads_cons q c es q'); [reflexivity|intros; reflexivity|]
  end; apply reads_nil.
Lemma reads_method m :
  0 <= m <= 4 -> reads (http_parser_init HTTP_REQUEST) (Http.HttpMethodToString m ++ bs " ") [MessageBegin] (after_method m).
Proof.
  intros Hm. assert (m = 0 \/ m = 1 \/ m = 2 \/ m = 3 \/ m = 4) as [->|[->|[->|[->| ->]]]] by lia;
    match goal with |- reads _ ?w _ _ => let l := eval vm_compute in w in eapply (reads_as _ l); [reads_closed|..]; reflexivity end.
Qed.

(** The states of a URL in which a blank ends it. *)
Definition in_url (u : UrlParser.state) : bool :=
  match u with
  | UrlParser.s_dead | UrlParser.s_req_spaces_before_url | UrlParser.s_req_schema | UrlParser.s_req_schema_slash | UrlParser.s_req_schema_slash_slash
  | UrlParser.s_req_server_start => false
  | _ => true
  end.
Fixpoint url_reads (u : UrlParser.state) (l : str) : bool :=
  match l with [] => true | c :: l => in_url (UrlParser.parse_url_char u c) && url_reads (UrlParser.parse_url_char u c) l end.
Lemma url_byte u c : in_url (UrlParser.parse_url_char u c) = true -> eqc c SP = false /\ eqc c CR = false /\ eqc c LF = false.
Proof.
  unfold eqc. intros H. repeat split; apply bool_decide_eq_false; intros ->; by destruct u.
Qed.
Lemma step_in_url u ch x :
  st (ps x) = s_url u -> in_url u = true -> in_url (UrlParser.parse_url_char u ch) = true ->
  step data ch x = Done (inl Next, MkExec (set_st (s_url (UrlParser.parse_url_char u ch)) (ps x)) (ms x) (pos x)).
Proof.
  intros Hs Hu Hc. destruct (url_byte _ _ Hc) as (H1 & H2 & H3). unfold step, get, mbind, C_bind. cbn [pbind]. rewrite Hs.
  assert (step_req data (s_url u) ch = parse_url u ch) as E.
  { cbn [step_req]. unfold step_url. rewrite H1, H2, H3. by destruct u. }
  cbn [part_of]. rewrite E. unfold parse_url, upd, mbind, C_bind. cbn [pbind]. by rewrite decide_False by (intros Hd; by rewrite Hd in Hc).
Qed.
Lemma runs_url l u q m k p post :
  in_url u = true -> url_reads u l = true -> 0 <= k -> k + zlen l <= max_header_size -> 0 <= p -> zdrop p data = l ++ post ->
  runs (length l) true (MkExec (set_nread k (set_st (s_url u) q)) m p) []
    true (MkExec (set_nread (k + zlen l) (set_st (s_url (fold_left UrlParser.parse_url_char l u)) q)) m (p + zlen l))
  /\ in_url (fold_left UrlParser.parse_url_char l u) = true.
Proof.
  revert u k p. induction l as [|c l IH]; intros u k p Hu Hl Hk Hm Hp Hd; cbn [url_reads length fold_left] in *.
  - rewrite zlen_nil, !Z.add_0_r. split; [constructor|done].
  - apply andb_true_iff in Hl as [Hc Hl]. rewrite zlen_cons in *. pose proof (zlen_nonneg l). destruct (at_byte p c (l ++ post) Hp Hd) as [Hch Hd'].
    destruct (IH _ (k + 1) (p + 1) Hc Hl) as [Hr Hf]; [lia..|done|]. split; [|done].
    change (@nil event) with (@nil event ++ []) at 1. eapply runs_byte; [done|done|lia|lia| |].
    + by rewrite (step_in_url u) by done.
    + cbn. replace (k + (1 + zlen l)) with (k + 1 + zlen l) by lia. replace (p + (1 + zlen l)) with (p + 1 + zlen l) by lia. exact Hr.
Qed.
Lemma zsub_at p seg post : zdrop p data = seg ++ post -> zsub p (zlen seg) data = seg.
Proof. intros Hd. unfold zsub. rewrite Hd, ztake_app_le by lia. by apply ztake_all. Qed.
Definition before_url : state := s_url UrlParser.s_req_spaces_before_url.
Lemma step_url_start c q k p :
  method q <> HTTP_CONNECT -> in_url (UrlParser.parse_url_char UrlParser.s_req_spaces_before_url c) = true ->
  step data c (MkExec (set_nread k (set_st before_url q)) no_marks p)
  = Done (inl Next, MkExec (set_nread k (set_st (s_url (UrlParser.parse_url_char UrlParser.s_req_spaces_before_url c)) q)) (set_mark MUrl (Some p) no_marks) p).
Proof.
  intros Hm Hc. destruct (url_byte _ _ Hc) as (H1 & _ & _). unfold step, get, mbind, C_bind. cbn [pbind ps set_nread set_st st part_of before_url step_req step_url].
  rewrite H1. unfold MARK, get, parse_url, upd, mbind, C_bind. cbn [pbind ps ms pos get_mark url_mark no_marks method set_nread set_st].
  destruct (Z.eqb_spec (method q) HTTP_CONNECT); [done|]. cbn [pbind]. by rewrite decide_False by (intros Hd; by rewrite Hd in Hc).
Qed.
Lemma reads_url c l q :
  method q <> HTTP_CONNECT -> in_url (UrlParser.parse_url_char UrlParser.s_req_spaces_before_url c) = true ->
  url_reads (UrlParser.parse_url_char UrlParser.s_req_spaces_before_url c) l = true ->
  reads (set_st before_url q) ((c :: l) ++ bs " ") [Url (c :: l)] (set_st s_req_http_start q).
Proof.
  intros Hq Hc Hl k p post Hk Hm Hp Hd. rewrite zlen_app, zlen_cons in *. change (zlen (bs " ")) with 1 in *. pose proof (zlen_nonneg l).
  rewrite <- app_assoc in Hd. destruct (at_byte p c (l ++ bs " " ++ post) Hp Hd) as [Hch Hd1].
  destruct (runs_url l _ q (set_mark MUrl (Some p) no_marks) (k + 1) (p + 1) (bs " " ++ post) Hc Hl) as [Hr Hf]; [lia..|exact Hd1|].
  pose proof (at_app (p + 1) l _ ltac:(lia) Hd1) as Hd2. destruct (at_byte (p + 1 + zlen l) SP post ltac:(lia) Hd2) as [Hsp _].
  exists (1 + (length l + 1))%nat. change [Url (c :: l)] with ([] ++ ([] ++ ([Url (c :: l)] ++ []))).
  eapply runs_byte; [done|done|lia|lia|by rewrite (step_url_start c) by done|]. cbn [is_next move ps ms pos].
  eapply runs_trans; [exact Hr|]. set (u := fold_left _ l _) in *.
  eapply runs_byte; [exact Hsp|done|lia|lia| |].
  - unfold step, get, mbind, C_bind. cbn [pbind ps set_nread set_st st part_of step_req].
    assert (step_url data u SP = (upd (set_st s_req_http_start);; CALLBACK_DATA data MUrl;; mret Next)) as ->.
    { unfold step_url. change (eqc SP SP) with true. by destruct u. }
    unfold upd, CALLBACK_DATA, CALLBACK_DATA_, get_pos, get, get_marks, mbind, C_bind. cbn [pbind ps ms pos set_mark get_mark no_marks url_mark data_event].
    replace (p + 1 + zlen l - p) with (zlen (c :: l)) by (rewrite zlen_cons; lia).
    rewrite (zsub_at p (c :: l) (bs " " ++ post)) by done. reflexivity.
  - cbn. replace (k + (1 + zlen l + 1)) with (k + 1 + zlen l + 1) by lia. replace (p + (1 + zlen l + 1)) with (p + 1 + zlen l + 1) by lia. constructor.
Qed.

Ltac reads_goto q' := apply (reads_cons _ _ [] q'); [reflexivity|intros; reflexivity|].
Lemma digit_num d : 0 <= d < 10 -> UrlParser.IS_NUM (digit d) = true /\ b2z (digit d) - 48 = d.
Proof. exact (digit_ok d). Qed.
Lemma digit_not d : 0 <= d < 10 -> digit d <> SP /\ digit d <> CR /\ digit d <> LF.
Proof. intros Hd. assert (b2z (digit d) = 48 + d) as E by (apply z2b_small; lia). split_and!; intros H; rewrite H in E;
  [change (b2z SP) with 32 in E|change (b2z CR) with 13 in E|change (b2z LF) with 10 in E]; lia. Qed.
Lemma step_version s s' set d q k p :
  0 <= d < 10 -> (s, s', set) ∈ [(s_req_http_major, s_req_http_dot, set_major); (s_req_http_minor, s_req_http_end, set_minor);
                              (s_res_http_major, s_res_http_dot, set_major); (s_res_http_minor, s_res_http_end, set_minor)] ->
  zero (step data (digit d) (MkExec (set_nread k (set_st s q)) no_marks p)) = ((inl Next, MkExec (set_nread k (set_st s' (set d q))) no_marks p), []).
Proof.
  intros Hd Hs. destruct (digit_num d Hd) as [H1 H2]. rewrite !elem_of_cons, elem_of_nil in Hs.
  destruct Hs as [[= -> -> ->]|[[= -> -> ->]|[[= -> -> ->]|[[= -> -> ->]|[]]]]];
    (unfold step, get, mbind, C_bind; cbn [pbind ps set_nread set_st st part_of step_req step_res]; rewrite H1, H2; reflexivity).
Qed.
Lemma reads_version ma mi q :
  0 <= ma < 10 -> 0 <= mi < 10 ->
  reads (set_st s_req_http_start q) (bs "HTTP/" ++ [digit ma] ++ bs "." ++ [digit mi] ++ Http.CRLF) [] (set_st s_header_field_start (set_minor mi (set_major ma q))).
Proof.
  intros Hma Hmi.
  reads_goto (set_st s_req_http_H q). reads_goto (set_st s_req_http_HT q). reads_goto (set_st s_req_http_HTT q). reads_goto (set_st s_req_http_HTTP q).
  reads_goto (set_st s_req_http_major q).
  apply (reads_cons _ _ [] (set_st s_req_http_dot (set_major ma q))); [done|intros; apply step_version; [done|set_solver]|].
  reads_goto (set_st s_req_http_minor (set_major ma q)).
  apply (reads_cons _ _ [] (set_st s_req_http_end (set_minor mi (set_major ma q)))); [done|intros; apply (step_version s_req_http_minor); [done|set_solver]|].
  reads_goto (set_st s_req_line_almost_done (set_minor mi (set_major ma q))). reads_goto (set_st s_header_field_start (set_minor mi (set_major ma q))). apply reads_nil.
Qed.

(** *** A header *)
(** What a finished header adds, when the next line begins. *)
Definition settle (q : http_parser) : http_parser := match st q with s_header_value_lws => finish_header q | _ => q end.
Definition between (q : http_parser) : Prop := st q = s_header_field_start \/ st q = s_header_value_lws.
Definition is_name (c : byte) : bool := negb (TOKEN c =? 0).
Lemma name_byte c : is_name c = true -> blank c = false /\ eqc c CR = false /\ eqc c LF = false /\ UrlParser.is_char ":" c = false.
Proof.
  intros H. pose proof (UrlParser.forall_bytes is_name (fun c => negb (blank c) && negb (eqc c CR) && negb (eqc c LF) && negb (UrlParser.is_char ":" c)) ltac:(vm_compute; reflexivity) c H) as H1.
  rewrite !andb_true_iff, !negb_true_iff in H1. tauto.
Qed.
(** A header that is finished is settled when the next line begins. *)
Lemma runs_line_start c q k p es y :
  between q -> blank c = false -> 0 <= k -> k + 1 <= max_header_size -> data !! Z.to_nat p = Some c ->
  zero (step_header data s_header_field_start c (MkExec (set_nread (k + 1) (set_st s_header_field_start (settle q))) no_marks p)) = ((inl Next, y), es) ->
  exists n, runs n true (MkExec (set_nread k q) no_marks p) es true (move Next y).
Proof.
  intros Hq Hb Hk Hm Hch Hs. unfold settle in Hs. rewrite <- (app_nil_r es). destruct Hq as [Hq|Hq]; rewrite Hq in Hs.
  - exists 1%nat. eapply runs_byte with (f := Next) (y := y); [done|by rewrite Hq|lia|lia| |constructor].
    unfold step, get, mbind, C_bind. cbn [pbind ps]. change (st (set_nread _ q)) with (st q). rewrite Hq. cbn [part_of].
    replace (set_nread (k + 1) q) with (set_nread (k + 1) (set_st s_header_field_start q)) by (by destruct q; cbn in *; subst). exact Hs.
  - exists 2%nat. change (es ++ []) with ([] ++ (es ++ [])). eapply (runs_byte _ _ _ _ _ _ Again); [done|by rewrite Hq|lia|lia| |].
    + unfold step, get, mbind, C_bind. cbn [pbind ps]. change (st (set_nread _ q)) with (st q). rewrite Hq. cbn [part_of step_header]. rewrite Hb. reflexivity.
    + cbn [is_next move]. eapply runs_step with (f := Next) (y := y); [exact Hch| |constructor]. cbn [andb]. unfold step, get, mbind, C_bind. cbn [pbind ps ms pos mret C_ret set_st st part_of].
      rewrite <- Hs. unfold finish_header. change (header_state (set_nread (k + 1) q)) with (header_state q). by destruct (header_state q).
Qed.
Lemma step_name_start c q k p :
  is_name c = true ->
  zero (step_header data s_header_field_start c (MkExec (set_nread k (set_st s_header_field_start q)) no_marks p))
  = ((inl Next, MkExec (set_nread k (set_states s_header_field (start_field (TOKEN c)) (set_index 0 q))) (set_mark MField (Some p) no_marks) p), []).
Proof.
  intros Hc. destruct (name_byte c Hc) as (_ & H2 & H3 & _). unfold is_name in Hc. apply negb_true_iff in Hc.
  cbn [step_header]. unfold step_field_start. rewrite H2, H3, Hc. reflexivity.
Qed.
Lemma runs_name_start c q k p :
  between q -> is_name c = true -> 0 <= k -> k + 1 <= max_header_size -> data !! Z.to_nat p = Some c ->
  exists n, runs n true (MkExec (set_nread k q) no_marks p) [] true
    (MkExec (set_nread (k + 1) (set_states s_header_field (start_field (TOKEN c)) (set_index 0 (settle q)))) (set_mark MField (Some p) no_marks) (p + 1)).
Proof.
  intros Hq Hc Hk Hm Hch. destruct (name_byte c Hc) as (H1 & _).
  apply (runs_line_start c q k p [] (MkExec _ _ p) Hq H1 Hk Hm Hch). by apply step_name_start.
Qed.

(** The states of the name, which depend on nothing else in the parser. *)
Definition name_state (ch : byte) (h : header_states) (i : Z) : option (header_states * Z) :=
  (fun y => (header_state y, index y)) <$> field_char ch (set_header_state h (set_index i (http_parser_init HTTP_REQUEST))).
Fixpoint name_states (l : str) (h : header_states) (i : Z) : option (header_states * Z) :=
  match l with [] => Some (h, i) | c :: l => '(h, i) ← name_state c h i; name_states l h i end.
Lemma field_char_state ch x : field_char ch x = (fun hi => set_header_state (fst hi) (set_index (snd hi) x)) <$> name_state ch (header_state x) (index x).
Proof. destruct x as [a b c h i d e f g j k l m]. unfold name_state. destruct h; cbn; try done; by destruct (eqc ch SP). Qed.
Lemma field_loop_name l ch post p x h i :
  forallb is_name l = true -> is_name ch = false -> name_states l (header_state x) (index x) = Some (h, i) ->
  field_loop (l ++ ch :: post) p x = Some (p + zlen l, set_header_state h (set_index i x), Some ch).
Proof.
  revert p x. induction l as [|c l IH]; intros p x Hl Hch Hn; cbn [app field_loop forallb name_states] in *.
  - injection Hn as <- <-. unfold is_name in Hch. apply negb_false_iff in Hch. rewrite Hch, zlen_nil, Z.add_0_r. by destruct x.
  - apply andb_true_iff in Hl as [Hc Hl]. unfold is_name in Hc. apply negb_true_iff in Hc. rewrite Hc, field_char_state.
    destruct (name_state c (header_state x) (index x)) as [[h1 i1]|]; [|done]. cbn [fmap option_fmap option_map fst snd].
    rewrite (IH _ (set_header_state h1 (set_index i1 x)) Hl Hch Hn), zlen_cons. do 3 f_equal. lia.
Qed.
Lemma runs_name l q k p p0 name post h i :
  forallb is_name l = true -> st q = s_header_field -> name_states l (header_state q) (index q) = Some (h, i) ->
  0 <= k -> k + zlen l + 1 <= max_header_size -> 0 <= p -> zdrop p data = l ++ bs ":" ++ post -> zsub p0 (p + zlen l - p0) data = name ->
  runs 1 true (MkExec (set_nread k q) (set_mark MField (Some p0) no_marks) p) [HeaderField name]
    true (MkExec (set_nread (k + zlen l + 1) (set_states s_header_value_discard_ws h (set_index i q))) no_marks (p + zlen l + 1)).
Proof.
  intros Hl Hq Hn Hk Hm Hp Hd Hname. pose proof (zlen_nonneg l).
  assert (exists c r, zdrop p data = c :: r) as (c & r & Hcr) by (rewrite Hd; destruct l; cbn; eauto).
  destruct (at_byte p c r Hp Hcr) as [Hch _]. rewrite <- (app_nil_r [_]). eapply runs_byte; [exact Hch|by rewrite Hq|lia|lia| |].
  - unfold step, get, mbind, C_bind. cbn [pbind ps]. change (st (set_nread (k + 1) q)) with (st q). rewrite Hq. cbn [part_of step_header].
    unfold step_field, get_pos, get, mbind, C_bind. cbn [pbind ps ms pos]. rewrite Hd. change (bs ":" ++ post) with (UrlParser.chr ":" :: post).
    rewrite (field_loop_name l _ post p _ h i) by done. unfold upd, set_pos, mbind, C_bind. cbn [pbind ps ms pos].
    rewrite count_bytes by (cbn; lia). cbn [pbind ps ms pos].
    change (UrlParser.is_char ":" (UrlParser.chr ":")) with true. cbv iota. unfold CALLBACK_DATA, CALLBACK_DATA_, get_pos, get, get_marks, mbind, C_bind.
    cbn [pbind ps ms pos set_mark get_mark no_marks field_mark data_event]. rewrite Hname. reflexivity.
  - cbn. replace (k + 1 + (p + zlen l - p)) with (k + zlen l + 1) by lia. constructor.
Qed.

(** The loop over a value, up to the end of its line. *)
Definition value_reads (v : str) (x : http_parser) (h' : header_states) (x' : http_parser) : Prop :=
  forall k p post, zlen v < max_header_size -> value_loop (v ++ CR :: post) p None (header_state x) (set_nread k x) = (VCR, p + zlen v, h', set_nread k x').
Lemma runs_value v x k p p0 value post h' x' :
  st x = s_header_value -> value_reads v x h' x' ->
  0 <= k -> k + zlen v + 2 <= max_header_size -> 0 <= p -> zdrop p data = v ++ Http.CRLF ++ post -> zsub p0 (p + zlen v - p0) data = value ->
  runs 2 true (MkExec (set_nread k x) (set_mark MValue (Some p0) no_marks) p) [HeaderValue value]
    true (MkExec (set_nread (k + zlen v + 2) (set_states s_header_value_lws h' x')) no_marks (p + zlen v + 2)).
Proof.
  intros Hx Hv Hk Hm Hp Hd Hval. pose proof (zlen_nonneg v).
  assert (exists c r, zdrop p data = c :: r) as (c & r & Hcr) by (rewrite Hd; destruct v; cbn; eauto).
  destruct (at_byte p c r Hp Hcr) as [Hch _]. pose proof (at_app p v _ Hp Hd) as Hd1. destruct (at_byte (p + zlen v) CR (LF :: post) ltac:(lia) Hd1) as [_ Hd2].
  destruct (at_byte (p + zlen v + 1) LF post ltac:(lia) Hd2) as [Hlf _]. change [HeaderValue value] with ([HeaderValue value] ++ ([] ++ [])).
  eapply runs_byte; [exact Hch|by rewrite Hx|lia|lia| |].
  - unfold step, get, mbind, C_bind. cbn [pbind ps]. change (st (set_nread (k + 1) x)) with (st x). rewrite Hx. cbn [part_of step_header].
    unfold step_value, get_pos, get, mbind, C_bind. cbn [pbind ps ms pos]. rewrite Hd. change (Http.CRLF ++ post) with (CR :: LF :: post).
    change (header_state (set_nread (k + 1) x)) with (header_state x). rewrite Hv by lia. unfold upd, set_pos, CALLBACK_DATA, CALLBACK_DATA_, get_pos, get, get_marks, mbind, C_bind.
    cbn [pbind ps ms pos set_mark get_mark no_marks value_mark data_event]. rewrite Hval. unfold notify. rewrite !zero_bind, zero_emit. cbn [zero interp fst snd pbind Z.eqb clear_mark ps ms pos].
    rewrite count_bytes by (cbn; lia). reflexivity.
  - cbn [is_next move ps ms pos]. eapply (runs_byte _ _ (set_states s_header_almost_done h' x')); [exact Hlf|done|cbn; lia|cbn; lia|reflexivity|].
    cbn. replace (k + 1 + (p + zlen v - p) + 1) with (k + zlen v + 2) by lia. replace (p + zlen v + 1 + 1) with (p + zlen v + 2) by lia. constructor.
Qed.
(** The first character of a value. *)
Definition value_begins (v0 : byte) (x x' : http_parser) : Prop :=
  forall k p, step_value_start v0 (MkExec (set_nread k x) no_marks p) = Done (inl Next, MkExec (set_nread k x') (set_mark MValue (Some p) no_marks) p).
Definition starts_value (c : byte) : bool := negb (blank c) && negb (eqc c CR) && negb (eqc c LF).
Lemma step_discard_blank q k p : st q = s_header_value_discard_ws -> zero (step data SP (MkExec (set_nread k q) no_marks p)) = ((inl Next, MkExec (set_nread k q) no_marks p), []).
Proof. intros Hq. unfold step, get, mbind, C_bind. cbn [pbind ps]. change (st (set_nread k q)) with (st q). by rewrite Hq. Qed.
Lemma step_begins v0 q x k p :
  st q = s_header_value_discard_ws -> starts_value v0 = true -> value_begins v0 q x ->
  zero (step data v0 (MkExec (set_nread k q) no_marks p)) = ((inl Next, MkExec (set_nread k x) (set_mark MValue (Some p) no_marks) p), []).
Proof.
  intros Hq Hv0 Hb. unfold starts_value in Hv0. rewrite !andb_true_iff, !negb_true_iff in Hv0. destruct Hv0 as [[Hbl Hcr] Hlf].
  unfold step, get, mbind, C_bind. cbn [pbind ps]. change (st (set_nread k q)) with (st q). rewrite Hq. cbn [part_of step_header]. rewrite Hbl, Hcr, Hlf. by rewrite (Hb k p).
Qed.
Lemma reads_line q c l v0 v h i x h' x' :
  between q -> forallb is_name (c :: l) = true -> name_states l (start_field (TOKEN c)) 0 = Some (h, i) -> starts_value v0 = true ->
  value_begins v0 (set_states s_header_value_discard_ws h (set_index i (settle q))) x -> st x = s_header_value -> value_reads v x h' x' ->
  reads q ((c :: l) ++ bs ": " ++ (v0 :: v) ++ Http.CRLF) [HeaderField (c :: l); HeaderValue (v0 :: v)] (set_states s_header_value_lws h' x').
Proof.
  intros Hq Hn Hh Hv0 Hb Hx Hv k p post Hk Hm Hp Hd. cbn [forallb] in Hn. apply andb_true_iff in Hn as [Hc Hl].
  rewrite !zlen_app, !zlen_cons in *. change (zlen (bs ": ")) with 2 in *. change (zlen Http.CRLF) with 2 in *. pose proof (zlen_nonneg l). pose proof (zlen_nonneg v).
  rewrite <- !app_assoc in Hd. destruct (at_byte p c _ Hp Hd) as [Hch Hd1].
  destruct (runs_name_start c q k p) as [n Hr]; [done..|lia|done|].
  assert (zsub p (p + 1 + zlen l - p) data = c :: l) as Hname.
  { replace (p + 1 + zlen l - p) with (zlen (c :: l)) by (rewrite zlen_cons; lia). by eapply zsub_at. }
  pose proof (runs_name l (set_states s_header_field (start_field (TOKEN c)) (set_index 0 (settle q))) (k + 1) (p + 1) p (c :: l) (bs " " ++ (v0 :: v) ++ Http.CRLF ++ post) h i
    Hl eq_refl Hh ltac:(lia) ltac:(lia) ltac:(lia) Hd1 Hname) as Hr2.
  pose proof (at_app (p + 1) l _ ltac:(lia) Hd1) as Hd2. destruct (at_byte (p + 1 + zlen l) _ _ ltac:(lia) Hd2) as [_ Hd3].
  destruct (at_byte (p + 1 + zlen l + 1) SP _ ltac:(lia) Hd3) as [Hsp Hd4]. destruct (at_byte (p + 1 + zlen l + 1 + 1) v0 _ ltac:(lia) Hd4) as [Hat Hd5].
  assert (zsub (p + 1 + zlen l + 1 + 1) (p + 1 + zlen l + 1 + 1 + 1 + zlen v - (p + 1 + zlen l + 1 + 1)) data = v0 :: v) as Hval.
  { replace (_ - _) with (zlen (v0 :: v)) by (rewrite zlen_cons; lia). by eapply zsub_at. }
  pose proof (runs_value v x (k + 1 + zlen l + 1 + 1 + 1) (p + 1 + zlen l + 1 + 1 + 1) (p + 1 + zlen l + 1 + 1) (v0 :: v) post h' x' Hx Hv ltac:(lia) ltac:(lia) ltac:(lia) Hd5 Hval) as Hr3.
  exists (n + (1 + (1 + (1 + 2))))%nat. change [HeaderField (c :: l); HeaderValue (v0 :: v)] with ([] ++ [HeaderField (c :: l)] ++ [] ++ [] ++ [HeaderValue (v0 :: v)]).
  eapply runs_trans; [exact Hr|]. eapply runs_trans; [exact Hr2|].
  eapply runs_byte; [exact Hsp|done|lia|lia|by apply step_discard_blank|]. cbn [is_next move ps ms pos].
  eapply runs_byte; [exact Hat|done|lia|lia|by apply step_begins|]. cbn [is_next move ps ms pos].
  replace (k + (1 + zlen l + (2 + (1 + zlen v + 2)))) with (k + 1 + zlen l + 1 + 1 + 1 + zlen v + 2) by lia.
  replace (p + (1 + zlen l + (2 + (1 + zlen v + 2)))) with (p + 1 + zlen l + 1 + 1 + 1 + zlen v + 2) by lia. exact Hr3.
Qed.
End runs.

(** ** The names that the parser knows *)
Definition word (w : str) : list Z := map b2z w.
(** What a state of the name says about the characters read, and [index]. *)
Definition name_inv (w : list Z) (h : header_states) (i : Z) : Prop :=
  let matching m := 0 <= i < zlen m - 1 /\ w = ztake (i + 1) (word m) in
  match h with
  | h_general => True
  | h_C => w = word (bs "c") /\ i = 0
  | h_CO => w = word (bs "co") /\ i = 1
  | h_CON => w = word (bs "con") /\ i = 2
  | h_matching_connection => matching CONNECTION
  | h_matching_proxy_connection => matching PROXY_CONNECTION
  | h_matching_content_length => matching CONTENT_LENGTH
  | h_matching_transfer_encoding => matching TRANSFER_ENCODING
  | h_matching_upgrade => matching HttpMachine.UPGRADE
  | h_connection => w = word CONNECTION \/ w = word PROXY_CONNECTION
  | h_content_length => w = word CONTENT_LENGTH
  | h_transfer_encoding => w = word TRANSFER_ENCODING
  | h_upgrade => w = word HttpMachine.UPGRADE
  | _ => False
  end.
Lemma c_at_word w i c : 0 <= i < zlen w -> c_at w i = Some c -> ztake (i + 1) (word w) = ztake i (word w) ++ [c].
Proof.
  intros Hi. unfold c_at. destruct (Z.ltb_spec i 0); [lia|]. destruct (w !! Z.to_nat i) as [b|] eqn:E.
  - intros [= <-]. unfold ztake, word. rewrite Z2Nat.inj_add, Nat.add_1_r by lia. apply take_S_r. by rewrite list_lookup_fmap, E.
  - apply lookup_ge_None_1 in E. unfold zlen in Hi. lia.
Qed.
Lemma match_word_spec w c i on full off q :
  0 <= i < zlen w - 1 -> zlen w <= 100 ->
  let r := match_word w c (incr_index (set_index i q)) on full off in
  r = off \/ (r = on /\ i + 1 < zlen w - 1 /\ ztake (i + 1 + 1) (word w) = ztake (i + 1) (word w) ++ [c])
  \/ (r = full /\ word w = ztake (i + 1) (word w) ++ [c]).
Proof.
  intros Hi Hw. unfold match_word. cbn [incr_index index set_index]. rewrite Z.mod_small by lia.
  destruct (Z.ltb_spec (zlen w) (i + 1)); [lia|]. case_bool_decide as Hc; cbn [negb orb]; [|by left]. apply c_at_word in Hc; [|lia]. right.
  destruct (Z.eqb_spec (i + 1) (zlen w - 1)); [right|left; split_and!; [done|lia|done]]. split; [done|]. rewrite <- Hc.
  symmetry. apply ztake_all. unfold word, zlen. rewrite length_map. unfold zlen in *. lia.
Qed.
Lemma name_step w h i ch :
  name_inv w h i -> is_name ch = true -> exists h' i', name_state ch h i = Some (h', i') /\ name_inv (w ++ [TOKEN ch]) h' i'.
Proof.
  intros Hw Hc. destruct (name_byte ch Hc) as (Hb & _). unfold blank in Hb. apply orb_false_iff in Hb as [Hsp _].
  assert (forall m on full, 0 <= i < zlen m - 1 -> zlen m <= 100 ->
    (forall w i, name_inv w on i <-> 0 <= i < zlen m - 1 /\ w = ztake (i + 1) (word m)) -> (forall i, name_inv (word m) full i) ->
    exists h' i', Some (match_word m (TOKEN ch) (incr_index (set_index i (http_parser_init HTTP_REQUEST))) on full h_general, (i + 1) mod 128) = Some (h', i')
      /\ name_inv (ztake (i + 1) (word m) ++ [TOKEN ch]) h' i') as Hmatch.
  { intros m on full Hi Hm Hon Hfull. eexists _, _. split; [done|]. rewrite Z.mod_small by lia.
    destruct (match_word_spec m (TOKEN ch) i on full h_general (http_parser_init HTTP_REQUEST) Hi Hm) as [->|[(-> & Hl & He)|(-> & He)]]; [done| |].
    - apply Hon. split; [lia|]. by rewrite He.
    - rewrite <- He. apply Hfull. }
  destruct h; try done; cbn [name_inv] in Hw; unfold name_state; cbn [field_char header_state set_header_state set_index index].
  - by eexists _, _.
  - destruct Hw as [-> ->]. eexists _, _. split; [reflexivity|]. cbn [header_state index set_header_state incr_index set_index].
    destruct (Z.eqb_spec (TOKEN ch) (lit "o")) as [->|]; [by split_and!; vm_compute|done].
  - destruct Hw as [-> ->]. eexists _, _. split; [reflexivity|]. cbn [header_state index set_header_state incr_index set_index].
    destruct (Z.eqb_spec (TOKEN ch) (lit "n")) as [->|]; [by split_and!; vm_compute|done].
  - destruct Hw as [-> ->]. eexists _, _. split; [reflexivity|]. cbn [header_state index set_header_state incr_index set_index].
    destruct (Z.eqb_spec (TOKEN ch) (lit "n")) as [->|]; [by split_and!; vm_compute|].
    destruct (Z.eqb_spec (TOKEN ch) (lit "t")) as [->|]; [by split_and!; vm_compute|done].
  - destruct Hw as [Hi ->]. apply (Hmatch CONNECTION); [done|by vm_compute|done|by left].
  - destruct Hw as [Hi ->]. apply (Hmatch PROXY_CONNECTION); [done|by vm_compute|done|by right].
  - destruct Hw as [Hi ->]. apply (Hmatch CONTENT_LENGTH); [done|by vm_compute|done|done].
  - destruct Hw as [Hi ->]. apply (Hmatch TRANSFER_ENCODING); [done|by vm_compute|done|done].
  - destruct Hw as [Hi ->]. apply (Hmatch HttpMachine.UPGRADE); [done|by vm_compute|done|done].
  - rewrite Hsp. by eexists _, _.
  - rewrite Hsp. by eexists _, _.
  - rewrite Hsp. by eexists _, _.
  - rewrite Hsp. by eexists _, _.
Qed.
Lemma name_run l w h i :
  name_inv w h i -> forallb is_name l = true -> exists h' i', name_states l h i = Some (h', i') /\ name_inv (w ++ map TOKEN l) h' i'.
Proof.
  revert w h i. induction l as [|c l IH]; intros w h i Hw Hl; cbn [forallb name_states map] in *; [exists h, i; by rewrite app_nil_r|].
  apply andb_true_iff in Hl as [Hc Hl]. destruct (name_step w h i c Hw Hc) as (h1 & i1 & -> & Hw1). cbn. destruct (IH _ _ _ Hw1 Hl) as (h' & i' & Hr & Hw').
  exists h', i'. split; [done|]. by rewrite <- app_assoc in Hw'.
Qed.
Lemma name_first c : is_name c = true -> name_inv [TOKEN c] (start_field (TOKEN c)) 0.
Proof.
  intros _. unfold start_field. destruct (Z.eqb_spec (TOKEN c) (lit "c")) as [->|]; [by split_and!; vm_compute|]. destruct (Z.eqb_spec (TOKEN c) (lit "p")) as [->|]; [by split_and!; vm_compute|].
  destruct (Z.eqb_spec (TOKEN c) (lit "t")) as [->|]; [by split_and!; vm_compute|]. destruct (Z.eqb_spec (TOKEN c) (lit "u")) as [->|]; [by split_and!; vm_compute|done].
Qed.

(** ** Values *)
Definition value_byte (c : byte) : bool := IS_HEADER_CHAR c && negb (eqc c CR) && negb (eqc c LF).
Lemma value_byte_spec c : value_byte c = true -> IS_HEADER_CHAR c = true /\ eqc c CR = false /\ eqc c LF = false.
Proof. unfold value_byte. rewrite !andb_true_iff, !negb_true_iff. tauto. Qed.

(** A value that the parser does not look at. *)
Definition plain_state (h : header_states) : bool :=
  match h with
  | h_upgrade | h_transfer_encoding | h_content_length | h_content_length_ws | h_connection | h_matching_connection_token_start => false
  | _ => true
  end.
Lemma plain_begins v0 s h i q :
  plain_state h = true -> value_begins v0 (set_states s h (set_index i q)) (set_states s_header_value h_general (set_index 0 q)).
Proof. intros Hh k p. by destruct h. Qed.
Lemma fast_reads v post p f h x :
  forallb value_byte v = true -> zlen v < f -> value_loop (v ++ CR :: post) p (Some f) h x = (VCR, p + zlen v, h, x).
Proof.
  revert p f. induction v as [|c v IH]; intros p f Hv Hf; cbn [app value_loop forallb] in *.
  - rewrite zlen_nil in *. rewrite bool_decide_false by (intros [= ->]; lia). by rewrite Z.add_0_r.
  - apply andb_true_iff in Hv as [(H1 & H2 & H3)%value_byte_spec Hv]. rewrite zlen_cons in *. pose proof (zlen_nonneg v).
    rewrite bool_decide_false by (intros [= ->]; lia). rewrite H1, H2, H3. cbn [negb]. rewrite IH by (done || lia). do 3 f_equal. lia.
Qed.
Lemma plain_reads v x : forallb value_byte v = true -> header_state x = h_general -> value_reads v x h_general x.
Proof.
  intros Hv Hx k p post Hm. rewrite Hx. destruct v as [|c v]; cbn [app value_loop forallb] in *.
  - rewrite bool_decide_false by done. by rewrite zlen_nil, Z.add_0_r.
  - apply andb_true_iff in Hv as [(H1 & H2 & H3)%value_byte_spec Hv]. rewrite bool_decide_false by done. rewrite H1, H2, H3. cbn [negb].
    rewrite !zlen_cons in *. pose proof (zlen_nonneg v). pose proof (zlen_nonneg post).
    rewrite fast_reads; [do 3 f_equal; lia|done|]. rewrite zlen_app, zlen_cons. lia.
Qed.

(** A value that it looks at. *)
Fixpoint value_chars (v : str) (h : header_states) (x : http_parser) : option (header_states * http_parser) :=
  match v with
  | [] => Some (h, x)
  | c :: v => if value_byte c && negb (bool_decide (h = h_general)) then match value_char c h x with inl (h, x) => value_chars v h x | inr _ => None end else None
  end.
Lemma value_chars_read v post p h x h' x' :
  value_chars v h x = Some (h', x') -> value_loop (v ++ CR :: post) p None h x = (VCR, p + zlen v, h', x').
Proof.
  revert p h x. induction v as [|c v IH]; intros p h x Hv; cbn [app value_loop value_chars] in *; rewrite bool_decide_false by done.
  - injection Hv as <- <-. by rewrite zlen_nil, Z.add_0_r.
  - destruct (value_byte c && _) eqn:E; [|done]. apply andb_true_iff in E as [(H1 & H2 & H3)%value_byte_spec Hh]. rewrite H1, H2, H3. cbn [negb].
    destruct (value_char c h x) as [[h1 x1]|] eqn:E; [|done]. replace (p + zlen (c :: v)) with (p + 1 + zlen v) by (rewrite zlen_cons; lia).
    rewrite <- (IH (p + 1) _ _ Hv). destruct h; first [done | by rewrite bool_decide_true in Hh].
Qed.
Definition matching_connection (close : bool) : header_states := if close then h_matching_connection_close else h_matching_connection_keep_alive.
Definition connection_state (close : bool) : header_states := if close then h_connection_close else h_connection_keep_alive.
Definition connection_value (close : bool) : str := if close then CLOSE else KEEP_ALIVE.
Lemma connection_begins close s i q :
  value_begins (default SP (head (connection_value close))) (set_states s h_connection (set_index i q)) (set_states s_header_value (matching_connection close) (set_index 0 q)).
Proof. intros k p. by destruct close. Qed.
Lemma connection_reads close q :
  value_reads (tail (connection_value close)) (set_states s_header_value (matching_connection close) (set_index 0 q)) (connection_state close)
    (set_states s_header_value (matching_connection close) (set_index (zlen (connection_value close) - 1) q)).
Proof. intros k p post _. apply value_chars_read. by destruct close. Qed.

Lemma num_byte c : isdigit c = true -> value_byte c = true /\ eqc c SP = false /\ UrlParser.IS_NUM c = true /\ starts_value c = true /\ 0 <= b2z c - 48 < 10.
Proof.
  intros H. pose proof (UrlParser.forall_bytes isdigit (fun c => value_byte c && negb (eqc c SP) && UrlParser.IS_NUM c && starts_value c && (48 <=? b2z c) && (b2z c <=? 57))
    ltac:(vm_compute; reflexivity) c H) as H1. rewrite !andb_true_iff, !negb_true_iff, !Z.leb_le in H1. split_and!; first [tauto|lia].
Qed.
Lemma digits_read l a x :
  forallb isdigit l = true -> 0 <= a -> fst (scan_digits l a) <= 2 ^ 63 ->
  value_chars l h_content_length_num (set_content_length a x) = Some (h_content_length_num, set_content_length (fst (scan_digits l a)) x).
Proof.
  revert a. induction l as [|c l IH]; intros a Hl Ha Hb; cbn [value_chars scan_digits forallb] in *; [done|].
  apply andb_true_iff in Hl as [Hc Hl]. rewrite Hc in *. destruct (num_byte c Hc) as (H1 & H2 & H3 & _ & H4). rewrite H1. cbn [andb negb bool_decide]. rewrite bool_decide_false by done.
  pose proof (Uri.Uri.scan_digits_ge l (10 * a + (b2z c - 48)) ltac:(lia)). cbn [negb value_char]. unfold content_length_char. rewrite H2, H3. cbn [negb content_length set_content_length].
  destruct (Z.ltb_spec ((ULLONG_MAX - 10) / 10) a) as [Hlt|_].
  - exfalso. assert (a <= (ULLONG_MAX - 10) / 10); [|lia]. apply Z.div_le_lower_bound; unfold ULLONG_MAX; lia.
  - rewrite (Z.mul_comm a), uw_small by (unfold in_u; lia). exact (IH (10 * a + (b2z c - 48)) Hl ltac:(lia) Hb).
Qed.

(** ** Lists of headers *)
Definition known_names : list str := [CONNECTION; PROXY_CONNECTION; CONTENT_LENGTH; TRANSFER_ENCODING; HttpMachine.UPGRADE].
Definition header_name (k : str) : bool := negb (bool_decide (k = [])) && forallb is_name k.
Definition header_value (v : str) : bool := match v with [] => false | c :: _ => starts_value c && forallb value_byte v end.
Definition plain_header (h : str * str) : bool := header_name (fst h) && header_value (snd h) && negb (bool_decide (Http.lower (fst h) ∈ known_names)).
(** A parser between two lines, up to what belongs to the line. *)
Definition core (q : http_parser) : http_parser := set_states s_header_field_start h_general (set_index 0 (settle q)).
(** [reads] up to [core]. *)
Definition reads_head (data : str) (q : http_parser) (seg : str) (es : list event) (c : http_parser) : Prop :=
  exists q', reads data q seg es q' /\ between q' /\ core q' = c.

Lemma name_lower c : is_name c = true -> TOKEN c = b2z (tolower c) /\ c <> Byte.x00.
Proof.
  intros H. pose proof (UrlParser.forall_bytes is_name (fun c => (TOKEN c =? b2z (tolower c)) && negb (eqc c Byte.x00)) ltac:(vm_compute; reflexivity) c H) as H1.
  unfold eqc in H1. rewrite andb_true_iff, negb_true_iff, bool_decide_eq_false, Z.eqb_eq in H1. tauto.
Qed.
Lemma name_word l : forallb is_name l = true -> map TOKEN l = word (Http.lower l).
Proof.
  intros Hl. rewrite forallb_forall in Hl. unfold Http.lower, word. rewrite c_str_id by (apply List.Forall_forall; intros c Hc; by apply name_lower, Hl).
  rewrite map_map. apply map_ext_in. intros c Hc. by apply name_lower, Hl.
Qed.
Lemma word_inj a b : word a = word b -> a = b.
Proof. revert b. induction a as [|x a IH]; intros [|y b]; try done. intros [= Hx%b2z_inj Hab]. subst. f_equal. by apply IH. Qed.
Lemma plain_name c l :
  forallb is_name (c :: l) = true -> Http.lower (c :: l) ∉ known_names -> exists h i, name_states l (start_field (TOKEN c)) 0 = Some (h, i) /\ plain_state h = true.
Proof.
  intros Hn Hk. pose proof Hn as Hcl. cbn [forallb] in Hn. apply andb_true_iff in Hn as [Hc Hl]. destruct (name_run l _ _ _ (name_first c Hc) Hl) as (h & i & Hr & Hi).
  exists h, i. split; [done|]. change ([TOKEN c] ++ map TOKEN l) with (map TOKEN (c :: l)) in Hi. rewrite name_word in Hi by done.
  destruct h; try done; exfalso; apply Hk; cbn [name_inv] in Hi; unfold known_names;
    [destruct Hi as [Hi|Hi]|..]; apply word_inj in Hi; rewrite Hi; set_solver.
Qed.
Lemma core_line h q : core (set_states s_header_value_lws h q) = set_states s_header_field_start h_general (set_index 0 (finish_header (set_header_state h q))).
Proof. by destruct h. Qed.
Lemma reads_plain data q h : between q -> plain_header h = true -> reads_head data q (Http.header_line h) [HeaderField (fst h); HeaderValue (snd h)] (core q).
Proof.
  intros Hq Hh. destruct h as [k v]. unfold plain_header, header_name in Hh. cbn [fst snd] in *. rewrite !andb_true_iff, !negb_true_iff, !bool_decide_eq_false in Hh.
  destruct Hh as [[[Hk0 Hk] Hv] Hn]. destruct k as [|c l]; [done|]. destruct v as [|v0 v]; [done|]. cbn [header_value forallb] in Hv. rewrite !andb_true_iff in Hv. destruct Hv as (Hv0 & _ & Hv).
  destruct (plain_name c l Hk Hn) as (h & i & Hs & Hp). eexists. split_and!.
  - eapply reads_line; [done|exact Hk|exact Hs|exact Hv0|by apply plain_begins|done|by apply plain_reads].
  - by right.
  - by rewrite core_line.
Qed.
Lemma reads_plains data q hs : between q -> forallb plain_header hs = true -> reads_head data q (concat (map Http.header_line hs)) (header_events hs) (core q).
Proof.
  revert q. induction hs as [|h hs IH]; intros q Hq Hh; [exists q; split_and!; [apply reads_nil|done|done]|]. cbn [forallb] in Hh. apply andb_true_iff in Hh as [Hh Hhs].
  destruct (reads_plain data q h Hq Hh) as (q1 & Hr1 & Hb1 & Hc1). destruct (IH q1 Hb1 Hhs) as (q2 & Hr2 & Hb2 & Hc2).
  exists q2. split_and!; [|done|congruence]. exact (reads_app data _ _ _ _ _ _ _ Hr1 Hr2).
Qed.

(** The lines that the parser looks at. *)
Definition connection_flag (close : bool) : Z := if close then F_CONNECTION_CLOSE else F_CONNECTION_KEEP_ALIVE.
Lemma reads_connection data q name close :
  between q -> name = bs "Connection" \/ name = CONNECTION ->
  reads_head data q (Http.header_line (name, connection_value close)) [HeaderField name; HeaderValue (connection_value close)] (set_flag (connection_flag close) (core q)).
Proof.
  intros Hq Hn. assert (exists c l i, name = c :: l /\ forallb is_name (c :: l) = true /\ name_states l (start_field (TOKEN c)) 0 = Some (h_connection, i)) as (c & l & i & -> & Hl & Hs).
  { destruct Hn as [->| ->]; [exists (UrlParser.chr "C"), (bs "onnection"), 9|exists (UrlParser.chr "c"), (bs "onnection"), 9]; by vm_compute. }
  eexists. split_and!.
  - pose proof (reads_line data q c l (default SP (head (connection_value close))) (tail (connection_value close)) h_connection i _ _ _ Hq Hl Hs ltac:(by destruct close)
      (connection_begins close _ _ _) eq_refl (connection_reads close _)) as Hr.
    eapply reads_as; [exact Hr|by destruct close..].
  - by right.
  - rewrite core_line. by destruct close.
Qed.
Lemma length_begins c s i q :
  isdigit c = true -> has F_CONTENTLENGTH q = false ->
  value_begins c (set_states s h_content_length (set_index i q))
    (set_content_length (b2z c - 48) (set_states s_header_value h_content_length_num (set_flag F_CONTENTLENGTH (set_index 0 q)))).
Proof.
  intros Hc Hf k p. destruct (num_byte c Hc) as (_ & _ & H3 & _ & _). unfold step_value_start, MARK, upd, get, mbind, C_bind.
  cbn [pbind ps ms pos get_mark value_mark no_marks set_mark header_state set_st set_index set_nread set_states set_header_state]. rewrite H3. cbn [negb].
  match goal with |- context [has F_CONTENTLENGTH ?x] => change (has F_CONTENTLENGTH x) with (has F_CONTENTLENGTH q) end. by rewrite Hf.
Qed.
Lemma reads_length data q n :
  between q -> has F_CONTENTLENGTH (core q) = false -> 0 <= n <= 2 ^ 63 ->
  reads_head data q (Http.header_line (bs "content-length", dec n)) [HeaderField (bs "content-length"); HeaderValue (dec n)]
    (set_content_length n (set_flag F_CONTENTLENGTH (core q))).
Proof.
  intros Hq Hf Hn. pose proof (dec_digits n ltac:(lia)) as Hd. destruct (scan_dec n [] 0 ltac:(lia) ltac:(done) ltac:(lia)) as (k & _ & Hs). rewrite app_nil_r in Hs.
  destruct (dec n) as [|c l] eqn:E; [by apply dec_nonempty in E|]. apply Forall_cons in Hd as [Hc Hd]. cbn [scan_digits] in Hs. rewrite Hc in Hs.
  destruct (num_byte c Hc) as (_ & _ & _ & H4 & H5). assert (forallb isdigit l = true) as Hl by (apply forallb_forall, List.Forall_forall, Hd).
  assert (fst (scan_digits l (b2z c - 48)) = n) as Hval.
  { replace (b2z c - 48) with (10 * 0 + (b2z c - 48)) by lia. rewrite Hs. cbn. lia. }
  set (x := set_states s_header_value h_content_length_num (set_flag F_CONTENTLENGTH (set_index 0 (settle q)))).
  exists (set_states s_header_value_lws h_content_length_num (set_content_length n x)). split_and!.
  - apply (reads_line data q (UrlParser.chr "c") (bs "ontent-length") c l h_content_length 13 (set_content_length (b2z c - 48) x));
      [done|done|done|exact H4|apply length_begins; [done|exact Hf]|done|].
    intros j p post _. apply value_chars_read. rewrite <- Hval. apply (digits_read l (b2z c - 48) (set_nread j x)); [done|lia|]. rewrite Hval. lia.
  - by right.
  - by rewrite core_line.
Qed.

(** ** The end of a head, and the body *)
Section message_end.
Context (data : str) (q : http_parser).
#[local] Existing Instances C_ret C_bind.
(** Neither chunked nor upgraded. *)
Definition identity (q : http_parser) : Prop := has F_TRAILING q = false /\ has F_CHUNKED q = false /\ has F_SKIPBODY q = false /\ upgrades q = false.
Definition head_event (q : http_parser) : event := HeadersComplete (http_major q) (http_minor q) (method q) (status_code q).
Definition after_head (s : state) (q : http_parser) : http_parser := set_nread 0 (set_st s (set_upgrade false q)).
Definition without_body (q : http_parser) : bool := (content_length q =? 0) || ((content_length q =? ULLONG_MAX) && negb (http_message_needs_eof q)).

Lemma step_head_complete k p :
  identity q ->
  zero (step data LF (MkExec (set_nread k (set_st s_headers_almost_done q)) no_marks p))
  = ((inl Again, MkExec (set_nread k (set_upgrade false (set_st s_headers_done q))) no_marks p), [head_event q]).
Proof.
  intros (H1 & H2 & _ & H4). unfold step, get, mbind, C_bind. cbn [pbind ps set_nread set_st st part_of step_body]. unfold step_headers_almost_done, STRICT_CHECK, get, upd, mbind, C_bind.
  change (negb (eqc LF LF)) with false. cbn [pbind mret C_ret ps ms pos].
  match goal with |- context [has F_TRAILING ?x] => change (has F_TRAILING x) with (has F_TRAILING q); change (has F_CHUNKED x) with (has F_CHUNKED q) end.
  rewrite H1, H2. cbn [andb pbind ps ms pos]. match goal with |- context [upgrades ?x] => change (upgrades x) with (upgrades q) end. rewrite H4. reflexivity.
Qed.
Lemma step_head_done k p :
  identity q ->
  zero (step data LF (MkExec (set_nread k (set_upgrade false (set_st s_headers_done q))) no_marks p))
  = if without_body q then ((inl Next, MkExec (after_head (NEW_MESSAGE q) q) no_marks p), [MessageComplete])
    else ((inl Next, MkExec (after_head (if content_length q =? ULLONG_MAX then s_body_identity_eof else s_body_identity) q) no_marks p), []).
Proof.
  intros (_ & H2 & H3 & _). unfold step, get, mbind, C_bind. cbn [pbind ps set_nread set_st set_upgrade st part_of step_body]. unfold step_headers_done, STRICT_CHECK, get, get_pos, upd, mbind, C_bind.
  change (negb (eqc LF LF)) with false. cbn [pbind mret C_ret ps ms pos set_nread set_st set_upgrade upgrade content_length andb].
  match goal with |- context [has F_SKIPBODY ?x] => change (has F_SKIPBODY x) with (has F_SKIPBODY q); change (has F_CHUNKED x) with (has F_CHUNKED q) end.
  rewrite H2, H3. unfold without_body. destruct (content_length q =? 0); [reflexivity|]. cbn [orb]. destruct (content_length q =? ULLONG_MAX); [|reflexivity]. cbn [negb andb].
  match goal with |- context [http_message_needs_eof ?x] => change (http_message_needs_eof x) with (http_message_needs_eof q) end.
  by destruct (http_message_needs_eof q).
Qed.
End message_end.

Lemma runs_head_end data q k p post :
  between q -> identity (settle q) -> 0 <= k -> k + 2 <= max_header_size -> 0 <= p -> zdrop p data = Http.CRLF ++ post ->
  exists n, runs data n true (MkExec (set_nread k q) no_marks p)
    (head_event (settle q) :: if without_body (settle q) then [MessageComplete] else []) true
    (MkExec (after_head (if without_body (settle q) then NEW_MESSAGE (settle q)
       else if content_length (settle q) =? ULLONG_MAX then s_body_identity_eof else s_body_identity) (settle q)) no_marks (p + 2)).
Proof.
  intros Hq Hi Hk Hm Hp Hd. destruct (at_byte data p CR (LF :: post) Hp Hd) as [Hcr Hd1]. destruct (at_byte data (p + 1) LF post ltac:(lia) Hd1) as [Hlf _].
  destruct (runs_line_start data CR q k p [] (MkExec (set_nread (k + 1) (set_st s_headers_almost_done (settle q))) no_marks p)) as [n Hr]; [done|done|lia|lia|done|reflexivity|].
  exists (n + 2)%nat. rewrite <- (app_nil_l (head_event _ :: _)). eapply runs_trans; [exact Hr|]. revert Hi. generalize (settle q). intros e Hi.
  cbn [move ps ms pos]. change (head_event e :: ?l) with ([head_event e] ++ l).
  eapply runs_byte; [exact Hlf|done|lia|lia|by apply step_head_complete|]. cbn [is_next move ps ms pos].
  rewrite <- (app_nil_r (if without_body e then _ else _)). replace (p + 2) with (p + 1 + 1) by lia.
  eapply runs_step with (f := Next) (y := MkExec _ no_marks (p + 1)); [exact Hlf| |constructor].
  etransitivity; [exact (step_head_done data e (k + 1 + 1) (p + 1) Hi)|]. by destruct (without_body e).
Qed.

Lemma step_body_read data q p b post :
  b <> [] -> 0 <= p -> content_length q = zlen b -> zlen b < ULLONG_MAX -> zdrop p data = b ++ post -> st q = s_body_identity ->
  forall ch, zero (step data ch (MkExec q no_marks p))
  = ((inl Again, MkExec (set_st s_message_done (set_content_length 0 q)) no_marks (p + zlen b - 1)), [Body b]).
Proof.
  intros Hb Hp Hl Hm Hd Hs ch. assert (0 < zlen b) as H0 by (destruct b as [|? b]; [done|rewrite zlen_cons; pose proof (zlen_nonneg b); lia]).
  assert (zlen b <= zlen data - p) as Hr.
  { assert (zlen (zdrop p data) = zlen b + zlen post) as E by (rewrite Hd, zlen_app; done). pose proof (zlen_nonneg post).
    unfold zlen, zdrop in *. rewrite length_drop in E. lia. }
  unfold step, get, mbind, C_bind. cbn [pbind ps]. rewrite Hs. cbn [part_of step_body]. unfold to_read, assert_length, assert, take_body, MARK, get, get_pos, set_pos, upd, mbind, C_bind.
  cbn [pbind ps ms pos mret C_ret]. rewrite Hl, Z.min_l by lia. destruct (Z.eqb_spec (zlen b) 0); [lia|]. destruct (Z.eqb_spec (zlen b) ULLONG_MAX); [lia|].
  cbn [negb andb pbind ps ms pos get_mark body_mark no_marks set_mark content_length set_content_length mret C_ret]. rewrite Hl, Z.sub_diag. cbn [Z.eqb].
  unfold upd, get_pos, CALLBACK_DATA_, get, get_marks, mbind, C_bind. cbn [pbind ps ms pos set_mark get_mark no_marks body_mark data_event].
  replace (p + (zlen b - 1) + 1 - p) with (zlen b) by lia. rewrite (zsub_at data p b post Hd). replace (p + zlen b - 1) with (p + (zlen b - 1)) by lia. reflexivity.
Qed.
Definition finished (q : http_parser) : http_parser := set_st (NEW_MESSAGE q) q.
Lemma step_message_done data q p ch :
  st q = s_message_done -> upgrade q = false ->
  zero (step data ch (MkExec q no_marks p)) = ((inl Next, MkExec (finished q) no_marks p), [MessageComplete]).
Proof.
  intros Hs Hu. unfold step, get, mbind, C_bind. cbn [pbind ps]. rewrite Hs. cbn [part_of step_body]. unfold message_complete, CALLBACK_NOTIFY, get, get_pos, upd, notify, mbind, C_bind.
  cbn [pbind ps ms pos]. rewrite zero_emit. cbn [Z.eqb pbind ps set_st upgrade]. rewrite Hu. reflexivity.
Qed.
Lemma runs_body data q p b post :
  b <> [] -> 0 <= p -> content_length q = zlen b -> zlen b < ULLONG_MAX -> zdrop p data = b ++ post -> st q = s_body_identity -> upgrade q = false ->
  runs data 2 true (MkExec q no_marks p) [Body b; MessageComplete] true (MkExec (finished (set_content_length 0 q)) no_marks (p + zlen b)).
Proof.
  intros Hb Hp Hl Hm Hd Hs Hu. destruct (exists_last Hb) as (b' & c & Eb). assert (zlen b = zlen b' + 1) as Hz by (rewrite Eb, zlen_app; done).
  assert (exists c0 r, zdrop p data = c0 :: r) as (c0 & r & Hc0) by (rewrite Hd; destruct b; [done|cbn; eauto]). destruct (at_byte data p c0 r Hp Hc0) as [Hch _].
  rewrite Eb, <- app_assoc in Hd. pose proof (at_app data p b' _ Hp Hd) as Hd1. pose proof (zlen_nonneg b'). destruct (at_byte data (p + zlen b') c post ltac:(lia) Hd1) as [Hch2 _].
  change [Body b; MessageComplete] with ([Body b] ++ [MessageComplete] ++ []). eapply runs_step with (f := Again); [exact Hch| |].
  - cbn [andb ps]. rewrite Hs. change (PARSING_HEADER s_body_identity) with false.
    apply (step_body_read data q p b post); [done..| |done]. rewrite Eb, <- app_assoc. done.
  - cbn [is_next move]. eapply runs_step with (f := Next) (y := MkExec _ no_marks (p + zlen b - 1)); [cbn [pos]; replace (p + zlen b - 1) with (p + zlen b') by lia; exact Hch2| |].
    + cbn [andb]. by apply step_message_done.
    + cbn [is_next move ps ms pos]. replace (p + zlen b - 1 + 1) with (p + zlen b) by lia.
      apply runs_refl.
Qed.

(** ** A whole buffer *)
Lemma runs_short data n fuel b b' x y es : runs data n b x es b' y -> (fuel <= n)%nat -> exists z es', zero (loop data fuel b x) = ((inr OutOfFuel, z), es').
Proof.
  intros Hr. revert fuel. induction Hr as [b x|n b x ch f y0 es0 es1 b1 y Hch Hs _ IH]; intros [|fuel] Hf; try lia; [by eexists _, _..|].
  destruct (IH fuel ltac:(lia)) as (z & es' & Hz). cbn [loop]. rewrite Hch. exists z, (es0 ++ es'). eapply bind_zero; [exact Hs|]. by destruct f.
Qed.
Lemma execute_runs data n q q' es :
  data <> [] -> valid q = true -> http_errno q = 0 -> first_marks (st q) = no_marks ->
  runs data n true (MkExec q no_marks 0) es true (MkExec q' no_marks (zlen data)) ->
  interp record (execute data q) [] = ((Returned (zlen data), q'), es).
Proof.
  intros Hd Hv He Hf Hr. change (interp record (execute data q) []) with (zero (execute data q)).
  pose proof (all_interp record _ _ [] (execute_all data q Hv)) as (r & Hr1 & _). change (interp record ?p []) with (zero p) in Hr1. revert Hr1. unfold execute. rewrite He. cbn [negb Z.eqb HPE_OK].
  rewrite bool_decide_false by done. rewrite Hf, !zero_bind.
  destruct (Nat.lt_ge_cases n (loop_fuel data)) as [Hlt|Hge].
  - rewrite (runs_more data n (loop_fuel data) _ _ _ Hr eq_refl eq_refl Hlt). intros _. cbn. by rewrite app_nil_r.
  - destruct (runs_short data n (loop_fuel data) _ _ _ _ _ Hr Hge) as (z & es' & ->). done.
Qed.

Lemma reads_head_app data q q1 a b ea eb c : reads data q a ea q1 -> reads_head data q1 b eb c -> reads_head data q (a ++ b) (ea ++ eb) c.
Proof. intros Ha (q2 & Hb & Hq2 & Hc). exists q2. split_and!; [by eapply reads_app|done|done]. Qed.
Lemma reads_head_bind data q a b ea eb c c' :
  reads_head data q a ea c -> (forall q1, between q1 -> core q1 = c -> reads_head data q1 b eb c') -> reads_head data q (a ++ b) (ea ++ eb) c'.
Proof. intros (q1 & Ha & Hq1 & Hc) Hb. eapply reads_head_app; [exact Ha|by apply Hb]. Qed.

(** The headers of a message: the connection, those it was given, and the
    length of a body. *)
Definition length_header (b : str) : list (str * str) := if bool_decide (b = []) then [] else [(bs "content-length", dec (zlen b))].
Definition with_length (b : str) (c : http_parser) : http_parser := if bool_decide (b = []) then c else set_content_length (zlen b) (set_flag F_CONTENTLENGTH c).
Lemma reads_headers data q name close hs b :
  between q -> name = bs "Connection" \/ name = CONNECTION -> forallb plain_header hs = true -> flags (core q) = 0 -> zlen b <= 2 ^ 63 ->
  reads_head data q (Http.header_line (name, connection_value close) ++ concat (map Http.header_line hs) ++ concat (map Http.header_line (length_header b)))
    (header_events ((name, connection_value close) :: hs ++ length_header b)) (with_length b (set_flag (connection_flag close) (core q))).
Proof.
  intros Hq Hn Hh Hf Hb. change (header_events (?h :: ?l)) with ([HeaderField (fst h); HeaderValue (snd h)] ++ header_events l).
  eapply reads_head_bind; [by apply reads_connection|]. intros q1 Hq1 Hc1. assert (header_events (hs ++ length_header b) = header_events hs ++ header_events (length_header b)) as -> by apply flat_map_app.
  eapply reads_head_bind; [by apply reads_plains|]. intros q2 Hq2 Hc2. rewrite Hc1 in Hc2. unfold length_header, with_length. pose proof (zlen_nonneg b).
  case_bool_decide; [exists q2; split_and!; [apply reads_nil|done|done]|]. cbn [map concat header_events flat_map app fst snd]. rewrite app_nil_r, <- Hc2.
  apply reads_length; [done| |lia]. rewrite Hc2. unfold has, set_flag, set_flags. cbn [flags]. rewrite Hf. by destruct close.
Qed.

(** A message that is its head and a body. *)
Lemma execute_message data q0 head b es c :
  valid q0 = true -> http_errno q0 = 0 -> first_marks (st q0) = no_marks -> nread q0 = 0 ->
  data = head ++ Http.CRLF ++ b -> reads_head data q0 head es c -> zlen head + 2 <= max_header_size ->
  identity c -> http_errno c = 0 -> zlen b < ULLONG_MAX ->
  (if bool_decide (b = []) then without_body c = true else content_length c = zlen b) ->
  exists q', interp record (execute data q0) [] = ((Returned (zlen data), q'), es ++ [head_event c] ++ (if bool_decide (b = []) then [] else [Body b]) ++ [MessageComplete])
    /\ http_errno q' = 0 /\ upgrade q' = false.
Proof.
  intros Hv He Hf Hn Hdata (q & Hr & Hq & Hc) Hm Hi Hec Hl Hb. pose proof (zlen_nonneg head). pose proof (zlen_nonneg b).
  destruct (Hr 0 0 (Http.CRLF ++ b)) as [n1 Hr1]; [lia..|by rewrite zdrop_0|]. rewrite !Z.add_0_l in Hr1.
  replace (set_nread 0 q0) with q0 in Hr1 by (destruct q0; cbn in Hn; by subst).
  assert (zdrop (zlen head) data = Http.CRLF ++ b) as Hd by (rewrite <- (Z.add_0_l (zlen head)); apply at_app; [lia|by rewrite zdrop_0]).
  subst c. change (identity (settle q)) in Hi. destruct (runs_head_end data q (zlen head) (zlen head) b Hq Hi) as [n2 Hr2]; [lia..|done|].
  change (without_body (core q)) with (without_body (settle q)) in Hb. change (content_length (core q)) with (content_length (settle q)) in Hb.
  change (http_errno (core q)) with (http_errno (settle q)) in Hec. change (head_event (core q)) with (head_event (settle q)).
  assert (zlen data = zlen head + 2 + zlen b) as Hz by (rewrite Hdata, !zlen_app; change (zlen Http.CRLF) with 2; lia).
  assert (data <> []) as Hne by (intros E; rewrite E, zlen_nil in Hz; lia).
  pose proof (runs_trans data _ _ _ _ _ _ _ _ _ _ Hr1 Hr2) as Hr3. case_bool_decide as Eb.
  - rewrite Hb in Hr3. rewrite Eb, zlen_nil, Z.add_0_r in Hz. rewrite <- Hz in Hr3. eexists. split; [exact (execute_runs data _ _ _ _ Hne Hv He Hf Hr3)|done].
  - assert (0 < zlen b) by (destruct b as [|? b']; [done|rewrite zlen_cons; pose proof (zlen_nonneg b'); lia]).
    assert (without_body (settle q) = false) as Hw.
    { unfold without_body. rewrite Hb. destruct (Z.eqb_spec (zlen b) 0); [lia|]. by destruct (Z.eqb_spec (zlen b) ULLONG_MAX); [lia|]. }
    rewrite Hw, Hb in Hr3. destruct (Z.eqb_spec (zlen b) ULLONG_MAX); [lia|].
    assert (zdrop (zlen head + 2) data = b ++ []) as Hd2.
    { rewrite app_nil_r. change 2 with (zlen Http.CRLF). apply at_app; [lia|done]. }
    pose proof (runs_body data (after_head s_body_identity (settle q)) (zlen head + 2) b [] Eb ltac:(lia) Hb Hl Hd2 eq_refl eq_refl) as Hr4.
    pose proof (runs_trans data _ _ _ _ _ _ _ _ _ _ Hr3 Hr4) as Hr5. rewrite <- Hz, <- app_assoc in Hr5.
    eexists. split; [exact (execute_runs data _ _ _ _ Hne Hv He Hf Hr5)|done].
Qed.

(** ** The status line *)
Section status.
Context (data : str).
#[local] Existing Instances C_ret C_bind.

Ltac status_goto q' := apply (reads_cons _ _ _ [] q'); [reflexivity|intros; reflexivity|].
Definition after_version (ma mi : Z) : http_parser := MkParser HTTP_RESPONSE 0 s_res_first_status_code h_general 0 0 ULLONG_MAX ma mi 0 0 0 false.
Lemma reads_res_version ma mi :
  0 <= ma < 10 -> 0 <= mi < 10 ->
  reads data (http_parser_init HTTP_RESPONSE) (bs "HTTP/" ++ [digit ma] ++ bs "." ++ [digit mi] ++ bs " ") [MessageBegin] (after_version ma mi).
Proof.
  intros Hma Hmi. set (q := set_content_length ULLONG_MAX (set_flags 0 (http_parser_init HTTP_RESPONSE))).
  apply (reads_cons _ _ _ [MessageBegin] (set_st s_res_H q)); [reflexivity|intros; reflexivity|].
  status_goto (set_st s_res_HT q). status_goto (set_st s_res_HTT q). status_goto (set_st s_res_HTTP q). status_goto (set_st s_res_http_major q).
  apply (reads_cons _ _ _ [] (set_st s_res_http_dot (set_major ma q))); [done|intros; apply (step_version data s_res_http_major); [done|set_solver]|].
  status_goto (set_st s_res_http_minor (set_major ma q)).
  apply (reads_cons _ _ _ [] (set_st s_res_http_end (set_minor mi (set_major ma q)))); [done|intros; apply (step_version data s_res_http_minor); [done|set_solver]|].
  status_goto (after_version ma mi). apply reads_nil.
Qed.
Lemma reads_status_digits l a q :
  forallb isdigit l = true -> 0 <= a -> fst (scan_digits l a) <= 999 ->
  reads data (set_st s_res_status_code (set_status_code a q)) l [] (set_st s_res_status_code (set_status_code (fst (scan_digits l a)) q)).
Proof.
  revert a. induction l as [|c l IH]; intros a Hl Ha Hb; cbn [scan_digits forallb] in *; [apply reads_nil|]. apply andb_true_iff in Hl as [Hc Hl]. rewrite Hc in *.
  destruct (num_byte c Hc) as (_ & _ & H3 & _ & H4). pose proof (Uri.Uri.scan_digits_ge l (10 * a + (b2z c - 48)) ltac:(lia)).
  apply (reads_cons _ _ _ [] (set_st s_res_status_code (set_status_code (10 * a + (b2z c - 48)) q))); [done| |apply IH; [done|lia|done]].
  intros k p. unfold step, get, mbind, C_bind. cbn [pbind ps set_nread set_st st part_of step_res]. rewrite H3. cbn [negb]. unfold upd, get, mbind, C_bind. cbn [pbind ps ms pos status_code set_status_code].
  change (status_code (set_nread k (set_st s_res_status_code (set_status_code a q)))) with a. rewrite (uw_small 16 (a * 10)), uw_small, (Z.mul_comm a) by (unfold in_u; lia). by destruct (Z.ltb_spec 999 (10 * a + (b2z c - 48))); [lia|].
Qed.
Lemma reads_status n q :
  0 <= n <= 999 -> reads data (set_st s_res_first_status_code q) (dec n ++ bs " ") [] (set_st s_res_status_start (set_status_code n q)).
Proof.
  intros Hn. pose proof (dec_digits n ltac:(lia)) as Hd. destruct (scan_dec n [] 0 ltac:(lia) ltac:(done) ltac:(lia)) as (k & _ & Hs). rewrite app_nil_r in Hs.
  destruct (dec n) as [|c l] eqn:E; [by apply dec_nonempty in E|]. apply Forall_cons in Hd as [Hc Hd]. cbn [scan_digits] in Hs. rewrite Hc in Hs.
  destruct (num_byte c Hc) as (_ & _ & H3 & _ & H5). assert (forallb isdigit l = true) as Hl by (apply forallb_forall, List.Forall_forall, Hd).
  assert (fst (scan_digits l (b2z c - 48)) = n) as Hval.
  { replace (b2z c - 48) with (10 * 0 + (b2z c - 48)) by lia. rewrite Hs. cbn. lia. }
  apply (reads_cons _ _ _ [] (set_st s_res_status_code (set_status_code (b2z c - 48) q))); [done| |].
  - intros j p. unfold step, get, mbind, C_bind. cbn [pbind ps set_nread set_st st part_of step_res]. rewrite H3. reflexivity.
  - rewrite <- Hval. change (@nil event) with (@nil event ++ []). eapply reads_app; [apply reads_status_digits; [done|lia|lia]|].
    status_goto (set_st s_res_status_start (set_status_code (fst (scan_digits l (b2z c - 48))) q)). apply reads_nil.
Qed.

(** The reason, up to the end of its line. *)
Definition reason_byte (c : byte) : bool := negb (eqc c CR) && negb (eqc c LF).
Lemma runs_reason l q m k p post :
  forallb reason_byte l = true -> st q = s_res_status -> 0 <= k -> k + zlen l <= max_header_size -> 0 <= p -> zdrop p data = l ++ post ->
  runs data (length l) true (MkExec (set_nread k q) m p) [] true (MkExec (set_nread (k + zlen l) q) m (p + zlen l)).
Proof.
  intros Hl Hq. revert k p Hl. induction l as [|c l IH]; intros k p Hl Hk Hm Hp Hd; cbn [forallb length] in *; [rewrite zlen_nil, !Z.add_0_r; constructor|].
  apply andb_true_iff in Hl as [Hc Hl]. unfold reason_byte in Hc. apply andb_true_iff in Hc as [H1%negb_true_iff H2%negb_true_iff].
  rewrite zlen_cons in *. pose proof (zlen_nonneg l). destruct (at_byte data p c (l ++ post) Hp Hd) as [Hch Hd'].
  change (@nil event) with (@nil event ++ []) at 1. eapply runs_byte; [exact Hch|by rewrite Hq|lia|lia| |].
  - unfold step, get, mbind, C_bind. cbn [pbind ps]. change (st (set_nread _ q)) with (st q). rewrite Hq. cbn [part_of step_res]. rewrite H1, H2. reflexivity.
  - cbn [is_next move ps ms pos]. replace (k + (1 + zlen l)) with (k + 1 + zlen l) by lia. replace (p + (1 + zlen l)) with (p + 1 + zlen l) by lia. apply IH; [done|lia..|done].
Qed.
Lemma reads_reason c l q :
  forallb reason_byte (c :: l) = true ->
  reads data (set_st s_res_status_start q) ((c :: l) ++ Http.CRLF) [Status (status_code q) (c :: l)] (set_st s_header_field_start (set_index 0 q)).
Proof.
  intros Hcl k p post Hk Hm Hp Hd. cbn [forallb] in Hcl. apply andb_true_iff in Hcl as [Hc Hl]. unfold reason_byte in Hc. apply andb_true_iff in Hc as [H1%negb_true_iff H2%negb_true_iff].
  rewrite zlen_app, zlen_cons in *. change (zlen Http.CRLF) with 2 in *. pose proof (zlen_nonneg l). rewrite <- app_assoc in Hd. destruct (at_byte data p c (l ++ Http.CRLF ++ post) Hp Hd) as [Hch Hd1].
  set (m := set_mark MStatus (Some p) no_marks). set (q1 := set_st s_res_status (set_index 0 q)).
  pose proof (runs_reason l q1 m (k + 1) (p + 1) (Http.CRLF ++ post) Hl eq_refl ltac:(lia) ltac:(lia) ltac:(lia) Hd1) as Hr.
  pose proof (at_app data (p + 1) l _ ltac:(lia) Hd1) as Hd2. destruct (at_byte data (p + 1 + zlen l) CR (LF :: post) ltac:(lia) Hd2) as [Hcr Hd3].
  destruct (at_byte data (p + 1 + zlen l + 1) LF post ltac:(lia) Hd3) as [Hlf _].
  exists (1 + (length l + 2))%nat. change [Status (status_code q) (c :: l)] with ([] ++ ([] ++ ([Status (status_code q) (c :: l)] ++ ([] ++ [])))).
  eapply runs_byte; [exact Hch|done|lia|lia| |].
  { unfold step, get, mbind, C_bind. cbn [pbind ps set_nread set_st st part_of step_res]. rewrite H1, H2. reflexivity. }
  cbn [is_next move ps ms pos]. eapply runs_trans; [exact Hr|]. eapply runs_byte; [exact Hcr|done|lia|lia| |].
  - unfold m, q1, step, get, mbind, C_bind. cbn [pbind ps set_nread set_st st part_of step_res]. change (eqc CR CR) with true. cbv iota. unfold upd, CALLBACK_DATA, CALLBACK_DATA_, get_pos, get, get_marks, mbind, C_bind.
    cbn [pbind ps ms pos set_mark get_mark no_marks status_mark data_event]. replace (p + 1 + zlen l - p) with (zlen (c :: l)) by (rewrite zlen_cons; lia).
    rewrite (zsub_at data p (c :: l) (Http.CRLF ++ post)) by done. reflexivity.
  - cbn [is_next move ps ms pos]. eapply (runs_byte _ _ _ (set_st s_res_line_almost_done (set_index 0 q))); [exact Hlf|done|cbn; lia|cbn; lia|reflexivity|].
    cbn. replace (k + (1 + zlen l + 2)) with (k + 1 + zlen l + 1 + 1) by lia. replace (p + (1 + zlen l + 2)) with (p + 1 + zlen l + 1 + 1) by lia. constructor.
Qed.
End status.

End HttpRuns.
