(* ===== verification/HttpExchange.v ===== *)
(** * Messages from end to end

    A request or a response that is serialised, sent, and received as one piece
    is the one that was sent: [HttpRequest::dump] and [HttpResponse::dump], the
    bundled parser, its callbacks and the receive loops together. *)
From S2P Require Import Prelude StdString StdMap UrlParser Http Stream HttpParser HttpMachine HttpMachineSafety HttpRuns.
Import StdString Stream HttpParser HttpMachine HttpMachineSafety HttpRuns.
Local Open Scope Z_scope.

Module HttpExchange.

(** ** URLs *)
Definition good_url (path query fragment : str) : bool :=
  bool_decide (head path = Some (UrlParser.chr "/")) && forallb UrlParser.IS_URL_CHAR path && forallb UrlParser.QUERY_CHAR query
  && forallb UrlParser.FRAGMENT_CHAR fragment && negb (bool_decide (head fragment = Some (UrlParser.chr "#"))).

Lemma url_reads_stay u l (P : byte -> bool) :
  (forall c, P c = true -> UrlParser.parse_url_char u c = u) -> in_url u = true -> forallb P l = true -> url_reads u l = true /\ fold_left UrlParser.parse_url_char l u = u.
Proof.
  intros HP Hu. induction l as [|c l IH]; [done|]. cbn [forallb url_reads fold_left]. intros [Hc Hl]%andb_true_iff. rewrite (HP c Hc), Hu. by apply IH.
Qed.
Lemma url_reads_app u a b : url_reads u (a ++ b) = url_reads u a && url_reads (fold_left UrlParser.parse_url_char a u) b.
Proof. revert u. induction a as [|c a IH]; intros u; [done|]. cbn [app url_reads fold_left]. by rewrite IH, andb_assoc. Qed.
Lemma url_reads_fragment u f :
  u = UrlParser.s_req_path \/ u = UrlParser.s_req_query_string -> forallb UrlParser.FRAGMENT_CHAR f = true -> head f <> Some (UrlParser.chr "#") ->
  url_reads u (UrlParser.suffix (bs "#") f) = true.
Proof.
  intros Hu Hf Hh. unfold UrlParser.suffix. case_bool_decide; [done|]. destruct f as [|c f]; [done|]. cbn [forallb] in Hf. apply andb_true_iff in Hf as [Hc Hf].
  assert (UrlParser.QUERY_CHAR c = true) as Hq.
  { unfold UrlParser.FRAGMENT_CHAR in Hc. apply orb_true_iff in Hc as [Hc|Hc]; [done|]. apply bool_decide_eq_true in Hc. by subst c. }
  change (bs "#" ++ c :: f) with (UrlParser.chr "#" :: c :: f). cbn [url_reads].
  assert (UrlParser.parse_url_char u (UrlParser.chr "#") = UrlParser.s_req_fragment_start) as -> by (by destruct Hu as [->| ->]; vm_compute).
  rewrite UrlParser.fragment_start_char by done. cbn [in_url andb]. by apply (url_reads_stay _ _ _ UrlParser.fragment_char).
Qed.
Lemma url_reads_query q f :
  forallb UrlParser.QUERY_CHAR q = true -> forallb UrlParser.FRAGMENT_CHAR f = true -> head f <> Some (UrlParser.chr "#") ->
  url_reads UrlParser.s_req_path (UrlParser.suffix (bs "?") q ++ UrlParser.suffix (bs "#") f) = true.
Proof.
  intros Hq Hf Hh. unfold UrlParser.suffix at 1. case_bool_decide; [by apply url_reads_fragment; [left|..]|]. destruct q as [|c q]; [done|].
  cbn [forallb] in Hq. apply andb_true_iff in Hq as [Hc Hq]. rewrite <- app_assoc. change (bs "?" ++ (c :: q) ++ ?r) with (UrlParser.chr "?" :: c :: q ++ r). cbn [url_reads].
  change (UrlParser.parse_url_char UrlParser.s_req_path (UrlParser.chr "?")) with UrlParser.s_req_query_string_start.
  rewrite UrlParser.query_start_char by done. cbn [in_url andb]. rewrite url_reads_app. destruct (url_reads_stay _ q _ UrlParser.query_char eq_refl Hq) as [-> ->]. cbn [andb].
  apply url_reads_fragment; [by right|done|done].
Qed.
Lemma good_url_spec path query fragment :
  good_url path query fragment = true ->
  exists l, path = UrlParser.chr "/" :: l /\ forallb UrlParser.IS_URL_CHAR l = true /\ forallb UrlParser.QUERY_CHAR query = true
    /\ forallb UrlParser.FRAGMENT_CHAR fragment = true /\ head fragment <> Some (UrlParser.chr "#").
Proof.
  unfold good_url. rewrite !andb_true_iff, negb_true_iff, bool_decide_eq_true, bool_decide_eq_false. intros ((((Hh & Hp) & Hq) & Hf) & Hn).
  destruct path as [|c l]; [done|]. injection Hh as ->. cbn [forallb] in Hp. apply andb_true_iff in Hp as [_ Hp]. by exists l.
Qed.
Lemma zdrop_text (a b s : str) : s = a ++ b -> zdrop (zlen a) s = b.
Proof. intros ->. unfold zdrop, zlen. by rewrite Nat2Z.id, drop_app_length. Qed.
(** The URL of a request is parsed into its parts. *)
Lemma request_fields path query fragment :
  good_url path query fragment = true -> let url := path ++ UrlParser.suffix (bs "?") query ++ UrlParser.suffix (bs "#") fragment in zlen url < 65536 ->
  exists u, UrlParser.http_parser_parse_url url false = Some u /\ field_or (bs "/") url (u !! UrlParser.UF_PATH) = path
    /\ field_or [] url (u !! UrlParser.UF_QUERY) = query /\ field_or [] url (u !! UrlParser.UF_FRAGMENT) = fragment.
Proof.
  intros Hg url Hz. destruct (good_url_spec _ _ _ Hg) as (l & Hpath & Hp & Hq & Hf & Hn). pose proof (zlen_nonneg path).
  pose proof (zlen_nonneg (UrlParser.suffix (bs "?") query)). pose proof (zlen_nonneg (UrlParser.suffix (bs "#") fragment)).
  unfold url in Hz. rewrite !zlen_app in Hz. set (fp := UrlParser.set_field UrlParser.UF_PATH (0, zlen path) UrlParser.url_init).
  set (u := UrlParser.set_part UrlParser.UF_FRAGMENT (zlen path + zlen (UrlParser.suffix (bs "?") query) + 1) fragment (UrlParser.set_part UrlParser.UF_QUERY (zlen path + 1) query fp)).
  assert (UrlParser.url_loop UrlParser.s_req_spaces_before_url url 0 None false UrlParser.url_init = Some (false, u)) as Hloop.
  { unfold url. rewrite Hpath at 1.
    rewrite (UrlParser.url_loop_run UrlParser.UF_PATH _ _ l UrlParser.s_req_path false); [|by cbn [UrlParser.stays]; rewrite (UrlParser.stays_all _ _ _ _ UrlParser.path_char)|done|lia|rewrite <- Hpath; lia].
    rewrite <- Hpath, Z.add_0_l. by rewrite UrlParser.query_parsed by (done || lia). }
  exists u. unfold UrlParser.http_parser_parse_url. rewrite bool_decide_false by (unfold url; by rewrite Hpath). rewrite Hloop. cbn [mbind option_bind].
  assert (forall f, f <> UrlParser.UF_PATH -> f <> UrlParser.UF_QUERY -> f <> UrlParser.UF_FRAGMENT -> u !! f = None) as Hnone.
  { intros f N1 N2 N3. unfold u, UrlParser.set_part, fp, UrlParser.set_field. repeat case_bool_decide; by rewrite ?lookup_insert_ne. }
  unfold UrlParser.is_set. rewrite !Hnone by done. rewrite !bool_decide_false by (by intros []).
  split; [cbn [andb mbind option_bind]; by rewrite Hnone, bool_decide_false by (done || by intros [])|].
  unfold u, UrlParser.set_part, fp, UrlParser.set_field, field_or. split_and!.
  - repeat case_bool_decide; rewrite ?lookup_insert_ne, lookup_insert_eq by done; exact (zsub_at url 0 path _ (zdrop_0 url)).
  - assert (query <> [] -> zsub (zlen path + 1) (zlen query) url = query) as Hsub.
    { intros Hne. eapply zsub_at. change 1 with (zlen (bs "?")). rewrite <- zlen_app. apply zdrop_text. unfold url, UrlParser.suffix. rewrite bool_decide_false by done. by rewrite <- !app_assoc. }
    repeat case_bool_decide; rewrite ?lookup_insert_ne, ?lookup_insert_eq by done; subst; auto.
  - assert (fragment <> [] -> zsub (zlen path + zlen (UrlParser.suffix (bs "?") query) + 1) (zlen fragment) url = fragment) as Hsub.
    { intros Hne. eapply (zsub_at _ _ _ []). change 1 with (zlen (bs "#")). rewrite <- !zlen_app. apply zdrop_text. unfold url, UrlParser.suffix at 2. rewrite bool_decide_false by done.
      by rewrite app_nil_r, <- !app_assoc. }
    repeat case_bool_decide; rewrite ?lookup_insert_ne, ?lookup_insert_eq by done; subst; auto.
Qed.

(** ** Requests *)
Definition sent_headers (r : Http.HttpRequest) : list (str * str) :=
  List.filter (fun h => negb (negb (Http.q_webSocket r) && Http.is_header (bs "Connection") (fst h))
    && negb (negb (bool_decide (Http.q_body r = [])) && Http.is_header (bs "content-length") (fst h))) (Http.q_headers r).
Definition good_version (v : Z) : bool := (0 <=? v) && (v <? 256) && (Z.shiftr v 4 <? 10) && (Z.land v 0x0f <? 10).
(** A request that the parser reads back: one of the methods that [dump] can
    name, but not [CONNECT]; a path from the root; headers whose names and values
    are those of HTTP, none of which changes how the message is framed. *)
Definition good_request (r : Http.HttpRequest) : bool :=
  (0 <=? Http.q_method r) && (Http.q_method r <=? 4) && good_version (Http.q_version r) && good_url (Http.q_path r) (Http.q_query r) (Http.q_fragment r)
  && negb (Http.q_webSocket r) && forallb plain_header (sent_headers r).
Definition request_url (r : Http.HttpRequest) : str :=
  Http.q_path r ++ UrlParser.suffix (bs "?") (Http.q_query r) ++ UrlParser.suffix (bs "#") (Http.q_fragment r).
Definition request_line (r : Http.HttpRequest) : str :=
  (Http.HttpMethodToString (Http.q_method r) ++ bs " ") ++ (request_url r ++ bs " ")
  ++ bs "HTTP/" ++ [digit (Z.shiftr (Http.q_version r) 4)] ++ bs "." ++ [digit (Z.land (Http.q_version r) 0x0f)] ++ Http.CRLF.
Definition request_head (r : Http.HttpRequest) : str :=
  request_line r ++ Http.header_line (bs "Connection", connection_value (Http.q_close r)) ++ concat (map Http.header_line (sent_headers r))
  ++ concat (map Http.header_line (length_header (Http.q_body r))).

Lemma good_version_spec v : good_version v = true -> in_u 8 v /\ 0 <= Z.shiftr v 4 < 10 /\ 0 <= Z.land v 0x0f < 10.
Proof.
  unfold good_version. rewrite !andb_true_iff, Z.leb_le, !Z.ltb_lt. intros [[[? ?] ?] ?]. unfold in_u. split_and!; try lia; [by apply Z.shiftr_nonneg|by apply Z.land_nonneg; left].
Qed.
Lemma dec_one d : 0 <= d < 10 -> dec d = [digit d].
Proof. intros Hd. unfold dec. cbn [dec_loop]. by destruct (Z.ltb_spec d 10); [|lia]. Qed.
Lemma version_text v : good_version v = true -> Http.version_string v = [digit (Z.shiftr v 4)] ++ bs "." ++ [digit (Z.land v 0x0f)].
Proof. intros (_ & Ha & Hi)%good_version_spec. unfold Http.version_string. by rewrite !dec_one. Qed.
Lemma version_back v : good_version v = true -> u8 (Z.lor (Z.shiftl (Z.shiftr v 4) 4) (Z.land v 0x0f)) = v.
Proof.
  intros (Hv & _)%good_version_spec. assert (Z.lor (Z.shiftl (Z.shiftr v 4) 4) (Z.land v 15) = v) as ->; [|by apply uw_small].
  rewrite <- Z.ldiff_ones_r by lia. change 15 with (Z.ones 4). by rewrite Z.lor_ldiff_and.
Qed.
Lemma dump_text r : good_request r = true -> Http.dump r = request_head r ++ Http.CRLF ++ Http.q_body r.
Proof.
  unfold good_request. rewrite !andb_true_iff, negb_true_iff. intros (((((_ & _) & Hv) & _) & Hw) & _). unfold Http.dump, request_head, request_line, request_url, sent_headers, length_header, UrlParser.suffix.
  rewrite Hw, version_text by done. change (Http.header_line (bs "Connection", ?v)) with (bs "Connection: " ++ v ++ Http.CRLF).
  assert (forall v, Http.header_line (bs "content-length", v) = bs "content-length: " ++ v ++ Http.CRLF) as Hl by done.
  rewrite <- !app_assoc. repeat case_bool_decide; destruct (Http.q_close r); cbn [map concat]; rewrite ?Hl;
    repeat match goal with H : _ = [] |- _ => rewrite H end; rewrite ?app_nil_l, ?app_nil_r, <- ?app_assoc; reflexivity.
Qed.

(** The headers of the text. *)
Definition request_headers (r : Http.HttpRequest) : list (str * str) :=
  (bs "Connection", connection_value (Http.q_close r)) :: sent_headers r ++ length_header (Http.q_body r).
Definition body_events (b : str) : list event := if bool_decide (b = []) then [] else [Body b].
Lemma request_events r :
  good_request r = true -> zlen (request_head r) + 2 <= max_header_size -> zlen (Http.q_body r) <= 2 ^ 63 ->
  exists q, interp record (execute (Http.dump r) (http_parser_init HTTP_REQUEST)) []
    = ((Returned (zlen (Http.dump r)), q), [MessageBegin; Url (request_url r)] ++ header_events (request_headers r)
        ++ [HeadersComplete (Z.shiftr (Http.q_version r) 4) (Z.land (Http.q_version r) 0x0f) (Http.q_method r) 0] ++ body_events (Http.q_body r) ++ [MessageComplete])
    /\ http_errno q = 0 /\ upgrade q = false.
Proof.
  intros Hg Hm Hb. pose proof (dump_text r Hg) as Hd. set (data := Http.dump r) in *. unfold good_request in Hg. rewrite !andb_true_iff, negb_true_iff, !Z.leb_le in Hg.
  destruct Hg as (((((Hm0 & Hm4) & (_ & Hma & Hmi)%good_version_spec) & Hu) & Hw) & Hh). destruct (good_url_spec _ _ _ Hu) as (l & Hpath & Hp & Hq & Hf & Hfh).
  set (ma := Z.shiftr (Http.q_version r) 4) in *. set (mi := Z.land (Http.q_version r) 0x0f) in *. set (q1 := set_minor mi (set_major ma (after_method (Http.q_method r)))).
  assert (reads data (http_parser_init HTTP_REQUEST) (request_line r) ([MessageBegin] ++ [Url (request_url r)] ++ []) (set_st s_header_field_start q1)) as Hline.
  { unfold request_line. eapply reads_app; [by apply reads_method|]. eapply reads_app; [|by apply reads_version].
    unfold request_url. rewrite Hpath. apply (reads_url data (UrlParser.chr "/") (l ++ _) (after_method (Http.q_method r))).
    - unfold after_method. cbn [method]. unfold HTTP_CONNECT. lia.
    - done.
    - change (UrlParser.parse_url_char UrlParser.s_req_spaces_before_url (UrlParser.chr "/")) with UrlParser.s_req_path. rewrite url_reads_app.
      destruct (url_reads_stay _ l _ UrlParser.path_char eq_refl Hp) as [-> ->]. cbn [andb]. by apply url_reads_query. }
  pose proof (reads_headers data (set_st s_header_field_start q1) (bs "Connection") (Http.q_close r) (sent_headers r) (Http.q_body r)
    (or_introl eq_refl) (or_introl eq_refl) Hh eq_refl Hb) as Hheads.
  pose proof (reads_head_app _ _ _ _ _ _ _ _ Hline Hheads) as Hhead.
  destruct (execute_message data (http_parser_init HTTP_REQUEST) (request_head r) (Http.q_body r) _ _ eq_refl eq_refl eq_refl eq_refl Hd Hhead Hm) as (q' & He & Hq').
  - unfold identity, with_length. assert ((Http.q_method r =? 5) = false) as Hne by lia.
    destruct (Http.q_close r); case_bool_decide; split_and!; try reflexivity; exact Hne.
  - unfold with_length. by case_bool_decide.
  - unfold ULLONG_MAX. lia.
  - unfold with_length. case_bool_decide; [|done]. reflexivity.
  - exists q'. split; [|done]. rewrite He. rewrite <- !app_assoc.
    assert (forall c, head_event (with_length (Http.q_body r) c) = head_event c) as -> by (intros c; unfold with_length; by case_bool_decide). reflexivity.
Qed.

(** ** Responses *)
Definition sent_headers_of (p : Http.HttpResponse) : list (str * str) :=
  List.filter (fun h => negb (negb (Http.p_webSocket p) && Http.is_header (bs "connection") (fst h))) (Http.p_headers p).
Definition reason_text (p : Http.HttpResponse) : str :=
  if bool_decide (Http.p_reason p = []) then Http.HttpStatusToString (Http.p_status p) else Http.p_reason p.
(** The status codes after which there is no body. *)
Definition bodyless (status : Z) : bool := (status / 100 =? 1) || (status =? 204) || (status =? 304).
(** A response that the parser reads back; without a body it has to have a status
    that says so, since [dump] gives no length. *)
Definition good_response (p : Http.HttpResponse) : bool :=
  (0 <=? Http.p_status p) && (Http.p_status p <=? 999) && good_version (Http.p_version p)
  && match reason_text p with [] => false | c :: l => forallb reason_byte (c :: l) end
  && negb (Http.p_webSocket p) && forallb plain_header (sent_headers_of p) && implb (bool_decide (Http.p_body p = [])) (bodyless (Http.p_status p)).
Definition status_line (p : Http.HttpResponse) : str :=
  (bs "HTTP/" ++ [digit (Z.shiftr (Http.p_version p) 4)] ++ bs "." ++ [digit (Z.land (Http.p_version p) 0x0f)] ++ bs " ")
  ++ (dec (Http.p_status p) ++ bs " ") ++ reason_text p ++ Http.CRLF.
Definition response_head (p : Http.HttpResponse) : str :=
  status_line p ++ Http.header_line (CONNECTION, connection_value (Http.p_close p)) ++ concat (map Http.header_line (sent_headers_of p))
  ++ concat (map Http.header_line (length_header (Http.p_body p))).
Definition response_headers (p : Http.HttpResponse) : list (str * str) :=
  (CONNECTION, connection_value (Http.p_close p)) :: sent_headers_of p ++ length_header (Http.p_body p).

Lemma p_dump_text p : good_response p = true -> Http.p_dump p = response_head p ++ Http.CRLF ++ Http.p_body p.
Proof.
  unfold good_response. rewrite !andb_true_iff, negb_true_iff, !Z.leb_le. intros ((((((Hs0 & Hs9) & Hv) & _) & Hw) & _) & _).
  unfold Http.p_dump, response_head, status_line, sent_headers_of, length_header. fold (reason_text p).
  rewrite Hw, version_text by done. rewrite uw_small by (unfold in_u; lia). change (Http.header_line (CONNECTION, ?v)) with (bs "connection: " ++ v ++ Http.CRLF).
  assert (forall v, Http.header_line (bs "content-length", v) = bs "content-length: " ++ v ++ Http.CRLF) as Hl by done.
  rewrite <- !app_assoc. case_bool_decide as Hb; destruct (Http.p_close p); cbn [map concat]; rewrite ?Hl, ?Hb, ?app_nil_l, ?app_nil_r, <- ?app_assoc; reflexivity.
Qed.
Lemma response_events p :
  good_response p = true -> zlen (response_head p) + 2 <= max_header_size -> zlen (Http.p_body p) <= 2 ^ 63 ->
  exists q, interp record (execute (Http.p_dump p) (http_parser_init HTTP_RESPONSE)) []
    = ((Returned (zlen (Http.p_dump p)), q), [MessageBegin; Status (Http.p_status p) (reason_text p)] ++ header_events (response_headers p)
        ++ [HeadersComplete (Z.shiftr (Http.p_version p) 4) (Z.land (Http.p_version p) 0x0f) 0 (Http.p_status p)] ++ body_events (Http.p_body p) ++ [MessageComplete])
    /\ http_errno q = 0.
Proof.
  intros Hg Hm Hb. pose proof (p_dump_text p Hg) as Hd. set (data := Http.p_dump p) in *. unfold good_response in Hg. rewrite !andb_true_iff, negb_true_iff, !Z.leb_le in Hg.
  destruct Hg as ((((((Hs0 & Hs9) & (_ & Hma & Hmi)%good_version_spec) & Hr) & Hw) & Hh) & Hbl).
  set (ma := Z.shiftr (Http.p_version p) 4) in *. set (mi := Z.land (Http.p_version p) 0x0f) in *.
  set (q1 := set_st s_header_field_start (set_index 0 (set_status_code (Http.p_status p) (after_version ma mi)))).
  assert (reads data (http_parser_init HTTP_RESPONSE) (status_line p) ([MessageBegin] ++ [] ++ [Status (Http.p_status p) (reason_text p)]) q1) as Hline.
  { unfold status_line. destruct (reason_text p) as [|c l]; [done|]. eapply reads_app; [by apply reads_res_version|].
    eapply reads_app; [by apply (reads_status data _ (after_version ma mi))|]. by apply (reads_reason data c l (set_status_code (Http.p_status p) (after_version ma mi))). }
  pose proof (reads_headers data q1 CONNECTION (Http.p_close p) (sent_headers_of p) (Http.p_body p) (or_introl eq_refl) (or_intror eq_refl) Hh eq_refl Hb) as Hheads.
  pose proof (reads_head_app _ _ _ _ _ _ _ _ Hline Hheads) as Hhead.
  destruct (execute_message data (http_parser_init HTTP_RESPONSE) (response_head p) (Http.p_body p) _ _ eq_refl eq_refl eq_refl eq_refl Hd Hhead Hm) as (q' & He & Hq' & _).
  - unfold identity, with_length. destruct (Http.p_close p); case_bool_decide; split_and!; reflexivity.
  - unfold with_length. by case_bool_decide.
  - unfold ULLONG_MAX. lia.
  - unfold with_length. case_bool_decide; [|done]. unfold without_body. cbn [implb] in Hbl.
    match goal with |- context [http_message_needs_eof ?x] => assert (http_message_needs_eof x = false) as -> end; [|reflexivity].
    unfold http_message_needs_eof. cbn [type status_code set_flag set_flags core set_states set_st set_header_state set_index settle st q1 set_status_code after_version].
    unfold bodyless in Hbl. by rewrite Hbl.
  - exists q'. split; [|done]. rewrite He. rewrite <- !app_assoc.
    assert (forall c, head_event (with_length (Http.p_body p) c) = head_event c) as -> by (intros c; unfold with_length; by case_bool_decide). reflexivity.
Qed.

(** ** Receiving what was sent *)
Section receive.
#[local] Existing Instance c_parser.

Lemma run_parser_spec {U} (cb : event -> U -> Z * U) q data u e q' u' :
  interp cb (execute data (`q)) u = ((e, q'), u') -> exists st, run_parser cb q data u = (st, bytes_of e, u') /\ `st = q'.
Proof.
  intros Hr. unfold run_parser. eexists. split; [f_equal; [f_equal|]; unfold http_parser_execute; by rewrite Hr|]. cbn. unfold http_parser_execute. by rewrite Hr.
Qed.
Lemma rq_execute_events data p p' n q es :
  interp record (execute data (proj1_sig (rq_parser p : vparser))) [] = ((Returned n, q), es) -> http_errno q = 0 -> upgrade q = false ->
  run_events on_request 0 es p = (None, p') ->
  exists st, rq_execute data p = (n, MkRequestParser st (rq_data p') (rq_error p') (rq_finished p') (rq_filed p'), if n <? zlen data then zdrop n data else data).
Proof.
  intros Hr He Hu Hes. destruct (run_parser_spec record (rq_parser p : vparser) data [] _ _ _ Hr) as (st & Hst & Hq). exists st. unfold rq_execute, c_execute.
  change (hp_run (rq_parser p) data) with (let '(q, n, es) := run_parser record (rq_parser p : vparser) data [] in (es, q, n)). rewrite Hst, Hes.
  change (@hp_upgrade c_parser st) with (upgrade (proj1_sig st)). change (@hp_errno c_parser st) with (http_errno (proj1_sig st)). by rewrite Hq, He, Hu.
Qed.

(** A message that comes in one piece and fits into the buffer. *)
Lemma receive_one {P} `{MP : !MessageParser P} bufferSize (p p' : P) data s rest :
  s_connected s = true -> s_in s = Data data :: rest -> data <> [] -> zlen data <= bufferSize -> bufferSize < 2 ^ 62 ->
  mp_execute data p = (zlen data, p', data) -> mp_error p' = 0 -> mp_finished p' = true ->
  receive bufferSize p s = Ret (Some p') (MkStream rest (s_wr s) (s_out s) true).
Proof.
  intros Hc Hin Hd Hb Hs Hx He Hf. assert (0 < zlen data) by (destruct data as [|? d]; [done|rewrite zlen_cons; pose proof (zlen_nonneg d); lia]).
  unfold receive. cbn [receive_loop]. rewrite Z.sub_0_r, uw_small by fits. unfold read. rewrite Hc, Hin. cbn [negb]. destruct (Z.leb_spec (zlen data) bufferSize); [|lia].
  cbn [obind]. destruct (Z.eqb_spec (zlen data) 0); [lia|]. rewrite Z.add_0_r, uw_small by fits. destruct (Z.ltb_spec bufferSize (zlen data)); [lia|].
  cbn [app]. rewrite ztake_all by lia. rewrite Hx, He, Hf. cbn [negb Z.eqb]. rewrite Z.sub_diag. change (u64 0) with 0. by destruct (Z.eqb_spec 0 bufferSize); [lia|].
Qed.

(** What the receiver has of a request. *)
Definition same_request (r r' : Http.HttpRequest) : Prop :=
  Http.q_method r' = Http.q_method r /\ Http.q_version r' = Http.q_version r /\ Http.q_path r' = Http.q_path r /\ Http.q_query r' = Http.q_query r
  /\ Http.q_fragment r' = Http.q_fragment r /\ Http.q_body r' = Http.q_body r /\ Http.q_close r' = Http.q_close r
  /\ forall k d, Http.lower k <> bs "connection" -> Http.lower k <> bs "content-length" -> Http.getHeader r' k d = Http.getHeader r k d.

Lemma plain_not_known hs k : forallb plain_header hs = true -> k ∈ known_names -> Forall (fun h => Http.lower (fst h) <> k) hs.
Proof.
  intros Hh Hk. apply Forall_forall. intros h Hin He. rewrite forallb_forall in Hh. apply list_elem_of_In in Hin. specialize (Hh h Hin). unfold plain_header in Hh.
  apply andb_true_iff in Hh as [_ Hh]. apply negb_true_iff, bool_decide_eq_false in Hh. by rewrite He in Hh.
Qed.
Lemma length_header_other k b : Http.lower k <> bs "content-length" -> Forall (fun h => Http.lower (fst h) <> Http.lower k) (length_header b).
Proof. intros Hk. unfold length_header. case_bool_decide; constructor; [|done]. cbn. intros He. by apply Hk. Qed.
Lemma message_header_values name close hs b k d :
  Http.lower name = bs "connection" -> forallb plain_header hs = true ->
  (Http.lower k = bs "connection" -> last_value k d ((name, connection_value close) :: hs ++ length_header b) = connection_value close)
  /\ (Http.lower k <> bs "connection" -> Http.lower k <> bs "content-length" -> last_value k d ((name, connection_value close) :: hs ++ length_header b) = last_value k d hs).
Proof.
  intros Hn Hh. cbn [last_value]. rewrite last_value_app. split.
  - intros Hk. rewrite decide_True by congruence. rewrite (last_value_other k _ hs).
    + apply last_value_other, length_header_other. by rewrite Hk.
    + rewrite Hk. apply plain_not_known; [done|]. unfold known_names. by left.
  - intros Hk1 Hk2. rewrite decide_False by congruence. by apply last_value_other, length_header_other.
Qed.
Lemma sent_header_values r k d :
  Http.q_webSocket r = false -> Http.msorted (Http.q_headers r) -> Http.lower k <> bs "connection" -> Http.lower k <> bs "content-length" ->
  last_value k d (sent_headers r) = Http.getHeader r k d.
Proof.
  intros Hw Hs Hk1 Hk2. unfold sent_headers. rewrite last_value_filter; [by apply last_value_sorted|]. intros h Hl. rewrite Hw, !Http.is_header_lower, Hl.
  rewrite (bool_decide_false (_ = Http.lower (bs "Connection"))), (bool_decide_false (_ = Http.lower (bs "content-length"))) by done. by destruct (bool_decide _).
Qed.
Lemma sent_header_values_of p k d :
  Http.p_webSocket p = false -> Http.msorted (Http.p_headers p) -> Http.lower k <> bs "connection" -> last_value k d (sent_headers_of p) = Http.p_getHeader p k d.
Proof.
  intros Hw Hs Hk. unfold sent_headers_of. rewrite last_value_filter; [by apply last_value_sorted|]. intros h Hl. rewrite Hw, Http.is_header_lower, Hl.
  by rewrite (bool_decide_false (_ = Http.lower (bs "connection"))) by done.
Qed.

Lemma connection_close close : bool_decide (strcasecmp (connection_value close) (bs "keep-alive") = Eq) = negb close.
Proof. by destruct close. Qed.
(** C11. What is sent is received: a request that [sendRequest] serialises, and
    that [recvRequest] receives in one piece, is read back with its method,
    version, path, query, fragment, body, its wish to keep the connection, and
    the value of every header but those of the connection and the length; no
    byte of it is left.  The head has to fit into the 80 KiB of the parser, the
    URL into its 16-bit offsets and the message into the buffer. *)
Theorem request_roundtrip (bufferSize : Z) (s : stream) (rest : list chunk) (r : Http.HttpRequest) :
  good_request r = true -> Http.msorted (Http.q_headers r) -> zlen (request_head r) + 2 <= max_header_size -> zlen (request_url r) < 65536 ->
  zlen (Http.dump r) <= bufferSize < 2 ^ 62 -> s_connected s = true -> s_in s = Data (Http.dump r) :: rest ->
  exists r', recvRequest bufferSize s = Ret (Some r') (MkStream rest (s_wr s) (s_out s) true) /\ same_request r r'.
Proof.
  intros Hg Hs Hm Hu Hb Hc Hin. pose proof (dump_text r Hg) as Hd. assert (zlen (Http.q_body r) <= zlen (Http.dump r)) as Hle by (rewrite Hd, !zlen_app; pose proof (zlen_nonneg (request_head r)); pose proof (zlen_nonneg Http.CRLF); lia).
  destruct (request_events r Hg Hm ltac:(lia)) as (q & Hx & He & Hup).
  pose proof Hg as Hg'. unfold good_request in Hg'. rewrite !andb_true_iff, negb_true_iff in Hg'. destruct Hg' as ((((_ & Hver) & Hurl) & Hw) & Hh).
  destruct (request_fields _ _ _ Hurl Hu) as (u & Hparse & Hpath & Hquery & Hfrag).
  assert (Forall (fun e => is_body_event e = true) (body_events (Http.q_body r))) as Hbody by (unfold body_events; case_bool_decide; repeat constructor).
  destruct (callbacks_assemble_message (request_url r) u (request_headers r) (body_events (Http.q_body r)) (Z.shiftr (Http.q_version r) 4) (Z.land (Http.q_version r) 0x0f) (Http.q_method r) 0 [] Hparse Hbody)
    as [(p & Hrun & Hfin & Herr & Hmeth & Hv & Huf & Hhd & Hbd) _].
  destruct (rq_execute_events (Http.dump r) new_request_parser p _ q _ Hx He Hup Hrun) as (st & Hex). rewrite Z.ltb_irrefl in Hex.
  assert (Http.dump r <> []) as Hne by (rewrite Hd; by destruct (request_head r)).
  pose proof (receive_one (MP := request_message_parser) bufferSize new_request_parser _ _ s rest Hc Hin Hne ltac:(lia) ltac:(lia) Hex Herr Hfin) as Hrec.
  unfold recvRequest. rewrite Hrec. cbn [obind rq_data]. eexists. split; [reflexivity|].
  injection Huf as Hp1 Hp2 Hp3. unfold Http.init. rewrite Hhd. unfold request_headers. rewrite (proj1 (message_header_values (bs "Connection") (Http.q_close r) (sent_headers r) (Http.q_body r) (bs "connection") [] eq_refl Hh) eq_refl).
  rewrite bool_decide_false by (by destruct (Http.q_close r)). rewrite connection_close, negb_involutive. unfold same_request.
  split_and!; cbn [Http.setClose Http.q_method Http.q_version Http.q_path Http.q_query Http.q_fragment Http.q_body Http.q_close].
  - done.
  - rewrite Hv. by apply version_back.
  - by rewrite Hp1.
  - by rewrite Hp2.
  - by rewrite Hp3.
  - rewrite Hbd. unfold body_events. case_bool_decide as E; [by rewrite E|cbn; by rewrite app_nil_r].
  - done.
  - intros k d Hk1 Hk2. change (Http.getHeader (rq_data p) k d = Http.getHeader r k d). rewrite Hhd. etransitivity; [by apply (message_header_values (bs "Connection") (Http.q_close r) (sent_headers r))|by apply sent_header_values].
Qed.

Definition exchanged : Http.HttpRequest :=
  Http.MkRequest false false 0 3 0x11 (bs "/chat") (bs "x=1") [] (bs "hello") [(bs "Host", bs "localhost:8080"); (bs "User-Agent", bs "luwu")] [] [].
Lemma request_roundtrip_witness :
  exists r', recvRequest 4096 (MkStream [Data (Http.dump exchanged)] [] [] true) = Ret (Some r') (MkStream [] [] [] true) /\ same_request exchanged r'.
Proof.
  apply (request_roundtrip 4096 (MkStream [Data (Http.dump exchanged)] [] [] true) [] exchanged); first [reflexivity | repeat constructor; by vm_compute].
Defined.

(** *** Responses *)
Lemma rs_execute_events data p p' n q es :
  interp record (execute data (proj1_sig (rs_parser p : vparser))) [] = ((Returned n, q), es) -> http_errno q = 0 ->
  run_events on_response 0 es p = (None, p') ->
  exists st, rs_execute data p = (n, MkResponseParser st (rs_data p') (rs_error p') (rs_finished p') (rs_filed p'), if n <? zlen data then zdrop n data else data).
Proof.
  intros Hr He Hes. destruct (run_parser_spec record (rs_parser p : vparser) data [] _ _ _ Hr) as (st & Hst & Hq). exists st. unfold rs_execute, c_execute.
  change (hp_run (rs_parser p) data) with (let '(q, n, es) := run_parser record (rs_parser p : vparser) data [] in (es, q, n)). rewrite Hst, Hes.
  change (@hp_errno c_parser st) with (http_errno (proj1_sig st)). by rewrite Hq, He.
Qed.
Definition same_response (p p' : Http.HttpResponse) : Prop :=
  Http.p_status p' = Http.p_status p /\ Http.p_version p' = Http.p_version p /\ Http.p_body p' = Http.p_body p
  /\ forall k d, Http.lower k <> bs "connection" -> Http.lower k <> bs "content-length" -> Http.p_getHeader p' k d = Http.p_getHeader p k d.
(** C12. The same of responses: what [sendResponse] serialises and [recvResponse]
    receives in one piece is read back with its status, version, body and the
    values of its headers.  Without a body the status has to be one that has
    none: [dump] writes no length then. *)
Theorem response_roundtrip (bufferSize : Z) (s : stream) (rest : list chunk) (p : Http.HttpResponse) :
  good_response p = true -> Http.msorted (Http.p_headers p) -> zlen (response_head p) + 2 <= max_header_size ->
  zlen (Http.p_dump p) <= bufferSize < 2 ^ 62 -> s_connected s = true -> s_in s = Data (Http.p_dump p) :: rest ->
  exists p', recvResponse bufferSize s = Ret (Some p') (MkStream rest (s_wr s) (s_out s) true) /\ same_response p p'.
Proof.
  intros Hg Hs Hm Hb Hc Hin. pose proof (p_dump_text p Hg) as Hd.
  assert (zlen (Http.p_body p) <= zlen (Http.p_dump p)) as Hle by (rewrite Hd, !zlen_app; pose proof (zlen_nonneg (response_head p)); pose proof (zlen_nonneg Http.CRLF); lia).
  destruct (response_events p Hg Hm ltac:(lia)) as (q & Hx & He).
  pose proof Hg as Hg'. unfold good_response in Hg'. rewrite !andb_true_iff, negb_true_iff, !Z.leb_le in Hg'. destruct Hg' as ((((((Hs0 & Hs9) & Hver) & _) & Hw) & Hh) & _).
  assert (Forall (fun e => is_body_event e = true) (body_events (Http.p_body p))) as Hbody by (unfold body_events; case_bool_decide; repeat constructor).
  destruct (callbacks_assemble_message (bs "/") _ (response_headers p) (body_events (Http.p_body p)) (Z.shiftr (Http.p_version p) 4) (Z.land (Http.p_version p) 0x0f) 0 (Http.p_status p) (reason_text p) eq_refl Hbody)
    as [_ (rp & Hrun & Hfin & Herr & Hst & Hv & Hhd & Hbd)].
  destruct (rs_execute_events (Http.p_dump p) new_response_parser rp _ q _ Hx He Hrun) as (st & Hex). rewrite Z.ltb_irrefl in Hex.
  assert (Http.p_dump p <> []) as Hne by (rewrite Hd; by destruct (response_head p)).
  pose proof (receive_one (MP := response_message_parser) bufferSize new_response_parser _ _ s rest Hc Hin Hne ltac:(lia) ltac:(lia) Hex Herr Hfin) as Hrec.
  unfold recvResponse. rewrite Hrec. cbn [obind rs_data]. eexists. split; [reflexivity|]. unfold same_response. split_and!.
  - done.
  - rewrite Hv. by apply version_back.
  - rewrite Hbd. unfold body_events. case_bool_decide as E; [by rewrite E|cbn; by rewrite app_nil_r].
  - intros k d Hk1 Hk2. rewrite Hhd. etransitivity; [by apply (message_header_values CONNECTION (Http.p_close p) (sent_headers_of p))|by apply sent_header_values_of].
Qed.
Definition answered : Http.HttpResponse := Http.MkResponse 200 0x11 false false (bs "hi") [] [(bs "Content-Type", bs "text/html"); (bs "Server", bs "luwu")] [].
Lemma response_roundtrip_witness :
  exists p', recvResponse 4096 (MkStream [Data (Http.p_dump answered)] [] [] true) = Ret (Some p') (MkStream [] [] [] true) /\ same_response answered p'.
Proof.
  apply (response_roundtrip 4096 (MkStream [Data (Http.p_dump answered)] [] [] true) [] answered); first [reflexivity | repeat constructor; by vm_compute].
Defined.

(** *** What is not received *)

(** A response without a body has no length: the client waits for the end of
    the connection, and answers null then. *)
Lemma empty_response_is_lost :
  recvResponse 4096 (MkStream [Data (Http.p_dump (Http.new_response 0x11 false)); Eof] [] [] true) = Ret None (MkStream [] [] [] false).
Proof. vm_compute. reflexivity. Qed.

(** The opening request of a WebSocket is an upgrade for the parser, which
    [execute] makes an error of: [recvRequest] answers null. *)
Definition handshake : str :=
  bs "GET /chat HTTP/1.1" ++ Http.CRLF ++ bs "Host: a" ++ Http.CRLF ++ bs "Upgrade: websocket" ++ Http.CRLF ++ bs "Connection: Upgrade" ++ Http.CRLF
  ++ bs "Sec-WebSocket-Version: 13" ++ Http.CRLF ++ bs "Sec-WebSocket-Key: dGhlIHNhbXBsZSBub25jZQ==" ++ Http.CRLF ++ Http.CRLF.
Lemma handshake_is_refused : recvRequest 4096 (MkStream [Data handshake] [] [] true) = Ret None (MkStream [] [] [] false).
Proof. vm_compute. reflexivity. Qed.

(** A header that comes in two pieces keeps its last piece only. *)
Lemma segmented_header_is_cut :
  exists r s, recvRequest 4096 (MkStream [Data (bs "GET / HTTP/1.1" ++ Http.CRLF ++ bs "Host: local"); Data (bs "host" ++ Http.CRLF ++ Http.CRLF)] [] [] true) = Ret (Some r) s
    /\ Http.getHeader r (bs "host") [] = bs "host".
Proof. eexists _, _. split; [vm_compute; reflexivity|vm_compute; reflexivity]. Qed.
End receive.

End HttpExchange.
