(* ===== verification/HttpClient.v ===== *)
(** * The HTTP client: [luwu/luwu/http/http_connection.cpp] and
      [ws_connection.cpp]

    One-shot requests, the pool of connections and the opening of a client
    WebSocket.  The network is the list of what the next [connect] calls give:
    no connection, or a stream.  Receive timeouts are errors in the script of
    the stream.  The resolver, the C parser, [errno] and [strerror] are
    parameters. *)
From S2P Require Import Prelude StdString StdMap Codec HashUtil Ext Address UrlParser Uri Http Stream WebSocket HttpParser.
Import StdString Http Stream HttpParser.
Local Open Scope Z_scope.

Module HttpClient.

(** ** Results *)
Inductive Error :=
| OK | INVALID_URL | INVALID_HOST | CONNECT_FAIL | SEND_CLOSE_BY_PEER | SEND_SOCKET_ERROR | TIMEOUT | CREATE_SOCKET_ERROR
| POOL_GET_CONNECTION | POOL_INVALID_CONNECTION | NOT_WEBSOCKET.
Definition error_number (e : Error) : Z :=
  match e with
  | OK => 0 | INVALID_URL => 1 | INVALID_HOST => 2 | CONNECT_FAIL => 3 | SEND_CLOSE_BY_PEER => 4 | SEND_SOCKET_ERROR => 5
  | TIMEOUT => 6 | CREATE_SOCKET_ERROR => 7 | POOL_GET_CONNECTION => 8 | POOL_INVALID_CONNECTION => 9 | NOT_WEBSOCKET => 10
  end.
Record HttpResult := MkResult { error : Error; errstr : str; response : option HttpResponse }.
Definition result_toString (r : HttpResult) : str :=
  bs "[HttpResult error=" ++ to_string (error_number (error r)) ++ bs " errstr=" ++ errstr r ++ bs " response="
  ++ match response r with Some p => p_dump p | None => bs "nullptr" end ++ bs "]".

(** ** Requests *)
Definition POST : Z := 3.

(** One header of the caller: [Connection] only decides whether to close. *)
Definition add_header (st : HttpRequest * bool) (h : str * str) : HttpRequest * bool :=
  let '(req, hasHost) := st in
  if is_header (bs "Connection") (fst h)
  then (if is_header (bs "keep-alive") (snd h) then setClose false req else req, hasHost)
  else (setHeader (fst h) (snd h) req,
        if negb hasHost && is_header (bs "host") (fst h) then negb (bool_decide (snd h = [])) else hasHost).
Definition add_headers (headers : list (str * str)) (host : str) (req : HttpRequest) : HttpRequest :=
  let '(req, hasHost) := fold_left add_header headers (req, false) in
  if hasHost then req else setHeader (bs "Host") host req.

Definition build_request (method : Z) (uri : Uri.URI) (headers : list (str * str)) (body : str) : HttpRequest :=
  let req := setMethod method (setFragment (Uri.m_fragment uri) (setQuery (Uri.m_query uri) (setPath (Uri.getPath uri) (new_request 0x11 true)))) in
  setBody body (add_headers headers (Uri.m_host uri) req).

(** The request of a pool, whose path is the whole target. *)
Definition pool_request (m_host m_vhost : str) (method : Z) (url : str) (headers : list (str * str)) (body : str) : HttpRequest :=
  let req := setClose false (setMethod method (setPath url (new_request 0x11 true))) in
  setBody body (add_headers headers (if bool_decide (m_vhost = []) then m_host else m_vhost) req).
Definition target (uri : Uri.URI) : str :=
  Uri.getPath uri ++ (if bool_decide (Uri.m_query uri = []) then [] else bs "?") ++ Uri.m_query uri
  ++ (if bool_decide (Uri.m_fragment uri = []) then [] else bs "#") ++ Uri.m_fragment uri.

(** The request that opens a WebSocket. *)
Definition add_ws_header (st : HttpRequest * bool * bool) (h : str * str) : HttpRequest * bool * bool :=
  let '(req, has_host, has_conn) := st in
  let '(has_host, has_conn) :=
    if is_header (bs "connection") (fst h) then (has_host, true)
    else (if negb has_host && is_header (bs "host") (fst h) then negb (bool_decide (snd h = [])) else has_host, has_conn) in
  (setHeader (fst h) (snd h) req, has_host, has_conn).
Definition build_ws_request (uri : Uri.URI) (headers : list (str * str)) (key : str) : HttpRequest :=
  let req := setMethod GET (setFragment (Uri.m_fragment uri) (setQuery (Uri.m_query uri) (setPath (Uri.getPath uri) (new_request 0x11 true)))) in
  let '(req, has_host, has_conn) := fold_left add_ws_header headers (req, false, false) in
  let req := setWebSocket true req in
  let req := if has_conn : bool then req else setHeader (bs "connection") (bs "Upgrade") req in
  let req := setHeader (bs "Upgrade") (bs "websocket") req in
  let req := setHeader (bs "Sec-webSocket-Version") (bs "13") req in
  let req := setHeader (bs "Sec-webSocket-Key") key req in
  if has_host : bool then req else setHeader (bs "Host") (Uri.m_host uri) req.

(** ** The network *)
Record net := MkNet { n_dials : list (option stream); n_closed : list (Address.Address * stream) }.
Definition connect : M net (option stream) := fun n =>
  match n_dials n with [] => Ret None n | d :: r => Ret d (MkNet r (n_closed n)) end.
(** Run on a connection; its stream is closed when the object is destroyed. *)
Definition with_conn {X} (addr : Address.Address) (s : stream) (m : M stream X) : M net X := fun n =>
  match m s with
  | Ret x s => Ret x (MkNet (n_dials n) (n_closed n ++ [(addr, close s)]))
  | Throw e s => Throw e (MkNet (n_dials n) (n_closed n ++ [(addr, close s)]))
  | UB => UB
  | NoFuel => NoFuel
  end.

Section client.
Context `{CP : CParser, PF : !Platform} (getaddrinfo : str -> option str -> Z -> Z -> Z -> option (list Address.sockaddr)).
Context (bufferSize errno : Z) (strerror : Z -> str).

Definition errno_text : str := bs "errno=" ++ to_string errno ++ bs " errstr=" ++ strerror errno.

(** From a connection to the result: send, then receive.  [rt] is a [size_t]. *)
Definition exchange (request : HttpRequest) (closed failed timed_out : str) : M stream HttpResult := fun s =>
  let* rt, s := sendRequest request s in
  if rt =? 0 then Ret (MkResult SEND_CLOSE_BY_PEER closed None) s
  else if rt <? 0 then Ret (MkResult SEND_SOCKET_ERROR failed None) s
  else
    let* rsp, s := recvResponse bufferSize s in
    match rsp with
    | None => Ret (MkResult TIMEOUT timed_out None) s
    | Some rsp => Ret (MkResult OK (bs "ok") (Some rsp)) s
    end.

(** [Socket::CreateTCP] never gives null. *)
Definition DoRequest (request : HttpRequest) (uri : Uri.URI) (timeout : Z) : M net HttpResult := fun n =>
  match Uri.createAddress getaddrinfo uri with
  | None => Ret (MkResult INVALID_HOST (bs "invalid host: " ++ Uri.m_host uri) None) n
  | Some addr =>
      let* sock, n := connect n in
      match sock with
      | None => Ret (MkResult CONNECT_FAIL (bs "connect fail: " ++ Address.dump addr) None) n
      | Some s =>
          with_conn addr s
            (exchange request (bs "send request closed by peer: " ++ Address.dump addr) (bs "send request socket error " ++ errno_text)
               (bs "recv response timeout: " ++ Address.dump addr ++ bs " timeout:" ++ to_string timeout)) n
      end
  end.
Definition DoRequest_uri (method : Z) (uri : Uri.URI) (timeout : Z) (headers : list (str * str)) (body : str) : M net HttpResult :=
  DoRequest (build_request method uri headers body) uri timeout.
Definition DoRequest_url (method : Z) (url : str) (timeout : Z) (headers : list (str * str)) (body : str) : M net HttpResult := fun n =>
  match Uri.Create url with
  | Uri.Null => Ret (MkResult INVALID_URL (bs "invalid url" ++ url) None) n
  | Uri.Throws => Throw InvalidArgument n
  | Uri.Made uri => DoRequest_uri method uri timeout headers body n
  end.
Definition DoGet_uri := DoRequest_uri GET.
Definition DoPost_uri := DoRequest_uri POST.
Definition DoGet := DoRequest_url GET.
Definition DoPost := DoRequest_url POST.

(** ** [WSConnection::Create]: [rt] is an [int] here. *)
Definition ws_exchange (request : HttpRequest) (addr : str) (timeout : Z) : M stream HttpResult := fun s =>
  let* rt, s := sendRequest request s in
  let rt := s32 rt in
  if rt =? 0 then Ret (MkResult SEND_CLOSE_BY_PEER (bs "send request closed by peer: " ++ addr) None) s
  else if rt <? 0 then Ret (MkResult SEND_SOCKET_ERROR (bs "send request socket error " ++ errno_text) None) s
  else
    let* rsp, s := recvResponse bufferSize s in
    match rsp with
    | None => Ret (MkResult TIMEOUT (bs "recv response timeout: " ++ addr ++ bs " timeout_ms:" ++ to_string timeout) None) s
    | Some rsp =>
        if p_status rsp =? WebSocket.SWITCHING_PROTOCOLS then Ret (MkResult OK (bs "ok") (Some rsp)) s
        else Ret (MkResult NOT_WEBSOCKET (bs "not websocket server " ++ addr) (Some rsp)) s
    end.
(** The result and, when it is [OK], the connection; otherwise it is closed. *)
Definition ws_Create (uri : Uri.URI) (timeout : Z) (headers : list (str * str)) (nonce : str) : M net (HttpResult * option stream) := fun n =>
  match Uri.createAddress getaddrinfo uri with
  | None => Ret (MkResult INVALID_HOST (bs "invalid host: " ++ Uri.m_host uri) None, None) n
  | Some addr =>
      let* sock, n := connect n in
      match sock with
      | None => Ret (MkResult CONNECT_FAIL (bs "connect fail: " ++ Address.dump addr) None, None) n
      | Some s =>
          match HashUtil.base64encode nonce with
          | Ret key _ =>
              match ws_exchange (build_ws_request uri headers key) (Address.dump addr) timeout s with
              | Ret r s =>
                  match error r with
                  | OK => Ret (r, Some s) n
                  | _ => Ret (r, None) (MkNet (n_dials n) (n_closed n ++ [(addr, close s)]))
                  end
              | Throw e s => Throw e (MkNet (n_dials n) (n_closed n ++ [(addr, close s)]))
              | UB => UB
              | NoFuel => NoFuel
              end
          | Throw e _ => Throw e n
          | UB => UB
          | NoFuel => NoFuel
          end
      end
  end.
Definition ws_Create_url (url : str) (timeout : Z) (headers : list (str * str)) (nonce : str) : M net (HttpResult * option stream) := fun n =>
  match Uri.Create url with
  | Uri.Null => Ret (MkResult INVALID_URL (bs "invalid url:" ++ url) None, None) n
  | Uri.Throws => Throw InvalidArgument n
  | Uri.Made uri => ws_Create uri timeout headers nonce n
  end.

(** The frames of a client are masked. *)
Definition ws_recvMessage (fuel : nat) (max_size : Z) := WebSocket.WSRecvMessage fuel true max_size.
Definition ws_sendMessage (msg : WebSocket.WSFrameMessage) (fin : bool) (rand_value : Z) := WebSocket.WSSendMessage msg true fin rand_value.
Definition ws_ping := WebSocket.WSPing.
Definition ws_pong := WebSocket.WSPong.
End client.

(** ** The pool *)
Abbreviation id := N.
Record HttpConnection := MkConn { c_stream : stream; c_addr : Address.Address; m_createTime : Z; m_request : Z }.
(** The members of the pool, the connections that exist and the network. *)
Record pool := MkPool {
  m_coons : list id;
  m_total : Z;
  heap : gmap id HttpConnection;
  next : id;
  p_net : list (option stream);
}.
Definition with_coons (l : list id) (p : pool) : pool := MkPool l (m_total p) (heap p) (next p) (p_net p).
Definition with_heap (h : gmap id HttpConnection) (p : pool) : pool := MkPool (m_coons p) (m_total p) h (next p) (p_net p).
Definition with_total (t : Z) (p : pool) : pool := MkPool (m_coons p) t (heap p) (next p) (p_net p).

Section pool.
Context `{CP : CParser, PF : !Platform} (getaddrinfo : str -> option str -> Z -> Z -> Z -> option (list Address.sockaddr)).
Context (bufferSize errno : Z) (strerror : Z -> str).
(** The members that do not change. *)
Context (m_host m_vhost : str) (m_port m_maxAliveTime m_maxRequest : Z).

(** The test of [getConnection]. *)
Definition unusable (now : Z) (c : HttpConnection) : bool :=
  negb (s_connected (c_stream c)) || (now <? u64 (m_createTime c + m_maxAliveTime)).

(** The loop of [getConnection] under the lock: the connections to delete, the
    one found and the rest.  [None]: a pointer to a deleted connection is
    followed. *)
Fixpoint scan (now : Z) (h : gmap id HttpConnection) (l : list id) : option (list id * option id * list id) :=
  match l with
  | [] => Some ([], None, [])
  | i :: l =>
      c ← h !! i;
      if unusable now c then '(invalid, ptr, l) ← scan now h l; Some (i :: invalid, ptr, l) else Some ([], Some i, l)
  end.
Definition take (now : Z) : M pool (list id * option id) := fun p =>
  match scan now (heap p) (m_coons p) with
  | None => UB
  | Some (invalid, ptr, l) => Ret (invalid, ptr) (with_coons l p)
  end.
(** [delete]; deleting twice is undefined. *)
Fixpoint delete_all (l : list id) (h : gmap id HttpConnection) : option (gmap id HttpConnection) :=
  match l with
  | [] => Some h
  | i :: l => match h !! i with Some _ => delete_all l (delete i h) | None => None end
  end.
Definition drop_invalid (invalid : list id) : M pool unit := fun p =>
  match delete_all invalid (heap p) with
  | None => UB
  | Some h => Ret tt (with_total (u32 (m_total p - zlen invalid)) (with_heap h p))
  end.
(** [new HttpConnection(sock)] and [++m_total]; [m_createTime] keeps its 0. *)
Definition dial : M pool (option id) := fun p =>
  match Address.LookupAnyIPAddress getaddrinfo m_host Address.AF_INET 0 0 with
  | None => Ret None p
  | Some addr =>
      let addr := Address.setPort m_port addr in
      match p_net p with
      | [] => Ret None p
      | None :: r => Ret None (MkPool (m_coons p) (m_total p) (heap p) (next p) r)
      | Some s :: r =>
          Ret (Some (next p))
            (MkPool (m_coons p) (u32 (m_total p + 1)) (<[next p := MkConn s addr 0 0]> (heap p)) (N.succ (next p)) r)
      end
  end.
Definition getConnection (now : Z) : M pool (option id) := fun p =>
  let* r, p := take now p in
  let* _, p := drop_invalid (fst r) p in
  match snd r with Some i => Ret (Some i) p | None => dial p end.

Definition ReleasePtr (now : Z) (i : id) : M pool unit := fun p =>
  match heap p !! i with
  | None => UB
  | Some c =>
      let c := MkConn (c_stream c) (c_addr c) (m_createTime c) (u64 (m_request c + 1)) in
      let p := with_heap (<[i := c]> (heap p)) p in
      if negb (s_connected (c_stream c)) || (now <=? u64 (m_createTime c + m_maxAliveTime)) || (m_maxRequest <=? m_request c)
      then Ret tt (with_total (u32 (m_total p - 1)) (with_heap (delete i (heap p)) p))
      else Ret tt (with_coons (m_coons p ++ [i]) p)
  end.

(** A call on a lent connection. *)
Definition on_conn {X} (i : id) (m : HttpConnection -> M stream X) : M pool X := fun p =>
  match heap p !! i with
  | None => UB
  | Some c =>
      let put s := with_heap (<[i := MkConn s (c_addr c) (m_createTime c) (m_request c)]> (heap p)) p in
      match m c (c_stream c) with
      | Ret x s => Ret x (put s)
      | Throw e s => Throw e (put s)
      | UB => UB
      | NoFuel => NoFuel
      end
  end.
Definition pool_text : str := bs "pool host:" ++ m_host ++ bs " port:" ++ to_string m_port.
(** [now] and [later] are the times of the two calls of [GetCurrentMS].  A
    connection always has its socket, so that [POOL_INVALID_CONNECTION] does not
    occur. *)
Definition doRequest (request : HttpRequest) (timeout now later : Z) : M pool HttpResult := fun p =>
  let* conn, p := getConnection now p in
  match conn with
  | None => Ret (MkResult POOL_GET_CONNECTION pool_text None) p
  | Some i =>
      let* r, p := on_conn i (fun c =>
        exchange bufferSize request (bs "send request closed by peer: " ++ Address.dump (c_addr c)) (bs "send request socket error " ++ errno_text errno strerror)
          (bs "recv response timeout: " ++ Address.dump (c_addr c) ++ bs " timeout_ms:" ++ to_string timeout)) p in
      let* _, p := ReleasePtr later i p in
      Ret r p
  end.
Definition doRequest_url (method : Z) (url : str) (timeout : Z) (headers : list (str * str)) (body : str) :=
  doRequest (pool_request m_host m_vhost method url headers body) timeout.
Definition doRequest_uri (method : Z) (uri : Uri.URI) (timeout : Z) (headers : list (str * str)) (body : str) :=
  doRequest_url method (target uri) timeout headers body.
Definition doGet := doRequest_url GET.
Definition doGet_uri (uri : Uri.URI) := doGet (target uri).
Definition doPost := doRequest_url POST.
Definition doPost_uri (uri : Uri.URI) := doPost (target uri).
End pool.

(** ** The headers of a request *)
(** The caller's headers without [Connection]. *)
Definition kept (hs : list (str * str)) : list (str * str) := List.filter (fun h => negb (is_header (bs "Connection") (fst h))) hs.
Definition asks_keep_alive (hs : list (str * str)) : bool :=
  existsb (fun h => is_header (bs "Connection") (fst h) && is_header (bs "keep-alive") (snd h)) hs.
Definition names_host (hs : list (str * str)) : bool :=
  existsb (fun h => is_header (bs "host") (fst h) && negb (bool_decide (snd h = []))) hs.

Lemma add_header_fold hs req b :
  fold_left add_header hs (req, b)
  = (setClose (q_close req && negb (asks_keep_alive hs)) (q_with_headers (set_all (kept hs) (q_headers req)) req), b || names_host (kept hs)).
Proof.
  revert req b. induction hs as [|[k v] hs IH]; intros req b; cbn [fold_left].
  - destruct req. cbn. by rewrite andb_true_r, orb_false_r.
  - unfold kept, asks_keep_alive, names_host in *. cbn [add_header List.filter existsb fst snd]. destruct (is_header (bs "Connection") k); cbn [negb andb orb].
    + rewrite IH. destruct (is_header (bs "keep-alive") v); cbn; [by rewrite andb_false_r|done].
    + rewrite IH. cbn. f_equal. destruct b; cbn [negb andb orb]; [done|]. destruct (is_header (bs "host") k); done.
Qed.

(** The headers of the requests, as assignments in order. *)
Definition host_if (b : bool) (host : str) : list (str * str) := if b then [] else [(bs "Host", host)].
Lemma add_headers_spec hs host req :
  add_headers hs host req
  = setClose (q_close req && negb (asks_keep_alive hs))
      (q_with_headers (set_all (kept hs ++ host_if (names_host (kept hs)) host) (q_headers req)) req).
Proof.
  unfold add_headers. rewrite add_header_fold. cbn [orb]. unfold set_all. rewrite fold_left_app. by destruct (names_host (kept hs)), req.
Qed.

Lemma no_connection k d hs : lower k = bs "connection" -> last_value k d (kept hs) = d.
Proof.
  intros Hk. revert d. induction hs as [|[f v] hs IH]; intros d; [done|]. unfold kept in *. cbn [List.filter fst].
  rewrite is_header_lower. case_bool_decide as E; cbn [negb]; [by apply IH|]. cbn [last_value]. rewrite decide_False; [by apply IH|].
  intros Heq. apply E. by rewrite Heq, Hk.
Qed.

Lemma kept_value k d hs : lower k <> bs "connection" -> last_value k d (kept hs) = last_value k d hs.
Proof. intros Hk. apply last_value_filter. intros h Hl. rewrite is_header_lower, bool_decide_false; [done|]. by rewrite Hl. Qed.

(** A request to a URI names its method, path, query and fragment and carries
    the body; [Connection] is never among its headers, every other header has
    the value the caller gave last, and [Host] is the caller's when he gave a
    non-empty one, else the host of the URI. *)
Theorem request_headers (method : Z) (uri : Uri.URI) (headers : list (str * str)) (body : str) :
  let req := build_request method uri headers body in
  (q_method req, q_path req, q_query req, q_fragment req, q_body req) = (method, Uri.getPath uri, Uri.m_query uri, Uri.m_fragment uri, body)
  /\ q_close req = negb (asks_keep_alive headers)
  /\ (forall k d, getHeader req k d =
        if decide (lower k = bs "connection") then d
        else if decide (lower k = bs "host")
             then if names_host (kept headers) then last_value k d headers else Uri.m_host uri
             else last_value k d headers).
Proof.
  intros req. unfold req, build_request. rewrite add_headers_spec. split_and!; [done|done|]. intros k d.
  unfold getHeader. cbn [q_headers setBody setClose q_with_headers].
  rewrite mfind_set_all by constructor. cbn [mfind default]. change (default d (mfind k _)) with d. rewrite last_value_app.
  destruct (decide (lower k = bs "connection")) as [Hk|Hk].
  - rewrite no_connection by done. unfold host_if. destruct (names_host _); [done|]. cbn [last_value]. rewrite decide_False; [done|]. by rewrite Hk.
  - rewrite kept_value by done. unfold host_if. destruct (decide (lower k = bs "host")) as [Hh|Hh], (names_host (kept headers)); try done; cbn [last_value].
    + by rewrite decide_True by (by rewrite Hh).
    + rewrite decide_False; [done|]. intros Heq. apply Hh. by rewrite <- Heq.
Qed.

(** ** A request on a connection *)
Lemma dump_nonempty r : 0 < zlen (dump r).
Proof.
  unfold dump. rewrite zlen_app, (zlen_app (bs " ")). change (zlen (bs " ")) with 1.
  match goal with |- 0 < zlen ?a + (1 + zlen ?b) => pose proof (zlen_nonneg a); pose proof (zlen_nonneg b) end. lia.
Qed.

(** What a response is, of the bytes that arrived. *)
Definition received `{CParser} (bytes : str) (rsp : HttpResponse) : Prop :=
  exists p consumed rest, fed new_response_parser p consumed /\ rs_finished p = true /\ rsp = rs_data p /\ bytes = consumed ++ rest.

Section exchanges.
Context `{CP : CParser, LP : !CParserLaws CP} (bufferSize : Z).

Lemma recvResponse_ok s :
  no_error s -> s_connected s = true -> 0 < bufferSize < 2 ^ 62 ->
  exists r s', recvResponse bufferSize s = Ret r s' /\ s_out s' = s_out s
    /\ match r with None => s_connected s' = false | Some rsp => s_connected s' = true /\ received (incoming s) rsp end.
Proof.
  intros He Hc Hs.
  destruct (receive_loop_ok (S (pending s)) bufferSize new_response_parser new_response_parser [] 0 [] s)
    as (r & s' & E & Ho & Hr); try done; try lia; [apply fed_nil|].
  unfold recvResponse, receive. rewrite E. cbn [obind]. eexists _, _. split; [done|]. split; [done|].
  destruct r as [p|]; [|done]. destruct Hr as (Hc' & Hfin & c & rest & Hfed & Heq). split; [done|].
  exists p, c, (rest ++ incoming s'). by split_and!.
Qed.

(** A peer that takes what is sent and does not fail: the request is sent
    whole, and the result is the response it sends or [TIMEOUT]. *)
Definition peer_ok (s : stream) : Prop := s_connected s = true /\ no_error s /\ Forall is_accept (s_wr s).
Lemma exchange_ok req closed failed timed_out s :
  peer_ok s -> 0 < bufferSize < 2 ^ 62 -> zlen (dump req) < 2 ^ 64 ->
  exists r s', exchange bufferSize req closed failed timed_out s = Ret r s' /\ s_out s' = s_out s ++ dump req
    /\ match response r with
       | Some rsp => error r = OK /\ s_connected s' = true /\ received (incoming s) rsp
       | None => error r = TIMEOUT /\ s_connected s' = false
       end.
Proof.
  intros (Hc & He & Hw) Hb Hl. unfold exchange, sendRequest. destruct s as [inp wr out con]. cbn in Hc, Hw. subst con.
  destruct (writeFixSize_sends (dump req) inp wr out Hw Hl) as (wr' & -> & Hw'). cbn [obind]. pose proof (dump_nonempty req).
  destruct (Z.eqb_spec (zlen (dump req)) 0); [lia|]. destruct (Z.ltb_spec (zlen (dump req)) 0); [lia|].
  destruct (recvResponse_ok (MkStream inp wr' (out ++ dump req) true)) as (r & s' & -> & Ho & Hr); [done|done|done|]. cbn [obind].
  destruct r as [rsp|]; eexists _, _; (split; [done|]); cbn; by split.
Qed.
End exchanges.

(** A one-shot request to a URI whose host resolves, over a connection
    whose peer takes what is sent and does not fail: the call returns, the
    bytes sent are exactly the serialised request, the connection is closed
    afterwards, and the result is [OK] with the response parsed from the front
    of what the peer sent, or [TIMEOUT] when it sent no whole response. *)
Theorem one_shot_request `{CP : CParser, LP : !CParserLaws CP, PF : !Platform}
    (getaddrinfo : str -> option str -> Z -> Z -> Z -> option (list Address.sockaddr)) (bufferSize errno : Z) (strerror : Z -> str)
    (method : Z) (uri : Uri.URI) (timeout : Z) (headers : list (str * str)) (body : str) (addr : Address.Address) (s : stream) (n : net) (r : list (option stream)) :
  let req := build_request method uri headers body in
  Uri.createAddress getaddrinfo uri = Some addr -> n_dials n = Some s :: r -> peer_ok s ->
  0 < bufferSize < 2 ^ 62 -> zlen (dump req) < 2 ^ 64 ->
  exists res s', DoRequest_uri getaddrinfo bufferSize errno strerror method uri timeout headers body n
      = Ret res (MkNet r (n_closed n ++ [(addr, s')]))
    /\ s_out s' = s_out s ++ dump req /\ s_connected s' = false
    /\ match response res with Some rsp => error res = OK /\ received (incoming s) rsp | None => error res = TIMEOUT end.
Proof.
  intros req Ha Hd Hp Hb Hl. unfold DoRequest_uri, DoRequest. rewrite Ha. unfold connect. rewrite Hd. cbn [obind]. fold req.
  unfold with_conn. match goal with |- context [exchange _ _ ?a ?b ?c s] => destruct (exchange_ok bufferSize req a b c s Hp Hb Hl) as (res & s' & -> & Ho & Hr) end.
  exists res, (close s'). split; [done|]. split; [done|]. split; [done|]. destruct (response res); naive_solver.
Qed.

(** A peer of the example: its only line is the status. *)
Definition ok_parser : CParser := {|
  hp_state := unit; hp_init_request := tt; hp_init_response := tt;
  hp_run st d := match StdString.find (z2b 10) d 0 with
    | Some i => ([MessageBegin; Status 200 (ztake i d); HeadersComplete 1 1 0 200; MessageComplete], tt, i + 1)
    | None => ([], tt, 0)
    end;
  hp_stopped st d _ := (st, 0);
  hp_upgrade _ := false; hp_errno _ := 0;
|}.
#[export] Instance ok_parser_laws : CParserLaws ok_parser.
Proof.
  split; [|intros; simpl; pose proof (zlen_nonneg d); lia].
  intros st d. simpl. unfold StdString.find. pose proof (zlen_nonneg d).
  destruct (StdString.find_if_from _ d 0) as [i|] eqn:E; [|lia].
  apply StdString.find_if_from_some in E; [|lia]. lia.
Qed.
Definition c_resolver : str -> option str -> Z -> Z -> Z -> option (list Address.sockaddr) :=
  fun _ _ _ _ _ => Some [Address.SaIn (Address.MkIn 0 0x0100007f [])].
Definition c_uri : Uri.URI := Uri.MkURI (bs "http") [] (bs "localhost") (bs "/chat") (bs "id=1") [] 8080.
Definition c_peer : stream := MkStream [Data (bs "200 O"); Data (bs "K" ++ [z2b 10])] [Accept 5; Accept 1000] [] true.

Lemma one_shot_request_witness :
  exists res s', DoRequest_uri (CP := ok_parser) (PF := x86_64) c_resolver 4096 0 (fun _ => []) GET c_uri 1000 [(bs "Accept", bs "*")] []
      (MkNet [Some c_peer] []) = Ret res (MkNet [] [(Address.IPv4Address (Address.MkIn 0x901f 0x0100007f []), s')])
    /\ error res = OK
    /\ s_out s' = bs "GET /chat?id=1 HTTP/1.1" ++ CRLF ++ bs "Connection: close" ++ CRLF ++ bs "Accept: *" ++ CRLF ++ bs "Host: localhost" ++ CRLF ++ CRLF.
Proof.
  destruct (one_shot_request (CP := ok_parser) (PF := x86_64) c_resolver 4096 0 (fun _ => []) GET c_uri 1000 [(bs "Accept", bs "*")] []
    (Address.IPv4Address (Address.MkIn 0x901f 0x0100007f [])) c_peer (MkNet [Some c_peer] []) []) as (res & s' & E & Ho & _ & Hr).
  - vm_compute. reflexivity.
  - reflexivity.
  - split; [reflexivity|]. split; repeat constructor; done.
  - lia.
  - vm_compute. reflexivity.
  - exists res, s'. split; [exact E|]. vm_compute in E. injection E as <- <-. by vm_compute.
Defined.

(** ** The opening of a WebSocket *)
Definition has_connection (hs : list (str * str)) : bool := existsb (fun h => is_header (bs "connection") (fst h)) hs.

Lemma add_ws_header_fold hs req a b :
  fold_left add_ws_header hs (req, a, b)
  = (q_with_headers (set_all hs (q_headers req)) req, a || names_host hs, b || has_connection hs).
Proof.
  revert req a b. induction hs as [|[k v] hs IH]; intros req a b; cbn [fold_left].
  - destruct req. cbn. by rewrite !orb_false_r.
  - unfold names_host, has_connection in *. cbn [add_ws_header existsb fst snd]. rewrite !is_header_lower.
    destruct (bool_decide_reflect (lower k = lower (bs "connection"))) as [Hk|]; rewrite IH; cbn.
    + rewrite Hk. rewrite (bool_decide_false (lower (bs "connection") = _)) by done. cbn. by rewrite orb_true_r.
    + f_equal. f_equal. destruct a; cbn [negb andb orb]; [done|]. by case_bool_decide.
Qed.

Definition ws_headers (hs : list (str * str)) (host key : str) : list (str * str) :=
  hs ++ (if has_connection hs then [] else [(bs "connection", bs "Upgrade")])
  ++ [(bs "Upgrade", bs "websocket"); (bs "Sec-webSocket-Version", bs "13"); (bs "Sec-webSocket-Key", key)]
  ++ host_if (names_host hs) host.
Lemma build_ws_request_headers uri hs key : q_headers (build_ws_request uri hs key) = set_all (ws_headers hs (Uri.m_host uri) key) [].
Proof.
  unfold build_ws_request. rewrite add_ws_header_fold. cbn [orb]. unfold ws_headers, set_all. rewrite !fold_left_app.
  by destruct (has_connection hs), (names_host hs).
Qed.
Lemma ws_header uri hs key k d : getHeader (build_ws_request uri hs key) k d = last_value k d (ws_headers hs (Uri.m_host uri) key).
Proof. unfold getHeader. rewrite build_ws_request_headers. rewrite mfind_set_all by constructor. done. Qed.

(** A header that the client sets itself. *)
Lemma ws_own_header uri hs key k v d :
  lower k <> bs "host" ->
  (forall x, last_value k x ((if has_connection hs then [] else [(bs "connection", bs "Upgrade")])
     ++ [(bs "Upgrade", bs "websocket"); (bs "Sec-webSocket-Version", bs "13"); (bs "Sec-webSocket-Key", key)]) = v) ->
  getHeader (build_ws_request uri hs key) k d = v.
Proof.
  intros Hk Hv. rewrite ws_header. unfold ws_headers. rewrite (last_value_app k d hs), (app_assoc (if _ : bool then _ else _)), last_value_app, Hv.
  unfold host_if. destruct (names_host hs); [done|]. cbn [last_value]. rewrite decide_False; [done|]. intros Heq. apply Hk. by rewrite <- Heq.
Qed.

(** The two ends of a WebSocket agree on what an opening request is: the request
    that the client builds, whatever headers the caller adds short of
    [Connection], has what the server's handshake asks of a request, and the
    answer is [101] with the digest of the client's key.  (On its way through
    the bundled parser the request is lost: [Server.own_client_is_refused].) *)
Theorem ws_ends_agree (SHA1 : HashUtil.Digest) (cast_int : str -> option Z) (uri : Uri.URI) (headers : list (str * str)) (nonce : str) :
  cast_int (bs "13") = Some 13 -> nonce <> [] -> has_connection headers = false ->
  exists key rsp, HashUtil.base64encode nonce = Ret key tt
    /\ WebSocket.shake_response SHA1 cast_int (build_ws_request uri headers key) = Some (Http.setWebSocket true (build_ws_request uri headers key), rsp)
    /\ p_status rsp = WebSocket.SWITCHING_PROTOCOLS
    /\ p_getHeader rsp (bs "Sec-WebSocket-Accept") [] = HashUtil.b64 (HashUtil.sha1sum SHA1 (key ++ WebSocket.GUID)).
Proof.
  intros H13 Hn Hc. exists (HashUtil.b64 nonce).
  assert (HashUtil.base64encode nonce = Ret (HashUtil.b64 nonce) tt) as Eb by by apply HashUtil.encode_loop_ok.
  set (req := build_ws_request uri headers (HashUtil.b64 nonce)).
  assert (getHeader req (bs "Sec-WebSocket-Key") [] = HashUtil.b64 nonce) as Hkey by (apply ws_own_header; [done|by rewrite Hc]).
  destruct (WebSocket.shake_accepts SHA1 cast_int req) as (rsp & Hs & Hst & _ & _ & _ & Ha).
  - unfold req. by rewrite (ws_own_header uri headers _ (bs "Upgrade") (bs "websocket")) by (done || by rewrite Hc).
  - unfold req. by rewrite (ws_own_header uri headers _ (bs "Connection") (bs "Upgrade")) by (done || by rewrite Hc).
  - unfold getAs. assert (mfind (bs "Sec-webSocket-Version") (q_headers req) = Some (bs "13")) as ->; [|by rewrite H13].
    pose proof (ws_own_header uri headers (HashUtil.b64 nonce) (bs "Sec-webSocket-Version") (bs "13") [] ltac:(done) ltac:(by rewrite Hc)) as Hv.
    unfold getHeader in Hv. fold req in Hv. by destruct (mfind _ _); [f_equal|].
  - rewrite Hkey. by destruct nonce as [|? [|? [|? ?]]].
  - rewrite Hkey in Ha. by exists rsp.
Qed.

Lemma ws_ends_agree_witness :
  exists key rsp, HashUtil.base64encode (bs "0123456789abcdef") = Ret key tt
    /\ WebSocket.shake_response HashUtil.toy_digest (fun s => Some (Ext.Atoi s)) (build_ws_request c_uri [(bs "Origin", bs "here")] key)
       = Some (Http.setWebSocket true (build_ws_request c_uri [(bs "Origin", bs "here")] key), rsp)
    /\ p_status rsp = 101.
Proof.
  destruct (ws_ends_agree HashUtil.toy_digest (fun s => Some (Ext.Atoi s)) c_uri [(bs "Origin", bs "here")] (bs "0123456789abcdef"))
    as (key & rsp & H1 & H2 & H3 & _); [vm_compute; reflexivity|discriminate|vm_compute; reflexivity|].
  exists key, rsp. split; [exact H1|]. split; [exact H2|exact H3].
Defined.

(** With a [Connection] header of the caller the server refuses. *)
Theorem ws_caller_connection_refused :
  WebSocket.shake_response HashUtil.toy_digest (fun s => Some (Ext.Atoi s))
    (build_ws_request c_uri [(bs "Connection", bs "keep-alive, Upgrade")] (bs "MDEyMzQ1Njc4OWFiY2RlZg==")) = None.
Proof. vm_compute. reflexivity. Qed.

(** ** The pool under concurrent use

    Several fibers use the pool at once.  A [getConnection] in progress holds
    the connections it is going to delete; a connection that was given out is
    held by its user. *)
Record system := MkSystem { s_pool : pool; s_lent : list id; s_doomed : list (list id) }.

Section steps.
Context `{PF : !Platform} (getaddrinfo : str -> option str -> Z -> Z -> Z -> option (list Address.sockaddr)).
Context (m_host : str) (m_port m_maxAliveTime m_maxRequest : Z).
Abbreviation take := (take m_maxAliveTime).
Abbreviation dial := (dial getaddrinfo m_host m_port).
Abbreviation ReleasePtr := (ReleasePtr m_maxAliveTime m_maxRequest).

(** The parts of [getConnection] between which others may run, any use of a
    lent connection, and [ReleasePtr]. *)
Inductive step : system -> system -> Prop :=
| step_take now p invalid ptr p' lent doomed :
    take now p = Ret (invalid, ptr) p' ->
    step (MkSystem p lent doomed) (MkSystem p' (option_list ptr ++ lent) (invalid :: doomed))
| step_drop invalid p p' lent a b :
    drop_invalid invalid p = Ret tt p' -> step (MkSystem p lent (a ++ invalid :: b)) (MkSystem p' lent (a ++ b))
| step_dial p r p' lent doomed :
    dial p = Ret r p' -> step (MkSystem p lent doomed) (MkSystem p' (option_list r ++ lent) doomed)
| step_use i c s p lent doomed :
    i ∈ lent -> heap p !! i = Some c ->
    step (MkSystem p lent doomed)
      (MkSystem (with_heap (<[i := MkConn s (c_addr c) (m_createTime c) (m_request c)]> (heap p)) p) lent doomed)
| step_release now i p p' a b doomed :
    ReleasePtr now i p = Ret tt p' -> step (MkSystem p (a ++ i :: b) doomed) (MkSystem p' (a ++ b) doomed).

Definition start (net : list (option stream)) : system := MkSystem (MkPool [] 0 ∅ 0%N net) [] [].

(** *** The invariant *)
Definition owned (y : system) : list id := m_coons (s_pool y) ++ s_lent y ++ concat (s_doomed y).
(** A connection was used less often than the limit, or never. *)
Definition conn_ok (c : HttpConnection) : Prop := m_createTime c = 0 /\ 0 <= m_request c /\ (m_request c = 0 \/ m_request c < m_maxRequest).
Record ok (p : pool) (l : list id) : Prop := {
  ok_nodup : NoDup l;
  ok_dom i : is_Some (heap p !! i) <-> i ∈ l;
  ok_total : m_total p = u32 (zlen l);
  ok_fresh i : i ∈ l -> (i < next p)%N;
  ok_conn i c : heap p !! i = Some c -> conn_ok c;
}.
#[local] Instance ok_perm p : Proper ((≡ₚ) ==> iff) (ok p).
Proof.
  intros l k Hp. assert (zlen l = zlen k) as Hz by (unfold zlen; by rewrite Hp).
  split; intros []; split; try done; try (intros i; rewrite <- ?Hp || rewrite ?Hp; auto); try (by rewrite <- ?Hp || by rewrite ?Hp); congruence.
Qed.

Lemma scan_ok now h l :
  (forall i, i ∈ l -> is_Some (h !! i)) ->
  exists invalid ptr r, scan m_maxAliveTime now h l = Some (invalid, ptr, r) /\ l = invalid ++ option_list ptr ++ r
    /\ (forall i, i ∈ invalid -> exists c, h !! i = Some c /\ unusable m_maxAliveTime now c = true)
    /\ (forall i, ptr = Some i -> exists c, h !! i = Some c /\ unusable m_maxAliveTime now c = false)
    /\ (ptr = None -> r = []).
Proof.
  induction l as [|i l IH]; intros Hl; cbn [scan].
  - exists [], None, []. split_and!; try done; set_solver.
  - destruct (Hl i ltac:(set_solver)) as [c Hc]. rewrite Hc. cbn [mbind option_bind]. destruct (unusable m_maxAliveTime now c) eqn:E.
    + destruct IH as (inv & ptr & r & -> & -> & Hi & Hp & Hr); [set_solver|]. cbn [mbind option_bind].
      exists (i :: inv), ptr, r. split_and!; try done. intros j [->|Hj]%elem_of_cons; eauto.
    + exists [], (Some i), l. split_and!; try done; [set_solver|]. intros j [= <-]. eauto.
Qed.

Lemma delete_all_ok l h :
  NoDup l -> (forall i, i ∈ l -> is_Some (h !! i)) ->
  exists h', delete_all l h = Some h' /\ forall i, h' !! i = if decide (i ∈ l) then None else h !! i.
Proof.
  revert h. induction l as [|j l IH]; intros h Hn Hl; cbn [delete_all].
  - exists h. split; [done|]. intros i. by rewrite decide_False by set_solver.
  - apply NoDup_cons in Hn as [Hj Hn]. destruct (Hl j ltac:(set_solver)) as [c ->].
    destruct (IH (delete j h) Hn) as (h' & -> & Hh').
    + intros i Hi. rewrite lookup_delete_ne by set_solver. apply Hl. set_solver.
    + exists h'. split; [done|]. intros i. rewrite Hh'. destruct (decide (i = j)) as [->|].
      * rewrite (decide_True (P := j ∈ j :: l)), lookup_delete_eq by set_solver. by case_decide.
      * rewrite lookup_delete_ne by done. repeat case_decide; set_solver.
Qed.

Lemma take_ok now p l :
  ok p (m_coons p ++ l) ->
  exists invalid ptr p', take now p = Ret (invalid, ptr) p' /\ m_coons p = invalid ++ option_list ptr ++ m_coons p' /\ ok p' (m_coons p ++ l).
Proof.
  intros Hok. destruct (scan_ok now (heap p) (m_coons p)) as (inv & ptr & r & E & Hl & _).
  { intros i Hi. apply (ok_dom _ _ Hok). set_solver. }
  unfold HttpClient.take. rewrite E. eexists _, _, _. split; [done|]. cbn [m_coons with_coons]. split; [done|]. by destruct Hok.
Qed.

Lemma drop_ok invalid p l :
  ok p (invalid ++ l) -> exists p', drop_invalid invalid p = Ret tt p' /\ m_coons p' = m_coons p /\ ok p' l.
Proof.
  intros [Hn Hd Ht Hf Hc]. apply NoDup_app in Hn as (Hni & Hdis & Hnl).
  destruct (delete_all_ok invalid (heap p)) as (h & E & Hh); [done|intros; apply Hd; set_solver|].
  unfold drop_invalid. rewrite E. eexists. split; [done|]. split; [done|]. split; cbn [heap m_total next with_total with_heap]; [done|..].
  - intros i. rewrite Hh. case_decide as Hi; [split; [by intros []|]; intros Hl; by destruct (Hdis i)|].
    rewrite Hd. set_solver.
  - rewrite Ht, zlen_app. unfold uw. rewrite Zminus_mod_idemp_l. f_equal. lia.
  - intros i Hi. apply Hf. set_solver.
  - intros i c. rewrite Hh. case_decide; [done|]. apply Hc.
Qed.

Lemma dial_ok p l : ok p l -> exists r p', dial p = Ret r p' /\ m_coons p' = m_coons p /\ ok p' (option_list r ++ l).
Proof.
  intros Hok. unfold HttpClient.dial. destruct (Address.LookupAnyIPAddress _ _ _ _ _) as [addr|]; [|by exists None, p].
  destruct (p_net p) as [|[s|] r]; [by exists None, p| |by eexists None, _; split; [done|]; split; [done|]; destruct Hok].
  eexists (Some _), _. split; [done|]. split; [done|]. destruct Hok as [Hn Hd Ht Hf Hc]. change (option_list (Some (next p)) ++ l) with (next p :: l).
  assert (next p ∉ l) as Hnew by (intros Hi; specialize (Hf _ Hi); lia).
  split; cbn [heap m_total next].
  - by constructor.
  - intros i. destruct (decide (i = next p)) as [->|]; [rewrite lookup_insert_eq; split; [set_solver|by eauto]|].
    rewrite lookup_insert_ne by done. rewrite Hd. set_solver.
  - rewrite Ht, zlen_cons. unfold uw. rewrite Zplus_mod_idemp_l. f_equal. lia.
  - intros i [->|Hi]%elem_of_cons; [lia|]. specialize (Hf _ Hi). lia.
  - intros i c. destruct (decide (i = next p)) as [->|]; [rewrite lookup_insert_eq; intros [= <-]; unfold conn_ok; cbn; lia|].
    rewrite lookup_insert_ne by done. apply Hc.
Qed.

(** Replacing a live connection. *)
Lemma replace_ok i c c' p l : ok p l -> heap p !! i = Some c -> conn_ok c' -> ok (with_heap (<[i := c']> (heap p)) p) l.
Proof.
  intros [Hn Hd Ht Hf Hc] Hi Hc'. split; cbn [heap m_total next with_heap]; try done.
  - intros j. rewrite <- Hd. destruct (decide (i = j)) as [<-|]; [rewrite lookup_insert_eq, Hi; split; eauto|by rewrite lookup_insert_ne].
  - intros j k. destruct (decide (i = j)) as [<-|]; [rewrite lookup_insert_eq; by intros [= <-]|rewrite lookup_insert_ne by done; apply Hc].
Qed.

(** Deleting one. *)
Lemma delete_ok i p l : ok p (i :: l) -> ok (with_total (u32 (m_total p - 1)) (with_heap (delete i (heap p)) p)) l.
Proof.
  intros Hok. destruct (drop_ok [i] p l Hok) as (p' & E & _ & Hok'). unfold drop_invalid in E. cbn [delete_all] in E.
  destruct (heap p !! i); [|done]. by injection E as <-.
Qed.

Lemma release_ok now i p l :
  0 <= m_maxRequest < 2 ^ 32 -> ok p (i :: l) ->
  exists p', ReleasePtr now i p = Ret tt p'
    /\ ((m_coons p' = m_coons p /\ ok p' l) \/ (m_coons p' = m_coons p ++ [i] /\ ok p' (i :: l))).
Proof.
  intros Hm Hok. destruct (proj2 (ok_dom _ _ Hok i) ltac:(set_solver)) as [c Hc].
  destruct (ok_conn _ _ Hok _ _ Hc) as (Ht & H0 & Hr). unfold HttpClient.ReleasePtr. rewrite Hc.
  rewrite (uw_small 64 (m_request c + 1)) by (unfold in_u; lia). cbv zeta. cbn [c_stream m_createTime m_request].
  set (c' := MkConn (c_stream c) (c_addr c) (m_createTime c) (m_request c + 1)).
  (* inserting first and then deleting is deleting *)
  destruct (negb (s_connected (c_stream c)) || _ || _) eqn:E.
  - eexists. split; [done|]. left. split; [done|]. cbn [heap with_heap m_total].
    rewrite delete_insert_eq. by apply (delete_ok i p l).
  - eexists. split; [done|]. right. split; [done|]. apply orb_false_iff in E as [_ E]. apply Z.leb_gt in E.
    assert (ok (with_heap (<[i := c']> (heap p)) p) (i :: l)) as [] by (apply (replace_ok i c); [done|done|]; unfold conn_ok; cbn; lia).
    by split.
Qed.

(** *** Preservation *)
Definition inv (y : system) : Prop := ok (s_pool y) (owned y).

Lemma pool_step_inv y y' : 0 <= m_maxRequest < 2 ^ 32 -> inv y -> step y y' -> inv y'.
Proof.
  intros Hm Hi Hs. unfold inv, owned in *. destruct Hs as [now p invalid ptr p' lent doomed E|invalid p p' lent a b E|p r p' lent doomed E|i c s p lent doomed Hin Hc|now i p p' a b doomed E];
    cbn [s_pool s_lent s_doomed] in *.
  - destruct (take_ok now p (lent ++ concat doomed) Hi) as (inv' & ptr' & p2 & E2 & Hl & Hok). rewrite E in E2. injection E2 as <- <- <-.
    eapply ok_perm; [|exact Hok]. rewrite Hl. cbn [concat]. solve_Permutation.
  - assert (ok p (invalid ++ m_coons p ++ lent ++ concat (a ++ b))) as Hi'.
    { eapply ok_perm; [|exact Hi]. rewrite !concat_app. cbn [concat]. solve_Permutation. }
    destruct (drop_ok invalid p _ Hi') as (p2 & E2 & Hc & Hok). rewrite E in E2. injection E2 as <-. by rewrite Hc.
  - destruct (dial_ok p _ Hi) as (r' & p2 & E2 & Hc & Hok). rewrite E in E2. injection E2 as <- <-. rewrite Hc.
    eapply ok_perm; [|exact Hok]. solve_Permutation.
  - apply (replace_ok i c); [done|done|]. exact (ok_conn _ _ Hi _ _ Hc).
  - assert (ok p (i :: m_coons p ++ (a ++ b) ++ concat doomed)) as Hi'.
    { eapply ok_perm; [|exact Hi]. solve_Permutation. }
    destruct (release_ok now i p _ Hm Hi') as (p2 & E2 & [[Hc Hok]|[Hc Hok]]); rewrite E in E2; injection E2 as <-; rewrite Hc; [done|].
    eapply ok_perm; [|exact Hok]. solve_Permutation.
Qed.

Lemma pool_start_inv net : inv (start net).
Proof. split; cbn; [constructor|intros i; rewrite lookup_empty; split; [by intros []|set_solver]|done|set_solver|done]. Qed.

Lemma reachable_inv net y : 0 <= m_maxRequest < 2 ^ 32 -> rtc step (start net) y -> inv y.
Proof. intros Hm. generalize (pool_start_inv net). intros Hi Hr. induction Hr; eauto using pool_step_inv. Qed.

Lemma live_count p l : ok p l -> zlen l = Z.of_nat (size (heap p)).
Proof.
  intros [Hn Hd _ _ _]. unfold zlen. f_equal. rewrite <- size_dom. rewrite <- (size_list_to_set (C := gset id) l Hn).
  f_equal. apply set_eq. intros i. rewrite elem_of_list_to_set, elem_of_dom. symmetry. apply Hd.
Qed.

(** No operation is undefined. *)
Lemma inv_safe y :
  0 <= m_maxRequest < 2 ^ 32 -> inv y ->
  (forall now, returns (take now (s_pool y)) = true)
  /\ (forall invalid, invalid ∈ s_doomed y -> returns (drop_invalid invalid (s_pool y)) = true)
  /\ (forall now i, i ∈ s_lent y -> returns (ReleasePtr now i (s_pool y)) = true).
Proof.
  intros Hm Hi. unfold inv, owned in Hi. split_and!.
  - intros now. by destruct (take_ok now _ _ Hi) as (? & ? & ? & -> & _).
  - intros invalid (a & b & Hd)%list_elem_of_split.
    destruct (drop_ok invalid (s_pool y) (m_coons (s_pool y) ++ s_lent y ++ concat (a ++ b))) as (p' & -> & _); [|done].
    eapply ok_perm; [|exact Hi]. rewrite Hd, !concat_app. cbn [concat]. solve_Permutation.
  - intros now i (a & b & Hl)%list_elem_of_split.
    destruct (release_ok now i (s_pool y) (m_coons (s_pool y) ++ (a ++ b) ++ concat (s_doomed y)) Hm) as (p' & -> & _); [|done].
    eapply ok_perm; [|exact Hi]. rewrite Hl. solve_Permutation.
Qed.

End steps.

(** C22. The pool keeps its books under any interleaving: in every state that
    fibers can reach by getting, using and releasing connections, the counter
    [m_total] is the number of connections that exist, every connection is
    either in the pool, lent to one user or about to be deleted by one, never
    two of these, a pooled connection was used less often than the limit, and
    no operation follows a dangling pointer or deletes a connection twice. *)
Theorem pool_accounting `{PF : !Platform} (getaddrinfo : str -> option str -> Z -> Z -> Z -> option (list Address.sockaddr))
    (m_host : str) (m_port m_maxAliveTime m_maxRequest : Z) (net : list (option stream)) (y : system) :
  0 <= m_maxRequest < 2 ^ 32 -> rtc (step getaddrinfo m_host m_port m_maxAliveTime m_maxRequest) (start net) y ->
  let p := s_pool y in
  m_total p = u32 (Z.of_nat (size (heap p)))
  /\ NoDup (owned y) /\ (forall i, is_Some (heap p !! i) <-> i ∈ owned y)
  /\ (forall i c, heap p !! i = Some c -> m_request c = 0 \/ m_request c < m_maxRequest)
  /\ (forall now, returns (take m_maxAliveTime now p) = true)
  /\ (forall invalid, invalid ∈ s_doomed y -> returns (drop_invalid invalid p) = true)
  /\ (forall now i, i ∈ s_lent y -> returns (ReleasePtr m_maxAliveTime m_maxRequest now i p) = true).
Proof.
  intros Hm Hr p. apply reachable_inv in Hr as Hi; [|done]. destruct (inv_safe getaddrinfo m_host m_maxAliveTime m_maxRequest y Hm Hi) as (H1 & H2 & H3).
  pose proof Hi as [Hn Hd Ht _ Hc]. split_and!; try done.
  - unfold p. rewrite Ht. by erewrite live_count.
  - intros i c Hic. by destruct (Hc i c Hic) as (_ & _ & ?).
Qed.

Section runs.
Context `{CP : CParser, PF : !Platform} (getaddrinfo : str -> option str -> Z -> Z -> Z -> option (list Address.sockaddr)).
Context (bufferSize errno : Z) (strerror : Z -> str) (m_host : str) (m_port m_maxAliveTime m_maxRequest : Z).
Abbreviation step := (step getaddrinfo m_host m_port m_maxAliveTime m_maxRequest).

(** A getting of a connection is a run of the steps: it leaves the connection
    to its user and nothing to delete. *)
Lemma getConnection_runs now p r p' lent doomed :
  getConnection getaddrinfo m_host m_port m_maxAliveTime now p = Ret r p' ->
  rtc step (MkSystem p lent doomed) (MkSystem p' (option_list r ++ lent) doomed).
Proof.
  unfold getConnection. intros ([invalid ptr] & p1 & E1 & H)%obind_inv. apply obind_inv in H as ([] & p2 & E2 & H). cbn [fst snd] in *.
  eapply rtc_l; [eapply step_take; exact E1|]. eapply rtc_l; [eapply (step_drop _ _ _ _ _ _ _ _ _ [] doomed); exact E2|]. cbn [app].
  destruct ptr as [i|]; [by injection H as <- <-|]. by apply rtc_once, step_dial.
Qed.
(** So is a whole request, after which the user holds nothing. *)
Lemma doRequest_runs request timeout now later p r p' lent doomed :
  doRequest getaddrinfo bufferSize errno strerror m_host m_port m_maxAliveTime m_maxRequest request timeout now later p = Ret r p' ->
  rtc step (MkSystem p lent doomed) (MkSystem p' lent doomed).
Proof.
  unfold doRequest. intros ([i|] & p1 & E1 & H)%obind_inv; apply (getConnection_runs _ _ _ _ lent doomed) in E1; cbn [option_list from_option app] in E1.
  2: { by injection H as <- <-. }
  apply obind_inv in H as (r1 & p2 & E2 & H). apply obind_inv in H as ([] & p3 & E3 & H). injection H as <- <-.
  etrans; [exact E1|]. unfold on_conn in E2. destruct (heap p1 !! i) as [c|] eqn:Ec; [|done].
  destruct (exchange _ _ _ _ _ _) as [x s|? ?| |]; try done. injection E2 as <- <-.
  eapply rtc_l; [apply (step_use _ _ _ _ _ i c s); [set_solver|done]|]. apply rtc_once. by apply (step_release _ _ _ _ _ later i _ _ [] lent).
Qed.
End runs.

(** A request, and then two connections taken: one from the pool, one new. *)
Definition pool_result {X} (o : outcome pool X) : pool := match o with Ret _ p => p | _ => MkPool [] 0 ∅ 0%N [] end.
Definition c_request : HttpRequest := pool_request (bs "localhost") [] GET (target c_uri) [] [].
Definition c_net : list (option stream) := [Some c_peer; None; Some c_peer].
Definition c_after : outcome pool HttpResult :=
  doRequest (CP := ok_parser) (PF := x86_64) c_resolver 4096 0 (fun _ => []) (bs "localhost") 8080 30000 10 c_request 1000 1660000000000 1660000000050 (s_pool (start c_net)).
Definition c_get (p : pool) : outcome pool (option id) := getConnection (PF := x86_64) c_resolver (bs "localhost") 8080 30000 1660000000100 p.
Definition c_system : system :=
  MkSystem (pool_result (c_get (pool_result (c_get (pool_result (c_get (pool_result c_after))))))) [1%N; 0%N] [].

Lemma c_system_reachable : rtc (step (PF := x86_64) c_resolver (bs "localhost") 8080 30000 10) (start c_net) c_system.
Proof.
  etrans; [eapply (doRequest_runs (CP := ok_parser) (PF := x86_64) _ 4096 0 (fun _ => []) _ _ _ _ c_request 1000 1660000000000 1660000000050 _ _ (pool_result c_after)); vm_compute; reflexivity|].
  etrans; [eapply (getConnection_runs (PF := x86_64) _ _ _ _ _ 1660000000100 (pool_result c_after) (Some 0%N)); vm_compute; reflexivity|].
  etrans; [eapply (getConnection_runs (PF := x86_64) _ _ _ _ _ 1660000000100 _ None); vm_compute; reflexivity|].
  eapply (getConnection_runs (PF := x86_64) _ _ _ _ _ 1660000000100 _ (Some 1%N)); vm_compute; reflexivity.
Qed.
Lemma pool_accounting_witness :
  m_total (s_pool c_system) = 2 /\ NoDup (owned c_system) /\ s_lent c_system = [1%N; 0%N].
Proof.
  destruct (pool_accounting (PF := x86_64) c_resolver (bs "localhost") 8080 30000 10 c_net c_system ltac:(lia) c_system_reachable) as (H1 & H2 & _).
  split; [rewrite H1; vm_compute; reflexivity|]. split; [exact H2|reflexivity].
Defined.

(** The age of a connection is never counted: its time of creation stays 0, so
    from the 50th day of the epoch on ([now >= 2^32] milliseconds) a connection
    is taken from the pool however old it is, whatever [m_maxAliveTime]. *)
Theorem connections_do_not_expire (m_maxAliveTime now : Z) (c : HttpConnection) :
  m_createTime c = 0 -> in_u 32 m_maxAliveTime -> 2 ^ 32 <= now -> unusable m_maxAliveTime now c = negb (s_connected (c_stream c)).
Proof.
  intros Ht Ha Hn. unfold unusable, in_u in *. rewrite Ht, uw_small by (unfold in_u; lia). destruct (Z.ltb_spec now (0 + m_maxAliveTime)); [lia|].
  apply orb_false_r.
Qed.

(** A pooled connection that is up is used again and goes back to the end of
    the pool. *)
Theorem pooled_connection_reused `{CP : CParser, LP : !CParserLaws CP, PF : !Platform}
    (getaddrinfo : str -> option str -> Z -> Z -> Z -> option (list Address.sockaddr)) (bufferSize errno : Z) (strerror : Z -> str)
    (m_host : str) (m_port m_maxAliveTime m_maxRequest : Z) (request : HttpRequest) (timeout now later : Z) (i : id) (l : list id) (c : HttpConnection) (p : pool) :
  m_coons p = i :: l -> heap p !! i = Some c -> m_createTime c = 0 -> in_u 32 m_maxAliveTime -> m_maxAliveTime < now -> m_maxAliveTime < later ->
  0 <= m_request c -> m_request c + 1 < m_maxRequest < 2 ^ 32 -> peer_ok (c_stream c) -> 0 < bufferSize < 2 ^ 62 -> zlen (dump request) < 2 ^ 64 ->
  exists r p' c', doRequest getaddrinfo bufferSize errno strerror m_host m_port m_maxAliveTime m_maxRequest request timeout now later p = Ret r p'
    /\ match response r with
       | Some rsp => error r = OK /\ received (incoming (c_stream c)) rsp /\ m_coons p' = l ++ [i] /\ heap p' !! i = Some c'
                     /\ s_out (c_stream c') = s_out (c_stream c) ++ dump request /\ m_request c' = m_request c + 1
       | None => error r = TIMEOUT /\ m_coons p' = l /\ heap p' !! i = None
       end.
Proof.
  intros Hl Hc Ht Ha Hn Hla H0 Hm Hp Hb Hd. pose proof Hp as (Hcon & _ & _). unfold in_u in Ha. unfold doRequest, getConnection, HttpClient.take.
  rewrite Hl. cbn [scan]. rewrite Hc. cbn [mbind option_bind]. unfold unusable at 1. rewrite Hcon, Ht, uw_small by (unfold in_u; lia).
  destruct (Z.ltb_spec now (0 + m_maxAliveTime)); [lia|]. cbn [negb orb obind fst snd drop_invalid delete_all heap with_coons with_heap m_total with_total].
  unfold on_conn. cbn [heap with_coons with_heap m_total with_total]. rewrite Hc.
  match goal with |- context [exchange _ _ ?a ?b ?t _] => destruct (exchange_ok bufferSize request a b t (c_stream c) Hp Hb Hd) as (r & s & -> & Ho & Hr) end.
  cbn [obind]. unfold ReleasePtr. cbn [heap with_coons with_heap m_total with_total]. rewrite lookup_insert_eq. cbn [c_stream m_createTime m_request c_addr].
  rewrite Ht, !uw_small by (unfold in_u; lia). destruct (Z.leb_spec later (0 + m_maxAliveTime)); [lia|]. destruct (Z.leb_spec m_maxRequest (m_request c + 1)); [lia|].
  destruct (response r) as [rsp|] eqn:Er.
  - destruct Hr as (He & -> & Hrec). cbn [negb orb obind]. eexists _, _, _. split; [done|]. rewrite Er. cbn [heap with_coons with_heap].
    split_and!; [done|done|done|by rewrite lookup_insert_eq|done|done].
  - destruct Hr as (He & ->). cbn [negb orb obind]. eexists _, _, c. split; [done|]. rewrite Er. split_and!; try done. cbn [heap with_coons with_heap with_total]. by rewrite lookup_delete_eq.
Qed.

End HttpClient.
