(* ===== verification/Server.v ===== *)
(** * Serving a connection: [luwu/luwu/http/http_server.cpp] and [ws_server.cpp]

    The world holds the stream of every connection and the state of the
    application behind the servlets.  A session is the number of its
    connection. *)
From S2P Require Import Prelude StdString StdMap HashUtil Ext Uri Http Stream WebSocket Servlet HttpParser HttpMachineSafety HttpClient.
Import Http Stream WebSocket Servlet HttpParser.
Local Open Scope Z_scope.

Module Server.

Abbreviation conn := N.

Record world (A : Type) := MkWorld { w_streams : gmap conn stream; w_app : A }.
Arguments MkWorld {A} _ _.
Arguments w_streams {A} _.
Arguments w_app {A} _.

Section world.
Context {A : Type}.

(** An operation on the stream of a session; without a stream the session
    pointer would dangle. *)
Definition on_stream {X} (c : conn) (m : M stream X) : M (world A) X := fun w =>
  match w_streams w !! c with
  | None => UB
  | Some s =>
      match m s with
      | Ret x s' => Ret x (MkWorld (<[c := s']> (w_streams w)) (w_app w))
      | Throw e s' => Throw e (MkWorld (<[c := s']> (w_streams w)) (w_app w))
      | UB => UB
      | NoFuel => NoFuel
      end
  end.

Definition session_close (c : conn) : M (world A) unit := on_stream c (fun s => Ret tt (close s)).

Section http_server.
Context `{CP : CParser} (fnmatch : str -> str -> bool) (bufferSize : Z).

(** [HttpServer]: the fields that serving uses. *)
Record HttpServer := MkHttpServer { m_keepalive : bool; m_name : str; m_dispatch : @dispatch (world A) conn }.

(** One round of the loop of [handleClient]: whether it goes on. *)
Definition serve_one (srv : HttpServer) (c : conn) : M (world A) bool := fun w =>
  let* req, w := on_stream c (recvRequest bufferSize) w in
  match req with
  | None => Ret false w
  | Some req =>
      let rsp := new_response (q_version req) (q_close req || negb (m_keepalive srv)) in
      let rsp := p_setHeader (bs "Server") (m_name srv) rsp in
      let* r, w := dispatch_handle fnmatch (m_dispatch srv) req rsp c w in
      let '(_, (req, rsp)) := r in
      let* _, w := on_stream c (sendResponse rsp) w in
      Ret (negb (negb (m_keepalive srv) || q_close req)) w
  end.

Fixpoint serve_loop (fuel : nat) (srv : HttpServer) (c : conn) : M (world A) unit := fun w =>
  match fuel with
  | O => NoFuel
  | S fuel =>
      let* more, w := serve_one srv c w in
      if more then serve_loop fuel srv c w else Ret tt w
  end.

(** [HttpServer::handleClient]. *)
Definition handleClient (fuel : nat) (srv : HttpServer) (c : conn) : M (world A) unit := fun w =>
  let* _, w := serve_loop fuel srv c w in session_close c w.

(** [HttpServer::setName]: the page of the default servlet is made from the
    argument after it was moved from, when its value is unspecified. *)
Definition setName (name moved : str) (srv : HttpServer) : HttpServer :=
  MkHttpServer (m_keepalive srv) name (setDefault (Some (ServletNotFound moved)) (m_dispatch srv)).
End http_server.

Section ws_server.
Context `{CP : CParser, PF : !Platform} (fnmatch : str -> str -> bool) (bufferSize max_size : Z).
Context (SHA1 : HashUtil.Digest) (cast_int : str -> option Z).

(** [WSSession::handleShake]; [None] is the null pointer. *)
Definition handleShake (c : conn) : M (world A) (option HttpRequest) := fun w =>
  let* req, w := on_stream c (recvRequest bufferSize) w in
  match req with
  | None => Ret None w
  | Some req =>
      match shake_response SHA1 cast_int req with
      | None => Ret None w
      | Some (req, rsp) => let* _, w := on_stream c (sendResponse rsp) w in Ret (Some req) w
      end
  end.

(** The message loop of [WSServer::handleClient]. *)
Fixpoint message_loop (fuel : nat) (servlet : @WSServlet (world A) conn) (header : HttpRequest) (c : conn)
    : M (world A) HttpRequest := fun w =>
  match fuel with
  | O => NoFuel
  | S fuel' =>
      let* msg, w := on_stream c (recvMessage fuel max_size) w in
      match msg with
      | None => Ret header w
      | Some msg =>
          let* r, w := ws_handle servlet header msg c w in
          let '(rt, header) := r in
          if rt =? 0 then message_loop fuel' servlet header c w else Ret header w
      end
  end.

Definition ws_session (fuel : nat) (d : @dispatch (world A) conn) (c : conn) : M (world A) unit := fun w =>
  let* header, w := handleShake c w in
  match header with
  | None => Ret tt w
  | Some header =>
      match getWSServlet fnmatch d (q_path header) with
      | None => Ret tt w
      | Some servlet =>
          let* r, w := onConnect servlet header c w in
          let '(rt, header) := r in
          if negb (rt =? 0) then Ret tt w else
          let* header, w := message_loop fuel servlet header c w in
          let* _, w := onClose servlet header c w in Ret tt w
      end
  end.

(** [WSServer::handleClient]. *)
Definition ws_handleClient (fuel : nat) (d : @dispatch (world A) conn) (c : conn) : M (world A) unit := fun w =>
  let* _, w := ws_session fuel d c w in session_close c w.
End ws_server.
End world.

(** ** Requests in, responses out *)
Section http_proofs.
Context {A : Type} `{CP : CParser} (fnmatch : str -> str -> bool) (bufferSize : Z).

(** The requests that are received one after the other from an input, until
    [recvRequest] answers null. *)
Inductive delivers : list chunk -> list HttpRequest -> Prop :=
| delivers_end inp inp' :
    (forall wr out, recvRequest bufferSize (MkStream inp wr out true) = Ret None (MkStream inp' wr out false)) ->
    delivers inp []
| delivers_next inp q inp' qs :
    (forall wr out, recvRequest bufferSize (MkStream inp wr out true) = Ret (Some q) (MkStream inp' wr out true)) ->
    delivers inp' qs -> delivers inp (q :: qs).

(** A dispatch whose servlets compute their answer from the application
    state and leave the connections alone. *)
Context (srv : @HttpServer A) (c : conn).
Context (answer : HttpRequest -> HttpResponse -> A -> Z * (HttpRequest * HttpResponse) * A).
Definition pure_dispatch : Prop := forall req rsp w,
  dispatch_handle fnmatch (m_dispatch srv) req rsp c w
    = Ret (fst (answer req rsp (w_app w))) (MkWorld (w_streams w) (snd (answer req rsp (w_app w)))).

(** The specification: the responses in order, up to and including that to
    the first request that closes, and the final application state. *)
Definition first_response (req : HttpRequest) : HttpResponse :=
  p_setHeader (bs "Server") (m_name srv) (new_response (q_version req) (q_close req || negb (m_keepalive srv))).
Fixpoint responses (qs : list HttpRequest) (a : A) : list HttpResponse * A :=
  match qs with
  | [] => ([], a)
  | q :: qs =>
      let '((_, (q', rsp)), a) := answer q (first_response q) a in
      if negb (m_keepalive srv) || q_close q' then ([rsp], a)
      else let '(l, a) := responses qs a in (rsp :: l, a)
  end.

Lemma on_stream_ret {X} (m : M stream X) (w : world A) s x s' :
  w_streams w !! c = Some s -> m s = Ret x s' ->
  on_stream c m w = Ret x (MkWorld (<[c := s']> (w_streams w)) (w_app w)).
Proof. intros H1 H2. unfold on_stream. by rewrite H1, H2. Qed.

Definition small (rsp : HttpResponse) : Prop := zlen (p_dump rsp) < 2 ^ 64.

Lemma small_forallb l : forallb (fun rsp => zlen (p_dump rsp) <? 2 ^ 64) l = true -> Forall small l.
Proof. intros H. apply Forall_forall. intros rsp Hr%list_elem_of_In. rewrite forallb_forall in H. apply H in Hr. unfold small. lia. Qed.

Lemma serve_loop_ok qs fuel inp wr out (m : gmap conn stream) a :
  pure_dispatch -> delivers inp qs -> m !! c = Some (MkStream inp wr out true) -> Forall is_accept wr ->
  Forall small (fst (responses qs a)) -> (length qs < fuel)%nat ->
  exists s', serve_loop fnmatch bufferSize fuel srv c (MkWorld m a)
      = Ret tt (MkWorld (<[c := s']> m) (snd (responses qs a)))
    /\ s_out s' = out ++ concat (map p_dump (fst (responses qs a))).
Proof.
  intros Hpure Hd. revert fuel wr out m a. induction Hd as [inp inp' Hr|inp q inp' qs Hr Hd IH];
    intros fuel wr out m a Hm Hwr Hsmall Hf; (destruct fuel as [|fuel]; [simpl in Hf; lia|]); cbn [serve_loop]; unfold serve_one.
  - rewrite (on_stream_ret _ (MkWorld m a) _ _ _ Hm (Hr wr out)). cbn [obind]. simpl. exists (MkStream inp' wr out false).
    by rewrite app_nil_r.
  - rewrite (on_stream_ret _ (MkWorld m a) _ _ _ Hm (Hr wr out)). cbn [obind w_streams w_app].
    fold (first_response q). rewrite Hpure. cbn [obind w_streams w_app responses] in *.
    destruct (answer q (first_response q) a) as [[rt [q' rsp]] a'] eqn:Ea. cbn [fst snd] in *.
    assert (small rsp /\ Forall small (if negb (m_keepalive srv) || q_close q' then [] else fst (responses qs a'))) as [Hs1 Hs2].
    { destruct (_ || _); [|destruct (responses qs a')]; by apply Forall_cons in Hsmall. }
    destruct (writeFixSize_sends (p_dump rsp) inp' wr out Hwr Hs1) as (wr' & Hw & Hwr').
    rewrite (on_stream_ret (sendResponse rsp) (MkWorld (<[c := MkStream inp' wr out true]> m) a') _ _ _ (lookup_insert_eq _ _ _) Hw).
    cbn [obind w_streams w_app]. rewrite insert_insert_eq. destruct (negb (m_keepalive srv) || q_close q') eqn:Ek; cbn [negb].
    + eexists. split; [done|]. simpl. by rewrite app_nil_r.
    + destruct (IH fuel wr' (out ++ p_dump rsp) (<[c := MkStream inp' wr' (out ++ p_dump rsp) true]> m) a')
        as (s' & -> & Ho); [apply lookup_insert_eq|done|done|simpl in Hf; lia|].
      exists s'. rewrite insert_insert_eq. destruct (responses qs a') as [l a'']. simpl in *. by rewrite Ho, <- app_assoc.
Qed.
End http_proofs.

(** ** The life of a WebSocket session *)

(** What a servlet sees of a session. *)
Inductive lifecycle := Connected (c : conn) (rt : Z) | Handled (c : conn) (msg : WSFrameMessage) (rt : Z) | Closed (c : conn).

(** A servlet that also records its calls. *)
Section recording.
Context {A : Type}.

(** Run [m] on the application's part of a recorded world and note [ev]. *)
Definition record {X} (ev : X -> lifecycle) (m : M (world A) X) : M (world (A * list lifecycle)) X := fun w =>
  match m (MkWorld (w_streams w) (fst (w_app w))) with
  | Ret x w' => Ret x (MkWorld (w_streams w') (w_app w', snd (w_app w) ++ [ev x]))
  | Throw e w' => Throw e (MkWorld (w_streams w') (w_app w', snd (w_app w)))
  | UB => UB
  | NoFuel => NoFuel
  end.
Definition recorded (sl : @WSServlet (world A) conn) : @WSServlet (world (A * list lifecycle)) conn := {|
  onConnect header c := record (fun r => Connected c (fst r)) (onConnect sl header c);
  onClose header c := record (fun _ => Closed c) (onClose sl header c);
  ws_handle header msg c := record (fun r => Handled c msg (fst r)) (ws_handle sl header msg c);
|}.

(** The world without the record. *)
Definition plain (w : world (A * list lifecycle)) : world A := MkWorld (w_streams w) (fst (w_app w)).
Definition log (w : world (A * list lifecycle)) : list lifecycle := snd (w_app w).

Lemma record_ret {X} ev (m : M (world A) X) w x w' :
  m (plain w) = Ret x w' -> record ev m w = Ret x (MkWorld (w_streams w') (w_app w', log w ++ [ev x])).
Proof. unfold record, plain, log. by intros ->. Qed.

(** A servlet that plays its part on connection [c], in the states that
    satisfy [I]: its functions return, and leave the connection usable and what
    the peer has sent unread; [onClose] also returns behind a closed
    connection. *)
Record Behaved (I : world A -> Prop) (sl : @WSServlet (world A) conn) (c : conn) : Prop := {
  bh_connect header w s : I w -> w_streams w !! c = Some s -> healthy s ->
    exists r w' s', onConnect sl header c w = Ret r w' /\ I w' /\ w_streams w' !! c = Some s' /\ healthy s' /\ incoming s' = incoming s;
  bh_handle header msg w s : I w -> w_streams w !! c = Some s -> healthy s ->
    exists r w' s', ws_handle sl header msg c w = Ret r w' /\ I w' /\ w_streams w' !! c = Some s' /\ healthy s' /\ incoming s' = incoming s;
  bh_close header w s s' : I w -> w_streams w !! c = Some s -> s' = s \/ s' = close s ->
    exists r w2 s2, onClose sl header c (MkWorld (<[c := s']> (w_streams w)) (w_app w)) = Ret r w2 /\ w_streams w2 !! c = Some s2;
  bh_received w s : I w -> healthy s -> I (MkWorld (<[c := s]> (w_streams w)) (w_app w));
}.
End recording.

(** ** What a client sends

    A message is its opcode and its parts, each with the mask of its frame. *)
Section ws_proofs.
Context {A : Type} `{CP : CParser, PF : !Platform} (fnmatch : str -> str -> bool) (bufferSize max_size : Z).
Context (SHA1 : HashUtil.Digest) (cast_int : str -> option Z).

Abbreviation message := (Z * list (option str * str))%type.
Definition wire (ms : list message) : str := concat (map (fun m => frames (fst m) (snd m)) ms).
Definition message_of (m : message) : WSFrameMessage := MkMessage (fst m) (whole (snd m)).
Definition frame_count (ms : list message) : nat := list_sum (map (fun m => length (snd m)) ms).
(** A text or binary message in one or more masked frames, below the limit. *)
Definition good_message (m : message) : Prop :=
  (fst m = TEXT_FRAME \/ fst m = BIN_FRAME) /\ snd m <> [] /\ Forall (good_part false) (snd m) /\ zlen (whole (snd m)) < max_size.

(** The messages that are handled: in order, all of them or up to the first
    that is answered other than 0. *)
Inductive handled (c : conn) : list WSFrameMessage -> list lifecycle -> Prop :=
| handled_end : handled c [] []
| handled_last m ms rt : rt <> 0 -> handled c (m :: ms) [Handled c m rt]
| handled_more m ms l : handled c ms l -> handled c (m :: ms) (Handled c m 0 :: l).

Lemma recvMessage_next m ms fuel s :
  good_message m -> max_size <= 2 ^ 31 -> (length (snd m) <= fuel)%nat -> healthy s -> incoming s = wire (m :: ms) ->
  exists s', recvMessage fuel max_size s = Ret (Some (message_of m)) s' /\ healthy s' /\ incoming s' = wire ms.
Proof.
  intros (Hop & Hne & Hg & Hz) Hmax Hf Hh Hi. unfold recvMessage, WSRecvMessage. destruct m as [op parts]. cbn [fst snd] in *.
  change 0 with (zlen (@nil byte)) at 2.
  destruct (recv_frames_ok false max_size 0 op [] parts (wire ms) fuel s) as (s' & E & [G1 G2 _ _]); try done.
  - unfold is_data_opcode. tauto.
  - right. unfold TEXT_FRAME, BIN_FRAME in Hop. lia.
  - exists s'. by rewrite E.
Qed.

Lemma recvMessage_end fuel s : healthy s -> incoming s = [] -> recvMessage (S fuel) max_size s = Ret None (close s).
Proof.
  intros [Hin _ Hc] Hi. assert (s_in s = []) as Hs.
  { unfold incoming in Hi. destruct (s_in s) as [|[d| |] l]; [done|..]; apply Forall_cons in Hin as [Hd _]; [|done..].
    cbn in Hd, Hi. by destruct d. }
  unfold recvMessage, WSRecvMessage. cbn [recv_loop]. unfold recv_round, readFixSize. rewrite Hs. cbn [length Nat.add readFix_loop Z.eqb].
  unfold read. rewrite Hc, Hs. done.
Qed.

(** The handshake does not touch the application. *)
Lemma on_stream_app {B X} c (m : M stream X) (w : world B) x w' : on_stream c m w = Ret x w' -> w_app w' = w_app w.
Proof. unfold on_stream. destruct (w_streams w !! c); [|done]. destruct (m s); try done. by intros [= <- <-]. Qed.
Lemma handleShake_app {B} c (w : world B) header w' : handleShake bufferSize SHA1 cast_int c w = Ret header w' -> w_app w' = w_app w.
Proof.
  intros (req & w2 & H2%on_stream_app & H)%obind_inv. destruct req as [req|]; [|by injection H as <- <-].
  destruct (shake_response _ _ req) as [[req' rsp]|]; [|by injection H as <- <-].
  apply obind_inv in H as (x & w3 & H3%on_stream_app & H). injection H as <- <-. congruence.
Qed.

(** The message loop and [onClose] behind it. *)
Lemma message_loop_ok (I : world A -> Prop) sl c ms fuel header w s :
  Behaved I sl c -> Forall good_message ms -> max_size <= 2 ^ 31 -> (frame_count ms < fuel)%nat ->
  I (plain w) -> w_streams w !! c = Some s -> healthy s -> incoming s = wire ms ->
  exists header' w1 w2 s2 hs, message_loop max_size fuel (recorded sl) header c w = Ret header' w1
    /\ (exists r, onClose (recorded sl) header' c w1 = Ret r w2) /\ w_streams w2 !! c = Some s2
    /\ handled c (map message_of ms) hs /\ log w2 = log w ++ hs ++ [Closed c].
Proof.
  intros HB Hg Hmax. revert fuel header w s. induction Hg as [|m ms Hm Hg IH]; intros fuel header w s Hf HI Hs Hh Hi;
    (destruct fuel as [|fuel]; [cbn in Hf; lia|]); cbn [message_loop]; unfold on_stream; rewrite Hs.
  - rewrite recvMessage_end by done. cbn [obind].
    destruct (bh_close _ _ _ HB header (plain w) s (close s) HI Hs ltac:(by right)) as (r & w2 & s2 & E & Hs2).
    eexists header, _, _, s2, []. split; [done|]. split; [eexists; apply record_ret; exact E|]. split; [done|]. split; [constructor|done].
  - assert (0 < length (snd m))%nat by (destruct Hm as (_ & Hne & _); destruct (snd m); [done|simpl; lia]).
    unfold frame_count in Hf. cbn [map list_sum foldr] in Hf.
    destruct (recvMessage_next m ms (S fuel) s Hm Hmax) as (s1 & -> & Hh1 & Hi1); [unfold list_sum in Hf; lia|done|done|]. cbn [obind].
    set (w1 := MkWorld (<[c := s1]> (w_streams w)) (w_app w)).
    assert (w_streams w1 !! c = Some s1) as Hs1 by apply lookup_insert_eq.
    destruct (bh_handle _ _ _ HB header (message_of m) (plain w1) s1) as ([rt header'] & w2 & s2 & E & HI2 & Hs2 & Hh2 & Hi2);
      [by apply (bh_received _ _ _ HB (plain w) s1)|done|done|].
    pose proof (record_ret (fun r => Handled c (message_of m) (fst r)) _ w1 _ _ E) as Er.
    change (record _ _) with (ws_handle (recorded sl) header (message_of m) c) in Er. rewrite Er. cbn [obind fst].
    destruct (Z.eqb_spec rt 0) as [->|Hrt].
    + destruct (IH fuel header' (MkWorld (w_streams w2) (w_app w2, log w1 ++ [Handled c (message_of m) 0])) s2)
        as (h3 & w3 & w4 & s4 & hs & E3 & E4 & Hs4 & Hhs & Hl); [unfold frame_count, list_sum in *; lia|by destruct w2|done|done|by rewrite Hi2|].
      exists h3, w3, w4, s4, (Handled c (message_of m) 0 :: hs). split; [exact E3|]. split; [done|]. split; [done|].
      split; [by constructor|]. rewrite Hl. unfold log. cbn. by rewrite <- app_assoc.
    + set (w3 := MkWorld (w_streams w2) (w_app w2, log w1 ++ [Handled c (message_of m) rt])).
      destruct (bh_close _ _ _ HB header' w2 s2 s2 HI2 Hs2 ltac:(by left)) as (r & w4 & s4 & E4 & Hs4).
      rewrite insert_id in E4 by done. assert (plain w3 = MkWorld (w_streams w2) (w_app w2)) as Hp by done. rewrite <- Hp in E4.
      eexists header', w3, _, s4, [Handled c (message_of m) rt]. split; [done|]. split; [eexists; apply record_ret; exact E4|].
      split; [done|]. split; [by constructor|]. unfold log. cbn. by rewrite <- app_assoc.
Qed.
End ws_proofs.

(** ** Properties *)

(** C10. [HttpServer::handleClient] answers every request in order: if the
    connection delivers the requests [qs], the bytes sent are the serialised
    responses to them, one for each, up to and including the response to the
    first request that closes (or to the first one at all without
    keep-alive); each response starts from the version of its request and
    carries the server's name; then the connection is closed. *)
Theorem http_server_answers_in_order {A : Type} `{CP : CParser} (fnmatch : str -> str -> bool) (bufferSize : Z)
    (srv : @HttpServer A) (c : conn) (answer : HttpRequest -> HttpResponse -> A -> Z * (HttpRequest * HttpResponse) * A)
    (qs : list HttpRequest) (fuel : nat) (inp : list chunk) (wr : list accept) (out : str) (m : gmap conn stream) (a : A) :
  pure_dispatch fnmatch srv c answer -> delivers bufferSize inp qs -> m !! c = Some (MkStream inp wr out true) ->
  Forall is_accept wr -> Forall small (fst (responses srv answer qs a)) -> (length qs < fuel)%nat ->
  exists s', handleClient fnmatch bufferSize fuel srv c (MkWorld m a)
      = Ret tt (MkWorld (<[c := s']> m) (snd (responses srv answer qs a)))
    /\ s_out s' = out ++ concat (map p_dump (fst (responses srv answer qs a))) /\ s_connected s' = false.
Proof.
  intros Hp Hd Hm Hwr Hs Hf.
  destruct (serve_loop_ok fnmatch bufferSize srv c answer qs fuel inp wr out m a Hp Hd Hm Hwr Hs Hf) as (s' & E & Ho).
  unfold handleClient. rewrite E. cbn [obind]. unfold session_close, on_stream. cbn [w_streams w_app].
  rewrite lookup_insert_eq. exists (close s'). by rewrite insert_insert_eq.
Qed.

Definition c31_callback : @callback (world nat) conn := fun req rsp _ w =>
  Ret (0, (setClose false req, p_setBody (q_path req) rsp)) (MkWorld (w_streams w) (S (w_app w))).
Definition c31_server : @HttpServer nat :=
  MkHttpServer true (bs "luwu") (setDefault (Some (FunctionServlet c31_callback)) ServletDispatch).
Definition c31_input : list chunk := [Data (bs "/a"); Data ([z2b 10]); Data (bs "/b" ++ [z2b 10])].
Definition c31_requests : list HttpRequest :=
  [setPath (bs "/a") (new_request 0x11 true); setPath (bs "/b") (new_request 0x11 true)].

Lemma http_server_answers_in_order_witness :
  exists s', handleClient (CP := line_parser) (fun _ _ => false) 64 3 c31_server 7%N
      (MkWorld (<[7%N := MkStream c31_input [Accept 5] [] true]> ∅) 0%nat) = Ret tt (MkWorld (<[7%N := s']> (<[7%N := MkStream c31_input [Accept 5] [] true]> ∅)) 2%nat)
    /\ s_connected s' = false /\ 0 < zlen (s_out s').
Proof.
  destruct (http_server_answers_in_order (CP := line_parser) (fun _ _ => false) 64 c31_server 7%N
    (fun req rsp a => ((0, (setClose false req, p_setBody (q_path req) rsp)), S a)) c31_requests 3
    c31_input [Accept 5] [] (<[7%N := MkStream c31_input [Accept 5] [] true]> ∅) 0%nat) as (s' & E & Ho & Hc).
  - intros req rsp w. reflexivity.
  - eapply (delivers_next (CP := line_parser)); [intros; vm_compute; reflexivity|].
    eapply (delivers_next (CP := line_parser)); [intros; vm_compute; reflexivity|].
    eapply (delivers_end (CP := line_parser)). intros; vm_compute; reflexivity.
  - reflexivity.
  - repeat constructor; lia.
  - apply small_forallb. vm_compute. reflexivity.
  - simpl. lia.
  - exists s'. split; [rewrite E; reflexivity|]. split; [exact Hc|]. rewrite Ho. vm_compute. reflexivity.
Defined.

(** C9. A WebSocket session from its handshake to its end.  When
    [handleShake] has accepted the client, and the client then sends any text
    or binary messages below the size limit, each in one or more masked frames
    that are not empty, cut by the network in any way but without an error of
    it, and disconnects, [WSServer::handleClient] returns: the servlet that the
    dispatch names for the path has seen [onConnect] and nothing else if that
    refused with a result other than 0, and otherwise [onConnect], the
    messages as they were sent, in order and all of them or up to the first
    that it answered other than 0, and exactly one [onClose]; and the
    connection is closed.  The servlet's functions are assumed to return and to
    leave the reading to the server. *)
Theorem ws_session_protocol {A : Type} `{CP : CParser, PF : !Platform} (fnmatch : str -> str -> bool) (bufferSize max_size : Z)
    (SHA1 : HashUtil.Digest) (cast_int : str -> option Z) (I : world A -> Prop) (d : @dispatch (world (A * list lifecycle)) conn)
    (sl : @WSServlet (world A) conn) (c : conn) (ms : list (Z * list (option str * str))) (fuel : nat)
    (w w1 : world (A * list lifecycle)) (header : HttpRequest) (s : stream) :
  handleShake bufferSize SHA1 cast_int c w = Ret (Some header) w1 ->
  getWSServlet fnmatch d (q_path header) = Some (recorded sl) -> Behaved I sl c -> I (plain w1) ->
  w_streams w1 !! c = Some s -> healthy s -> incoming s = wire ms ->
  Forall (good_message max_size) ms -> max_size <= 2 ^ 31 -> (frame_count ms < fuel)%nat ->
  exists w' l, ws_handleClient fnmatch bufferSize max_size SHA1 cast_int fuel d c w = Ret tt w' /\ log w' = log w ++ l
  /\ ((exists rt, rt <> 0 /\ l = [Connected c rt])
      \/ exists hs, handled c (map message_of ms) hs /\ l = Connected c 0 :: hs ++ [Closed c])
  /\ exists s', w_streams w' !! c = Some s' /\ s_connected s' = false.
Proof.
  intros Hsh Hsl HB HI Hs Hh Hi Hg Hmax Hf.
  assert (log w = log w1) as -> by (unfold log; by rewrite (handleShake_app bufferSize SHA1 cast_int c w _ w1 Hsh)).
  unfold ws_handleClient, ws_session. rewrite Hsh. cbn [obind]. rewrite Hsl.
  destruct (bh_connect _ _ _ HB header (plain w1) s HI Hs Hh) as ([rt h2] & w2 & s2 & E2 & HI2 & Hs2 & Hh2 & Hi2).
  pose proof (record_ret (fun r => Connected c (fst r)) _ w1 _ _ E2) as Er.
  change (record _ _) with (onConnect (recorded sl) header c) in Er. rewrite Er. cbn [obind fst].
  set (w3 := MkWorld (w_streams w2) (w_app w2, log w1 ++ [Connected c rt])).
  assert (forall (w : world (A * list lifecycle)) s, w_streams w !! c = Some s ->
    session_close c w = Ret tt (MkWorld (<[c := close s]> (w_streams w)) (w_app w))) as Hclose.
  { intros w0 s0 H0. unfold session_close, on_stream. by rewrite H0. }
  destruct (Z.eqb_spec rt 0) as [->|Hrt]; cbn [negb].
  - destruct (message_loop_ok max_size I sl c ms fuel h2 w3 s2) as (h4 & w4 & w5 & s5 & hs & E4 & [r E5] & Hs5 & Hhs & Hl);
      try done; [by destruct w2|by rewrite Hi2|].
    rewrite E4. cbn [obind]. rewrite E5. cbn [obind]. rewrite (Hclose w5 s5 Hs5). eexists _, (Connected c 0 :: hs ++ [Closed c]).
    split; [done|]. split; [change (log w5 = log w1 ++ Connected c 0 :: hs ++ [Closed c]); rewrite Hl; unfold log, w3; cbn; by rewrite <- app_assoc|].
    split; [right; eauto|]. exists (close s5). cbn. by rewrite lookup_insert_eq.
  - cbn [obind]. rewrite (Hclose w3 s2 Hs2). eexists _, [Connected c rt]. split; [done|]. split; [done|].
    split; [left; eauto|]. exists (close s2). cbn. by rewrite lookup_insert_eq.
Qed.

(** The bundled parser lets an opening pass when the network cuts the name of a
    header, here [X-Connection], in front of what the server looks for. *)
Definition c32_opening : list chunk :=
  [Data (bs "GET /chat HTTP/1.1" ++ CRLF ++ bs "Upgrade: websocket" ++ CRLF ++ bs "Sec-WebSocket-Version: 13" ++ CRLF
     ++ bs "Sec-WebSocket-Key: x3JJHMbDL1EzLkh9GBhXDw==" ++ CRLF ++ bs "X-"); Data (bs "Connection: Upgrade" ++ CRLF ++ CRLF)].
Definition c32_servlet : @WSServlet (world nat) conn := {|
  onConnect header _ := mret (0, header);
  onClose header _ := mret (0, header);
  ws_handle header msg _ w := Ret (if bool_decide (WebSocket.m_data msg = bs "bye") then 1 else 0, header) (MkWorld (w_streams w) (S (w_app w)));
|}.
Definition c32_messages : list (Z * list (option str * str)) :=
  [(TEXT_FRAME, [(Some (bs "mask"), bs "hel"); (Some (bs "key0"), bs "lo")]); (TEXT_FRAME, [(Some (bs "key1"), bs "bye")]);
   (BIN_FRAME, [(Some (bs "key2"), bs "unread")])].
Definition c32_world : world (nat * list lifecycle) :=
  MkWorld (<[4%N := MkStream (c32_opening ++ [Data (wire c32_messages)]) [] [] true]> ∅) (0%nat, []).
Definition c32_dispatch : @dispatch (world (nat * list lifecycle)) conn :=
  replay [AddServlet (bs "/chat") (Some (WS (bs "/chat") (recorded c32_servlet)))].
Definition c32_shaken : outcome (world (nat * list lifecycle)) (option HttpRequest) :=
  handleShake (CP := HttpMachineSafety.c_parser) 4096 HashUtil.toy_digest (fun s => Some (Ext.Atoi s)) 4%N c32_world.
Definition c32_header : HttpRequest := match c32_shaken with Ret (Some h) _ => h | _ => new_request 0 true end.
Definition c32_open : world (nat * list lifecycle) := match c32_shaken with Ret _ w => w | _ => c32_world end.

Lemma c32_behaved : Behaved (fun _ => True) c32_servlet 4%N.
Proof.
  split; intros; try done.
  - by eexists _, _, s.
  - by eexists _, _, s.
  - eexists _, _, s'. split; [done|]. cbn. by rewrite lookup_insert_eq.
Qed.

Lemma c32_good : Forall (good_message 1000) c32_messages.
Proof.
  assert (forall (k d : str), zlen k = 4 -> d <> [] -> good_part false (Some k, d)) as Hp.
  { intros k d Hk Hd. split; [right; eauto|]. split; [by intros k' [= <-]|done]. }
  repeat (apply Forall_cons; split); [..|constructor];
    (split; [auto|split; [done|split; [repeat (apply Forall_cons; split; [by apply Hp|]); constructor|done]]]).
Qed.

Lemma ws_session_protocol_witness :
  exists w' l, ws_handleClient (CP := HttpMachineSafety.c_parser) (PF := x86_64) (fun _ _ => false) 4096 1000 HashUtil.toy_digest
      (fun s => Some (Ext.Atoi s)) 5 c32_dispatch 4%N c32_world = Ret tt w' /\ log w' = l
    /\ ((exists rt, rt <> 0 /\ l = [Connected 4%N rt])
        \/ exists hs, handled 4%N (map message_of c32_messages) hs /\ l = Connected 4%N 0 :: hs ++ [Closed 4%N])
    /\ exists s', w_streams w' !! 4%N = Some s' /\ s_connected s' = false.
Proof.
  apply (ws_session_protocol (CP := HttpMachineSafety.c_parser) (PF := x86_64) (fun _ _ => false) 4096 1000 HashUtil.toy_digest
    (fun s => Some (Ext.Atoi s)) (fun _ => True) c32_dispatch c32_servlet 4%N c32_messages 5 c32_world c32_open c32_header
    (MkStream [Data (wire c32_messages)] []
       (match w_streams c32_open !! 4%N with Some s => s_out s | None => [] end) true)).
  - vm_compute. reflexivity.
  - vm_compute. reflexivity.
  - exact c32_behaved.
  - exact Logic.I.
  - vm_compute. reflexivity.
  - split; [repeat constructor; discriminate|constructor|reflexivity].
  - vm_compute. reflexivity.
  - exact c32_good.
  - lia.
  - apply Nat.ltb_lt. reflexivity.
Defined.

(** *** Behaviour outside those conditions *)

(** The opening request that this program's own client sends is refused: the
    bundled parser calls it an upgrade, of which [execute] makes an error. *)
Theorem own_client_is_refused :
  handleShake (CP := HttpMachineSafety.c_parser) 4096 HashUtil.toy_digest (fun s => Some (Ext.Atoi s)) 4%N
    (MkWorld (<[4%N := MkStream [Data (dump (HttpClient.build_ws_request HttpClient.c_uri [] (bs "MDEyMzQ1Njc4OWFiY2RlZg==")))] [] [] true]> ∅) tt)
  = Ret None (MkWorld (<[4%N := MkStream [] [] [] false]> ∅) tt).
Proof. vm_compute. reflexivity. Qed.

End Server.
