(* ===== verification/Chat.v ===== *)
(** * The chat application: [chat/protocol.cpp], [chat/chat_servlet.cpp] and
      [chat/resource_servlet.cpp]

    Handlers are programs over the atomic actions of the shared session table
    (one per critical section) and the sending of messages.  Run to the end
    on a world they give the servlet; run one action at a time, for many
    connections, they give the concurrent behaviour of the server.  JsonCpp
    is a parameter. *)
From S2P Require Import Prelude StdString StdMap Http Stream WebSocket Servlet Server.
From Stdlib Require Import Sorting.Sorted.
Import Http Stream WebSocket Server.
Local Open Scope Z_scope.

Module Chat.

(** ** JSON *)
Class JsonLib := {
  jvalue : Type;
  j_parse : str -> option jvalue;              (* [Json::Reader::parse] *)
  j_members : jvalue -> option (list str);     (* [getMemberNames]; [None] is an exception *)
  j_asString : jvalue -> str -> option str;    (* [json[name].asString()], likewise *)
  j_write : list (str * str) -> str;           (* [FastWriter] on an object of strings *)
}.

(** Keys and values that survive being written and read: [text] holds of
    them, in JsonCpp of every valid UTF-8 string. *)
Class JsonLaws (J : JsonLib) := {
  text : str -> Prop;
  text_ascii s : Forall (fun c => 32 <= b2z c < 127) s -> text s;
  j_write_nonempty m : j_write m <> [];
  j_roundtrip m :
    StdMap.map_sorted StdString.ltb m -> Forall (fun p => text (fst p) /\ text (snd p)) m ->
    exists v, j_parse (j_write m) = Some v /\ j_members v = Some (map fst m)
      /\ forall k x, (k, x) ∈ m -> j_asString v k = Some x;
}.

(** ** Programs over the session table *)
Abbreviation sessions := (list (str * conn)).

Inductive prog (X : Type) :=
| Done (x : X)
| Raise (e : exn)
| SessionExists (id : str) (k : bool -> prog X)
| SessionAdd (id : str) (session : conn) (k : prog X)
| SessionDel (id : str) (k : prog X)
| CopySessions (k : sessions -> prog X)
| Send (session : conn) (msg : str) (k : Z -> prog X).
Arguments Done {X} _.
Arguments Raise {X} _.
Arguments SessionExists {X} _ _.
Arguments SessionAdd {X} _ _ _.
Arguments SessionDel {X} _ _.
Arguments CopySessions {X} _.
Arguments Send {X} _ _ _.

Section chat.
Context `{J : JsonLib}.

(** ** [ChatMessage]: a [std::map] of strings *)
Abbreviation ChatMessage := (list (str * str)).
Definition new_message : ChatMessage := [].
Definition get (m : ChatMessage) (name : str) : str := default [] (StdMap.lookup StdString.ltb name m).
Definition set (name v : str) (m : ChatMessage) : ChatMessage := StdMap.assign StdString.ltb name v m.

Fixpoint creat_loop (json : jvalue) (names : list str) (rt : ChatMessage) : option ChatMessage :=
  match names with
  | [] => Some rt
  | i :: names => match j_asString json i with None => None | Some v => creat_loop json names (set i v rt) end
  end.

(** [Creat]: null, a message, or an exception of JsonCpp. *)
Inductive created := Null | Message (m : ChatMessage) | Throws.
Definition Creat (v : str) : created :=
  match j_parse v with
  | None => Null
  | Some json =>
      match j_members json with
      | None => Throws
      | Some names => match creat_loop json names new_message with None => Throws | Some m => Message m end
      end
  end.
Definition toString (m : ChatMessage) : str := j_write m.

(** The critical sections. *)
Definition sessionExists (id : str) (t : sessions) : bool := bool_decide (is_Some (StdMap.lookup StdString.ltb id t)).
Definition sessionAdd (id : str) (c : conn) (t : sessions) : sessions := StdMap.assign StdString.ltb id c t.
Definition sessionDel (id : str) (t : sessions) : sessions := StdMap.erase StdString.ltb fst id t.

(** The loop of [sessionNotify] over the copied table. *)
Fixpoint notify_loop {X} (msg : str) (session : option conn) (t : sessions) (k : prog X) : prog X :=
  match t with
  | [] => k
  | (_, c) :: t =>
      if bool_decide (session = Some c) then notify_loop msg session t k
      else Send c msg (fun _ => notify_loop msg session t k)
  end.
Definition sessionNotify {X} (msg : ChatMessage) (session : option conn) (k : prog X) : prog X :=
  CopySessions (fun t => notify_loop (toString msg) session t k).

(** [sendMessage(session, rsp)] as the result of a handler. *)
Definition answer (session : conn) (rsp : ChatMessage) (header : HttpRequest) : prog (Z * HttpRequest) :=
  Send session (toString rsp) (fun v => Done (if 0 <? v then 0 else 1, header)).

(** [now] is the text of [Time2Str()]. *)
Definition ID : str := bs "$id".
Definition id_of (header : HttpRequest) : str := getHeader header ID [].

Definition onConnect (header : HttpRequest) (session : conn) : prog (Z * HttpRequest) := Done (0, header).

Definition leave_message (now id : str) : ChatMessage :=
  set (bs "name") id (set (bs "time") now (set (bs "type") (bs "user_leave") new_message)).
Definition onClose (now : str) (header : HttpRequest) (session : conn) : prog (Z * HttpRequest) :=
  let id := id_of header in
  if bool_decide (id = []) then Done (0, header)
  else SessionDel id (sessionNotify (leave_message now id) (Some session) (Done (0, header))).

Definition response (type result msg : str) : ChatMessage :=
  set (bs "msg") msg (set (bs "result") result (set (bs "type") type new_message)).

Definition enter_message (now name : str) : ChatMessage :=
  set (bs "name") name (set (bs "time") now (set (bs "type") (bs "user_center") new_message)).

(** The branch [login_request] of [handle]. *)
Definition handle_login (now : str) (header : HttpRequest) (message : ChatMessage) (session : conn) : prog (Z * HttpRequest) :=
  let id := id_of header in
  let rsp := response (bs "login_response") in
  let name := get message (bs "name") in
  if bool_decide (name = []) then answer session (rsp (bs "400") (bs "name is null")) header
  else if negb (bool_decide (id = [])) then answer session (rsp (bs "401") (bs "already login")) header
  else SessionExists name (fun exists_ =>
    if exists_ then answer session (rsp (bs "402") (bs "name exists")) header
    else
      let header := setHeader ID name header in
      SessionAdd name session
        (sessionNotify (enter_message now name) (Some session)
          (answer session (rsp (bs "200") (bs "ok")) header))).

Definition text_message (now id context : str) : ChatMessage :=
  set (bs "msg") context (set (bs "name") id (set (bs "time") now (set (bs "type") (bs "msg") new_message))).

(** The branch [send_request]. *)
Definition handle_send (now : str) (header : HttpRequest) (message : ChatMessage) (session : conn) : prog (Z * HttpRequest) :=
  let id := id_of header in
  let rsp := response (bs "send_response") in
  let context := get message (bs "msg") in
  if bool_decide (context = []) then answer session (rsp (bs "500") (bs "mag is null")) header
  else if bool_decide (id = []) then answer session (rsp (bs "501") (bs "not login")) header
  else sessionNotify (text_message now id context) None (answer session (rsp (bs "200") (bs "ok")) header).

Definition handle (now : str) (header : HttpRequest) (msg : WSFrameMessage) (session : conn) : prog (Z * HttpRequest) :=
  match Creat (m_data msg) with
  | Throws => Raise LogicError
  | Null =>
      let id := id_of header in
      if bool_decide (id = []) then Done (1, header) else SessionDel id (Done (1, header))
  | Message message =>
      let type := get message (bs "type") in
      if bool_decide (type = bs "login_request") then handle_login now header message session
      else if bool_decide (type = bs "send_request") then handle_send now header message session
      else Done (0, header)
  end.

(** ** Running a handler to its end *)
Abbreviation W := (world sessions).

Section run.
Context `{PF : !Platform}.

(** [session->sendMessage(text)]. *)
Definition send_text (c : conn) (msg : str) : M W Z := fun w =>
  let* r, w := on_stream c (WebSocket.sendMessage (MkMessage TEXT_FRAME msg) true 0) w in Ret (fst r) w.

Fixpoint run {X} (p : prog X) : M W X := fun w =>
  match p with
  | Done x => Ret x w
  | Raise e => Throw e w
  | SessionExists id k => run (k (sessionExists id (w_app w))) w
  | SessionAdd id c k => run k (MkWorld (w_streams w) (sessionAdd id c (w_app w)))
  | SessionDel id k => run k (MkWorld (w_streams w) (sessionDel id (w_app w)))
  | CopySessions k => run (k (w_app w)) w
  | Send c msg k => let* v, w := send_text c msg w in run (k v) w
  end.

(** The servlet that the server is given. *)
Definition ChatServlet (now : str) : @Servlet.WSServlet W conn := {|
  Servlet.onConnect header c := run (onConnect header c);
  Servlet.onClose header c := run (onClose now header c);
  Servlet.ws_handle header msg c := run (handle now header msg c);
|}.
End run.

(** ** Many connections at once

    Each connection is the fiber of [WSServer::handleClient] behind a
    successful [onConnect]; its handlers are interleaved with those of the
    others at every action.  What a connection receives and the results of
    sending are arbitrary.  A handler that throws ends the process, so it has
    no further step. *)
Inductive cstate :=
| Idle (header : HttpRequest)
| Handling (p : prog (Z * HttpRequest))
| Closing (p : prog (Z * HttpRequest))
| Closed.
Record system := MkSystem { table : sessions; conns : gmap conn cstate }.

Inductive act {X} : sessions -> prog X -> sessions -> prog X -> Prop :=
| act_exists t id k : act t (SessionExists id k) t (k (sessionExists id t))
| act_add t id c k : act t (SessionAdd id c k) (sessionAdd id c t) k
| act_del t id k : act t (SessionDel id k) (sessionDel id t) k
| act_copy t k : act t (CopySessions k) t (k t)
| act_send t c msg k v : act t (Send c msg k) t (k v).

(** What a connection does after a handler: the loop goes on or ends. *)
Definition after (now : str) (c : conn) (r : Z * HttpRequest) : cstate :=
  if fst r =? 0 then Idle (snd r) else Closing (onClose now (snd r) c).

Inductive step : system -> system -> Prop :=
| step_connect s c h : conns s !! c = None -> step s (MkSystem (table s) (<[c := Idle h]> (conns s)))
| step_message s c h now msg : conns s !! c = Some (Idle h) ->
    step s (MkSystem (table s) (<[c := Handling (handle now h msg c)]> (conns s)))
| step_end s c h now : conns s !! c = Some (Idle h) ->
    step s (MkSystem (table s) (<[c := Closing (onClose now h c)]> (conns s)))
| step_act s c p t p' : conns s !! c = Some (Handling p) -> act (table s) p t p' ->
    step s (MkSystem t (<[c := Handling p']> (conns s)))
| step_done s c now r : conns s !! c = Some (Handling (Done r)) ->
    step s (MkSystem (table s) (<[c := after now c r]> (conns s)))
| step_close_act s c p t p' : conns s !! c = Some (Closing p) -> act (table s) p t p' ->
    step s (MkSystem t (<[c := Closing p']> (conns s)))
| step_closed s c r : conns s !! c = Some (Closing (Done r)) ->
    step s (MkSystem (table s) (<[c := Closed]> (conns s))).

Definition init : system := MkSystem [] ∅.
Inductive reachable : system -> Prop :=
| reachable_init : reachable init
| reachable_step s s' : reachable s -> step s s' -> reachable s'.

(** *** What a handler may still do

    [known c me p]: the connection [c] is known as [me]; [p] registers [c]
    only under a new nonempty name that it is known as from then on, and it
    ends with a header that has that name. *)
Fixpoint known (c : conn) (me : str) (p : prog (Z * HttpRequest)) : Prop :=
  match p with
  | Done r => id_of (snd r) = me
  | Raise _ => True
  | SessionExists _ k => forall b, known c me (k b)
  | SessionAdd id d k => d = c /\ me = [] /\ id <> [] /\ known c id k
  | SessionDel _ k => known c me k
  | CopySessions k => forall t, known c me (k t)
  | Send _ _ k => forall v, known c me (k v)
  end.

(** A program that leaves the table alone. *)
Fixpoint quiet {X} (p : prog X) : Prop :=
  match p with
  | Done _ | Raise _ => True
  | SessionExists _ k => forall b, quiet (k b)
  | SessionAdd _ _ _ | SessionDel _ _ => False
  | CopySessions k => forall t, quiet (k t)
  | Send _ _ k => forall v, quiet (k v)
  end.

Lemma known_notify c me msg ex k : known c me k -> known c me (sessionNotify msg ex k).
Proof. intros Hk t. simpl. induction t as [|[i d] t IH]; simpl; [done|]. case_bool_decide; [apply IH|intros v; apply IH]. Qed.
Lemma quiet_notify {X} msg ex (k : prog X) : quiet k -> quiet (sessionNotify msg ex k).
Proof. intros Hk t. simpl. induction t as [|[i d] t IH]; simpl; [done|]. case_bool_decide; [apply IH|intros v; apply IH]. Qed.
Lemma known_answer c d me rsp h : id_of h = me -> known c me (answer d rsp h).
Proof. by intros H v. Qed.

(** *** The invariant of the table *)

(** A connection in state [st] that is known as [me]. *)
Definition conn_ok (t : sessions) (c : conn) (me : str) (st : cstate) : Prop :=
  match st with
  | Idle h => id_of h = me
  | Handling p => known c me p
  | Closing p => (quiet p /\ forall id, (id, c) ∉ t) \/ exists k, p = SessionDel me k /\ quiet k
  | Closed => forall id, (id, c) ∉ t
  end.

Record sys_inv (s : system) : Prop := {
  inv_sorted : StdMap.map_sorted StdString.ltb (table s);
  inv_entry id c : (id, c) ∈ table s -> id <> [] /\ is_Some (conns s !! c);
  inv_conn c st : conns s !! c = Some st ->
    exists me, conn_ok (table s) c me st /\ forall id, (id, c) ∈ table s -> id = me;
}.

Lemma id_of_setHeader name h : id_of (setHeader ID name h) = name.
Proof.
  unfold id_of, getHeader, setHeader, q_with_headers, massign, mfind. cbn [q_headers].
  by rewrite (StdMap.lookup_assign_eq CaseInsensitiveLess).
Qed.

Lemma known_login now c h m : known c (id_of h) (handle_login now h m c).
Proof.
  unfold handle_login. case_bool_decide as E1; [by apply known_answer|].
  case_bool_decide as E2; cbn [negb]; [|by apply known_answer].
  intros [|]; [by apply known_answer|]. split_and!; [done|done|done|].
  apply known_notify, known_answer, id_of_setHeader.
Qed.

Lemma known_handle now c h msg : known c (id_of h) (handle now h msg c).
Proof.
  unfold handle. destruct (Creat (m_data msg)) as [|m|]; [|case_bool_decide|done].
  - by case_bool_decide.
  - apply known_login.
  - case_bool_decide; [|done]. unfold handle_send. repeat case_bool_decide; try by apply known_answer.
    by apply known_notify, known_answer.
Qed.

(** The first state of a closing connection. *)
Lemma closing_ok t now c h :
  (forall id, (id, c) ∈ t -> id <> []) -> (forall id, (id, c) ∈ t -> id = id_of h) ->
  conn_ok t c (id_of h) (Closing (onClose now h c)).
Proof.
  intros H1 H2. unfold onClose. simpl. case_bool_decide as E.
  - left. split; [done|]. intros id Hid. destruct (H1 id Hid). by rewrite (H2 id Hid).
  - right. eexists. split; [done|]. by apply quiet_notify.
Qed.

(** An action keeps the table sorted and adds entries of its own connection only. *)
Lemma sessionAdd_sorted id c t : StdMap.map_sorted StdString.ltb t -> StdMap.map_sorted StdString.ltb (sessionAdd id c t).
Proof. apply (StdMap.assign_sorted StdString.ltb). Qed.
Lemma sessionDel_sorted id t : StdMap.map_sorted StdString.ltb t -> StdMap.map_sorted StdString.ltb (sessionDel id t).
Proof. apply (StdMap.erase_sorted StdString.ltb fst). Qed.
#[local] Hint Resolve sessionAdd_sorted sessionDel_sorted : luwu.
Lemma elem_of_sessionAdd id c t x : x ∈ sessionAdd id c t -> x ∈ t \/ x = (id, c).
Proof.
  destruct x as [i d]. intros [H|[-> H]]%(StdMap.elem_of_assign StdString.ltb); [by left|right].
  rewrite StdMap.equivb_string in H. by apply bool_decide_eq_true in H as ->.
Qed.
Lemma elem_of_sessionDel id t i d :
  StdMap.map_sorted StdString.ltb t -> (i, d) ∈ sessionDel id t <-> (i, d) ∈ t /\ i <> id.
Proof.
  intros Hs. unfold sessionDel. rewrite (StdMap.elem_of_erase StdString.ltb fst) by done.
  rewrite StdMap.equivb_string, bool_decide_eq_false. done.
Qed.

Lemma act_sorted {X} t (p : prog X) t' p' :
  act t p t' p' -> StdMap.map_sorted StdString.ltb t -> StdMap.map_sorted StdString.ltb t'.
Proof. destruct 1; auto with luwu. Qed.
#[local] Hint Resolve act_sorted : luwu.

(** A known program stays known, maybe under its new name. *)
Lemma act_known c me t p t' p' :
  act t p t' p' -> StdMap.map_sorted StdString.ltb t -> known c me p ->
  (forall id, (id, c) ∈ t -> id <> [] /\ id = me) ->
  (forall id d, (id, d) ∈ t' -> (id, d) ∈ t \/ (d = c /\ id <> []))
  /\ exists me', known c me' p' /\ forall id, (id, c) ∈ t' -> id = me'.
Proof.
  intros Ha Hs Hk Hme. destruct Ha; simpl in Hk.
  - split; [auto|]. exists me. split; [apply Hk|apply Hme].
  - destruct Hk as (-> & -> & Hid & Hk). split.
    + intros i d [H|[= -> ->]]%elem_of_sessionAdd; auto.
    + exists id. split; [done|]. intros i [H|[= ->]]%elem_of_sessionAdd; [|done]. by destruct (Hme i H).
  - split; [intros i d H%elem_of_sessionDel; tauto|]. exists me. split; [done|].
    intros i [H _]%elem_of_sessionDel; [|done]. by apply Hme in H as [_ ?].
  - split; [auto|]. exists me. split; [apply Hk|apply Hme].
  - split; [auto|]. exists me. split; [apply Hk|apply Hme].
Qed.

(** A closing program only removes its own name. *)
Lemma act_closing c me t p t' p' :
  act t p t' p' -> StdMap.map_sorted StdString.ltb t -> conn_ok t c me (Closing p) -> (forall id, (id, c) ∈ t -> id = me) ->
  (forall x, x ∈ t' -> x ∈ t) /\ conn_ok t' c me (Closing p').
Proof.
  intros Ha Hs [[Hq Hno]|(k & -> & Hq)] Hme.
  - destruct Ha; simpl in *; try done; split; auto.
  - inversion Ha; subst. split; [intros [i d] H%elem_of_sessionDel; tauto|].
    left. split; [done|]. intros id [H1 H2]%elem_of_sessionDel; [|done]. by apply H2, Hme.
Qed.

(** Fewer entries do not disturb a connection. *)
Lemma conn_ok_mono t t' c me st :
  (forall id, (id, c) ∈ t' -> (id, c) ∈ t) -> conn_ok t c me st -> conn_ok t' c me st.
Proof. destruct st; simpl; try done; firstorder. Qed.

(** Replacing the state of one connection. *)
Lemma sys_inv_update s t c st :
  sys_inv s -> is_Some (conns s !! c) \/ table s = t -> StdMap.map_sorted StdString.ltb t ->
  (forall id d, (id, d) ∈ t -> (id, d) ∈ table s \/ (d = c /\ id <> [])) ->
  (exists me, conn_ok t c me st /\ forall id, (id, c) ∈ t -> id = me) ->
  sys_inv (MkSystem t (<[c := st]> (conns s))).
Proof.
  intros [Hs He Hc] _ Hst Hent Hcn. split; simpl; [done|..].
  - intros id d H. destruct (decide (d = c)) as [->|Hn]; [rewrite lookup_insert_eq|rewrite lookup_insert_ne by done].
    + split; [|done]. destruct (Hent id c H) as [H'|[_ H']]; [by apply (He _ _ H')|done].
    + destruct (Hent id d H) as [H'|[-> _]]; [by apply (He _ _ H')|done].
  - intros d st'. destruct (decide (d = c)) as [->|Hn]; [rewrite lookup_insert_eq|rewrite lookup_insert_ne by done].
    + intros [= <-]. done.
    + intros (me & Hok & Hme)%Hc. exists me.
      assert (forall id, (id, d) ∈ t -> (id, d) ∈ table s) as Hsub by (intros id H; destruct (Hent id d H) as [?|[? _]]; congruence).
      split; [by eapply conn_ok_mono|]. auto.
Qed.

Lemma step_inv s s' : step s s' -> sys_inv s -> sys_inv s'.
Proof.
  intros Hstep Hinv. pose proof Hinv as [Hs He Hc]. destruct Hstep as
    [s c h Hn|s c h now msg E|s c h now E|s c p t p' E Ha|s c now r E|s c p t p' E Ha|s c r E];
    try (destruct (Hc _ _ E) as (me & Hok & Hme));
    try (assert (forall id, (id, c) ∈ table s -> id <> [] /\ id = me) as Hme' by (intros id H; split; [by apply (He _ _ H)|auto])).
  - apply sys_inv_update; auto. exists (id_of h). split; [done|]. intros id H. apply He in H as [_ [? ?]]. congruence.
  - apply sys_inv_update; eauto. exists me. simpl in *. subst. split; [apply known_handle|done].
  - apply sys_inv_update; eauto. exists me. simpl in Hok. subst me. split; [apply closing_ok; naive_solver|done].
  - destruct (act_known c me _ _ _ _ Ha Hs Hok Hme') as [H1 H2].
    apply sys_inv_update; eauto with luwu.
  - apply sys_inv_update; eauto. exists me. simpl in Hok. subst me. split; [|done].
    unfold after. destruct (fst r =? 0); [done|]. apply closing_ok; naive_solver.
  - destruct (act_closing c me _ _ _ _ Ha Hs Hok Hme) as [H1 H2].
    apply sys_inv_update; eauto with luwu.
  - apply sys_inv_update; eauto. exists me. split; [|done].
    destruct Hok as [[_ Hok]|(k & Hk & _)]; [done|discriminate].
Qed.

(** ** Handlers without interleaving

    The same connections when every handler runs to its end before another
    one starts, as with a single worker thread whose sends do not block.  A
    handler that answers other than 0 ends the loop of its connection, and
    [onClose] runs right behind it. *)
Inductive completes {X} : prog X -> sessions -> X -> sessions -> Prop :=
| completes_done x t : completes (Done x) t x t
| completes_act p t t1 p1 x t' : act t p t1 p1 -> completes p1 t1 x t' -> completes p t x t'.

Inductive astate := AOpen (header : HttpRequest) | AClosed.
Record asystem := MkASystem { a_table : sessions; a_conns : gmap conn astate }.

(** The one thing that is asked of the clients is that no opening request has
    the header ["$id"]. *)
Inductive astep : asystem -> asystem -> Prop :=
| a_connect s c h : a_conns s !! c = None -> id_of h = [] ->
    astep s (MkASystem (a_table s) (<[c := AOpen h]> (a_conns s)))
| a_message s c h now msg h' t : a_conns s !! c = Some (AOpen h) ->
    completes (handle now h msg c) (a_table s) (0, h') t ->
    astep s (MkASystem t (<[c := AOpen h']> (a_conns s)))
| a_last_message s c h now now' msg rt h' t r t' : a_conns s !! c = Some (AOpen h) -> rt <> 0 ->
    completes (handle now h msg c) (a_table s) (rt, h') t -> completes (onClose now' h' c) t r t' ->
    astep s (MkASystem t' (<[c := AClosed]> (a_conns s)))
| a_close s c h now r t : a_conns s !! c = Some (AOpen h) -> completes (onClose now h c) (a_table s) r t ->
    astep s (MkASystem t (<[c := AClosed]> (a_conns s))).
Inductive areachable : asystem -> Prop :=
| areachable_init : areachable (MkASystem [] ∅)
| areachable_step s s' : areachable s -> astep s s' -> areachable s'.

(** The name under which a connection is open. *)
Definition open_as (st : astate) : option str :=
  match st with AOpen h => if bool_decide (id_of h = []) then None else Some (id_of h) | AClosed => None end.

Record a_inv (s : asystem) : Prop := {
  ai_sorted : StdMap.map_sorted StdString.ltb (a_table s);
  ai_exact id c : StdMap.lookup StdString.ltb id (a_table s) = Some c <-> (a_conns s !! c) ≫= open_as = Some id;
}.

Lemma completes_quiet {X} (p : prog X) t x t' : quiet p -> completes p t x t' -> t' = t.
Proof. intros Hq Hc. induction Hc as [|p t t1 p1 x t' Ha _ IH]; [done|]. destruct Ha; simpl in Hq; try done; by apply IH. Qed.

Lemma completes_known c me p t x t' : quiet p -> known c me p -> completes p t x t' -> id_of (snd x) = me.
Proof.
  intros Hq Hk Hc. induction Hc as [|p t t1 p1 x t' Ha _ IH]; [done|].
  destruct Ha; simpl in Hq, Hk; try done; by apply IH.
Qed.

Lemma completes_inv {X} (p : prog X) t x t' :
  completes p t x t' -> (p = Done x /\ t' = t) \/ exists t1 p1, act t p t1 p1 /\ completes p1 t1 x t'.
Proof. destruct 1; eauto. Qed.

Lemma quiet_answer c rsp h : quiet (answer c rsp h).
Proof. by intros v. Qed.

Lemma completes_notify_answer c me ex m rsp h t r t' :
  id_of h = me -> completes (sessionNotify m ex (answer c rsp h)) t r t' -> t' = t /\ id_of (snd r) = me.
Proof.
  intros Hid Hc. split.
  - eapply completes_quiet; [apply quiet_notify, quiet_answer|done].
  - eapply (completes_known c); [apply quiet_notify, quiet_answer|by apply known_notify, known_answer|done].
Qed.

(** A handler changes the table by a login under a free name, and by removing
    the name of a client whose text is not JSON, which ends its connection. *)
Lemma handle_completes now c h msg t r t' :
  completes (handle now h msg c) t r t' ->
  (t' = t /\ id_of (snd r) = id_of h)
  \/ (fst r <> 0 /\ id_of h <> [] /\ t' = sessionDel (id_of h) t /\ snd r = h)
  \/ (id_of h = [] /\ id_of (snd r) <> [] /\ StdMap.lookup StdString.ltb (id_of (snd r)) t = None
      /\ t' = sessionAdd (id_of (snd r)) c t).
Proof.
  intros Hc. pose proof (known_handle now c h msg) as Hk.
  assert (quiet (handle now h msg c) -> t' = t /\ id_of (snd r) = id_of h) as Hquiet.
  { intros Hq. split; [by eapply completes_quiet|by eapply completes_known]. }
  unfold handle in *. destruct (Creat (m_data msg)) as [|m|]; [|case_bool_decide|left; by apply Hquiet].
  - case_bool_decide as E; [left; by apply Hquiet|]. right; left.
    apply completes_inv in Hc as [[? _]|(t1 & p1 & Ha & Hc)]; [done|]. inversion Ha; subst. clear Ha.
    by apply completes_inv in Hc as [[[= <-] ->]|(t2 & p2 & Ha & _)]; [|inversion Ha].
  - unfold handle_login in *. case_bool_decide as E1; [left; apply Hquiet, quiet_answer|].
    case_bool_decide as E2; cbn [negb] in *; [|left; apply Hquiet, quiet_answer].
    apply completes_inv in Hc as [[? _]|(t1 & p1 & Ha & Hc)]; [done|]. inversion Ha; subst. clear Ha.
    destruct (sessionExists _ t1) eqn:Ex.
    { left. split; [eapply completes_quiet, Hc; apply quiet_answer|]. eapply (completes_known c), Hc; [apply quiet_answer|by apply known_answer]. }
    apply completes_inv in Hc as [[? _]|(t2 & p2 & Ha & Hc)]; [done|]. inversion Ha; subst. clear Ha.
    apply (completes_notify_answer c (get m (bs "name"))) in Hc as [-> Hid]; [|apply id_of_setHeader].
    right; right. rewrite Hid. split_and!; try done. unfold sessionExists in Ex.
    by apply bool_decide_eq_false, eq_None_not_Some in Ex.
  - left. apply Hquiet. case_bool_decide; [|done]. unfold handle_send. repeat case_bool_decide; try apply quiet_answer.
    by apply quiet_notify.
Qed.

Lemma onClose_completes now c h t r t' :
  completes (onClose now h c) t r t' -> t' = if bool_decide (id_of h = []) then t else sessionDel (id_of h) t.
Proof.
  unfold onClose. case_bool_decide; intros Hc.
  - by apply completes_quiet in Hc.
  - apply completes_inv in Hc as [[? _]|(t1 & p1 & Ha & Hc)]; [done|]. inversion Ha; subst.
    by apply completes_quiet in Hc; [|apply quiet_notify].
Qed.

Lemma lookup_sessionAdd id c t i :
  StdMap.map_sorted StdString.ltb t ->
  StdMap.lookup StdString.ltb i (sessionAdd id c t) = if bool_decide (id = i) then Some c else StdMap.lookup StdString.ltb i t.
Proof. intros. unfold sessionAdd. by rewrite (StdMap.lookup_assign StdString.ltb), StdMap.equivb_string. Qed.
Lemma lookup_sessionDel id t i :
  StdMap.map_sorted StdString.ltb t ->
  StdMap.lookup StdString.ltb i (sessionDel id t) = if bool_decide (id = i) then None else StdMap.lookup StdString.ltb i t.
Proof. intros. unfold sessionDel. by rewrite (StdMap.lookup_erase StdString.ltb), StdMap.equivb_string. Qed.

(** A connection that keeps its name. *)
Lemma a_inv_same s c st st' :
  a_inv s -> a_conns s !! c = st -> (st ≫= open_as) = open_as st' -> a_inv (MkASystem (a_table s) (<[c := st']> (a_conns s))).
Proof.
  intros [H1 H2] Hst Hsame. split; [done|]. intros id d. simpl. rewrite H2.
  destruct (decide (d = c)) as [->|Hd]; [rewrite lookup_insert_eq, Hst; simpl; by rewrite Hsame|by rewrite lookup_insert_ne].
Qed.

(** A connection that logs in under a free name, and one that ends. *)
Lemma a_inv_login s c h h' :
  a_inv s -> a_conns s !! c = Some (AOpen h) -> id_of h = [] -> id_of h' <> [] ->
  StdMap.lookup StdString.ltb (id_of h') (a_table s) = None ->
  a_inv (MkASystem (sessionAdd (id_of h') c (a_table s)) (<[c := AOpen h']> (a_conns s))).
Proof.
  intros [Hs He] E Hh Hnew Hfree. split; [by apply sessionAdd_sorted|]. intros id d. simpl. rewrite lookup_sessionAdd by done.
  destruct (decide (d = c)) as [->|Hd].
  - rewrite lookup_insert_eq. simpl. rewrite (bool_decide_false (id_of h' = [])) by done.
    case_bool_decide as Ei; [by subst|]. rewrite He, E. simpl. rewrite bool_decide_true by done. split; [done|congruence].
  - rewrite lookup_insert_ne by done. case_bool_decide as Ei; [|apply He]. subst. rewrite <- He, Hfree. split; [congruence|done].
Qed.
Lemma a_inv_close s c h t :
  a_inv s -> a_conns s !! c = Some (AOpen h) -> StdMap.map_sorted StdString.ltb t ->
  (forall i, StdMap.lookup StdString.ltb i t = if bool_decide (id_of h = i) then None else StdMap.lookup StdString.ltb i (a_table s)) ->
  a_inv (MkASystem t (<[c := AClosed]> (a_conns s))).
Proof.
  intros [Hs He] E Hst Ht. split; [done|]. intros id d. simpl. rewrite Ht.
  assert (forall i, StdMap.lookup StdString.ltb i (a_table s) = Some c -> i = id_of h) as Hme.
  { intros i. rewrite He, E. simpl. case_bool_decide; congruence. }
  destruct (decide (d = c)) as [->|Hd].
  - rewrite lookup_insert_eq. simpl. case_bool_decide as Ei; split; try done. intros Hl%Hme. by subst.
  - rewrite lookup_insert_ne by done. case_bool_decide as Ei; [|apply He]. subst. split; [done|]. rewrite <- He. intros Hl.
    exfalso. destruct (decide (id_of h = [])) as [E0|E0].
    + apply He in Hl. rewrite E0 in Hl. destruct (a_conns s !! d) as [[h'|]|]; simpl in Hl; try done. case_bool_decide; congruence.
    + assert (StdMap.lookup StdString.ltb (id_of h) (a_table s) = Some c) as Hc by (apply He; rewrite E; simpl; by rewrite bool_decide_false).
      congruence.
Qed.

Lemma no_empty_name s : a_inv s -> StdMap.lookup StdString.ltb [] (a_table s) = None.
Proof.
  intros [_ He]. destruct (StdMap.lookup StdString.ltb [] (a_table s)) as [d|] eqn:E; [|done]. apply He in E.
  destruct (a_conns s !! d) as [[h'|]|]; simpl in E; try done. case_bool_decide; congruence.
Qed.

(** [onClose] on the table of a state. *)
Lemma a_inv_onClose s c h now r t t' :
  a_inv s -> a_conns s !! c = Some (AOpen h) -> StdMap.map_sorted StdString.ltb t ->
  (t = a_table s \/ t = sessionDel (id_of h) (a_table s) /\ id_of h <> []) -> completes (onClose now h c) t r t' ->
  a_inv (MkASystem t' (<[c := AClosed]> (a_conns s))).
Proof.
  intros Hinv E Hst Ht ->%onClose_completes. pose proof (ai_sorted _ Hinv) as Hs. case_bool_decide as Eid.
  - destruct Ht as [->|[_ ?]]; [|done]. apply (a_inv_close s c h); try done. intros i. rewrite Eid.
    case_bool_decide; [subst; by apply no_empty_name|done].
  - apply (a_inv_close s c h); try done; [by apply sessionDel_sorted|]. intros i. rewrite lookup_sessionDel by done.
    case_bool_decide as Ei; [done|]. destruct Ht as [->|[-> _]]; [done|]. rewrite lookup_sessionDel by done. by rewrite bool_decide_false.
Qed.

Lemma astep_inv s s' : astep s s' -> a_inv s -> a_inv s'.
Proof.
  intros Hstep Hinv. pose proof (ai_sorted _ Hinv) as Hs.
  destruct Hstep as [s c h E Hh|s c h now msg h' t E Hc|s c h now now' msg rt h' t r t' E Hrt Hc Hcl|s c h now r t E Hc].
  - apply (a_inv_same s c None); try done. simpl. by rewrite bool_decide_true.
  - apply handle_completes in Hc as [[-> Hid]|[[? _]|(Hh & Hnew & Hfree & ->)]]; simpl in *; [|done|by eapply a_inv_login].
    apply (a_inv_same s c (Some (AOpen h))); try done. simpl. by rewrite Hid.
  - apply handle_completes in Hc as [[-> Hid]|[(_ & Hne & -> & Hid)|(Hh & Hnew & Hfree & ->)]]; cbn [fst snd] in *.
    + assert (a_inv (MkASystem (a_table s) (<[c := AOpen h']> (a_conns s)))) as H.
      { apply (a_inv_same s c (Some (AOpen h))); try done. simpl. by rewrite Hid. }
      rewrite <- (insert_insert_eq (a_conns s) c AClosed (AOpen h')). apply (a_inv_onClose _ c h' now' r (a_table s) t' H); auto. apply lookup_insert_eq.
    + subst h'. apply (a_inv_onClose s c h now' r (sessionDel (id_of h) (a_table s)) t' Hinv E (sessionDel_sorted _ _ Hs)); auto.
    + pose proof (a_inv_login s c h h' Hinv E Hh Hnew Hfree) as H.
      rewrite <- (insert_insert_eq (a_conns s) c AClosed (AOpen h')). apply (a_inv_onClose _ c h' now' r (sessionAdd (id_of h') c (a_table s)) t' H); auto;
        [apply lookup_insert_eq|by apply sessionAdd_sorted].
  - apply (a_inv_onClose s c h now r (a_table s)); auto.
Qed.

Lemma sorted_keys_NoDup {V} (m : list (str * V)) : StdMap.map_sorted StdString.ltb m -> NoDup m.*1.
Proof.
  unfold StdMap.map_sorted, StdMap.sorted. induction 1 as [|[k v] m Hs IH Hall]; simpl; [constructor|].
  constructor; [|done]. intros ([k' v'] & -> & Hin)%list_elem_of_fmap. rewrite Forall_forall in Hall.
  specialize (Hall _ Hin). unfold StdMap.lt in Hall. simpl in Hall. by rewrite (StdMap.swo_irrefl (ltb := StdString.ltb)) in Hall.
Qed.

(** ** Messages over the wire *)
Lemma set_last k v (m : ChatMessage) :
  (forall x, x ∈ m -> StdString.ltb (fst x) k = true) -> set k v m = m ++ [(k, v)].
Proof.
  induction m as [|[y u] m IH]; intros H; [done|]. unfold set in *. simpl.
  pose proof (H (y, u) ltac:(by left)) as Hy. simpl in Hy.
  rewrite (StdMap.ltb_asym StdString.ltb _ _ Hy), Hy, IH; [done|]. intros x Hx. apply H. by right.
Qed.

Lemma creat_loop_ok json (r acc : ChatMessage) :
  StdMap.map_sorted StdString.ltb (acc ++ r) -> (forall k x, (k, x) ∈ r -> j_asString json k = Some x) ->
  creat_loop json (map fst r) acc = Some (acc ++ r).
Proof.
  revert acc. induction r as [|[k v] r IH]; intros acc Hs Hj; simpl; [by rewrite app_nil_r|].
  rewrite (Hj k v) by by left. rewrite set_last.
  - rewrite IH; rewrite <- ?app_assoc; [done|done|]. intros k' x Hx. apply Hj. by right.
  - clear - Hs. induction acc as [|y acc IH]; intros x Hx; [by apply not_elem_of_nil in Hx|].
    unfold StdMap.map_sorted, StdMap.sorted in *. simpl in Hs. apply StronglySorted_inv in Hs as [Hs Hall].
    apply elem_of_cons in Hx as [->|Hx]; [|by apply IH].
    rewrite Forall_forall in Hall. apply (Hall (k, v)). apply elem_of_app. right. by left.
Qed.

(** A message survives being printed and parsed. *)
Lemma chat_message_roundtrip `{JL : !JsonLaws J} (m : ChatMessage) :
  StdMap.map_sorted StdString.ltb m -> Forall (fun p => text (fst p) /\ text (snd p)) m -> Creat (toString m) = Message m.
Proof.
  intros Hs Ht. destruct (j_roundtrip m Hs Ht) as (v & E1 & E2 & E3). unfold Creat, toString, new_message.
  by rewrite E1, E2, (creat_loop_ok v m []).
Qed.

Section wire.
Context `{PF : !Platform}.

Lemma send_text_ok c msg w s :
  w_streams w !! c = Some s -> healthy s -> msg <> [] -> zlen msg < 2 ^ 31 - 2 ->
  exists s', send_text c msg w = Ret (zlen msg + 2) (MkWorld (<[c := s']> (w_streams w)) (w_app w))
    /\ sent (frame TEXT_FRAME true None msg) s s'.
Proof.
  intros Hc Hh Hne Hsz. destruct (WSSendMessage_ok (MkMessage TEXT_FRAME msg) false true 0 s Hh Hne Hsz) as (m' & s' & E & Hs).
  exists s'. split; [|done]. unfold send_text, on_stream, WebSocket.sendMessage. rewrite Hc, E. done.
Qed.

(** The streams after every connection of [ds] was sent [msg]. *)
Definition delivered (msg : str) (ds : list conn) (m m' : gmap conn stream) : Prop :=
  forall d, match m !! d with
            | None => m' !! d = None
            | Some s => exists s', m' !! d = Some s' /\ if decide (d ∈ ds) then sent (frame TEXT_FRAME true None msg) s s' else s' = s
            end.

Definition recipients (ex : option conn) (t : sessions) : list conn := filter (fun d => ex <> Some d) (t.*2).

Lemma run_notify {X} msg ex t (k : prog X) w :
  NoDup (t.*2) -> (forall d, d ∈ t.*2 -> exists s, w_streams w !! d = Some s /\ healthy s) -> msg <> [] -> zlen msg < 2 ^ 31 - 2 ->
  exists m', run (notify_loop msg ex t k) w = run k (MkWorld m' (w_app w)) /\ delivered msg (recipients ex t) (w_streams w) m'.
Proof.
  intros Hnd Hh Hne Hsz. revert w Hh. induction t as [|[i c] t IH]; intros w Hh; simpl in *.
  - exists (w_streams w). split; [by destruct w|]. intros d. destruct (w_streams w !! d) as [s|]; [|done]. exists s. done.
  - apply NoDup_cons in Hnd as [Hc Hnd]. unfold recipients in *. simpl. rewrite filter_cons. case_bool_decide as Eex.
    + rewrite decide_False by tauto. apply (IH Hnd). intros d Hd. apply Hh. by right.
    + rewrite decide_True by done. destruct (Hh c ltac:(by left)) as (s & Es & Hs).
      destruct (send_text_ok c msg w s Es Hs Hne Hsz) as (s' & E & Hsent). cbn [run]. rewrite E. cbn [obind].
      destruct (IH Hnd (MkWorld (<[c := s']> (w_streams w)) (w_app w))) as (m' & Em & Hm); cbn [w_streams w_app] in *.
      { intros d Hd. rewrite lookup_insert_ne by (intros ->; done). apply Hh. by right. }
      exists m'. split; [exact Em|]. intros d. specialize (Hm d). destruct (decide (d = c)) as [->|Hd].
      * rewrite lookup_insert_eq in Hm. rewrite Es. destruct Hm as (s2 & E2 & Hs2). exists s2. split; [done|].
        rewrite decide_True by by left. rewrite decide_False in Hs2; [by subst|].
        intros [_ ?]%list_elem_of_filter. done.
      * rewrite lookup_insert_ne in Hm by done. destruct (w_streams w !! d); [|done]. destruct Hm as (s2 & E2 & Hs2).
        exists s2. split; [done|]. case_decide as D1; case_decide as D2; try done; rewrite elem_of_cons in *; tauto.
Qed.

Lemma frame_received max_size msg rest r :
  healthy r -> msg <> [] -> zlen msg < max_size <= 2 ^ 31 -> incoming r = frame TEXT_FRAME true None msg ++ rest ->
  exists r', WSRecvMessage 1 true max_size r = Ret (Some (MkMessage TEXT_FRAME msg)) r' /\ incoming r' = rest.
Proof.
  intros Hh Hne Hmax Hi. destruct (recv_frames_ok true max_size 0 TEXT_FRAME [] [(None, msg)] rest 1 r) as (r' & E & G); try done.
  - by repeat constructor.
  - right; by left.
  - by right.
  - unfold whole. simpl. rewrite app_nil_r. change (zlen []) with 0. lia.
  - lia.
  - exists r'. unfold WSRecvMessage. change 0 with (zlen (@nil byte)) at 2. rewrite E. unfold whole. simpl. rewrite app_nil_r.
    split; [done|apply G].
Qed.

Lemma text_message_sorted now id context : StdMap.map_sorted StdString.ltb (text_message now id context).
Proof. unfold text_message, set. by repeat apply (StdMap.assign_sorted StdString.ltb); constructor. Qed.

Lemma text_message_text `{JL : !JsonLaws J} now id context :
  text now -> text id -> text context -> Forall (fun p => text (fst p) /\ text (snd p)) (text_message now id context).
Proof.
  intros Hn Hi Hc. assert (forall s, forallb (fun c => (32 <=? b2z c) && (b2z c <? 127)) s = true -> text s) as Ht.
  { intros s Hs. apply text_ascii, Forall_forall. intros c Hin%list_elem_of_In. rewrite forallb_forall in Hs. apply Hs in Hin. lia. }
  change (text_message now id context) with [(bs "msg", context); (bs "name", id); (bs "time", now); (bs "type", bs "msg")].
  repeat (apply Forall_cons; split; [split; simpl; try done; by apply Ht|]). constructor.
Qed.

(** A whole [send_request] of a logged-in client. *)
Lemma run_send now header message c w s :
  let id := id_of header in
  let context := get message (bs "msg") in
  let txt := toString (text_message now id context) in
  let rsp := toString (response (bs "send_response") (bs "200") (bs "ok")) in
  id <> [] -> context <> [] -> NoDup (w_app w).*2 ->
  (forall d, d ∈ (w_app w).*2 -> exists s, w_streams w !! d = Some s /\ healthy s) ->
  w_streams w !! c = Some s -> healthy s -> txt <> [] -> rsp <> [] -> zlen txt < 2 ^ 31 - 2 -> zlen rsp < 2 ^ 31 - 2 ->
  exists m, run (handle_send now header message c) w = Ret (0, header) (MkWorld m (w_app w))
    /\ forall d s0, w_streams w !! d = Some s0 -> exists s', m !! d = Some s' /\ s_in s' = s_in s0
       /\ s_out s' = s_out s0 ++ (if decide (d ∈ (w_app w).*2) then frame TEXT_FRAME true None txt else [])
                      ++ (if decide (d = c) then frame TEXT_FRAME true None rsp else []).
Proof.
  intros id context txt rsp Hid Hctx Hnd Hh Hc Hhs Ht Hr Hzt Hzr. unfold handle_send. fold id context.
  rewrite (bool_decide_false (context = [])), (bool_decide_false (id = [])) by done. unfold sessionNotify. cbn [run]. fold txt.
  destruct (run_notify txt None (w_app w) (answer c (response (bs "send_response") (bs "200") (bs "ok")) header) w
    Hnd Hh Ht Hzt) as (m1 & -> & Hdel).
  assert (forall d, d ∈ recipients None (w_app w) <-> d ∈ (w_app w).*2) as Hrec.
  { intros d. unfold recipients. rewrite list_elem_of_filter. naive_solver. }
  pose proof (Hdel c) as Hdc. rewrite Hc in Hdc. destruct Hdc as (s1 & E1 & Hs1).
  assert (healthy s1) as Hh1 by (case_decide; [apply Hs1|by subst]).
  unfold answer. cbn [run]. fold rsp.
  destruct (send_text_ok c rsp (MkWorld m1 (w_app w)) s1 E1 Hh1 Hr Hzr) as (s2 & -> & Hs2). cbn [obind w_streams w_app].
  pose proof (zlen_nonneg rsp). destruct (Z.ltb_spec 0 (zlen rsp + 2)); [|lia].
  eexists. split; [done|]. intros d s0 Hd. specialize (Hdel d). rewrite Hd in Hdel. destruct Hdel as (s3 & E3 & Hs3).
  assert (s_in s3 = s_in s0 /\ s_out s3 = s_out s0 ++ if decide (d ∈ (w_app w).*2) then frame TEXT_FRAME true None txt else []) as [Hin Hout].
  { destruct (decide (d ∈ (w_app w).*2)) as [Hm|Hm]; rewrite <- Hrec in Hm.
    - rewrite decide_True in Hs3 by done. destruct Hs3. done.
    - rewrite decide_False in Hs3 by done. subst. by rewrite app_nil_r. }
  destruct (decide (d = c)) as [->|Hne].
  - rewrite lookup_insert_eq. exists s2. assert (s3 = s1) as -> by congruence. destruct Hs2 as [_ Hi2 Ho2].
    split_and!; [done|congruence|by rewrite Ho2, Hout, <- app_assoc].
  - rewrite lookup_insert_ne by done. exists s3. by rewrite app_nil_r.
Qed.

End wire.
End chat.

(** ** [ResourceServlet] *)

(** [open] is the file system: the lines of a readable file. *)
Definition resource_handle {W Session} (open : str -> option (list str)) (m_path : str) : @Servlet.callback W Session :=
  fun request response _ =>
    let path := m_path ++ bs "/" ++ q_path request in
    mret (0, (request,
      if bool_decide (is_Some (StdString.find_str (bs "..") path)) then
        setStatus Servlet.NOT_FOUND (p_setBody (bs "invalid path") response)
      else match open path with
           | None => setStatus Servlet.NOT_FOUND (p_setBody (bs "invalid file") response)
           | Some lines =>
               p_setHeader (bs "content-type") (bs "text/html;charset=utf-8")
                 (p_setBody (concat (map (fun l => l ++ [z2b 10]) lines)) response)
           end)).

(** ** Properties *)

(** C2. The session table is sound under every interleaving: however many
    connections send whatever they like, and with their handlers interleaved
    at every access to the table, the table has one entry for a name, every
    entry belongs to a connection that is still open, and when that
    connection is between two messages it is the one that carries the
    entry's name; a connection that was closed is in the table no more. *)
Theorem table_sound_under_interleaving `{J : JsonLib} (s : system) :
  reachable s ->
  NoDup (table s).*1
  /\ (forall id c, (id, c) ∈ table s -> id <> [] /\ exists st, conns s !! c = Some st /\ st <> Closed
        /\ forall h, st = Idle h -> id_of h = id)
  /\ (forall c, conns s !! c = Some Closed -> forall id, (id, c) ∉ table s).
Proof.
  intros Hr. assert (sys_inv s) as [Hs He Hc].
  { induction Hr as [|s s' _ IH Hstep]; [|by eapply step_inv]. split; [constructor|..]; simpl.
    - intros id c H. by apply not_elem_of_nil in H.
    - intros c st. by rewrite lookup_empty. }
  split_and!.
  - apply sorted_keys_NoDup, Hs.
  - intros id c Hin. destruct (He _ _ Hin) as [Hne [st Hst]]. split; [done|]. exists st.
    destruct (Hc _ _ Hst) as (me & Hok & Hme). split_and!; [done|intros ->; by apply (Hok id)|].
    intros h ->. simpl in Hok. by rewrite Hok, (Hme _ Hin).
  - intros c Hcl. by destruct (Hc _ _ Hcl) as (me & Hok & _).
Qed.

(** A JSON library for the examples: an object is written with a separator
    behind every key and every value, and a list parses to a value without
    members. *)
Fixpoint pairs_parse (s k : str) (v : option str) : option (list (str * str)) :=
  match s with
  | [] => if bool_decide (k = []) && bool_decide (v = None) then Some [] else None
  | c :: s =>
      match v with
      | None => if bool_decide (c = z2b 1) then pairs_parse s k (Some []) else pairs_parse s (k ++ [c]) None
      | Some v => if bool_decide (c = z2b 2) then ((k, v) ::.) <$> pairs_parse s [] None else pairs_parse s k (Some (v ++ [c]))
      end
  end.
Definition pairs_write (m : list (str * str)) : str := concat (map (fun p => fst p ++ [z2b 1] ++ snd p ++ [z2b 2]) m).
Definition pairs_json : JsonLib := {|
  jvalue := option (list (str * str));
  j_parse s := match s with
    | c :: s => if bool_decide (c = z2b 123) then Some <$> pairs_parse s [] None
                else if bool_decide (c = z2b 91) then Some None else None
    | [] => None
    end;
  j_members v := map fst <$> v;
  j_asString v k := match v with Some m => StdMap.lookup StdString.ltb k m | None => None end;
  j_write m := bs "{" ++ pairs_write m;
|}.
Definition printable (s : str) : Prop := Forall (fun c => 32 <= b2z c < 127) s.

Lemma pairs_parse_key k1 k s : printable k1 -> pairs_parse (k1 ++ s) k None = pairs_parse s (k ++ k1) None.
Proof.
  intros H. revert k. induction H as [|c k1 Hc _ IH]; intros k; simpl; [by rewrite app_nil_r|].
  rewrite bool_decide_false; [by rewrite IH, <- app_assoc|]. intros ->. vm_compute in Hc. by destruct Hc.
Qed.
Lemma pairs_parse_value v1 k v s : printable v1 -> pairs_parse (v1 ++ s) k (Some v) = pairs_parse s k (Some (v ++ v1)).
Proof.
  intros H. revert v. induction H as [|c v1 Hc _ IH]; intros v; simpl; [by rewrite app_nil_r|].
  rewrite bool_decide_false; [by rewrite IH, <- app_assoc|]. intros ->. vm_compute in Hc. by destruct Hc.
Qed.
Lemma pairs_roundtrip m :
  Forall (fun p => printable (fst p) /\ printable (snd p)) m -> pairs_parse (pairs_write m) [] None = Some m.
Proof.
  induction 1 as [|[k v] m [Hk Hv] _ IH]; [done|]. unfold pairs_write in *. simpl in *.
  rewrite <- app_assoc, pairs_parse_key by done. simpl. rewrite <- app_assoc, pairs_parse_value by done. simpl. by rewrite IH.
Qed.

#[global] Instance pairs_json_laws : JsonLaws pairs_json.
Proof.
  refine {| text := printable |}; [done|done|].
  intros m Hs Ht. exists (Some m). split_and!; [|done|].
  - simpl. by rewrite pairs_roundtrip.
  - intros k x Hin. simpl. unfold StdMap.lookup. fold (StdMap.map_sorted StdString.ltb m) in Hs.
    assert (StdMap.find StdString.ltb fst k m = Some (k, x)) as ->; [|done].
    apply (StdMap.find_spec StdString.ltb fst); [done|]. split; [done|]. rewrite StdMap.equivb_string. by apply bool_decide_true.
Defined.

(** A connection's first header, a login and a text. *)
Definition fresh_header : HttpRequest := new_request 0x11 true.
Definition login_text (name : str) : WSFrameMessage :=
  MkMessage TEXT_FRAME (toString (J := pairs_json) (set (bs "name") name (set (bs "type") (bs "login_request") new_message))).
Definition send_request (txt : str) : WSFrameMessage :=
  MkMessage TEXT_FRAME (toString (J := pairs_json) (set (bs "msg") txt (set (bs "type") (bs "send_request") new_message))).

Lemma table_sound_under_interleaving_witness :
  exists s, reachable (J := pairs_json) s /\ table s = [(bs "bob", 1%N)] /\ NoDup (table s).*1.
Proof.
  assert (exists s, reachable (J := pairs_json) s /\ table s = [(bs "bob", 1%N)]) as (s & Hr & Ht).
  - eexists. split.
    + eapply reachable_step; [eapply reachable_step; [eapply reachable_step; [eapply reachable_step; [apply reachable_init|]|]|]|].
      * apply (step_connect _ 1%N fresh_header). reflexivity.
      * apply (step_message _ 1%N fresh_header (bs "12:00") (login_text (bs "bob"))). reflexivity.
      * eapply (step_act _ 1%N); [reflexivity|]. vm_compute. apply act_exists.
      * eapply (step_act _ 1%N); [reflexivity|]. vm_compute. apply act_add.
    + vm_compute. reflexivity.
  - exists s. split; [exact Hr|]. split; [exact Ht|]. exact (proj1 (table_sound_under_interleaving s Hr)).
Defined.

(** C3. When handlers do not interleave and no client sends the header
    ["$id"] in its opening request, the table is exact in every reachable
    state, whatever the clients send: a name is registered for a connection if
    and only if that connection is open and logged in under it.  In
    particular two open connections never share a name, and nobody who is
    logged in is missing.  ([login_race_shares_a_name] and
    [spoofed_id_evicts_user] show that both conditions are needed.) *)
Theorem registration_is_exact `{J : JsonLib} (s : asystem) :
  areachable s ->
  (forall id c, StdMap.lookup StdString.ltb id (a_table s) = Some c <-> (a_conns s !! c) ≫= open_as = Some id)
  /\ (forall c d id, (a_conns s !! c) ≫= open_as = Some id -> (a_conns s !! d) ≫= open_as = Some id -> c = d).
Proof.
  intros Hr. assert (a_inv s) as [Hs He].
  { induction Hr as [|s s' _ IH Hstep]; [|by eapply astep_inv]. split; [constructor|]. intros id c. simpl.
    rewrite lookup_empty. split; done. }
  split; [done|]. intros c d id Hc%He Hd%He. congruence.
Qed.

Lemma registration_is_exact_witness :
  exists s, areachable (J := pairs_json) s /\ StdMap.lookup StdString.ltb (bs "bob") (a_table s) = Some 1%N
    /\ (a_conns s !! 1%N) ≫= open_as = Some (bs "bob").
Proof.
  assert (exists s, areachable (J := pairs_json) s /\ StdMap.lookup StdString.ltb (bs "bob") (a_table s) = Some 1%N) as (s & Hr & Ht).
  - eexists. split.
    + eapply areachable_step; [eapply areachable_step; [apply areachable_init|]|].
      * apply (a_connect _ 1%N fresh_header); reflexivity.
      * eapply (a_message _ 1%N fresh_header (bs "12:00") (login_text (bs "bob"))); [reflexivity|].
        eapply completes_act; [vm_compute; apply act_exists|]. eapply completes_act; [vm_compute; apply act_add|].
        eapply completes_act; [vm_compute; apply act_copy|]. eapply completes_act; [vm_compute; apply (act_send _ _ _ _ 5)|].
        vm_compute. apply completes_done.
    + vm_compute. reflexivity.
  - exists s. split; [exact Hr|]. split; [exact Ht|]. destruct (registration_is_exact s Hr) as [H _]. apply H. exact Ht.
Defined.

(** C1. A text reaches everybody.  When a logged-in client sends a
    [send_request] with a text, [handle] answers 0 and every connection in
    the table, the sender included, is sent exactly one frame with the
    message that carries the sender's name and the text; the sender also gets
    its acknowledgement behind it; nobody else is sent anything and the table
    stays.  A client that receives that frame, in whatever segments, reads
    back the type, the name and the text. *)
Theorem chat_text_reaches_everybody `{J : JsonLib, JL : !JsonLaws J, PF : !Platform}
    (now : str) (header : HttpRequest) (msg : WSFrameMessage) (message : list (str * str)) (c : conn) (w : world (list (str * conn))) :
  let id := id_of header in
  let context := get message (bs "msg") in
  let txt := toString (text_message now id context) in
  let rsp := toString (response (bs "send_response") (bs "200") (bs "ok")) in
  Creat (m_data msg) = Message message -> get message (bs "type") = bs "send_request" ->
  id <> [] -> context <> [] -> text now -> text id -> text context -> zlen txt < 2 ^ 31 - 2 -> zlen rsp < 2 ^ 31 - 2 ->
  NoDup (w_app w).*2 -> (forall d, d ∈ c :: (w_app w).*2 -> exists s, w_streams w !! d = Some s /\ healthy s) ->
  (exists m, Servlet.ws_handle (ChatServlet now) header msg c w = Ret (0, header) (MkWorld m (w_app w))
    /\ forall d s, w_streams w !! d = Some s -> exists s', m !! d = Some s' /\ s_in s' = s_in s
       /\ s_out s' = s_out s ++ (if decide (d ∈ (w_app w).*2) then frame TEXT_FRAME true None txt else [])
                      ++ (if decide (d = c) then frame TEXT_FRAME true None rsp else []))
  /\ (forall r rest max_size, healthy r -> zlen txt < max_size <= 2 ^ 31 -> incoming r = frame TEXT_FRAME true None txt ++ rest ->
       exists r' m', WSRecvMessage 1 true max_size r = Ret (Some (MkMessage TEXT_FRAME txt)) r' /\ incoming r' = rest
         /\ Creat txt = Message m' /\ get m' (bs "type") = bs "msg" /\ get m' (bs "name") = id /\ get m' (bs "msg") = context).
Proof.
  intros id context txt rsp Hm Htype Hid Hctx Tn Ti Tc Zt Zr Hnd Hh.
  assert (txt <> [] /\ rsp <> []) as [Nt Nr] by (split; apply j_write_nonempty). split.
  - destruct (Hh c ltac:(by left)) as (s & Hs & Hhs).
    destruct (run_send now header message c w s) as (m & Em & H); try done; [intros d Hd; apply Hh; by right|].
    exists m. split; [|done]. simpl. unfold handle. rewrite Hm, Htype. by rewrite bool_decide_false, bool_decide_true.
  - intros r rest max_size Hr Hmax Hin. destruct (frame_received max_size txt rest r Hr Nt Hmax Hin) as (r' & E & Hi).
    exists r', (text_message now id context). split_and!; try done.
    apply chat_message_roundtrip; [apply text_message_sorted|by apply text_message_text].
Qed.

Definition c35_world : world (list (str * conn)) :=
  MkWorld (<[1%N := MkStream [] [] [] true]> (<[2%N := MkStream [] [Accept 2] [] true]> (<[3%N := MkStream [] [] [] true]> ∅)))
    [(bs "alice", 2%N); (bs "bob", 1%N)].
Lemma chat_text_reaches_everybody_witness :
  exists m, Servlet.ws_handle (ChatServlet (J := pairs_json) (PF := x86_64) (bs "12:00")) (setHeader ID (bs "bob") fresh_header)
      (send_request (bs "hi")) 1%N c35_world = Ret (0, setHeader ID (bs "bob") fresh_header) (MkWorld m (w_app c35_world))
    /\ exists s', m !! 2%N = Some s' /\ s_out s' = frame TEXT_FRAME true None
         (toString (J := pairs_json) (text_message (bs "12:00") (bs "bob") (bs "hi"))).
Proof.
  assert (forall s, forallb (fun c => (32 <=? b2z c) && (b2z c <? 127)) s = true -> printable s) as Ht.
  { intros s Hs. apply Forall_forall. intros c Hin%list_elem_of_In. rewrite forallb_forall in Hs. apply Hs in Hin. lia. }
  destruct (chat_text_reaches_everybody (J := pairs_json) (PF := x86_64) (bs "12:00") (setHeader ID (bs "bob") fresh_header)
    (send_request (bs "hi")) [(bs "msg", bs "hi"); (bs "type", bs "send_request")] 1%N c35_world) as [(m & E & H) _];
    try (vm_compute; reflexivity); try (vm_compute; discriminate); try (apply Ht; vm_compute; reflexivity).
  - simpl. apply NoDup_cons. split; [set_solver|apply NoDup_singleton].
  - intros d Hd. assert (d = 1%N \/ d = 2%N) as [->| ->] by (simpl in Hd; set_solver).
    + eexists. split; [reflexivity|]. split; repeat constructor.
    + eexists. split; [reflexivity|]. split; repeat constructor; lia.
  - exists m. split; [exact E|]. destruct (H 2%N (MkStream [] [Accept 2] [] true) eq_refl) as (s' & Es & _ & Ho).
    exists s'. split; [exact Es|]. rewrite Ho. vm_compute. reflexivity.
Defined.

(** *** Behaviour outside those conditions *)

(** An executable scheduler: each choice is one step of one connection. *)
Inductive choice := Connect (h : HttpRequest) | Receive (msg : WSFrameMessage) | End | Go (rt : Z).

Section scheduler.
Context `{J : JsonLib} (now : str).

Definition act_fn {X} (v : Z) (t : sessions) (p : prog X) : option (sessions * prog X) :=
  match p with
  | Done _ | Raise _ => None
  | SessionExists id k => Some (t, k (sessionExists id t))
  | SessionAdd id c k => Some (sessionAdd id c t, k)
  | SessionDel id k => Some (sessionDel id t, k)
  | CopySessions k => Some (t, k t)
  | Send _ _ k => Some (t, k v)
  end.

Definition step_fn (s : system) (c : conn) (ch : choice) : option system :=
  match conns s !! c, ch with
  | None, Connect h => Some (MkSystem (table s) (<[c := Idle h]> (conns s)))
  | Some (Idle h), Receive msg => Some (MkSystem (table s) (<[c := Handling (handle now h msg c)]> (conns s)))
  | Some (Idle h), End => Some (MkSystem (table s) (<[c := Closing (onClose now h c)]> (conns s)))
  | Some (Handling (Done r)), Go _ => Some (MkSystem (table s) (<[c := after now c r]> (conns s)))
  | Some (Handling p), Go v =>
      match act_fn v (table s) p with Some (t, p) => Some (MkSystem t (<[c := Handling p]> (conns s))) | None => None end
  | Some (Closing (Done r)), Go _ => Some (MkSystem (table s) (<[c := Closed]> (conns s)))
  | Some (Closing p), Go v =>
      match act_fn v (table s) p with Some (t, p) => Some (MkSystem t (<[c := Closing p]> (conns s))) | None => None end
  | _, _ => None
  end.

Fixpoint schedule (l : list (conn * choice)) (s : system) : option system :=
  match l with [] => Some s | (c, ch) :: l => match step_fn s c ch with Some s => schedule l s | None => None end end.

Lemma act_fn_act {X} v t (p : prog X) t' p' : act_fn v t p = Some (t', p') -> act t p t' p'.
Proof. destruct p; simpl; intros [= <- <-]; constructor. Qed.

Lemma step_fn_step s c ch s' : step_fn s c ch = Some s' -> step s s'.
Proof.
  unfold step_fn. destruct (conns s !! c) as [[h|p|p|]|] eqn:E; [| | |done|].
  - destruct ch; intros [= <-]; [by apply step_message|by apply step_end].
  - destruct ch; [by destruct p..|].
    destruct p as [r| | | | | |]; [intros [= <-]; by apply step_done|..];
      (destruct (act_fn _ (table s) _) as [[t p']|] eqn:Ea; [intros [= <-]; eapply step_act; [done|by eapply act_fn_act]|done]).
  - destruct ch; [by destruct p..|].
    destruct p as [r| | | | | |]; [intros [= <-]; by eapply step_closed|..];
      (destruct (act_fn _ (table s) _) as [[t p']|] eqn:Ea; [intros [= <-]; eapply step_close_act; [done|by eapply act_fn_act]|done]).
  - destruct ch; intros [= <-]. by apply step_connect.
Qed.

Lemma schedule_reachable l s s' : schedule l s = Some s' -> reachable s -> reachable s'.
Proof.
  revert s. induction l as [|[c ch] l IH]; intros s; simpl; [by intros [= <-]|].
  destruct (step_fn s c ch) as [s1|] eqn:E; [|done]. intros H Hr. eapply IH; [done|]. eapply reachable_step; [done|by eapply step_fn_step].
Qed.
End scheduler.

(** The name of an idle connection. *)
Definition idle_as (s : system) (c : conn) : option str :=
  match conns s !! c with Some (Idle h) => Some (id_of h) | _ => None end.

Definition c_login (name : str) : choice := Receive (login_text name).

(** Two connections may ask for the same name at once, both find it free and
    both log in: the first is idle as "bob", but the table has the second. *)
Theorem login_race_shares_a_name :
  exists s, reachable (J := pairs_json) s /\ table s = [(bs "bob", 2%N)] /\ idle_as s 1%N = Some (bs "bob").
Proof.
  destruct (schedule (J := pairs_json) (bs "12:00")
    [(1%N, Connect fresh_header); (2%N, Connect fresh_header); (1%N, c_login (bs "bob")); (2%N, c_login (bs "bob"));
     (1%N, Go 0); (2%N, Go 0); (1%N, Go 0); (2%N, Go 0);
     (1%N, Go 0); (1%N, Go 9); (1%N, Go 9); (1%N, Go 0)] init) as [s|] eqn:E; [|by vm_compute in E].
  exists s. split; [eapply schedule_reachable; [exact E|apply reachable_init]|].
  vm_compute in E. injection E as <-. by vm_compute.
Qed.

(** The header ["$id"] is taken from the client's request: a connection that
    sends it is logged in without a login, and when it closes it removes the
    user of that name, who is still connected. *)
Theorem spoofed_id_evicts_user :
  exists s, reachable (J := pairs_json) s /\ table s = [] /\ idle_as s 1%N = Some (bs "bob").
Proof.
  destruct (schedule (J := pairs_json) (bs "12:00")
    [(1%N, Connect fresh_header); (1%N, c_login (bs "bob")); (1%N, Go 0); (1%N, Go 0); (1%N, Go 0); (1%N, Go 9); (1%N, Go 0);
     (2%N, Connect (setHeader ID (bs "bob") fresh_header)); (2%N, End); (2%N, Go 0)] init) as [s|] eqn:E; [|by vm_compute in E].
  exists s. split; [eapply schedule_reachable; [exact E|apply reachable_init]|].
  vm_compute in E. injection E as <-. by vm_compute.
Qed.

(** A text that is not JSON removes the sender at once, and a second time
    when its connection closes: a user who took the name in between is
    removed. *)
Theorem malformed_message_evicts_successor :
  exists s, reachable (J := pairs_json) s /\ table s = [] /\ idle_as s 2%N = Some (bs "bob").
Proof.
  destruct (schedule (J := pairs_json) (bs "12:00")
    [(1%N, Connect fresh_header); (1%N, c_login (bs "bob")); (1%N, Go 0); (1%N, Go 0); (1%N, Go 0); (1%N, Go 9); (1%N, Go 0);
     (1%N, Receive (MkMessage TEXT_FRAME (bs "oops"))); (1%N, Go 0);
     (2%N, Connect fresh_header); (2%N, c_login (bs "bob")); (2%N, Go 0); (2%N, Go 0); (2%N, Go 0); (2%N, Go 9); (2%N, Go 0);
     (1%N, Go 0); (1%N, Go 0)] init) as [s|] eqn:E; [|by vm_compute in E].
  exists s. split; [eapply schedule_reachable; [exact E|apply reachable_init]|].
  vm_compute in E. injection E as <-. by vm_compute.
Qed.

(** A text that parses but is no object throws out of [handle]; no caller
    catches it. *)
Theorem json_list_throws (now : str) (h : HttpRequest) (c : conn) :
  handle (J := pairs_json) now h (MkMessage TEXT_FRAME (bs "[]")) c = Raise LogicError.
Proof. reflexivity. Qed.

End Chat.
