(* ===== verification/Application.v ===== *)
(** * Starting the program: [luwu/luwu/application.cpp], [daemon.cpp], the
      configuration of a server ([tcp_server.h]) and [chat/my_module.cc]

    The command line is [Env], the servers are [TcpServer] with the dispatch of
    [Servlet].  The directory of configuration files, the pid file, the resolver
    and the kernel are arguments.  Each server carries the kernel as it was when
    the server was bound; the current one is in the application. *)
From S2P Require Import Prelude StdString Address Env FdManager Hook Socket TcpServer Http WebSocket Servlet Server Chat.
Import StdString Address Socket TcpServer.
Local Open Scope Z_scope.

Module Application.

(** ** [Application::init] *)
Definition helps : list (str * str) :=
  [(bs "s", bs "start with the terminal"); (bs "d", bs "run as daemon"); (bs "c", bs "conf path default: ./conf"); (bs "p", bs "print help")].

Inductive verdict :=
| Started
| Help (text : str)  (* the help was printed *)
| Running (pid_file : str)
| NoWorkPath (path : str).
Definition answer (v : verdict) : bool := match v with Started => true | _ => false end.

Section init.
(** The target of [/proc/<pid>/exe]; the values of [server.work_path] and
    [server.pid_file] once a directory is loaded; [FSUtil::IsRunningPidfile]
    and [FSUtil::Mkdir]. *)
Context (exe : str) (loaded : str -> str * str) (is_running mkdir : str -> bool).

Definition init (argv : list str) (env : Env.Env) : outcome unit (verdict * Env.Env) :=
  let env := fold_left (fun e h => Env.addHelp (fst h) (snd h) e) helps env in
  let* r, u := Env.init exe argv env in
  let '(ok, env) := r in
  if negb ok then Ret (Help (Env.printHelp env), env) u
  else if Env.has (bs "p") env then Ret (Help (Env.printHelp env), env) u
  else
    let '(work_path, pid) := loaded (Env.getConfigPath env) in
    let run_type := if Env.has (bs "s") env then 1 else 0 in
    let run_type := if Env.has (bs "d") env then 2 else run_type in
    if run_type =? 0 then Ret (Help (Env.printHelp env), env) u
    else
      let pid_file := work_path ++ bs "/" ++ pid in
      if is_running pid_file then Ret (Running pid_file, env) u
      else if negb (mkdir work_path) then Ret (NoWorkPath work_path, env) u
      else Ret (Started, env) u.
End init.

(** ** The supervisor: [real_daemon]

    What [fork] and [waitpid] give, one entry per round. *)
Inductive forked := InChild (pid start_time : Z) | ForkFailed | Waited (status : Z).
Record ProcessInfo := MkInfo { parent_id : Z; main_id : Z; parent_start_time : Z; main_start_time : Z; restart_count : Z }.

Fixpoint daemon_loop (main_cb : Z) (forks : list forked) (p : ProcessInfo) : outcome ProcessInfo Z :=
  match forks with
  | [] => NoFuel
  | InChild pid t :: _ => Ret main_cb (MkInfo (parent_id p) pid (parent_start_time p) t (restart_count p))
  | ForkFailed :: _ => Ret (-1) p
  | Waited status :: forks =>
      if status =? 0 then Ret 0 p
      else daemon_loop main_cb forks (MkInfo (parent_id p) (main_id p) (parent_start_time p) (main_start_time p) (u32 (restart_count p + 1)))
  end.
Definition real_daemon (main_cb pid start_time : Z) (forks : list forked) (p : ProcessInfo) : outcome ProcessInfo Z :=
  daemon_loop main_cb forks (MkInfo pid (main_id p) start_time (main_start_time p) (restart_count p)).
Definition start_daemon (main_cb pid start_time : Z) (is_daemon : bool) (forks : list forked) (p : ProcessInfo) : outcome ProcessInfo Z :=
  if negb is_daemon then Ret main_cb p else real_daemon main_cb pid start_time forks p.
(** [Application::run] *)
Definition run (main_cb pid start_time : Z) (env : Env.Env) (forks : list forked) (p : ProcessInfo) : outcome ProcessInfo Z :=
  start_daemon main_cb pid start_time (Env.has (bs "d") env) forks p.
(** ** [Application::run_fiber] *)
Record TcpServerConf := MkConf { address : list str; keepalive : Z; timeout : Z; type : str; conf_name : str }.
Definition default_conf : TcpServerConf := MkConf [] 0 (1000 * 2 * 60) (bs "http") [].

Inductive kind := HttpServer (m_keepalive : bool) | WSServer.

Section app.
Context `{K : Kernel, PF : !Platform} {A : Type}.
Context (numeric : str -> option sockaddr) (getaddrinfo : str -> option str -> Z -> Z -> Z -> option (list sockaddr)) (getifaddrs : option (list ifaddr)).
(** The value of a string that was moved from. *)
Context (moved : str).

Abbreviation dispatch := (@Servlet.dispatch (Server.world A) Server.conn).
Record server := MkServer { tcp : TCPServer; class : kind; m_dispatch : dispatch }.
Record app := MkApp { m_servers : gmap str (list server); a_kernel : kst }.
Inductive result := Finished | Exited.

(** The addresses of an entry of [address]; [None] inside is a null pointer, and
    outside the end of the process. *)
Definition resolve_one (a : str) : outcome unit (option (list (option Address))) :=
  match find (z2b 58) a 0 with
  | None => let* x, u := Unix a in Ret (Some [Some x]) u
  | Some pos =>
      let port := atoi (substr_to_end a (pos + 1)) in
      match IPAddress_Create numeric (c_str (substr a 0 pos)) (u16 (s16 port)) with
      | Some x => Ret (Some [Some x]) tt
      | None =>
          let* r, u := GetInterfaceAddress getifaddrs (substr a 0 pos) AF_INET in
          match r with
          | Some l => Ret (Some (map (fun x => if is_ip (fst x) then Some (setPort (u16 port) (fst x)) else None) l)) u
          | None => Ret match LookupAny getaddrinfo a AF_INET 0 0 with Some x => Some [Some x] | None => None end u
          end
      end
  end.
Fixpoint resolve_all (l : list str) : outcome unit (option (list (option Address))) :=
  match l with
  | [] => Ret (Some []) tt
  | a :: l =>
      let* x, u := resolve_one a in
      match x with
      | None => Ret None u
      | Some x => let* y, u := resolve_all l in Ret match y with Some y => Some (x ++ y) | None => None end u
      end
  end.

Definition make_server (c : TcpServerConf) (k : kst) : option server :=
  if bool_decide (type c = bs "http") then Some (MkServer (new_server k) (HttpServer (negb (keepalive c =? 0))) Servlet.ServletDispatch)
  else if bool_decide (type c = bs "ws") then Some (MkServer (new_server k) WSServer Servlet.ServletDispatch)
  else None.
(** The virtual [setName]. *)
Definition set_name (n : str) (s : server) : server :=
  MkServer (TcpServer.setName n (tcp s)) (class s)
    match class s with HttpServer _ => Servlet.setDefault (Some (Servlet.ServletNotFound moved)) (m_dispatch s) | WSServer => m_dispatch s end.
Definition push_server (t : str) (s : server) (k : kst) (st : app) : app :=
  MkApp (<[t := default [] (m_servers st !! t) ++ [s]]> (m_servers st)) k.

(** The second half of the loop: name, bind, keep and start a server. *)
Definition launch (i : TcpServerConf) (addresses : list (option Address)) (server : server) : M app bool := fun st =>
  let server := if bool_decide (conf_name i = []) then server else set_name (conf_name i) server in
  match mapM (fun a => a) addresses with
  | None => UB
  | Some addresses =>
      let '(ok, v) := bind_all addresses (tcp server) in
      if ok : bool then Ret true (push_server (type i) (MkServer (snd (start v)) (class server) (m_dispatch server)) (kernel v) st)
      else Ret false (MkApp (m_servers st) (kernel v))
  end.
Fixpoint run_fiber (confs : list TcpServerConf) : M app result := fun st =>
  match confs with
  | [] => Ret Finished st
  | i :: confs =>
      match resolve_all (address i) with
      | Throw e _ => Throw e st
      | UB => UB
      | NoFuel => NoFuel
      | Ret None _ => Ret Exited st
      | Ret (Some addresses) _ =>
          match make_server i (a_kernel st) with
          | None => Ret Exited st
          | Some server => let* ok, st := launch i addresses server st in if ok : bool then run_fiber confs st else Ret Exited st
          end
      end
  end.
Definition new_app (k : kst) : app := MkApp ∅ k.
(** [Application::main] on the loaded configuration: the status of the process and
    the files written.  [return false] and [_exit(0)] give 0 as well. *)
Definition main (can_open : str -> bool) (pid : Z) (work_path pid_file : str) (confs : list TcpServerConf) : M app (Z * list (str * str)) := fun st =>
  let path := work_path ++ bs "/" ++ pid_file in
  if can_open path then let* r, st := run_fiber confs st in Ret (0, [(path, to_string pid)]) st else Ret (0, []) st.

Definition getServer (t : str) (st : app) : option (list server) := m_servers st !! t.

(** ** The chat module: [MyModule::onServerReady]

    A server that is not of the class cast to gives a null pointer, which is
    then used. *)
Definition wire_http (resource : @Servlet.servlet (Server.world A) Server.conn) (s : server) : option server :=
  match class s with
  | HttpServer _ => Some (MkServer (tcp s) (class s) (Servlet.addGlobServlet (bs "/html/*") (Some resource) (m_dispatch s)))
  | WSServer => None
  end.
Definition wire_ws (chat : @Servlet.servlet (Server.world A) Server.conn) (s : server) : option server :=
  match class s with
  | WSServer => Some (MkServer (tcp s) (class s) (Servlet.addServlet (bs "/liucxi/chat") (Some chat) (m_dispatch s)))
  | HttpServer _ => None
  end.
Definition onServerReady (resource chat : @Servlet.servlet (Server.world A) Server.conn) : M app bool := fun st =>
  match getServer (bs "http") st with
  | None => Ret false st
  | Some servs =>
      match mapM (wire_http resource) servs with
      | None => UB
      | Some servs =>
          let st := MkApp (<[bs "http" := servs]> (m_servers st)) (a_kernel st) in
          match getServer (bs "ws") st with
          | None => Ret false st
          | Some servs =>
              match mapM (wire_ws chat) servs with
              | None => UB
              | Some servs => Ret true (MkApp (<[bs "ws" := servs]> (m_servers st)) (a_kernel st))
              end
          end
      end
  end.
End app.
Arguments server {K} A.
Arguments app {K} A.

(** The servlets that the module makes. *)
Definition ResourceServlet {W Session : Type} (open : str -> option (list str)) (cwd : str) : @Servlet.servlet W Session :=
  Servlet.Plain (bs "ResourceServlet") (Chat.resource_handle open cwd).
Definition ChatServlet `{J : Chat.JsonLib, PF : !Platform} (now : str) : @Servlet.servlet (Server.world Chat.sessions) Server.conn :=
  Servlet.WS (bs "ChatServlet") (Chat.ChatServlet now).

(** ** What is running after [run_fiber] *)
Section serving.
Context `{K : Kernel, L : !KernelLaws K, N : !ListenLaws K, PF : !Platform} {A : Type}.
Context (numeric : str -> option sockaddr) (getaddrinfo : str -> option str -> Z -> Z -> Z -> option (list sockaddr)) (getifaddrs : option (list ifaddr)) (moved : str).
Abbreviation resolve_all := (resolve_all numeric getaddrinfo getifaddrs).
Abbreviation run_fiber := (run_fiber (A := A) numeric getaddrinfo getifaddrs moved).

(** A server that an entry of the configuration asked for, in the kernel [k]: of
    its class, under its name, started, and with a socket for each address that
    the text of the entry resolves to, bound to that address and listening. *)
Record served (k : kst) (c : TcpServerConf) (s : server A) : Prop := {
  sv_class : (type c = bs "http" /\ class s = HttpServer (negb (keepalive c =? 0))) \/ (type c = bs "ws" /\ class s = WSServer);
  sv_name : m_name (tcp s) = (if bool_decide (conf_name c = []) then bs "luwu/1.0.0" else conf_name c);
  sv_started : m_stop (tcp s) = false /\ accept_tasks (tcp s) = map StartAccept (m_socks (tcp s));
  sv_sockets : exists l, resolve_all (address c) = Ret (Some (map Some l)) tt /\ Forall2 (serves k (tcp s)) (m_socks (tcp s)) l;
  sv_globs : Servlet.m_data (m_dispatch s) = ∅ /\ Servlet.m_glob (m_dispatch s) = [];
}.
Lemma served_kept k k' c s : kept k k' -> served k c s -> served k' c s.
Proof.
  intros Hk [H1 H2 H3 (l & Hl & Hf) H5]. split; try done. exists l. split; [done|]. eapply Forall2_impl; [exact Hf|].
  intros i a. by apply serves_kept.
Qed.
(** Why an entry ends the process, in the kernel [k] at that time. *)
Definition refused (c : TcpServerConf) (k : kst) : Prop :=
  resolve_all (address c) = Ret None tt \/ (type c <> bs "http" /\ type c <> bs "ws")
  \/ exists l, resolve_all (address c) = Ret (Some (map Some l)) tt /\ fst (bind_all l (new_server k)) = false.
(** The addresses of an entry can be told, or that one does not resolve: the path
    of a Unix socket that is too long throws, and an interface without an address
    is dereferenced. *)
Definition resolvable (c : TcpServerConf) : bool :=
  match resolve_all (address c) with Ret (Some l) _ => forallb (fun a => bool_decide (is_Some a)) l | Ret None _ => true | _ => false end.

Lemma bind_all_setName n l v : bind_all l (TcpServer.setName n v) = (fst (bind_all l v), TcpServer.setName n (snd (bind_all l v))).
Proof.
  revert v. induction l as [|a l IH]; intros v; cbn [bind_all]; [done|].
  assert (bind a (TcpServer.setName n v) = (fst (bind a v), TcpServer.setName n (snd (bind a v)))) as ->.
  { unfold bind. cbn. destruct (Socket.bind _ _) as [[|] st]; [destruct (listen _ _) as [[|] [? ?]]|destruct st]; done. }
  destruct (bind a v) as [[|] v']; cbn; [apply IH|]. f_equal. unfold clear. cbn [m_socks TcpServer.setName].
  assert (forall l v, fold_left release l (TcpServer.setName n v) = TcpServer.setName n (fold_left release l v)) as Hr.
  { intros l'. induction l' as [|i l' IH']; intros w; cbn [fold_left]; [done|]. rewrite <- IH'. f_equal. unfold release. cbn. destruct (existsb _ _); [done|]. by destruct (heap w !! i). }
  rewrite Hr. done.
Qed.
Lemma mapM_all {X} (l : list (option X)) l' : mapM (fun a => a) l = Some l' -> l = map Some l'.
Proof. intros H%mapM_Some. induction H as [|x y l l' Hx _ IH]; cbn; by subst. Qed.

Lemma make_server_spec c k (s : server A) :
  make_server c k = Some s ->
  ((type c = bs "http" /\ class s = HttpServer (negb (keepalive c =? 0))) \/ (type c = bs "ws" /\ class s = WSServer))
  /\ tcp s = new_server k /\ m_dispatch s = Servlet.ServletDispatch.
Proof. unfold make_server. case_bool_decide; [intros [= <-]; naive_solver|]. case_bool_decide; [intros [= <-]; naive_solver|done]. Qed.
Lemma named_server c k (s : server A) :
  tcp s = new_server k -> m_dispatch s = Servlet.ServletDispatch ->
  let s' := if bool_decide (conf_name c = []) then s else set_name moved (conf_name c) s in
  class s' = class s /\ tcp s' = TcpServer.setName (if bool_decide (conf_name c = []) then bs "luwu/1.0.0" else conf_name c) (new_server k)
  /\ Servlet.m_data (m_dispatch s') = ∅ /\ Servlet.m_glob (m_dispatch s') = [].
Proof. intros Ht Hd. cbv zeta. case_bool_decide; [by rewrite Ht, Hd|]. unfold set_name. cbn. rewrite Ht, Hd. by destruct (class s). Qed.
(** The server that is launched serves its entry. *)
Lemma launch_spec c addrs (s : server A) (st : app A) ok st' :
  resolve_all (address c) = Ret (Some addrs) tt -> make_server c (a_kernel st) = Some s -> launch moved c addrs s st = Ret ok st' ->
  kept (a_kernel st) (a_kernel st')
  /\ if ok then exists s', served (a_kernel st') c s' /\ st' = push_server (type c) s' (a_kernel st') st
     else m_servers st' = m_servers st /\ refused c (a_kernel st).
Proof.
  intros Hr (Hcl & Ht & Hd)%make_server_spec. destruct (named_server c _ s Ht Hd) as (Hcl' & Htcp & Hdata & Hglob). unfold launch.
  set (s' := if bool_decide _ then s else _) in *. cbv zeta. destruct (mapM _ addrs) as [l|] eqn:Hl; [|done]. apply mapM_all in Hl as ->.
  rewrite Htcp, bind_all_setName. pose proof (bind_all_good (open (a_kernel st)) l _ (new_good _) eq_refl) as Hbind.
  pose proof (bind_all_net (open (a_kernel st)) l _ (new_good _) eq_refl) as Hnet.
  destruct (bind_all l (new_server (a_kernel st))) as [[|] v] eqn:Hv; cbn [fst snd].
  - destruct Hbind as (_ & Hta & Hst & _). destruct Hnet as (Hk & new & Hs & Hf & _). cbn in Hs, Hst, Hk. intros [= <- <-]. split; [exact Hk|].
    eexists. split; [|done].
    unfold start. cbn [m_stop TcpServer.setName]. rewrite Hst. split; cbn; try done; [by rewrite Hcl'|by rewrite Hta|].
    exists l. split; [done|]. rewrite Hs. exact Hf.
  - intros [= <- <-]. destruct Hbind as (_ & _ & Ho). cbn in Hnet. split.
    + intros fd Hfd Hin. cbn. rewrite Ho. split; [done|]. by apply Hnet.
    + split; [done|]. right; right. exists l. split; [done|]. by rewrite Hv.
Qed.
(** One entry: the process ends, or a server is added. *)
Lemma run_one c (confs : list TcpServerConf) (st : app A) r st' :
  run_fiber (c :: confs) st = Ret r st' ->
  (r = Exited /\ m_servers st' = m_servers st /\ kept (a_kernel st) (a_kernel st') /\ refused c (a_kernel st))
  \/ exists s k, served k c s /\ kept (a_kernel st) k /\ (forall l, run_fiber (c :: l) st = run_fiber l (push_server (type c) s k st))
     /\ run_fiber confs (push_server (type c) s k st) = Ret r st'.
Proof.
  cbn [Application.run_fiber]. destruct (resolve_all (address c)) as [[addrs|] [] | | |] eqn:Hr; try done; [|intros [= <- <-]; left; split_and!; [done|done|done|by left]].
  destruct (make_server c (a_kernel st)) as [s|] eqn:Hm.
  - destruct (launch moved c addrs s st) as [ok st1| | |] eqn:Hl; try done. cbn [obind]. destruct (launch_spec c addrs s st ok st1 Hr Hm Hl) as [Hk Hs].
    destruct ok; [|intros [= <- <-]; left; naive_solver]. destruct Hs as (s' & Hs & E). intros Hrun. right. exists s', (a_kernel st1).
    split; [done|]. split; [done|]. rewrite <- E. done.
  - unfold make_server in Hm. case_bool_decide; [done|]. case_bool_decide; [done|]. intros [= <- <-]. left. split_and!; [done|done|done|]. right; by left.
Qed.
(** The loop ends, on every configuration with addresses that can be told. *)
Lemma launch_returns c addrs (s : server A) (st : app A) :
  forallb (fun a => bool_decide (is_Some a)) addrs = true -> exists ok st', launch moved c addrs s st = Ret ok st'.
Proof.
  intros Ha. unfold launch. assert (is_Some (mapM (fun a => a) addrs)) as [l ->].
  { apply mapM_is_Some, Forall_forall. intros a Hin%list_elem_of_In. apply (proj1 (forallb_forall _ _) Ha), bool_decide_eq_true in Hin. exact Hin. }
  cbv zeta. destruct (bind_all _ _) as [[|] v]; eauto.
Qed.
Lemma run_returns (confs : list TcpServerConf) (st : app A) : forallb resolvable confs = true -> exists r st', run_fiber confs st = Ret r st'.
Proof.
  revert st. induction confs as [|c confs IH]; intros st; [by eauto|]. intros [Hc Hcs]%andb_true_iff. cbn [Application.run_fiber]. unfold resolvable in Hc.
  destruct (resolve_all (address c)) as [[addrs|] [] | | |]; try done; [|by eauto]. destruct (make_server c (a_kernel st)) as [s|]; [|by eauto].
  destruct (launch_returns c addrs s st Hc) as ([|] & st' & ->); cbn [obind]; eauto.
Qed.
Lemma run_fails (confs : list TcpServerConf) (st : app A) :
  (forall r st', run_fiber confs st <> Ret r st') -> exists c, c ∈ confs /\ resolvable c = false.
Proof.
  intros Hn. destruct (forallb resolvable confs) eqn:E.
  - destruct (run_returns confs st E) as (r & st' & H). by destruct (Hn r st').
  - clear Hn. induction confs as [|c confs IH]; [done|]. apply andb_false_iff in E as [E|E]; [exists c; split; [by left|done]|].
    destruct (IH E) as (d & Hd & Hr). exists d. split; [by right|done].
Qed.

Definition servers (st : app A) (t : str) : list (server A) := default [] (m_servers st !! t).
Lemma servers_push t s k st u : servers (push_server t s k st) u = servers st u ++ (if bool_decide (t = u) then [s] else []).
Proof.
  unfold servers, push_server. cbn. case_bool_decide as E; [subst; by rewrite lookup_insert_eq|]. by rewrite lookup_insert_ne, app_nil_r.
Qed.

Lemma run_all (confs : list TcpServerConf) (st : app A) r st' :
  run_fiber confs st = Ret r st' ->
  exists done rest, confs = done ++ rest /\ kept (a_kernel st) (a_kernel st')
    /\ (forall t, exists new, servers st' t = servers st t ++ new /\ Forall2 (served (a_kernel st')) (filter (fun c => type c = t) done) new)
    /\ (forall t, is_Some (m_servers st' !! t) <-> is_Some (m_servers st !! t) \/ exists c, c ∈ done /\ type c = t)
    /\ match r with
       | Finished => rest = []
       | Exited => exists c rest' st1, rest = c :: rest' /\ run_fiber done st = Ret Finished st1 /\ refused c (a_kernel st1)
       end.
Proof.
  revert st. induction confs as [|c confs IH]; intros st Hrun.
  - injection Hrun as <- <-. exists [], []. split_and!; [done|done| | |done].
    + intros t. exists []. rewrite app_nil_r. by split; [|constructor].
    + intros t. set_solver.
  - apply run_one in Hrun as [(-> & Hs & Hk & Hr)|(s & k & Hsv & Hk & Heq & Hrun)].
    + exists [], (c :: confs). split_and!; [done|done| | |by exists c, confs, st].
      * intros t. exists []. unfold servers. rewrite Hs, app_nil_r. by split; [|constructor].
      * intros t. rewrite Hs. set_solver.
    + apply IH in Hrun as (done & rest & -> & Hk' & Hnew & Hsome & Hres). cbn in Hk'. exists (c :: done), rest. split_and!; [done|by etrans| | |].
      * intros t. destruct (Hnew t) as (new & Hnew_eq & Hf). rewrite servers_push in Hnew_eq.
        exists ((if bool_decide (type c = t) then [s] else []) ++ new). rewrite Hnew_eq, app_assoc. split; [done|].
        rewrite filter_cons. case_decide as Ht; [rewrite bool_decide_true by done; constructor; [by eapply served_kept|done]|by rewrite bool_decide_false].
      * intros t. rewrite Hsome. unfold push_server. cbn. destruct (decide (type c = t)) as [<-|Hne].
        { rewrite lookup_insert_eq. split; [|by intros _; left]. intros _. right. exists c. split; [by left|done]. }
        rewrite lookup_insert_ne by done. split; [intros [?|(d & Hd & Hdt)]; [by left|right; exists d; split; [by right|done]]|].
        intros [?|(d & [->|Hd]%elem_of_cons & Hdt)]; [by left|done|right; eauto].
      * destruct r; [done|]. destruct Hres as (d & rest' & st1 & -> & Hst1 & Hd). exists d, rest', st1. by rewrite Heq.
Qed.

(** *** The module *)
Lemma served_wire_http resource k c (s : server A) :
  served k c s -> type c = bs "http" -> exists s', wire_http resource s = Some s' /\ tcp s' = tcp s
    /\ Servlet.m_data (m_dispatch s') = ∅ /\ Servlet.m_glob (m_dispatch s') = [(bs "/html/*", Some resource)].
Proof.
  intros [Hc _ _ _ [Hd Hg]] Ht. destruct Hc as [[_ Hc]|[Hw _]]; [|by rewrite Hw in Ht]. unfold wire_http. rewrite Hc. eexists. split; [done|]. cbn. by rewrite Hd, Hg.
Qed.
Lemma served_wire_ws chat k c (s : server A) :
  served k c s -> type c = bs "ws" -> exists s', wire_ws chat s = Some s' /\ tcp s' = tcp s
    /\ Servlet.m_data (m_dispatch s') = {[bs "/liucxi/chat" := Some chat]}.
Proof.
  intros [Hc _ _ _ [Hd Hg]] Ht. destruct Hc as [[Hw _]|[_ Hc]]; [by rewrite Hw in Ht|]. unfold wire_ws. rewrite Hc. eexists. split; [done|]. cbn. by rewrite Hd.
Qed.
Lemma wire_all (f : server A -> option (server A)) (P : server A -> Prop) k t confs (l : list (server A)) :
  (forall c s, served k c s -> type c = t -> exists s', f s = Some s' /\ tcp s' = tcp s /\ P s') ->
  Forall2 (served k) (filter (fun c => type c = t) confs) l -> exists l', mapM f l = Some l' /\ map tcp l' = map tcp l /\ Forall P l'.
Proof.
  intros Hf Hl. assert (Forall (fun c => type c = t) (filter (fun c => type c = t) confs)) as Ht by (apply Forall_forall; intros c Hc%list_elem_of_filter; naive_solver).
  induction Hl as [|c s cs l Hs _ IH]; [by exists []|]. apply Forall_cons in Ht as [Ht Hts]. destruct (IH Hts) as (l' & Hl' & Htcp & HP).
  destruct (Hf c s Hs Ht) as (s' & Hs' & Hts' & HPs). exists (s' :: l'). cbn. rewrite Hs'. cbn. rewrite Hl'. cbn. split; [done|]. split; [congruence|by constructor].
Qed.
End serving.

(** C40. Servers are started as configured.  When [run_fiber] gets through the
    configuration, the servers of each type are those of its entries of that
    type, in order, each of its class and name, started, and with one socket per
    address that the text of the entry resolves to, which is bound to that
    address and still listens at the end; [getServer] finds a type exactly when
    an entry has it.  Otherwise [run_fiber] ends the process at the first entry
    with an address that does not resolve, an unknown type, or an address that
    cannot be bound in the kernel as the entries before have left it, and the
    servers of those entries run.  There is no third outcome, unless for an entry
    the addresses cannot even be told ([resolvable]).  (What a text resolves to is
    the matter of [resolve_all]: a host name resolves to no address,
    [host_name_serves_nothing].) *)
Theorem application_serves `{K : Kernel, L : !KernelLaws K, N : !ListenLaws K, PF : !Platform} {A : Type}
    (numeric : str -> option sockaddr) (getaddrinfo : str -> option str -> Z -> Z -> Z -> option (list sockaddr)) (getifaddrs : option (list ifaddr)) (moved : str)
    (confs : list TcpServerConf) (k : kst) :
  match run_fiber numeric getaddrinfo getifaddrs moved confs (new_app (A := A) k) with
  | Ret r st =>
      exists done rest, confs = done ++ rest
      /\ (forall t, Forall2 (served numeric getaddrinfo getifaddrs (a_kernel st)) (filter (fun c => type c = t) done) (default [] (getServer t st)))
      /\ (forall t, is_Some (getServer t st) <-> exists c, c ∈ done /\ type c = t)
      /\ match r with
         | Finished => rest = []
         | Exited => exists c rest' (st1 : app A), rest = c :: rest'
             /\ run_fiber numeric getaddrinfo getifaddrs moved done (new_app k) = Ret Finished st1 /\ refused numeric getaddrinfo getifaddrs c (a_kernel st1)
         end
  | _ => exists c, c ∈ confs /\ resolvable numeric getaddrinfo getifaddrs c = false
  end.
Proof.
  pose proof (run_fails (A := A) numeric getaddrinfo getifaddrs moved confs (new_app k)) as Hfails.
  destruct (run_fiber _ _ _ _ confs _) as [r st| | |] eqn:Hrun; [clear Hfails|by apply Hfails..].
  apply run_all in Hrun as (d & rest & -> & _ & Hnew & Hsome & Hres). exists d, rest. split_and!; [done| | |done].
  - intros t. destruct (Hnew t) as (new & Heq & Hf). unfold servers in Heq. cbn in Heq. rewrite lookup_empty in Heq. cbn in Heq. unfold getServer. by rewrite Heq.
  - intros t. unfold getServer. rewrite Hsome. cbn. rewrite lookup_empty. split; [|by right]. intros [[? ?]|?]; done.
Qed.

(** The two servlets answer for their paths on a server that was wired. *)
Definition serves_html `{K : Kernel} {A : Type} (fnmatch : str -> str -> bool) resource (s : server A) : Prop :=
  forall uri, fnmatch (bs "/html/*") (c_str uri) = true -> Servlet.getMatchedServlet fnmatch (m_dispatch s) uri = Some resource.
Definition serves_chat `{K : Kernel} {A : Type} (fnmatch : str -> str -> bool) chat (s : server A) : Prop :=
  Servlet.getMatchedServlet fnmatch (m_dispatch s) (bs "/liucxi/chat") = Some chat.

Section module.
Context `{K : Kernel, L : !KernelLaws K, N : !ListenLaws K, PF : !Platform} {A : Type} (k : kst).
Context (numeric : str -> option sockaddr) (getaddrinfo : str -> option str -> Z -> Z -> Z -> option (list sockaddr)) (getifaddrs : option (list ifaddr)).
Abbreviation served := (served (A := A) numeric getaddrinfo getifaddrs k).
Context (fnmatch : str -> str -> bool) (resource chat : @Servlet.servlet (Server.world A) Server.conn).

Lemma wire_all_http confs l :
  Forall2 served (filter (fun c => type c = bs "http") confs) l ->
  exists l', mapM (wire_http resource) l = Some l' /\ map tcp l' = map tcp l /\ Forall (serves_html fnmatch resource) l'.
Proof.
  apply (wire_all numeric getaddrinfo getifaddrs). intros c s Hs Ht. destruct (served_wire_http _ _ _ resource k c s Hs Ht) as (s' & Hw & Htcp & Hd & Hg).
  exists s'. split_and!; [done|done|]. intros uri Hm. unfold Servlet.getMatchedServlet. rewrite Hd, Hg, lookup_empty. cbn [Servlet.find_glob].
  change (c_str (bs "/html/*")) with (bs "/html/*"). by rewrite Hm.
Qed.
Lemma wire_all_ws confs l :
  Forall2 served (filter (fun c => type c = bs "ws") confs) l ->
  exists l', mapM (wire_ws chat) l = Some l' /\ map tcp l' = map tcp l /\ Forall (serves_chat fnmatch chat) l'.
Proof.
  apply (wire_all numeric getaddrinfo getifaddrs). intros c s Hs Ht. destruct (served_wire_ws _ _ _ chat k c s Hs Ht) as (s' & Hw & Htcp & Hd).
  exists s'. split_and!; [done|done|]. unfold serves_chat, Servlet.getMatchedServlet. by rewrite Hd, lookup_singleton_eq.
Qed.

Lemma onServerReady_spec confs (st : app A) :
  (forall t, Forall2 served (filter (fun c => type c = t) confs) (servers st t)) ->
  exists st', onServerReady resource chat st = Ret (bool_decide (is_Some (getServer (bs "http") st)) && bool_decide (is_Some (getServer (bs "ws") st))) st'
    /\ (forall t, map tcp (servers st' t) = map tcp (servers st t))
    /\ Forall (serves_html fnmatch resource) (servers st' (bs "http"))
    /\ (is_Some (getServer (bs "http") st) -> Forall (serves_chat fnmatch chat) (servers st' (bs "ws"))).
Proof.
  intros Hf. pose proof (Hf (bs "http")) as Hh. pose proof (Hf (bs "ws")) as Hw. unfold servers, getServer in *. unfold onServerReady, getServer.
  destruct (m_servers st !! bs "http") as [lh|] eqn:Eh; cbn [from_option id] in *.
  2: { exists st. rewrite Eh. split_and!; [done|done|constructor|by intros []]. }
  rewrite bool_decide_true by by eexists. destruct (wire_all_http _ _ Hh) as (lh' & -> & Hth & Hsh). cbn [m_servers]. rewrite lookup_insert_ne by done.
  destruct (m_servers st !! bs "ws") as [lw|] eqn:Ew; cbn [from_option id] in *.
  - rewrite bool_decide_true by by eexists. destruct (wire_all_ws _ _ Hw) as (lw' & -> & Htw & Hsw). eexists. split; [done|]. cbn [m_servers]. split_and!.
    + intros t. destruct (decide (t = bs "ws")) as [->|]; [by rewrite lookup_insert_eq, Ew|]. rewrite lookup_insert_ne by done.
      destruct (decide (t = bs "http")) as [->|]; [by rewrite lookup_insert_eq, Eh|]. by rewrite lookup_insert_ne.
    + by rewrite lookup_insert_ne, lookup_insert_eq.
    + intros _. by rewrite lookup_insert_eq.
  - eexists. split; [done|]. cbn [m_servers]. split_and!.
    + intros t. destruct (decide (t = bs "http")) as [->|]; [by rewrite lookup_insert_eq, Eh|]. by rewrite lookup_insert_ne.
    + by rewrite lookup_insert_eq.
    + intros _. by rewrite lookup_insert_ne, Ew.
Qed.
End module.

(** The module connects the chat to the servers: on the servers that
    [run_fiber] made, [onServerReady] never uses a null pointer; it answers true
    exactly when there are entries of both types, and then every HTTP server
    serves the paths that match [/html/*] with the resource servlet and every
    WebSocket server serves [/liucxi/chat] with the chat; the servers and their
    sockets stay as they are. *)
Theorem chat_module_ready `{K : Kernel, L : !KernelLaws K, N : !ListenLaws K, PF : !Platform} {A : Type}
    (numeric : str -> option sockaddr) (getaddrinfo : str -> option str -> Z -> Z -> Z -> option (list sockaddr)) (getifaddrs : option (list ifaddr)) (moved : str)
    (confs : list TcpServerConf) (k : kst) (st : app A) (fnmatch : str -> str -> bool) (resource chat : @Servlet.servlet (Server.world A) Server.conn) :
  run_fiber numeric getaddrinfo getifaddrs moved confs (new_app k) = Ret Finished st ->
  exists ready st', onServerReady resource chat st = Ret ready st'
    /\ (ready = true <-> (exists c, c ∈ confs /\ type c = bs "http") /\ exists c, c ∈ confs /\ type c = bs "ws")
    /\ (forall t, map tcp (servers st' t) = map tcp (servers st t))
    /\ (ready = true -> Forall (serves_html fnmatch resource) (servers st' (bs "http")) /\ Forall (serves_chat fnmatch chat) (servers st' (bs "ws"))).
Proof.
  intros (d & rest & -> & _ & Hnew & Hsome & ->)%run_all. rewrite app_nil_r.
  assert (forall t, Forall2 (served numeric getaddrinfo getifaddrs (a_kernel st)) (filter (fun c => type c = t) d) (servers st t)) as Hf.
  { intros t. destruct (Hnew t) as (new & -> & Hf). exact Hf. }
  destruct (onServerReady_spec (a_kernel st) numeric getaddrinfo getifaddrs fnmatch resource chat d st Hf) as (st' & Hr & Htcp & Hh & Hw).
  eexists _, st'. split; [exact Hr|]. rewrite andb_true_iff, !bool_decide_eq_true. unfold getServer in *. rewrite !Hsome in *. cbn [new_app m_servers] in *. rewrite !lookup_empty in *.
  split_and!; [|done|].
  - split; intros [[?%is_Some_None|?] [?%is_Some_None|?]] || intros [? ?]; naive_solver.
  - intros [? ?]. split; [done|by apply Hw].
Qed.

(** Two servers, as in [conf/server.yml] of a small installation. *)
Definition c_numeric (s : str) : option sockaddr := if bool_decide (s = bs "0.0.0.0") then Some (SaIn (MkIn 0 0 (replicate 8 Byte.x00))) else None.
Definition c_confs : list TcpServerConf :=
  [MkConf [bs "0.0.0.0:8020"] 1 120000 (bs "http") (bs "web"); MkConf [bs "0.0.0.0:8072"; bs "0.0.0.0:8073"] 0 120000 (bs "ws") []].
Definition c_run : outcome (app (K := net_kernel) unit) result :=
  run_fiber (K := net_kernel) (PF := x86_64) c_numeric (fun _ _ _ _ _ => None) (Some []) [] c_confs (new_app (K := net_kernel) (MkNet ∅ ∅ ∅)).
Definition c_app : app (K := net_kernel) unit := match c_run with Ret _ st => st | _ => new_app (K := net_kernel) (MkNet ∅ ∅ ∅) end.
Lemma c_finished : c_run = Ret Finished c_app.
Proof.
  assert (match c_run with Ret Finished _ => true | _ => false end = true) as H by (vm_compute; reflexivity).
  unfold c_app. destruct c_run as [[|] st| | |]; first [reflexivity|discriminate H].
Qed.
Definition c_ws : TcpServerConf := MkConf [bs "0.0.0.0:8072"; bs "0.0.0.0:8073"] 0 120000 (bs "ws") [].
Lemma application_serves_witness :
  Forall2 (served (K := net_kernel) (PF := x86_64) c_numeric (fun _ _ _ _ _ => None) (Some []) (a_kernel c_app)) [c_ws] (default [] (getServer (bs "ws") c_app))
  /\ is_Some (getServer (bs "http") c_app).
Proof.
  pose proof (application_serves (K := net_kernel) (PF := x86_64) (A := unit) c_numeric (fun _ _ _ _ _ => None) (Some []) [] c_confs (MkNet ∅ ∅ ∅)) as H.
  change (run_fiber _ _ _ _ c_confs _) with c_run in H. rewrite c_finished in H. destruct H as (d & rest & E & Hf & Hs & ->). rewrite app_nil_r in E. subst d. split.
  - exact (Hf (bs "ws")).
  - apply Hs. eexists. split; [left|reflexivity].
Defined.
Definition c_resource : @Servlet.servlet (Server.world unit) Server.conn := ResourceServlet (fun _ => None) (bs "/opt/bin/").
Definition c_chat : @Servlet.servlet (Server.world unit) Server.conn := Servlet.FunctionWSServlet None None None.
Lemma chat_module_ready_witness :
  exists st', onServerReady c_resource c_chat c_app = Ret true st' /\ Forall (serves_chat (fun _ _ => false) c_chat) (servers st' (bs "ws")).
Proof.
  destruct (chat_module_ready (K := net_kernel) (PF := x86_64) c_numeric (fun _ _ _ _ _ => None) (Some []) [] c_confs (MkNet ∅ ∅ ∅) c_app (fun _ _ => false) c_resource c_chat c_finished)
    as (ready & st' & Hr & Hready & _ & Hs). assert (ready = true) as ->.
  { apply Hready. split; [eexists; split; [left|reflexivity]|eexists; split; [right; left|reflexivity]]. }
  exists st'. split; [exact Hr|]. by apply Hs.
Defined.

(** *** Behaviour to know of *)
(** A host name is taken for the name of an interface; when there is none of
    that name the address disappears, and the server is started with nothing to
    listen on. *)
Theorem host_name_serves_nothing :
  let lo := MkIf (bs "lo") (Some (SaIn (MkIn 0 16777343 (replicate 8 Byte.x00)))) (SaIn (MkIn 0 255 (replicate 8 Byte.x00))) in
  let lookup := fun _ _ _ _ _ => Some [SaIn (MkIn 0 16777343 (replicate 8 Byte.x00))] in
  resolve_one (PF := x86_64) c_numeric lookup (Some [lo]) (bs "localhost:8020") = Ret (Some []) tt
  /\ match run_fiber (K := toy_kernel) (PF := x86_64) (A := unit) c_numeric lookup (Some [lo]) [] [MkConf [bs "localhost:8020"] 0 120000 (bs "ws") []]
             (new_app (K := toy_kernel) (∅ : gset Z)) with
     | Ret Finished st => map (fun s => (m_socks (tcp s), m_stop (tcp s))) (servers st (bs "ws")) = [([], false)]
     | _ => False
     end.
Proof. split; vm_compute; reflexivity. Qed.

(** ** The start of the process *)
(** [init] goes on exactly when a way of running is asked for, no help is, the
    pid file is not that of a running process and the work path can be made. *)
Theorem init_starts (exe : str) (loaded : str -> str * str) (is_running mkdir : str -> bool) (program : str) (l : list (str * option str)) :
  zlen exe < 1024 -> forallb Env.option_ok l = true ->
  exists v e, init exe loaded is_running mkdir (program :: Env.show_options l) Env.new_env = Ret (v, e) tt
    /\ let '(work_path, pid) := loaded (Env.getConfigPath e) in
       (answer v = true) <-> (bs "p" ∉ map fst l) /\ (bs "s" ∈ map fst l \/ bs "d" ∈ map fst l)
                           /\ is_running (work_path ++ bs "/" ++ pid) = false /\ mkdir work_path = true.
Proof.
  intros Hx Hl. unfold init. destruct (Env.init_options exe program l (fold_left (fun e h => Env.addHelp (fst h) (snd h) e) helps Env.new_env) Hx Hl)
    as (e & -> & _ & Ha & _). cbn [obind negb].
  assert (forall k, Env.has k e = bool_decide (k ∈ map fst l)) as Hhas.
  { intros k. unfold Env.has. apply bool_decide_ext. rewrite Ha, Env.set_options_some. cbn. rewrite lookup_empty. split; [intros [[? ?]|]; done|by right]. }
  destruct (loaded (Env.getConfigPath e)) as [work_path pid] eqn:E. set (pid_file := work_path ++ bs "/" ++ pid).
  match goal with |- exists v e', ?o = _ /\ _ =>
    assert (exists v, o = Ret (v, e) tt /\ answer v = negb (Env.has (bs "p") e) && (Env.has (bs "s") e || Env.has (bs "d") e) && negb (is_running pid_file) && mkdir work_path)
      as (v & -> & Hv) end.
  { destruct (Env.has (bs "p") e), (Env.has (bs "s") e), (Env.has (bs "d") e), (is_running pid_file), (mkdir work_path); by eexists. }
  exists v, e. split; [done|]. rewrite E, Hv, !Hhas, !andb_true_iff, orb_true_iff, !negb_true_iff, !bool_decide_eq_true, bool_decide_eq_false. tauto.
Qed.
Lemma init_starts_witness :
  exists v e, init (bs "/opt/bin/chat") (fun _ => (bs "/opt", bs "chat.pid")) (fun _ => false) (fun _ => true) (bs "./chat" :: Env.show_options [(bs "d", None)]) Env.new_env = Ret (v, e) tt
    /\ answer v = true.
Proof.
  destruct (init_starts (bs "/opt/bin/chat") (fun _ => (bs "/opt", bs "chat.pid")) (fun _ => false) (fun _ => true) (bs "./chat") [(bs "d", None)]) as (v & e & H1 & H2); [reflexivity|reflexivity|].
  exists v, e. split; [exact H1|]. apply H2. split_and!; [by intros [[=]|[]%not_elem_of_nil]%elem_of_cons|right; by left|done|done].
Defined.

(** The supervisor starts a child again after every crash and counts the
    restarts; it ends with the first child that ends well, and with -1 when a
    child cannot be made. *)
Theorem supervisor_restarts (main_cb : Z) (crashes : list Z) (rest : list forked) (p : ProcessInfo) :
  Forall (fun s => s <> 0) crashes -> in_u 32 (restart_count p) ->
  let n := u32 (restart_count p + Z.of_nat (length crashes)) in
  let p' := MkInfo (parent_id p) (main_id p) (parent_start_time p) (main_start_time p) n in
  daemon_loop main_cb (map Waited crashes ++ Waited 0 :: rest) p = Ret 0 p'
  /\ daemon_loop main_cb (map Waited crashes ++ ForkFailed :: rest) p = Ret (-1) p'
  /\ forall pid t, daemon_loop main_cb (map Waited crashes ++ InChild pid t :: rest) p = Ret main_cb (MkInfo (parent_id p) pid (parent_start_time p) t n).
Proof.
  intros Hc. revert p. induction Hc as [|s crashes Hs _ IH]; intros p Hp; cbv zeta.
  - cbn. rewrite Z.add_0_r, uw_small by done. destruct p. by split_and!.
  - cbn [map List.app daemon_loop]. destruct (Z.eqb_spec s 0); [done|]. destruct (IH (MkInfo (parent_id p) (main_id p) (parent_start_time p) (main_start_time p) (u32 (restart_count p + 1)))) as (H1 & H2 & H3);
      [by apply uw_range|]. cbn [restart_count parent_id main_id parent_start_time main_start_time] in *.
    replace (u32 (restart_count p + Z.of_nat (length (s :: crashes)))) with (u32 (u32 (restart_count p + 1) + Z.of_nat (length crashes))); [by split_and!|].
    unfold uw. rewrite Zplus_mod_idemp_l. f_equal. cbn [length]. lia.
Qed.

(** A process that cannot serve is not started again: [main] ends with 0 whether
    it served, could not open the pid file or gave up on an entry of the
    configuration, and a supervisor whose child ends so is done. *)
Lemma failed_start_is_not_repeated `{K : Kernel, PF : !Platform} {A : Type} numeric getaddrinfo getifaddrs moved can_open pid work_path pid_file confs (st st' : app A) status files
    main_cb forks p :
  main numeric getaddrinfo getifaddrs moved can_open pid work_path pid_file confs st = Ret (status, files) st' ->
  status = 0 /\ daemon_loop main_cb (Waited status :: forks) p = Ret 0 p.
Proof.
  unfold main. destruct (can_open _); [|by intros [= <- <- <-]]. intros (r & st1 & _ & [= <- <- <-])%obind_inv. done.
Qed.

End Application.
