(* ===== verification/ServerConf.v ===== *)
(** * The configuration of servers as text: the [LexicalCast]s of
      [luwu/luwu/tcp_server.h]

    [servers] is a vector of [TcpServerConf]; their YAML form, over the interface
    of [LexicalCast]. *)
From S2P Require Import Prelude StdString Config LexicalCast LogConfig Application.
Import StdString LexicalCast LogConfig Application.
Local Open Scope Z_scope.

Module ServerConf.
Section yaml.
Context `{Y : Yaml}.

(** [node[k].as<T>(fallback)] *)
Definition as_or {T} (as_t : Config.Node -> option T) (k : str) (fallback : T) (n : Config.Node) : option T :=
  f ← field k n; Some (default fallback (f ≫= as_t)).
(** [node.size()] and [node[i]]; [None] is a node that is not defined. *)
Definition node_size (n : Config.Node) : nat :=
  match n with Config.NSeq l => length l | Config.NMap l => length l | _ => 0 end.
Definition node_at (i : nat) (n : Config.Node) : option Config.Node :=
  match n with
  | Config.NSeq l => l !! i
  | Config.NMap l => snd <$> List.find (fun e => bool_decide (fst e = to_string (Z.of_nat i))) l
  | _ => None
  end.
Definition conf_of_str (v : str) : option TcpServerConf :=
  node ← Load v;
  type ← as_or as_string (bs "type") (type default_conf) node;
  keepalive ← as_or as_int (bs "keepalive") (keepalive default_conf) node;
  timeout ← as_or as_int (bs "timeout") (timeout default_conf) node;
  name ← as_or as_string (bs "name") (conf_name default_conf) node;
  address ← field (bs "address") node;
  l ← match address with None => Some [] | Some a => mapM (fun i => x ← node_at i a; as_string x) (seq 0 (node_size a)) end;
  Some (MkConf l keepalive timeout type name).
Definition conf_to_str (conf : TcpServerConf) : option str :=
  Some (emit (node_map ([(bs "type", Config.NScalar (type conf)); (bs "name", Config.NScalar (conf_name conf));
    (bs "keepalive", Config.NScalar (to_string (keepalive conf))); (bs "timeout", Config.NScalar (to_string (timeout conf)))]
    ++ match address conf with [] => [] | l => [(bs "address", node_seq (map Config.NScalar l))] end))).
#[export] Instance cast_conf : LexicalCast TcpServerConf := {| of_str := conf_of_str; to_str := conf_to_str |}.
End yaml.

Definition conf_ok (c : TcpServerConf) : Prop := in_s 32 (keepalive c) /\ in_s 32 (timeout c).
Section form.
Context `{YL : YamlLaws}.
Lemma as_or_node_map {T} (as_t : Config.Node -> option T) k fallback l : NoDup (fst <$> l) ->
  as_or as_t k fallback (node_map l) = Some (default fallback ((snd <$> List.find (fun e => bool_decide (fst e = k)) l) ≫= as_t)).
Proof. intros Hn. unfold as_or. by rewrite field_node_map. Qed.
Lemma read_addresses l : mapM (fun i => x ← node_at i (Config.NSeq (map Config.NScalar l)); as_string x) (seq 0 (length l)) = Some l.
Proof.
  cbn [node_at]. assert (forall pre, mapM (fun i => x ← map Config.NScalar (pre ++ l) !! i; as_string x) (seq (length pre) (length l)) = Some l) as H; [|apply (H [])].
  induction l as [|a l IH]; intros pre; [done|]. cbn [length seq mapM]. rewrite list_lookup_fmap, lookup_app_r, Nat.sub_diag by lia. cbn. rewrite as_string_scalar. cbn.
  specialize (IH (pre ++ [a])). rewrite length_app, Nat.add_1_r, <- app_assoc in IH. cbn in IH. by rewrite IH.
Qed.
#[export] Instance printed_conf : Printed conf_ok.
Proof.
  intros c [Hk Ht]. eexists. split; [reflexivity|]. cbn. unfold conf_of_str. rewrite load_emit. cbn [mbind option_bind]. destruct c as [l k t ty nm]. cbn [keepalive timeout type conf_name address] in *.
  destruct l as [|a l]; rewrite !as_or_node_map, field_node_map by (cbn; apply (bool_decide_unpack _); vm_compute; exact I).
  - cbn [Datatypes.app List.find fst snd]. keys. cbn [fmap option_fmap option_map snd mbind option_bind]. by rewrite !as_string_scalar, !as_int_scalar.
  - cbn [Datatypes.app List.find fst snd]. keys. cbn [fmap option_fmap option_map snd mbind option_bind]. rewrite !as_string_scalar, !as_int_scalar by done.
    cbn [node_seq map]. change (Config.NScalar a :: map Config.NScalar l) with (map Config.NScalar (a :: l)). cbn [node_size]. rewrite length_map, read_addresses. done.
Qed.
End form.

#[export] Instance TcpServerConf_eq_decision : EqDecision TcpServerConf.
Proof. solve_decision. Defined.

(** C33. What the configuration of servers and of loggers says can be written down
    and read again: for [servers] of any number of servers with timeouts of an
    [int], and [logs] of definitions that name a file exactly for file appenders,
    the text of the variable, loaded into a variable, gives the same value. *)
Theorem configuration_roundtrip `{YL : YamlLaws} :
  (forall x y : Config.ConfigVar unit (list TcpServerConf), Forall conf_ok (Config.m_val x) -> Config.m_val (read_back cast_vector x y) = Config.m_val x)
  /\ (forall x y : Config.ConfigVar unit (set LoggerDefine), set_ok (P := define_ok) def_ltb (Config.m_val x) ->
        Config.m_val (read_back (cast_set def_ltb) x y) = Config.m_val x).
Proof.
  split.
  - apply (config_vectors_roundtrip conf_ok).
  - apply (config_sets_roundtrip define_ok def_ltb).
Qed.
Definition two_servers : list TcpServerConf :=
  [MkConf [bs "0.0.0.0:8020"; bs "127.0.0.1:8021"] 1 1000 (bs "http") (bs "resources"); MkConf [] 0 (-1) (bs "ws") (bs "chat")].
Lemma configuration_roundtrip_witness :
  let Y := coded_yaml in
  Config.m_val (read_back cast_vector (var two_servers) (var [])) = two_servers
  /\ Config.m_val (read_back (cast_set def_ltb) (var (Set_ [chat_def; http_def])) (var (Set_ []))) = Set_ [chat_def; http_def].
Proof.
  intros Y. destruct (configuration_roundtrip (Y := coded_yaml)) as [Hs Hl]. split; [apply Hs|apply Hl].
  - constructor; [|constructor; [|constructor]]; vm_compute; repeat split; discriminate.
  - split; [repeat constructor|]. constructor; [|constructor; [constructor|constructor]]. constructor; [by right|]. constructor; [by left|constructor].
Defined.

End ServerConf.
